(* ===== verification/_CoqProject ===== *)
-Q . S2P
Prelude.v
Rc.v
Mem.v
GuestMem.v
Extable.v
HostCheck.v
Ring.v
Net.v
ConetRing.v
Console.v
Vring.v
Mmu.v
Space.v
SpaceTables.v
SpaceDestroy.v
Bdev.v
Cobd.v
CobdOk.v
CobdUnits.v
CobdAsync.v
CobdAsyncOk.v
CobdAsyncRun.v
Host.v
Frames.v
FramesOk.v
Grow.v
Windows.v
Translation.v
Kload.v
KloadSpace.v
KloadPages.v
GuestAccess.v
KloadWindow.v
Loaded.v
Devices.v
Teardown.v
Loading.v
LoadChunk.v
RunGate.v
RunGateOk.v
RunGateCas.v
RunGateRun.v
Partial.v
Crossing.v
CrossingOk.v
CrossingMem.v
CrossingTime.v
Handles.v
HandlesOk.v
HandlesRun.v
HandlesPin.v
Slices.v
SlicesOk.v
SlicesPin.v
SlicesEvict.v
Gpu.v
Vrend.v
GpuRes.v
GpuServe.v
GpuOk.v
GpuHints.v
GpuCalm.v
GpuBacking.v
GpuRun.v
Fences.v
FencesRun.v
MainLoop.v
MainLoopOk.v
MainLoopRun.v
Demo.v
DemoDevices.v
VringTest.v
SpaceTest.v
DemoSpace.v
DemoCobd.v
DemoRunGate.v
DemoHandles.v
DemoGpu.v
DemoLoop.v
DemoCrossing.v
