(* ===== verification/Prelude.v ===== *)
(** MoCoLinux: the cooperative 64-bit driver and its devices.

    MoCoLinux runs a Linux kernel beside Windows on the same machine. A Windows
    driver (sources under [src/src/colinux]) lends the guest its memory, builds
    its page tables, and acts as the host half of its devices; user-mode
    daemons carry the network, console and GPU traffic. This library models the
    driver's memory management and device halves and proves what they promise.
    File names below are relative to [src/src/colinux].

    ** Parts and files

    Shared: [Prelude] (machine integers, masks, bounded loops), [Rc] (return
    codes of [common/common_base.h]; the result monad, with [Fault] for an
    access outside an object), [Mem] (host memory as bytes).

    Guest address space ([arch/x86_64/mmu.h], [arch/x86_64/space.c]): [Mmu] has
    the geometry; [Space] the builder and the walk, over the class [SpaceEnv] of
    what the file asks of its surroundings and [SpaceLaws] of what these
    promise; [SpaceTables] the pass that gives every table an address,
    [SpaceDestroy] the return of the tables, [SpaceTest] the self-test.

    Guest RAM and the loader ([kernel/kload.c]): [Host] is the operating system
    layer as a class; [Frames] the blocks and the two frame maps, [FramesOk]
    their invariant, [Grow], [Windows], [Translation] the operations on them;
    [Kload] the loader proper, [KloadSpace] its instance of [SpaceLaws],
    [GuestAccess] reading and writing through the page tables, [Loaded],
    [Loading], [LoadChunk] the loading of a kernel, [Teardown] the return of
    everything and its deferral while a user process has a window open.

    Devices: [GuestMem] is the class through which they see guest memory,
    [KloadWindow] the loader's instance of it. [Ring] is the record format,
    [Net] the network rings ([kernel/net.c]), [ConetRing] their user-side reader
    ([user/conet_ring.c] with the calls of [user/manager.c] and
    [kernel/manager.c] between), [Console] the console rings
    ([kernel/console.c]), [Devices] the GPU's kick counters ([kernel/vgpu.c])
    and the locks, [Vring] and [VringTest] the virtqueues of the GPU daemon
    ([os/winnt/user/cogpu-daemon/vring.c]).

    Block devices: [Bdev] is the backing file
    ([os/winnt/kernel/lowlevel/blockio.c]) over the class [NtFiles] of Windows
    calls, [Cobd] the unit table and the requests ([kernel/cobd.c]), verified in
    [CobdUnits] and [CobdOk] over the class [GuestPages] that [KloadPages]
    discharges for the loader. [CobdAsync] is the worker pool
    ([kernel/cobd_async.c]) as a step relation, with the making of its
    objects, [CobdAsyncOk] its invariant, [CobdAsyncRun] what follows of every
    run and the completion ring.

    Runs ([arch/x86_64/switch.c], from [co_atomic_read] to
    [co_arch_test_smp_lane], [co_arch_boot_prepare] and [co_arch_boot_loaded]):
    [RunGate] has who may enter a guest (the gate word, the abort flag, the
    registry lock, the slots, the passage pages) and what boots, secondaries,
    test lanes and stops do to it, as programs of atomic accesses that [rstep]
    interleaves; [RunGateOk] the invariant by roles and the rules for an access,
    [RunGateCas] those for the gate, [RunGateRun] the rules for the functions
    and the theorems.

    Crossing loop ([co_arch_vcpu_run] of [arch/x86_64/switch.c], with
    [co_arch_inject_tick] and [co_arch_forward_host_interrupt]): [GuestView]
    (in [GuestMem]) is the class of what the loop does to guest memory by way of a
    CR3, which [KloadWindow] discharges for the loader; [Extable] the guest's exception table
    and the recovery of its faults ([arch/x86_64/extable.c]), over [GuestMem];
    [HostCheck] the picture of the host's registers, its comparison and repair.
    [Crossing] is the loop over the class [CrossHost] of what it finds around it,
    the guest included: [iteration] is a turn, [voluntary] the guest's requests
    and [involuntary] its faults and the host's interrupts. [CrossingOk] has
    what each piece leaves alone and the theorems on the counts and the ends of
    a run; [CrossingMem] those on guest memory, over [CrossView]; [CrossingTime]
    termination, over [CrossClock], which says how time passes, and what an idle
    processor waits for, over [WaitLog], a world that writes its waits down.

    Open handles ([kernel/manager.c], from [co_manager_open] to
    [co_manager_open_desc_deactive_and_close], with the window and mapping
    ioctls): [Partial] is partial correctness and threads of sections; [Handles]
    the descriptors with the slices of guest RAM and the windows recorded in
    them; [dstep], which interleaves the sections of all threads, cleanups among
    them, with the loader's work and with references dropped by other modules;
    and [ostep], its runs in which handles are cleaned up in good order.
    [HandlesOk] has what descriptors and threads hold together, [HandlesRun] that
    every request keeps it, [HandlesPin] what follows, the books of a run in good
    order ([oinv]) and the answers of [KMAP_RANGE].

    GPU daemon ([os/winnt/user/cogpu-daemon/cogpu-daemon.c], [vrend.c] and the
    calls of [user/manager.c] they make): [Slices] is the cache of guest RAM
    mapped into the daemon, with its pins and its eviction, over the class
    [CogpuHost] of driver, heap and Windows; [SlicesOk] its invariant,
    [SlicesPin] pins by token and by resource, [SlicesEvict] the sweep. [Gpu] is
    the daemon's record over the classes [Renderer] (virglrenderer and the
    presenter) and [CogpuWindows]; [Vrend] the renderer's wrappers and the scan
    of a command stream; [GpuRes] backing and blobs; [GpuServe] the other
    requests and [serve]. [GpuOk] has the laws of the renderer and the
    invariant, [GpuHints] the scan, [GpuCalm] the requests that leave the
    backing alone ([calm_op], an effect predicate with its own hints),
    [GpuBacking] the others, [GpuRun] the turns of a daemon and
    the theorems. [Fences] is the ring of fence signals and the table of parked
    chains, over the class [Rings] of what publishes a chain, and
    [FencesRun] what holds of every history. [MainLoop] puts
    [Vring], [GpuServe], [Slices] and [Fences] together as the loop of [main],
    [MainLoopOk] has its pieces and [MainLoopRun] the simulation of the loop by
    [gpu_step] and [fence_step], through which their theorems hold of it.

    [Demo], [DemoDevices], [DemoSpace], [DemoCobd], [DemoRunGate],
    [DemoHandles], [DemoGpu], [DemoLoop] and [DemoCrossing] are concrete machines, built by the
    code's own operations, on which every theorem with hypotheses is applied.

    ** State and operations

    The statics of a C file are a record ([kload_statics], [net_statics],
    [cobd], [async], ...), a C function is a definition of the same name in the
    monad [M], an early return is [throw] or [fail_if], a loop is a step
    function named after the function ([frame_va_search_step], [walk_step])
    under [mloop] or [loop]. Pointers into guest RAM are host addresses;
    pointers into fixed arrays are indices. Integers are [Z] with [u32], [u64]
    and [ulong] (32 bits, LLP64) written where C wraps.

    Bounds: [loop 64] makes up to [2 ^ 64] steps, more than a loop over a 64-bit
    quantity can, and [loop 32] as many over an [int]; that it never runs out is part of the theorems (the while
    rules [loop_total] and [wp_mloop] ask for a variant). Other fuel is the
    constant of the source (four levels, eight passes, 512 entries). A run of
    the crossing loop is followed for a number of turns ([turns]); the theorems
    on runs hold for every number, and [run_ends_by_deadline] gives one that is
    enough.

    ** What the theorems show

    Page tables: mapping makes exactly the page asked for translate and changes
    no other translation, failures change none; the tables stay a tree and come
    back exactly once. Guest RAM: the two frame maps are inverse, block lookup
    by bisection is linear search, growth extends or changes nothing, windows
    are placed all or nothing. Loader: reading refines the page walk byte by
    byte, what is written is read, checksums are those of the reads, loading an
    image puts it at its addresses, teardown gives back everything exactly once
    and never under an open window. Devices: producers append to and consumers
    remove from a queue of records whatever the wrap; a popped descriptor chain
    covers exactly the guest's buffers and popping ends for any guest; block
    requests move the bytes they name and nothing else; the asynchronous
    requests are conserved and reported in order under every interleaving, and
    no wakeup is lost. Runs: under every interleaving a passage page is used and
    freed only while it is allocated and by one thread, nothing is left when all
    threads are back, boots and tests exclude each other and the words they
    meet over stay in range. Crossing loop: a fault is recovered as its
    exception entry says, in the guest's own frame, or the run stops with
    nothing touched; a tick arrives as an interrupt would or not at all; every
    crossing counted is the guest's work, its idling or an interrupt handed on,
    and only work is charged; an idle processor waits for its tick or the event
    its guest names, and doorbells do not postpone the tick; a secondary
    stops for a cause and never by counting; a run with a time limit ends; what
    a crossing damages of the host is named, and repaired where the run goes on.
    Handles: under every interleaving what a process
    maps through a handle is guest RAM that is still there; where handles are
    cleaned up in good order nothing leaks; and a
    request for a slice answers with the slice of the address or changes
    nothing. GPU daemon, for a guest whose requests are [honest]: however requests, sweeps and the pins of other threads
    follow each other, the renderer's iovecs lead into guest memory that is
    still mapped; every request returns, writes only what it may and echoes its
    fence; backing covers the guest's entries byte by byte; a sweep keeps what
    is pinned and what was used last; the main loop never gets stuck, answers
    every chain once, misses no signal and tells the guest of every answer.

    ** Assumptions

    A section under one of the driver's locks is one step; the loader's
    operations are atomic for the same reason. The guest may write its memory
    between any two operations; within one pop of a virtqueue, one snapshot of
    a ring or one block transfer its memory is what the first access sees.
    Windows is described by [HostLaws], [NtLaws] and [SpaceLaws], each with an
    instance that satisfies it; [UserMemLaws] says the same of mappings into a
    process. In [dstep] any thread may ask anything at any time, a handle's cleanup
    and the last reference dropped included; that nothing leaks is shown for
    [ostep], where a cleanup begins with no request on its handle in flight, none
    follows it, and modules drop only references they took. Out of that order the
    driver leaks ([DemoHandles.cleanup_race_leaks]). In both the loader's own work keeps the count of reservations and, while
    there are any, the blocks (shown for the teardown). A transfer of [CobdAsync] is one step, and the
    memory it moves is the business of [CobdOk].

    The renderer is described by [RendererLaws] (it holds the iovecs it was
    given until they are detached or their resource goes, and writes only there
    and in memory of its own), Windows and the driver by [CogpuLaws] and
    [CogpuWindowsLaws]. The guest of [GpuRun] attaches backing only to resources
    that have none and gives [GET_CAPSET] a buffer with room ([honest]: the
    findings [refused_attach_unpins] and [capset_overruns_reply] show why), and
    the tables of pins and blobs have fewer than [2 ^ 31] slots ([few_slots]),
    which the memory of the machine bounds first. In [MainLoop] joining a queue,
    popping (with the slice cache as the resolver, which may map and remember a
    slice at each descriptor), serving and draining are one step each.

    In [CrossHost] the guest is a function of the passage page and the world,
    bound only by what a theorem asks; a register of the host holds what was
    written to it last. [CrossClock] counts time in cycles that every part of the
    world may spend and none gives back; each of its calls returns, and asking the
    time takes time. The
    clock of 100 ns units is what the code compares, with its wrap; the theorem
    on the end of a run asks that it does not wrap during it.

    ** Not modelled

    The machine code of the switch, building a passage page and the self-tests
    of [arch/x86_64/switch.c] (assembly and machine state; in [RunGate] a
    crossing is one access to the page and the conditions of the loop are answers
    of the surroundings), its heartbeat line and its record of vectors seen, the ioctl dispatch of
    [kernel/manager.c] beyond the network, mapping and window requests, its
    messages between the processes of a monitor, the legacy 2.6 guest
    ([kernel/monitor.c], [block.c], [fileblock.c], [filesystem.c], [pages.c]),
    logging, the Windows network driver and the slirp stack (third-party code),
    the installer, the presentation half of the GPU daemon (a parameter of
    [Gpu]; its polls in the loop), its start-up and the heap addresses of the iovec copies. They are
    I/O, machine state, or code for a guest this driver no longer runs. *)
From stdpp Require Export base tactics numbers list list_numbers gmap.
From Stdlib Require Export ZArith Lia.

#[global] Open Scope Z_scope.

(** ** Machine-width integers

    The driver is built for 64-bit Windows, where [unsigned long] has 32 bits
    (LLP64; [arch/x86_64/mmu.h] says so next to [CO_ARCH_PAGE_MASK]). Values
    are mathematical integers; every place where C wraps is written out. *)

Definition u8 (x : Z) : Z := x mod 2 ^ 8.
Definition u16 (x : Z) : Z := x mod 2 ^ 16.
Definition u32 (x : Z) : Z := x mod 2 ^ 32.
Definition u64 (x : Z) : Z := x mod 2 ^ 64.

(** [unsigned long] of the Windows build. *)
Definition ulong (x : Z) : Z := u32 x.

(** The two's complement reading of a [w]-bit pattern. *)
Definition signed (w x : Z) : Z :=
  let r := x mod 2 ^ w in
  if decide (r < 2 ^ (w - 1)) then r else r - 2 ^ w.

Definition s32 (x : Z) : Z := signed 32 x.
Definition s64 (x : Z) : Z := signed 64 x.

Lemma u32_range x : 0 <= u32 x < 2 ^ 32.
Proof. apply Z.mod_pos_bound. lia. Qed.

Lemma u64_range x : 0 <= u64 x < 2 ^ 64.
Proof. apply Z.mod_pos_bound. lia. Qed.

Lemma u16_range x : 0 <= u16 x < 2 ^ 16.
Proof. apply Z.mod_pos_bound. lia. Qed.

Lemma u8_range x : 0 <= u8 x < 2 ^ 8.
Proof. apply Z.mod_pos_bound. lia. Qed.

Lemma u32_small x : 0 <= x < 2 ^ 32 -> u32 x = x.
Proof. apply Z.mod_small. Qed.

Lemma u64_small x : 0 <= x < 2 ^ 64 -> u64 x = x.
Proof. apply Z.mod_small. Qed.

Lemma u16_small x : 0 <= x < 2 ^ 16 -> u16 x = x.
Proof. apply Z.mod_small. Qed.

Lemma u8_small x : 0 <= x < 2 ^ 8 -> u8 x = x.
Proof. apply Z.mod_small. Qed.

Lemma u32_idemp x : u32 (u32 x) = u32 x.
Proof. apply u32_small, u32_range. Qed.

Lemma u64_idemp x : u64 (u64 x) = u64 x.
Proof. apply u64_small, u64_range. Qed.

Lemma signed_small w x : 0 < w -> 0 <= x < 2 ^ (w - 1) -> signed w x = x.
Proof.
  intros Hw Hx. assert (2 ^ (w - 1) < 2 ^ w) by (apply Z.pow_lt_mono_r; lia).
  unfold signed. rewrite Z.mod_small by lia. by rewrite decide_True by lia.
Qed.

(** Subtraction of free-running counters: the wrap of the sum cancels. *)
Lemma u32_sub_wrap a b : u32 (u32 (a + b) - a) = u32 b.
Proof.
  unfold u32. rewrite Zminus_mod_idemp_l. f_equal. lia.
Qed.

Lemma u32_sub_wrap_l a b : u32 (u32 a - u32 b) = u32 (a - b).
Proof. unfold u32. by rewrite Zminus_mod_idemp_l, Zminus_mod_idemp_r. Qed.

Lemma u32_sub_wrap_r a b : u32 (a - u32 b) = u32 (a - b).
Proof. unfold u32. by rewrite Zminus_mod_idemp_r. Qed.

(** Counters less than a turn apart are equal only if they are the same. *)
Lemma u32_inj a b : a <= b < a + 2 ^ 32 -> u32 a = u32 b -> a = b.
Proof.
  intros Hab He. assert (u32 (b - a) = 0) as Hz.
  { unfold u32. rewrite Zminus_mod. fold (u32 a) (u32 b). by rewrite He, Z.sub_diag. }
  rewrite u32_small in Hz by lia. lia.
Qed.

Lemma u32_add_wrap_l a b : u32 (u32 a + b) = u32 (a + b).
Proof. unfold u32. by rewrite Zplus_mod_idemp_l. Qed.

(** ** Masks and shifts *)

Lemma land_mask x n : 0 <= n -> Z.land x (2 ^ n - 1) = x mod 2 ^ n.
Proof.
  intros Hn. rewrite <- Z.land_ones by done. f_equal.
  rewrite Z.ones_equiv. lia.
Qed.

(** [x & ~(2^n - 1)] on an unsigned value clears the low [n] bits. *)
Lemma ldiff_mask x n : 0 <= n -> Z.ldiff x (2 ^ n - 1) = x - x mod 2 ^ n.
Proof.
  intros Hn.
  replace (2 ^ n - 1) with (Z.ones n) by (rewrite Z.ones_equiv; lia).
  rewrite Z.ldiff_ones_r by done.
  rewrite Z.shiftl_mul_pow2, Z.shiftr_div_pow2 by done.
  assert (2 ^ n <> 0) by (apply Z.pow_nonzero; lia).
  pose proof (Z.div_mod x (2 ^ n)). lia.
Qed.

(** Bits of [x] below [n] and of [y] at and above [n] do not meet: or is sum. *)
Lemma lor_disjoint_add x y n :
  0 <= n -> 0 <= x < 2 ^ n -> y mod 2 ^ n = 0 -> Z.lor y x = y + x.
Proof.
  intros Hn Hx Hy.
  assert (Z.land y x = 0) as Hl.
  { apply Z.bits_inj_iff'. intros i Hi. rewrite Z.land_spec, Z.bits_0.
    destruct (decide (i < n)) as [Hlt|Hge].
    - rewrite <- (Z.mod_pow2_bits_low y n i) by lia.
      rewrite Hy, Z.bits_0. done.
    - rewrite <- (Z.mod_small x (2 ^ n)) by lia.
      rewrite Z.mod_pow2_bits_high by lia. by rewrite andb_false_r. }
  pose proof (Z.add_lor_land y x). lia.
Qed.

(** ** Bounded loops

    A C loop is a step function: [inl] continues with a new loop state, [inr]
    leaves the loop with a result. [loop n] performs up to [2 ^ n] steps, so
    [loop 64] is as long as any loop over a 64-bit quantity can be while its
    fuel is a numeral of 64; [inl] as a final answer means the fuel ran out.
    [loop_total] is the while rule: an invariant and a variant below [2 ^ n]
    give a result. *)

Fixpoint loop {S R : Type} (n : nat) (step : S -> S + R) (s : S) : S + R :=
  match n with
  | O => step s
  | Datatypes.S n' =>
      match loop n' step s with
      | inl s' => loop n' step s'
      | inr r => inr r
      end
  end.

Lemma loop_partial {S R} (step : S -> S + R) (P : S -> Prop) (Q : R -> Prop)
    (mu : S -> Z) n s :
  (forall s, P s -> match step s with
                  | inl s' => P s' /\ 0 <= mu s' < mu s
                  | inr r => Q r end) ->
  P s ->
  match loop n step s with
  | inl s' => P s' /\ 0 <= mu s' <= mu s - 2 ^ Z.of_nat n
  | inr r => Q r
  end.
Proof.
  intros Hstep. revert s. induction n as [|n IH]; intros s HP.
  - cbn [loop]. specialize (Hstep s HP). destruct (step s); [|done].
    change (2 ^ Z.of_nat 0) with 1. destruct Hstep. split; [done|lia].
  - cbn [loop]. specialize (IH s HP) as IH1.
    destruct (loop n step s) as [s1|r]; [|done].
    destruct IH1 as [HP1 Hmu1]. specialize (IH s1 HP1) as IH2.
    destruct (loop n step s1) as [s2|r]; [|done].
    rewrite Nat2Z.inj_succ, Z.pow_succ_r by lia.
    destruct IH2; split; [done|lia].
Qed.

(** The invariant of a loop, whether or not it ends. *)
Lemma loop_inv {S R} (step : S -> S + R) (P : S -> Prop) (Q : R -> Prop) n s :
  (forall s, P s -> match step s with inl s' => P s' | inr r => Q r end) ->
  P s -> match loop n step s with inl s' => P s' | inr r => Q r end.
Proof.
  intros Hstep. revert s. induction n as [|n IH]; intros s HP; cbn [loop]; [by apply Hstep|].
  specialize (IH s HP) as IH1. destruct (loop n step s) as [s1|r]; [|done]. by apply IH.
Qed.

(** A step that leaves the loop ends it at any fuel. *)
Lemma loop_stop {S R} n (step : S -> S + R) s r : step s = inr r -> loop n step s = inr r.
Proof. intros Hs. induction n as [|n IH]; [done|]. cbn [loop]. by rewrite IH. Qed.

(** The while rule, total: invariant [P], variant [mu], postcondition [Q]. *)
Lemma loop_total {S R} (step : S -> S + R) (P : S -> Prop) (Q : R -> Prop)
    (mu : S -> Z) n s :
  (forall s, P s -> match step s with
                  | inl s' => P s' /\ 0 <= mu s' < mu s
                  | inr r => Q r end) ->
  P s -> mu s < 2 ^ Z.of_nat n ->
  exists r, loop n step s = inr r /\ Q r.
Proof.
  intros Hstep HP Hmu.
  pose proof (loop_partial step P Q mu n s Hstep HP) as H.
  destruct (loop n step s) as [s'|r]; [lia|by exists r].
Qed.

(** ** Arrays

    A C array of integers that starts zeroed, as a finite map from the index:
    an absent entry reads as zero. Bounds are the business of the code that
    indexes it. *)

Definition arr_get (a : gmap Z Z) (i : Z) : Z := default 0 (a !! i).
Definition arr_set (a : gmap Z Z) (i v : Z) : gmap Z Z := <[i := v]> a.

Lemma arr_get_set_eq a i v : arr_get (arr_set a i v) i = v.
Proof. unfold arr_get, arr_set. by rewrite lookup_insert_eq. Qed.

Lemma arr_get_set_ne a i j v : i <> j -> arr_get (arr_set a i v) j = arr_get a j.
Proof. intros. unfold arr_get, arr_set. by rewrite lookup_insert_ne. Qed.

Lemma arr_get_empty i : arr_get ∅ i = 0.
Proof. unfold arr_get. by rewrite lookup_empty. Qed.

Lemma arr_get_set a i j v :
  arr_get (arr_set a i v) j = if decide (i = j) then v else arr_get a j.
Proof.
  case_decide; [subst; apply arr_get_set_eq|by apply arr_get_set_ne].
Qed.

(** ** Lists *)

Lemma delete_insert_list {A} (t : nat) (a : A) (l : list A) : delete t (<[t := a]> l) = delete t l.
Proof. revert t. induction l as [|b l IH]; intros [|t]; cbn; [done..|]. f_equal. apply IH. Qed.


(** Replacing one element of a list that is mapped and joined. *)
Lemma bind_insert_perm {A B} (f : A -> list B) (l : list A) (i : nat) x y :
  l !! i = Some x ->
  (l ≫= f) ≡ₚ f x ++ (delete i l ≫= f) /\ (<[i := y]> l ≫= f) ≡ₚ f y ++ (delete i l ≫= f).
Proof.
  intros Hx. split.
  - rewrite (delete_Permutation l i x) at 1 by done. done.
  - rewrite (delete_Permutation (<[i := y]> l) i y).
    + cbn. by rewrite delete_insert_list.
    + by eapply list_lookup_insert_eq, lookup_lt_Some.
Qed.

(** ** Automation *)

Create HintDb co.
Create Rewrite HintDb co.
#[export] Hint Rewrite arr_get_set_eq arr_get_empty u32_idemp u64_idemp
  u32_add_wrap_l u32_sub_wrap_l : co.
#[export] Hint Resolve u8_range u16_range u32_range u64_range : co.

(** Split every conjunction and existential of the context. *)
Ltac destruct_hyps :=
  repeat match goal with
  | H : _ /\ _ |- _ => destruct H
  | H : exists _, _ |- _ => destruct H
  end.

(** Expose the wraps to [lia] as quotient and remainder equations. *)
Ltac zwrap :=
  unfold ulong, u8, u16, u32, u64 in *; Z.div_mod_to_equations; lia.

(** Replace boolean comparisons by the propositions they decide. *)
Ltac zbool :=
  repeat match goal with
  | H : (_ <? _) = true |- _ => apply Z.ltb_lt in H
  | H : (_ <? _) = false |- _ => apply Z.ltb_ge in H
  | H : (_ <=? _) = true |- _ => apply Z.leb_le in H
  | H : (_ <=? _) = false |- _ => apply Z.leb_gt in H
  | H : (_ =? _) = true |- _ => apply Z.eqb_eq in H
  | H : (_ =? _) = false |- _ => apply Z.eqb_neq in H
  | H : (_ && _)%bool = true |- _ => apply andb_true_iff in H as [? ?]
  | H : (_ || _)%bool = false |- _ => apply orb_false_iff in H as [? ?]
  | H : negb _ = true |- _ => apply negb_true_iff in H
  | H : negb _ = false |- _ => apply negb_false_iff in H
  end.

(** Case analysis on the condition of the first [if] of the goal. *)
Ltac case_cond :=
  match goal with
  | |- context [if ?b then _ else _] => destruct b eqn:?
  end; zbool.
