(* ===== verification/Rc.v ===== *)
(** Return codes of the driver and the result monad of its operations.

    [co_rc_t] packs an error number, a line number and a file number into 31
    bits with the sign on top ([common/common_base.h]). The first part models
    the packing; the second part is the monad in which the other files write
    the driver's functions: a state that survives a failure, a failure code,
    and [Fault] for an access outside an object, which no C program may make. *)
From S2P Require Import Prelude.

(** ** The packed code *)

(** [co_error_value_t] / [co_rc_value_t]: one constructor per name of
    [CO_ERRORS_X_MACRO], in its order, after the success value. *)
Inductive co_rc_value_t :=
  | CO_RC_OK
  | CO_RC_ERROR
  | CO_RC_PAE_ENABLED
  | CO_RC_VERSION_MISMATCHED
  | CO_RC_OUT_OF_MEMORY
  | CO_RC_OUT_OF_PAGES
  | CO_RC_NOT_FOUND
  | CO_RC_CANT_OPEN_VMLINUX_FILE
  | CO_RC_CANT_STAT_VMLINUX_FILE
  | CO_RC_ERROR_READING_VMLINUX_FILE
  | CO_RC_ERROR_INSTALLING_DRIVER
  | CO_RC_ERROR_REMOVING_DRIVER
  | CO_RC_ERROR_STARTING_DRIVER
  | CO_RC_ERROR_STOPPING_DRIVER
  | CO_RC_ERROR_ACCESSING_DRIVER
  | CO_RC_TRANSFER_OFF_BOUNDS
  | CO_RC_MONITOR_NOT_LOADED
  | CO_RC_BROKEN_PIPE
  | CO_RC_TIMEOUT
  | CO_RC_ACCESS_DENIED
  | CO_RC_COMPILER_MISMATCHED
  | CO_RC_INVALID_PARAMETER
  | CO_RC_HOSTMEM_USE_LIMIT_REACHED
  | CO_RC_INSTANCE_TERMINATED.

#[export] Instance co_rc_value_eq_dec : EqDecision co_rc_value_t.
Proof. solve_decision. Defined.

(** The C value of each constructor: zero, then the negated error numbers. *)
Definition co_rc_value (rc : co_rc_value_t) : Z :=
  match rc with
  | CO_RC_OK => 0
  | CO_RC_ERROR => -1
  | CO_RC_PAE_ENABLED => -2
  | CO_RC_VERSION_MISMATCHED => -3
  | CO_RC_OUT_OF_MEMORY => -4
  | CO_RC_OUT_OF_PAGES => -5
  | CO_RC_NOT_FOUND => -6
  | CO_RC_CANT_OPEN_VMLINUX_FILE => -7
  | CO_RC_CANT_STAT_VMLINUX_FILE => -8
  | CO_RC_ERROR_READING_VMLINUX_FILE => -9
  | CO_RC_ERROR_INSTALLING_DRIVER => -10
  | CO_RC_ERROR_REMOVING_DRIVER => -11
  | CO_RC_ERROR_STARTING_DRIVER => -12
  | CO_RC_ERROR_STOPPING_DRIVER => -13
  | CO_RC_ERROR_ACCESSING_DRIVER => -14
  | CO_RC_TRANSFER_OFF_BOUNDS => -15
  | CO_RC_MONITOR_NOT_LOADED => -16
  | CO_RC_BROKEN_PIPE => -17
  | CO_RC_TIMEOUT => -18
  | CO_RC_ACCESS_DENIED => -19
  | CO_RC_COMPILER_MISMATCHED => -20
  | CO_RC_INVALID_PARAMETER => -21
  | CO_RC_HOSTMEM_USE_LIMIT_REACHED => -22
  | CO_RC_INSTANCE_TERMINATED => -23
  end.

(** Field widths and offsets of the packed word. *)
Inductive co_bits_field := ERROR_CODE | LINE_NUM | FILE_ID | NEG.

Definition CO_BITS_COUNT (f : co_bits_field) : Z :=
  match f with ERROR_CODE => 10 | LINE_NUM => 11 | FILE_ID => 10 | NEG => 1 end.

Definition CO_BITS_OFFSET (f : co_bits_field) : Z :=
  match f with ERROR_CODE => 0 | LINE_NUM => 10 | FILE_ID => 21 | NEG => 31 end.

Definition CO_BITS_BUILD (f : co_bits_field) (value : Z) : Z :=
  Z.shiftl (Z.land value (2 ^ CO_BITS_COUNT f - 1)) (CO_BITS_OFFSET f).

Definition CO_BITS_GET (f : co_bits_field) (value : Z) : Z :=
  Z.land (Z.shiftr value (CO_BITS_OFFSET f)) (2 ^ CO_BITS_COUNT f - 1).

(** [CO_RC(name)] at a line of a file, as the [int] the macro builds. *)
Definition CO_RC_NEG_WRAPPER (name : co_rc_value_t) (line file : Z) : Z :=
  let v := co_rc_value name in
  s32 (Z.lor (Z.lor (Z.lor
        (CO_BITS_BUILD NEG (if decide (v < 0) then 1 else 0))
        (CO_BITS_BUILD ERROR_CODE (if decide (v < 0) then - v else v)))
        (CO_BITS_BUILD LINE_NUM line))
        (CO_BITS_BUILD FILE_ID file)).

Definition CO_RC_GET_CODE (value : Z) : Z :=
  if decide (value < 0) then - CO_BITS_GET ERROR_CODE value
  else CO_BITS_GET ERROR_CODE value.

Definition CO_RC_GET_LINE (value : Z) : Z := CO_BITS_GET LINE_NUM value.
Definition CO_RC_GET_FILE_ID (value : Z) : Z := CO_BITS_GET FILE_ID value.

(** [CO_OK] on the packed word. *)
Definition CO_OK_packed (value : Z) : bool := bool_decide (0 <= value).

(** [CO_OK] on the value the model passes around. *)
Definition CO_OK (rc : co_rc_value_t) : bool := bool_decide (rc = CO_RC_OK).

Lemma co_rc_value_bounds rc : -23 <= co_rc_value rc <= 0.
Proof. destruct rc; simpl; lia. Qed.

Lemma co_bits_build_eq f v :
  CO_BITS_BUILD f v = (v mod 2 ^ CO_BITS_COUNT f) * 2 ^ CO_BITS_OFFSET f.
Proof.
  unfold CO_BITS_BUILD. rewrite land_mask by (destruct f; simpl; lia).
  apply Z.shiftl_mul_pow2. destruct f; simpl; lia.
Qed.

Lemma co_bits_get_eq f v :
  CO_BITS_GET f v = (v / 2 ^ CO_BITS_OFFSET f) mod 2 ^ CO_BITS_COUNT f.
Proof.
  unfold CO_BITS_GET. rewrite land_mask by (destruct f; simpl; lia).
  by rewrite Z.shiftr_div_pow2 by (destruct f; simpl; lia).
Qed.

(** The packed word as a sum of its four disjoint fields. *)
Lemma co_rc_wrapper_sum name line file :
  let v := co_rc_value name in
  CO_RC_NEG_WRAPPER name line file =
    - v + (line mod 2 ^ 11) * 2 ^ 10 + (file mod 2 ^ 10) * 2 ^ 21
    - (if decide (v < 0) then 2 ^ 31 else 0).
Proof.
  intros v. unfold CO_RC_NEG_WRAPPER. fold v.
  rewrite !co_bits_build_eq. cbn [CO_BITS_COUNT CO_BITS_OFFSET].
  pose proof (co_rc_value_bounds name) as Hv. fold v in Hv.
  set (neg := if decide (v < 0) then 1 else 0).
  replace (if decide (v < 0) then - v else v) with (- v)
    by (case_decide; lia).
  assert (0 <= neg <= 1) by (unfold neg; case_decide; lia).
  rewrite (Z.mod_small neg), (Z.mod_small (- v)) by lia.
  pose proof (Z.mod_pos_bound line (2 ^ 11)).
  pose proof (Z.mod_pos_bound file (2 ^ 10)).
  set (l := line mod 2 ^ 11) in *. set (f := file mod 2 ^ 10) in *.
  rewrite (lor_disjoint_add (- v * 2 ^ 0) (neg * 2 ^ 31) 31)
    by (try lia; apply Z.mod_mul; lia).
  rewrite (Z.lor_comm _ (l * 2 ^ 10)).
  assert (Z.lor (l * 2 ^ 10) (neg * 2 ^ 31 + - v * 2 ^ 0)
          = neg * 2 ^ 31 + (l * 2 ^ 10 + - v)) as ->.
  { rewrite <- (lor_disjoint_add (- v) (l * 2 ^ 10) 10)
      by (try lia; apply Z.mod_mul; lia).
    rewrite <- (lor_disjoint_add (- v * 2 ^ 0) (neg * 2 ^ 31) 31)
      by (try lia; apply Z.mod_mul; lia).
    rewrite <- (lor_disjoint_add (Z.lor (l * 2 ^ 10) (- v)) (neg * 2 ^ 31) 31).
    - rewrite Z.mul_1_r. rewrite Z.lor_assoc, (Z.lor_comm _ (neg * 2 ^ 31)).
      by rewrite <- Z.lor_assoc.
    - lia.
    - rewrite (lor_disjoint_add (- v) (l * 2 ^ 10) 10)
        by (try lia; apply Z.mod_mul; lia). lia.
    - apply Z.mod_mul; lia. }
  assert (Z.lor (neg * 2 ^ 31 + (l * 2 ^ 10 + - v)) (f * 2 ^ 21)
          = neg * 2 ^ 31 + (f * 2 ^ 21 + (l * 2 ^ 10 + - v))) as ->.
  { rewrite <- (lor_disjoint_add (l * 2 ^ 10 + - v) (neg * 2 ^ 31) 31)
      by (try lia; apply Z.mod_mul; lia).
    rewrite <- Z.lor_assoc, (Z.lor_comm (l * 2 ^ 10 + - v)).
    rewrite (lor_disjoint_add (l * 2 ^ 10 + - v) (f * 2 ^ 21) 21)
      by (try lia; apply Z.mod_mul; lia).
    apply (lor_disjoint_add _ _ 31); [lia|lia|apply Z.mod_mul; lia]. }
  unfold s32, signed, neg. repeat case_decide; Z.div_mod_to_equations; lia.
Qed.

(** ** The result monad

    [M W A]: an operation on a state [W]. A failure keeps the state reached
    when it was raised, as an early [return CO_RC(...)] does in C. *)

Inductive outcome (A : Type) :=
  | Ret (a : A)
  | Fail (rc : co_rc_value_t)
  | Fault.
Arguments Ret {A} a.
Arguments Fail {A} rc.
Arguments Fault {A}.

Definition M (W A : Type) : Type := W -> outcome A * W.

#[export] Instance M_ret W : MRet (M W) := fun A a w => (Ret a, w).

#[export] Instance M_bind W : MBind (M W) := fun A B k m w =>
  match m w with
  | (Ret a, w') => k a w'
  | (Fail rc, w') => (Fail rc, w')
  | (Fault, w') => (Fault, w')
  end.

Definition throw {W A} (rc : co_rc_value_t) : M W A := fun w => (Fail rc, w).
Definition fault {W A} : M W A := fun w => (Fault, w).
Definition gets {W A} (f : W -> A) : M W A := fun w => (Ret (f w), w).
Definition modify {W} (f : W -> W) : M W unit := fun w => (Ret tt, f w).

(** [if (cond) return CO_RC(rc);] *)
Definition fail_if {W} (cond : bool) (rc : co_rc_value_t) : M W unit :=
  if cond then throw rc else mret tt.

(** An index the C code uses without a check must lie inside the object. *)
Definition in_bounds {W} (ok : bool) : M W unit :=
  if ok then mret tt else fault.

(** Run an operation and keep going with its outcome, whatever the code. *)
Definition attempt {W A} (m : M W A) : M W (A + co_rc_value_t) := fun w =>
  match m w with
  | (Ret a, w') => (Ret (inl a), w')
  | (Fail rc, w') => (Ret (inr rc), w')
  | (Fault, w') => (Fault, w')
  end.

(** [while (1)]: [inl] goes round again, [inr] leaves the loop. *)
Definition mloop_step {W A B} (body : A -> M W (A + B)) (s : A * W) :
    (A * W) + (outcome B * W) :=
  match body s.1 s.2 with
  | (Ret (inl a'), w') => inl (a', w')
  | (Ret (inr b), w') => inr (Ret b, w')
  | (Fail rc, w') => inr (Fail rc, w')
  | (Fault, w') => inr (Fault, w')
  end.

Definition mloop {W A B} (body : A -> M W (A + B)) (a : A) : M W B := fun w =>
  match loop 64 (mloop_step body) (a, w) with
  | inl s => (Fault, s.2)
  | inr r => r
  end.

(** [for (i = lo; i < lo + n; i++)] with a body that only changes the state. *)
Fixpoint mfor {W} (n : nat) (lo : Z) (body : Z -> M W unit) : M W unit :=
  match n with
  | O => mret tt
  | S n' => body lo ;; mfor n' (lo + 1) body
  end.

(** ** Weakest preconditions

    [wp m Q E w]: run on [w], [m] does not fault and does not run out of
    fuel; a result satisfies [Q], a failure [E]. *)

Definition wp {W A} (m : M W A) (Q : A -> W -> Prop)
    (E : co_rc_value_t -> W -> Prop) (w : W) : Prop :=
  match m w with
  | (Ret a, w') => Q a w'
  | (Fail rc, w') => E rc w'
  | (Fault, _) => False
  end.

Section wp_rules.
Context {W : Type}.
Implicit Types (w : W).

Lemma wp_ret {A} (a : A) Q E w : Q a w -> wp (mret a) Q E w.
Proof. done. Qed.

Lemma wp_throw {A} rc (Q : A -> W -> Prop) (E : co_rc_value_t -> W -> Prop) w :
  E rc w -> wp (throw rc) Q E w.
Proof. done. Qed.

Lemma wp_bind {A B} (m : M W A) (k : A -> M W B) Q E w :
  wp m (fun a => wp (k a) Q E) E w -> wp (m ≫= k) Q E w.
Proof. unfold wp, mbind, M_bind. by destruct (m w) as [[a|rc|] w']. Qed.

Lemma wp_gets {A} (f : W -> A) Q E w : Q (f w) w -> wp (gets f) Q E w.
Proof. done. Qed.

Lemma wp_modify (f : W -> W) Q E w : Q tt (f w) -> wp (modify f) Q E w.
Proof. done. Qed.

Lemma wp_fail_if b rc (Q : unit -> W -> Prop) (E : co_rc_value_t -> W -> Prop) w :
  (b = true -> E rc w) -> (b = false -> Q tt w) -> wp (fail_if b rc) Q E w.
Proof. unfold wp, fail_if. destruct b; simpl; auto. Qed.

Lemma wp_in_bounds b Q E w : b = true -> Q tt w -> wp (in_bounds b) Q E w.
Proof. by intros ->. Qed.

Lemma wp_attempt {A} (m : M W A) Q E w :
  wp m (fun a => Q (inl a)) (fun rc => Q (inr rc)) w -> wp (attempt m) Q E w.
Proof. unfold wp, attempt. by destruct (m w) as [[a|rc|] w']. Qed.

Lemma wp_mono {A} (m : M W A) (Q Q' : A -> W -> Prop)
    (E E' : co_rc_value_t -> W -> Prop) w :
  wp m Q E w -> (forall a w', Q a w' -> Q' a w') ->
  (forall rc w', E rc w' -> E' rc w') -> wp m Q' E' w.
Proof. unfold wp. destruct (m w) as [[a|rc|] w']; auto. Qed.

Lemma wp_ret_mono {A} (m : M W A) (Q Q' : A -> W -> Prop) E w :
  wp m Q E w -> (forall a w', Q a w' -> Q' a w') -> wp m Q' E w.
Proof. intros Hm HQ. by eapply wp_mono; [exact Hm|exact HQ|]. Qed.

(** The while rule for [mloop]: invariant [I], variant [mu]. *)
Lemma wp_mloop {A B} (body : A -> M W (A + B)) (I : A -> W -> Prop)
    (mu : A -> W -> Z) a Q E w :
  (forall a' w', I a' w' ->
     wp (body a') (fun r w'' => match r with
                   | inl a'' => I a'' w'' /\ 0 <= mu a'' w'' < mu a' w'
                   | inr b => Q b w'' end) E w') ->
  I a w -> mu a w < 2 ^ 64 -> wp (mloop body a) Q E w.
Proof.
  intros Hbody HI Hmu. unfold wp, mloop.
  destruct (loop_total (mloop_step body) (fun s => I s.1 s.2)
    (fun r => match r with (Ret b, w') => Q b w' | (Fail rc, w') => E rc w'
              | (Fault, _) => False end)
    (fun s => mu s.1 s.2) 64 (a, w)) as (r & -> & Hr); [|done..].
  intros [a' w'] HI'. specialize (Hbody a' w' HI').
  unfold wp in Hbody. unfold mloop_step. cbn [fst snd] in *.
  destruct (body a' w') as [[[a''|b]|rc|] w'']; cbn [fst snd]; auto.
Qed.

Lemma wp_mfor (body : Z -> M W unit) (I : Z -> W -> Prop) n lo
    (Q : unit -> W -> Prop) E w :
  (forall i w', lo <= i < lo + Z.of_nat n -> I i w' ->
     wp (body i) (fun _ => I (i + 1)) E w') ->
  I lo w -> (forall w', I (lo + Z.of_nat n) w' -> Q tt w') ->
  wp (mfor n lo body) Q E w.
Proof.
  revert lo w. induction n as [|n IH]; intros lo w Hbody HI HQ.
  - apply wp_ret, HQ. by rewrite Z.add_0_r.
  - apply wp_bind. eapply wp_mono; [apply Hbody; [lia|done]| |done].
    intros [] w' HI'. apply IH; [|done|].
    + intros i w'' Hi. apply Hbody. lia.
    + intros w''. replace (lo + 1 + Z.of_nat n) with (lo + Z.of_nat (S n)) by lia.
      apply HQ.
Qed.
End wp_rules.

(** What [wp] says about a run. *)
Lemma wp_run {W A} (m : M W A) Q E w :
  wp m Q E w ->
  match m w with
  | (Ret a, w') => Q a w'
  | (Fail rc, w') => E rc w'
  | (Fault, _) => False
  end.
Proof. done. Qed.

(** A run that cannot fail. *)
Lemma wp_total {W A} (m : M W A) Q w :
  wp m Q (fun _ _ => False) w -> exists a w', m w = (Ret a, w') /\ Q a w'.
Proof. unfold wp. destruct (m w) as [[a|rc|] w']; [eauto|done..]. Qed.

Lemma wp_cases {W A} (m : M W A) Q E w :
  wp m Q E w -> (exists a w', m w = (Ret a, w') /\ Q a w') \/
                (exists rc w', m w = (Fail rc, w') /\ E rc w').
Proof. unfold wp. destruct (m w) as [[a|rc|] w']; [eauto|eauto 6|done]. Qed.

(** Running a prefix whose outcome is known. *)
Lemma run_bind {W A B} (m : M W A) (f : A -> M W B) w a w' :
  m w = (Ret a, w') -> (m ≫= f) w = f a w'.
Proof. unfold mbind, M_bind. by intros ->. Qed.

Lemma run_bind_fault {W A B} (m : M W A) (f : A -> M W B) w w' :
  m w = (Fault, w') -> (m ≫= f) w = (Fault, w').
Proof. unfold mbind, M_bind. by intros ->. Qed.

Lemma run_passes {W} b rc (w : W) : b = false -> fail_if b rc w = (Ret tt, w).
Proof. by intros ->. Qed.

Lemma mloop_fault {W A B} (body : A -> M W (A + B)) a w w' :
  body a w = (Fault, w') -> mloop body a w = (Fault, w').
Proof.
  intros Hb. unfold mloop. rewrite (loop_stop 64 _ (a, w) (Fault, w')); [done|].
  unfold mloop_step. cbn [fst snd]. by rewrite Hb.
Qed.

Lemma mloop_leaves {W A B} (body : A -> M W (A + B)) a b w w' :
  body a w = (Ret (inr b), w') -> mloop body a w = (Ret b, w').
Proof.
  intros Hb. unfold mloop. rewrite (loop_stop 64 _ (a, w) (Ret b, w')); [done|].
  unfold mloop_step. cbn [fst snd]. by rewrite Hb.
Qed.

(** The outcome a run that succeeds ended with. *)
Lemma run_ret {W A} (m : M W A) w a : (m w).1 = Ret a -> m w = (Ret a, (m w).2).
Proof. destruct (m w). cbn. by intros ->. Qed.

Lemma run_fail {W A} (m : M W A) w rc : (m w).1 = Fail rc -> m w = (Fail rc, (m w).2).
Proof. destruct (m w). cbn. by intros ->. Qed.

(** A postcondition, given what the run computes to. *)
Lemma wp_computed {W A} (m : M W A) Q E w a :
  wp m Q E w -> (m w).1 = Ret a -> Q a (m w).2.
Proof. unfold wp. destruct (m w) as [[x|rc|] w']; cbn; intros HQ He; by simplify_eq. Qed.

(** One step of a [wp] proof. *)
Ltac wp_step :=
  lazymatch goal with
  | |- wp (mret _) _ _ _ => apply wp_ret
  | |- wp (throw _) _ _ _ => apply wp_throw
  | |- wp (_ ≫= _) _ _ _ => apply wp_bind
  | |- wp (gets _) _ _ _ => apply wp_gets
  | |- wp (modify _) _ _ _ => apply wp_modify
  | |- wp (fail_if _ _) _ _ _ => apply wp_fail_if; intros ?; zbool
  | |- wp (in_bounds _) _ _ _ => apply wp_in_bounds
  | |- wp (attempt _) _ _ _ => apply wp_attempt
  | |- wp (if ?b then _ else _) _ _ _ => destruct b eqn:?; zbool
  end.

(** ** Properties of the packed code *)

(** Packing a return code and reading its error code back gives the code:
    [CO_RC_GET_CODE (CO_RC (name))] is the value of [name], at any line and
    in any file. *)
Theorem co_rc_code_roundtrip name line file :
  CO_RC_GET_CODE (CO_RC_NEG_WRAPPER name line file) = co_rc_value name
  /\ CO_OK_packed (CO_RC_NEG_WRAPPER name line file) = CO_OK name.
Proof.
  unfold CO_RC_GET_CODE, CO_OK_packed, CO_OK.
  rewrite co_rc_wrapper_sum, !co_bits_get_eq. cbn [CO_BITS_COUNT CO_BITS_OFFSET].
  pose proof (co_rc_value_bounds name) as Hv.
  pose proof (Z.mod_pos_bound line (2 ^ 11)).
  pose proof (Z.mod_pos_bound file (2 ^ 10)).
  assert (name = CO_RC_OK <-> co_rc_value name = 0) as Hok
    by (destruct name; simpl; split; first [done|lia]).
  set (l := line mod 2 ^ 11) in *. set (f := file mod 2 ^ 10) in *.
  rewrite Z.div_1_r. split.
  - repeat case_decide; Z.div_mod_to_equations; lia.
  - apply bool_decide_ext. rewrite Hok. case_decide; lia.
Qed.
