(* ===== verification/Mem.v ===== *)
(** Byte-addressed host memory.

    The driver reaches guest RAM through host virtual addresses (blocks are
    kernel-contiguous), so guest words, ring bytes and page-table entries all
    live in one memory: a function from host address to byte. Words are stored
    little-endian, as on x86. *)
From S2P Require Import Prelude.

Definition mem : Type := Z -> Z.

Definition load (m : mem) (a : Z) : Z := u8 (m a).

(** [n] bytes from [a]. *)
Definition load_bytes (m : mem) (a n : Z) : list Z := load m <$> seqZ a n.

(** [memcpy(a, bs, length)] into memory. *)
Definition store_bytes (m : mem) (a : Z) (bs : list Z) : mem := fun x =>
  if decide (a <= x < a + Z.of_nat (length bs))
  then default 0 (bs !! Z.to_nat (x - a)) else m x.

(** [co_memset(a, b, n)]. *)
Definition co_memset (m : mem) (a b n : Z) : mem := fun x =>
  if decide (a <= x < a + n) then b else m x.

(** Little-endian words. *)
Fixpoint le_bytes (n : nat) (v : Z) : list Z :=
  match n with
  | O => []
  | S n' => u8 v :: le_bytes n' (v / 2 ^ 8)
  end.

Fixpoint le_join (bs : list Z) : Z :=
  match bs with
  | [] => 0
  | b :: bs' => u8 b + 2 ^ 8 * le_join bs'
  end.

Definition load_u32 (m : mem) (a : Z) : Z := le_join (load_bytes m a 4).
Definition load_u64 (m : mem) (a : Z) : Z := le_join (load_bytes m a 8).
Definition store_u32 (m : mem) (a v : Z) : mem := store_bytes m a (le_bytes 4 v).
Definition store_u64 (m : mem) (a v : Z) : mem := store_bytes m a (le_bytes 8 v).

Definition is_byte (b : Z) : Prop := 0 <= b < 2 ^ 8.

(** ** Little-endian round trips *)

Lemma length_le_bytes n v : length (le_bytes n v) = n.
Proof. revert v. induction n; intros; simpl; auto. Qed.

Lemma le_bytes_bytes n v : Forall is_byte (le_bytes n v).
Proof.
  revert v. induction n; intros v; simpl; constructor; [apply u8_range|done].
Qed.

Lemma le_join_bytes n v : le_join (le_bytes n v) = v mod 2 ^ (8 * Z.of_nat n).
Proof.
  revert v. induction n as [|n IH]; intros v; simpl le_bytes; simpl le_join.
  - by rewrite Z.mod_1_r.
  - rewrite IH, (u8_small (u8 v)) by apply u8_range.
    replace (8 * Z.of_nat (S n)) with (8 + 8 * Z.of_nat n) by lia.
    rewrite Z.pow_add_r by lia. rewrite Z.rem_mul_r; [|lia|].
    + done.
    + apply Z.pow_pos_nonneg; lia.
Qed.

Lemma le_join_range bs : 0 <= le_join bs < 2 ^ (8 * Z.of_nat (length bs)).
Proof.
  induction bs as [|b bs IH]; simpl le_join; [simpl; lia|].
  pose proof (u8_range b).
  replace (8 * Z.of_nat (length (b :: bs))) with (8 + 8 * Z.of_nat (length bs))
    by (cbn [length]; lia).
  rewrite Z.pow_add_r by lia. change (2 ^ 8) with 256 in *. lia.
Qed.

Lemma le_bytes_join bs :
  Forall is_byte bs -> le_bytes (length bs) (le_join bs) = bs.
Proof.
  induction 1 as [|b bs Hb _ IH]; [done|].
  cbn [length le_bytes le_join]. unfold is_byte in Hb.
  rewrite (u8_small b) by done.
  assert ((b + 2 ^ 8 * le_join bs) / 2 ^ 8 = le_join bs) as ->
    by (change (2 ^ 8) with 256 in *; Z.div_mod_to_equations; lia).
  rewrite IH. f_equal. unfold u8. change (2 ^ 8) with 256 in *.
  Z.div_mod_to_equations; lia.
Qed.

(** ** Reading back what was written *)

Lemma length_load_bytes m a n : length (load_bytes m a n) = Z.to_nat n.
Proof. unfold load_bytes. by rewrite length_fmap, length_seqZ. Qed.

Lemma load_bytes_bytes m a n : Forall is_byte (load_bytes m a n).
Proof. apply Forall_fmap, Forall_true. intros. apply u8_range. Qed.

Lemma load_bytes_lookup m a n i :
  0 <= i < n -> load_bytes m a n !! Z.to_nat i = Some (load m (a + i)).
Proof.
  intros Hi. unfold load_bytes. rewrite list_lookup_fmap.
  rewrite lookup_seqZ_lt by lia. simpl. do 2 f_equal. lia.
Qed.

Lemma load_bytes_ext m m' a n :
  (forall x, a <= x < a + n -> load m x = load m' x) ->
  load_bytes m a n = load_bytes m' a n.
Proof.
  intros H. unfold load_bytes. apply list_fmap_ext. intros i x Hx.
  apply lookup_seqZ in Hx. apply H. lia.
Qed.

Lemma load_bytes_app m a n k :
  0 <= n -> 0 <= k ->
  load_bytes m a (n + k) = load_bytes m a n ++ load_bytes m (a + n) k.
Proof.
  intros. unfold load_bytes. by rewrite seqZ_app, fmap_app.
Qed.

Lemma load_store m a bs x :
  Forall is_byte bs ->
  load (store_bytes m a bs) x =
    if decide (a <= x < a + Z.of_nat (length bs))
    then default 0 (bs !! Z.to_nat (x - a)) else load m x.
Proof.
  intros Hbs. unfold load, store_bytes. case_decide as Hx; [|done].
  destruct (lookup_lt_is_Some_2 bs (Z.to_nat (x - a))) as [b Hb]; [lia|].
  rewrite Hb. simpl. apply u8_small.
  exact (proj1 (Forall_lookup _ _) Hbs _ _ Hb).
Qed.

Lemma load_bytes_store_eq m a bs :
  Forall is_byte bs ->
  load_bytes (store_bytes m a bs) a (Z.of_nat (length bs)) = bs.
Proof.
  intros Hbs. apply list_eq. intros i.
  destruct (decide (i < length bs)%nat) as [Hi|Hi].
  - replace i with (Z.to_nat (Z.of_nat i)) at 1 by lia.
    rewrite load_bytes_lookup by lia. rewrite load_store by done.
    rewrite decide_True by lia.
    replace (Z.to_nat (a + Z.of_nat i - a)) with i by lia.
    destruct (lookup_lt_is_Some_2 bs i Hi) as [b ->]. done.
  - rewrite !lookup_ge_None_2; [done|lia|].
    rewrite length_load_bytes. lia.
Qed.

Lemma load_bytes_store_ne m a bs b n :
  b + n <= a \/ a + Z.of_nat (length bs) <= b ->
  load_bytes (store_bytes m a bs) b n = load_bytes m b n.
Proof.
  intros H. apply load_bytes_ext. intros x Hx.
  unfold load, store_bytes. rewrite decide_False by lia. done.
Qed.

Lemma load_bytes_memset_ne m a v k b n :
  b + n <= a \/ a + k <= b ->
  load_bytes (co_memset m a v k) b n = load_bytes m b n.
Proof.
  intros H. apply load_bytes_ext. intros x Hx.
  unfold load, co_memset. rewrite decide_False by lia. done.
Qed.

Lemma le_join_zeros (l : list Z) (f : Z -> Z) :
  (forall x, x ∈ l -> f x = 0) -> le_join (f <$> l) = 0.
Proof.
  induction l as [|x l IH]; intros Hl; [done|].
  rewrite fmap_cons. cbn [le_join]. rewrite (Hl x) by constructor.
  rewrite IH; [done|]. intros y Hy. apply Hl. by constructor.
Qed.

(** ** Words *)

Lemma load_u64_range m a : 0 <= load_u64 m a < 2 ^ 64.
Proof.
  pose proof (le_join_range (load_bytes m a 8)) as H.
  rewrite length_load_bytes in H. exact H.
Qed.

Lemma load_u32_range m a : 0 <= load_u32 m a < 2 ^ 32.
Proof.
  pose proof (le_join_range (load_bytes m a 4)) as H.
  rewrite length_load_bytes in H. exact H.
Qed.

Lemma load_u64_store_eq m a v : load_u64 (store_u64 m a v) a = u64 v.
Proof.
  unfold load_u64, store_u64.
  pose proof (load_bytes_store_eq m a (le_bytes 8 v) (le_bytes_bytes _ _)) as H.
  rewrite length_le_bytes in H. change (Z.of_nat 8) with 8 in H.
  rewrite H, le_join_bytes. done.
Qed.

Lemma load_u32_store_eq m a v : load_u32 (store_u32 m a v) a = u32 v.
Proof.
  unfold load_u32, store_u32.
  pose proof (load_bytes_store_eq m a (le_bytes 4 v) (le_bytes_bytes _ _)) as H.
  rewrite length_le_bytes in H. change (Z.of_nat 4) with 4 in H.
  rewrite H, le_join_bytes. done.
Qed.

Lemma load_u64_store_ne m a b v :
  b + 8 <= a \/ a + 8 <= b -> load_u64 (store_u64 m a v) b = load_u64 m b.
Proof.
  intros H. unfold load_u64, store_u64.
  by rewrite load_bytes_store_ne by (rewrite length_le_bytes; lia).
Qed.

Lemma load_u32_store_ne m a b v :
  b + 4 <= a \/ a + 4 <= b -> load_u32 (store_u32 m a v) b = load_u32 m b.
Proof.
  intros H. unfold load_u32, store_u32.
  by rewrite load_bytes_store_ne by (rewrite length_le_bytes; lia).
Qed.

Lemma load_u64_memset_in m a n b :
  a <= b -> b + 8 <= a + n -> load_u64 (co_memset m a 0 n) b = 0.
Proof.
  intros H1 H2. unfold load_u64, load_bytes. apply le_join_zeros.
  intros x Hx. apply elem_of_seqZ in Hx.
  unfold load, co_memset. by rewrite decide_True by lia.
Qed.

Lemma load_u64_memset_ne m a v n b :
  b + 8 <= a \/ a + n <= b -> load_u64 (co_memset m a v n) b = load_u64 m b.
Proof.
  intros H. unfold load_u64. by rewrite load_bytes_memset_ne by lia.
Qed.

Lemma load_u64_ext m m' a :
  (forall x, a <= x < a + 8 -> load m x = load m' x) -> load_u64 m a = load_u64 m' a.
Proof. intros H. unfold load_u64. by rewrite (load_bytes_ext m m'). Qed.

#[export] Hint Rewrite load_u64_store_eq load_u32_store_eq length_load_bytes
  length_le_bytes : co.
#[export] Hint Resolve le_bytes_bytes load_bytes_bytes load_u64_range
  load_u32_range : co.
