(* ===== verification/GuestMem.v ===== *)
(** What the device code is promised about guest memory.

    The network, console and GPU halves of the driver reach a structure in the
    guest through four calls of the loader. [GuestMem] is their interface,
    [GuestWindow] what the loader promises while the structure is mapped: the
    calls act on the [size] bytes at [base] as on an array of bytes, and on
    nothing else ([gm_only]). The devices are verified against these classes;
    [KloadWindow] discharges them for the loader. *)
From S2P Require Import Prelude.
From S2P Require Import Rc.
From S2P Require Import Mem.

(** [co_kload_read], [co_kload_write], [co_kload_read_u32],
    [co_kload_write_u32]. *)
Class GuestMem (W : Type) := {
  gm_read : Z -> Z -> M W (list Z);
  gm_write : Z -> list Z -> Z -> M W unit;
  gm_read_u32 : Z -> M W Z;
  gm_write_u32 : Z -> Z -> M W unit;
}.

(** [gm_window w base size m]: byte [i] of the window reads as [m i];
    [gm_only w base size w']: [w'] is [w] up to the bytes of the window. *)
Class GuestWindow (W : Type) `{GuestMem W} := {
  gm_window : W -> Z -> Z -> mem -> Prop;
  gm_only : W -> Z -> Z -> W -> Prop;
  gm_range w base size m :
    gm_window w base size m -> 0 <= base /\ 0 <= size < 2 ^ 32 /\ base + size <= 2 ^ 64;
  gm_only_refl w base size m : gm_window w base size m -> gm_only w base size w;
  gm_only_trans w base size m w1 w2 :
    gm_window w base size m -> gm_only w base size w1 -> gm_only w1 base size w2 ->
    gm_only w base size w2;
  gm_read_law w base size m off n :
    gm_window w base size m -> 0 <= off -> 0 < n -> off + n <= size ->
    exists w', gm_read (base + off) n w = (Ret (load_bytes m off n), w') /\
      gm_window w' base size m /\ gm_only w base size w';
  gm_write_law w base size m off bs :
    gm_window w base size m -> 0 <= off -> 0 < Z.of_nat (length bs) ->
    off + Z.of_nat (length bs) <= size -> Forall is_byte bs ->
    exists w', gm_write (base + off) bs (Z.of_nat (length bs)) w = (Ret tt, w') /\
      gm_window w' base size (store_bytes m off bs) /\ gm_only w base size w';
  gm_read_u32_law w base size m off :
    gm_window w base size m -> 0 <= off -> off mod 4 = 0 -> off + 4 <= size ->
    exists w', gm_read_u32 (base + off) w = (Ret (load_u32 m off), w') /\
      gm_window w' base size m /\ gm_only w base size w';
  gm_write_u32_law w base size m off v :
    gm_window w base size m -> 0 <= off -> off mod 4 = 0 -> off + 4 <= size ->
    exists w', gm_write_u32 (base + off) v w = (Ret tt, w') /\
      gm_window w' base size (store_u32 m off v) /\ gm_only w base size w';
}.

(** The statics of a device: no call on guest memory touches them. *)
Class Statics (W S : Type) := static : W -> S.
Class StaticsKept (W S : Type) `{GuestWindow W} `{Statics W S} :=
  static_kept : forall w base size (w' : W), gm_only w base size w' -> @static W S _ w' = static w.

(** [if (!CO_OK(...)) rc = CO_RC(ERROR)] *)
Definition or_error {W A} (m : M W A) : M W A :=
  r ← attempt m; match r with inl a => mret a | inr _ => throw CO_RC_ERROR end.

Lemma wp_or_error {W A} (m : M W A) (Q : A -> W -> Prop) (E : co_rc_value_t -> W -> Prop) w :
  wp m Q (fun _ => E CO_RC_ERROR) w -> wp (or_error m) Q E w.
Proof. unfold wp, or_error, attempt, mbind, M_bind. by destruct (m w) as [[a|rc|] w']. Qed.

(** ** Rules

    [reached w0 base size m w]: from [w0] by calls on the window, which holds
    [m] now. *)
Section rules.
Context {W : Type} `{GuestWindow W}.

Definition reached (w0 : W) (base size : Z) (m : mem) (w : W) : Prop :=
  gm_window w base size m /\ gm_only w0 base size w /\ exists m', gm_window w0 base size m'.

Lemma reached_refl w base size m : gm_window w base size m -> reached w base size m w.
Proof using. intros Hw. split_and!; [done|by eapply gm_only_refl|by exists m]. Qed.

Lemma reached_step w0 base size m m' w w' :
  reached w0 base size m w -> gm_window w' base size m' -> gm_only w base size w' ->
  reached w0 base size m' w'.
Proof using.
  intros (Hw & Ho & m1 & Hw1) Hw' Ho'. split_and!; [done|by eapply gm_only_trans|by exists m1].
Qed.

Lemma wp_gm_read w0 base size m off n (Q : list Z -> W -> Prop) E w :
  reached w0 base size m w -> 0 <= off -> 0 < n -> off + n <= size ->
  (forall w', reached w0 base size m w' -> Q (load_bytes m off n) w') ->
  wp (gm_read (base + off) n) Q E w.
Proof using.
  intros Hr Ho Hn Hs HQ. destruct (gm_read_law w base size m off n) as (w' & Hrun & Hw & Hon);
    [apply Hr|done..|].
  unfold wp. rewrite Hrun. apply HQ. by eapply reached_step.
Qed.

Lemma wp_gm_write w0 base size m off bs n (Q : unit -> W -> Prop) E w :
  reached w0 base size m w -> 0 <= off -> n = Z.of_nat (length bs) -> 0 < n -> off + n <= size ->
  Forall is_byte bs ->
  (forall w', reached w0 base size (store_bytes m off bs) w' -> Q tt w') ->
  wp (gm_write (base + off) bs n) Q E w.
Proof using.
  intros Hr Ho -> Hn Hs Hb HQ. destruct (gm_write_law w base size m off bs) as (w' & Hrun & Hw & Hon);
    [apply Hr|done..|].
  unfold wp. rewrite Hrun. apply HQ. by eapply reached_step.
Qed.

Lemma wp_gm_read_u32 w0 base size m off (Q : Z -> W -> Prop) E w :
  reached w0 base size m w -> 0 <= off -> off mod 4 = 0 -> off + 4 <= size ->
  (forall w', reached w0 base size m w' -> Q (load_u32 m off) w') ->
  wp (gm_read_u32 (base + off)) Q E w.
Proof using.
  intros Hr Ho Ha Hs HQ. destruct (gm_read_u32_law w base size m off) as (w' & Hrun & Hw & Hon);
    [apply Hr|done..|].
  unfold wp. rewrite Hrun. apply HQ. by eapply reached_step.
Qed.

Lemma wp_gm_write_u32 w0 base size m off v (Q : unit -> W -> Prop) E w :
  reached w0 base size m w -> 0 <= off -> off mod 4 = 0 -> off + 4 <= size ->
  (forall w', reached w0 base size (store_u32 m off v) w' -> Q tt w') ->
  wp (gm_write_u32 (base + off) v) Q E w.
Proof using.
  intros Hr Ho Ha Hs HQ.
  destruct (gm_write_u32_law w base size m off v) as (w' & Hrun & Hw & Hon); [apply Hr|done..|].
  unfold wp. rewrite Hrun. apply HQ. by eapply reached_step.
Qed.
End rules.

(** ** A device

    Statics of type [S] in the state, the structure's address [va] among them:
    what every operation of the device needs to know about a state [w] that is
    reached from [w0] through the window. *)
Section device.
Context {W S : Type} `{HW : GuestWindow W} `{HS : Statics W S} `{HK : !StaticsKept W S}.
Context (va : S -> Z) (size : Z).

Definition dev_at (w0 : W) (m : mem) (w : W) : Prop := reached w0 (va (static w0)) size m w.

Lemma dev_at_static w0 m w : dev_at w0 m w -> @static W S _ w = static w0.
Proof using HK. intros (_ & Ho & _). exact (static_kept _ _ _ _ Ho). Qed.

Lemma dev_at_range w0 m w :
  dev_at w0 m w -> 0 <= va (static w0) /\ va (static w0) + size <= 2 ^ 64.
Proof using. intros (Hw & _). by destruct (gm_range _ _ _ _ Hw) as (? & _ & ?). Qed.

(** The addresses the code computes do not wrap. *)
Lemma dev_addr w0 m w off :
  dev_at w0 m w -> 0 <= off < size -> u64 (va (static w0) + off) = va (static w0) + off.
Proof using. intros Ha Ho. pose proof (dev_at_range _ _ _ Ha). apply u64_small. lia. Qed.

Lemma wp_dev_va w0 m (Q : Z -> W -> Prop) E w :
  dev_at w0 m w -> Q (va (static w0)) w -> wp (gets (fun w => va (static w))) Q E w.
Proof using HK. intros Ha HQ. apply wp_gets. by rewrite (dev_at_static _ _ _ Ha). Qed.

(** The four calls at an offset of the structure. *)
Lemma wp_dev_read w0 m off n (Q : list Z -> W -> Prop) E w :
  dev_at w0 m w -> 0 <= off -> 0 < n -> off + n <= size ->
  (forall w', dev_at w0 m w' -> Q (load_bytes m off n) w') ->
  wp (gm_read (u64 (va (static w0) + off)) n) Q E w.
Proof using.
  intros Ha Ho Hn Hs HQ. rewrite (dev_addr w0 m w) by (done || lia).
  by apply (wp_gm_read w0 _ size m).
Qed.

Lemma wp_dev_write w0 m off bs n (Q : unit -> W -> Prop) E w :
  dev_at w0 m w -> 0 <= off -> n = Z.of_nat (length bs) -> 0 < n -> off + n <= size ->
  Forall is_byte bs -> (forall w', dev_at w0 (store_bytes m off bs) w' -> Q tt w') ->
  wp (gm_write (u64 (va (static w0) + off)) bs n) Q E w.
Proof using.
  intros Ha Ho Hn Hpos Hs Hb HQ. rewrite (dev_addr w0 m w) by (done || lia).
  by apply (wp_gm_write w0 _ size m).
Qed.

Lemma wp_dev_read_u32 w0 m off (Q : Z -> W -> Prop) E w :
  dev_at w0 m w -> 0 <= off -> off mod 4 = 0 -> off + 4 <= size ->
  (forall w', dev_at w0 m w' -> Q (load_u32 m off) w') ->
  wp (gm_read_u32 (u64 (va (static w0) + off))) Q E w.
Proof using.
  intros Ha Ho Hal Hs HQ. rewrite (dev_addr w0 m w) by (done || lia).
  by apply (wp_gm_read_u32 w0 _ size m).
Qed.

Lemma wp_dev_write_u32 w0 m off v (Q : unit -> W -> Prop) E w :
  dev_at w0 m w -> 0 <= off -> off mod 4 = 0 -> off + 4 <= size ->
  (forall w', dev_at w0 (store_u32 m off v) w' -> Q tt w') ->
  wp (gm_write_u32 (u64 (va (static w0) + off)) v) Q E w.
Proof using.
  intros Ha Ho Hal Hs HQ. rewrite (dev_addr w0 m w) by (done || lia).
  by apply (wp_gm_write_u32 w0 _ size m).
Qed.
End device.

(** ** By a CR3

    Guest memory through the root the guest was running on.

    The crossing loop reads and edits what the guest has on its own stacks with
    [co_kload_read_cr3] and [co_kload_write_cr3]. [GuestView] is what the loop
    relies on: where the addresses of [P] are backed, each by a byte of its own,
    the two calls act on [m], the guest's memory by virtual address.
    [KloadWindow] discharges it for the loader. *)

Class Cr3Mem (W : Type) := {
  cr3_read : Z -> Z -> Z -> M W (list Z);
  cr3_write : Z -> Z -> list Z -> Z -> M W unit;
}.

(** [n] addresses from [va], all of them in [P]. *)
Definition covers (P : Z -> Prop) (va n : Z) : Prop :=
  0 <= va /\ 0 < n < 2 ^ 32 /\ va + n <= 2 ^ 64 /\ forall x, va <= x < va + n -> P x.

Class GuestView (W : Type) `{Cr3Mem W} := {
  gv_view : W -> Z -> (Z -> Prop) -> mem -> Prop;
  gv_read_law w cr3 P m va n :
    gv_view w cr3 P m -> covers P va n ->
    exists w', cr3_read cr3 va n w = (Ret (load_bytes m va n), w') /\ gv_view w' cr3 P m;
  gv_write_law w cr3 P m va bs :
    gv_view w cr3 P m -> covers P va (Z.of_nat (length bs)) -> Forall is_byte bs ->
    exists w', cr3_write cr3 va bs (Z.of_nat (length bs)) w = (Ret tt, w') /\
      gv_view w' cr3 P (store_bytes m va bs);
}.
