(* ===== verification/Extable.v ===== *)
(** The guest's exception table ([arch/x86_64/extable.c]): the copy the host
    keeps of [__ex_table], the search for the entry of a faulting instruction,
    and what the entry asks to be done to the saved registers. *)
From S2P Require Import Prelude.
From S2P Require Import Rc.
From S2P Require Import Mem.
From S2P Require Import GuestMem.

(** ** The table *)

(** One entry; the three fields are [int]s. *)
Record co_ex_entry_t := { ex_insn : Z; ex_fixup : Z; ex_data : Z }.

Definition CO_EX_ENTRY_SIZE : Z := 12.

Definition CO_EX_TYPE (d : Z) : Z := Z.land d 0xff.
Definition CO_EX_REG (d : Z) : Z := Z.land (Z.shiftr d 8) 0xf.
Definition CO_EX_FLAGS (d : Z) : Z := Z.land (Z.shiftr d 12) 0xf.
Definition CO_EX_IMM (d : Z) : Z := Z.shiftr d 16.

Definition CO_EX_FLAG_CLEAR_AX : Z := 1.
Definition CO_EX_FLAG_CLEAR_DX : Z := 2.

Definition CO_EX_TYPE_NONE : Z := 0.
Definition CO_EX_TYPE_DEFAULT : Z := 1.
Definition CO_EX_TYPE_FAULT : Z := 2.
Definition CO_EX_TYPE_UACCESS : Z := 3.
Definition CO_EX_TYPE_WRMSR_SAFE : Z := 10.
Definition CO_EX_TYPE_RDMSR_SAFE : Z := 11.
Definition CO_EX_TYPE_DEFAULT_MCE_SAFE : Z := 14.
Definition CO_EX_TYPE_FAULT_MCE_SAFE : Z := 15.
Definition CO_EX_TYPE_POP_REG : Z := 16.
Definition CO_EX_TYPE_IMM_REG : Z := 17.
Definition CO_EX_TYPE_UCOPY_LEN : Z := 19.

(** Where each register sits in the stub's saved frame. *)
Definition co_ex_reg_offset : list Z :=
  [0x70; 0x60; 0x58; 0x68; 0xa0; 0x40; 0x50; 0x48; 0x38; 0x30; 0x28; 0x20; 0x18; 0x10; 0x08; 0x00].

Definition CO_EX_FRAME_RIP : Z := 0x88.

(** The statics of the file: [co_ex_table] with [co_ex_count],
    [co_ex_start_va] and [co_ex_sorted]. *)
Record extable := {
  co_ex_table : option (list co_ex_entry_t);
  co_ex_count : Z;
  co_ex_start_va : Z;
  co_ex_sorted : bool;
}.

(** [co_arch_extable_free] *)
Definition extable_none : extable :=
  {| co_ex_table := None; co_ex_count := 0; co_ex_start_va := 0; co_ex_sorted := false |}.

Definition co_arch_extable_count (t : extable) : Z := co_ex_count t.

(** [co_ex_table[i]]; the index is below the count wherever it is used. *)
Definition ex_at (t : extable) (i : Z) : co_ex_entry_t :=
  default {| ex_insn := 0; ex_fixup := 0; ex_data := 0 |}
    (l ← co_ex_table t; l !! Z.to_nat i).

Definition co_ex_insn_addr (t : extable) (i : Z) : Z :=
  u64 (co_ex_start_va t + i * CO_EX_ENTRY_SIZE + ex_insn (ex_at t i)).

Definition co_ex_fixup_addr (t : extable) (i : Z) : Z :=
  u64 (co_ex_start_va t + i * CO_EX_ENTRY_SIZE + 4 + ex_fixup (ex_at t i)).

(** The bytes read from the guest, as the array of entries they are. *)
Definition int_at (bs : list Z) (o : nat) : Z := s32 (le_join (take 4 (drop o bs))).

Definition ex_parse (bs : list Z) (i : nat) : co_ex_entry_t :=
  {| ex_insn := int_at bs (12 * i); ex_fixup := int_at bs (12 * i + 4);
     ex_data := int_at bs (12 * i + 8) |}.

(** The scan that decides [co_ex_sorted]. *)
Definition ex_ascending (t : extable) : bool :=
  forallb (fun i => negb (co_ex_insn_addr t i <? co_ex_insn_addr t (i - 1)))
    (seqZ 1 (co_ex_count t - 1)).

(** ** Loading it *)

(** [co_os_malloc], which may refuse, and [co_os_free] of the table. *)
Class ExHeap (W : Type) := {
  ex_malloc : Z -> M W bool;
  ex_free : M W unit;
}.

Section load.
Context {W : Type} `{GuestMem W} `{ExHeap W}.

Abbreviation E := (M (W * extable)).

Definition out {A} (m : M W A) : E A := fun '(w, t) => let '(r, w') := m w in (r, (w', t)).
Definition the_table : E extable := gets snd.
Definition set_table (t : extable) : E unit := modify (fun s => (s.1, t)).

Definition co_arch_extable_free : E unit :=
  t ← the_table;
  match co_ex_table t with Some _ => out ex_free | None => mret tt end ;;
  set_table extable_none.

Definition co_arch_extable_load (start_va stop_va : Z) : E unit :=
  co_arch_extable_free ;;
  fail_if ((start_va =? 0) || (stop_va <=? start_va))%bool CO_RC_INVALID_PARAMETER ;;
  let bytes := ulong (stop_va - start_va) in
  fail_if (negb (bytes mod CO_EX_ENTRY_SIZE =? 0)) CO_RC_INVALID_PARAMETER ;;
  ok ← out (ex_malloc bytes);
  fail_if (negb ok) CO_RC_OUT_OF_MEMORY ;;
  bs ← attempt (out (gm_read start_va bytes));
  match bs with
  | inr rc => out ex_free ;; throw rc
  | inl bs =>
      let count := bytes / CO_EX_ENTRY_SIZE in
      let t := {| co_ex_table := Some (ex_parse bs <$> seq 0 (Z.to_nat count));
                  co_ex_count := count; co_ex_start_va := start_va; co_ex_sorted := true |} in
      set_table {| co_ex_table := co_ex_table t; co_ex_count := count;
                   co_ex_start_va := start_va; co_ex_sorted := ex_ascending t |}
  end.

End load.

(** ** Searching it *)

Definition find_step (t : extable) (rip : Z) (s : Z * Z) : (Z * Z) + Z :=
  let '(lo, hi) := s in
  if hi <? lo then inr (-1) else
  let mid := lo + (hi - lo) / 2 in
  let at_ := co_ex_insn_addr t mid in
  if at_ =? rip then inr mid else
  if at_ <? rip then inl (mid + 1, hi) else inl (lo, mid - 1).

(** [for (i = 0; i < co_ex_count; i++) if (co_ex_insn_addr(i) == rip) return i;] *)
Definition find_linear (t : extable) (rip : Z) : Z :=
  default (-1) (snd <$> list_find (fun i => co_ex_insn_addr t i = rip) (seqZ 0 (co_ex_count t))).

Definition co_ex_find (t : extable) (rip : Z) : Z :=
  match co_ex_table t with
  | None => -1
  | Some _ =>
      if negb (co_ex_sorted t) then find_linear t rip else
      match loop 32 (find_step t rip) (0, co_ex_count t - 1) with
      | inr i => i
      | inl _ => -1
      end
  end.

(** ** Applying an entry *)

(** The saved frame is an array of words; a register is named by its offset. *)
Definition word (frame : list Z) (off : Z) : Z := frame !!! Z.to_nat (off / 8).
Definition set_word (off v : Z) (frame : list Z) : list Z := <[Z.to_nat (off / 8) := v]> frame.
Definition ex_reg (r : Z) : Z := co_ex_reg_offset !!! Z.to_nat r.

(** The [switch (type)]: [None] for a type that is refused. *)
Definition ex_handle (type reg imm vector : Z) (frame : list Z) : option (list Z) :=
  if ((type =? CO_EX_TYPE_DEFAULT) || (type =? CO_EX_TYPE_DEFAULT_MCE_SAFE)
      || (type =? CO_EX_TYPE_UACCESS))%bool then Some frame
  else if ((type =? CO_EX_TYPE_FAULT) || (type =? CO_EX_TYPE_FAULT_MCE_SAFE))%bool then
    Some (set_word (ex_reg 0) vector frame)
  else if ((type =? CO_EX_TYPE_WRMSR_SAFE) || (type =? CO_EX_TYPE_RDMSR_SAFE))%bool then
    let frame := if type =? CO_EX_TYPE_RDMSR_SAFE
                 then set_word (ex_reg 2) 0 (set_word (ex_reg 0) 0 frame) else frame in
    Some (set_word (ex_reg reg) (u64 (-5)) frame)
  else if type =? CO_EX_TYPE_POP_REG then
    let frame := set_word 0xa0 (u64 (word frame 0xa0 + 8)) frame in
    Some (set_word (ex_reg reg) (u64 imm) frame)
  else if type =? CO_EX_TYPE_IMM_REG then
    Some (set_word (ex_reg reg) (u64 imm) frame)
  else if type =? CO_EX_TYPE_UCOPY_LEN then
    Some (set_word (ex_reg 1)
            (u64 (u64 (imm * s64 (word frame (ex_reg 1))) + word frame (ex_reg reg))) frame)
  else None.

Definition ex_clear (flags : Z) (frame : list Z) : list Z :=
  let frame := if negb (Z.land flags CO_EX_FLAG_CLEAR_AX =? 0) then set_word (ex_reg 0) 0 frame
               else frame in
  if negb (Z.land flags CO_EX_FLAG_CLEAR_DX =? 0) then set_word (ex_reg 2) 0 frame else frame.

(** [*type_out], and the frame when the fault is recovered; [frame] is [None]
    for a NULL pointer. *)
Definition co_arch_extable_fixup (t : extable) (frame : option (list Z)) (vector : Z) :
    Z * option (list Z) :=
  match frame with
  | None => (CO_EX_TYPE_NONE, None)
  | Some frame =>
      let i := co_ex_find t (word frame CO_EX_FRAME_RIP) in
      if i <? 0 then (CO_EX_TYPE_NONE, None) else
      let d := ex_data (ex_at t i) in
      (CO_EX_TYPE d,
       (fun frame => set_word CO_EX_FRAME_RIP (co_ex_fixup_addr t i)
                       (ex_clear (CO_EX_FLAGS d) frame))
         <$> ex_handle (CO_EX_TYPE d) (CO_EX_REG d) (CO_EX_IMM d) vector frame)
  end.

(** ** The table after a load *)

(** The count is that of the array, an [int], and the flag tells the truth. *)
Record ex_wf (t : extable) : Prop := {
  ew_count l : co_ex_table t = Some l -> co_ex_count t = Z.of_nat (length l);
  ew_none : co_ex_table t = None -> co_ex_count t = 0;
  ew_int : 0 <= co_ex_count t < 2 ^ 31;
  ew_sorted : co_ex_sorted t = true -> ex_ascending t = true;
}.

Lemma extable_none_wf : ex_wf extable_none.
Proof. by split. Qed.

Lemma ex_ascending_iff t :
  ex_ascending t = true <->
  forall i, 1 <= i < co_ex_count t -> co_ex_insn_addr t (i - 1) <= co_ex_insn_addr t i.
Proof.
  unfold ex_ascending. rewrite forallb_forall. split.
  - intros H i Hi. specialize (H i). rewrite <- list_elem_of_In, elem_of_seqZ in H.
    specialize (H ltac:(lia)). zbool. lia.
  - intros H i. rewrite <- list_elem_of_In, elem_of_seqZ. intros Hi.
    apply negb_true_iff, Z.ltb_ge, H. lia.
Qed.

(** Ascending step by step is ascending throughout. *)
Lemma ex_ascending_le t i j :
  ex_ascending t = true -> 0 <= i <= j -> j < co_ex_count t ->
  co_ex_insn_addr t i <= co_ex_insn_addr t j.
Proof.
  intros Ha Hij. replace j with (i + Z.of_nat (Z.to_nat (j - i))) by lia.
  induction (Z.to_nat (j - i)) as [|k IH]; intros Hj; [by rewrite Z.add_0_r|].
  pose proof (proj1 (ex_ascending_iff t) Ha (i + Z.of_nat (S k)) ltac:(lia)) as Hs.
  replace (i + Z.of_nat (S k) - 1) with (i + Z.of_nat k) in Hs by lia.
  etrans; [apply IH; lia|done].
Qed.

(** ** The search *)

Definition ex_has (t : extable) (rip : Z) : Prop :=
  exists i, 0 <= i < co_ex_count t /\ co_ex_insn_addr t i = rip.

(** What a search may answer. *)
Definition ex_answer (t : extable) (rip i : Z) : Prop :=
  (i = -1 /\ ~ ex_has t rip) \/ (0 <= i < co_ex_count t /\ co_ex_insn_addr t i = rip).

Lemma find_linear_answers t rip : ex_answer t rip (find_linear t rip).
Proof.
  unfold find_linear, ex_answer, ex_has.
  destruct (list_find _ _) as [[k i]|] eqn:E; cbn.
  - apply list_find_Some in E as (Hk & Hi & _). apply lookup_seqZ in Hk. right. split; [lia|done].
  - left. split; [done|]. intros (i & Hi & Hr).
    apply list_find_None in E. rewrite Forall_forall in E. apply (E i); [|done].
    apply elem_of_seqZ. lia.
Qed.

(** Everything below [lo] is too low, everything above [hi] too high. *)
Definition ex_between (t : extable) (rip : Z) (s : Z * Z) : Prop :=
  0 <= s.1 /\ s.2 < co_ex_count t /\ s.1 <= s.2 + 1 /\
  (forall j, 0 <= j < s.1 -> co_ex_insn_addr t j < rip) /\
  (forall j, s.2 < j < co_ex_count t -> rip < co_ex_insn_addr t j).

Lemma find_binary_answers t rip :
  ex_ascending t = true -> 0 <= co_ex_count t < 2 ^ 31 ->
  exists i, loop 32 (find_step t rip) (0, co_ex_count t - 1) = inr i /\ ex_answer t rip i.
Proof.
  intros Ha Hc.
  apply (loop_total (find_step t rip) (ex_between t rip) _ (fun s => s.2 - s.1 + 1)).
  - intros [lo hi] (Hlo & Hhi & Hle & Hbelow & Habove). cbn [fst snd] in *. unfold find_step.
    case_cond.
    + left. split; [done|]. intros (i & Hi & Hr).
      destruct (decide (i < lo)); [specialize (Hbelow i)|specialize (Habove i)]; lia.
    + assert (lo <= lo + (hi - lo) / 2 <= hi) as Hmid by (Z.div_mod_to_equations; lia).
      case_cond; [right; split; [lia|done]|].
      case_cond; (split; [|cbn [fst snd]; lia]); unfold ex_between; cbn [fst snd];
        split_and!; try lia; intros j Hj.
      * destruct (decide (j < lo)); [by apply Hbelow; lia|].
        pose proof (ex_ascending_le t j (lo + (hi - lo) / 2) Ha). lia.
      * by apply Habove; lia.
      * by apply Hbelow; lia.
      * destruct (decide (hi < j)); [by apply Habove; lia|].
        pose proof (ex_ascending_le t (lo + (hi - lo) / 2) j Ha). lia.
  - unfold ex_between. cbn [fst snd]. split_and!; intros; lia.
  - cbn [fst snd]. lia.
Qed.

Lemma co_ex_find_answers t rip : ex_wf t -> ex_answer t rip (co_ex_find t rip).
Proof.
  intros [Hc Hn Hi Hs]. unfold co_ex_find. destruct (co_ex_table t) eqn:E.
  - destruct (co_ex_sorted t) eqn:Es; cbn [negb]; [|apply find_linear_answers].
    destruct (find_binary_answers t rip (Hs eq_refl) Hi) as (i & -> & Hans). exact Hans.
  - left. split; [done|]. intros (i & Hr & _). rewrite Hn in Hr by done. lia.
Qed.

(** C17: the search finds what is there. In a table as [load] leaves it, an
    answer of -1 means that no entry is for the instruction, any other answer
    is the index of an entry that is; and where no two entries are for the same
    instruction the answer is that of the linear scan, whether or not the table
    is sorted. The bisection ends within its 2^32 steps. *)
Theorem extable_find_exact t rip :
  ex_wf t ->
  ex_answer t rip (co_ex_find t rip) /\
  ((forall i j, 0 <= i < co_ex_count t -> 0 <= j < co_ex_count t ->
      co_ex_insn_addr t i = co_ex_insn_addr t j -> i = j) ->
   co_ex_find t rip = find_linear t rip).
Proof.
  intros Hwf. pose proof (co_ex_find_answers t rip Hwf) as Ha.
  split; [done|]. intros Hinj. pose proof (find_linear_answers t rip) as Hl.
  destruct Ha as [[-> Hno]|[Hr Haddr]], Hl as [[-> Hno']|[Hr' Haddr']]; [done|..].
  - destruct Hno. by eexists.
  - destruct Hno'. by eexists.
  - apply Hinj; [done..|congruence].
Qed.

(** ** The frame *)

Definition frame_words : nat := 22.

Lemma word_set o o' v f :
  length f = frame_words -> 0 <= o < 176 -> 0 <= o' < 176 ->
  word (set_word o v f) o' = if decide (o / 8 = o' / 8) then v else word f o'.
Proof.
  intros Hl Ho Ho'. unfold word, set_word, frame_words in *. case_decide as He.
  - rewrite <- He, list_lookup_total_insert_eq; [done|]. rewrite Hl. Z.div_mod_to_equations; lia.
  - rewrite list_lookup_total_insert_ne; [done|]. Z.div_mod_to_equations; lia.
Qed.

Lemma length_set_word o v f : length (set_word o v f) = length f.
Proof. apply length_insert. Qed.

(** The sixteen registers have sixteen slots. *)
Lemma ex_reg_range r : 0 <= r < 16 -> 0 <= ex_reg r < 176 /\ ex_reg r mod 8 = 0.
Proof.
  intros Hr. assert (r ∈ seqZ 0 16) as Hin by (apply elem_of_seqZ; lia).
  clear Hr. revert r Hin. apply Forall_forall. vm_compute. repeat constructor; done.
Qed.

Lemma ex_reg_inj r r' :
  0 <= r < 16 -> 0 <= r' < 16 -> ex_reg r / 8 = ex_reg r' / 8 -> r = r'.
Proof.
  intros Hr Hr'.
  assert (Forall (fun r => Forall (fun r' => ex_reg r / 8 = ex_reg r' / 8 -> r = r') (seqZ 0 16))
            (seqZ 0 16)) as Hall by (vm_compute; repeat constructor; done).
  rewrite Forall_forall in Hall. specialize (Hall r ltac:(apply elem_of_seqZ; lia)).
  rewrite Forall_forall in Hall. apply Hall, elem_of_seqZ. lia.
Qed.

Lemma word_set_reg r r' v f :
  length f = frame_words -> 0 <= r < 16 -> 0 <= r' < 16 ->
  word (set_word (ex_reg r) v f) (ex_reg r') = if decide (r = r') then v else word f (ex_reg r').
Proof.
  intros Hl Hr Hr'. destruct (ex_reg_range r Hr), (ex_reg_range r' Hr').
  rewrite word_set by done. destruct (decide (r = r')) as [->|Hne].
  - by rewrite decide_True.
  - rewrite decide_False; [done|]. intros He. by apply Hne, ex_reg_inj.
Qed.

(** The registers as [fixup_exception] of the kernel leaves them: a type sets
    its registers, the others keep their values. *)
Definition ex_value (type reg imm vector : Z) (old : Z -> Z) (r : Z) : Z :=
  let msr := ((type =? CO_EX_TYPE_WRMSR_SAFE) || (type =? CO_EX_TYPE_RDMSR_SAFE))%bool in
  let const := ((type =? CO_EX_TYPE_POP_REG) || (type =? CO_EX_TYPE_IMM_REG))%bool in
  let fault := ((type =? CO_EX_TYPE_FAULT) || (type =? CO_EX_TYPE_FAULT_MCE_SAFE))%bool in
  if (msr && (r =? reg))%bool then 2 ^ 64 - 5
  else if ((type =? CO_EX_TYPE_RDMSR_SAFE) && ((r =? 0) || (r =? 2)))%bool then 0
  else if (fault && (r =? 0))%bool then vector
  else if (const && (r =? reg))%bool then u64 imm
  else if ((type =? CO_EX_TYPE_POP_REG) && (r =? 4))%bool then u64 (old 4 + 8)
  else if ((type =? CO_EX_TYPE_UCOPY_LEN) && (r =? 1))%bool then u64 (imm * old 1 + old reg)
  else old r.

Definition ex_handled : list Z :=
  [CO_EX_TYPE_DEFAULT; CO_EX_TYPE_DEFAULT_MCE_SAFE; CO_EX_TYPE_UACCESS; CO_EX_TYPE_FAULT;
   CO_EX_TYPE_FAULT_MCE_SAFE; CO_EX_TYPE_WRMSR_SAFE; CO_EX_TYPE_RDMSR_SAFE; CO_EX_TYPE_POP_REG;
   CO_EX_TYPE_IMM_REG; CO_EX_TYPE_UCOPY_LEN].

(** The words no entry may change: vector, error code, CS, RFLAGS, SS. *)
Definition ex_fixed : list Z := [0x78; 0x80; 0x90; 0x98; 0xa8].

Lemma ucopy_wrap imm x y : u64 (u64 (imm * s64 x) + y) = u64 (imm * x + y).
Proof.
  unfold s64, signed, u64. rewrite Zplus_mod_idemp_l.
  assert (exists k, (if decide (x mod 2 ^ 64 < 2 ^ (64 - 1)) then x mod 2 ^ 64
                     else x mod 2 ^ 64 - 2 ^ 64) = x + k * 2 ^ 64) as [k ->].
  { pose proof (Z.div_mod x (2 ^ 64) ltac:(lia)).
    case_decide; [exists (- (x / 2 ^ 64))|exists (- (x / 2 ^ 64) - 1)]; lia. }
  replace (imm * (x + k * 2 ^ 64) + y) with (imm * x + y + (imm * k) * 2 ^ 64) by ring.
  by rewrite Z_mod_plus_full.
Qed.

(** A word that is no register's, nor RIP. *)
Lemma word_set_fixed r o v f :
  length f = frame_words -> 0 <= r < 16 -> o ∈ ex_fixed -> word (set_word (ex_reg r) v f) o = word f o.
Proof.
  intros Hl Hr Ho. destruct (ex_reg_range r Hr) as [Hor _].
  assert (Forall (fun o => 0 <= o < 176 /\ Forall (fun r => ex_reg r / 8 <> o / 8) (seqZ 0 16))
            ex_fixed) as Hall by (vm_compute; repeat constructor; done).
  rewrite Forall_forall in Hall. destruct (Hall o Ho) as [Ho' Hne]. rewrite Forall_forall in Hne.
  rewrite word_set by done. rewrite decide_False; [done|]. apply Hne, elem_of_seqZ. lia.
Qed.

(** Compare the type constants of a goal, then the register numbers. *)
Ltac ex_types :=
  unfold CO_EX_TYPE_DEFAULT, CO_EX_TYPE_DEFAULT_MCE_SAFE, CO_EX_TYPE_UACCESS, CO_EX_TYPE_FAULT,
    CO_EX_TYPE_FAULT_MCE_SAFE, CO_EX_TYPE_WRMSR_SAFE, CO_EX_TYPE_RDMSR_SAFE, CO_EX_TYPE_POP_REG,
    CO_EX_TYPE_IMM_REG, CO_EX_TYPE_UCOPY_LEN; cbn [Z.eqb Pos.eqb orb andb].
Ltac ex_cases :=
  repeat match goal with
  | |- context [decide (?a = ?b)] => destruct (decide (a = b)); subst
  | |- context [?a =? ?b] => destruct (Z.eqb_spec a b); subst
  end; cbn [orb andb]; try done; try lia; try apply ucopy_wrap.

Lemma ex_handle_spec type reg imm vector f f' :
  length f = frame_words -> 0 <= reg < 16 -> ex_handle type reg imm vector f = Some f' ->
  type ∈ ex_handled /\ length f' = frame_words /\
  (forall r, 0 <= r < 16 ->
     word f' (ex_reg r) = ex_value type reg imm vector (fun r => word f (ex_reg r)) r) /\
  (forall o, o ∈ ex_fixed -> word f' o = word f o).
Proof.
  intros Hl Hreg. unfold ex_handle. change 0xa0 with (ex_reg 4).
  repeat case_match; intros; simplify_eq; zbool;
    repeat match goal with H : (_ || _)%bool = true |- _ => apply orb_true_iff in H as [H|H] end;
    zbool; try subst type; try done;
    (split; [rewrite list_elem_of_In; cbn; tauto|]);
    rewrite ?length_set_word; (split; [done|]); (split; [|intros o Ho;
      rewrite ?word_set_fixed by (rewrite ?length_set_word; done); done]);
    intros r Hr; unfold ex_value; cbn [Z.eqb Pos.eqb orb andb];
    ex_types; rewrite ?word_set_reg by (rewrite ?length_set_word; lia); ex_cases.
Qed.

Lemma ex_clear_spec flags f :
  length f = frame_words ->
  length (ex_clear flags f) = frame_words /\
  (forall r, 0 <= r < 16 ->
     word (ex_clear flags f) (ex_reg r) =
       if (((r =? 0) && Z.testbit flags 0) || ((r =? 2) && Z.testbit flags 1))%bool then 0
       else word f (ex_reg r)) /\
  (forall o, o ∈ ex_fixed -> word (ex_clear flags f) o = word f o).
Proof.
  intros Hl. unfold ex_clear, CO_EX_FLAG_CLEAR_AX, CO_EX_FLAG_CLEAR_DX.
  assert (forall k, 0 <= k -> negb (Z.land flags (2 ^ k) =? 0) = Z.testbit flags k) as Hbit.
  { intros k Hk. rewrite <- (Z.shiftl_1_l k), Z.land_comm. destruct (Z.testbit flags k) eqn:E.
    - apply negb_true_iff, Z.eqb_neq. intros Hz.
      assert (Z.testbit (Z.land (Z.shiftl 1 k) flags) k = false) as Hf by (by rewrite Hz, Z.bits_0).
      rewrite Z.land_spec, Z.shiftl_spec, Z.sub_diag, E in Hf by lia. done.
    - apply negb_false_iff, Z.eqb_eq, Z.bits_inj_iff'. intros j Hj.
      rewrite Z.land_spec, Z.bits_0, Z.shiftl_1_l, Z.pow2_bits_eqb by done.
      destruct (Z.eqb_spec k j) as [->|]; [by rewrite E|done]. }
  rewrite (Hbit 0 ltac:(lia) : negb (Z.land flags 1 =? 0) = _).
  rewrite (Hbit 1 ltac:(lia) : negb (Z.land flags 2 =? 0) = _).
  destruct (Z.testbit flags 0), (Z.testbit flags 1); rewrite ?length_set_word;
    (split; [done|]); (split; [|intros o Ho; rewrite ?word_set_fixed by (rewrite ?length_set_word; done);
      done]); intros r Hr; rewrite ?word_set_reg by (rewrite ?length_set_word; lia); ex_cases.
Qed.

Lemma word_set_rip v f o :
  length f = frame_words -> 0 <= o < 176 ->
  word (set_word CO_EX_FRAME_RIP v f) o =
    if decide (CO_EX_FRAME_RIP / 8 = o / 8) then v else word f o.
Proof. intros. by apply word_set. Qed.

(** RIP is neither a register's slot nor one that is left alone. *)
Lemma rip_apart :
  (forall r, 0 <= r < 16 -> CO_EX_FRAME_RIP / 8 <> ex_reg r / 8) /\
  (forall o, o ∈ ex_fixed -> CO_EX_FRAME_RIP / 8 <> o / 8 /\ 0 <= o < 176).
Proof.
  split.
  - intros r Hr. assert (Forall (fun r => CO_EX_FRAME_RIP / 8 <> ex_reg r / 8) (seqZ 0 16)) as Hall
      by (vm_compute; repeat constructor; done).
    rewrite Forall_forall in Hall. apply Hall, elem_of_seqZ. lia.
  - apply Forall_forall. vm_compute. repeat constructor; done.
Qed.

(** C18: a recovered fault is recovered as the kernel would have. The fault of
    an instruction without an entry, or with an entry of a type that is not
    implemented, is refused. Otherwise RIP is the fixup address of an entry for
    the faulting instruction; every register has the value its type, register
    number, immediate and flags ask for, wherever the stub keeps it in the
    frame; and the vector, the error code, CS, RFLAGS and SS are untouched. *)
Theorem extable_fixup_exact t f vector :
  ex_wf t -> length f = frame_words ->
  let rip := word f CO_EX_FRAME_RIP in
  match co_arch_extable_fixup t (Some f) vector with
  | (type, None) =>
      (~ ex_has t rip /\ type = CO_EX_TYPE_NONE) \/
      (exists i, 0 <= i < co_ex_count t /\ co_ex_insn_addr t i = rip /\
         type = CO_EX_TYPE (ex_data (ex_at t i)) /\ type ∉ ex_handled)
  | (type, Some f') =>
      exists i, 0 <= i < co_ex_count t /\ co_ex_insn_addr t i = rip /\
        let d := ex_data (ex_at t i) in
        type = CO_EX_TYPE d /\ type ∈ ex_handled /\ length f' = frame_words /\
        word f' CO_EX_FRAME_RIP = co_ex_fixup_addr t i /\
        (forall r, 0 <= r < 16 ->
           word f' (ex_reg r) =
             if (((r =? 0) && Z.testbit (CO_EX_FLAGS d) 0)
                 || ((r =? 2) && Z.testbit (CO_EX_FLAGS d) 1))%bool then 0
             else ex_value type (CO_EX_REG d) (CO_EX_IMM d) vector
                    (fun r => word f (ex_reg r)) r) /\
        (forall o, o ∈ ex_fixed -> word f' o = word f o)
  end.
Proof.
  intros Hwf Hl rip. unfold co_arch_extable_fixup. fold rip.
  destruct (co_ex_find_answers t rip Hwf) as [[-> Hno]|[Hi Haddr]].
  - left. by split.
  - set (i := co_ex_find t rip) in *. rewrite (proj2 (Z.ltb_ge i 0)) by lia. cbn zeta.
    set (d := ex_data (ex_at t i)).
    assert (0 <= CO_EX_REG d < 16) as Hreg.
    { unfold CO_EX_REG. change 0xf with (2 ^ 4 - 1). rewrite land_mask by lia.
      apply Z.mod_pos_bound. lia. }
    destruct (ex_handle _ _ _ _ f) as [f1|] eqn:Eh; cbn [fmap option_fmap option_map].
    + destruct (ex_handle_spec _ _ _ _ _ _ Hl Hreg Eh) as (Ht & Hl1 & Hr1 & Ho1).
      destruct (ex_clear_spec (CO_EX_FLAGS d) f1 Hl1) as (Hl2 & Hr2 & Ho2).
      destruct rip_apart as [Hra Hrf].
      exists i. split; [done|]. split; [done|]. cbn zeta. fold d. split; [done|]. split; [done|].
      split; [by rewrite length_set_word|]. split; [by rewrite word_set_rip, decide_True|].
      split.
      * intros r Hr. destruct (ex_reg_range r Hr) as [Hor _].
        rewrite word_set_rip, decide_False by auto. rewrite Hr2 by done. case_match; [done|]. by apply Hr1.
      * intros o Ho. destruct (Hrf o Ho). rewrite word_set_rip, decide_False by done.
        by rewrite Ho2, Ho1.
    + right. exists i. split; [done|]. split; [done|]. split; [done|].
      intros Hin. revert Eh. unfold ex_handle. rewrite list_elem_of_In in Hin. cbn in Hin.
      repeat (destruct Hin as [<-|Hin]; [by ex_types|]). done.
Qed.

(** ** Loading *)

Lemma int_at_load m off n o :
  0 <= Z.of_nat o -> Z.of_nat o + 4 <= n ->
  int_at (load_bytes m off n) o = s32 (load_u32 m (off + Z.of_nat o)).
Proof.
  intros Ho Hn. unfold int_at, load_u32. do 2 f_equal.
  replace n with (Z.of_nat o + (4 + (n - Z.of_nat o - 4))) by lia.
  rewrite !load_bytes_app by lia.
  rewrite drop_app_length' by (rewrite length_load_bytes; lia).
  by rewrite take_app_length' by (rewrite length_load_bytes; lia).
Qed.

(** The table as it lies in the guest: [struct exception_table_entry]. *)
Definition ex_guest (m : mem) (off : Z) (i : Z) : co_ex_entry_t :=
  {| ex_insn := s32 (load_u32 m (off + 12 * i)); ex_fixup := s32 (load_u32 m (off + 12 * i + 4));
     ex_data := s32 (load_u32 m (off + 12 * i + 8)) |}.

Lemma ex_parse_guest m off n i :
  12 * Z.of_nat i + 12 <= n ->
  ex_parse (load_bytes m off n) i = ex_guest m off (Z.of_nat i).
Proof.
  intros Hn. unfold ex_parse, ex_guest.
  rewrite !int_at_load by lia. f_equal; do 2 f_equal; lia.
Qed.

Section load_ok.
Context {W : Type} `{GuestWindow W} `{ExHeap W}.

(** The allocator has nothing to do with the guest. *)
Class ExHeapLaws := {
  ex_malloc_runs n w : exists b w', ex_malloc n w = (Ret b, w') /\
    forall base size m, gm_window w base size m -> gm_window w' base size m;
  ex_free_runs w : exists w', ex_free w = (Ret tt, w') /\
    forall base size m, gm_window w base size m -> gm_window w' base size m;
}.
Context `{!ExHeapLaws}.

Lemma free_runs w t :
  exists w', co_arch_extable_free (w, t) = (Ret tt, (w', extable_none)) /\
    forall base size m, gm_window w base size m -> gm_window w' base size m.
Proof using All.
  unfold co_arch_extable_free. destruct (co_ex_table t) eqn:E.
  - destruct (ex_free_runs w) as (w' & Hf & Hw). exists w'. split; [|done].
    unfold mbind, M_bind, the_table, gets. cbn. rewrite E. unfold out. by rewrite Hf.
  - exists w. split; [|done]. unfold mbind, M_bind, the_table, gets. cbn. by rewrite E.
Qed.

(** What a load makes of the bytes it read. *)
Definition ex_loaded (bs : list Z) (start_va count : Z) : extable :=
  let t := {| co_ex_table := Some (ex_parse bs <$> seq 0 (Z.to_nat count));
              co_ex_count := count; co_ex_start_va := start_va; co_ex_sorted := true |} in
  {| co_ex_table := co_ex_table t; co_ex_count := count; co_ex_start_va := start_va;
     co_ex_sorted := ex_ascending t |}.

Lemma ex_loaded_wf bs start_va count : 0 <= count < 2 ^ 31 -> ex_wf (ex_loaded bs start_va count).
Proof using.
  intros Hc. split; cbn; [|done|done|done].
  intros l [= <-]. rewrite length_fmap, length_seq. lia.
Qed.

Lemma ex_loaded_at m off n start_va i :
  0 <= i < n ->
  ex_at (ex_loaded (load_bytes m off (12 * n)) start_va n) i = ex_guest m off i.
Proof using.
  intros Hi. unfold ex_at. cbn [ex_loaded co_ex_table mbind option_bind].
  rewrite list_lookup_fmap, lookup_seq_lt by lia. cbn [fmap option_fmap option_map default].
  rewrite ex_parse_guest by lia. cbn [id]. f_equal. lia.
Qed.

Lemma entries_count bytes : 0 <= ulong bytes / CO_EX_ENTRY_SIZE < 2 ^ 31.
Proof using.
  pose proof (u32_range bytes). unfold ulong, CO_EX_ENTRY_SIZE. Z.div_mod_to_equations; lia.
Qed.

Definition load_refused (start_va stop_va : Z) : bool :=
  ((start_va =? 0) || (stop_va <=? start_va)
   || negb (ulong (stop_va - start_va) mod CO_EX_ENTRY_SIZE =? 0))%bool.

Lemma load_refused_iff start_va stop_va :
  load_refused start_va stop_va = true <->
  start_va = 0 \/ stop_va <= start_va \/ ulong (stop_va - start_va) mod 12 <> 0.
Proof using.
  unfold load_refused, CO_EX_ENTRY_SIZE.
  rewrite !orb_true_iff, negb_true_iff, Z.eqb_eq, Z.leb_le, Z.eqb_neq. tauto.
Qed.

(** The four ways a load can end. *)
Lemma load_cases w t start_va stop_va :
  let bytes := ulong (stop_va - start_va) in
  exists w1, (forall base size m, gm_window w base size m -> gm_window w1 base size m) /\
  if load_refused start_va stop_va then
    co_arch_extable_load start_va stop_va (w, t) = (Fail CO_RC_INVALID_PARAMETER, (w1, extable_none))
  else
    co_arch_extable_load start_va stop_va (w, t) = (Fail CO_RC_OUT_OF_MEMORY, (w1, extable_none)) \/
    match gm_read start_va bytes w1 with
    | (Ret bs, w2) => co_arch_extable_load start_va stop_va (w, t) =
                        (Ret tt, (w2, ex_loaded bs start_va (bytes / CO_EX_ENTRY_SIZE)))
    | (Fail rc, w2) => exists w3, co_arch_extable_load start_va stop_va (w, t) =
                        (Fail rc, (w3, extable_none))
    | (Fault, w2) => co_arch_extable_load start_va stop_va (w, t) = (Fault, (w2, extable_none))
    end.
Proof using All.
  cbn zeta. unfold co_arch_extable_load, load_refused.
  destruct (free_runs w t) as (w1 & Hf & Hk1). rewrite (run_bind _ _ _ _ _ Hf).
  destruct ((start_va =? 0) || (stop_va <=? start_va))%bool; cbn [orb].
  { by exists w1. }
  rewrite (run_bind _ _ _ tt (w1, extable_none)) by done. cbn zeta.
  destruct (negb _) eqn:Em.
  { by exists w1. }
  rewrite (run_bind _ _ _ tt (w1, extable_none)) by done.
  destruct (ex_malloc_runs (ulong (stop_va - start_va)) w1) as (b & w2 & Hm & Hk2).
  exists w2. split; [intros; apply Hk2, Hk1; done|].
  rewrite (run_bind _ _ _ b (w2, extable_none)) by (unfold out; by rewrite Hm).
  destruct b; [|by left]. right. rewrite (run_bind _ _ _ tt (w2, extable_none)) by done.
  destruct (gm_read start_va _ w2) as [[bs|rc|] w3] eqn:Er.
  - rewrite (run_bind _ _ _ (inl bs) (w3, extable_none)) by (unfold attempt, out; by rewrite Er). done.
  - destruct (ex_free_runs w3) as (w4 & Hf4 & _). exists w4.
    rewrite (run_bind _ _ _ (inr rc) (w3, extable_none)) by (unfold attempt, out; by rewrite Er).
    by rewrite (run_bind _ _ _ tt (w4, extable_none)) by (unfold out; by rewrite Hf4).
  - apply run_bind_fault. unfold attempt, out. by rewrite Er.
Qed.

(** C32: the table is all of it or none of it. Whatever it is asked for and
    whatever fails, a load leaves either no table, with the failure's code, or
    one whose count, sortedness flag and entries agree. Bad bounds are refused
    as such. And when the table lies in the guest's memory as the kernel's
    array of [n] entries, only the allocator can make the load fail: otherwise
    entry [i] of the host's copy is entry [i] of the guest's. *)
Theorem extable_load_all_or_nothing w t start_va stop_va :
  let run := co_arch_extable_load start_va stop_va (w, t) in
  (run.1 = Ret tt -> ex_wf run.2.2 /\ co_ex_start_va run.2.2 = start_va) /\
  (run.1 <> Ret tt -> run.2.2 = extable_none) /\
  (start_va = 0 \/ stop_va <= start_va \/ ulong (stop_va - start_va) mod 12 <> 0 ->
   run.1 = Fail CO_RC_INVALID_PARAMETER) /\
  (forall base size m off n, gm_window w base size m -> 0 <= off -> 0 < n -> off + 12 * n <= size ->
     start_va = base + off -> start_va <> 0 -> stop_va = start_va + 12 * n ->
     run.1 = Fail CO_RC_OUT_OF_MEMORY \/
     run.1 = Ret tt /\ gm_window run.2.1 base size m /\ co_ex_count run.2.2 = n /\
     forall i, 0 <= i < n -> ex_at run.2.2 i = ex_guest m off i).
Proof using All.
  cbn zeta. destruct (load_cases w t start_va stop_va) as (w1 & Hk & Hc). cbn zeta in Hc.
  pose proof (entries_count (stop_va - start_va)) as Hcount.
  split; [|split; [|split]].
  - intros Hr. destruct (load_refused _ _); [by rewrite Hc in Hr|].
    destruct Hc as [E|Hc]; [by rewrite E in Hr|].
    destruct (gm_read _ _ w1) as [[bs|rc|] w2]; [|destruct Hc as (w3 & Hc)|]; rewrite Hc in *; try done.
    cbn. split; [by apply ex_loaded_wf|done].
  - intros Hr. destruct (load_refused _ _); [by rewrite Hc|].
    destruct Hc as [E|Hc]; [by rewrite E|].
    destruct (gm_read _ _ w1) as [[bs|rc|] w2]; [|destruct Hc as (w3 & Hc)|]; rewrite Hc in *; done.
  - intros Hbad. apply load_refused_iff in Hbad. rewrite Hbad in Hc. by rewrite Hc.
  - intros base size m off n Hw Ho Hn Hs Hst Hz Hstop.
    pose proof (gm_range _ _ _ _ Hw) as (? & ? & ?).
    assert (ulong (stop_va - start_va) = 12 * n) as Eb
      by (unfold ulong; rewrite u32_small; lia).
    assert (load_refused start_va stop_va = false) as Er.
    { apply not_true_iff_false. rewrite load_refused_iff, Eb, Z.mul_comm, Z.mod_mul by lia. lia. }
    rewrite Er in Hc. destruct Hc as [E|Hc]; [left; by rewrite E|right].
    destruct (gm_read_law w1 base size m off (12 * n)) as (w2 & Hrd & Hw2 & _);
      [by apply Hk|lia|lia|lia|].
    rewrite Eb, Hst, Hrd in Hc. rewrite <- Hst in Hc.
    replace (12 * n / CO_EX_ENTRY_SIZE) with n in Hc
      by (unfold CO_EX_ENTRY_SIZE; rewrite Z.mul_comm, Z.div_mul; lia).
    rewrite Hc. cbn [fst snd]. split; [done|]. split; [done|]. split; [done|].
    intros i Hi. by apply ex_loaded_at.
Qed.
End load_ok.
