(* ===== verification/HostCheck.v ===== *)
(** What a crossing may not change of the host processor
    ([arch/x86_64/switch.c], [co_host_snapshot_t] and its three functions): the
    picture taken before the guest is entered, the comparison after it came
    back, and the repair of what can be repaired. *)
From S2P Require Import Prelude.

(** [co_host_field_t] names the registers; they are also the fields of
    [co_host_snapshot_t], which is a value for each. *)
Inductive co_host_field_t :=
  | CO_HOST_FIELD_NONE
  | CO_HOST_FIELD_CPU | CO_HOST_FIELD_CR0 | CO_HOST_FIELD_CR4 | CO_HOST_FIELD_CR3
  | CO_HOST_FIELD_GDT_BASE | CO_HOST_FIELD_GDT_LIMIT | CO_HOST_FIELD_IDT_BASE
  | CO_HOST_FIELD_IDT_LIMIT | CO_HOST_FIELD_TR | CO_HOST_FIELD_FS_BASE | CO_HOST_FIELD_GS_BASE
  | CO_HOST_FIELD_KERNEL_GS_BASE | CO_HOST_FIELD_LSTAR | CO_HOST_FIELD_STAR
  | CO_HOST_FIELD_SFMASK | CO_HOST_FIELD_EFER | CO_HOST_FIELD_CS | CO_HOST_FIELD_SS
  | CO_HOST_FIELD_DS | CO_HOST_FIELD_ES | CO_HOST_FIELD_FS | CO_HOST_FIELD_GS
  | CO_HOST_FIELD_CR8 | CO_HOST_FIELD_PAT | CO_HOST_FIELD_MTRR_DEF | CO_HOST_FIELD_DR7
  | CO_HOST_FIELD_RFLAGS | CO_HOST_FIELD_CR2 | CO_HOST_FIELD_LDT | CO_HOST_FIELD_CSTAR
  | CO_HOST_FIELD_SYSENTER_CS | CO_HOST_FIELD_SYSENTER_ESP | CO_HOST_FIELD_SYSENTER_EIP
  | CO_HOST_FIELD_DR0 | CO_HOST_FIELD_DR1 | CO_HOST_FIELD_DR2 | CO_HOST_FIELD_DR3
  | CO_HOST_FIELD_DR6 | CO_HOST_FIELD_XCR0
  | CO_HOST_FIELD_MAX.

#[export] Instance co_host_field_eq_dec : EqDecision co_host_field_t.
Proof. solve_decision. Defined.

(** The registers as they are, and as a snapshot records them. *)
Definition cpu : Type := co_host_field_t -> Z.
Definition co_host_snapshot_t : Type := co_host_field_t -> Z.

Definition osxsave (cr4 : Z) : bool := negb (Z.land cr4 (Z.shiftl 1 18) =? 0).
(** TF IF DF IOPL NT VM AC VIF VIP *)
Definition rflags_mask : Z := 0x00000000001e7700.

Definition co_host_snapshot (r : cpu) : co_host_snapshot_t := fun f =>
  match f with
  | CO_HOST_FIELD_RFLAGS => Z.land (r CO_HOST_FIELD_RFLAGS) rflags_mask
  | CO_HOST_FIELD_XCR0 => if osxsave (r CO_HOST_FIELD_CR4) then r CO_HOST_FIELD_XCR0 else 0
  | _ => r f
  end.

(** The order of the [CO_CHECK] lines. *)
Definition check_order : list co_host_field_t :=
  [CO_HOST_FIELD_CPU; CO_HOST_FIELD_CR0; CO_HOST_FIELD_CR4; CO_HOST_FIELD_CR3;
   CO_HOST_FIELD_GDT_BASE; CO_HOST_FIELD_GDT_LIMIT; CO_HOST_FIELD_IDT_BASE;
   CO_HOST_FIELD_IDT_LIMIT; CO_HOST_FIELD_TR; CO_HOST_FIELD_FS_BASE; CO_HOST_FIELD_GS_BASE;
   CO_HOST_FIELD_KERNEL_GS_BASE; CO_HOST_FIELD_LSTAR; CO_HOST_FIELD_STAR;
   CO_HOST_FIELD_SFMASK; CO_HOST_FIELD_EFER; CO_HOST_FIELD_CS; CO_HOST_FIELD_SS;
   CO_HOST_FIELD_DS; CO_HOST_FIELD_ES; CO_HOST_FIELD_FS; CO_HOST_FIELD_GS;
   CO_HOST_FIELD_CR8; CO_HOST_FIELD_PAT; CO_HOST_FIELD_MTRR_DEF; CO_HOST_FIELD_DR7;
   CO_HOST_FIELD_RFLAGS; CO_HOST_FIELD_CR2; CO_HOST_FIELD_LDT; CO_HOST_FIELD_CSTAR;
   CO_HOST_FIELD_SYSENTER_CS; CO_HOST_FIELD_SYSENTER_ESP; CO_HOST_FIELD_SYSENTER_EIP;
   CO_HOST_FIELD_DR0; CO_HOST_FIELD_DR1; CO_HOST_FIELD_DR2; CO_HOST_FIELD_DR3;
   CO_HOST_FIELD_DR6; CO_HOST_FIELD_XCR0].

(** The first field that moved, with what was expected and what was found;
    the two are written only on a mismatch. *)
Fixpoint first_moved (l : list co_host_field_t) (want now : co_host_snapshot_t) :
    co_host_field_t * option (Z * Z) :=
  match l with
  | [] => (CO_HOST_FIELD_NONE, None)
  | f :: l => if now f =? want f then first_moved l want now else (f, Some (want f, now f))
  end.

Definition co_host_verify (want : co_host_snapshot_t) (r : cpu) :
    co_host_field_t * option (Z * Z) :=
  first_moved check_order want (co_host_snapshot r).

(** The registers written, in order. DR7 is disarmed first and armed last. *)
Definition co_host_repair (want : co_host_snapshot_t) (bad : co_host_field_t) :
    list (co_host_field_t * Z) :=
  [(CO_HOST_FIELD_PAT, want CO_HOST_FIELD_PAT);
   (CO_HOST_FIELD_MTRR_DEF, want CO_HOST_FIELD_MTRR_DEF);
   (CO_HOST_FIELD_CR8, want CO_HOST_FIELD_CR8);
   (CO_HOST_FIELD_CR2, want CO_HOST_FIELD_CR2)] ++
  (if osxsave (want CO_HOST_FIELD_CR4)
   then [(CO_HOST_FIELD_XCR0, want CO_HOST_FIELD_XCR0)] else []) ++
  [(CO_HOST_FIELD_CSTAR, want CO_HOST_FIELD_CSTAR);
   (CO_HOST_FIELD_SYSENTER_CS, want CO_HOST_FIELD_SYSENTER_CS);
   (CO_HOST_FIELD_SYSENTER_ESP, want CO_HOST_FIELD_SYSENTER_ESP);
   (CO_HOST_FIELD_SYSENTER_EIP, want CO_HOST_FIELD_SYSENTER_EIP);
   (CO_HOST_FIELD_DR7, 0x400);
   (CO_HOST_FIELD_DR0, want CO_HOST_FIELD_DR0);
   (CO_HOST_FIELD_DR1, want CO_HOST_FIELD_DR1);
   (CO_HOST_FIELD_DR2, want CO_HOST_FIELD_DR2);
   (CO_HOST_FIELD_DR3, want CO_HOST_FIELD_DR3);
   (CO_HOST_FIELD_DR6, want CO_HOST_FIELD_DR6);
   (CO_HOST_FIELD_DR7, want CO_HOST_FIELD_DR7)] ++
  (if decide (bad = CO_HOST_FIELD_LDT)
   then [(CO_HOST_FIELD_LDT, want CO_HOST_FIELD_LDT)] else []).

(** A register holds what was written to it last. *)
Definition write_reg (f : co_host_field_t) (v : Z) (r : cpu) : cpu :=
  fun g => if decide (g = f) then v else r g.
Definition write_regs (l : list (co_host_field_t * Z)) (r : cpu) : cpu :=
  fold_left (fun r p => write_reg p.1 p.2 r) l r.

(** The fields after which a repaired run goes on. *)
Definition repairable (bad : co_host_field_t) : bool :=
  bool_decide (bad = CO_HOST_FIELD_CR8) || bool_decide (bad = CO_HOST_FIELD_PAT)
  || bool_decide (bad = CO_HOST_FIELD_MTRR_DEF) || bool_decide (bad = CO_HOST_FIELD_DR7).

(** ** Properties *)

Lemma first_moved_none l want now e :
  first_moved l want now = (CO_HOST_FIELD_NONE, e) -> CO_HOST_FIELD_NONE ∉ l ->
  forall f, f ∈ l -> now f = want f.
Proof.
  induction l as [|g l IH]; cbn; intros Hm Hn f Hf; [by apply not_elem_of_nil in Hf|].
  destruct (Z.eqb_spec (now g) (want g)) as [He|He].
  - apply elem_of_cons in Hf as [->|Hf]; [done|]. apply IH; [done| |done].
    intros ?. apply Hn. by right.
  - simplify_eq. destruct Hn. by left.
Qed.

(** Everything before the field that is named came back as it left. *)
Lemma first_moved_prefix l want now bad e :
  first_moved l want now = (bad, e) -> bad <> CO_HOST_FIELD_NONE ->
  exists l1 l2, l = l1 ++ bad :: l2 /\ (forall f, f ∈ l1 -> now f = want f) /\
    now bad <> want bad /\ e = Some (want bad, now bad).
Proof.
  induction l as [|g l IH]; cbn; intros Hm Hb; [by simplify_eq|].
  destruct (Z.eqb_spec (now g) (want g)) as [He|He].
  - destruct (IH Hm Hb) as (l1 & l2 & -> & Hl & Hne & ->). exists (g :: l1), l2.
    split; [done|]. split; [|done]. intros f Hf. apply elem_of_cons in Hf as [->|Hf]; [done|by apply Hl].
  - simplify_eq. exists [], l. split; [done|]. split; [|done]. intros f Hf. by apply not_elem_of_nil in Hf.
Qed.

(** What is in front of the four repairable fields, in the order of the checks. *)
Definition vital : list co_host_field_t := take 22 check_order.

(** What the repair writes, whatever the field named. *)
Definition restored (want r : cpu) (bad : co_host_field_t) : Prop :=
  let now := co_host_snapshot (write_regs (co_host_repair want bad) r) in
  forall f, f ∈ check_order -> f ∉ vital -> f <> CO_HOST_FIELD_RFLAGS -> f <> CO_HOST_FIELD_LDT ->
    now f = want f.

Lemma write_regs_app l1 l2 r : write_regs (l1 ++ l2) r = write_regs l2 (write_regs l1 r).
Proof. apply fold_left_app. Qed.

Lemma repairable_cases bad :
  repairable bad = true ->
  bad = CO_HOST_FIELD_CR8 \/ bad = CO_HOST_FIELD_PAT \/ bad = CO_HOST_FIELD_MTRR_DEF \/
  bad = CO_HOST_FIELD_DR7.
Proof.
  unfold repairable. rewrite !orb_true_iff, !bool_decide_eq_true. tauto.
Qed.

(** The repairable fields come after the vital ones: naming one of them says
    that all the vital ones came back. *)
Lemma repairable_vital want r bad e f :
  co_host_verify want r = (bad, e) -> repairable bad = true -> f ∈ vital ->
  co_host_snapshot r f = want f.
Proof.
  intros Hv Hr Hf. apply repairable_cases in Hr.
  assert (bad <> CO_HOST_FIELD_NONE) as Hb by (destruct Hr as [->|[->|[->| ->]]]; done).
  destruct (first_moved_prefix _ _ _ _ _ Hv Hb) as (l1 & l2 & El & Hl1 & _).
  apply Hl1. apply list_elem_of_lookup in Hf as [i Hi].
  unfold vital in Hi. apply lookup_take_Some in Hi as [Hi Hlt]. 
  destruct (decide (i < length l1)%nat) as [Hin|Hout].
  - rewrite El, lookup_app_l in Hi by done. by eapply list_elem_of_lookup_2.
  - exfalso. assert (check_order !! length l1 = Some bad) as Hbl
      by (by rewrite El, lookup_app_r, Nat.sub_diag by lia).
    assert (Forall (fun g => ~ (g = CO_HOST_FIELD_CR8 \/ g = CO_HOST_FIELD_PAT \/
              g = CO_HOST_FIELD_MTRR_DEF \/ g = CO_HOST_FIELD_DR7)) (take 22 check_order)) as Hall
      by (cbn; repeat constructor; intros [?|[?|[?|?]]]; done).
    rewrite Forall_lookup in Hall. apply (Hall (length l1) bad); [|done].
    rewrite lookup_take_lt by lia. done.
Qed.

(** The repair writes nothing of the vital registers. *)
Lemma repair_keeps want r bad f :
  f ∈ vital \/ (f = CO_HOST_FIELD_LDT /\ bad <> CO_HOST_FIELD_LDT) \/ f = CO_HOST_FIELD_RFLAGS ->
  write_regs (co_host_repair want bad) r f = r f.
Proof.
  intros Hf. unfold co_host_repair.
  destruct (osxsave (want CO_HOST_FIELD_CR4)), (decide (bad = CO_HOST_FIELD_LDT)) as [->|];
    destruct Hf as [Hf|[[-> Hne]| ->]]; try done;
    cbn in Hf; repeat (apply elem_of_cons in Hf as [->|Hf]; [done|]); by apply not_elem_of_nil in Hf.
Qed.

Lemma repair_restores want r bad :
  r CO_HOST_FIELD_CR4 = want CO_HOST_FIELD_CR4 ->
  (osxsave (want CO_HOST_FIELD_CR4) = false -> want CO_HOST_FIELD_XCR0 = 0) ->
  restored want r bad.
Proof.
  intros H4 Hx f Hf Hv Hfl Hl.
  rewrite <- (take_drop 22 check_order) in Hf. apply elem_of_app in Hf as [Hf|Hf]; [done|].
  clear Hv. cbn [drop check_order] in Hf.
  destruct (decide (f = CO_HOST_FIELD_XCR0)) as [->|Hne].
  - unfold co_host_snapshot. rewrite repair_keeps by (left; vm_compute; set_solver). rewrite H4.
    destruct (osxsave _) eqn:Eo; [|by rewrite Hx]. unfold co_host_repair. rewrite Eo.
    by destruct (decide (bad = CO_HOST_FIELD_LDT)).
  - unfold co_host_repair. destruct (osxsave _), (decide (bad = CO_HOST_FIELD_LDT));
      repeat (apply elem_of_cons in Hf as [->|Hf]; [done|]); by apply not_elem_of_nil in Hf.
Qed.

(** C19: the verdict on the host's registers. No verdict means that every field
    of the snapshot is as it was. A verdict names a field that differs, with
    both its values, and every field checked before it is as it was. And when
    the field is one after which the run goes on (CR8, PAT, MTRRdefType, DR7),
    the repair and the restored flags leave every field as it was, whatever else
    the crossing damaged, but LDT. *)
Theorem host_verdict_sound (r0 r : cpu) :
  let want := co_host_snapshot r0 in
  let '(bad, values) := co_host_verify want r in
  (bad = CO_HOST_FIELD_NONE -> forall f, f ∈ check_order -> co_host_snapshot r f = want f) /\
  (bad <> CO_HOST_FIELD_NONE ->
     values = Some (want bad, co_host_snapshot r bad) /\ co_host_snapshot r bad <> want bad /\
     exists before after, check_order = before ++ bad :: after /\
       forall f, f ∈ before -> co_host_snapshot r f = want f) /\
  (repairable bad = true ->
     let r' := write_reg CO_HOST_FIELD_RFLAGS (r0 CO_HOST_FIELD_RFLAGS)
                 (write_regs (co_host_repair want bad) r) in
     forall f, f ∈ check_order -> f <> CO_HOST_FIELD_LDT -> co_host_snapshot r' f = want f).
Proof.
  cbn zeta. destruct (co_host_verify (co_host_snapshot r0) r) as [bad values] eqn:Ev. split_and!.
  - intros ->. eapply first_moved_none; [exact Ev|]. by apply (bool_decide_unpack _).
  - intros Hb. destruct (first_moved_prefix _ _ _ _ _ Ev Hb) as (l1 & l2 & El & Hl & Hne & Hvals).
    split; [done|]. split; [done|]. by exists l1, l2.
  - intros Hr f Hf Hl.
    destruct (decide (f = CO_HOST_FIELD_RFLAGS)) as [->|Hfl]; [done|].
    assert (forall g, g ∈ vital -> co_host_snapshot r g = co_host_snapshot r0 g) as Hvital
      by (intros; by eapply repairable_vital).
    assert (r CO_HOST_FIELD_CR4 = r0 CO_HOST_FIELD_CR4) as H4
      by (apply (Hvital CO_HOST_FIELD_CR4); by apply (bool_decide_unpack _)).
    transitivity (co_host_snapshot (write_regs (co_host_repair (co_host_snapshot r0) bad) r) f).
    { by destruct f. }
    destruct (decide (f ∈ vital)) as [Hv|Hv].
    + rewrite <- Hvital by done.
      assert (f <> CO_HOST_FIELD_XCR0) as Hx by (intros ->; exact (bool_decide_unpack (CO_HOST_FIELD_XCR0 ∉ vital) I Hv)).
      pose proof (repair_keeps (co_host_snapshot r0) r bad f (or_introl Hv)) as Hk.
      by destruct f.
    + apply repair_restores; try done. cbn. intros Ho. unfold osxsave in *. by rewrite Ho.
Qed.

(** The exception is real: a crossing that damages both PAT and LDT is named
    after PAT, the run goes on, and LDT stays as the crossing left it. *)
Lemma ldt_left_damaged :
  exists r0 r, let want := co_host_snapshot r0 in
  co_host_verify want r = (CO_HOST_FIELD_PAT, Some (7, 6)) /\
  repairable CO_HOST_FIELD_PAT = true /\
  write_regs (co_host_repair want CO_HOST_FIELD_PAT) r CO_HOST_FIELD_LDT <> r0 CO_HOST_FIELD_LDT.
Proof.
  exists (fun f => 7), (fun f => if decide (f = CO_HOST_FIELD_PAT \/ f = CO_HOST_FIELD_LDT) then 6 else 7).
  vm_compute. done.
Qed.
