(* ===== verification/Ring.v ===== *)
(** The record format of the guest's network rings.

    A record is a 32-bit length, the frame and padding to four bytes; positions
    run freely and are masked when a ring is indexed. [frames_at] says that a
    sequence of bytes, indexed by position, holds given frames; a ring and a
    linear buffer are two such sequences. *)
From S2P Require Import Prelude.
From S2P Require Import Mem.

Definition CO_NIO_MAX_FRAME : Z := 1514.

(** [record = 4 + ((len + 3) & ~3u)] *)
Definition record_bytes (len : Z) : Z := u32 (4 + Z.land (u32 (len + 3)) 0xfffffffc).

Lemma record_bytes_eq len :
  0 <= len <= CO_NIO_MAX_FRAME -> record_bytes len = 4 + (len + 3) / 4 * 4.
Proof.
  unfold CO_NIO_MAX_FRAME. intros Hl. unfold record_bytes. rewrite (u32_small (len + 3)) by lia.
  assert (Z.land (len + 3) 0xfffffffc = Z.ldiff (Z.land (len + 3) (Z.ones 32)) (Z.ones 2)) as ->.
  { change 0xfffffffc with (Z.ldiff (Z.ones 32) (Z.ones 2)). apply Z.bits_inj'. intros i Hi.
    rewrite Z.land_spec, !Z.ldiff_spec, Z.land_spec. by destruct (Z.testbit _ _). }
  rewrite Z.land_ones by done. rewrite Z.mod_small by lia. rewrite Z.ldiff_ones_r by done.
  rewrite Z.shiftl_mul_pow2, Z.shiftr_div_pow2 by done. change (2 ^ 2) with 4.
  apply u32_small. Z.div_mod_to_equations. lia.
Qed.

Lemma record_bytes_range len :
  0 < len <= CO_NIO_MAX_FRAME ->
  record_bytes len mod 4 = 0 /\ 8 <= record_bytes len <= 1520 /\ 4 + len <= record_bytes len.
Proof.
  intros Hl. rewrite record_bytes_eq by lia. unfold CO_NIO_MAX_FRAME in Hl.
  split_and!; try (Z.div_mod_to_equations; lia).
Qed.

(** A frame the protocol can carry. *)
Definition frame_len (f : list Z) : Z := Z.of_nat (length f).
Definition frame_ok (f : list Z) : Prop := 0 < frame_len f <= CO_NIO_MAX_FRAME.

(** The bytes [bs] from position [pos] on. *)
Definition holds (g : Z -> Z) (pos : Z) (bs : list Z) : Prop :=
  forall i b, bs !! i = Some b -> g (pos + Z.of_nat i) = b.

(** The frames [fs] one after the other from [pos] to [stop]. *)
Fixpoint frames_at (g : Z -> Z) (pos : Z) (fs : list (list Z)) (stop : Z) : Prop :=
  match fs with
  | [] => stop = pos
  | f :: fs' =>
      frame_ok f /\ holds g pos (le_bytes 4 (frame_len f)) /\ holds g (pos + 4) f /\
      frames_at g (pos + record_bytes (frame_len f)) fs' stop
  end.

(** A ring of [size] bytes at [base] of a memory; a buffer. *)
Definition ring_byte (m : mem) (base size pos : Z) : Z := load m (base + pos mod size).
Definition buf_byte (bs : list Z) (pos : Z) : Z := default 0 (bs !! Z.to_nat pos).

Lemma holds_ext g g' pos bs :
  (forall i, pos <= i < pos + Z.of_nat (length bs) -> g' i = g i) ->
  holds g pos bs -> holds g' pos bs.
Proof.
  intros Hx Hh i b Hb. pose proof (lookup_lt_Some _ _ _ Hb). rewrite Hx by lia. by apply Hh.
Qed.

Lemma frames_at_le g pos fs stop : frames_at g pos fs stop -> pos <= stop.
Proof.
  revert pos. induction fs as [|f fs IH]; intros pos; cbn [frames_at]; [lia|].
  intros (Hf & _ & _ & Hr). apply IH in Hr. pose proof (record_bytes_range _ Hf). lia.
Qed.

Lemma frames_at_ext g g' pos fs stop :
  (forall i, pos <= i < stop -> g' i = g i) -> frames_at g pos fs stop -> frames_at g' pos fs stop.
Proof.
  revert pos. induction fs as [|f fs IH]; intros pos Hx; cbn [frames_at]; [done|].
  intros (Hf & Hl & Hb & Hr). pose proof (record_bytes_range _ Hf) as (_ & _ & Hlen).
  pose proof (frames_at_le _ _ _ _ Hr) as Hle. unfold frame_len in Hlen, Hle |- *.
  split_and!; [done| | |].
  - eapply holds_ext; [|exact Hl]. intros i. rewrite length_le_bytes. intros. apply Hx. lia.
  - eapply holds_ext; [|exact Hb]. intros i Hi. apply Hx. lia.
  - apply IH; [|done]. intros i Hi. apply Hx. pose proof (record_bytes_range _ Hf). lia.
Qed.

Lemma frames_at_app g pos fs mid gs stop :
  frames_at g pos fs mid -> frames_at g mid gs stop -> frames_at g pos (fs ++ gs) stop.
Proof.
  revert pos. induction fs as [|f fs IH]; intros pos; cbn [frames_at app]; [by intros ->|].
  intros (Hf & Hl & Hb & Hr) Hg. eauto.
Qed.

Lemma frames_at_align g pos fs stop :
  pos mod 4 = 0 -> frames_at g pos fs stop -> stop mod 4 = 0.
Proof.
  revert pos. induction fs as [|f fs IH]; intros pos Hp; cbn [frames_at]; [by intros ->|].
  intros (Hf & _ & _ & Hr). eapply IH; [|exact Hr].
  pose proof (record_bytes_range _ Hf) as (Ha & _). Z.div_mod_to_equations; lia.
Qed.

(** The length word as it reads. *)
Lemma holds_word g pos v :
  0 <= v < 2 ^ 32 -> holds g pos (le_bytes 4 v) ->
  le_join (g <$> seqZ pos 4) = v.
Proof.
  intros Hv Hh. assert (g <$> seqZ pos 4 = le_bytes 4 v) as ->.
  - apply list_eq. intros i. rewrite list_lookup_fmap. destruct (decide (i < 4)%nat).
    + rewrite lookup_seqZ_lt by lia.
      destruct (lookup_lt_is_Some_2 (le_bytes 4 v) i) as [b Hb]; [by rewrite length_le_bytes|].
      rewrite Hb. apply (f_equal Some). by apply Hh.
    + rewrite lookup_seqZ_ge by lia. rewrite lookup_ge_None_2; [done|].
      rewrite length_le_bytes. lia.
  - rewrite le_join_bytes. apply Z.mod_small. done.
Qed.

(** ** Positions of a ring *)

Section ring.
Context (n : Z) (Hn : 0 <= n <= 32).

Lemma ring_mask pos : Z.land pos (2 ^ n - 1) = pos mod 2 ^ n.
Proof using Hn. apply land_mask. lia. Qed.

Lemma pow_divides : 2 ^ 32 = 2 ^ (32 - n) * 2 ^ n.
Proof using Hn. rewrite <- Z.pow_add_r by lia. f_equal. lia. Qed.

Lemma ring_u32 pos : u32 pos mod 2 ^ n = pos mod 2 ^ n.
Proof using Hn.
  unfold u32. rewrite pow_divides. rewrite Z.mul_comm.
  rewrite <- (Z.mod_mod_divide pos (2 ^ n * 2 ^ (32 - n)) (2 ^ n)); [done|].
  by apply Z.divide_factor_l.
Qed.

(** Two positions less than a turn apart are two bytes. *)
Lemma ring_apart a b : a < b < a + 2 ^ n -> a mod 2 ^ n <> b mod 2 ^ n.
Proof using Hn.
  intros Hab He. assert (0 < 2 ^ n) by (apply Z.pow_pos_nonneg; lia).
  assert ((b - a) mod 2 ^ n = 0) as Hz by (rewrite Zminus_mod, He, Z.sub_diag; apply Z.mod_0_l; lia).
  rewrite Z.mod_small in Hz by lia. lia.
Qed.

(** A store that does not straddle the wrap, as seen by positions less than a
    turn away from it. *)
Lemma ring_store m base p bs q :
  Forall is_byte bs -> p mod 2 ^ n + Z.of_nat (length bs) <= 2 ^ n ->
  p + Z.of_nat (length bs) - 2 ^ n <= q < p + 2 ^ n ->
  ring_byte (store_bytes m (base + p mod 2 ^ n) bs) base (2 ^ n) q =
    if decide (p <= q < p + Z.of_nat (length bs)) then default 0 (bs !! Z.to_nat (q - p))
    else ring_byte m base (2 ^ n) q.
Proof using Hn.
  intros Hbs Hfit Hq. assert (0 < 2 ^ n) as Hpos by (apply Z.pow_pos_nonneg; lia).
  unfold ring_byte. rewrite load_store by done.
  pose proof (Z.mod_pos_bound p (2 ^ n) Hpos) as Hp. pose proof (Z.mod_pos_bound q (2 ^ n) Hpos) as Hqm.
  pose proof (Z.div_mod p (2 ^ n)) as Ep. pose proof (Z.div_mod q (2 ^ n)) as Eq.
  set (S := 2 ^ n) in *. set (a := p mod S) in *. set (b := q mod S) in *.
  set (dp := p / S) in *. set (dq := q / S) in *.
  assert (dq = dp \/ dq = dp + 1 \/ dq = dp - 1) as Hd.
  { assert (S * (dq - dp) < 2 * S /\ - 2 * S < S * (dq - dp)) by lia.
    assert (dq - dp < 2) by (apply (Z.mul_lt_mono_pos_l S); lia).
    assert (-2 < dq - dp) by (apply (Z.mul_lt_mono_pos_l S); lia). lia. }
  destruct (decide (p <= q < p + Z.of_nat (length bs))) as [Hin|Hout].
  - assert (dq = dp) as Hdd by (destruct Hd as [?|[E|E]]; [done|rewrite E in *; lia|rewrite E in *; lia]).
    rewrite Hdd in *. rewrite decide_True by lia. do 2 f_equal. lia.
  - rewrite decide_False; [done|]. intros Hc. apply Hout.
    destruct Hd as [E|[E|E]]; rewrite E in *; lia.
Qed.

(** A turn later the byte is the same. *)
Lemma ring_turn m base q : ring_byte m base (2 ^ n) (q + 2 ^ n) = ring_byte m base (2 ^ n) q.
Proof using Hn.
  unfold ring_byte. assert (0 < 2 ^ n) by (apply Z.pow_pos_nonneg; lia).
  replace (q + 2 ^ n) with (q + 1 * 2 ^ n) by lia. by rewrite Z.mod_add by lia.
Qed.

(** A store outside the ring. *)
Lemma ring_store_out m base a bs q :
  a + Z.of_nat (length bs) <= base \/ base + 2 ^ n <= a ->
  ring_byte (store_bytes m a bs) base (2 ^ n) q = ring_byte m base (2 ^ n) q.
Proof using Hn.
  intros Ha. unfold ring_byte, load, store_bytes.
  assert (0 < 2 ^ n) as Hpos by (apply Z.pow_pos_nonneg; lia).
  pose proof (Z.mod_pos_bound q (2 ^ n) Hpos). by rewrite decide_False by lia.
Qed.

(** Positions from an offset to the wrap are consecutive. *)
Lemma ring_part m base start off k :
  off = start mod 2 ^ n -> 0 <= k -> off + k <= 2 ^ n ->
  load_bytes m (base + off) k = ring_byte m base (2 ^ n) <$> seqZ start k.
Proof using Hn.
  intros -> Hk Hfit. assert (0 < 2 ^ n) as Hpos by (apply Z.pow_pos_nonneg; lia).
  pose proof (Z.mod_pos_bound start (2 ^ n) Hpos) as Hm.
  unfold load_bytes. apply list_eq. intros i. rewrite !list_lookup_fmap.
  destruct (decide (Z.of_nat i < k)) as [Hlt|Hge].
  - rewrite !lookup_seqZ_lt by lia. apply (f_equal Some). unfold ring_byte. f_equal.
    rewrite <- Z.add_assoc. f_equal. rewrite <- Zplus_mod_idemp_l.
    symmetry. apply Z.mod_small. lia.
  - by rewrite !lookup_seqZ_ge by lia.
Qed.

(** Where the last byte before the wrap is the end of the first part. *)
Lemma ring_wraps start first :
  first = 2 ^ n - start mod 2 ^ n -> (start + first) mod 2 ^ n = 0.
Proof using Hn.
  intros ->. assert (2 ^ n <> 0) as Hpos by (apply Z.pow_nonzero; lia).
  pose proof (Z.div_mod start (2 ^ n) Hpos) as E.
  replace (start + (2 ^ n - start mod 2 ^ n)) with ((1 + start / 2 ^ n) * 2 ^ n) by lia.
  by apply Z.mod_mul.
Qed.

(** Reading [k] bytes at a position in two parts. *)
Lemma ring_two_parts m base start first k :
  0 <= first <= k -> k <= 2 ^ n -> start mod 2 ^ n + first <= 2 ^ n ->
  (first < k -> first = 2 ^ n - start mod 2 ^ n) ->
  load_bytes m (base + start mod 2 ^ n) first ++
    (if first <? k then load_bytes m base (k - first) else []) =
  ring_byte m base (2 ^ n) <$> seqZ start k.
Proof using Hn.
  intros Hf Hk Hfit Hw. rewrite (ring_part m base start _ first) by (done || lia).
  destruct (Z.ltb_spec first k) as [Hlt|Hge].
  - assert (0 < 2 ^ n) as Hpos by (apply Z.pow_pos_nonneg; lia).
    pose proof (Z.mod_pos_bound start (2 ^ n) Hpos).
    pose proof (ring_wraps start first (Hw Hlt)) as Hz. rewrite <- (Z.add_0_r base) at 2.
    rewrite (ring_part m base (start + first) 0) by (done || lia).
    rewrite <- fmap_app, <- seqZ_app by lia. do 2 f_equal. lia.
  - rewrite app_nil_r. do 2 f_equal. lia.
Qed.
End ring.

(** What a sequence that holds a list reads as. *)
Lemma holds_list g pos bs : holds g pos bs -> g <$> seqZ pos (Z.of_nat (length bs)) = bs.
Proof.
  intros Hh. apply list_eq. intros i. rewrite list_lookup_fmap.
  destruct (decide (i < length bs)%nat) as [Hlt|Hge].
  - rewrite lookup_seqZ_lt by lia. destruct (lookup_lt_is_Some_2 bs i Hlt) as [b Hb].
    rewrite Hb. apply (f_equal Some). by apply Hh.
  - rewrite lookup_seqZ_ge by lia. symmetry. apply lookup_ge_None_2. lia.
Qed.

Lemma holds_of_list g pos bs : g <$> seqZ pos (Z.of_nat (length bs)) = bs -> holds g pos bs.
Proof.
  intros Hb i b Hi. rewrite <- Hb, list_lookup_fmap in Hi.
  apply fmap_Some in Hi as (z & Hz & ->). by apply lookup_seqZ in Hz as [-> _].
Qed.

(** Where the frames end. *)
Fixpoint frames_stop (pos : Z) (fs : list (list Z)) : Z :=
  match fs with [] => pos | f :: fs' => frames_stop (pos + record_bytes (frame_len f)) fs' end.

Lemma frames_at_stop g pos fs stop : frames_at g pos fs stop -> stop = frames_stop pos fs.
Proof.
  revert pos. induction fs as [|f fs IH]; intros pos; cbn [frames_at frames_stop]; [done|].
  intros (_ & _ & _ & Hr). by apply IH.
Qed.

Lemma frames_at_split g pos fs gs stop :
  frames_at g pos (fs ++ gs) stop ->
  frames_at g pos fs (frames_stop pos fs) /\ frames_at g (frames_stop pos fs) gs stop.
Proof.
  revert pos. induction fs as [|f fs IH]; intros pos; cbn [frames_at frames_stop app]; [done|].
  intros (Hf & Hl & Hb & Hr). destruct (IH _ Hr). done.
Qed.
