(* ===== verification/Net.v ===== *)
(** The host half of the guest's network rings ([kernel/net.c]).

    Verified against the interface of [GuestMem]: [struct co_net_io] is a
    window at [net_io_va]. [co_net_take] consumes the TX ring, [co_net_put]
    fills the RX ring, [co_net_dump] only looks. Each holds [net_lock] from the
    check of the address to its last access, so each is one step. *)
From S2P Require Import Prelude.
From S2P Require Import Rc.
From S2P Require Import Mem.
From S2P Require Import GuestMem.
From S2P Require Import Ring.

Definition CO_NIO_TX_HEAD : Z := 0x00.
Definition CO_NIO_TX_TAIL : Z := 0x04.
Definition CO_NIO_RX_HEAD : Z := 0x08.
Definition CO_NIO_RX_TAIL : Z := 0x0c.
Definition CO_NIO_TX : Z := 0x10.
Definition CO_NIO_TX_SIZE : Z := 128 * 1024.
Definition CO_NIO_RX : Z := CO_NIO_TX + CO_NIO_TX_SIZE.
Definition CO_NIO_RX_SIZE : Z := 128 * 1024.

(** [net_io_va] (zero: retired) and whether [net_lock] exists. *)
Record net_statics := NetStatics { nio_va : Z; nio_lock : bool }.

(** The four indices a call reports. *)
Record indices := Indices { tx_head : Z; tx_tail : Z; rx_head : Z; rx_tail : Z }.

Section net.
Context {W : Type} `{GuestMem W} `{Statics W net_statics}.

Definition net_va : M W Z := gets (fun w => nio_va (static w)).

Definition co_net_read_u32 (offset : Z) : M W Z :=
  va ← net_va; gm_read_u32 (u64 (va + offset)).

Definition co_net_write_u32 (offset value : Z) : M W unit :=
  va ← net_va; gm_write_u32 (u64 (va + offset)) value.

(** [if (!net_lock) ...; acquire; if (!net_io_va) ...] *)
Definition net_live : M W unit :=
  lock ← gets (fun w => nio_lock (static w));
  fail_if (negb lock) CO_RC_NOT_FOUND ;;
  va ← net_va;
  fail_if (va =? 0) CO_RC_NOT_FOUND.

Definition co_net_take (new_tail : Z) : M W indices :=
  net_live ;;
  head ← or_error (co_net_read_u32 CO_NIO_TX_HEAD);
  tail ← or_error (co_net_read_u32 CO_NIO_TX_TAIL);
  fail_if (u32 (head - tail) <? u32 (new_tail - tail)) CO_RC_INVALID_PARAMETER ;;
  (if new_tail =? tail then mret tt
   else or_error (co_net_write_u32 CO_NIO_TX_TAIL new_tail)) ;;
  rx_head ← or_error (co_net_read_u32 CO_NIO_RX_HEAD);
  rx_tail ← or_error (co_net_read_u32 CO_NIO_RX_TAIL);
  mret (Indices head new_tail rx_head rx_tail).

(** The bytes [[off, off + n)] of the caller's buffer; C reads past its end
    without asking. *)
Definition buf_part (data : list Z) (off n : Z) : M W (list Z) :=
  in_bounds (off + n <=? Z.of_nat (length data)) ;;
  mret (take (Z.to_nat n) (drop (Z.to_nat off) data)).

(** One record into the ring: length word, then the frame, split at the wrap. *)
Definition put_record (data : list Z) (head pos len : Z) : M W unit :=
  va ← net_va;
  let off := Z.land head (CO_NIO_RX_SIZE - 1) in
  or_error (gm_write (u64 (va + CO_NIO_RX + off)) (le_bytes 4 len) 4) ;;
  let off := Z.land (u32 (off + 4)) (CO_NIO_RX_SIZE - 1) in
  let first := if len <? CO_NIO_RX_SIZE - off then len else CO_NIO_RX_SIZE - off in
  bs ← buf_part data (pos + 4) first;
  or_error (gm_write (u64 (va + CO_NIO_RX + off)) bs first) ;;
  if first <? len then
    bs ← buf_part data (pos + 4 + first) (len - first);
    or_error (gm_write (u64 (va + CO_NIO_RX)) bs (len - first))
  else mret tt.

(** The loop: [(head, pos, n)]; it leaves with [(head, n)]. *)
Definition put_step (data : list Z) (size frames tail : Z) (st : Z * Z * Z) :
    M W ((Z * Z * Z) + (Z * Z)) :=
  let '(head, pos, n) := st in
  if frames <=? n then mret (inr (head, n)) else
  fail_if (size <? u32 (pos + 4)) CO_RC_INVALID_PARAMETER ;;
  word ← buf_part data pos 4;
  let len := le_join word in
  fail_if ((len =? 0) || (CO_NIO_MAX_FRAME <? len))%bool CO_RC_INVALID_PARAMETER ;;
  let record := record_bytes len in
  fail_if (size <? u32 (pos + record)) CO_RC_INVALID_PARAMETER ;;
  if CO_NIO_RX_SIZE <? u32 (u32 (head - tail) + record) then mret (inr (head, n)) else
  put_record data head pos len ;;
  mret (inl (u32 (head + record), u32 (pos + record), u32 (n + 1))).

(** The result is [*taken]; a failure leaves it zero. *)
Definition co_net_put (data : list Z) (size frames : Z) : M W Z :=
  net_live ;;
  head ← or_error (co_net_read_u32 CO_NIO_RX_HEAD);
  tail ← or_error (co_net_read_u32 CO_NIO_RX_TAIL);
  fail_if (CO_NIO_RX_SIZE <? u32 (head - tail)) CO_RC_ERROR ;;
  r ← mloop (put_step data size frames tail) (head, 0, 0);
  (if r.2 =? 0 then mret tt else or_error (co_net_write_u32 CO_NIO_RX_HEAD r.1)) ;;
  fail_if (r.2 =? 0) CO_RC_OUT_OF_MEMORY ;;
  mret r.2.

(** False on any doubt. *)
Definition co_net_rx_pending : M W bool :=
  live ← attempt net_live;
  match live with inr _ => mret false | inl _ =>
  head ← attempt (co_net_read_u32 CO_NIO_RX_HEAD);
  match head with inr _ => mret false | inl head =>
  tail ← attempt (co_net_read_u32 CO_NIO_RX_TAIL);
  match tail with inr _ => mret false | inl tail => mret (negb (head =? tail)) end end end.

(** The indices and [min (size, 128K)] bytes of the TX ring from [start]. *)
Definition co_net_dump (start size : Z) : M W (indices * list Z) :=
  net_live ;;
  th ← or_error (co_net_read_u32 CO_NIO_TX_HEAD);
  tt_ ← or_error (co_net_read_u32 CO_NIO_TX_TAIL);
  rh ← or_error (co_net_read_u32 CO_NIO_RX_HEAD);
  rt ← or_error (co_net_read_u32 CO_NIO_RX_TAIL);
  let want := if CO_NIO_TX_SIZE <? size then CO_NIO_TX_SIZE else size in
  let off := Z.land start (CO_NIO_TX_SIZE - 1) in
  let first := if want <? CO_NIO_TX_SIZE - off then want else CO_NIO_TX_SIZE - off in
  va ← net_va;
  a ← (if first =? 0 then mret [] else
       or_error (gm_read (u64 (va + CO_NIO_TX + off)) first));
  b ← (if first <? want then or_error (gm_read (u64 (va + CO_NIO_TX)) (want - first))
       else mret []);
  mret (Indices th tt_ rh rt, a ++ b).
End net.

(** ** The window of the rings *)

Definition CO_NIO_BYTES : Z := CO_NIO_RX + CO_NIO_RX_SIZE.

(** Arithmetic on the offsets. *)
Ltac nio :=
  unfold CO_NIO_BYTES, CO_NIO_RX, CO_NIO_TX, CO_NIO_TX_SIZE, CO_NIO_RX_SIZE in *; lia.

(** The part of the window that no position of the RX ring names. *)
Definition off_rx (off : Z) : Prop := off < CO_NIO_RX \/ CO_NIO_RX + CO_NIO_RX_SIZE <= off.

Abbreviation rx_byte m := (ring_byte m CO_NIO_RX CO_NIO_RX_SIZE).
Abbreviation tx_byte m := (ring_byte m CO_NIO_TX CO_NIO_TX_SIZE).

(** A state reached from [w0] through the window, which holds [m] now. *)
Abbreviation net_at := (dev_at nio_va CO_NIO_BYTES).

Section net_proofs.
Context {W : Type} `{HW : GuestWindow W} `{HS : Statics W net_statics}
  `{HK : !StaticsKept W net_statics}.
Implicit Types (w : W) (m : mem).

(** A live device whose window holds [m]. *)
Record net_io w m : Prop := {
  ni_lock : nio_lock (static w) = true;
  ni_va : nio_va (static w) <> 0;
  ni_window : gm_window w (nio_va (static w)) CO_NIO_BYTES m;
}.

Lemma net_at_refl w m : net_io w m -> net_at w m w.
Proof using. intros [_ _ Hw]. by apply reached_refl. Qed.

Lemma net_at_io w0 m0 m w : net_io w0 m0 -> net_at w0 m w -> net_io w m.
Proof using HK.
  intros [Hl Hv _] Ha. pose proof (dev_at_static _ _ _ _ _ Ha) as Es. destruct Ha as (Hw & _).
  split; by rewrite Es.
Qed.

Lemma wp_net_live w0 m (Q : unit -> W -> Prop) E w :
  net_io w0 m -> net_at w0 m w -> Q tt w -> wp net_live Q E w.
Proof using HK.
  intros [Hl Hv _] Ha HQ. unfold net_live. do 2 wp_step.
  rewrite (dev_at_static _ _ _ _ _ Ha), Hl. wp_step. apply wp_ret. wp_step.
  apply (wp_dev_va nio_va CO_NIO_BYTES w0 m); [done|]. rewrite (proj2 (Z.eqb_neq _ 0)) by done. by apply wp_ret.
Qed.

Lemma wp_net_read_u32 w0 m off (Q : Z -> W -> Prop) E w :
  net_at w0 m w -> 0 <= off -> off mod 4 = 0 -> off + 4 <= CO_NIO_BYTES ->
  (forall w', net_at w0 m w' -> Q (load_u32 m off) w') ->
  wp (co_net_read_u32 off) Q E w.
Proof using HK.
  intros Ha Ho Hal Hs HQ. unfold co_net_read_u32. wp_step.
  apply (wp_dev_va nio_va CO_NIO_BYTES w0 m); [done|]. by apply (wp_dev_read_u32 _ CO_NIO_BYTES w0 m).
Qed.

Lemma wp_net_read w0 m off (Q : Z -> W -> Prop) E w :
  net_at w0 m w -> 0 <= off -> off mod 4 = 0 -> off + 4 <= CO_NIO_BYTES ->
  (forall w', net_at w0 m w' -> Q (load_u32 m off) w') ->
  wp (or_error (co_net_read_u32 off)) Q E w.
Proof using HK. intros. apply wp_or_error. by apply (wp_net_read_u32 w0 m). Qed.

Lemma wp_net_write w0 m off v (Q : unit -> W -> Prop) E w :
  net_at w0 m w -> 0 <= off -> off mod 4 = 0 -> off + 4 <= CO_NIO_BYTES ->
  (forall w', net_at w0 (store_u32 m off v) w' -> Q tt w') ->
  wp (or_error (co_net_write_u32 off v)) Q E w.
Proof using HK.
  intros Ha Ho Hal Hs HQ. apply wp_or_error. unfold co_net_write_u32. wp_step.
  apply (wp_dev_va nio_va CO_NIO_BYTES w0 m); [done|]. by apply (wp_dev_write_u32 _ CO_NIO_BYTES w0 m).
Qed.

(** ** Consuming *)

Lemma wp_net_take w m new_tail :
  net_io w m -> 0 <= new_tail < 2 ^ 32 ->
  let head := load_u32 m CO_NIO_TX_HEAD in let tail := load_u32 m CO_NIO_TX_TAIL in
  wp (co_net_take new_tail)
    (fun ix w' => u32 (new_tail - tail) <= u32 (head - tail) /\
       ix = Indices head new_tail (load_u32 m CO_NIO_RX_HEAD) (load_u32 m CO_NIO_RX_TAIL) /\
       net_at w (if new_tail =? tail then m else store_u32 m CO_NIO_TX_TAIL new_tail) w')
    (fun rc w' => rc = CO_RC_INVALID_PARAMETER /\ u32 (head - tail) < u32 (new_tail - tail) /\
       net_at w m w') w.
Proof using HK.
  intros Hio Hn head tail. unfold co_net_take. wp_step.
  apply (wp_net_live w m); [done|by apply net_at_refl|].
  wp_step. apply (wp_net_read w m); [by apply net_at_refl|done..|]. intros w1 H1.
  wp_step. apply (wp_net_read w m); [done..|]. intros w2 H2. fold head tail.
  wp_step. wp_step; [done|]. wp_step.
  set (m' := if new_tail =? tail then m else store_u32 m CO_NIO_TX_TAIL new_tail).
  assert (forall (Q : unit -> W -> Prop) E, (forall w3, net_at w m' w3 -> Q tt w3) ->
    wp (if new_tail =? tail then mret tt
        else or_error (co_net_write_u32 CO_NIO_TX_TAIL new_tail)) Q E w2) as Hwr.
  { intros Q E HQ. unfold m' in HQ. destruct (new_tail =? tail); [by apply wp_ret, HQ|].
    by apply (wp_net_write w m). }
  apply Hwr. intros w3 H3.
  wp_step. apply (wp_net_read w m'); [done..|]. intros w4 H4.
  wp_step. apply (wp_net_read w m'); [done..|]. intros w5 H5. apply wp_ret.
  split_and!; [done| |done]. unfold m'. destruct (new_tail =? tail); [done|].
  by rewrite !load_u32_store_ne by (left + right; done).
Qed.

(** ** Filling *)

Lemma rx_size_pow : CO_NIO_RX_SIZE = 2 ^ 17.
Proof using. done. Qed.

Lemma buf_byte_part data off n i :
  0 <= off -> 0 <= i < n -> off + n <= Z.of_nat (length data) ->
  take (Z.to_nat n) (drop (Z.to_nat off) data) !! Z.to_nat i = Some (buf_byte data (off + i)).
Proof using.
  intros Ho Hi Hn. rewrite lookup_take_lt by lia. rewrite lookup_drop.
  replace (Z.to_nat off + Z.to_nat i)%nat with (Z.to_nat (off + i)) by lia.
  unfold buf_byte. destruct (lookup_lt_is_Some_2 data (Z.to_nat (off + i))) as [b Hb]; [lia|].
  by rewrite Hb.
Qed.

Lemma wp_buf_part data off n (Q : list Z -> W -> Prop) E w :
  off + n <= Z.of_nat (length data) -> Q (take (Z.to_nat n) (drop (Z.to_nat off) data)) w ->
  wp (buf_part data off n) Q E w.
Proof using.
  intros Hn HQ. unfold buf_part. wp_step. apply wp_in_bounds; [by apply Z.leb_le|]. by apply wp_ret.
Qed.

Lemma wp_rx_write w0 m w h bs n (Q : unit -> W -> Prop) E :
  net_at w0 m w -> n = Z.of_nat (length bs) -> 0 < n -> Forall is_byte bs ->
  h mod CO_NIO_RX_SIZE + n <= CO_NIO_RX_SIZE ->
  (forall w', net_at w0 (store_bytes m (CO_NIO_RX + h mod CO_NIO_RX_SIZE) bs) w' -> Q tt w') ->
  wp (or_error (gm_write (u64 (nio_va (static w0) + CO_NIO_RX + h mod CO_NIO_RX_SIZE)) bs n)) Q E w.
Proof using HK.
  intros Ha Hn Hpos Hb Hfit HQ. apply wp_or_error.
  pose proof (Z.mod_pos_bound h CO_NIO_RX_SIZE ltac:(done)) as Hm.
  rewrite <- Z.add_assoc. apply (wp_dev_write _ CO_NIO_BYTES w0 m); try done; nio.
Qed.

(** What a record of length [len] at position [h] makes of the ring. *)
Definition recorded m (h len pos : Z) (data : list Z) m' : Prop :=
  (forall off, off_rx off -> load m' off = load m off) /\
  forall q, h <= q < h + CO_NIO_RX_SIZE ->
    rx_byte m' q = if decide (q < h + 4) then default 0 (le_bytes 4 len !! Z.to_nat (q - h))
                   else if decide (q < h + 4 + len) then buf_byte data (pos + (q - h))
                   else rx_byte m q.

Lemma store_off_rx m h bs off :
  h mod CO_NIO_RX_SIZE + Z.of_nat (length bs) <= CO_NIO_RX_SIZE -> off_rx off ->
  load (store_bytes m (CO_NIO_RX + h mod CO_NIO_RX_SIZE) bs) off = load m off.
Proof using.
  intros Hf Ho. pose proof (Z.mod_pos_bound h CO_NIO_RX_SIZE ltac:(done)).
  unfold load, store_bytes, off_rx in *. by rewrite decide_False by lia.
Qed.

Lemma rx_store m p bs q :
  Forall is_byte bs -> p mod CO_NIO_RX_SIZE + Z.of_nat (length bs) <= CO_NIO_RX_SIZE ->
  p + Z.of_nat (length bs) - CO_NIO_RX_SIZE <= q < p + CO_NIO_RX_SIZE ->
  rx_byte (store_bytes m (CO_NIO_RX + p mod CO_NIO_RX_SIZE) bs) q =
    if decide (p <= q < p + Z.of_nat (length bs)) then default 0 (bs !! Z.to_nat (q - p))
    else rx_byte m q.
Proof using. rewrite rx_size_pow. apply (ring_store 17). lia. Qed.

(** Length word and frame, the frame in one piece or two. *)
Lemma recorded_stores m h len pos data first :
  0 < len -> len + 4 <= CO_NIO_RX_SIZE -> 0 <= pos ->
  pos + 4 + len <= Z.of_nat (length data) -> Forall is_byte data ->
  h mod CO_NIO_RX_SIZE + 4 <= CO_NIO_RX_SIZE ->
  0 < first <= len -> (h + 4) mod CO_NIO_RX_SIZE + first <= CO_NIO_RX_SIZE ->
  (first < len -> (h + 4 + first) mod CO_NIO_RX_SIZE = 0) ->
  let bs1 := take (Z.to_nat first) (drop (Z.to_nat (pos + 4)) data) in
  let bs2 := take (Z.to_nat (len - first)) (drop (Z.to_nat (pos + 4 + first)) data) in
  let m1 := store_bytes m (CO_NIO_RX + h mod CO_NIO_RX_SIZE) (le_bytes 4 len) in
  let m2 := store_bytes m1 (CO_NIO_RX + (h + 4) mod CO_NIO_RX_SIZE) bs1 in
  recorded m h len pos data
    (if first <? len then store_bytes m2 (CO_NIO_RX + (h + 4 + first) mod CO_NIO_RX_SIZE) bs2
     else m2).
Proof using.
  intros Hlen Hmax Hpos Hend Hby Hfit1 Hfirst Hfit2 Hwrap bs1 bs2 m1 m2.
  assert (Z.of_nat (length bs1) = first) as L1 by (unfold bs1; rewrite length_take, length_drop; lia).
  assert (Z.of_nat (length bs2) = len - first) as L2
    by (unfold bs2; rewrite length_take, length_drop; lia).
  assert (Forall is_byte bs1 /\ Forall is_byte bs2) as [B1 B2]
    by (split; by apply Forall_take, Forall_drop).
  assert (forall i, 0 <= i < first -> default 0 (bs1 !! Z.to_nat i) = buf_byte data (pos + 4 + i)) as G1
    by (intros i Hi; unfold bs1; by rewrite buf_byte_part by lia).
  assert (forall i, 0 <= i < len - first ->
            default 0 (bs2 !! Z.to_nat i) = buf_byte data (pos + 4 + first + i)) as G2
    by (intros i Hi; unfold bs2; by rewrite buf_byte_part by lia).
  assert (forall off, off_rx off -> load m2 off = load m off) as O2.
  { intros off Ho. unfold m2, m1. rewrite store_off_rx by (done || lia).
    apply store_off_rx; [rewrite length_le_bytes; lia|done]. }
  assert (forall q, h <= q < h + CO_NIO_RX_SIZE -> rx_byte m2 q =
            if decide (q < h + 4) then default 0 (le_bytes 4 len !! Z.to_nat (q - h))
            else if decide (q < h + 4 + first) then buf_byte data (pos + (q - h))
            else rx_byte m q) as R2.
  { intros q Hq. unfold m2. rewrite rx_store by (done || lia). rewrite L1.
    destruct (decide (h + 4 <= q < h + 4 + first)) as [Hin|Hout].
    - rewrite decide_False, decide_True by lia. rewrite G1 by lia. f_equal. lia.
    - unfold m1. rewrite rx_store by (apply le_bytes_bytes || (rewrite length_le_bytes; lia)).
      rewrite length_le_bytes. change (Z.of_nat 4) with 4.
      repeat case_decide; try lia; done. }
  destruct (Z.ltb_spec first len) as [Hlt|Hge].
  - specialize (Hwrap Hlt). split.
    + intros off Ho. rewrite store_off_rx by (done || lia). by apply O2.
    + intros q Hq. rewrite rx_store by (done || lia). rewrite L2.
      destruct (decide (h + 4 + first <= q < h + 4 + first + (len - first))) as [Hin|Hout].
      * rewrite decide_False, decide_True by lia. rewrite G2 by lia. f_equal. lia.
      * rewrite R2 by done. repeat case_decide; try lia; done.
  - assert (first = len) as -> by lia. split; [done|exact R2].
Qed.

Lemma rx_mask h : Z.land (u32 h) (CO_NIO_RX_SIZE - 1) = h mod CO_NIO_RX_SIZE.
Proof using.
  rewrite rx_size_pow. rewrite (ring_mask 17) by lia. by apply (ring_u32 17).
Qed.

Lemma rx_mask_next h :
  Z.land (u32 (h mod CO_NIO_RX_SIZE + 4)) (CO_NIO_RX_SIZE - 1) = (h + 4) mod CO_NIO_RX_SIZE.
Proof using. rewrite rx_mask. by rewrite Zplus_mod_idemp_l. Qed.

Lemma wp_put_record w0 m w data h pos len (Q : unit -> W -> Prop) E :
  net_at w0 m w -> h mod 4 = 0 -> 0 < len <= CO_NIO_MAX_FRAME -> 0 <= pos ->
  pos + 4 + len <= Z.of_nat (length data) -> Forall is_byte data ->
  (forall w' m', net_at w0 m' w' -> recorded m h len pos data m' -> Q tt w') ->
  wp (put_record data (u32 h) pos len) Q E w.
Proof using HK.
  intros Ha Hal Hlen Hpos Hend Hby HQ. unfold put_record, CO_NIO_MAX_FRAME in *.
  wp_step. apply (wp_dev_va nio_va CO_NIO_BYTES w0 m); [done|]. cbn zeta. rewrite (rx_mask h), rx_mask_next.
  assert (h mod CO_NIO_RX_SIZE + 4 <= CO_NIO_RX_SIZE) as Hfit1
    by (unfold CO_NIO_RX_SIZE; Z.div_mod_to_equations; lia).
  pose proof (Z.mod_pos_bound (h + 4) CO_NIO_RX_SIZE ltac:(done)) as Hm.
  set (off := (h + 4) mod CO_NIO_RX_SIZE) in *.
  set (first := if len <? CO_NIO_RX_SIZE - off then len else CO_NIO_RX_SIZE - off).
  assert (0 < first <= len /\ off + first <= CO_NIO_RX_SIZE /\
          (first < len -> first = CO_NIO_RX_SIZE - off)) as (Hf & Hfit2 & Hw)
    by (unfold first; destruct (Z.ltb_spec len (CO_NIO_RX_SIZE - off)); lia).
  assert (first < len -> (h + 4 + first) mod CO_NIO_RX_SIZE = 0) as Hwrap.
  { intros Hlt. by apply (ring_wraps 17 ltac:(lia)), Hw. }
  pose proof (recorded_stores m h len pos data first ltac:(lia) ltac:(nio) Hpos Hend Hby Hfit1
    Hf Hfit2 Hwrap) as Hrec. cbn zeta in Hrec.
  wp_step. apply (wp_rx_write w0 m); [done|done|lia|apply le_bytes_bytes|done|]. intros w1 H1.
  wp_step. apply wp_buf_part; [lia|]. wp_step.
  apply (wp_rx_write w0 _ _ (h + 4) _ _ _ _ H1);
    [rewrite length_take, length_drop; lia|lia|by apply Forall_take, Forall_drop|done|].
  intros w2 H2. destruct (Z.ltb_spec first len) as [Hlt|Hge].
  - wp_step. apply wp_buf_part; [lia|]. specialize (Hwrap Hlt).
    rewrite <- (Z.add_0_r (nio_va (static w0) + CO_NIO_RX)), <- Hwrap.
    apply (wp_rx_write w0 _ _ (h + 4 + first) _ _ _ _ H2);
      [rewrite length_take, length_drop; lia|lia|by apply Forall_take, Forall_drop| |].
    + rewrite Hwrap. nio.
    + intros w3 H3. by eapply HQ.
  - apply wp_ret. by eapply HQ.
Qed.

(** The frames in the ring are what the reader's positions see. *)
Lemma recorded_frames m h len pos data m' g :
  0 < len <= CO_NIO_MAX_FRAME -> 0 <= pos -> pos + 4 + len <= Z.of_nat (length data) ->
  recorded m h len pos data m' ->
  g = take (Z.to_nat len) (drop (Z.to_nat (pos + 4)) data) ->
  frames_at (rx_byte m') h [g] (h + record_bytes len).
Proof using.
  unfold CO_NIO_MAX_FRAME. intros Hlen Hpos Hend [_ Hr] ->.
  assert (frame_len (take (Z.to_nat len) (drop (Z.to_nat (pos + 4)) data)) = len) as El
    by (unfold frame_len; rewrite length_take, length_drop; lia).
  cbn [frames_at]. unfold frame_ok. rewrite El. split; [done|split; [|split; [|done]]].
  - intros i b Hb. pose proof (lookup_lt_Some _ _ _ Hb) as Hi. rewrite length_le_bytes in Hi.
    rewrite Hr by nio. rewrite decide_True by lia.
    replace (Z.to_nat (h + Z.of_nat i - h)) with i by lia. by rewrite Hb.
  - intros i b Hb. pose proof (lookup_lt_Some _ _ _ Hb) as Hi.
    unfold frame_len in El. rewrite Hr by nio. rewrite decide_False, decide_True by lia.
    replace i with (Z.to_nat (Z.of_nat i)) in Hb by lia. rewrite buf_byte_part in Hb by lia.
    simplify_eq. f_equal. lia.
Qed.

(** *** The batch *)

(** The bytes of the records of [fs] from [pos] on that no length word and no
    frame takes. *)
Fixpoint padding (pos : Z) (fs : list (list Z)) (q : Z) : Prop :=
  match fs with
  | [] => False
  | f :: fs => pos + 4 + frame_len f <= q < pos + record_bytes (frame_len f) \/
               padding (pos + record_bytes (frame_len f)) fs q
  end.

Lemma padding_app g pos fs mid gs q :
  frames_at g pos fs mid -> padding pos (fs ++ gs) q -> padding pos fs q \/ padding mid gs q.
Proof using.
  revert pos. induction fs as [|f fs IH]; intros pos; cbn [frames_at app padding]; [intros ->; by right|].
  intros (_ & _ & _ & Hr) [Hq|Hq]; [by left; left|]. destruct (IH _ Hr Hq); [by left; right|by right].
Qed.

Lemma padding_range g pos fs stop q : frames_at g pos fs stop -> padding pos fs q -> pos <= q < stop.
Proof using.
  revert pos. induction fs as [|f fs IH]; intros pos; cbn [frames_at padding]; [done|].
  intros (Hf & _ & _ & Hr) Hq. pose proof (record_bytes_range _ Hf). pose proof (frames_at_le _ _ _ _ Hr).
  unfold frame_ok in Hf. destruct Hq as [Hq|Hq]; [lia|]. specialize (IH _ Hr Hq). lia.
Qed.

(** What the buffer holds at [p]: the length of the next record, and whether
    the record is one, whole. *)
Definition next_len (data : list Z) (p : Z) : Z := le_join (take (Z.to_nat 4) (drop (Z.to_nat p) data)).
Definition next_ok (data : list Z) (size p : Z) : Prop :=
  p + 4 <= size /\ 0 < next_len data p <= CO_NIO_MAX_FRAME /\ p + record_bytes (next_len data p) <= size.

(** [m'] is [m] with the frames [gs] of the buffer's first [p] bytes appended
    at [hpos]; of the turn of the ring from the reader at [tpos] on, what is not
    a length word or a byte of these frames is as it was. *)
Record filled m (tpos hpos : Z) (data : list Z) (gs : list (list Z)) (p : Z) m' : Prop := {
  fl_buf : frames_at (buf_byte data) 0 gs p;
  fl_ring : frames_at (rx_byte m') hpos gs (hpos + p);
  fl_fits : hpos + p - tpos <= CO_NIO_RX_SIZE;
  fl_off off : off_rx off -> load m' off = load m off;
  fl_kept q : tpos <= q < tpos + CO_NIO_RX_SIZE ->
    q < hpos \/ hpos + p <= q \/ padding hpos gs q -> rx_byte m' q = rx_byte m q;
}.

Lemma recorded_behind m h len pos data m' tpos q :
  0 < len -> len + 4 <= record_bytes len -> h + record_bytes len - tpos <= CO_NIO_RX_SIZE ->
  recorded m h len pos data m' -> tpos <= q < h -> rx_byte m' q = rx_byte m q.
Proof using.
  intros Hlen Hrec Hfit [_ Hr] Hq.
  pose proof (ring_turn 17 ltac:(lia) m' CO_NIO_RX q) as E1.
  pose proof (ring_turn 17 ltac:(lia) m CO_NIO_RX q) as E2.
  change (2 ^ 17) with CO_NIO_RX_SIZE in *.
  rewrite <- E1, <- E2. rewrite Hr by lia. by rewrite !decide_False by lia.
Qed.

Lemma buf_word data pos :
  0 <= pos -> pos + 4 <= Z.of_nat (length data) -> Forall is_byte data ->
  let len := le_join (take (Z.to_nat 4) (drop (Z.to_nat pos) data)) in
  0 <= len < 2 ^ 32 /\ holds (buf_byte data) pos (le_bytes 4 len).
Proof using.
  intros Hp He Hb len. set (word := take (Z.to_nat 4) (drop (Z.to_nat pos) data)) in *.
  assert (length word = 4%nat) as Hl by (unfold word; rewrite length_take, length_drop; lia).
  assert (Forall is_byte word) as Hw by (by apply Forall_take, Forall_drop).
  split; [pose proof (le_join_range word) as Hr; rewrite Hl in Hr; exact Hr|].
  assert (le_bytes 4 len = word) as -> by (unfold len; rewrite <- Hl; by apply le_bytes_join).
  intros i b Hi. pose proof (lookup_lt_Some _ _ _ Hi) as Hlt.
  replace i with (Z.to_nat (Z.of_nat i)) in Hi by lia. unfold word in Hi.
  rewrite buf_byte_part in Hi by lia. by simplify_eq.
Qed.

Lemma filled_next m tpos hpos data gs p m1 m2 len :
  filled m tpos hpos data gs p m1 -> tpos <= hpos -> 0 <= p -> Forall is_byte data ->
  len = le_join (take (Z.to_nat 4) (drop (Z.to_nat p) data)) ->
  0 < len <= CO_NIO_MAX_FRAME -> p + record_bytes len <= Z.of_nat (length data) ->
  hpos + p - tpos + record_bytes len <= CO_NIO_RX_SIZE ->
  recorded m1 (hpos + p) len p data m2 ->
  filled m tpos hpos data (gs ++ [take (Z.to_nat len) (drop (Z.to_nat (p + 4)) data)])
    (p + record_bytes len) m2.
Proof using.
  intros [Fb Fr Ff Fo Fkept] Htp Hp Hby El Hlen Hend Hfit Hrec.
  pose proof (record_bytes_range _ Hlen) as (_ & Hrb & Hle).
  set (g := take (Z.to_nat len) (drop (Z.to_nat (p + 4)) data)).
  pose proof (frames_at_le _ _ _ _ Fb) as Hp0.
  assert (forall q, tpos <= q < hpos + p -> rx_byte m2 q = rx_byte m1 q) as Hbehind.
  { intros q Hq. apply (recorded_behind m1 (hpos + p) len p data m2 tpos);
      [lia|lia|lia|done|done]. }
  assert (frame_len g = len) as Eg by (unfold frame_len, g; rewrite length_take, length_drop; lia).
  split.
  - apply (frames_at_app _ _ _ p); [done|]. cbn [frames_at]. unfold frame_ok. rewrite Eg.
    split; [done|]. destruct (buf_word data p) as [_ Hw]; [lia|lia|done|].
    rewrite <- El in Hw. split; [done|]. split; [|done]. intros i b Hi.
    pose proof (lookup_lt_Some _ _ _ Hi) as Hlt. unfold frame_len in Eg.
    replace i with (Z.to_nat (Z.of_nat i)) in Hi by lia. unfold g in Hi.
    rewrite buf_byte_part in Hi by lia. by simplify_eq.
  - apply (frames_at_app _ _ _ (hpos + p)).
    + eapply frames_at_ext; [|exact Fr]. intros q Hq. apply Hbehind. lia.
    + rewrite Z.add_assoc. by apply (recorded_frames m1 (hpos + p) len p data); [|lia|lia| |].
  - lia.
  - intros off Ho. rewrite (proj1 Hrec off Ho). by apply Fo.
  - intros q Hq Hk. destruct (decide (q < hpos + p)) as [Hlt|Hge].
    + rewrite Hbehind by lia. apply Fkept; [done|]. destruct Hk as [?|[?|Hk]]; [by left|lia|].
      apply (padding_app _ _ _ _ _ _ Fr) in Hk as [Hk|[Hk|[]]]; [by right; right|lia].
    + rewrite (proj2 Hrec) by lia. rewrite decide_False.
      2: { destruct Hk as [?|[?|Hk]]; [lia..|]. apply (padding_app _ _ _ _ _ _ Fr) in Hk as [Hk|[Hk|[]]];
           [pose proof (padding_range _ _ _ _ _ Fr Hk); lia|lia]. }
      rewrite decide_False.
      2: { destruct Hk as [?|[?|Hk]]; [lia..|]. apply (padding_app _ _ _ _ _ _ Fr) in Hk as [Hk|[Hk|[]]];
           [pose proof (padding_range _ _ _ _ _ Fr Hk); lia|lia]. }
      apply Fkept; [done|]. right. left. lia.
Qed.

(** The loop: everything the buffer holds, or up to where the ring is full. *)
Lemma wp_put_loop w0 m w tpos hpos data size frames :
  net_at w0 m w -> Forall is_byte data -> 0 <= size <= Z.of_nat (length data) ->
  size < 2 ^ 31 -> 0 <= frames < 2 ^ 32 -> tpos <= hpos -> hpos - tpos <= CO_NIO_RX_SIZE ->
  hpos mod 4 = 0 ->
  wp (mloop (put_step data size frames (u32 tpos)) (u32 hpos, 0, 0))
    (fun r w' => exists gs p m', filled m tpos hpos data gs p m' /\ net_at w0 m' w' /\
       r = (u32 (hpos + p), Z.of_nat (length gs)) /\ Z.of_nat (length gs) <= frames /\
       (Z.of_nat (length gs) = frames \/
        next_ok data size p /\ CO_NIO_RX_SIZE < hpos + p - tpos + record_bytes (next_len data p)))
    (fun rc w' => rc = CO_RC_INVALID_PARAMETER /\ exists gs p m',
       filled m tpos hpos data gs p m' /\ net_at w0 m' w' /\
       Z.of_nat (length gs) < frames /\ ~ next_ok data size p) w.
Proof using HK.
  intros Ha Hby Hsize Hsmall Hfr Htp Hfit Hal.
  apply (wp_mloop _ (fun st w' => exists gs p m', filled m tpos hpos data gs p m' /\
      net_at w0 m' w' /\ st = (u32 (hpos + p), p, Z.of_nat (length gs)) /\
      0 <= p <= size /\ Z.of_nat (length gs) <= frames)
    (fun st _ => frames - st.2)).
  - intros st w' (gs & p & m' & Hfill & Hat & -> & Hp & Hn). unfold put_step.
    pose proof (frames_at_align _ _ _ _ (eq_refl : 0 mod 4 = 0) (fl_buf _ _ _ _ _ _ _ Hfill)) as Hpa.
    destruct (Z.leb_spec frames (Z.of_nat (length gs))) as [Hge|Hlt].
    { apply wp_ret. exists gs, p, m'. split_and!; [done..|]. left. lia. }
    rewrite (u32_small (p + 4)) by lia.
    assert (forall w2, net_at w0 m' w2 -> ~ next_ok data size p -> CO_RC_INVALID_PARAMETER = CO_RC_INVALID_PARAMETER /\
      exists gs p m', filled m tpos hpos data gs p m' /\ net_at w0 m' w2 /\
        Z.of_nat (length gs) < frames /\ ~ next_ok data size p) as Hbad
      by (intros w2 Hw2 Hno; split; [done|by exists gs, p, m']).
    unfold next_ok, next_len in Hbad.
    wp_step. wp_step; [apply Hbad; [done|lia]|].
    wp_step. apply wp_buf_part; [lia|].
    destruct (buf_word data p) as [Hlen _]; [lia|lia|done|].
    change (le_join (take (Z.to_nat 4) (drop (Z.to_nat p) data))) with (next_len data p) in *.
    set (len := next_len data p) in *.
    wp_step. wp_step; [apply Hbad; [done|lia]|].
    assert (0 < len <= CO_NIO_MAX_FRAME) as Hok by lia.
    pose proof (record_bytes_range _ Hok) as (Hra & Hrb & Hrl).
    rewrite (u32_small (p + record_bytes len)) by lia.
    wp_step. wp_step; [apply Hbad; [done|lia]|].
    pose proof (fl_fits _ _ _ _ _ _ _ Hfill) as Hff.
    assert (u32 (u32 (u32 (hpos + p) - u32 tpos) + record_bytes len) =
            hpos + p - tpos + record_bytes len) as ->.
    { rewrite u32_sub_wrap_l, u32_add_wrap_l. apply u32_small. nio. }
    case_cond.
    { apply wp_ret. exists gs, p, m'. split_and!; [done..|]. right. split; [unfold next_ok; fold len; lia|done]. }
    wp_step. apply (wp_put_record w0 m'); [done| |done|lia|lia|done|].
    { rewrite Zplus_mod, Hal, Hpa. done. }
    intros w2 m2 Hat2 Hrec. apply wp_ret.
    assert (filled m tpos hpos data _ _ m2) as Hnext
      by (eapply (filled_next _ _ _ _ _ _ m' m2 len); (done || lia)).
    split.
    + eexists _, _, m2. split; [exact Hnext|]. split; [done|].
      rewrite u32_add_wrap_l, (u32_small (_ + 1)) by lia.
      rewrite length_app. cbn [length]. split; [|lia]. f_equal; [f_equal; f_equal; lia|lia].
    + cbn [snd]. rewrite u32_small by lia. lia.
  - exists [], 0, m. cbn [length]. rewrite Z.add_0_r. split_and!; try (done || lia).
    split; cbn [frames_at]; try done; lia.
  - cbn [snd]. lia.
Qed.

(** ** Looking *)

Lemma wp_net_dump w m start size :
  net_io w m -> 0 <= start < 2 ^ 32 -> 0 <= size ->
  wp (co_net_dump start size)
    (fun r w' => net_at w m w' /\
       r = (Indices (load_u32 m CO_NIO_TX_HEAD) (load_u32 m CO_NIO_TX_TAIL)
              (load_u32 m CO_NIO_RX_HEAD) (load_u32 m CO_NIO_RX_TAIL),
            tx_byte m <$> seqZ start (Z.min size CO_NIO_TX_SIZE)))
    (fun _ _ => False) w.
Proof using HK.
  intros Hio Hst Hsz. unfold co_net_dump. wp_step.
  apply (wp_net_live w m); [done|by apply net_at_refl|].
  wp_step. apply (wp_net_read w m); [by apply net_at_refl|done..|]. intros w1 A1.
  wp_step. apply (wp_net_read w m); [done..|]. intros w2 A2.
  wp_step. apply (wp_net_read w m); [done..|]. intros w3 A3.
  wp_step. apply (wp_net_read w m); [done..|]. intros w4 A4. cbn zeta.
  set (want := if CO_NIO_TX_SIZE <? size then CO_NIO_TX_SIZE else size).
  assert (want = Z.min size CO_NIO_TX_SIZE) as Hwant
    by (unfold want; destruct (Z.ltb_spec CO_NIO_TX_SIZE size); lia).
  assert (Z.land start (CO_NIO_TX_SIZE - 1) = start mod CO_NIO_TX_SIZE) as ->
    by (change CO_NIO_TX_SIZE with (2 ^ 17); apply land_mask; lia).
  pose proof (Z.mod_pos_bound start CO_NIO_TX_SIZE ltac:(done)) as Hm.
  set (off := start mod CO_NIO_TX_SIZE) in *.
  set (first := if want <? CO_NIO_TX_SIZE - off then want else CO_NIO_TX_SIZE - off).
  assert (0 <= first <= want /\ off + first <= CO_NIO_TX_SIZE /\
          (first < want -> first = CO_NIO_TX_SIZE - off)) as (Hf & Hfit & Hw)
    by (unfold first; destruct (Z.ltb_spec want (CO_NIO_TX_SIZE - off)); lia).
  wp_step. apply (wp_dev_va nio_va CO_NIO_BYTES w m); [done|]. wp_step.
  assert (forall (Q : list Z -> W -> Prop) E,
    (forall w5, net_at w m w5 -> Q (load_bytes m (CO_NIO_TX + off) first) w5) ->
    wp (if first =? 0 then mret []
        else or_error (gm_read (u64 (nio_va (static w) + CO_NIO_TX + off)) first)) Q E w4) as Hrd.
  { intros Q E HQ. destruct (Z.eqb_spec first 0) as [Hz|Hz].
    - apply wp_ret. specialize (HQ w4 A4). rewrite Hz in HQ. exact HQ.
    - apply wp_or_error. rewrite <- Z.add_assoc.
      apply (wp_dev_read _ CO_NIO_BYTES w m); [done|nio|lia|nio|]. intros w5 A5.
      by apply HQ. }
  pose proof (ring_two_parts 17 ltac:(lia) m CO_NIO_TX start first want Hf
    ltac:(unfold CO_NIO_TX_SIZE in *; lia) Hfit Hw) as Hparts.
  change (2 ^ 17) with CO_NIO_TX_SIZE in Hparts. fold off in Hparts. rewrite <- Hwant.
  apply Hrd. intros w5 A5. clear Hrd. wp_step.
  destruct (Z.ltb_spec first want) as [Hlt|Hge].
  - apply wp_or_error. 
    apply (wp_dev_read _ CO_NIO_BYTES w m); [done|nio|lia|nio|]. intros w6 A6. apply wp_ret.
    split; [done|]. f_equal. exact Hparts.
  - apply wp_ret. split; [done|]. f_equal. exact Hparts.
Qed.
End net_proofs.

(** ** Properties *)

Section net_theorems.
Context {W : Type} `{HW : GuestWindow W} `{HS : Statics W net_statics}
  `{HK : !StaticsKept W net_statics}.
Implicit Types (w : W) (m : mem).

(** C37: a batch of frames is appended to the RX ring and published at once.
    When the reader at [tpos] sees the frames [fs], a [co_net_put] that
    succeeds makes it see [fs] followed by as many frames of the buffer as it
    reports: all that were asked for, or those in front of a record of the buffer
    that is well formed and does not fit. Beside [rx_head] it changes the length
    words and the frames it appends and no other byte of the structure, neither
    of the free part of the ring nor of the padding. A malformed record in front
    of the end fails the call with [CO_RC_INVALID_PARAMETER], and a first record
    that does not fit with [CO_RC_OUT_OF_MEMORY]; both leave the indices, the
    frames [fs] and everything outside the ring alone. *)
Theorem net_put_appends w m tpos hpos fs data size frames :
  net_io w m -> load_u32 m CO_NIO_RX_HEAD = u32 hpos -> load_u32 m CO_NIO_RX_TAIL = u32 tpos ->
  tpos <= hpos -> hpos - tpos <= CO_NIO_RX_SIZE -> hpos mod 4 = 0 ->
  frames_at (rx_byte m) tpos fs hpos ->
  Forall is_byte data -> 0 <= size <= Z.of_nat (length data) -> size < 2 ^ 31 ->
  0 <= frames < 2 ^ 32 ->
  let too_long p := next_ok data size p /\
    CO_NIO_RX_SIZE < hpos + p - tpos + record_bytes (next_len data p) in
  match co_net_put data size frames w with
  | (Ret n, w') => exists gs p m',
      n = Z.of_nat (length gs) /\ 0 < n <= frames /\ frames_at (buf_byte data) 0 gs p /\
      net_io w' m' /\ gm_only w (nio_va (static w)) CO_NIO_BYTES w' /\
      load_u32 m' CO_NIO_RX_HEAD = u32 (hpos + p) /\ hpos + p - tpos <= CO_NIO_RX_SIZE /\
      frames_at (rx_byte m') tpos (fs ++ gs) (hpos + p) /\
      (n = frames \/ too_long p) /\
      (forall off, off_rx off -> ~ (CO_NIO_RX_HEAD <= off < CO_NIO_RX_TAIL) ->
         load m' off = load m off) /\
      (forall q, tpos <= q < tpos + CO_NIO_RX_SIZE ->
         q < hpos \/ hpos + p <= q \/ padding hpos gs q -> rx_byte m' q = rx_byte m q)
  | (Fail rc, w') => exists gs p m',
      (rc = CO_RC_INVALID_PARAMETER /\ Z.of_nat (length gs) < frames /\ ~ next_ok data size p \/
       rc = CO_RC_OUT_OF_MEMORY /\ gs = [] /\ (frames = 0 \/ too_long p)) /\
      frames_at (buf_byte data) 0 gs p /\ hpos + p - tpos <= CO_NIO_RX_SIZE /\
      net_io w' m' /\ gm_only w (nio_va (static w)) CO_NIO_BYTES w' /\
      frames_at (rx_byte m') tpos fs hpos /\
      (forall off, off_rx off -> load m' off = load m off) /\
      (forall q, tpos <= q < tpos + CO_NIO_RX_SIZE ->
         q < hpos \/ hpos + p <= q \/ padding hpos gs q -> rx_byte m' q = rx_byte m q)
  | (Fault, _) => False
  end.
Proof using HK.
  intros Hio Hh Ht Hle Hfit Hal Hfs Hby Hsz Hsmall Hfr too_long.
  assert (wp (co_net_put data size frames)
    (fun n w' => exists gs p m1 m', filled m tpos hpos data gs p m1 /\ net_at w m' w' /\
       m' = store_u32 m1 CO_NIO_RX_HEAD (u32 (hpos + p)) /\
       n = Z.of_nat (length gs) /\ 0 < n <= frames /\ (n = frames \/ too_long p))
    (fun rc w' => exists gs p m', filled m tpos hpos data gs p m' /\ net_at w m' w' /\
      (rc = CO_RC_INVALID_PARAMETER /\ Z.of_nat (length gs) < frames /\ ~ next_ok data size p \/
       rc = CO_RC_OUT_OF_MEMORY /\ gs = [] /\ (frames = 0 \/ too_long p))) w) as Hwp.
  { unfold co_net_put. wp_step. apply (wp_net_live w m); [done|by apply net_at_refl|].
    wp_step. apply (wp_net_read w m); [by apply net_at_refl|done..|]. intros w1 A1.
    wp_step. apply (wp_net_read w m); [done..|]. intros w2 A2. rewrite Hh, Ht.
    wp_step. rewrite u32_sub_wrap_l, u32_small by nio.
    rewrite (proj2 (Z.ltb_ge _ _)) by lia. apply wp_ret. wp_step.
    eapply wp_mono; [apply (wp_put_loop w m w2 tpos hpos); done| |].
    - intros r w3 (gs & p & m1 & Hfill & A3 & -> & Hn & Hend). cbn [fst snd].
      destruct (Z.eqb_spec (Z.of_nat (length gs)) 0) as [Hz|Hz].
      + wp_step. apply wp_ret. wp_step. apply wp_throw. exists gs, p, m1. split_and!; [done..|]. right.
        split; [done|]. split; [by apply nil_length_inv; lia|]. destruct Hend as [Hend|Hend]; [left; lia|by right].
      + wp_step. apply (wp_net_write w m1); [done..|]. intros w4 A4. wp_step. apply wp_ret, wp_ret.
        exists gs, p, m1, (store_u32 m1 CO_NIO_RX_HEAD (u32 (hpos + p))). split_and!; done || lia.
    - intros rc w3 (-> & gs & p & m' & Hfill & A3 & Hn & Hbad). exists gs, p, m'. split_and!; [done..|by left]. }
  destruct (wp_cases _ _ _ _ Hwp) as [(n & w' & -> & gs & p & m1 & m' & Hfill & A & -> & -> & Hn & Hend)
                                     |(rc & w' & -> & gs & p & m' & Hfill & A & Hrc)].
  - exists gs, p, (store_u32 m1 CO_NIO_RX_HEAD (u32 (hpos + p))).
    destruct Hfill as [Fb Fr Ff Fo Fkept].
    assert (forall q, rx_byte (store_u32 m1 CO_NIO_RX_HEAD (u32 (hpos + p))) q = rx_byte m1 q) as Hrx
      by (intros q; apply (ring_store_out 17 ltac:(lia)); left; done).
    split; [done|]. split; [done|]. split; [done|]. split; [by eapply net_at_io|].
    split; [apply A|]. split; [by rewrite load_u32_store_eq, u32_idemp|]. split; [done|].
    split; [|split; [done|split]].
    + eapply frames_at_ext; [intros q _; apply Hrx|]. apply (frames_at_app _ _ _ hpos); [|done].
      eapply frames_at_ext; [|exact Hfs]. intros q Hq. apply Fkept; [lia|left; lia].
    + intros off Ho Hno. rewrite <- Fo by done. unfold store_u32, load, store_bytes.
      rewrite decide_False; [done|]. rewrite length_le_bytes.
      unfold CO_NIO_RX_HEAD, CO_NIO_RX_TAIL in *. lia.
    + intros q Hq Hk. rewrite Hrx. by apply Fkept.
  - exists gs, p, m'. destruct Hfill as [Fb Fr Ff Fo Fkept].
    split; [done|]. split; [done|]. split; [done|]. split; [by eapply net_at_io|]. split; [apply A|].
    split; [|split; [done|done]].
    eapply frames_at_ext; [|exact Hfs]. intros q Hq. apply Fkept; [lia|left; lia].
Qed.

(** C40: consuming moves the tail forward and at most to the head. A
    [co_net_take] within the published bytes stores the new tail, and nothing
    else, and leaves exactly the rest of them; a tail that would go back or
    past the head is refused and nothing is written. *)
Theorem net_take_moves_tail w m new_tail :
  net_io w m -> 0 <= new_tail < 2 ^ 32 ->
  let head := load_u32 m CO_NIO_TX_HEAD in let tail := load_u32 m CO_NIO_TX_TAIL in
  match co_net_take new_tail w with
  | (Ret ix, w') => exists m', net_io w' m' /\ gm_only w (nio_va (static w)) CO_NIO_BYTES w' /\
      ix = Indices head new_tail (load_u32 m CO_NIO_RX_HEAD) (load_u32 m CO_NIO_RX_TAIL) /\
      load_u32 m' CO_NIO_TX_TAIL = new_tail /\ load_u32 m' CO_NIO_TX_HEAD = head /\
      u32 (head - new_tail) = u32 (head - tail) - u32 (new_tail - tail) /\
      (forall off, ~ (CO_NIO_TX_TAIL <= off < CO_NIO_RX_HEAD) -> load m' off = load m off)
  | (Fail rc, w') => rc = CO_RC_INVALID_PARAMETER /\ u32 (head - tail) < u32 (new_tail - tail) /\
      net_io w' m /\ gm_only w (nio_va (static w)) CO_NIO_BYTES w'
  | (Fault, _) => False
  end.
Proof using HK.
  intros Hio Hn head tail. pose proof (wp_net_take w m new_tail Hio Hn) as Hwp. cbn zeta in Hwp.
  fold head tail in Hwp.
  destruct (wp_cases _ _ _ _ Hwp) as [(ix & w' & -> & Hle & -> & A)|(rc & w' & -> & -> & Hlt & A)].
  - set (m' := if new_tail =? tail then m else store_u32 m CO_NIO_TX_TAIL new_tail) in A.
    exists m'. split; [by eapply net_at_io|]. split; [apply A|]. split; [done|].
    assert (forall off, ~ (CO_NIO_TX_TAIL <= off < CO_NIO_RX_HEAD) -> load m' off = load m off) as Ho.
    { intros off Hoff. unfold m'. destruct (new_tail =? tail); [done|].
      unfold store_u32, load, store_bytes. rewrite decide_False; [done|]. rewrite length_le_bytes.
      unfold CO_NIO_RX_HEAD, CO_NIO_TX_TAIL in *. lia. }
    split; [|split; [|split; [|done]]].
    + unfold m'. destruct (Z.eqb_spec new_tail tail) as [->|Hne]; [done|].
      rewrite load_u32_store_eq. by apply u32_small.
    + unfold m'. destruct (new_tail =? tail); [done|]. by rewrite load_u32_store_ne by (left; done).
    + replace (head - new_tail) with ((head - tail) - (new_tail - tail)) by lia.
      rewrite <- u32_sub_wrap_l. apply u32_small.
      pose proof (u32_range (head - tail)). pose proof (u32_range (new_tail - tail)). lia.
  - split; [done|]. split; [done|]. split; [by eapply net_at_io|apply A].
Qed.

(** A dump only looks. It returns the four indices and the bytes of the TX
    ring from [start] on, at most a whole turn of them and across the wrap,
    and the structure holds what it held. *)
Theorem net_dump_looks w m start size :
  net_io w m -> 0 <= start < 2 ^ 32 -> 0 <= size ->
  exists w', co_net_dump start size w =
    (Ret (Indices (load_u32 m CO_NIO_TX_HEAD) (load_u32 m CO_NIO_TX_TAIL)
            (load_u32 m CO_NIO_RX_HEAD) (load_u32 m CO_NIO_RX_TAIL),
          tx_byte m <$> seqZ start (Z.min size CO_NIO_TX_SIZE)), w') /\
    net_io w' m /\ gm_only w (nio_va (static w)) CO_NIO_BYTES w'.
Proof using HK.
  intros Hio Hs Hz. destruct (wp_total _ _ _ (wp_net_dump w m start size Hio Hs Hz))
    as (r & w' & -> & A & ->).
  exists w'. split; [done|]. split; [by eapply net_at_io|apply A].
Qed.

(** A retired device is left alone. Without the lock, or with the address
    cleared, every call returns at once and touches nothing; a live one is
    asked for frames exactly when its RX indices differ. *)
Theorem net_retired_or_live w :
  (nio_lock (static w) = false \/ nio_va (static w) = 0 ->
     (forall t, co_net_take t w = (Fail CO_RC_NOT_FOUND, w)) /\
     (forall d s f, co_net_put d s f w = (Fail CO_RC_NOT_FOUND, w)) /\
     (forall a n, co_net_dump a n w = (Fail CO_RC_NOT_FOUND, w)) /\
     co_net_rx_pending w = (Ret false, w)) /\
  (forall m, net_io w m -> exists w', net_io w' m /\
     co_net_rx_pending w =
       (Ret (negb (load_u32 m CO_NIO_RX_HEAD =? load_u32 m CO_NIO_RX_TAIL)), w')).
Proof using HK.
  split.
  - intros Hr. assert (net_live w = (Fail CO_RC_NOT_FOUND, w)) as Hl.
    { unfold net_live, net_va, fail_if, gets, throw, mret, M_ret, mbind, M_bind.
      destruct (nio_lock (static w)); cbn; [|done].
      destruct Hr as [?|Hv]; [done|]. by rewrite Hv. }
    unfold co_net_take, co_net_put, co_net_dump, co_net_rx_pending, attempt, mbind, M_bind.
    by rewrite Hl.
  - intros m Hio. assert (wp co_net_rx_pending
      (fun b w' => net_at w m w' /\
         b = negb (load_u32 m CO_NIO_RX_HEAD =? load_u32 m CO_NIO_RX_TAIL)) (fun _ _ => False) w) as Hwp.
    { unfold co_net_rx_pending. wp_step. wp_step.
      apply (wp_net_live w m); [done|by apply net_at_refl|]. wp_step. wp_step.
      apply (wp_net_read_u32 w m); [by apply net_at_refl|done..|]. intros w1 A1. wp_step. wp_step.
      apply (wp_net_read_u32 w m); [done..|]. intros w2 A2. by apply wp_ret. }
    destruct (wp_total _ _ _ Hwp) as (b & w' & -> & A & ->). exists w'.
    split; [by eapply net_at_io|done].
Qed.
End net_theorems.
