(* ===== verification/ConetRing.v ===== *)
(** The host's reader of the network rings: [user/conet_ring.c], the calls of
    [user/manager.c] it makes and the requests of [kernel/manager.c] they
    reach. A request is delivered as it was sent (METHOD_BUFFERED, one buffer
    in and out); whether the caller's allocation succeeds is an argument. *)
From S2P Require Import Prelude.
From S2P Require Import Rc.
From S2P Require Import Mem.
From S2P Require Import GuestMem.
From S2P Require Import Ring.
From S2P Require Import Net.

Definition CO_NETIO_TX_SIZE : Z := 128 * 1024.
Definition CO_CONET_DUMP_MAX : Z := 8192.
Definition CO_CONET_PUT_BATCH : Z := 0x8000.
(** [sizeof (co_manager_ioctl_conet_dump_t)] and its kin. *)
Definition conet_dump_bytes : Z := 28.
Definition conet_put_bytes : Z := 16.
Definition conet_take_bytes : Z := 24.

(** ** The requests *)

Section ioctl.
Context {W : Type} `{GuestMem W} `{Statics W net_statics}.

(** The cases of [co_manager_ioctl]: the value is [params->rc] with what the
    call left in the buffer. *)
Definition ioctl_conet_dump (in_size out_size start size : Z) :
    M W ((indices * list Z) + co_rc_value_t) :=
  fail_if (in_size <? conet_dump_bytes) CO_RC_INVALID_PARAMETER ;;
  fail_if ((CO_CONET_DUMP_MAX <? size) || (out_size <? u32 (conet_dump_bytes + size)))%bool
    CO_RC_INVALID_PARAMETER ;;
  attempt (co_net_dump start size).

Definition ioctl_conet_put (in_size out_size : Z) (data : list Z) (size frames : Z) :
    M W (Z + co_rc_value_t) :=
  fail_if (in_size <? conet_put_bytes) CO_RC_INVALID_PARAMETER ;;
  fail_if ((CO_CONET_PUT_BATCH <? size) || (in_size <? u32 (conet_put_bytes + size)))%bool
    CO_RC_INVALID_PARAMETER ;;
  fail_if ((frames =? 0) || (size / 8 <? frames))%bool CO_RC_INVALID_PARAMETER ;;
  fail_if (out_size <? conet_put_bytes) CO_RC_INVALID_PARAMETER ;;
  attempt (co_net_put data size frames).

Definition ioctl_conet_take (in_size out_size new_tail : Z) : M W (indices + co_rc_value_t) :=
  fail_if ((in_size <? conet_take_bytes) || (out_size <? conet_take_bytes))%bool
    CO_RC_INVALID_PARAMETER ;;
  attempt (co_net_take new_tail).

(** [if (CO_OK(rc)) rc = params->rc;] *)
Definition params_rc {A} (m : M W (A + co_rc_value_t)) : M W A :=
  r ← m; match r with inl a => mret a | inr rc => throw rc end.

Context (malloc_ok : Z -> bool).

Definition co_manager_conet_dump (start size : Z) : M W (indices * list Z) :=
  let total := u32 (conet_dump_bytes + size) in
  fail_if (negb (malloc_ok total)) CO_RC_OUT_OF_MEMORY ;;
  params_rc (ioctl_conet_dump conet_dump_bytes total start size).

Definition co_manager_conet_put (data : list Z) (size frames : Z) : M W Z :=
  let total := u32 (conet_put_bytes + size) in
  fail_if (negb (malloc_ok total)) CO_RC_OUT_OF_MEMORY ;;
  in_bounds (size <=? Z.of_nat (length data)) ;;
  params_rc (ioctl_conet_put total conet_put_bytes (take (Z.to_nat size) data) size frames).

Definition co_manager_conet_take (new_tail : Z) : M W indices :=
  params_rc (ioctl_conet_take conet_take_bytes conet_take_bytes new_tail).

(** ** A snapshot *)

(** The loop over the published bytes: [(done, ring)]. *)
Definition fetch_step (tail used : Z) (st : Z * mem) : M W ((Z * mem) + mem) :=
  let '(done_, ring) := st in
  if used <=? done_ then mret (inr ring) else
  let pos := u32 (tail + done_) in
  let off := Z.land pos (CO_NETIO_TX_SIZE - 1) in
  let room := CO_NETIO_TX_SIZE - off in
  let got := u32 (used - done_) in
  let got := if 8192 <? got then 8192 else got in
  let got := if room <? got then room else got in
  r ← co_manager_conet_dump pos got;
  let got := Z.of_nat (length r.2) in
  in_bounds (got <=? room) ;;
  fail_if (got =? 0) CO_RC_ERROR ;;
  mret (inl (u32 (done_ + got), store_bytes ring off r.2)).

(** The buffer is zeroed first; frames land at their own masked offsets. *)
Definition co_net_fetch : M W (indices * mem) :=
  let ring := co_memset (fun _ => 0) 0 0 CO_NETIO_TX_SIZE in
  r ← co_manager_conet_dump 0 0;
  let used := u32 (tx_head r.1 - tx_tail r.1) in
  if ((used =? 0) || (CO_NETIO_TX_SIZE <? used))%bool then mret (r.1, ring) else
  ring ← mloop (fetch_step (tx_tail r.1) used) (0, ring);
  mret (r.1, ring).
End ioctl.

(** ** Walking it *)

Definition co_net_le32 (ring : mem) (off : Z) : Z :=
  Z.lor (Z.lor (Z.lor (load ring off) (Z.shiftl (load ring (off + 1)) 8))
    (Z.shiftl (load ring (off + 2)) 16)) (Z.shiftl (load ring (off + 3)) 24).

Section walk.
Context {D : Type}.

(** The callback sees a frame and its data, and says whether to go on. *)
Definition frame_func : Type := list Z -> D -> bool * D.

(** [func && !func(data, frame, len)] *)
Definition call_func (func : option frame_func) (frame : list Z) : M D bool := fun d =>
  match func with
  | None => (Ret true, d)
  | Some f => let '(b, d') := f frame d in (Ret b, d')
  end.

(** The loop: [(pos, frames, consumed)]; it leaves with the value returned
    and [*consumed_out]. *)
Definition walk_step (ring : mem) (head : Z) (func : option frame_func) (st : Z * Z * Z) :
    M D ((Z * Z * Z) + (Z * Z)) :=
  let '(pos, frames, consumed) := st in
  if pos =? head then mret (inr (frames, consumed)) else
  let off := Z.land pos (CO_NETIO_TX_SIZE - 1) in
  in_bounds (off + 4 <=? CO_NETIO_TX_SIZE) ;;
  let len := co_net_le32 ring off in
  let record := record_bytes len in
  if ((len =? 0) || (CO_NIO_MAX_FRAME <? len) || (u32 (head - pos) <? record))%bool
  then mret (inr (-1, consumed)) else
  let off := Z.land (u32 (off + 4)) (CO_NETIO_TX_SIZE - 1) in
  let first := if len <? CO_NETIO_TX_SIZE - off then len else CO_NETIO_TX_SIZE - off in
  let frame := load_bytes ring off first ++
               (if first <? len then load_bytes ring 0 (len - first) else []) in
  go ← call_func func frame;
  if negb go then mret (inr (frames, consumed))
  else mret (inl (u32 (pos + record), frames + 1, u32 (pos + record))).

Definition co_net_walk (ring : mem) (head tail : Z) (func : option frame_func) : M D (Z * Z) :=
  if CO_NETIO_TX_SIZE <? u32 (head - tail) then mret (-1, tail)
  else mloop (walk_step ring head func) (tail, 0, tail).
End walk.

(** ** The snapshot is the published part of the ring *)

Abbreviation snap_byte ring := (ring_byte ring 0 CO_NETIO_TX_SIZE).

Section fetch_proofs.
Context {W : Type} `{HW : GuestWindow W} `{HS : Statics W net_statics}
  `{HK : !StaticsKept W net_statics} (malloc_ok : Z -> bool).
Implicit Types (w : W) (m ring : mem).

Definition snapshot_indices m : indices :=
  Indices (load_u32 m CO_NIO_TX_HEAD) (load_u32 m CO_NIO_TX_TAIL)
          (load_u32 m CO_NIO_RX_HEAD) (load_u32 m CO_NIO_RX_TAIL).

Lemma wp_manager_dump w0 m start size (Q : indices * list Z -> W -> Prop) E w :
  (forall n, malloc_ok n = true) -> net_io w0 m -> net_at w0 m w ->
  0 <= start < 2 ^ 32 -> 0 <= size <= CO_CONET_DUMP_MAX ->
  (forall w', net_at w0 m w' ->
     Q (snapshot_indices m, tx_byte m <$> seqZ start size) w') ->
  wp (co_manager_conet_dump malloc_ok start size) Q E w.
Proof using HK.
  unfold CO_CONET_DUMP_MAX. intros Hal Hio Ha Hst Hsz HQ.
  unfold co_manager_conet_dump, params_rc, ioctl_conet_dump, conet_dump_bytes, CO_CONET_DUMP_MAX.
  rewrite Hal, u32_small by lia. cbn [negb]. wp_step. apply wp_ret. wp_step. wp_step.
  wp_step; [lia|]. wp_step. rewrite (proj2 (Z.ltb_ge 8192 size)), Z.ltb_irrefl by lia.
  apply wp_ret. wp_step.
  pose proof (net_at_io _ _ _ _ Hio Ha) as Hio'.
  eapply wp_mono; [exact (wp_net_dump w m start size Hio' Hst (proj1 Hsz))| |done].
  intros r w' [A ->]. apply wp_ret. rewrite Z.min_l by (unfold CO_NIO_TX_SIZE; lia). apply HQ.
  pose proof (dev_at_static _ _ _ _ _ Ha) as Es. destruct A as (A1 & A2 & _), Ha as (B1 & B2 & B3).
  rewrite Es in A1, A2. split; [exact A1|]. split; [|exact B3].
  destruct B3 as [m0 B3]. by eapply gm_only_trans.
Qed.

Lemma tx_byte_u32 m q i : tx_byte m (u32 q + i) = tx_byte m (q + i).
Proof using.
  unfold ring_byte. f_equal. f_equal. rewrite <- Zplus_mod_idemp_l.
  change CO_NIO_TX_SIZE with (2 ^ 17). rewrite (ring_u32 17) by lia. by rewrite Zplus_mod_idemp_l.
Qed.

Lemma wp_fetch w m tpos hpos :
  (forall n, malloc_ok n = true) -> net_io w m ->
  load_u32 m CO_NIO_TX_HEAD = u32 hpos -> load_u32 m CO_NIO_TX_TAIL = u32 tpos ->
  tpos <= hpos -> hpos - tpos <= CO_NIO_TX_SIZE ->
  wp (co_net_fetch malloc_ok)
    (fun r w' => net_at w m w' /\ r.1 = snapshot_indices m /\
       forall q, tpos <= q < hpos -> snap_byte r.2 q = tx_byte m q)
    (fun _ _ => False) w.
Proof using HK.
  intros Hal Hio Hh Ht Hle Hfit. unfold CO_NIO_TX_SIZE in Hfit. unfold co_net_fetch. wp_step.
  apply (wp_manager_dump w m); [done|done|by apply net_at_refl|done|done|]. intros w1 A1.
  cbn [fst snd snapshot_indices tx_head tx_tail]. rewrite Hh, Ht, u32_sub_wrap_l, u32_small by lia.
  destruct (Z.eqb_spec (hpos - tpos) 0) as [Hz|Hz]; cbn [orb].
  { apply wp_ret. split; [done|]. split; [done|]. intros q Hq. lia. }
  rewrite (proj2 (Z.ltb_ge _ _)) by (unfold CO_NETIO_TX_SIZE; lia). wp_step.
  apply (wp_mloop _ (fun st w' => net_at w m w' /\ 0 <= st.1 <= hpos - tpos /\
      forall q, tpos <= q < tpos + st.1 -> snap_byte st.2 q = tx_byte m q)
    (fun st _ => hpos - tpos - st.1)).
  - intros [d ring] w' (A & Hd & Hring). cbn [fst snd] in *. unfold fetch_step.
    destruct (Z.leb_spec (hpos - tpos) d) as [Hge|Hlt].
    { apply wp_ret, wp_ret. split; [done|]. split; [done|]. intros q Hq. apply Hring. lia. }
    rewrite u32_add_wrap_l, (u32_small (hpos - tpos - d)) by lia. cbn zeta.
    assert (Z.land (u32 (tpos + d)) (CO_NETIO_TX_SIZE - 1) = (tpos + d) mod 2 ^ 17) as ->.
    { change CO_NETIO_TX_SIZE with (2 ^ 17). rewrite (ring_mask 17) by lia. by apply (ring_u32 17). }
    pose proof (Z.mod_pos_bound (tpos + d) (2 ^ 17) ltac:(done)) as Hm.
    set (off := (tpos + d) mod 2 ^ 17) in *. change CO_NETIO_TX_SIZE with (2 ^ 17).
    set (g1 := if 8192 <? hpos - tpos - d then 8192 else hpos - tpos - d).
    assert (0 < g1 <= 8192 /\ g1 <= hpos - tpos - d) as Hg1
      by (unfold g1; destruct (Z.ltb_spec 8192 (hpos - tpos - d)); lia).
    set (g := if 2 ^ 17 - off <? g1 then 2 ^ 17 - off else g1).
    assert (0 < g <= 8192 /\ g <= hpos - tpos - d /\ off + g <= 2 ^ 17) as (Hg & Hgd & Hgo)
      by (unfold g; destruct (Z.ltb_spec (2 ^ 17 - off) g1); lia).
    wp_step. apply (wp_manager_dump w m); [done|done|done|apply u32_range|
      unfold CO_CONET_DUMP_MAX; lia|]. intros w2 A2. cbn [fst snd].
    rewrite length_fmap, length_seqZ, Z2Nat.id by lia.
    wp_step. apply wp_in_bounds; [apply Z.leb_le; lia|]. wp_step.
    rewrite (proj2 (Z.eqb_neq _ 0)) by lia. apply wp_ret, wp_ret. cbn [fst snd].
    rewrite u32_small by lia. split; [|lia]. split; [done|]. split; [lia|]. intros q Hq.
    set (bs := tx_byte m <$> seqZ (u32 (tpos + d)) g).
    assert (Z.of_nat (length bs) = g) as Hl
      by (unfold bs; rewrite length_fmap, length_seqZ; lia).
    assert (Forall is_byte bs) as Hb
      by (apply Forall_fmap, Forall_true; intros; apply u8_range).
    pose proof (ring_store 17 ltac:(lia) ring 0 (tpos + d) bs q Hb) as Hst.
    fold off in Hst. rewrite Z.add_0_l in Hst.
    rewrite Hst by (rewrite ?Hl; lia). rewrite Hl.
    destruct (decide (tpos + d <= q < tpos + d + g)) as [Hin|Hout]; [|apply Hring; lia].
    unfold bs. rewrite list_lookup_fmap, lookup_seqZ_lt by lia. cbn.
    rewrite tx_byte_u32. f_equal. lia.
  - cbn [fst snd]. split; [done|]. split; [lia|]. intros q Hq. lia.
  - cbn [fst snd]. lia.
Qed.
End fetch_proofs.

(** ** The walk visits the frames of the ring *)

Lemma co_net_le32_load ring off : co_net_le32 ring off = load_u32 ring off.
Proof.
  unfold co_net_le32, load_u32, load_bytes.
  rewrite (seqZ_cons off 4), (seqZ_cons (Z.succ off)), (seqZ_cons (Z.succ (Z.succ off))),
    (seqZ_cons (Z.succ (Z.succ (Z.succ off)))), seqZ_nil by lia.
  cbn [fmap list_fmap le_join].
  replace (Z.succ off) with (off + 1) by lia. replace (Z.succ (off + 1)) with (off + 2) by lia.
  replace (Z.succ (off + 2)) with (off + 3) by lia.
  assert (forall x, u8 (load ring x) = load ring x /\ 0 <= load ring x < 256) as Hb
    by (intros x; split; [apply u8_small|]; apply u8_range).
  rewrite !(proj1 (Hb _)).
  pose proof (proj2 (Hb off)). pose proof (proj2 (Hb (off + 1))). pose proof (proj2 (Hb (off + 2))).
  pose proof (proj2 (Hb (off + 3))).
  rewrite (Z.lor_comm (Z.lor (Z.lor _ _) _)), (Z.lor_comm (Z.lor (load ring off) _)),
    (Z.lor_comm (load ring off)). rewrite !Z.shiftl_mul_pow2 by done.
  rewrite (lor_disjoint_add _ (load ring (off + 1) * 2 ^ 8) 8) by (done || by apply Z.mod_mul).
  rewrite (lor_disjoint_add _ (load ring (off + 2) * 2 ^ 16) 16) by (lia || by apply Z.mod_mul).
  rewrite (lor_disjoint_add _ (load ring (off + 3) * 2 ^ 24) 24) by (lia || by apply Z.mod_mul).
  lia.
Qed.

Section walk_proofs.
Context {D : Type}.
Implicit Types (ring : mem) (func : option (@frame_func D)).

(** The callback over a list of frames: how many it accepted, and its data. *)
Fixpoint walk_ref func (fs : list (list Z)) (d : D) : nat * D :=
  match fs with
  | [] => (O, d)
  | f :: fs' =>
      let '(go, d') := match func with None => (true, d) | Some g => g f d end in
      if go then let '(k, d'') := walk_ref func fs' d' in (S k, d'') else (O, d')
  end.

(** One record of the ring, as the step reads it. *)
Lemma snap_record ring p f :
  p mod 4 = 0 -> frame_ok f ->
  holds (snap_byte ring) p (le_bytes 4 (frame_len f)) -> holds (snap_byte ring) (p + 4) f ->
  let off := p mod CO_NETIO_TX_SIZE in
  let off' := (p + 4) mod CO_NETIO_TX_SIZE in
  let first := if frame_len f <? CO_NETIO_TX_SIZE - off' then frame_len f
               else CO_NETIO_TX_SIZE - off' in
  off + 4 <= CO_NETIO_TX_SIZE /\ co_net_le32 ring off = frame_len f /\
  load_bytes ring off' first ++
    (if first <? frame_len f then load_bytes ring 0 (frame_len f - first) else []) = f.
Proof.
  intros Hal Hf Hl Hb off off' first. unfold frame_ok, CO_NIO_MAX_FRAME in Hf.
  assert (off + 4 <= CO_NETIO_TX_SIZE) as Hfit
    by (unfold off, CO_NETIO_TX_SIZE; Z.div_mod_to_equations; lia).
  split; [done|]. split.
  - rewrite co_net_le32_load. unfold load_u32.
    rewrite <- (Z.add_0_l off). rewrite (ring_part 17 ltac:(lia) ring 0 p off 4) by done.
    apply (holds_word (snap_byte ring)); [lia|done].
  - pose proof (Z.mod_pos_bound (p + 4) CO_NETIO_TX_SIZE ltac:(done)) as Hm. fold off' in Hm.
    assert (0 < first <= frame_len f /\ off' + first <= CO_NETIO_TX_SIZE /\
            (first < frame_len f -> first = CO_NETIO_TX_SIZE - off')) as (Hfi & Hfit2 & Hw)
      by (unfold first; destruct (Z.ltb_spec (frame_len f) (CO_NETIO_TX_SIZE - off')); lia).
    pose proof (ring_two_parts 17 ltac:(lia) ring 0 (p + 4) first (frame_len f)) as E.
    change (2 ^ 17) with CO_NETIO_TX_SIZE in E. fold off' in E. rewrite Z.add_0_l in E.
    rewrite E; [by apply holds_list|lia|unfold CO_NETIO_TX_SIZE; lia|done|done].
Qed.

Lemma wp_walk ring tpos hpos fs func d :
  frames_at (snap_byte ring) tpos fs hpos -> tpos mod 4 = 0 -> hpos - tpos <= CO_NETIO_TX_SIZE ->
  wp (co_net_walk ring (u32 hpos) (u32 tpos) func)
    (fun r d' => exists k, walk_ref func fs d = (k, d') /\
       r = (Z.of_nat k, u32 (frames_stop tpos (take k fs))))
    (fun _ _ => False) d.
Proof.
  intros Hfs Hal Hfit. pose proof (frames_at_le _ _ _ _ Hfs) as Hle. unfold co_net_walk.
  rewrite u32_sub_wrap_l, u32_small by (unfold CO_NETIO_TX_SIZE in *; lia).
  rewrite (proj2 (Z.ltb_ge _ _)) by lia.
  apply (wp_mloop _ (fun st d' => exists p front rest k d'', fs = front ++ rest /\
      st = (u32 p, Z.of_nat (length front), u32 p) /\ p = frames_stop tpos front /\
      p mod 4 = 0 /\ tpos <= p /\ frames_at (snap_byte ring) p rest hpos /\
      walk_ref func rest d' = (k, d'') /\ walk_ref func fs d = ((length front + k)%nat, d''))
    (fun st _ => u32 (hpos - st.1.1))).
  - intros st d' (p & front & rest & k & d'' & -> & -> & -> & Hpa & Hpt & Hrest & Href & Hall).
    cbn [fst snd]. unfold walk_step. pose proof (frames_at_le _ _ _ _ Hrest) as Hpl.
    set (p := frames_stop tpos front) in *.
    assert (u32 (hpos - u32 p) = hpos - p) as Hleft.
    { rewrite u32_sub_wrap_r. apply u32_small. unfold CO_NETIO_TX_SIZE in *. lia. }
    destruct rest as [|f rest]; cbn [frames_at] in Hrest.
    + subst hpos. rewrite Z.eqb_refl. apply wp_ret. cbn [walk_ref] in Href. simplify_eq.
      rewrite Nat.add_0_r in Hall. exists (length front). split; [done|].
      by rewrite app_nil_r, firstn_all.
    + destruct Hrest as (Hf & Hl & Hb & Hnext). pose proof (frames_at_le _ _ _ _ Hnext) as Hnl.
      destruct (snap_record ring p f Hpa Hf Hl Hb) as (Hin & Hlen & Hframe).
      cbn zeta in Hin, Hlen, Hframe. pose proof (record_bytes_range _ Hf) as (Hra & Hrb & Hrl).
      destruct (Z.eqb_spec (u32 p) (u32 hpos)) as [He|Hne].
      { apply u32_inj in He; unfold CO_NETIO_TX_SIZE in *; lia. }
      assert (Z.land (u32 p) (CO_NETIO_TX_SIZE - 1) = p mod CO_NETIO_TX_SIZE) as ->.
      { change CO_NETIO_TX_SIZE with (2 ^ 17). rewrite (ring_mask 17) by lia. by apply (ring_u32 17). }
      wp_step. apply wp_in_bounds; [by apply Z.leb_le|]. rewrite Hlen. cbn zeta.
      assert (Z.land (u32 (p mod CO_NETIO_TX_SIZE + 4)) (CO_NETIO_TX_SIZE - 1)
              = (p + 4) mod CO_NETIO_TX_SIZE) as ->.
      { change CO_NETIO_TX_SIZE with (2 ^ 17). rewrite (ring_mask 17), (ring_u32 17) by lia.
        by rewrite Zplus_mod_idemp_l. }
      rewrite u32_sub_wrap_l, (u32_small (hpos - p)) by (unfold CO_NETIO_TX_SIZE in *; lia).
      rewrite (proj2 (Z.eqb_neq (frame_len f) 0)) by (destruct Hf; lia).
      rewrite (proj2 (Z.ltb_ge CO_NIO_MAX_FRAME _)) by apply Hf.
      rewrite (proj2 (Z.ltb_ge (hpos - p) _)) by lia. cbn [orb]. rewrite Hframe.
      wp_step. unfold wp at 1, call_func. cbn [walk_ref] in Href.
      set (c := match func with Some g => g f d' | None => (true, d') end) in *.
      assert (match func with Some g => let '(b, d1) := g f d' in (Ret b, d1)
              | None => (Ret true, d') end = (Ret c.1, c.2)) as ->
        by (unfold c; destruct func as [g|]; [by destruct (g f d')|done]).
      destruct c as [go d1]. cbn [fst snd]. destruct go; cbn [negb].
      * apply wp_ret. destruct (walk_ref func rest d1) as [k1 d2] eqn:Er. simplify_eq.
        rewrite u32_add_wrap_l. split.
        -- exists (p + record_bytes (frame_len f)), (front ++ [f]), rest, k1, d''.
           rewrite <- app_assoc. split; [done|]. rewrite length_app. cbn [length].
           split; [by rewrite Nat2Z.inj_add|].
           split; [|split; [rewrite Zplus_mod, Hpa, Hra; done|split; [lia|split; [done|]]]].
           ++ unfold p. clear. revert tpos. induction front as [|g l IH]; intros tpos; [done|].
              cbn [app frames_stop]. apply IH.
           ++ split; [done|]. rewrite Hall. f_equal. lia.
        -- cbn [fst snd]. rewrite Hleft, u32_sub_wrap_r, u32_small by (unfold CO_NETIO_TX_SIZE in *; lia). lia.
      * apply wp_ret. simplify_eq. exists (length front). rewrite Nat.add_0_r in Hall.
        split; [done|]. by rewrite take_app_length.
  - exists tpos, [], fs, (walk_ref func fs d).1, (walk_ref func fs d).2.
    destruct (walk_ref func fs d) as [k d'']. cbn. split_and!; try done.
  - cbn [fst snd]. pose proof (u32_range (hpos - u32 tpos)). lia.
Qed.
End walk_proofs.

(** ** Properties *)

(** The walk offers the frames of the ring, in order, until one is turned
    down. On a snapshot whose published bytes are the frames [fs], the value
    returned is the number of frames the callback accepted, the callback's data
    is what folding it over those frames gives, and [*consumed_out] is the
    position after the last of them. *)
Theorem walk_visits_frames {D} (ring : mem) tpos hpos fs (func : option (@frame_func D)) d :
  frames_at (snap_byte ring) tpos fs hpos -> tpos mod 4 = 0 -> hpos - tpos <= CO_NETIO_TX_SIZE ->
  co_net_walk ring (u32 hpos) (u32 tpos) func d =
    (Ret (Z.of_nat (walk_ref func fs d).1,
          u32 (frames_stop tpos (take (walk_ref func fs d).1 fs))), (walk_ref func fs d).2).
Proof.
  intros Hfs Hal Hfit.
  destruct (wp_total _ _ _ (wp_walk ring tpos hpos fs func d Hfs Hal Hfit))
    as (r & d' & -> & k & -> & ->). done.
Qed.

(** The walk trusts the alignment of the tail. With a [tx_tail] in the
    last three bytes before the wrap, which a guest may write, the length word
    is read past the end of the snapshot's buffer. *)
Theorem walk_unaligned_overruns {D} (ring : mem) head tail (func : option (@frame_func D)) d :
  0 <= tail -> CO_NETIO_TX_SIZE - 4 < tail mod CO_NETIO_TX_SIZE -> tail <> head ->
  u32 (head - tail) <= CO_NETIO_TX_SIZE ->
  co_net_walk ring head tail func d = (Fault, d).
Proof.
  intros Hpos Ht Hne Hfit. unfold co_net_walk. rewrite (proj2 (Z.ltb_ge _ _)) by done.
  apply mloop_fault. unfold walk_step. rewrite (proj2 (Z.eqb_neq _ _)) by done.
  assert (Z.land tail (CO_NETIO_TX_SIZE - 1) = tail mod CO_NETIO_TX_SIZE) as ->
    by (change CO_NETIO_TX_SIZE with (2 ^ 17); apply land_mask; lia).
  apply run_bind_fault. unfold in_bounds. by rewrite (proj2 (Z.leb_gt _ _)) by lia.
Qed.

Section receive.
Context {W : Type} `{HW : GuestWindow W} `{HS : Statics W net_statics}
  `{HK : !StaticsKept W net_statics} (malloc_ok : Z -> bool).
Implicit Types (w : W) (m : mem).

(** C15: receiving takes each frame from the queue once. The guest's TX ring
    holds the frames [fs]; fetching it, walking the snapshot with any callback
    and giving the position reached to [co_manager_conet_take] shows the
    callback the frames from the front and leaves in the ring exactly those it
    did not accept, with the rest of the ring's bytes untouched. *)
Theorem net_receive_dequeues {D} w m tpos hpos fs (func : option (@frame_func D)) d :
  (forall n, malloc_ok n = true) -> net_io w m ->
  load_u32 m CO_NIO_TX_HEAD = u32 hpos -> load_u32 m CO_NIO_TX_TAIL = u32 tpos ->
  tpos mod 4 = 0 -> hpos - tpos <= CO_NIO_TX_SIZE -> frames_at (tx_byte m) tpos fs hpos ->
  let k := (walk_ref func fs d).1 in let npos := frames_stop tpos (take k fs) in
  exists ring w1 ix w2 m',
    co_net_fetch malloc_ok w = (Ret (snapshot_indices m, ring), w1) /\
    co_net_walk ring (u32 hpos) (u32 tpos) func d =
      (Ret (Z.of_nat k, u32 npos), (walk_ref func fs d).2) /\
    co_manager_conet_take (u32 npos) w1 = (Ret ix, w2) /\
    net_io w2 m' /\ load_u32 m' CO_NIO_TX_TAIL = u32 npos /\
    load_u32 m' CO_NIO_TX_HEAD = u32 hpos /\
    frames_at (tx_byte m') npos (drop k fs) hpos /\
    forall q, tx_byte m' q = tx_byte m q.
Proof using HK.
  intros Hal Hio Hh Ht Halign Hfit Hfs k npos. pose proof (frames_at_le _ _ _ _ Hfs) as Hle.
  destruct (wp_total _ _ _ (wp_fetch malloc_ok w m tpos hpos Hal Hio Hh Ht Hle Hfit))
    as ([ix0 ring] & w1 & Hrun & A & Eix & Hsnap). cbn [fst snd] in Eix, Hsnap. subst ix0.
  assert (frames_at (snap_byte ring) tpos fs hpos) as Hring
    by (eapply frames_at_ext; [|exact Hfs]; intros q Hq; by apply Hsnap).
  destruct (wp_total _ _ _ (wp_walk ring tpos hpos fs func d Hring Halign Hfit))
    as (r & d' & Hwalk & k' & Ek & ->).
  pose proof (net_at_io _ _ _ _ Hio A) as Hio1.
  assert (k' = k /\ d' = (walk_ref func fs d).2) as [-> ->] by (unfold k; by rewrite Ek).
  rewrite <- (take_drop k fs) in Hfs. destruct (frames_at_split _ _ _ _ _ Hfs) as [Hfront Hback].
  fold npos in Hfront, Hback.
  pose proof (frames_at_le _ _ _ _ Hfront). pose proof (frames_at_le _ _ _ _ Hback).
  pose proof (wp_net_take w1 m (u32 npos) Hio1 (u32_range npos)) as Htake. cbn zeta in Htake.
  rewrite Hh, Ht, !u32_sub_wrap_l in Htake.
  rewrite (u32_small (npos - tpos)), (u32_small (hpos - tpos)) in Htake
    by (unfold CO_NIO_TX_SIZE in *; lia).
  destruct (wp_cases _ _ _ _ Htake) as [(ix & w2 & Ht2 & _ & -> & A2)|(rc & w2 & _ & _ & Hlt & _)];
    [|lia].
  set (m' := if u32 npos =? u32 tpos then m else store_u32 m CO_NIO_TX_TAIL (u32 npos)) in A2.
  assert (forall q, tx_byte m' q = tx_byte m q) as Htx.
  { intros q. unfold m'. destruct (u32 npos =? u32 tpos); [done|].
    apply (ring_store_out 17 ltac:(lia)). left. done. }
  eexists ring, w1, _, w2, m'. split; [exact Hrun|]. split; [exact Hwalk|]. split.
  { unfold co_manager_conet_take, params_rc, ioctl_conet_take, conet_take_bytes, attempt, mbind,
      M_bind. cbn. rewrite Ht2. reflexivity. }
  split; [exact (net_at_io _ _ _ _ Hio1 A2)|]. split; [|split; [|split; [|exact Htx]]].
  - unfold m'. destruct (Z.eqb_spec (u32 npos) (u32 tpos)) as [->|Hne]; [done|].
    by rewrite load_u32_store_eq, u32_idemp.
  - unfold m'. destruct (u32 npos =? u32 tpos); [done|]. by rewrite load_u32_store_ne by (left; done).
  - eapply frames_at_ext; [intros q _; apply Htx|exact Hback].
Qed.
End receive.
