(* ===== verification/Console.v ===== *)
(** The host half of the guest's console ([kernel/console.c]).

    Verified against the interface of [GuestMem], as [Net] is: two byte rings
    in a window at [console_io_va], one writer per index. The counters are read
    through [co_kload_read], byte by byte. *)
From S2P Require Import Prelude.
From S2P Require Import Rc.
From S2P Require Import Mem.
From S2P Require Import GuestMem.
From S2P Require Import Ring.

Definition CO_CONSOLE_IN_SIZE : Z := 1024.
Definition CO_CONSOLE_OUT_SIZE : Z := 4096.
Definition CO_CIO_IN_HEAD : Z := 0x00.
Definition CO_CIO_IN_TAIL : Z := 0x04.
Definition CO_CIO_OUT_HEAD : Z := 0x08.
Definition CO_CIO_OUT_TAIL : Z := 0x0c.
Definition CO_CIO_IN : Z := 0x10.
Definition CO_CIO_OUT : Z := CO_CIO_IN + CO_CONSOLE_IN_SIZE.

(** [console_io_va] and whether [console_lock] exists. *)
Record console_statics := ConsoleStatics { cio_va : Z; cio_lock : bool }.

Section console.
Context {W : Type} `{GuestMem W} `{Statics W console_statics}.

Definition console_va : M W Z := gets (fun w => cio_va (static w)).

Definition co_console_read_u32 (offset : Z) : M W Z :=
  va ← console_va; bs ← gm_read (u64 (va + offset)) 4; mret (le_join bs).

Definition co_console_write_u32 (offset value : Z) : M W unit :=
  va ← console_va; gm_write (u64 (va + offset)) (le_bytes 4 value) 4.

(** Keystrokes in: [(head, n)]. *)
Definition pump_in_step (input : list Z) (in_size tail : Z) (st : Z * Z) :
    M W ((Z * Z) + (Z * Z)) :=
  let '(head, n) := st in
  if negb ((n <? in_size) && (u32 (head - tail) <? CO_CONSOLE_IN_SIZE))%bool
  then mret (inr (head, n)) else
  let slot := Z.land head (CO_CONSOLE_IN_SIZE - 1) in
  in_bounds (n <? Z.of_nat (length input)) ;;
  va ← console_va;
  or_error (gm_write (u64 (va + CO_CIO_IN + slot)) [buf_byte input n] 1) ;;
  mret (inl (u32 (head + 1), ulong (n + 1))).

Definition pump_in (input : list Z) (in_size : Z) : M W Z :=
  if in_size =? 0 then mret 0 else
  head ← or_error (co_console_read_u32 CO_CIO_IN_HEAD);
  tail ← or_error (co_console_read_u32 CO_CIO_IN_TAIL);
  r ← mloop (pump_in_step input in_size tail) (head, 0);
  (if r.2 =? 0 then mret tt else or_error (co_console_write_u32 CO_CIO_IN_HEAD r.1)) ;;
  mret r.2.

(** Output out: [(tail, out)]. *)
Definition pump_out_step (out_size head : Z) (st : Z * list Z) :
    M W ((Z * list Z) + (Z * list Z)) :=
  let '(tail, out) := st in
  if negb ((Z.of_nat (length out) <? out_size) && negb (tail =? head))%bool
  then mret (inr (tail, out)) else
  let slot := Z.land tail (CO_CONSOLE_OUT_SIZE - 1) in
  va ← console_va;
  bs ← or_error (gm_read (u64 (va + CO_CIO_OUT + slot)) 1);
  mret (inl (u32 (tail + 1), out ++ bs)).

Definition pump_out (out_size : Z) : M W (list Z) :=
  if out_size =? 0 then mret [] else
  head ← or_error (co_console_read_u32 CO_CIO_OUT_HEAD);
  tail ← or_error (co_console_read_u32 CO_CIO_OUT_TAIL);
  let tail := if CO_CONSOLE_OUT_SIZE <? u32 (head - tail) then u32 (head - CO_CONSOLE_OUT_SIZE)
              else tail in
  r ← mloop (pump_out_step out_size head) (tail, []);
  match r.2 with
  | [] => mret []
  | _ :: _ => or_error (co_console_write_u32 CO_CIO_OUT_TAIL r.1) ;; mret r.2
  end.

(** The code, [*in_taken] and the [*out_len] bytes of [out]. *)
Definition co_console_pump (input : list Z) (in_size out_size : Z) :
    M W (co_rc_value_t * Z * list Z) :=
  lock ← gets (fun w => cio_lock (static w));
  va ← console_va;
  if (negb lock || (va =? 0))%bool then mret (CO_RC_NOT_FOUND, 0, []) else
  taken ← attempt (pump_in input in_size);
  match taken with
  | inr rc => mret (rc, 0, [])
  | inl taken =>
      out ← attempt (pump_out out_size);
      match out with
      | inr rc => mret (rc, taken, [])
      | inl out => mret (CO_RC_OK, taken, out)
      end
  end.
End console.

(** ** The window of the rings *)

Definition CO_CIO_BYTES : Z := CO_CIO_OUT + CO_CONSOLE_OUT_SIZE.

Abbreviation in_byte m := (ring_byte m CO_CIO_IN CO_CONSOLE_IN_SIZE).
Abbreviation out_byte m := (ring_byte m CO_CIO_OUT CO_CONSOLE_OUT_SIZE).

(** Arithmetic on the offsets. *)
Ltac cio :=
  unfold CO_CIO_BYTES, CO_CIO_OUT, CO_CIO_IN, CO_CIO_IN_HEAD, CO_CIO_IN_TAIL, CO_CIO_OUT_HEAD,
    CO_CIO_OUT_TAIL, CO_CONSOLE_IN_SIZE, CO_CONSOLE_OUT_SIZE in *; lia.

(** A state reached from [w0] through the window, which holds [m] now. *)
Abbreviation con_at := (dev_at cio_va CO_CIO_BYTES).

Section console_proofs.
Context {W : Type} `{HW : GuestWindow W} `{HS : Statics W console_statics}
  `{HK : !StaticsKept W console_statics}.
Implicit Types (w : W) (m : mem).

(** A live console whose window holds [m]. *)
Record console_io w m : Prop := {
  ci_lock : cio_lock (static w) = true;
  ci_va : cio_va (static w) <> 0;
  ci_window : gm_window w (cio_va (static w)) CO_CIO_BYTES m;
}.

Lemma con_at_refl w m : console_io w m -> con_at w m w.
Proof using. intros [_ _ Hw]. by apply reached_refl. Qed.

Lemma con_at_io w0 m0 m w : console_io w0 m0 -> con_at w0 m w -> console_io w m.
Proof using HK.
  intros [Hl Hv _] Ha. pose proof (dev_at_static _ _ _ _ _ Ha) as Es. destruct Ha as (Hw & _).
  split; by rewrite Es.
Qed.

Lemma wp_con_read w0 m off (Q : Z -> W -> Prop) E w :
  con_at w0 m w -> 0 <= off -> off + 4 <= CO_CIO_BYTES ->
  (forall w', con_at w0 m w' -> Q (load_u32 m off) w') ->
  wp (or_error (co_console_read_u32 off)) Q E w.
Proof using HK.
  intros Ha Ho Hs HQ. apply wp_or_error. unfold co_console_read_u32. wp_step.
  apply (wp_dev_va cio_va CO_CIO_BYTES w0 m); [done|]. wp_step.
  apply (wp_dev_read _ CO_CIO_BYTES w0 m); [done|done|lia|done|]. intros w' A. by apply wp_ret, HQ.
Qed.

Lemma wp_con_write w0 m off v (Q : unit -> W -> Prop) E w :
  con_at w0 m w -> 0 <= off -> off + 4 <= CO_CIO_BYTES ->
  (forall w', con_at w0 (store_u32 m off v) w' -> Q tt w') ->
  wp (or_error (co_console_write_u32 off v)) Q E w.
Proof using HK.
  intros Ha Ho Hs HQ. apply wp_or_error. unfold co_console_write_u32. wp_step.
  apply (wp_dev_va cio_va CO_CIO_BYTES w0 m); [done|].
  apply (wp_dev_write _ CO_CIO_BYTES w0 m); [done|done|by rewrite length_le_bytes|lia|done|
    apply le_bytes_bytes|done].
Qed.

(** ** Keystrokes *)

(** [n] bytes of [input] appended at [ihead]; the bytes from [itail] on that
    the guest has not read yet, and everything outside the ring, as they were. *)
Record typed m (itail ihead : Z) (input : list Z) (n : Z) m' : Prop := {
  ty_new i : 0 <= i < n -> in_byte m' (ihead + i) = buf_byte input i;
  ty_old q : itail <= q < ihead -> in_byte m' q = in_byte m q;
  ty_off off : off < CO_CIO_IN \/ CO_CIO_OUT <= off -> load m' off = load m off;
}.

Lemma typed_next m itail ihead input n m1 :
  typed m itail ihead input n m1 -> 0 <= n < Z.of_nat (length input) -> Forall is_byte input ->
  itail <= ihead -> ihead + n - itail < CO_CONSOLE_IN_SIZE ->
  typed m itail ihead input (n + 1)
    (store_bytes m1 (CO_CIO_IN + (ihead + n) mod CO_CONSOLE_IN_SIZE) [buf_byte input n]).
Proof using.
  intros [Tn To Tf] Hn Hby Hle Hfit.
  assert (Forall is_byte [buf_byte input n]) as Hb.
  { constructor; [|constructor]. unfold buf_byte.
    destruct (lookup_lt_is_Some_2 input (Z.to_nat n)) as [b E]; [lia|]. rewrite E.
    exact (proj1 (Forall_lookup _ _) Hby _ _ E). }
  pose proof (Z.mod_pos_bound (ihead + n) CO_CONSOLE_IN_SIZE ltac:(done)) as Hm.
  assert (forall q, ihead + n + 1 - CO_CONSOLE_IN_SIZE <= q < ihead + n + CO_CONSOLE_IN_SIZE ->
    in_byte (store_bytes m1 (CO_CIO_IN + (ihead + n) mod CO_CONSOLE_IN_SIZE) [buf_byte input n]) q =
    if decide (q = ihead + n) then buf_byte input n else in_byte m1 q) as Hst.
  { intros q Hq. pose proof (ring_store 10 ltac:(lia) m1 CO_CIO_IN (ihead + n) [buf_byte input n] q Hb) as E.
    change (2 ^ 10) with CO_CONSOLE_IN_SIZE in E. rewrite E by (cbn [length]; lia). cbn [length].
    destruct (decide (q = ihead + n)) as [->|Hne].
    - rewrite decide_True by lia. by rewrite Z.sub_diag.
    - by rewrite decide_False by lia. }
  split.
  - intros i Hi. rewrite Hst by lia. destruct (decide (ihead + i = ihead + n)) as [E|Hne].
    + f_equal. lia.
    + apply Tn. lia.
  - intros q Hq. rewrite Hst by lia. rewrite decide_False by lia. by apply To.
  - intros off Ho. rewrite <- Tf by done. unfold load, store_bytes. cbn [length].
    rewrite decide_False; [done|]. cio.
Qed.

Lemma wp_pump_in w0 m w itail ihead input in_size (E : co_rc_value_t -> W -> Prop) :
  con_at w0 m w -> load_u32 m CO_CIO_IN_HEAD = u32 ihead -> load_u32 m CO_CIO_IN_TAIL = u32 itail ->
  itail <= ihead -> ihead - itail <= CO_CONSOLE_IN_SIZE -> Forall is_byte input ->
  0 <= in_size <= Z.of_nat (length input) -> in_size < 2 ^ 32 ->
  wp (pump_in input in_size)
    (fun n w' => n = Z.min in_size (CO_CONSOLE_IN_SIZE - (ihead - itail)) /\ exists m1,
       typed m itail ihead input n m1 /\
       con_at w0 (if n =? 0 then m1 else store_u32 m1 CO_CIO_IN_HEAD (u32 (ihead + n))) w') E w.
Proof using HK.
  intros Ha Hh Ht Hle Hfit Hby Hsz Hlt. unfold pump_in.
  assert (typed m itail ihead input 0 m) as H00 by (split; [lia|done|done]).
  destruct (Z.eqb_spec in_size 0) as [Hz|Hz].
  { apply wp_ret. split; [lia|]. by exists m. }
  wp_step. apply (wp_con_read w0 m); [done|done|done|]. intros w1 A1.
  wp_step. apply (wp_con_read w0 m); [done|done|done|]. intros w2 A2. rewrite Hh, Ht. wp_step.
  apply (wp_mloop _ (fun st w' => exists n m1, st = (u32 (ihead + n), n) /\ 0 <= n <= in_size /\
      ihead + n - itail <= CO_CONSOLE_IN_SIZE /\ typed m itail ihead input n m1 /\ con_at w0 m1 w')
    (fun st _ => in_size - st.2)).
  - intros st w' (n & m1 & -> & Hn & Hf & Hty & A). cbn [fst snd]. unfold pump_in_step.
    rewrite u32_sub_wrap_l, u32_small by cio.
    destruct ((n <? in_size) && (ihead + n - itail <? CO_CONSOLE_IN_SIZE))%bool eqn:Hc; cbn [negb].
    + zbool. wp_step. apply wp_in_bounds; [apply Z.ltb_lt; lia|]. wp_step.
      apply (wp_dev_va cio_va CO_CIO_BYTES w0 m1); [done|].
      assert (Z.land (u32 (ihead + n)) (CO_CONSOLE_IN_SIZE - 1) = (ihead + n) mod CO_CONSOLE_IN_SIZE)
        as ->.
      { change CO_CONSOLE_IN_SIZE with (2 ^ 10). rewrite (ring_mask 10) by lia. by apply (ring_u32 10). }
      pose proof (Z.mod_pos_bound (ihead + n) CO_CONSOLE_IN_SIZE ltac:(done)) as Hm.
      pose proof (typed_next _ _ _ _ _ _ Hty ltac:(lia) Hby Hle ltac:(lia)) as Hnext.
      wp_step. apply wp_or_error. rewrite <- Z.add_assoc.
      apply (wp_dev_write _ CO_CIO_BYTES w0 m1); [done|cio|done|lia|cio| |].
      { constructor; [|constructor]. unfold buf_byte.
        destruct (lookup_lt_is_Some_2 input (Z.to_nat n)) as [b Eb]; [lia|]. rewrite Eb.
        exact (proj1 (Forall_lookup _ _) Hby _ _ Eb). }
      intros w3 A3. apply wp_ret. unfold ulong. rewrite u32_add_wrap_l, (u32_small (n + 1)) by lia.
      cbn [fst snd]. split; [|lia]. eexists (n + 1), _. split; [f_equal; f_equal; lia|].
      split; [lia|]. split; [lia|]. split; [exact Hnext|exact A3].
    + apply wp_ret. cbn [snd fst]. wp_step.
      assert (n = Z.min in_size (CO_CONSOLE_IN_SIZE - (ihead - itail))) as Hmin.
      { apply andb_false_iff in Hc. destruct Hc as [Hc|Hc]; apply Z.ltb_ge in Hc; lia. }
      destruct (Z.eqb_spec n 0) as [Hn0|Hn0].
      * apply wp_ret, wp_ret. split; [done|]. exists m1. by rewrite (proj2 (Z.eqb_eq _ 0)).
      * apply (wp_con_write w0 m1); [done|done|done|]. intros w3 A3. apply wp_ret. split; [done|].
        exists m1. by rewrite (proj2 (Z.eqb_neq _ 0)).
  - exists 0, m. rewrite Z.add_0_r. split_and!; try done; lia.
  - cbn [snd]. lia.
Qed.

(** ** Output *)

(** What a guest that printed past the ring's end left to read. *)
Definition out_start (otail ohead : Z) : Z := Z.max otail (ohead - CO_CONSOLE_OUT_SIZE).

Lemma wp_pump_out w0 m w otail ohead out_size (E : co_rc_value_t -> W -> Prop) :
  con_at w0 m w -> load_u32 m CO_CIO_OUT_HEAD = u32 ohead -> load_u32 m CO_CIO_OUT_TAIL = u32 otail ->
  otail <= ohead < otail + 2 ^ 32 -> 0 <= out_size < 2 ^ 32 ->
  let n := Z.min out_size (ohead - out_start otail ohead) in
  wp (pump_out out_size)
    (fun bs w' => bs = out_byte m <$> seqZ (out_start otail ohead) n /\
       con_at w0 (if n =? 0 then m
                  else store_u32 m CO_CIO_OUT_TAIL (u32 (out_start otail ohead + n))) w') E w.
Proof using HK.
  intros Ha Hh Ht Hle Hsz n. unfold pump_out.
  pose proof (eq_refl : out_start otail ohead = Z.max otail (ohead - CO_CONSOLE_OUT_SIZE)) as Est.
  pose proof (eq_refl : n = Z.min out_size (ohead - out_start otail ohead)) as En.
  set (start := out_start otail ohead) in *. clearbody start. clearbody n.
  assert (otail <= start <= ohead) as Hstart by cio.
  destruct (Z.eqb_spec out_size 0) as [Hz|Hz].
  { apply wp_ret. assert (n = 0) as -> by lia. done. }
  wp_step. apply (wp_con_read w0 m); [done|done|done|]. intros w1 A1.
  wp_step. apply (wp_con_read w0 m); [done|done|done|]. intros w2 A2. rewrite Hh, Ht. cbn zeta.
  rewrite u32_sub_wrap_l, (u32_small (ohead - otail)) by lia.
  assert ((if CO_CONSOLE_OUT_SIZE <? ohead - otail then u32 (u32 ohead - CO_CONSOLE_OUT_SIZE)
           else u32 otail) = u32 start) as ->.
  { destruct (Z.ltb_spec CO_CONSOLE_OUT_SIZE (ohead - otail)).
    - unfold u32 at 1 2. rewrite Zminus_mod_idemp_l. fold (u32 (ohead - CO_CONSOLE_OUT_SIZE)).
      f_equal. lia.
    - f_equal. lia. }
  wp_step.
  apply (wp_mloop _ (fun st w' => exists k, st = (u32 (start + k), out_byte m <$> seqZ start k) /\
      0 <= k <= n /\ con_at w0 m w')
    (fun st _ => out_size - Z.of_nat (length st.2))).
  - intros st w' (k & -> & Hk & A). cbn [fst snd]. unfold pump_out_step.
    assert (Z.of_nat (length (out_byte m <$> seqZ start k)) = k) as Hlen
      by (rewrite length_fmap, length_seqZ; lia).
    rewrite Hlen.
    destruct ((k <? out_size) && negb (u32 (start + k) =? u32 ohead))%bool eqn:Hc; cbn [negb].
    + zbool. assert (start + k < ohead) as Hlt.
      { assert (start + k <> ohead) by congruence. lia. }
      cbn zeta. wp_step. apply (wp_dev_va cio_va CO_CIO_BYTES w0 m); [done|].
      assert (Z.land (u32 (start + k)) (CO_CONSOLE_OUT_SIZE - 1) = (start + k) mod CO_CONSOLE_OUT_SIZE)
        as ->.
      { change CO_CONSOLE_OUT_SIZE with (2 ^ 12). rewrite (ring_mask 12) by lia. by apply (ring_u32 12). }
      pose proof (Z.mod_pos_bound (start + k) CO_CONSOLE_OUT_SIZE ltac:(done)) as Hm.
      wp_step. apply wp_or_error. rewrite <- Z.add_assoc.
      apply (wp_dev_read _ CO_CIO_BYTES w0 m); [done|cio|lia|cio|]. intros w3 A3. apply wp_ret.
      rewrite (ring_part 12 ltac:(lia) m CO_CIO_OUT (start + k)) by (done || cio).
      change (2 ^ 12) with CO_CONSOLE_OUT_SIZE. rewrite <- fmap_app, <- seqZ_app by lia.
      cbn [fst snd]. rewrite u32_add_wrap_l. split.
      * exists (k + 1). split; [f_equal; f_equal; lia|]. split; [lia|done].
      * rewrite length_fmap, length_seqZ. lia.
    + apply wp_ret. assert (k = n) as ->.
      { apply andb_false_iff in Hc. destruct Hc as [Hc|Hc]; [apply Z.ltb_ge in Hc; lia|].
        apply negb_false_iff, Z.eqb_eq, u32_inj in Hc; cio. }
      cbn [fst snd]. destruct (out_byte m <$> seqZ start n) as [|b bs] eqn:Eb.
      * apply wp_ret. cbn in Hlen. rewrite (proj2 (Z.eqb_eq n 0)) by lia. by rewrite <- Eb.
      * cbn in Hlen. rewrite (proj2 (Z.eqb_neq n 0)) by lia. wp_step.
        apply (wp_con_write w0 m); [done|done|done|]. intros w3 A3. apply wp_ret.
        split; [by rewrite <- Eb|done].
  - exists 0. rewrite Z.add_0_r. split_and!; try done; cio.
  - cbn. lia.
Qed.
End console_proofs.

(** ** Properties *)

Section console_theorems.
Context {W : Type} `{HW : GuestWindow W} `{HS : Statics W console_statics}
  `{HK : !StaticsKept W console_statics}.
Implicit Types (w : W) (m : mem).

(** One pump moves bytes both ways and loses none. Keystrokes go into the
    ring behind those the guest has not read, as many as fit, and the count
    tells which; output comes out oldest first, up to the caller's room, from
    where a guest that overran the ring left it, and the tail moves past it;
    no other byte of the structure changes. A retired console is not touched. *)
Theorem console_pump_moves w m itail ihead otail ohead input in_size out_size :
  console_io w m ->
  load_u32 m CO_CIO_IN_HEAD = u32 ihead -> load_u32 m CO_CIO_IN_TAIL = u32 itail ->
  itail <= ihead -> ihead - itail <= CO_CONSOLE_IN_SIZE ->
  load_u32 m CO_CIO_OUT_HEAD = u32 ohead -> load_u32 m CO_CIO_OUT_TAIL = u32 otail ->
  otail <= ohead < otail + 2 ^ 32 -> Forall is_byte input ->
  0 <= in_size <= Z.of_nat (length input) -> in_size < 2 ^ 32 -> 0 <= out_size < 2 ^ 32 ->
  let taken := Z.min in_size (CO_CONSOLE_IN_SIZE - (ihead - itail)) in
  let start := out_start otail ohead in
  let n := Z.min out_size (ohead - start) in
  exists w' m',
    co_console_pump input in_size out_size w =
      (Ret (CO_RC_OK, taken, out_byte m <$> seqZ start n), w') /\
    console_io w' m' /\ gm_only w (cio_va (static w)) CO_CIO_BYTES w' /\
    load_u32 m' CO_CIO_IN_HEAD = u32 (ihead + taken) /\
    (forall i, 0 <= i < taken -> in_byte m' (ihead + i) = buf_byte input i) /\
    (forall q, itail <= q < ihead -> in_byte m' q = in_byte m q) /\
    load_u32 m' CO_CIO_OUT_TAIL = (if n =? 0 then u32 otail else u32 (start + n)) /\
    (forall off, CO_CIO_IN_TAIL <= off < CO_CIO_OUT_TAIL \/ CO_CIO_OUT <= off ->
       load m' off = load m off).
Proof using HK.
  intros Hio Hih Hit Hil Hif Hoh Hot Hol Hby Hsz Hs1 Hs2 taken start n.
  assert (wp (co_console_pump input in_size out_size) (fun r w' => exists m1,
      typed m itail ihead input taken m1 /\
      r = (CO_RC_OK, taken, out_byte m <$> seqZ start n) /\
      let m2 := if taken =? 0 then m1 else store_u32 m1 CO_CIO_IN_HEAD (u32 (ihead + taken)) in
      con_at w (if n =? 0 then m2 else store_u32 m2 CO_CIO_OUT_TAIL (u32 (start + n))) w')
    (fun _ _ => False) w) as Hwp.
  { unfold co_console_pump. wp_step. apply wp_gets. wp_step. apply wp_gets.
    rewrite (ci_lock _ _ Hio), (proj2 (Z.eqb_neq _ 0)) by apply Hio. cbn [negb orb].
    wp_step. wp_step. eapply wp_ret_mono;
      [apply (wp_pump_in w m w itail ihead); try done; by apply con_at_refl|].
    intros k w1 (-> & m1 & Hty & A1). fold taken in Hty, A1 |- *.
    set (m2 := if taken =? 0 then m1 else _) in *.
    assert (forall off, 0 <= off -> off + 4 <= CO_CIO_IN -> CO_CIO_IN_TAIL <= off ->
              load_u32 m2 off = load_u32 m off) as Hw.
    { intros off Ho1 Ho2 Ho3. unfold m2. destruct (taken =? 0).
      - unfold load_u32. f_equal. apply load_bytes_ext. intros x Hx. apply (ty_off _ _ _ _ _ _ Hty). lia.
      - rewrite load_u32_store_ne by cio. unfold load_u32. f_equal. apply load_bytes_ext.
        intros x Hx. apply (ty_off _ _ _ _ _ _ Hty). lia. }
    wp_step. wp_step. eapply wp_ret_mono;
      [apply (wp_pump_out w m2 w1 otail ohead out_size); [done|by rewrite Hw|by rewrite Hw|done|done]|].
    intros bs w2 [-> A2]. fold start n in A2 |- *. apply wp_ret. exists m1. split; [done|].
    split; [|exact A2]. f_equal. apply list_fmap_ext. intros i q Hq.
    unfold ring_byte. pose proof (Z.mod_pos_bound q CO_CONSOLE_OUT_SIZE ltac:(done)) as Hm.
    unfold m2. destruct (taken =? 0); [apply (ty_off _ _ _ _ _ _ Hty); cio|].
    rewrite <- (ty_off _ _ _ _ _ _ Hty (CO_CIO_OUT + q mod CO_CONSOLE_OUT_SIZE)) by cio.
    unfold load, store_u32, store_bytes. rewrite decide_False; [done|]. rewrite length_le_bytes. cio. }
  destruct (wp_total _ _ _ Hwp) as (r & w' & Hrun & m1 & [Tn To Tf] & -> & A). cbn zeta in A.
  set (m2 := if taken =? 0 then m1 else _) in *.
  set (m3 := if n =? 0 then m2 else _) in *. exists w', m3. split; [exact Hrun|].
  split; [by eapply con_at_io|]. split; [apply A|].
  assert (forall off, ~ (CO_CIO_OUT_TAIL <= off < CO_CIO_IN) -> load m3 off = load m2 off) as H3.
  { intros off Ho. unfold m3. destruct (n =? 0); [done|]. unfold load, store_u32, store_bytes.
    rewrite decide_False; [done|]. rewrite length_le_bytes. cio. }
  assert (forall off, ~ (CO_CIO_IN_HEAD <= off < CO_CIO_IN_TAIL) -> load m2 off = load m1 off) as H2'.
  { intros off Ho. unfold m2. destruct (taken =? 0); [done|]. unfold load, store_u32, store_bytes.
    rewrite decide_False; [done|]. rewrite length_le_bytes. cio. }
  assert (forall q, in_byte m3 q = in_byte m1 q) as Hin.
  { intros q. unfold ring_byte. pose proof (Z.mod_pos_bound q CO_CONSOLE_IN_SIZE ltac:(done)).
    rewrite H3, H2' by cio. done. }
  assert (0 <= taken) as Htk by lia.
  split; [|split; [|split; [|split]]].
  - assert (load_u32 m3 CO_CIO_IN_HEAD = load_u32 m2 CO_CIO_IN_HEAD) as ->
      by (unfold load_u32; f_equal; apply load_bytes_ext; intros x Hx; apply H3; cio).
    unfold m2. destruct (Z.eqb_spec taken 0) as [->|Hne].
    + rewrite Z.add_0_r, <- Hih. unfold load_u32. f_equal. apply load_bytes_ext.
      intros x Hx. apply Tf. cio.
    + by rewrite load_u32_store_eq, u32_idemp.
  - intros i Hi. rewrite Hin. by apply Tn.
  - intros q Hq. rewrite Hin. by apply To.
  - unfold m3. destruct (n =? 0); [|by rewrite load_u32_store_eq, u32_idemp].
    rewrite <- Hot. unfold load_u32. f_equal. apply load_bytes_ext. intros x Hx.
    rewrite H2' by cio. apply Tf. cio.
  - intros off Ho. rewrite H3, H2' by cio. apply Tf. cio.
Qed.
End console_theorems.
