(* ===== verification/Vring.v ===== *)
(** The split virtqueue as the GPU daemon reads and writes it
    ([os/winnt/user/cogpu-daemon/vring.c]).

    Descriptor table, available ring and used ring are bytes of host memory
    that the guest shares; a queue is three pointers into it with the daemon's
    own counters. How a guest address is resolved is the caller's function. *)
From S2P Require Import Prelude.
From S2P Require Import Mem.

Definition VRING_DESC_F_NEXT : Z := 1.
Definition VRING_DESC_F_WRITE : Z := 2.
Definition COGPU_MAX_CHAIN : Z := 256.
Definition UINT32_MAX : Z := 2 ^ 32 - 1.

Record vring_desc := Desc { d_addr : Z; d_len : Z; d_flags : Z; d_next : Z }.

(** [sizeof], and the offsets of the fields. *)
Definition vring_desc_bytes : Z := 16.
Definition vring_used_elem_bytes : Z := 8.

Definition load_u16 (m : mem) (a : Z) : Z := le_join (load_bytes m a 2).
Definition store_u16 (m : mem) (a v : Z) : mem := store_bytes m a (le_bytes 2 v).

(** A null pointer is zero. *)
Record cogpu_vring := Vring {
  vr_desc : Z;
  vr_avail : Z;
  vr_used : Z;
  vr_num : Z;
  vr_last_avail : Z;
  vr_used_idx : Z;
}.

Record cogpu_buf := Buf { b_addr : Z; b_len : Z }.

(** [in_count] and [out_count] are the lengths of the lists. *)
Record cogpu_chain := Chain {
  c_head : Z;
  c_in : list cogpu_buf;
  c_out : list cogpu_buf;
  c_in_bytes : Z;
  c_out_bytes : Z;
}.

Definition avail_idx (m : mem) (vr : cogpu_vring) : Z := load_u16 m (vr_avail vr + 2).
Definition avail_ring (m : mem) (vr : cogpu_vring) (k : Z) : Z :=
  load_u16 m (vr_avail vr + 4 + 2 * k).

Definition read_desc (m : mem) (a : Z) : vring_desc :=
  Desc (load_u64 m a) (load_u32 m (a + 8)) (load_u16 m (a + 12)) (load_u16 m (a + 14)).

Definition desc_at (m : mem) (vr : cogpu_vring) (i : Z) : option vring_desc :=
  if vr_num vr <=? i then None else Some (read_desc m (vr_desc vr + vring_desc_bytes * i)).

(** Merge a piece into the last buffer of a list, or append it. *)
Definition buf_add (buf : list cogpu_buf) (addr len : Z) : option (list cogpu_buf) :=
  let append := if COGPU_MAX_CHAIN <=? Z.of_nat (length buf) then None
                else Some (buf ++ [Buf addr len]) in
  match last buf with
  | Some b =>
      if ((u64 (b_addr b + b_len b) =? addr) && (len <=? UINT32_MAX - b_len b))%bool
      then Some (take (length buf - 1) buf ++ [Buf (b_addr b) (b_len b + len)])
      else append
  | None => append
  end.

Definition chain_add (chain : cogpu_chain) (write : bool) (addr len : Z) : option cogpu_chain :=
  if write
  then (fun l => Chain (c_head chain) (c_in chain) l (c_in_bytes chain) (c_out_bytes chain))
         <$> buf_add (c_out chain) addr len
  else (fun l => Chain (c_head chain) l (c_out chain) (c_in_bytes chain) (c_out_bytes chain))
         <$> buf_add (c_in chain) addr len.

Definition count_bytes (chain : cogpu_chain) (write : bool) (len : Z) : cogpu_chain :=
  if write
  then Chain (c_head chain) (c_in chain) (c_out chain) (c_in_bytes chain)
         (u32 (c_out_bytes chain + len))
  else Chain (c_head chain) (c_in chain) (c_out chain) (u32 (c_in_bytes chain + len))
         (c_out_bytes chain).

Section pop.
(** [cogpu_resolve_fn]: a host pointer for [len] bytes at a guest address. *)
Variable resolve : Z -> Z -> option Z.

(** [while (left) { ... }]: page pieces. *)
Definition piece_step (write : bool) (st : Z * Z * cogpu_chain) :
    (Z * Z * cogpu_chain) + option cogpu_chain :=
  let '(addr, rest, chain) := st in
  if rest =? 0 then inr (Some chain) else
  let part := u32 (4096 - Z.land addr 4095) in
  let part := if rest <? part then rest else part in
  match resolve addr part with
  | None => inr None
  | Some p =>
      match chain_add chain write p part with
      | None => inr None
      | Some chain => inl (u64 (addr + part), u32 (rest - part), chain)
      end
  end.

Definition desc_write (d : vring_desc) : bool := negb (Z.land (d_flags d) VRING_DESC_F_WRITE =? 0).
Definition desc_more (d : vring_desc) : bool := negb (Z.land (d_flags d) VRING_DESC_F_NEXT =? 0).

(** The buffer of one descriptor: in one piece, or page by page. *)
Definition add_desc (chain : cogpu_chain) (d : vring_desc) : option cogpu_chain :=
  if d_len d =? 0 then Some chain else
  let write := desc_write d in
  let added :=
    match resolve (d_addr d) (d_len d) with
    | Some p => chain_add chain write p (d_len d)
    | None =>
        match loop 64 (piece_step write) (d_addr d, d_len d, chain) with
        | inr r => r
        | inl _ => None
        end
    end in
  (fun chain => count_bytes chain write (d_len d)) <$> added.

(** [for (;;)]: one descriptor of the chain; [(i, hops, chain)]. *)
Definition pop_step (m : mem) (vr : cogpu_vring) (st : Z * Z * cogpu_chain) :
    (Z * Z * cogpu_chain) + option cogpu_chain :=
  let '(i, hops, chain) := st in
  match desc_at m vr i with
  | None => inr None
  | Some d =>
      let hops := hops + 1 in
      if s32 (vr_num vr) <? hops then inr None else
      match add_desc chain d with
      | None => inr None
      | Some chain => if negb (desc_more d) then inr (Some chain) else inl (d_next d, hops, chain)
      end
  end.

(** The chain, if one was queued, and the queue after. *)
Definition cogpu_vring_pop (m : mem) (vr : cogpu_vring) : option cogpu_chain * cogpu_vring :=
  if ((vr_desc vr =? 0) || (vr_avail vr =? 0) || (vr_used vr =? 0))%bool then (None, vr) else
  let idx := avail_idx m vr in
  if idx =? vr_last_avail vr then (None, vr) else
  if vr_num vr <? u16 (idx - vr_last_avail vr) then (None, vr) else
  let head := avail_ring m vr (vr_last_avail vr mod vr_num vr) in
  if vr_num vr <=? head then (None, vr) else
  match loop 64 (pop_step m vr) (head, 0, Chain head [] [] 0 0) with
  | inr (Some chain) =>
      (Some chain, Vring (vr_desc vr) (vr_avail vr) (vr_used vr) (vr_num vr)
                     (u16 (vr_last_avail vr + 1)) (vr_used_idx vr))
  | _ => (None, vr)
  end.
End pop.

(** The element, then the index. *)
Definition cogpu_vring_push (m : mem) (vr : cogpu_vring) (chain : cogpu_chain) (written : Z) :
    mem * cogpu_vring :=
  if vr_used vr =? 0 then (m, vr) else
  let slot := u16 (vr_used_idx vr mod vr_num vr) in
  let elem := vr_used vr + 4 + vring_used_elem_bytes * slot in
  let m := store_u32 m elem (c_head chain) in
  let m := store_u32 m (elem + 4) written in
  let idx := u16 (vr_used_idx vr + 1) in
  (store_u16 m (vr_used vr + 2) idx,
   Vring (vr_desc vr) (vr_avail vr) (vr_used vr) (vr_num vr) (vr_last_avail vr) idx).

(** ** The chain as a list of descriptors *)

(** The descriptors from [i] on, at most [n] of them. *)
Fixpoint chain_descs (n : nat) (m : mem) (vr : cogpu_vring) (i : Z) : option (list vring_desc) :=
  match n with
  | O => None
  | S n' =>
      match desc_at m vr i with
      | None => None
      | Some d => if desc_more d then (fun ds => d :: ds) <$> chain_descs n' m vr (d_next d)
                  else Some [d]
      end
  end.

Fixpoint add_descs (resolve : Z -> Z -> option Z) (chain : cogpu_chain) (ds : list vring_desc) :
    option cogpu_chain :=
  match ds with
  | [] => Some chain
  | d :: ds' =>
      match add_desc resolve chain d with
      | None => None
      | Some chain => add_descs resolve chain ds'
      end
  end.

(** The host addresses of the bytes of buffers, in order. *)
Definition buf_bytes (bufs : list cogpu_buf) : list Z :=
  concat ((fun b => seqZ (b_addr b) (b_len b)) <$> bufs).

Lemma buf_bytes_app l l' : buf_bytes (l ++ l') = buf_bytes l ++ buf_bytes l'.
Proof. unfold buf_bytes. by rewrite fmap_app, concat_app. Qed.

Section vring_proofs.
Variable resolve : Z -> Z -> option Z.
Implicit Types (m : mem) (vr : cogpu_vring).

Lemma pop_loop m vr i chain :
  0 <= vr_num vr < 2 ^ 31 ->
  loop 64 (pop_step resolve m vr) (i, 0, chain) =
    inr (match chain_descs (Z.to_nat (vr_num vr)) m vr i with
         | None => None
         | Some ds => add_descs resolve chain ds
         end).
Proof using.
  intros Hn.
  set (goal := match chain_descs (Z.to_nat (vr_num vr)) m vr i with
               | None => None | Some ds => add_descs resolve chain ds end).
  destruct (loop_total (pop_step resolve m vr)
    (fun st => let '(i, h, c) := st in 0 <= h <= vr_num vr /\
       match chain_descs (Z.to_nat (vr_num vr - h)) m vr i with
       | None => None | Some ds => add_descs resolve c ds end = goal)
    (fun r => r = goal) (fun st => vr_num vr - st.1.2 + 1) 64 (i, 0, chain))
    as (r & -> & ->); [|split; [lia|by rewrite Z.sub_0_r]|cbn; lia|done].
  assert (s32 (vr_num vr) = vr_num vr) as Es by (apply signed_small; lia).
  intros [[i' h] c] [Hh Hg]. cbn [fst snd]. unfold pop_step. rewrite Es.
  destruct (desc_at m vr i') as [d|] eqn:Ed.
  - destruct (Z.ltb_spec (vr_num vr) (h + 1)) as [Hlt|Hge].
    { replace (Z.to_nat (vr_num vr - h)) with O in Hg by lia. done. }
    replace (Z.to_nat (vr_num vr - h)) with (S (Z.to_nat (vr_num vr - (h + 1)))) in Hg by lia.
    cbn [chain_descs] in Hg. rewrite Ed in Hg. destruct (desc_more d) eqn:Em; cbn [negb] in *.
    + destruct (chain_descs _ m vr (d_next d)) as [ds|] eqn:Eds; cbn in Hg.
      * destruct (add_desc resolve c d) as [c'|]; [|done]. cbn [fst snd]. rewrite Eds.
        split; [split; [lia|done]|lia].
      * destruct (add_desc resolve c d) as [c'|]; [|done]. cbn [fst snd]. rewrite Eds.
        split; [split; [lia|done]|lia].
    + cbn in Hg. by destruct (add_desc resolve c d) as [c'|].
  - destruct (Z.to_nat (vr_num vr - h)) as [|n']; [done|]. cbn [chain_descs] in Hg.
    by rewrite Ed in Hg.
Qed.

(** ** The bytes of a chain *)

(** [host g]: where the guest's byte [g] is. The resolver tells the truth. *)
Definition resolves (host : Z -> option Z) : Prop :=
  forall g len p, resolve g len = Some p -> 0 < p /\ p + len <= 2 ^ 64 /\
    forall k, 0 <= k < len -> host (u64 (g + k)) = Some (p + k).

Variable host : Z -> option Z.

Definition bufs_ok (l : list cogpu_buf) : Prop :=
  Z.of_nat (length l) <= COGPU_MAX_CHAIN /\
  Forall (fun b => 0 < b_addr b /\ 0 <= b_len b < 2 ^ 32 /\ b_addr b + b_len b <= 2 ^ 64) l.

Lemma buf_add_bytes l p len l' :
  bufs_ok l -> 0 < p -> 0 < len < 2 ^ 32 -> p + len <= 2 ^ 64 -> buf_add l p len = Some l' ->
  bufs_ok l' /\ buf_bytes l' = buf_bytes l ++ seqZ p len.
Proof using.
  intros [Hlen Hall] Hp Hl Hend. unfold buf_add.
  assert (forall l', (if COGPU_MAX_CHAIN <=? Z.of_nat (length l) then None
                      else Some (l ++ [Buf p len])) = Some l' ->
          bufs_ok l' /\ buf_bytes l' = buf_bytes l ++ seqZ p len) as Happ.
  { intros l1. case_cond; [done|]. intros [= <-]. split.
    - split; [rewrite length_app; cbn; lia|]. apply Forall_app. split; [done|].
      constructor; [|constructor]. cbn. lia.
    - rewrite buf_bytes_app. f_equal. unfold buf_bytes. cbn. by rewrite app_nil_r. }
  destruct (last l) as [b|] eqn:Elast; [|apply Happ].
  apply last_Some in Elast as [front ->]. rewrite length_app in *. cbn [length] in *.
  apply Forall_app in Hall as [Hfront Hb]. apply Forall_cons in Hb as [(Hb1 & Hb2 & Hb3) _].
  case_cond; [|apply Happ]. intros [= <-].
  assert (u64 (b_addr b + b_len b) = b_addr b + b_len b) as Hno.
  { destruct (decide (b_addr b + b_len b = 2 ^ 64)) as [E|Hne]; [|apply u64_small; lia].
    match goal with E2 : u64 _ = p |- _ => rewrite E in E2; vm_compute in E2; lia end. }
  replace (length front + 1 - 1)%nat with (length front) by lia. rewrite take_app_length.
  unfold UINT32_MAX in *. split.
  - split; [rewrite length_app; cbn; lia|]. apply Forall_app. split; [done|].
    constructor; [|constructor]. cbn. lia.
  - rewrite !buf_bytes_app, <- app_assoc. f_equal. unfold buf_bytes. cbn. rewrite !app_nil_r.
    rewrite seqZ_app by lia. f_equal. f_equal. lia.
Qed.

(** Both lists of a chain, by direction. *)
Definition dir (chain : cogpu_chain) (write : bool) : list cogpu_buf :=
  if write then c_out chain else c_in chain.
Definition dir_bytes (chain : cogpu_chain) (write : bool) : Z :=
  if write then c_out_bytes chain else c_in_bytes chain.

(** [chain'] is [chain] with the bytes [hs] on one side. *)
Record extends (chain : cogpu_chain) (write : bool) (hs : list (option Z))
    (chain' : cogpu_chain) : Prop := {
  ex_head : c_head chain' = c_head chain;
  ex_ok b : bufs_ok (dir chain b) -> bufs_ok (dir chain' b);
  ex_new : bufs_ok (dir chain write) ->
    Some <$> buf_bytes (dir chain' write) = (Some <$> buf_bytes (dir chain write)) ++ hs;
  ex_old : dir chain' (negb write) = dir chain (negb write);
  ex_count b : dir_bytes chain' b = dir_bytes chain b;
}.

Lemma extends_refl chain write : extends chain write [] chain.
Proof using. split; try done. by rewrite app_nil_r. Qed.

Lemma extends_trans c0 write hs c1 hs' c2 :
  extends c0 write hs c1 -> extends c1 write hs' c2 -> extends c0 write (hs ++ hs') c2.
Proof using.
  intros [H1 O1 N1 D1 C1] [H2 O2 N2 D2 C2]. split; [congruence|auto| |congruence|].
  - intros Hok. rewrite N2 by auto. by rewrite N1, <- app_assoc.
  - intros b. by rewrite C2, C1.
Qed.

(** The addresses of [len] bytes from [addr] on. *)
Definition run_hosts (addr len : Z) : list (option Z) :=
  (fun k => host (u64 (addr + k))) <$> seqZ 0 len.

Lemma run_hosts_app addr a b :
  0 <= a -> 0 <= b -> run_hosts addr (a + b) = run_hosts addr a ++ run_hosts (u64 (addr + a)) b.
Proof using.
  intros Ha Hb. unfold run_hosts. rewrite seqZ_app, fmap_app by lia. f_equal.
  apply list_eq. intros i. rewrite !list_lookup_fmap. destruct (decide (Z.of_nat i < b)).
  - rewrite !lookup_seqZ_lt by lia. cbn. do 2 f_equal. unfold u64. rewrite Zplus_mod_idemp_l.
    f_equal. lia.
  - by rewrite !lookup_seqZ_ge by lia.
Qed.

Lemma chain_add_extends chain write addr len p chain' :
  resolves host -> 0 < len < 2 ^ 32 -> resolve addr len = Some p ->
  chain_add chain write p len = Some chain' -> extends chain write (run_hosts addr len) chain'.
Proof using.
  intros Hres Hlen Hr Hadd. destruct (Hres _ _ _ Hr) as (Hp & Hend & Hhost).
  assert (run_hosts addr len = Some <$> seqZ p len) as Eh.
  { unfold run_hosts. apply list_eq. intros i. rewrite !list_lookup_fmap.
    destruct (decide (Z.of_nat i < len)).
    - rewrite !lookup_seqZ_lt by lia. cbn. f_equal. rewrite <- Hhost by lia. do 2 f_equal.
    - by rewrite !lookup_seqZ_ge by lia. }
  unfold chain_add in Hadd. destruct write.
  - destruct (buf_add (c_out chain) p len) as [l|] eqn:El; [|done]. cbn in Hadd. simplify_eq.
    split; try done.
    + intros [|]; cbn; [|done]. intros Hok. by apply (buf_add_bytes _ _ _ _ Hok Hp Hlen Hend El).
    + cbn [dir c_in c_out]. intros Hok. destruct (buf_add_bytes _ _ _ _ Hok Hp Hlen Hend El) as [_ ->].
      by rewrite fmap_app, Eh.
  - destruct (buf_add (c_in chain) p len) as [l|] eqn:El; [|done]. cbn in Hadd. simplify_eq.
    split; try done.
    + intros [|]; cbn; [done|]. intros Hok. by apply (buf_add_bytes _ _ _ _ Hok Hp Hlen Hend El).
    + cbn [dir c_in c_out]. intros Hok. destruct (buf_add_bytes _ _ _ _ Hok Hp Hlen Hend El) as [_ ->].
      by rewrite fmap_app, Eh.
Qed.

(** The page loop ends, and what it adds is the run it was given. *)
Lemma piece_loop write addr len chain :
  0 <= len < 2 ^ 32 ->
  exists r, loop 64 (piece_step resolve write) (addr, len, chain) = inr r /\
    (resolves host -> forall chain', r = Some chain' -> extends chain write (run_hosts addr len) chain').
Proof using.
  intros Hlen.
  destruct (loop_total (piece_step resolve write)
    (fun st => let '(a, l, c) := st in 0 <= l < 2 ^ 32 /\
       (resolves host -> exists hs, extends chain write hs c /\
          run_hosts addr len = hs ++ run_hosts a l))
    (fun r => resolves host -> forall chain', r = Some chain' ->
       extends chain write (run_hosts addr len) chain')
    (fun st => st.1.2) 64 (addr, len, chain)) as (r & Hr & HQ).
  - intros [[a l] c] [Hl Hext]. unfold piece_step. cbn [fst snd].
    destruct (Z.eqb_spec l 0) as [->|Hne].
    { intros Hres c' [= <-]. destruct (Hext Hres) as (hs & He & ->). by rewrite app_nil_r. }
    change 4095 with (2 ^ 12 - 1). rewrite land_mask by lia.
    pose proof (Z.mod_pos_bound a (2 ^ 12) ltac:(done)) as Hm.
    rewrite (u32_small (4096 - a mod 2 ^ 12)) by lia.
    set (part := if l <? 4096 - a mod 2 ^ 12 then l else 4096 - a mod 2 ^ 12).
    assert (0 < part <= l) as Hp by (unfold part; destruct (Z.ltb_spec l (4096 - a mod 2 ^ 12)); lia).
    clearbody part. destruct (resolve a part) as [p|] eqn:Er; [|done].
    destruct (chain_add c write p part) as [c'|] eqn:Ea; [|done].
    rewrite (u32_small (l - part)) by lia. cbn [fst snd]. split; [|lia]. split; [lia|]. intros Hres.
    destruct (Hext Hres) as (hs & He & Erun). exists (hs ++ run_hosts a part). split.
    + eapply extends_trans; [exact He|]. by eapply chain_add_extends; [done|lia|..].
    + rewrite Erun, <- app_assoc. f_equal. rewrite <- run_hosts_app by lia. f_equal. lia.
  - split; [done|]. intros _. exists []. split; [apply extends_refl|done].
  - cbn. lia.
  - by exists r.
Qed.

(** *** One descriptor, and all of them *)

(** What the descriptors of one direction cover, and how much. *)
Fixpoint side_hosts (write : bool) (ds : list vring_desc) : list (option Z) :=
  match ds with
  | [] => []
  | d :: ds' => (if decide (desc_write d = write) then run_hosts (d_addr d) (d_len d) else [])
                ++ side_hosts write ds'
  end.

Fixpoint side_len (write : bool) (ds : list vring_desc) : Z :=
  match ds with
  | [] => 0
  | d :: ds' => (if decide (desc_write d = write) then d_len d else 0) + side_len write ds'
  end.

Definition desc_ok (d : vring_desc) : Prop := 0 <= d_len d < 2 ^ 32.
Definition chain_ok (c : cogpu_chain) : Prop := forall b, bufs_ok (dir c b) /\ 0 <= dir_bytes c b < 2 ^ 32.

Lemma add_desc_bytes chain d chain' :
  resolves host -> desc_ok d -> chain_ok chain -> add_desc resolve chain d = Some chain' ->
  chain_ok chain' /\ c_head chain' = c_head chain /\ forall b,
    Some <$> buf_bytes (dir chain' b) = (Some <$> buf_bytes (dir chain b)) ++ side_hosts b [d] /\
    dir_bytes chain' b = u32 (dir_bytes chain b + side_len b [d]).
Proof using.
  intros Hres Hd Hc. unfold add_desc. destruct (Z.eqb_spec (d_len d) 0) as [Hz|Hz].
  { intros [= <-]. split; [done|]. split; [done|]. intros b. cbn [side_hosts side_len].
    rewrite Hz. rewrite app_nil_r. split.
    - unfold run_hosts. cbn. destruct (decide _); by rewrite app_nil_r.
    - rewrite Z.add_0_r. destruct (decide _); rewrite Z.add_0_r; symmetry; apply u32_small, Hc. }
  set (added := match resolve (d_addr d) (d_len d) with Some p => _ | None => _ end).
  assert (forall c, added = Some c ->
            extends chain (desc_write d) (run_hosts (d_addr d) (d_len d)) c) as Hadd.
  { intros c. unfold added. destruct (resolve (d_addr d) (d_len d)) as [p|] eqn:Er.
    - intros Ha. eapply chain_add_extends; [done| |exact Er|exact Ha]. unfold desc_ok in Hd. lia.
    - destruct (piece_loop (desc_write d) (d_addr d) (d_len d) chain Hd) as (r & -> & Hr). by apply Hr. }
  destruct added as [c|]; [|done]. cbn. intros [= <-].
  destruct (Hadd c eq_refl) as [Eh Eok Enew Eold Ecount].
  assert (forall b, dir (count_bytes c (desc_write d) (d_len d)) b = dir c b) as Edir
    by (intros b; unfold count_bytes; by destruct (desc_write d), b).
  assert (forall b, dir_bytes (count_bytes c (desc_write d) (d_len d)) b =
            if decide (desc_write d = b) then u32 (dir_bytes c b + d_len d) else dir_bytes c b) as Ecnt
    by (intros b; unfold count_bytes; by destruct (desc_write d), b).
  split; [|split].
  - intros b. rewrite Edir, Ecnt. split; [apply Eok, Hc|].
    destruct (decide _); [apply u32_range|]. rewrite Ecount. apply Hc.
  - rewrite <- Eh. unfold count_bytes. by destruct (desc_write d).
  - intros b. rewrite Edir, Ecnt. cbn [side_hosts side_len]. rewrite app_nil_r, Z.add_0_r.
    destruct (decide (desc_write d = b)) as [<-|Hne].
    + rewrite Ecount. split; [apply Enew, Hc|done].
    + assert (b = negb (desc_write d)) as -> by (by destruct b, (desc_write d)).
      rewrite Eold, app_nil_r, Z.add_0_r, Ecount. split; [done|]. symmetry. apply u32_small, Hc.
Qed.

Lemma add_descs_bytes ds chain chain' :
  resolves host -> Forall desc_ok ds -> chain_ok chain -> add_descs resolve chain ds = Some chain' ->
  chain_ok chain' /\ c_head chain' = c_head chain /\ forall b,
    Some <$> buf_bytes (dir chain' b) = (Some <$> buf_bytes (dir chain b)) ++ side_hosts b ds /\
    dir_bytes chain' b = u32 (dir_bytes chain b + side_len b ds).
Proof using.
  intros Hres. revert chain. induction ds as [|d ds IH]; intros chain Hds Hc; cbn [add_descs].
  { intros [= <-]. split; [done|]. split; [done|]. intros b. cbn. rewrite app_nil_r, Z.add_0_r.
    split; [done|]. symmetry. apply u32_small, Hc. }
  apply Forall_cons in Hds as [Hd Hds]. destruct (add_desc resolve chain d) as [c|] eqn:Ea; [|done].
  intros Hrest. destruct (add_desc_bytes _ _ _ Hres Hd Hc Ea) as (Hc1 & Hh1 & Hb1).
  destruct (IH c Hds Hc1 Hrest) as (Hc2 & Hh2 & Hb2). split; [done|]. split; [congruence|].
  intros b. destruct (Hb1 b) as [E1 C1], (Hb2 b) as [E2 C2]. split.
  - rewrite E2, E1. cbn [side_hosts]. by rewrite app_nil_r, <- app_assoc.
  - rewrite C2, C1. cbn [side_len]. rewrite u32_add_wrap_l. f_equal. lia.
Qed.

Lemma load_u16_range m a : 0 <= load_u16 m a < 2 ^ 16.
Proof using.
  pose proof (le_join_range (load_bytes m a 2)) as H. rewrite length_load_bytes in H. exact H.
Qed.

Lemma chain_descs_ok n m vr i ds :
  chain_descs n m vr i = Some ds -> Forall desc_ok ds /\ (length ds <= n)%nat.
Proof using.
  revert i ds. induction n as [|n IH]; intros i ds; cbn [chain_descs]; [done|].
  unfold desc_at. destruct (vr_num vr <=? i); [done|].
  set (d := read_desc m _). assert (desc_ok d) as Hd by apply load_u32_range.
  destruct (desc_more d).
  - destruct (chain_descs n m vr (d_next d)) as [l|] eqn:El; [|done]. cbn. intros [= <-].
    destruct (IH _ _ El) as [H1 H2]. split; [by constructor|]. cbn. lia.
  - intros [= <-]. split; [constructor; [done|constructor]|]. cbn. lia.
Qed.

(** What the ring offers next, if it can be trusted. *)
Definition offered m vr : option Z :=
  if ((vr_desc vr =? 0) || (vr_avail vr =? 0) || (vr_used vr =? 0))%bool then None else
  if avail_idx m vr =? vr_last_avail vr then None else
  if vr_num vr <? u16 (avail_idx m vr - vr_last_avail vr) then None else
  Some (avail_ring m vr (vr_last_avail vr mod vr_num vr)).

Definition popped m vr : option cogpu_chain :=
  match offered m vr with
  | None => None
  | Some head =>
      match chain_descs (Z.to_nat (vr_num vr)) m vr head with
      | None => None
      | Some ds => add_descs resolve (Chain head [] [] 0 0) ds
      end
  end.

Lemma pop_popped m vr :
  0 <= vr_num vr < 2 ^ 31 ->
  cogpu_vring_pop resolve m vr =
    match popped m vr with
    | None => (None, vr)
    | Some chain =>
        (Some chain, Vring (vr_desc vr) (vr_avail vr) (vr_used vr) (vr_num vr)
                       (u16 (vr_last_avail vr + 1)) (vr_used_idx vr))
    end.
Proof using.
  intros Hn. unfold cogpu_vring_pop, popped, offered.
  destruct (_ || _)%bool; [done|]. destruct (_ =? vr_last_avail vr); [done|].
  destruct (vr_num vr <? _); [done|].
  set (head := avail_ring m vr _). destruct (Z.leb_spec (vr_num vr) head) as [Hge|Hlt].
  - assert (desc_at m vr head = None) as Ed
      by (unfold desc_at; by rewrite (proj2 (Z.leb_le _ _))).
    destruct (Z.to_nat (vr_num vr)); cbn [chain_descs]; [done|]. by rewrite Ed.
  - rewrite pop_loop by done. by destruct (chain_descs _ m vr head) as [ds|];
      [destruct (add_descs _ _ ds)|].
Qed.
End vring_proofs.

(** ** Properties *)

(** C33: a popped chain is the guest's chain, byte for byte. When the resolver
    tells the truth, the readable and the writable buffers handed to the
    daemon cover exactly the bytes of the readable and the writable
    descriptors the guest linked from the head it published, in order; the
    byte counts are their sums, no list has more than 256 buffers, and the
    queue moves on by one entry. *)
Theorem vring_pop_is_chain resolve host m vr chain vr' :
  resolves resolve host -> 0 <= vr_num vr < 2 ^ 31 ->
  cogpu_vring_pop resolve m vr = (Some chain, vr') ->
  exists ds, offered m vr = Some (c_head chain) /\
    chain_descs (Z.to_nat (vr_num vr)) m vr (c_head chain) = Some ds /\
    (forall b, Some <$> buf_bytes (dir chain b) = side_hosts host b ds /\
               dir_bytes chain b = u32 (side_len b ds) /\
               Z.of_nat (length (dir chain b)) <= COGPU_MAX_CHAIN) /\
    vr' = Vring (vr_desc vr) (vr_avail vr) (vr_used vr) (vr_num vr)
            (u16 (vr_last_avail vr + 1)) (vr_used_idx vr).
Proof.
  intros Hres Hn Hpop. rewrite pop_popped in Hpop by done. unfold popped in Hpop.
  destruct (offered m vr) as [head|] eqn:Eo; [|done].
  destruct (chain_descs _ m vr head) as [ds|] eqn:Eds; [|done].
  destruct (add_descs resolve _ ds) as [c|] eqn:Ea; [|done]. simplify_eq.
  destruct (chain_descs_ok _ _ _ _ _ Eds) as [Hok _].
  assert (chain_ok (Chain head [] [] 0 0)) as H0
    by (intros [|]; (split; [split; [done|constructor]|done])).
  destruct (add_descs_bytes resolve host ds _ _ Hres Hok H0 Ea) as (Hc & Hh & Hb). cbn in Hh.
  subst head. exists ds. split; [done|]. split; [done|]. split; [|done]. intros b.
  destruct (Hb b) as [E1 E2]. split; [|split; [|apply Hc]].
  - rewrite E1. by destruct b.
  - rewrite E2. by destruct b.
Qed.

(** C39: popping always answers. Whatever the guest wrote, the walk over the
    descriptors ends within the size of the table and the split of a
    descriptor into pages ends too; a chain that loops or leaves the table
    yields nothing, and a pop that yields nothing leaves the queue as it was. *)
Theorem vring_pop_answers resolve m vr :
  0 <= vr_num vr < 2 ^ 31 ->
  (forall i chain, exists r, loop 64 (pop_step resolve m vr) (i, 0, chain) = inr r) /\
  (forall write addr len chain, 0 <= len < 2 ^ 32 ->
     exists r, loop 64 (piece_step resolve write) (addr, len, chain) = inr r) /\
  (forall head, offered m vr = Some head ->
     chain_descs (Z.to_nat (vr_num vr)) m vr head = None ->
     cogpu_vring_pop resolve m vr = (None, vr)) /\
  ((cogpu_vring_pop resolve m vr).1 = None -> (cogpu_vring_pop resolve m vr).2 = vr).
Proof.
  intros Hn. split; [|split; [|split]].
  - intros i chain. rewrite pop_loop by done. by eexists.
  - intros write addr len chain Hl.
    destruct (piece_loop resolve (fun _ => None) write addr len chain Hl) as (r & -> & _). by exists r.
  - intros head Ho Hd. rewrite pop_popped by done. unfold popped. by rewrite Ho, Hd.
  - rewrite pop_popped by done. by destruct (popped resolve m vr).
Qed.

(** A chain that is refused blocks its queue. Once the chain at the
    consumer's position has been turned down, every later pop turns down
    everything, whatever else the guest publishes, until the guest rewrites
    that very chain. *)
Theorem vring_refused_blocks resolve m m' vr head :
  0 <= vr_num vr < 2 ^ 31 -> offered m vr = Some head ->
  cogpu_vring_pop resolve m vr = (None, vr) ->
  avail_ring m' vr (vr_last_avail vr mod vr_num vr) = head ->
  chain_descs (Z.to_nat (vr_num vr)) m' vr head = chain_descs (Z.to_nat (vr_num vr)) m vr head ->
  cogpu_vring_pop resolve m' vr = (None, vr).
Proof.
  intros Hn Ho Hpop Hhead Hd. rewrite pop_popped in * by done. unfold popped in *. rewrite Ho in Hpop.
  assert (offered m' vr = None \/ offered m' vr = Some head) as [->| ->]; [|done|].
  { unfold offered. rewrite Hhead. repeat case_cond; auto. }
  rewrite Hd. exact Hpop.
Qed.

(** A completion is published whole. After a push the guest finds at the
    used index it knew the head and the length, the index one further on, and
    every other byte of memory as before. *)
Theorem vring_push_publishes m vr chain written :
  vr_used vr <> 0 -> 0 < vr_num vr <= 2 ^ 16 -> 0 <= vr_used_idx vr < 2 ^ 16 ->
  0 <= c_head chain < 2 ^ 32 -> 0 <= written < 2 ^ 32 ->
  let '(m', vr') := cogpu_vring_push m vr chain written in
  let elem := vr_used vr + 4 + 8 * (vr_used_idx vr mod vr_num vr) in
  load_u32 m' elem = c_head chain /\ load_u32 m' (elem + 4) = written /\
  load_u16 m' (vr_used vr + 2) = u16 (vr_used_idx vr + 1) /\
  vr_used_idx vr' = u16 (vr_used_idx vr + 1) /\ vr_last_avail vr' = vr_last_avail vr /\
  forall x, ~ (elem <= x < elem + 8) -> ~ (vr_used vr + 2 <= x < vr_used vr + 4) -> m' x = m x.
Proof.
  intros Hu Hn Hi Hh Hw. unfold cogpu_vring_push. rewrite (proj2 (Z.eqb_neq _ 0)) by done.
  unfold vring_used_elem_bytes.
  pose proof (Z.mod_pos_bound (vr_used_idx vr) (vr_num vr) ltac:(lia)) as Hm.
  rewrite (u16_small (_ mod _)) by lia. cbn zeta.
  set (elem := vr_used vr + 4 + 8 * (vr_used_idx vr mod vr_num vr)).
  assert (vr_used vr + 4 <= elem) as He by lia.
  assert (forall m0 v a, vr_used vr + 4 <= a ->
    load_u32 (store_u16 m0 (vr_used vr + 2) v) a = load_u32 m0 a) as Hidx
    by (intros m0 v a Ha; unfold load_u32, store_u16; rewrite load_bytes_store_ne; [done|];
        rewrite length_le_bytes; lia).
  split; [|split; [|split; [|split; [done|split; [done|]]]]].
  - rewrite Hidx, load_u32_store_ne, load_u32_store_eq by lia. by apply u32_small.
  - rewrite Hidx, load_u32_store_eq by lia. by apply u32_small.
  - unfold load_u16, store_u16. set (m2 := store_u32 _ (elem + 4) written).
    pose proof (load_bytes_store_eq m2 (vr_used vr + 2) (le_bytes 2 (u16 (vr_used_idx vr + 1)))
      (le_bytes_bytes _ _)) as E. rewrite length_le_bytes in E. change (Z.of_nat 2) with 2 in E.
    rewrite E, le_join_bytes. apply u16_small, u16_range.
  - intros x H1 H2. unfold store_u16, store_u32, store_bytes. rewrite !length_le_bytes.
    by rewrite !decide_False by lia.
Qed.
