(* ===== verification/Mmu.v ===== *)
(** Long-mode paging geometry ([arch/x86_64/mmu.h]): page and table sizes, the
    index of an address at each level, the bits of an entry, canonical
    addresses, and the arithmetic of masks the page walks rely on. *)
From S2P Require Import Prelude.

Definition CO_PAGE_PRESENT : Z := 0x001.
Definition CO_PAGE_RW : Z := 0x002.
Definition CO_PAGE_ACCESSED : Z := 0x020.
Definition CO_PAGE_DIRTY : Z := 0x040.
Definition CO_PAGE_PSE : Z := 0x080.
Definition CO_PAGE_GLOBAL : Z := 0x100.
Definition CO_ARCH_PAGE_NX : Z := 0x8000000000000000.

Definition KERNPG_TABLE : Z :=
  Z.lor (Z.lor (Z.lor CO_PAGE_PRESENT CO_PAGE_RW) CO_PAGE_ACCESSED) CO_PAGE_DIRTY.

Definition CO_ARCH_PAGE_SHIFT : Z := 12.
Definition CO_ARCH_PAGE_SIZE : Z := 2 ^ CO_ARCH_PAGE_SHIFT.
(** [~((unsigned long long)(CO_ARCH_PAGE_SIZE - 1))] *)
Definition CO_ARCH_PAGE_MASK : Z := u64 (Z.lnot (CO_ARCH_PAGE_SIZE - 1)).

Definition CO_ARCH_PTE_SHIFT : Z := 12.
Definition CO_ARCH_PMD_SHIFT : Z := 21.
Definition CO_ARCH_PUD_SHIFT : Z := 30.
Definition CO_ARCH_PGD_SHIFT : Z := 39.
Definition CO_ARCH_PTRS_PER_PTE : Z := 512.

Definition CO_ARCH_PMD_SIZE : Z := 2 ^ CO_ARCH_PMD_SHIFT.
Definition CO_ARCH_PMD_MASK : Z := u64 (Z.lnot (CO_ARCH_PMD_SIZE - 1)).

Definition CO_ARCH_PTE_INDEX (va : Z) : Z :=
  Z.land (Z.shiftr va CO_ARCH_PTE_SHIFT) (CO_ARCH_PTRS_PER_PTE - 1).
Definition CO_ARCH_PMD_INDEX (va : Z) : Z :=
  Z.land (Z.shiftr va CO_ARCH_PMD_SHIFT) (CO_ARCH_PTRS_PER_PTE - 1).
Definition CO_ARCH_PUD_INDEX (va : Z) : Z :=
  Z.land (Z.shiftr va CO_ARCH_PUD_SHIFT) (CO_ARCH_PTRS_PER_PTE - 1).
Definition CO_ARCH_PGD_INDEX (va : Z) : Z :=
  Z.land (Z.shiftr va CO_ARCH_PGD_SHIFT) (CO_ARCH_PTRS_PER_PTE - 1).

Definition CO_ARCH_DIRECT_MAP : Z := 0xffff888000000000.
Definition CO_ARCH_KERNEL_MAP : Z := 0xffffffff80000000.

Definition CO_ARCH_VA_CANONICAL (va : Z) : bool :=
  ((Z.shiftr va 47 =? 0) || (Z.shiftr va 47 =? 0x1ffff))%bool.

(** ** Arithmetic of the masks *)

Lemma land_page_mask x :
  0 <= x < 2 ^ 64 -> Z.land x CO_ARCH_PAGE_MASK = x - x mod 2 ^ 12.
Proof.
  intros Hx. rewrite <- ldiff_mask by lia.
  apply Z.bits_inj_iff'. intros i Hi.
  rewrite Z.land_spec, Z.ldiff_spec.
  replace CO_ARCH_PAGE_MASK with (Z.ldiff (2 ^ 64 - 1) (2 ^ 12 - 1)) by done.
  rewrite Z.ldiff_spec.
  destruct (decide (i < 64)) as [Hlt|Hge].
  - replace (2 ^ 64 - 1) with (Z.ones 64) by done.
    rewrite Z.ones_spec_low by lia. by rewrite andb_true_l.
  - rewrite <- (Z.mod_small x (2 ^ 64)) by lia.
    rewrite Z.mod_pow2_bits_high by lia. done.
Qed.

(** [pa & ~CO_ARCH_PAGE_MASK] is the offset in the page. *)
Definition page_off (x : Z) : Z := Z.land x (Z.lnot CO_ARCH_PAGE_MASK).

Lemma page_off_eq x : 0 <= x < 2 ^ 64 -> page_off x = x mod 2 ^ 12.
Proof.
  intros Hx. unfold page_off. rewrite <- Z.ldiff_land.
  apply Z.bits_inj_iff'. intros i Hi. rewrite Z.ldiff_spec.
  replace CO_ARCH_PAGE_MASK with (Z.ldiff (2 ^ 64 - 1) (2 ^ 12 - 1)) by done.
  rewrite Z.ldiff_spec.
  replace (2 ^ 64 - 1) with (Z.ones 64) by done.
  replace (2 ^ 12 - 1) with (Z.ones 12) by done.
  destruct (decide (i < 12)).
  - rewrite (Z.ones_spec_low 12), Z.mod_pow2_bits_low by lia.
    by rewrite andb_false_r, andb_true_r.
  - rewrite (Z.ones_spec_high 12), Z.mod_pow2_bits_high by lia.
    destruct (decide (i < 64)).
    + rewrite Z.ones_spec_low by lia. by rewrite andb_false_r.
    + rewrite <- (Z.mod_small x (2 ^ 64)) by lia.
      by rewrite Z.mod_pow2_bits_high by lia.
Qed.

Lemma index_eq va s :
  Z.land (Z.shiftr va s) (CO_ARCH_PTRS_PER_PTE - 1) = Z.shiftr va s mod 2 ^ 9.
Proof. change (CO_ARCH_PTRS_PER_PTE - 1) with (2 ^ 9 - 1). by apply land_mask. Qed.

(** ** Page-table entries *)

Definition entry_present (e : Z) : bool := negb (Z.land e CO_PAGE_PRESENT =? 0).
Definition entry_pse (e : Z) : bool := negb (Z.land e CO_PAGE_PSE =? 0).

(** [entry & CO_ARCH_PAGE_MASK & ~CO_ARCH_PAGE_NX] *)
Definition entry_pa (e : Z) : Z :=
  Z.land (Z.land e CO_ARCH_PAGE_MASK) (Z.lnot CO_ARCH_PAGE_NX).

Definition entry_pfn (e : Z) : Z := Z.shiftr (entry_pa e) CO_ARCH_PAGE_SHIFT.

(** The entry the map functions install for a lower table. *)
Definition table_entry (pfn : Z) : Z :=
  Z.lor (u64 (Z.shiftl pfn CO_ARCH_PAGE_SHIFT)) KERNPG_TABLE.

Lemma entry_pa_eq e :
  0 <= e < 2 ^ 64 -> entry_pa e = e mod 2 ^ 63 - e mod 2 ^ 12.
Proof.
  intros He. unfold entry_pa. rewrite land_page_mask by done.
  rewrite <- Z.ldiff_land.
  assert (0 <= e - e mod 2 ^ 12 < 2 ^ 64) as Hr
    by (Z.div_mod_to_equations; lia).
  transitivity ((e - e mod 2 ^ 12) mod 2 ^ 63).
  - set (y := e - e mod 2 ^ 12) in *.
    apply Z.bits_inj_iff'. intros i Hi. rewrite Z.ldiff_spec.
    change CO_ARCH_PAGE_NX with (2 ^ 63). rewrite Z.pow2_bits_eqb by lia.
    destruct (decide (i < 63)).
    + rewrite Z.mod_pow2_bits_low by lia.
      rewrite (proj2 (Z.eqb_neq 63 i)) by lia. by rewrite andb_true_r.
    + rewrite Z.mod_pow2_bits_high by lia.
      destruct (decide (i = 63)) as [->|].
      * rewrite Z.eqb_refl. by rewrite andb_false_r.
      * rewrite <- (Z.mod_small y (2 ^ 64)) by lia.
        by rewrite Z.mod_pow2_bits_high by lia.
  - Z.div_mod_to_equations; lia.
Qed.

Lemma lor_low_flags x f :
  x mod 2 ^ 12 = 0 -> 0 <= f < 2 ^ 12 -> Z.lor x f = x + f.
Proof. intros. by apply (lor_disjoint_add f x 12). Qed.

Lemma table_entry_eq pfn :
  0 <= pfn < 2 ^ 51 -> table_entry pfn = pfn * 2 ^ 12 + KERNPG_TABLE.
Proof.
  intros Hp. unfold table_entry, CO_ARCH_PAGE_SHIFT.
  rewrite Z.shiftl_mul_pow2 by lia. rewrite u64_small by lia.
  apply lor_low_flags; [apply Z.mod_mul; lia|done].
Qed.

Lemma land_bit_mod e k :
  0 <= k -> Z.land e (2 ^ k) = 2 ^ k * ((e / 2 ^ k) mod 2).
Proof.
  intros Hk. apply Z.bits_inj_iff'. intros i Hi.
  rewrite Z.land_spec, Z.pow2_bits_eqb by done.
  rewrite (Z.mul_comm (2 ^ k)), <- Z.shiftl_mul_pow2, Z.shiftl_spec by lia.
  rewrite <- Z.shiftr_div_pow2 by done.
  change (Z.shiftr e k mod 2) with (Z.shiftr e k mod 2 ^ 1).
  destruct (decide (i = k)) as [->|Hne].
  - rewrite Z.sub_diag, Z.eqb_refl, andb_true_r.
    rewrite Z.mod_pow2_bits_low by lia. by rewrite Z.shiftr_spec by lia.
  - rewrite (proj2 (Z.eqb_neq k i)), andb_false_r by lia.
    destruct (decide (i < k)).
    + by rewrite Z.testbit_neg_r by lia.
    + by rewrite Z.mod_pow2_bits_high by lia.
Qed.

Lemma entry_present_eq e : entry_present e = bool_decide (e mod 2 = 1).
Proof.
  unfold entry_present. change CO_PAGE_PRESENT with (2 ^ 0).
  rewrite land_bit_mod by lia. rewrite Z.div_1_r.
  pose proof (Z.mod_pos_bound e 2).
  case_bool_decide; destruct (Z.eqb_spec (2 ^ 0 * (e mod 2)) 0); simpl; lia.
Qed.

Lemma entry_pse_eq e : entry_pse e = bool_decide ((e / 2 ^ 7) mod 2 = 1).
Proof.
  unfold entry_pse. change CO_PAGE_PSE with (2 ^ 7).
  rewrite land_bit_mod by lia.
  pose proof (Z.mod_pos_bound (e / 2 ^ 7) 2).
  case_bool_decide; destruct (Z.eqb_spec (2 ^ 7 * ((e / 2 ^ 7) mod 2)) 0);
    simpl; lia.
Qed.

Lemma entry_pa_range e : 0 <= e < 2 ^ 64 -> 0 <= entry_pa e < 2 ^ 63.
Proof. intros He. rewrite entry_pa_eq by done. Z.div_mod_to_equations; lia. Qed.

Section table_entry.
Context (pfn : Z) (Hpfn : 0 <= pfn < 2 ^ 51).

Lemma table_entry_range : 0 <= table_entry pfn < 2 ^ 64.
Proof using Hpfn. rewrite table_entry_eq by done. change KERNPG_TABLE with 99. lia. Qed.

Lemma table_entry_present : entry_present (table_entry pfn) = true.
Proof using Hpfn.
  rewrite table_entry_eq, entry_present_eq by done. change KERNPG_TABLE with 99.
  apply bool_decide_eq_true. Z.div_mod_to_equations; lia.
Qed.

Lemma table_entry_pse : entry_pse (table_entry pfn) = false.
Proof using Hpfn.
  rewrite table_entry_eq, entry_pse_eq by done. change KERNPG_TABLE with 99.
  apply bool_decide_eq_false. Z.div_mod_to_equations; lia.
Qed.

Lemma table_entry_pfn : entry_pfn (table_entry pfn) = pfn.
Proof using Hpfn.
  unfold entry_pfn. rewrite entry_pa_eq by apply table_entry_range.
  rewrite table_entry_eq by done. change KERNPG_TABLE with 99.
  unfold CO_ARCH_PAGE_SHIFT. rewrite Z.shiftr_div_pow2 by lia.
  Z.div_mod_to_equations; lia.
Qed.
End table_entry.

#[export] Hint Rewrite table_entry_present table_entry_pse table_entry_pfn
  using lia : co.

(** ** Leaf entries *)

Lemma lor_range a b n :
  0 <= n -> 0 <= a < 2 ^ n -> 0 <= b < 2 ^ n -> 0 <= Z.lor a b < 2 ^ n.
Proof.
  intros Hn Ha Hb.
  assert (Z.lor a b = Z.lor a b mod 2 ^ n) as ->.
  { rewrite <- Z.land_ones, Z.land_lor_distr_l, !Z.land_ones by done.
    by rewrite !Z.mod_small. }
  apply Z.mod_pos_bound. lia.
Qed.

Lemma entry_pa_lor a b : entry_pa (Z.lor a b) = Z.lor (entry_pa a) (entry_pa b).
Proof. unfold entry_pa. by rewrite !Z.land_lor_distr_l. Qed.

(** Flags that do not touch the address field and mark the entry present. *)
Definition leaf_flags (f : Z) : Prop :=
  0 <= f < 2 ^ 64 /\ f mod 2 ^ 63 < 2 ^ 12 /\ f mod 2 = 1.

(** What [co_arch_guest_map] writes for a page: [(pa & MASK) | flags]. *)
Definition leaf_entry (pa flags : Z) : Z := Z.lor (Z.land pa CO_ARCH_PAGE_MASK) flags.

Lemma leaf_entry_spec pa f :
  0 <= pa < 2 ^ 63 -> leaf_flags f ->
  0 <= leaf_entry pa f < 2 ^ 64 /\ entry_present (leaf_entry pa f) = true /\
  entry_pa (leaf_entry pa f) = pa - pa mod 2 ^ 12.
Proof.
  intros Hpa (Hf & Hlow & Hp). unfold leaf_entry.
  rewrite land_page_mask by lia.
  assert (0 <= pa - pa mod 2 ^ 12 < 2 ^ 63) as HA by (Z.div_mod_to_equations; lia).
  pose proof (lor_range (pa - pa mod 2 ^ 12) f 64 ltac:(lia) ltac:(lia) Hf) as Hr.
  split_and!; [lia|lia| |].
  - unfold entry_present in *. rewrite Z.land_lor_distr_l.
    change CO_PAGE_PRESENT with (2 ^ 0). rewrite (land_bit_mod f), Z.div_1_r, Hp by lia.
    apply negb_true_iff, Z.eqb_neq. intros Hz. apply Z.lor_eq_0_iff in Hz. lia.
  - rewrite entry_pa_lor, !entry_pa_eq by lia.
    assert (f mod 2 ^ 63 - f mod 2 ^ 12 = 0) as ->.
    { rewrite <- (Z.mod_small (f mod 2 ^ 63) (2 ^ 12)) by (Z.div_mod_to_equations; lia).
      rewrite Z.mod_mod_divide; [lia|]. by exists (2 ^ 51). }
    rewrite Z.lor_0_r. rewrite (Z.mod_small _ (2 ^ 63)) by lia.
    assert ((pa - pa mod 2 ^ 12) mod 2 ^ 12 = 0) as ->; [|lia].
    rewrite Zminus_mod_idemp_r, Z.sub_diag. done.
Qed.

Lemma kernpg_leaf_flags : leaf_flags KERNPG_TABLE.
Proof. split_and!; vm_compute; done. Qed.

(** The flags of the direct map and of the translation tables. *)
Lemma direct_leaf_flags :
  leaf_flags (Z.lor (Z.lor KERNPG_TABLE CO_PAGE_GLOBAL) CO_ARCH_PAGE_NX).
Proof. split_and!; vm_compute; done. Qed.

#[export] Hint Resolve kernpg_leaf_flags direct_leaf_flags : co.
