(* ===== verification/Space.v ===== *)
(** Four-level page tables of a guest address space ([arch/x86_64/space.c]).

    The file is generic in where table pages come from. [SpaceEnv] is what the
    code uses of its surroundings: memory, the two hooks of
    [co_arch_guest_space_set_frame_source] and the host's page allocator.
    [SpaceLaws] is the contract those surroundings promise; [Kload] implements
    it with frames carved from guest RAM. The theorems: mapping a page makes
    exactly that page translate to the frame asked for and changes no other
    translation, a failed map changes none at all, and the tables stay a tree. *)
From S2P Require Import Prelude.
From S2P Require Import Rc.
From S2P Require Import Mem.
From S2P Require Import Mmu.

(** [struct co_arch_guest_space] *)
Record co_arch_guest_space := Space { pml4_pfn : Z; tables : Z }.

Definition CO_SPACE_LEVELS : Z := 4.

(** Index at each level, outermost first. *)
Definition co_space_index (va level : Z) : Z :=
  if level =? 0 then CO_ARCH_PGD_INDEX va
  else if level =? 1 then CO_ARCH_PUD_INDEX va
  else if level =? 2 then CO_ARCH_PMD_INDEX va
  else CO_ARCH_PTE_INDEX va.

(** What the page-table code uses: memory, the frame source and the frame
    mapper when a caller installed them, and the host's page functions. *)
Class SpaceEnv (W : Type) := {
  env_mem : W -> mem;
  env_upd_mem : (mem -> mem) -> W -> W;
  co_space_frame_source : W -> option (M W Z);
  co_space_frame_mapper : W -> option (Z -> M W (option Z));
  co_os_get_page : M W Z;
  co_os_put_page : Z -> M W unit;
  co_os_map : Z -> M W (option Z);
  co_os_unmap : Z -> Z -> M W unit;
}.

(** Run an operation of the environment beside a struct of the caller's. *)
Definition lift {W S A} (m : M W A) : M (W * S) A := fun ws =>
  let '(r, w') := m ws.1 in (r, (w', ws.2)).

Lemma wp_lift {W S A} (m : M W A) (Q : A -> W * S -> Prop) E w s :
  wp m (fun a w' => Q a (w', s)) (fun rc w' => E rc (w', s)) w ->
  wp (lift m) Q E (w, s).
Proof. unfold wp, lift. simpl. by destruct (m w) as [[a|rc|] w']. Qed.

Section space_ops.
Context {W : Type} `{SpaceEnv W}.

Definition load_entry (table index : Z) : M W Z :=
  gets (fun w => load_u64 (env_mem w) (table + 8 * index)).

Definition store_entry (table index v : Z) : M W unit :=
  modify (env_upd_mem (fun m => store_u64 m (table + 8 * index) v)).

Definition co_space_map (pfn : Z) : M W (option Z) :=
  mapper ← gets co_space_frame_mapper;
  match mapper with
  | Some f =>
      p ← f pfn;
      match p with
      | Some p => mret (Some p)
      | None => co_os_map pfn
      end
  | None => co_os_map pfn
  end.

Definition co_space_unmap (p pfn : Z) : M W unit :=
  mapper ← gets co_space_frame_mapper;
  match mapper with
  | Some f =>
      q ← f pfn;
      match q with
      | Some _ => mret tt
      | None => co_os_unmap p pfn
      end
  | None => co_os_unmap p pfn
  end.

Definition co_space_new_table : M W Z :=
  source ← gets co_space_frame_source;
  match source with
  | Some src => src
  | None =>
      pfn ← co_os_get_page;
      table ← co_space_map pfn;
      match table with
      | None => co_os_put_page pfn ;; throw CO_RC_ERROR
      | Some table =>
          modify (env_upd_mem (fun m => co_memset m table 0 CO_ARCH_PAGE_SIZE)) ;;
          co_space_unmap table pfn ;;
          mret pfn
      end
  end.

(** [alloc] says whether [co_os_malloc] found room for the struct. *)
Definition co_arch_guest_space_create (alloc : bool) : M W co_arch_guest_space :=
  fail_if (negb alloc) CO_RC_OUT_OF_MEMORY ;;
  pfn ← co_space_new_table;
  mret (Space pfn 1).

Definition co_arch_guest_space_root (space : co_arch_guest_space) : Z :=
  u64 (Z.shiftl (pml4_pfn space) CO_ARCH_PAGE_SHIFT).

Definition co_arch_guest_space_tables (space : co_arch_guest_space) : Z :=
  tables space.

Definition count_table (ws : W * co_arch_guest_space) : W * co_arch_guest_space :=
  (ws.1, Space (pml4_pfn ws.2) (ulong (tables ws.2 + 1))).

(** One turn of the loop of [co_arch_guest_map], at [level] in table [pfn]. *)
Definition guest_map_step (va pa flags : Z) (st : Z * Z) :
    M (W * co_arch_guest_space) ((Z * Z) + unit) :=
  let '(level, pfn) := st in
  if negb (level <? CO_SPACE_LEVELS) then mret (inr tt) else
  let index := co_space_index va level in
  table ← lift (co_space_map pfn);
  match table with
  | None => throw CO_RC_ERROR
  | Some table =>
      if level =? CO_SPACE_LEVELS - 1 then
        lift (store_entry table index (Z.lor (Z.land pa CO_ARCH_PAGE_MASK) flags)) ;;
        lift (co_space_unmap table pfn) ;;
        mret (inr tt)
      else
        entry ← lift (load_entry table index);
        if entry_present entry then
          lift (co_space_unmap table pfn) ;;
          if entry_pse entry then throw CO_RC_ERROR
          else mret (inl (level + 1, entry_pfn entry))
        else
          lift (co_space_unmap table pfn) ;;
          next ← lift co_space_new_table;
          table ← lift (co_space_map pfn);
          match table with
          | None => lift (co_os_put_page next) ;; throw CO_RC_ERROR
          | Some table =>
              (* re-read: somebody may have installed the table meanwhile *)
              entry ← lift (load_entry table index);
              if entry_present entry then
                lift (co_space_unmap table pfn) ;;
                lift (co_os_put_page next) ;;
                mret (inl (level + 1, entry_pfn entry))
              else
                lift (store_entry table index (table_entry next)) ;;
                lift (co_space_unmap table pfn) ;;
                modify count_table ;;
                mret (inl (level + 1, next))
          end
  end.

Definition co_arch_guest_map (va pa flags : Z) : M (W * co_arch_guest_space) unit :=
  fail_if (negb (CO_ARCH_VA_CANONICAL va)) CO_RC_INVALID_PARAMETER ;;
  root ← gets (fun ws => pml4_pfn ws.2);
  mloop (guest_map_step va pa flags) (0, root).

(** The 2 MB variant: the same walk, a level short, setting [_PAGE_PSE]. *)
Definition guest_map_large_step (va pa flags : Z) (st : Z * Z) :
    M (W * co_arch_guest_space) ((Z * Z) + unit) :=
  let '(level, pfn) := st in
  if negb (level <? CO_SPACE_LEVELS - 1) then throw CO_RC_ERROR else
  let index := co_space_index va level in
  table ← lift (co_space_map pfn);
  match table with
  | None => throw CO_RC_ERROR
  | Some table =>
      if level =? CO_SPACE_LEVELS - 2 then
        lift (store_entry table index
                (Z.lor (Z.lor (Z.land pa CO_ARCH_PMD_MASK) flags) CO_PAGE_PSE)) ;;
        lift (co_space_unmap table pfn) ;;
        mret (inr tt)
      else
        entry ← lift (load_entry table index);
        if entry_present entry then
          lift (co_space_unmap table pfn) ;;
          if entry_pse entry then throw CO_RC_ERROR
          else mret (inl (level + 1, entry_pfn entry))
        else
          lift (co_space_unmap table pfn) ;;
          next ← lift co_space_new_table;
          table ← lift (co_space_map pfn);
          match table with
          | None => throw CO_RC_ERROR
          | Some table =>
              entry ← lift (load_entry table index);
              if entry_present entry then
                lift (co_space_unmap table pfn) ;;
                mret (inl (level + 1, entry_pfn entry))
              else
                lift (store_entry table index (table_entry next)) ;;
                lift (co_space_unmap table pfn) ;;
                modify count_table ;;
                mret (inl (level + 1, next))
          end
  end.

Definition co_arch_guest_map_large (va pa flags : Z) :
    M (W * co_arch_guest_space) unit :=
  fail_if (negb (CO_ARCH_VA_CANONICAL va)) CO_RC_INVALID_PARAMETER ;;
  fail_if (negb (Z.land va (CO_ARCH_PMD_SIZE - 1) =? 0)
           || negb (Z.land pa (CO_ARCH_PMD_SIZE - 1) =? 0))%bool
    CO_RC_INVALID_PARAMETER ;;
  root ← gets (fun ws => pml4_pfn ws.2);
  mloop (guest_map_large_step va pa flags) (0, root).

(** A lookup always produces the three values C leaves behind: the code,
    [*pa_out] and [*level_out]. *)
Definition lookup_result : Type := co_rc_value_t * Z * Z.

Definition guest_lookup_step (va : Z) (st : Z * Z) : M W ((Z * Z) + lookup_result) :=
  let '(level, pfn) := st in
  if negb (level <? CO_SPACE_LEVELS) then mret (inr (CO_RC_ERROR, 0, -1)) else
  let index := co_space_index va level in
  table ← co_space_map pfn;
  match table with
  | None => mret (inr (CO_RC_ERROR, 0, -1))
  | Some table =>
      entry ← load_entry table index;
      co_space_unmap table pfn ;;
      if negb (entry_present entry) then mret (inr (CO_RC_NOT_FOUND, 0, level))
      else if level =? CO_SPACE_LEVELS - 1 then
        mret (inr (CO_RC_OK, entry_pa entry, -1))
      else if entry_pse entry then
        (* the base of the large page; the offset inside it is dropped *)
        mret (inr (CO_RC_OK, entry_pa entry, level))
      else mret (inl (level + 1, entry_pfn entry))
  end.

Definition co_arch_guest_lookup_root (root_pfn va : Z) : M W lookup_result :=
  if negb (CO_ARCH_VA_CANONICAL va) then
    mret (CO_RC_INVALID_PARAMETER, 0, -1)
  else mloop (guest_lookup_step va) (0, root_pfn).

Definition co_arch_guest_lookup (space : co_arch_guest_space) (va : Z) :
    M W lookup_result :=
  co_arch_guest_lookup_root (pml4_pfn space) va.

(** [co_space_free_table] at level [3 - n]; the state's second component is
    the counter [*freed]. *)
Fixpoint co_space_free_table (n : nat) (pfn : Z) : M (W * Z) unit :=
  match n with
  | O => mret tt
  | S n' =>
      table ← lift (co_space_map pfn);
      match table with
      | None => mret tt
      | Some table =>
          mfor 512 0 (fun i =>
            entry ← lift (load_entry table i);
            if negb (entry_present entry) then mret tt
            else if entry_pse entry then mret tt
            else co_space_free_table n' (entry_pfn entry)) ;;
          lift (co_space_unmap table pfn)
      end
  end ;;
  source ← gets (fun ws => co_space_frame_source ws.1);
  match source with
  | None => lift (co_os_put_page pfn)
  | Some _ => mret tt
  end ;;
  modify (fun ws => (ws.1, ulong (ws.2 + 1))).

(** Returns the count of tables freed, which the C code compares with
    [space->tables] to report a mismatch. *)
Definition co_arch_guest_space_destroy (space : co_arch_guest_space) : M W Z :=
  fun w => match co_space_free_table 3 (pml4_pfn space) (w, 0) with
           | (Ret _, (w', freed)) => (Ret freed, w')
           | (Fail rc, (w', _)) => (Fail rc, w')
           | (Fault, (w', _)) => (Fault, w')
           end.
End space_ops.

(** ** The contract of the surroundings *)

(** What survives an operation that only looks: memory, the addresses of the
    frames in use, and which frames those are. *)
Definition env_same_on {W} `{SpaceEnv W} (inv : W -> Prop)
    (frame : W -> Z -> option Z) (used : W -> Z -> Prop) (quiet : W -> W -> Prop)
    (w w' : W) : Prop :=
  env_mem w' = env_mem w /\
  (forall p, used w p -> frame w' p = frame w p) /\
  (forall p, used w' p <-> used w p) /\
  inv w' /\ quiet w w'.

(** [env_frame w pfn] is where the frame is visible, [env_used w] the frames
    that may be tables. A table handed out is fresh, zeroed and visible.
    [env_quiet] is what looking at a table may change, [env_step] what mapping
    may: the implementation says what stays the same, the steps add up. *)
Class SpaceLaws (W : Type) `{SpaceEnv W} := {
  env_inv : W -> Prop;
  env_frame : W -> Z -> option Z;
  env_used : W -> Z -> Prop;
  env_quiet : W -> W -> Prop;
  env_step : W -> W -> Prop;
  law_map w pfn :
    env_inv w -> env_used w pfn ->
    exists a w', env_frame w pfn = Some a /\ co_space_map pfn w = (Ret (Some a), w')
                 /\ env_same_on env_inv env_frame env_used env_quiet w w';
  law_unmap w p pfn :
    env_inv w -> env_used w pfn ->
    exists w', co_space_unmap p pfn w = (Ret tt, w')
               /\ env_same_on env_inv env_frame env_used env_quiet w w';
  law_new w :
    env_inv w ->
    match co_space_new_table w with
    | (Ret q, w') =>
        ~ env_used w q /\ (forall p, env_used w' p <-> p = q \/ env_used w p) /\
        (forall p, env_used w p -> env_frame w' p = env_frame w p) /\ env_inv w' /\
        exists a, env_frame w' q = Some a /\
                  env_mem w' = co_memset (env_mem w) a 0 CO_ARCH_PAGE_SIZE
    | (Fail _, w') =>
        env_mem w' = env_mem w /\ (forall p, env_used w p -> env_used w' p) /\
        (forall p, env_used w p -> env_frame w' p = env_frame w p) /\ env_inv w'
    | (Fault, _) => False
    end;
  law_disjoint w p q a b :
    env_inv w -> env_used w p -> env_used w q -> p <> q ->
    env_frame w p = Some a -> env_frame w q = Some b ->
    a + CO_ARCH_PAGE_SIZE <= b \/ b + CO_ARCH_PAGE_SIZE <= a;
  law_upd w f :
    env_inv w ->
    env_mem (env_upd_mem f w) = f (env_mem w) /\ env_inv (env_upd_mem f w) /\
    (forall p, env_frame (env_upd_mem f w) p = env_frame w p) /\
    (forall p, env_used (env_upd_mem f w) p <-> env_used w p);
  law_range w p : env_inv w -> env_used w p -> 0 <= p < 2 ^ 40;
  law_visible w p : env_inv w -> env_used w p -> is_Some (env_frame w p);
  law_quiet_refl w : env_inv w -> env_quiet w w;
  law_quiet_trans w w1 w2 : env_quiet w w1 -> env_quiet w1 w2 -> env_quiet w w2;
  law_step_trans w w1 w2 : env_step w w1 -> env_step w1 w2 -> env_step w w2;
  law_step_quiet w w' : env_inv w -> env_quiet w w' -> env_step w w';
  law_step_new w r w' : env_inv w -> co_space_new_table w = (r, w') -> env_step w w';
  law_step_store w p a i v :
    env_inv w -> env_used w p -> env_frame w p = Some a -> 0 <= i < 512 ->
    env_step w (env_upd_mem (fun m => store_u64 m (a + 8 * i) v) w);
}.

(** ** Indices *)

Lemma co_space_index_eq va level :
  0 <= level <= 3 -> co_space_index va level = va / 2 ^ (39 - 9 * level) mod 2 ^ 9.
Proof.
  intros Hl. unfold co_space_index, CO_ARCH_PGD_INDEX, CO_ARCH_PUD_INDEX,
    CO_ARCH_PMD_INDEX, CO_ARCH_PTE_INDEX.
  rewrite !index_eq, !Z.shiftr_div_pow2 by done.
  assert (level = 0 \/ level = 1 \/ level = 2 \/ level = 3) as [->|[->|[->| ->]]]
    by lia; done.
Qed.

Lemma co_space_index_range va level :
  0 <= level <= 3 -> 0 <= co_space_index va level < 512.
Proof.
  intros Hl. rewrite co_space_index_eq by done. apply (Z.mod_pos_bound _ (2 ^ 9)). lia.
Qed.

(** A canonical address is known by its four indices and its page offset. *)
Lemma canonical_page va va' :
  0 <= va < 2 ^ 64 -> 0 <= va' < 2 ^ 64 ->
  CO_ARCH_VA_CANONICAL va = true -> CO_ARCH_VA_CANONICAL va' = true ->
  (forall l, 0 <= l <= 3 -> co_space_index va l = co_space_index va' l) ->
  va / 2 ^ 12 = va' / 2 ^ 12.
Proof.
  unfold CO_ARCH_VA_CANONICAL. rewrite !Z.shiftr_div_pow2 by lia.
  intros Hva Hva' Hc Hc' Hidx.
  pose proof (Hidx 0) as H0. pose proof (Hidx 1) as H1.
  pose proof (Hidx 2) as H2. pose proof (Hidx 3) as H3.
  rewrite !co_space_index_eq in H0, H1, H2, H3 by lia.
  cbn [Z.mul Z.sub Z.add Z.opp Pos.mul Pos.add Z.pos_sub] in *.
  specialize (H0 ltac:(lia)). specialize (H1 ltac:(lia)).
  specialize (H2 ltac:(lia)). specialize (H3 ltac:(lia)).
  apply orb_true_iff in Hc, Hc'. rewrite !Z.eqb_eq in Hc, Hc'.
  change (2 ^ (39 - 0)) with (2 ^ 39) in *.
  change (2 ^ (39 - 9)) with (2 ^ 30) in *.
  change (2 ^ (39 - 18)) with (2 ^ 21) in *.
  change (2 ^ (39 - 27)) with (2 ^ 12) in *.
  Z.div_mod_to_equations; lia.
Qed.

(** ** The tree of tables *)

Section tree.
Context {W : Type} `{SpaceLaws W}.
Implicit Types (w : W) (T : gmap Z Z) (p q va : Z).

Definition entry_at w p i : option Z :=
  (fun a => load_u64 (env_mem w) (a + 8 * i)) <$> env_frame w p.

(** What the hardware finds for [va] starting [3 - n] levels down, in table
    [p]: the address the walk ends at, or nothing. *)
Fixpoint translate (n : nat) w p va : option Z :=
  e ← entry_at w p (co_space_index va (3 - Z.of_nat n));
  if entry_present e then
    match n with
    | O => Some (entry_pa e)
    | S n' => if entry_pse e then Some (entry_pa e)
              else translate n' w (entry_pfn e) va
    end
  else None.

Definition link w p i q : Prop :=
  exists e, entry_at w p i = Some e /\ entry_present e = true /\
            entry_pse e = false /\ entry_pfn e = q.

(** [T] names every table of the space and its level. *)
Record tree w root T : Prop := {
  tree_root : T !! root = Some 0;
  tree_used p l : T !! p = Some l -> env_used w p /\ 0 <= l <= 3;
  tree_child p l i q : T !! p = Some l -> l < 3 -> 0 <= i < 512 ->
    link w p i q -> T !! q = Some (l + 1);
  tree_inj p l i p' l' i' q : T !! p = Some l -> l < 3 -> 0 <= i < 512 ->
    T !! p' = Some l' -> l' < 3 -> 0 <= i' < 512 ->
    link w p i q -> link w p' i' q -> p = p' /\ i = i';
}.

(** The walk of [va] from table [p] passes through slot [i0] of [p0]. *)
Fixpoint hits (n : nat) w p va p0 i0 : Prop :=
  (p = p0 /\ co_space_index va (3 - Z.of_nat n) = i0) \/
  match n with
  | O => False
  | S n' => exists q, link w p (co_space_index va (3 - Z.of_nat n)) q
                      /\ hits n' w q va p0 i0
  end.

Lemma index_range_n va (n : nat) :
  (n <= 3)%nat -> 0 <= co_space_index va (3 - Z.of_nat n) < 512.
Proof using. intros. apply co_space_index_range. lia. Qed.

Lemma tree_step w root T n p va q :
  tree w root T -> (S n <= 3)%nat -> T !! p = Some (3 - Z.of_nat (S n)) ->
  link w p (co_space_index va (3 - Z.of_nat (S n))) q ->
  T !! q = Some (3 - Z.of_nat n).
Proof using.
  intros HT Hn Hp Hq.
  replace (3 - Z.of_nat n) with (3 - Z.of_nat (S n) + 1) by lia.
  eapply (tree_child _ _ _ HT p _ _ q Hp); [lia|by apply index_range_n|done].
Qed.

(** Two walks through the same last-level slot are walks of one page. *)
Lemma hits_inj w root T n p p' va va' p0 i0 :
  tree w root T -> (n <= 3)%nat ->
  T !! p = Some (3 - Z.of_nat n) -> T !! p' = Some (3 - Z.of_nat n) ->
  T !! p0 = Some 3 ->
  hits n w p va p0 i0 -> hits n w p' va' p0 i0 ->
  p = p' /\ forall l, 3 - Z.of_nat n <= l <= 3 ->
                      co_space_index va l = co_space_index va' l.
Proof using.
  intros HT. revert p p'. induction n as [|n IH]; intros p p' Hn Hp Hp' Hp0 Hh Hh'.
  - destruct Hh as [[-> Hi]|[]], Hh' as [[-> Hi']|[]]. split; [done|].
    intros l Hl. replace l with (3 - Z.of_nat 0) by lia. congruence.
  - destruct Hh as [[-> _]|(q & Hq & Hh)]; [exfalso; rewrite Hp in Hp0; simplify_eq; lia|].
    destruct Hh' as [[-> _]|(q' & Hq' & Hh')]; [exfalso; rewrite Hp' in Hp0; simplify_eq; lia|].
    pose proof (index_range_n va (S n) Hn). pose proof (index_range_n va' (S n) Hn).
    pose proof (tree_step _ _ _ _ _ _ _ HT Hn Hp Hq) as HTq.
    pose proof (tree_step _ _ _ _ _ _ _ HT Hn Hp' Hq') as HTq'.
    destruct (IH q q') as [-> Hl]; [lia|done..|].
    destruct (tree_inj _ _ _ HT p (3 - Z.of_nat (S n))
                (co_space_index va (3 - Z.of_nat (S n))) p' (3 - Z.of_nat (S n))
                (co_space_index va' (3 - Z.of_nat (S n))) q') as [-> Hi];
      [done|lia|done|done|lia|done|done|done|].
    split; [done|]. intros l ?.
    destruct (decide (l = 3 - Z.of_nat (S n))) as [->|]; [done|]. apply Hl. lia.
Qed.

(** [w'] agrees with [w] on the tables of [T] outside slot [i0] of [p0]. *)
Definition agree_but w w' T p0 i0 : Prop :=
  forall p l i, T !! p = Some l -> 0 <= i < 512 -> ~ (p = p0 /\ i = i0) ->
                entry_at w' p i = entry_at w p i.

Lemma link_agree w w' p i q :
  entry_at w' p i = entry_at w p i -> link w' p i q <-> link w p i q.
Proof using. intros He. unfold link. by rewrite He. Qed.

Lemma translate_miss w w' root T n p va p0 i0 :
  tree w root T -> agree_but w w' T p0 i0 -> (n <= 3)%nat ->
  T !! p = Some (3 - Z.of_nat n) -> ~ hits n w p va p0 i0 ->
  translate n w' p va = translate n w p va.
Proof using.
  intros HT Hag. revert p. induction n as [|n IH]; intros p Hn Hp Hh.
  - cbn [translate]. rewrite (Hag p (3 - Z.of_nat 0)); [done|done|by apply index_range_n|].
    intros ?. apply Hh. by left.
  - cbn [translate]. pose proof (index_range_n va (S n) Hn) as Hi.
    rewrite (Hag p (3 - Z.of_nat (S n))) by (try done; intros ?; apply Hh; by left).
    destruct (entry_at w p _) as [e|] eqn:He; [|done]. simpl.
    destruct (entry_present e) eqn:Hpr; [|done].
    destruct (entry_pse e) eqn:Hps; [done|].
    assert (link w p (co_space_index va (3 - Z.of_nat (S n))) (entry_pfn e))
      as Hlk by (by exists e).
    apply IH; [lia| |].
    + by eapply tree_step.
    + intros Hh'. apply Hh. right. eauto.
Qed.

(** Hanging an empty table below an empty slot changes no translation. *)
Lemma translate_link w w' root T n p va p0 i0 q :
  tree w root T -> agree_but w w' T p0 i0 -> (n <= 3)%nat ->
  T !! p = Some (3 - Z.of_nat n) -> T !! q = None ->
  (exists l0, T !! p0 = Some l0 /\ l0 < 3) ->
  (forall e, entry_at w p0 i0 = Some e -> entry_present e = false) ->
  is_Some (entry_at w p0 i0) ->
  entry_at w' p0 i0 = Some (table_entry q) -> 0 <= q < 2 ^ 40 ->
  (forall i, 0 <= i < 512 -> entry_at w' q i = Some 0) ->
  translate n w' p va = translate n w p va.
Proof using.
  intros HT Hag Hn0 Hp HTq (l0 & Hl0 & Hlt) Hold [e0 He0] Hnew Hq Hz.
  revert p Hp. induction n as [|n IH]; intros p Hp.
  - cbn [translate]. rewrite (Hag p (3 - Z.of_nat 0)); [done|done|by apply index_range_n|].
    intros [-> _]. rewrite Hp in Hl0. simplify_eq. lia.
  - cbn [translate]. pose proof (index_range_n va (S n) Hn0) as Hi.
    destruct (decide (p = p0 /\ co_space_index va (3 - Z.of_nat (S n)) = i0))
      as [[-> ->]|Hne].
    + rewrite Hnew, He0. simpl. rewrite (Hold _ He0).
      rewrite table_entry_present, table_entry_pse, table_entry_pfn by lia.
      destruct n; cbn [translate]; rewrite Hz by (apply index_range_n; lia); done.
    + rewrite (Hag p (3 - Z.of_nat (S n))) by done.
      destruct (entry_at w p _) as [e|] eqn:He; [|done]. simpl.
      destruct (entry_present e) eqn:Hpr; [|done].
      destruct (entry_pse e) eqn:Hps; [done|].
      apply IH; [lia|]. eapply tree_step; [done..|]. by exists e.
Qed.

Inductive reach w root va : nat -> Z -> Prop :=
  | reach_O : reach w root va 0 root
  | reach_S k p q :
      reach w root va k p -> link w p (co_space_index va (Z.of_nat k)) q ->
      reach w root va (S k) q.

Lemma reach_hits w root va k p p0 i0 :
  reach w root va k p -> (k <= 3)%nat ->
  hits (3 - k) w p va p0 i0 -> hits 3 w root va p0 i0.
Proof using.
  induction 1 as [|k p q Hr IH Hlk]; intros Hk Hh; [done|].
  apply IH; [lia|]. replace (3 - k)%nat with (S (3 - S k)) by lia.
  right. exists q. split; [|done].
  replace (3 - Z.of_nat (S (3 - S k))) with (Z.of_nat k) by lia. done.
Qed.

Lemma reach_level w root T va k p :
  tree w root T -> reach w root va k p -> (k <= 3)%nat -> T !! p = Some (Z.of_nat k).
Proof using.
  intros HT. induction 1 as [|k p q Hr IH Hlk]; intros Hk; [apply HT|].
  replace (Z.of_nat (S k)) with (Z.of_nat k + 1) by lia.
  eapply (tree_child _ _ _ HT); [apply IH; lia|lia| |done].
  apply co_space_index_range. lia.
Qed.

(** A change at level [k] leaves the walk down to level [k] alone. *)
Lemma reach_agree w w' root T va k p p0 i0 :
  tree w root T -> agree_but w w' T p0 i0 -> T !! p0 = Some (Z.of_nat k) ->
  (k <= 3)%nat -> reach w root va k p -> reach w' root va k p.
Proof using.
  intros HT Hag Hp0 Hk.
  assert (forall k' p', reach w root va k' p' -> (k' <= k)%nat ->
                        reach w' root va k' p') as Hgen.
  { induction 1 as [|k' p' q Hr IH Hlk]; intros Hle; [constructor|].
    econstructor; [apply IH; lia|].
    apply (link_agree w w'); [|done].
    pose proof (reach_level _ _ _ _ _ _ HT Hr ltac:(lia)) as Hl.
    eapply Hag; [done|apply co_space_index_range; lia|].
    intros [-> _]. rewrite Hl in Hp0. simplify_eq. lia. }
  eauto.
Qed.

(** *** How the environment's steps act on entries *)

Abbreviation env_same := (env_same_on env_inv env_frame env_used env_quiet).

Lemma env_same_refl w : env_inv w -> env_same w w.
Proof using. intros. repeat split; auto. by apply law_quiet_refl. Qed.

Lemma env_same_trans w w1 w2 : env_same w w1 -> env_same w1 w2 -> env_same w w2.
Proof using.
  intros (Hm & Hf & Hu & Hi & Hq) (Hm' & Hf' & Hu' & Hi' & Hq').
  split_and!; [congruence| |intros p; by rewrite Hu', Hu|done|by eapply law_quiet_trans].
  intros p Hp. rewrite Hf' by (by apply Hu). auto.
Qed.

Lemma entry_same w w' p i :
  env_same w w' -> env_used w p -> entry_at w' p i = entry_at w p i.
Proof using.
  intros (Hm & Hf & _) Hu. unfold entry_at. by rewrite Hm, (Hf p Hu).
Qed.

Lemma entry_store w p i v a :
  env_inv w -> env_used w p -> env_frame w p = Some a -> 0 <= i < 512 ->
  let w' := env_upd_mem (fun m => store_u64 m (a + 8 * i) v) w in
  env_inv w' /\ (forall q, env_used w' q <-> env_used w q) /\
  entry_at w' p i = Some (u64 v) /\
  (forall q j, env_used w q -> 0 <= j < 512 -> ~ (q = p /\ j = i) ->
               entry_at w' q j = entry_at w q j).
Proof using.
  intros Hinv Hp Ha Hi w'.
  destruct (law_upd w (fun m => store_u64 m (a + 8 * i) v) Hinv)
    as (Hm & Hinv' & Hf & Hu). fold w' in Hm, Hinv', Hf, Hu.
  split_and!; [done|done| |].
  - unfold entry_at. rewrite Hf, Ha, Hm. simpl. by rewrite load_u64_store_eq.
  - intros q j Hq Hj Hne. unfold entry_at. rewrite Hf, Hm.
    destruct (env_frame w q) as [b|] eqn:Hb; [|done]. simpl. f_equal.
    apply load_u64_store_ne. destruct (decide (q = p)) as [->|Hqp].
    + rewrite Ha in Hb. simplify_eq.
      assert (j <> i) by (intros ->; by apply Hne). lia.
    + destruct (law_disjoint w q p b a Hinv Hq Hp Hqp Hb Ha);
        change CO_ARCH_PAGE_SIZE with 4096 in *; lia.
Qed.

Lemma entry_new w q w' :
  env_inv w -> co_space_new_table w = (Ret q, w') ->
  env_inv w' /\ ~ env_used w q /\
  (forall p, env_used w' p <-> p = q \/ env_used w p) /\
  (forall i, 0 <= i < 512 -> entry_at w' q i = Some 0) /\
  (forall p i, env_used w p -> 0 <= i < 512 -> entry_at w' p i = entry_at w p i).
Proof using.
  intros Hinv Hrun. pose proof (law_new w Hinv) as Hlaw. rewrite Hrun in Hlaw.
  destruct Hlaw as (Hfresh & Hu & Hf & Hinv' & a & Ha & Hm).
  split_and!; [done..| |].
  - intros i Hi. unfold entry_at. rewrite Ha, Hm. simpl. f_equal.
    apply load_u64_memset_in; change CO_ARCH_PAGE_SIZE with 4096; lia.
  - intros p i Hp Hi. unfold entry_at. rewrite (Hf p Hp), Hm.
    destruct (env_frame w p) as [b|] eqn:Hb; [|done]. simpl. f_equal.
    apply load_u64_memset_ne.
    assert (p <> q) as Hpq by (intros ->; done).
    destruct (law_disjoint w' p q b a) as [?|?]; try done.
    + apply Hu. by right.
    + apply Hu. by left.
    + by rewrite (Hf p Hp).
    + change CO_ARCH_PAGE_SIZE with 4096 in *; lia.
    + change CO_ARCH_PAGE_SIZE with 4096 in *; lia.
Qed.

Lemma entry_at_visible w root T p l i :
  env_inv w -> tree w root T -> T !! p = Some l -> is_Some (entry_at w p i).
Proof using.
  intros Hinv HT Hp. destruct (tree_used _ _ _ HT p l Hp) as [Hu _].
  destruct (law_visible w p Hinv Hu) as [a Ha].
  exists (load_u64 (env_mem w) (a + 8 * i)). unfold entry_at. by rewrite Ha.
Qed.

(** *** The tree survives each kind of step *)

Lemma tree_agree w w' root T :
  tree w root T ->
  (forall p l i, T !! p = Some l -> l < 3 -> 0 <= i < 512 ->
                 entry_at w' p i = entry_at w p i) ->
  (forall p, env_used w p -> env_used w' p) ->
  tree w' root T.
Proof using.
  intros [Hr Hu Hc Hi] Hag Hus. split; [done| | |].
  - intros p l Hp. destruct (Hu p l Hp). auto.
  - intros p l i q Hp Hl Hir Hlk. eapply Hc; eauto.
    eapply (link_agree w w'); [by eapply Hag|done].
  - intros p l i p' l' i' q Hp Hl Hir Hp' Hl' Hir' Hlk Hlk'.
    eapply (Hi p l i p' l' i' q); eauto.
    + eapply (link_agree w w'); [by eapply Hag|done].
    + eapply (link_agree w w'); [by eapply Hag|done].
Qed.

Lemma tree_link w w' root T p0 i0 q l0 :
  tree w root T -> agree_but w w' T p0 i0 ->
  T !! p0 = Some l0 -> l0 < 3 -> 0 <= i0 < 512 -> T !! q = None ->
  (forall p, env_used w p -> env_used w' p) -> env_used w' q ->
  entry_at w' p0 i0 = Some (table_entry q) -> 0 <= q < 2 ^ 40 ->
  (forall i, 0 <= i < 512 -> entry_at w' q i = Some 0) ->
  tree w' root (<[q := l0 + 1]> T).
Proof using.
  intros HT Hag Hp0 Hl0 Hi0 Hq Hus Huq He Hqr Hz.
  assert (forall p l i c, <[q := l0 + 1]> T !! p = Some l -> l < 3 -> 0 <= i < 512 ->
            link w' p i c ->
            T !! p = Some l /\ ((p = p0 /\ i = i0 /\ c = q) \/
              (~ (p = p0 /\ i = i0) /\ link w p i c))) as Hinv.
  { intros p l i c Hp Hl Hi Hlk. destruct (decide (p = q)) as [->|Hpq].
    - destruct Hlk as (e & Hze & Hpr & _). rewrite Hz in Hze by done.
      simplify_eq.
    - rewrite lookup_insert_ne in Hp by done. split; [done|].
      destruct (decide (p = p0 /\ i = i0)) as [[-> ->]|Hne].
      + left. destruct Hlk as (e & He' & _ & _ & Hc). rewrite He in He'.
        simplify_eq. by rewrite table_entry_pfn by lia.
      + right. split; [done|]. eapply (link_agree w w'); [by eapply Hag|done]. }
  assert (root <> q) as Hrq.
  { intros ->. pose proof (tree_root _ _ _ HT) as Hr. by rewrite Hq in Hr. }
  assert (forall p l i c, T !! p = Some l -> l < 3 -> 0 <= i < 512 ->
                          link w p i c -> c <> q) as Hold.
  { intros p l i c Hp Hl Hi Hlk ->.
    pose proof (tree_child _ _ _ HT p l i q Hp Hl Hi Hlk) as Hc. by rewrite Hq in Hc. }
  split.
  - rewrite lookup_insert_ne by done. apply HT.
  - intros p l Hp. destruct (decide (p = q)) as [->|Hpq].
    + rewrite lookup_insert_eq in Hp. simplify_eq.
      destruct (tree_used _ _ _ HT _ _ Hp0). split; [done|lia].
    + rewrite lookup_insert_ne in Hp by done.
      destruct (tree_used _ _ _ HT _ _ Hp). auto.
  - intros p l i c Hp Hl Hi Hlk.
    destruct (Hinv _ _ _ _ Hp Hl Hi Hlk) as [Hp' [(-> & -> & ->)|[_ Hlk']]].
    + rewrite lookup_insert_eq. congruence.
    + rewrite lookup_insert_ne by (intros <-; by eapply Hold).
      by eapply (tree_child _ _ _ HT).
  - intros p l i p' l' i' c Hp Hl Hi Hp' Hl' Hi' Hlk Hlk'.
    destruct (Hinv _ _ _ _ Hp Hl Hi Hlk) as [Hpo [(-> & -> & ->)|[_ Hlo]]];
    destruct (Hinv _ _ _ _ Hp' Hl' Hi' Hlk') as [Hpo' [(-> & -> & E')|[_ Hlo']]].
    + done.
    + exfalso. eapply (Hold p'); [done|done|exact Hi'|done|done].
    + exfalso. subst c. eapply (Hold p); [done|done|exact Hi|done|done].
    + by eapply (tree_inj _ _ _ HT p l i p' l' i' c).
Qed.
End tree.

(** ** Mapping a page *)

Section map.
Context {W : Type} `{SpaceLaws W}.
Implicit Types (w : W) (T : gmap Z Z) (p q va : Z) (s : co_arch_guest_space).

Abbreviation env_same := (env_same_on env_inv env_frame env_used env_quiet).

(** The space invariant: a tree of tables, all of them counted. *)
Definition space_ok w s T : Prop :=
  env_inv w /\ tree w (pml4_pfn s) T /\ tables s = ulong (Z.of_nat (size T)).

Lemma wp_space_map w pfn (Q : option Z -> W -> Prop) E :
  env_inv w -> env_used w pfn ->
  (forall a w', env_frame w pfn = Some a -> env_same w w' -> Q (Some a) w') ->
  wp (co_space_map pfn) Q E w.
Proof using.
  intros Hi Hu HQ. destruct (law_map w pfn Hi Hu) as (a & w' & Ha & Hrun & Hs).
  unfold wp. rewrite Hrun. auto.
Qed.

Lemma wp_space_unmap w p pfn (Q : unit -> W -> Prop) E :
  env_inv w -> env_used w pfn -> (forall w', env_same w w' -> Q tt w') ->
  wp (co_space_unmap p pfn) Q E w.
Proof using.
  intros Hi Hu HQ. destruct (law_unmap w p pfn Hi Hu) as (w' & Hrun & Hs).
  unfold wp. rewrite Hrun. auto.
Qed.

Lemma agree_same w w' root T p0 i0 :
  tree w root T -> env_same w w' -> agree_but w w' T p0 i0.
Proof using.
  intros HT Hs p l i Hp _ _. apply entry_same; [done|].
  by destruct (tree_used _ _ _ HT p l Hp).
Qed.

Lemma hits_index (n : nat) w p va p0 i0 :
  (n <= 3)%nat -> hits n w p va p0 i0 -> 0 <= i0 < 512.
Proof using.
  revert p. induction n as [|n IH]; intros p Hn [[_ <-]|Hh];
    [by apply index_range_n|done|by apply index_range_n|].
  destruct Hh as (q & _ & Hh). apply (IH q); [lia|done].
Qed.

(** Steps that keep every entry keep the space and its translations. *)
Lemma space_ok_same w w' s T :
  space_ok w s T -> env_same w w' ->
  space_ok w' s T /\
  (forall n p va, (n <= 3)%nat -> T !! p = Some (3 - Z.of_nat n) ->
                  translate n w' p va = translate n w p va).
Proof using.
  intros (Hi & HT & Hc) Hs. split.
  - split_and!; [apply Hs| |done]. eapply tree_agree; [done| |].
    + intros p l i Hp _ _. apply entry_same; [done|]. by apply (tree_used _ _ _ HT p l).
    + intros p. destruct Hs as (_ & _ & Hu & _). apply Hu.
  - intros n p va Hn Hp.
    eapply (translate_miss w w' (pml4_pfn s) T n p va 0 (-1));
      [done|by eapply agree_same|done|done|].
    intros Hh%hits_index; lia.
Qed.

Record walk_inv w0 root va T (k : nat) pfn w s : Prop := {
  wi_ok : space_ok w s T;
  wi_root : pml4_pfn s = root;
  wi_k : (k <= 3)%nat;
  wi_reach : reach w root va k pfn;
  wi_trans va' : translate 3 w root va' = translate 3 w0 root va';
  wi_step : env_step w0 w;
}.

Lemma walk_inv_used w0 root va T k pfn w s :
  walk_inv w0 root va T k pfn w s ->
  env_inv w /\ tree w root T /\ T !! pfn = Some (Z.of_nat k) /\ env_used w pfn.
Proof using.
  intros [(Hi & HT & _) <- Hk Hr _ _].
  pose proof (reach_level _ _ _ _ _ _ HT Hr Hk) as Hl.
  split_and!; [done..|]. by destruct (tree_used _ _ _ HT _ _ Hl).
Qed.

Lemma walk_inv_same w0 root va T k pfn w s w' :
  walk_inv w0 root va T k pfn w s -> env_same w w' ->
  walk_inv w0 root va T k pfn w' s.
Proof using.
  intros Hw Hs. pose proof (walk_inv_used _ _ _ _ _ _ _ _ Hw) as (Hi & HT & Hl & _).
  destruct Hw as [Hok Hroot Hk Hr Ht Hst].
  destruct (space_ok_same _ _ _ _ Hok Hs) as [Hok' Htr].
  split; [done..| | |].
  - eapply (reach_agree w w' root T va k pfn pfn 0); try done. by eapply agree_same.
  - intros va'. rewrite <- Ht. apply Htr; [done|].
    pose proof (tree_root _ _ _ HT) as Hrt. done.
  - eapply law_step_trans; [done|]. apply law_step_quiet; [done|apply Hs].
Qed.

Lemma walk_inv_descend w0 root va T k pfn w s q :
  walk_inv w0 root va T k pfn w s -> (k < 3)%nat ->
  link w pfn (co_space_index va (Z.of_nat k)) q ->
  walk_inv w0 root va T (S k) q w s.
Proof using.
  intros [Hok Hroot Hk Hr Ht Hst] Hlt Hlk. split; [done|done|lia| |done|done].
  econstructor; [exact Hr|done].
Qed.

(** A fresh table: nothing reachable changes, and it is not in the tree. *)
Lemma walk_inv_new w0 root va T k pfn w s q w' :
  walk_inv w0 root va T k pfn w s -> co_space_new_table w = (Ret q, w') ->
  walk_inv w0 root va T k pfn w' s /\ T !! q = None /\ env_used w' q /\
  (forall i, 0 <= i < 512 -> entry_at w' q i = Some 0) /\
  (forall i, 0 <= i < 512 -> entry_at w' pfn i = entry_at w pfn i).
Proof using.
  intros Hw Hrun. pose proof (walk_inv_used _ _ _ _ _ _ _ _ Hw) as (Hi & HT & Hl & Hu).
  destruct (entry_new w q w' Hi Hrun) as (Hi' & Hnu & Hu' & Hz & Hag).
  destruct Hw as [(_ & _ & Hc) Hroot Hk Hr Ht Hst].
  assert (forall p0 i0, agree_but w w' T p0 i0) as Hab.
  { intros p0 i0 p l i Hp Hir _. apply Hag; [|done].
    by destruct (tree_used _ _ _ HT p l Hp). }
  assert (tree w' root T) as HT'.
  { eapply tree_agree; [done| |].
    - intros p l i Hp _ Hir. apply Hag; [|done]. by destruct (tree_used _ _ _ HT p l Hp).
    - intros p Hp. apply Hu'. by right. }
  split_and!; [split| | |done|].
  - rewrite <- Hroot in HT'. by split_and!.
  - done.
  - done.
  - by eapply (reach_agree w w' root T va k pfn pfn 0).
  - intros va'. rewrite <- Ht.
    eapply (translate_miss w w' root T 3 root va' 0 (-1));
      [done|done|lia|exact (tree_root _ _ _ HT)|].
    intros Hh%hits_index; lia.
  - eapply law_step_trans; [done|]. by eapply law_step_new.
  - destruct (T !! q) as [l|] eqn:Hq; [|done].
    destruct Hnu. by destruct (tree_used _ _ _ HT q l Hq).
  - apply Hu'. by left.
  - intros i Hir. by apply Hag.
Qed.

(** Hanging the fresh table below the empty slot the walk stopped at. *)
Lemma walk_inv_link w0 root va T k pfn w s q a e :
  walk_inv w0 root va T k pfn w s -> (k < 3)%nat ->
  T !! q = None -> env_used w q ->
  (forall i, 0 <= i < 512 -> entry_at w q i = Some 0) ->
  env_frame w pfn = Some a ->
  let i := co_space_index va (Z.of_nat k) in
  entry_at w pfn i = Some e -> entry_present e = false ->
  walk_inv w0 root va (<[q := Z.of_nat (S k)]> T) (S k) q
    (env_upd_mem (fun m => store_u64 m (a + 8 * i) (table_entry q)) w)
    (Space (pml4_pfn s) (ulong (tables s + 1))).
Proof using.
  intros Hw Hk Hq Huq Hz Ha i He Hpr.
  pose proof (walk_inv_used _ _ _ _ _ _ _ _ Hw) as (Hi & HT & Hl & Hu).
  destruct Hw as [(_ & _ & Hc) Hroot _ Hr Ht Hst].
  assert (0 <= i < 512) as Hir by (apply co_space_index_range; lia).
  pose proof (law_range w q Hi Huq) as Hqr.
  destruct (entry_store w pfn i (table_entry q) a Hi Hu Ha Hir)
    as (Hi' & Hu' & Hnew & Hother).
  set (w' := env_upd_mem _ w) in *.
  rewrite (u64_small (table_entry q)) in Hnew by (apply table_entry_range; lia).
  assert (agree_but w w' T pfn i) as Hab.
  { intros p l j Hp Hjr Hne. apply Hother; [|done|done].
    by destruct (tree_used _ _ _ HT p l Hp). }
  assert (q <> pfn) as Hqp by (intros ->; by rewrite Hq in Hl).
  assert (forall j, 0 <= j < 512 -> entry_at w' q j = Some 0) as Hz'.
  { intros j Hj. rewrite Hother; [by apply Hz|done|done|]. by intros [? _]. }
  replace (Z.of_nat (S k)) with (Z.of_nat k + 1) by lia.
  split; [split_and!| | | | |]; cbn [pml4_pfn tables].
  - done.
  - rewrite Hroot. eapply tree_link; try done; [lia| |by apply Hu'].
    intros p Hp. by apply Hu'.
  - rewrite map_size_insert_None, Hc by done. unfold ulong, u32.
    rewrite Zplus_mod_idemp_l. f_equal. lia.
  - done.
  - lia.
  - econstructor; [by eapply (reach_agree w w' root T va k pfn pfn i); [..|lia|]|].
    exists (table_entry q). rewrite table_entry_present, table_entry_pse,
      table_entry_pfn by lia. done.
  - intros va'. rewrite <- Ht.
    apply (translate_link w w' root T 3 root va' pfn i q); try done.
    + exact (tree_root _ _ _ HT).
    + exists (Z.of_nat k). split; [done|lia].
    + intros e' He'. rewrite He in He'. by simplify_eq.
  - eapply law_step_trans; [done|]. by eapply law_step_store.
Qed.
End map.

Section map_spec.
Context {W : Type} `{SpaceLaws W}.
Implicit Types (w : W) (T : gmap Z Z) (p q va : Z) (s : co_arch_guest_space).

Abbreviation env_same := (env_same_on env_inv env_frame env_used env_quiet).

(** Nothing translates differently than in [w0]. *)
Definition unchanged w0 root (ws : W * co_arch_guest_space) : Prop :=
  env_step w0 ws.1 /\
  exists T, space_ok ws.1 ws.2 T /\ pml4_pfn ws.2 = root /\
            forall va', translate 3 ws.1 root va' = translate 3 w0 root va'.

(** [va]'s page translates to [pa]'s frame, every other page as in [w0]. *)
Definition mapped w0 root va pa (ws : W * co_arch_guest_space) : Prop :=
  env_step w0 ws.1 /\
  exists T, space_ok ws.1 ws.2 T /\ pml4_pfn ws.2 = root /\
    translate 3 ws.1 root va = Some (pa - pa mod 2 ^ 12) /\
    forall va', 0 <= va' < 2 ^ 64 -> CO_ARCH_VA_CANONICAL va' = true ->
      va' / 2 ^ 12 <> va / 2 ^ 12 ->
      translate 3 ws.1 root va' = translate 3 w0 root va'.

Lemma walk_inv_unchanged w0 root va T k pfn w s :
  walk_inv w0 root va T k pfn w s -> unchanged w0 root (w, s).
Proof using. intros [Hok Hr Hk Hre Ht Hst]. split; [done|]. by exists T. Qed.

Lemma walk_inv_new_fail w0 root va T k pfn w s rc w' :
  walk_inv w0 root va T k pfn w s -> co_space_new_table w = (Fail rc, w') ->
  unchanged w0 root (w', s).
Proof using.
  intros Hw Hrun. pose proof (walk_inv_used _ _ _ _ _ _ _ _ Hw) as (Hi & HT & _ & _).
  pose proof (law_new w Hi) as Hl. rewrite Hrun in Hl.
  destruct Hl as (Hm & Hu & Hf & Hi').
  destruct Hw as [(_ & _ & Hc) Hroot Hk Hr Ht Hst].
  assert (forall p l i, T !! p = Some l -> entry_at w' p i = entry_at w p i) as Hag.
  { intros p l i Hp. unfold entry_at. rewrite Hm, Hf; [done|].
    by destruct (tree_used _ _ _ HT p l Hp). }
  split; [cbn; eapply law_step_trans; [done|]; by eapply law_step_new|].
  exists T. split; [split_and!|split]; cbn [fst snd]; [done| |done|done|].
  - rewrite Hroot. eapply tree_agree; [done|by intros; eapply Hag|done].
  - intros va'. rewrite <- Ht.
    eapply (translate_miss w w' root T 3 root va' 0 (-1));
      [done| |lia|exact (tree_root _ _ _ HT)|intros Hh%hits_index; lia].
    intros p l i Hp _ _. by eapply Hag.
Qed.

(** The last step: writing the leaf. *)
Lemma walk_inv_leaf w0 root va T pfn w s a pa flags :
  walk_inv w0 root va T 3 pfn w s -> env_frame w pfn = Some a ->
  0 <= va < 2 ^ 64 -> CO_ARCH_VA_CANONICAL va = true ->
  0 <= pa < 2 ^ 63 -> leaf_flags flags ->
  mapped w0 root va pa
    (env_upd_mem (fun m => store_u64 m (a + 8 * co_space_index va 3)
                             (leaf_entry pa flags)) w, s).
Proof using.
  intros Hw Ha Hva Hcan Hpa Hfl. set (i := co_space_index va 3).
  pose proof (walk_inv_used _ _ _ _ _ _ _ _ Hw) as (Hi & HT & Hl & Hu).
  destruct Hw as [(_ & _ & Hc) Hroot _ Hr Ht Hst].
  assert (0 <= i < 512) as Hir by (apply co_space_index_range; lia).
  destruct (leaf_entry_spec pa flags Hpa Hfl) as (Hlr & Hlp & Hla).
  destruct (entry_store w pfn i (leaf_entry pa flags) a Hi Hu Ha Hir)
    as (Hi' & Hu' & Hnew & Hother).
  set (w' := env_upd_mem _ w) in *. rewrite u64_small in Hnew by done.
  assert (agree_but w w' T pfn i) as Hab.
  { intros p l j Hp Hjr Hne. apply Hother; [|done|done].
    by destruct (tree_used _ _ _ HT p l Hp). }
  assert (tree w' root T) as HT'.
  { eapply tree_agree; [done| |intros p Hp; by apply Hu'].
    intros p l j Hp Hlt Hj. eapply Hab; [done|done|]. intros [-> _].
    rewrite Hl in Hp. simplify_eq. lia. }
  split; [cbn; eapply law_step_trans; [done|]; by eapply law_step_store|].
  exists T. split; [split_and!|split_and!]; cbn [fst snd]; [done|by rewrite Hroot|done|done| |].
  - assert (reach w' root va 3 pfn) as Hr'
      by (eapply (reach_agree w w' root T va 3 pfn pfn i); [done..|lia|done]).
    clear Ht Hab Hr. inversion Hr' as [|k2 p2 q2 Hr2 Hl2]; subst.
    inversion Hr2 as [|k1 p1 q1 Hr1 Hl1]; subst.
    inversion Hr1 as [|k0 p0 q0 Hr0 Hl0]; subst. inversion Hr0; subst.
    destruct Hl0 as (e0 & He0 & Hp0 & Hs0 & <-).
    destruct Hl1 as (e1 & He1 & Hp1 & Hs1 & <-).
    destruct Hl2 as (e2 & He2 & Hp2 & Hs2 & <-).
    cbn [translate]. change (3 - Z.of_nat 3) with (Z.of_nat 0).
    rewrite He0. cbn. rewrite Hp0, Hs0.
    change (3 - Z.of_nat 2) with (Z.of_nat 1). rewrite He1. cbn. rewrite Hp1, Hs1.
    change (3 - Z.of_nat 1) with (Z.of_nat 2). rewrite He2. cbn. rewrite Hp2, Hs2.
    change (3 - Z.of_nat 0) with 3. fold i. rewrite Hnew. cbn. by rewrite Hlp, Hla.
  - intros va' Hva' Hcan' Hne. rewrite <- Ht.
    apply (translate_miss w w' root T 3 root va' pfn i);
      [done|done|lia|exact (tree_root _ _ _ HT)|].
    intros Hh. apply Hne. apply canonical_page; try done.
    assert (hits 3 w root va pfn i) as Hh0.
    { apply (reach_hits w root va 3 pfn); [done|lia|]. by left. }
    destruct (hits_inj w root T 3 root root va' va pfn i) as [_ Hidx];
      try done; try exact (tree_root _ _ _ HT).
Qed.
End map_spec.

Section map_theorem.
Context {W : Type} `{SpaceLaws W}.
Implicit Types (w : W) (T : gmap Z Z) (p q va : Z) (s : co_arch_guest_space).

Abbreviation env_same := (env_same_on env_inv env_frame env_used env_quiet).

Lemma wp_load_entry w a i (Q : Z -> W -> Prop) E :
  Q (load_u64 (env_mem w) (a + 8 * i)) w -> wp (load_entry a i) Q E w.
Proof using. intros HQ. by apply wp_gets. Qed.

Lemma wp_new_table w (Q : Z -> W -> Prop) E :
  env_inv w ->
  (forall q w', co_space_new_table w = (Ret q, w') -> Q q w') ->
  (forall rc w', co_space_new_table w = (Fail rc, w') -> E rc w') ->
  wp co_space_new_table Q E w.
Proof using.
  intros Hi HQ HE. pose proof (law_new w Hi) as Hl. unfold wp.
  destruct (co_space_new_table w) as [[q|rc|] w'] eqn:Hrun; auto.
Qed.

Lemma entry_at_frame w p a i :
  env_frame w p = Some a -> entry_at w p i = Some (load_u64 (env_mem w) (a + 8 * i)).
Proof using. intros Ha. unfold entry_at. by rewrite Ha. Qed.

(** The invariant of the map loops, over their state and the world. *)
Definition map_loop_inv w0 root va (st : Z * Z) (ws : W * co_arch_guest_space) : Prop :=
  exists T k, st.1 = Z.of_nat k /\ walk_inv w0 root va T k st.2 ws.1 ws.2.

Definition map_loop_post w0 root va (st0 : Z * Z)
    (post : W * co_arch_guest_space -> Prop)
    (r : (Z * Z) + unit) (ws : W * co_arch_guest_space) : Prop :=
  match r with
  | inl st => map_loop_inv w0 root va st ws /\ 0 <= 4 - st.1 < 4 - st0.1
  | inr _ => post ws
  end.

(** Installing a fresh table, the part of the walk both map functions share;
    they differ in what they do ([alt]) when the slot was filled meanwhile. *)
Lemma wp_map_install w0 root va T k pfn w s table index e post :
  walk_inv w0 root va T k pfn w s -> (k < 3)%nat ->
  index = co_space_index va (Z.of_nat k) ->
  env_frame w pfn = Some table ->
  entry_at w pfn index = Some e -> entry_present e = false ->
  forall next w1, co_space_new_table w = (Ret next, w1) ->
  forall table2 w2 alt, env_frame w1 pfn = Some table2 -> env_same w1 w2 ->
  wp (entry ← lift (load_entry table2 index);
      if entry_present entry then alt entry
      else
        lift (store_entry table2 index (table_entry next)) ;;
        lift (co_space_unmap table2 pfn) ;;
        modify count_table ;;
        mret (inl (Z.of_nat k + 1, next)))
    (map_loop_post w0 root va (Z.of_nat k, pfn) post)
    (fun _ => unchanged w0 root) (w2, s).
Proof using.
  intros Hw Hk -> Ha He Hpr next w1 Hnew table2 w2 alt Ha2 Hs.
  destruct (walk_inv_new _ _ _ _ _ _ _ _ _ _ Hw Hnew) as (Hw1 & HTq & Hu1 & Hz1 & Hold1).
  pose proof (walk_inv_same _ _ _ _ _ _ _ _ _ Hw1 Hs) as Hw2.
  destruct (walk_inv_used _ _ _ _ _ _ _ _ Hw1) as (Hi1 & _ & _ & Hup1).
  destruct (walk_inv_used _ _ _ _ _ _ _ _ Hw2) as (Hi2 & _ & _ & Hup2).
  assert (0 <= co_space_index va (Z.of_nat k) < 512) as Hir
    by (apply co_space_index_range; lia).
  assert (env_frame w2 pfn = Some table2) as Ha2' by (rewrite <- Ha2; by apply Hs).
  assert (entry_at w2 pfn (co_space_index va (Z.of_nat k)) = Some e) as He2.
  { rewrite (entry_same w1 w2), Hold1; done. }
  pose proof He2 as He2'. rewrite (entry_at_frame _ _ _ _ Ha2') in He2'.
  injection He2' as He2'.
  wp_step. apply wp_lift, wp_load_entry. rewrite He2', Hpr.
  wp_step. apply wp_lift, wp_modify. wp_step.
  assert (env_used w2 next) as Hu2 by (apply Hs, Hu1).
  assert (forall i, 0 <= i < 512 -> entry_at w2 next i = Some 0) as Hz2.
  { intros i Hi. rewrite (entry_same w1 w2); auto. }
  pose proof (walk_inv_link _ _ _ _ _ _ _ _ next table2 e Hw2 Hk HTq Hu2 Hz2 Ha2' He2 Hpr)
    as Hlink.
  destruct (walk_inv_used _ _ _ _ _ _ _ _ Hlink) as (Hil & _ & _ & Hul).
  destruct (law_upd w2 (fun m => store_u64 m
              (table2 + 8 * co_space_index va (Z.of_nat k)) (table_entry next)) Hi2)
    as (_ & _ & _ & Huu).
  apply wp_lift, wp_space_unmap; [done|by apply Huu|]. intros w3 Hs3.
  wp_step. apply wp_modify, wp_ret. unfold count_table; cbn [fst snd].
  split; [|cbn [fst]; lia]. exists (<[next := Z.of_nat (S k)]> T), (S k).
  split; [cbn [fst]; lia|]. cbn [fst snd].
  by eapply walk_inv_same.
Qed.

(** Following a present entry. *)
Lemma map_descend w0 root va T k pfn w s e post :
  walk_inv w0 root va T k pfn w s -> (k < 3)%nat ->
  entry_at w pfn (co_space_index va (Z.of_nat k)) = Some e ->
  entry_present e = true -> entry_pse e = false ->
  map_loop_post w0 root va (Z.of_nat k, pfn) post
    (inl (Z.of_nat k + 1, entry_pfn e)) (w, s).
Proof using.
  intros Hw Hk He Hpr Hps. split; [|cbn [fst]; lia].
  exists T, (S k). split; [cbn [fst]; lia|]. cbn [fst snd].
  eapply walk_inv_descend; [done|done|]. by exists e.
Qed.

Lemma wp_map_step w0 root va pa flags st ws :
  0 <= va < 2 ^ 64 -> CO_ARCH_VA_CANONICAL va = true ->
  0 <= pa < 2 ^ 63 -> leaf_flags flags ->
  map_loop_inv w0 root va st ws ->
  wp (guest_map_step va pa flags st)
     (map_loop_post w0 root va st (mapped w0 root va pa))
     (fun _ => unchanged w0 root) ws.
Proof using.
  destruct st as [level pfn], ws as [w s]. intros Hva Hcan Hpa Hfl (T & k & Hk & Hw).
  cbn [fst snd] in *. subst level.
  pose proof (walk_inv_used _ _ _ _ _ _ _ _ Hw) as (Hi & HT & Hl & Hu).
  pose proof (wi_k _ _ _ _ _ _ _ _ Hw) as Hk3.
  unfold guest_map_step. change CO_SPACE_LEVELS with 4.
  rewrite (proj2 (Z.ltb_lt _ _)) by lia. cbn [negb]. wp_step.
  apply wp_lift, wp_space_map; [done..|]. intros a w1 Ha Hs1.
  pose proof (walk_inv_same _ _ _ _ _ _ _ _ _ Hw Hs1) as Hw1.
  pose proof (walk_inv_used _ _ _ _ _ _ _ _ Hw1) as (Hi1 & _ & _ & Hu1).
  assert (env_frame w1 pfn = Some a) as Ha1 by (rewrite <- Ha; by apply Hs1).
  destruct (Z.eqb_spec (Z.of_nat k) (4 - 1)) as [Hk4|Hk4].
  - assert (k = 3%nat) as -> by lia. wp_step. apply wp_lift, wp_modify.
    pose proof (walk_inv_leaf _ _ _ _ _ _ _ _ pa flags Hw1 Ha1 Hva Hcan Hpa Hfl) as Hm.
    destruct (law_upd w1 (fun m => store_u64 m (a + 8 * co_space_index va 3)
                (leaf_entry pa flags)) Hi1) as (_ & Hi2 & _ & Huu).
    wp_step. apply wp_lift, wp_space_unmap; [done|by apply Huu|]. intros w3 Hs3.
    apply wp_ret. destruct Hm as (Hst & T' & Hok & Hr & Htr & Hoth).
    split; [cbn in *; eapply law_step_trans; [done|]; apply law_step_quiet; [done|apply Hs3]|].
    exists T'.
    cbn [fst snd] in *.
    pose proof (tree_root _ _ _ (proj1 (proj2 Hok))) as Hrt.
    destruct (space_ok_same _ w3 _ _ Hok Hs3) as [Hok' Htr']. rewrite Hr in *.
    split_and!; [done|done|by rewrite Htr'|].
    intros va' ???. rewrite Htr' by done. by apply Hoth.
  - assert (k < 3)%nat as Hlt by lia. wp_step. apply wp_lift, wp_load_entry.
    pose proof (entry_at_frame w1 pfn a (co_space_index va (Z.of_nat k)) Ha1) as He.
    set (e := load_u64 _ _) in *.
    destruct (entry_present e) eqn:Hpr; wp_step; apply wp_lift, wp_space_unmap;
      try done; intros w2 Hs2; pose proof (walk_inv_same _ _ _ _ _ _ _ _ _ Hw1 Hs2) as Hw2;
      pose proof (walk_inv_used _ _ _ _ _ _ _ _ Hw2) as (Hi2 & _ & _ & Hu2);
      assert (entry_at w2 pfn (co_space_index va (Z.of_nat k)) = Some e) as He2
        by (by rewrite (entry_same w1 w2)).
    + wp_step; [apply wp_throw; by eapply walk_inv_unchanged|].
      apply wp_ret. by eapply map_descend.
    + wp_step. apply wp_lift, wp_new_table; [done| |].
      2: { intros rc w3 Hnew. by eapply walk_inv_new_fail. }
      intros q w3 Hnew.
      destruct (walk_inv_new _ _ _ _ _ _ _ _ _ _ Hw2 Hnew) as (Hw3 & _ & _ & _ & _).
      pose proof (walk_inv_used _ _ _ _ _ _ _ _ Hw3) as (Hi3 & _ & _ & Hu3).
      wp_step. apply wp_lift, wp_space_map; [done..|]. intros a3 w4 Ha3 Hs4.
      assert (env_frame w2 pfn = Some a) as Ha2 by (rewrite <- Ha1; by apply Hs2).
      by eapply (wp_map_install w0 root va T k pfn w2 s a).
Qed.
End map_theorem.

Section space_theorems.
Context {W : Type} `{SpaceLaws W}.
Implicit Types (w : W) (T : gmap Z Z) (p q va : Z) (s : co_arch_guest_space).

Abbreviation env_same := (env_same_on env_inv env_frame env_used env_quiet).

Lemma step_refl w : env_inv w -> env_step w w.
Proof using. intros Hi. by apply law_step_quiet, law_quiet_refl. Qed.

Lemma unchanged_refl w s T : space_ok w s T -> unchanged w (pml4_pfn s) (w, s).
Proof using. intros Hok. split; [apply step_refl, Hok|]. by exists T. Qed.

Lemma wp_guest_map w s T va pa flags :
  space_ok w s T -> 0 <= va < 2 ^ 64 -> 0 <= pa < 2 ^ 63 -> leaf_flags flags ->
  wp (co_arch_guest_map va pa flags)
     (fun _ => mapped w (pml4_pfn s) va pa)
     (fun _ => unchanged w (pml4_pfn s)) (w, s).
Proof using.
  intros Hok Hva Hpa Hfl. unfold co_arch_guest_map. wp_step. wp_step.
  { by eapply unchanged_refl. }
  wp_step. apply wp_gets. cbn [snd].
  apply (wp_mloop _ (map_loop_inv w (pml4_pfn s) va) (fun st _ => 4 - st.1)).
  - intros st ws Hinv. eapply wp_mono; [by apply wp_map_step| |done].
    intros [st'|[]] ws'; [|done]. intros [Hi Hv]. done.
  - exists T, 0%nat. split; [done|]. split; [done|done|lia|constructor|done|].
    apply step_refl, Hok.
  - cbn [fst]. lia.
Qed.

(** The result a lookup must give: what the walk translates to, or a miss
    with the level that was absent. *)
Definition lookup_answers (found : option Z) (r : lookup_result) : Prop :=
  match found with
  | Some pa => r.1.1 = CO_RC_OK /\ r.1.2 = pa
  | None => r.1.1 = CO_RC_NOT_FOUND /\ r.1.2 = 0 /\ 0 <= r.2 <= 3
  end.

Lemma wp_guest_lookup_root w root T va :
  env_inv w -> tree w root T -> CO_ARCH_VA_CANONICAL va = true ->
  wp (co_arch_guest_lookup_root root va)
     (fun r w' => env_same w w' /\ lookup_answers (translate 3 w root va) r)
     (fun _ _ => False) w.
Proof using.
  intros Hinv HT Hcan. unfold co_arch_guest_lookup_root. rewrite Hcan. cbn [negb].
  remember (translate 3 w root va) as ans eqn:Hansw.
  apply (wp_mloop _ (fun st w1 => env_same w w1 /\ exists n, (n <= 3)%nat /\
           st.1 = 3 - Z.of_nat n /\ T !! st.2 = Some (3 - Z.of_nat n) /\
           translate n w st.2 va = ans) (fun st _ => 4 - st.1)).
  - intros [level p] w1 (Hs & n & Hn & Hlev & HTp & Htr). cbn [fst snd] in *. subst level.
    unfold guest_lookup_step. change CO_SPACE_LEVELS with 4.
    rewrite (proj2 (Z.ltb_lt _ _)) by lia. cbn [negb].
    destruct (tree_used _ _ _ HT _ _ HTp) as [Hup _].
    assert (env_inv w1) as Hi1 by apply Hs.
    wp_step. apply wp_space_map; [done|by apply Hs|]. intros a w2 Ha Hs2.
    pose proof (env_same_trans _ _ _ Hs Hs2) as Hs02.
    wp_step. apply wp_load_entry. wp_step.
    apply wp_space_unmap; [apply Hs2|by apply Hs02|]. intros w3 Hs3.
    pose proof (env_same_trans _ _ _ Hs02 Hs3) as Hs03.
    assert (entry_at w p (co_space_index va (3 - Z.of_nat n)) =
            Some (load_u64 (env_mem w2) (a + 8 * co_space_index va (3 - Z.of_nat n)))) as He.
    { rewrite <- (entry_same w w2) by done. apply entry_at_frame.
      rewrite <- Ha. apply Hs2. by apply Hs. }
    set (e := load_u64 _ _) in *.
    destruct n as [|n]; cbn [translate] in Htr; rewrite He in Htr; cbn in Htr;
      destruct (entry_present e) eqn:Hpr; cbn [negb].
    + rewrite (proj2 (Z.eqb_eq _ _)) by lia. apply wp_ret. by rewrite <- Htr.
    + apply wp_ret. rewrite <- Htr. split; [done|]. unfold lookup_answers.
      cbn [fst snd]. split_and!; [done|done|lia|lia].
    + rewrite (proj2 (Z.eqb_neq _ _)) by lia.
      destruct (entry_pse e) eqn:Hps; apply wp_ret; [by rewrite <- Htr|].
      split; [|cbn [fst]; lia]. split; [done|]. exists n. cbn [fst snd].
      split_and!; [lia|lia| |done].
      eapply (tree_step w root T n p va); [done..|]. by exists e.
    + apply wp_ret. rewrite <- Htr. split; [done|]. unfold lookup_answers.
      cbn [fst snd]. split_and!; [done|done|lia|lia].
  - split; [by apply env_same_refl|]. exists 3%nat.
    split_and!; [lia|done|exact (tree_root _ _ _ HT)|done].
  - cbn [fst]. lia.
Qed.

(** The lookup that follows a map in state [ws]. *)
Lemma lookup_in w s T va :
  space_ok w s T -> CO_ARCH_VA_CANONICAL va = true ->
  exists r w', co_arch_guest_lookup s va w = (Ret r, w') /\
               lookup_answers (translate 3 w (pml4_pfn s) va) r /\ env_same w w'.
Proof using.
  intros (Hi & HT & _) Hcan.
  pose proof (wp_guest_lookup_root w (pml4_pfn s) T va Hi HT Hcan) as Hwp.
  unfold wp in Hwp. unfold co_arch_guest_lookup.
  destruct (co_arch_guest_lookup_root _ va w) as [[r|rc|] w'] eqn:Hrun; [|done..].
  destruct Hwp. by exists r, w'.
Qed.

Lemma empty_table_tree w q :
  env_used w q -> (forall i, 0 <= i < 512 -> entry_at w q i = Some 0) ->
  tree w q {[q := 0]} /\ forall va, translate 3 w q va = None.
Proof using.
  intros Hu Hz.
  assert (forall i c, 0 <= i < 512 -> ~ link w q i c) as Hno.
  { intros i c Hi (e & He & Hpr & _). rewrite Hz in He by done. by simplify_eq. }
  split.
  - split.
    + by rewrite lookup_singleton_eq.
    + intros p l Hp. apply lookup_singleton_Some in Hp as [<- <-]. split; [done|lia].
    + intros p l i c Hp _ Hi Hl. apply lookup_singleton_Some in Hp as [<- _].
      by destruct (Hno i c Hi).
    + intros p l i p' l' i' c Hp _ Hi _ _ _ Hl _.
      apply lookup_singleton_Some in Hp as [<- _]. by destruct (Hno i c Hi).
  - intros va. cbn [translate]. rewrite Hz by (by apply index_range_n; lia). done.
Qed.

Lemma wp_space_create w :
  env_inv w ->
  wp (co_arch_guest_space_create true)
    (fun s w' => env_step w w' /\ space_ok w' s {[pml4_pfn s := 0]} /\
       forall va, translate 3 w' (pml4_pfn s) va = None)
    (fun _ w' => env_step w w' /\ env_inv w') w.
Proof using.
  intros Hi. unfold co_arch_guest_space_create. wp_step. apply wp_ret. wp_step.
  apply wp_new_table; [done|..].
  - intros q w' Hrun. apply wp_ret.
    destruct (entry_new w q w' Hi Hrun) as (Hi' & _ & Hu & Hz & _).
    destruct (empty_table_tree w' q) as [HT Htr]; [apply Hu; by left|done|].
    split; [by eapply law_step_new|]. split; [|done]. split_and!; [done|done|].
    by rewrite map_size_singleton.
  - intros rc w' Hrun. pose proof (law_new w Hi) as Hl. rewrite Hrun in Hl.
    split; [by eapply law_step_new|apply Hl].
Qed.

(** A new space is empty. If [co_arch_guest_space_create] succeeds, the
    space owns one table and the lookup of every canonical address reports
    that nothing is mapped. *)
Theorem guest_space_create_empty w s w' :
  env_inv w -> co_arch_guest_space_create true w = (Ret s, w') ->
  (exists T, space_ok w' s T /\ size T = 1%nat) /\ co_arch_guest_space_tables s = 1 /\
  forall va, CO_ARCH_VA_CANONICAL va = true ->
    exists r w'', co_arch_guest_lookup s va w' = (Ret r, w'') /\ r.1 = (CO_RC_NOT_FOUND, 0).
Proof using.
  intros Hi Hrun. pose proof (wp_space_create w Hi) as Hwp. unfold wp in Hwp.
  rewrite Hrun in Hwp. destruct Hwp as (_ & Hok & Htr).
  split; [exists {[pml4_pfn s := 0]}; split; [done|apply map_size_singleton]|].
  split; [unfold co_arch_guest_space_tables; destruct Hok as (_ & _ & ->);
    by rewrite map_size_singleton|].
  intros va Hcan. destruct (lookup_in w' s _ va Hok Hcan) as (r & w'' & Hl & Hans & _).
  exists r, w''. split; [done|]. rewrite Htr in Hans.
  destruct r as [[rc x] lv], Hans as (? & ? & _). cbn in *. by subst.
Qed.

(** C10: mapping a page works as asked and nowhere else. If
    [co_arch_guest_map] succeeds, a lookup of any address in the page finds
    the page frame of [pa], and a lookup of a canonical address of any other
    page answers exactly what it answered before; the tables still form a
    tree that [space->tables] counts. *)
Theorem guest_map_then_lookup w s T va pa flags w' s' :
  space_ok w s T -> 0 <= va < 2 ^ 64 -> 0 <= pa < 2 ^ 63 -> leaf_flags flags ->
  co_arch_guest_map va pa flags (w, s) = (Ret tt, (w', s')) ->
  (exists T', space_ok w' s' T') /\
  (exists r w'', co_arch_guest_lookup s' va w' = (Ret r, w'') /\
                 r.1 = (CO_RC_OK, pa - pa mod CO_ARCH_PAGE_SIZE)) /\
  (forall va', 0 <= va' < 2 ^ 64 -> CO_ARCH_VA_CANONICAL va' = true ->
     va' / CO_ARCH_PAGE_SIZE <> va / CO_ARCH_PAGE_SIZE ->
     exists r1 r2 w1 w2, co_arch_guest_lookup s va' w = (Ret r1, w1) /\
       co_arch_guest_lookup s' va' w' = (Ret r2, w2) /\ r1.1 = r2.1).
Proof using.
  intros Hok Hva Hpa Hfl Hrun.
  assert (CO_ARCH_VA_CANONICAL va = true) as Hcan.
  { unfold co_arch_guest_map in Hrun. by destruct (CO_ARCH_VA_CANONICAL va). }
  pose proof (wp_guest_map w s T va pa flags Hok Hva Hpa Hfl) as Hwp.
  unfold wp in Hwp. rewrite Hrun in Hwp.
  destruct Hwp as (_ & T' & Hok' & Hr & Htr & Hoth). cbn [fst snd] in *.
  split; [by exists T'|]. split.
  - destruct (lookup_in w' s' T' va Hok' Hcan) as (r & w'' & Hl & Hans & _).
    exists r, w''. split; [done|]. rewrite Hr, Htr in Hans.
    destruct r as [[rc x] lv], Hans as [? ?]. cbn in *. by subst.
  - intros va' Hva' Hcan' Hne.
    destruct (lookup_in w s T va' Hok Hcan') as (r1 & w1 & Hl1 & Hans1 & _).
    destruct (lookup_in w' s' T' va' Hok' Hcan') as (r2 & w2 & Hl2 & Hans2 & _).
    exists r1, r2, w1, w2. split_and!; [done..|].
    rewrite Hr, (Hoth va' Hva' Hcan' Hne) in Hans2.
    destruct r1 as [[rc1 x1] l1], r2 as [[rc2 x2] l2]. unfold lookup_answers in *.
    destruct (translate 3 w (pml4_pfn s) va'); cbn in *; destruct_hyps; congruence.
Qed.

(** A map that fails, for whatever reason, changes no translation: every
    canonical address is looked up with the same answer as before, and the
    tables are still a tree. *)
Theorem guest_map_failure_harmless w s T va pa flags rc w' s' :
  space_ok w s T -> 0 <= va < 2 ^ 64 -> 0 <= pa < 2 ^ 63 -> leaf_flags flags ->
  co_arch_guest_map va pa flags (w, s) = (Fail rc, (w', s')) ->
  (exists T', space_ok w' s' T') /\
  (forall va', CO_ARCH_VA_CANONICAL va' = true ->
     exists r1 r2 w1 w2, co_arch_guest_lookup s va' w = (Ret r1, w1) /\
       co_arch_guest_lookup s' va' w' = (Ret r2, w2) /\ r1.1 = r2.1).
Proof using.
  intros Hok Hva Hpa Hfl Hrun.
  pose proof (wp_guest_map w s T va pa flags Hok Hva Hpa Hfl) as Hwp.
  unfold wp in Hwp. rewrite Hrun in Hwp.
  destruct Hwp as (_ & T' & Hok' & Hr & Htr). cbn [fst snd] in *.
  split; [by exists T'|]. intros va' Hcan'.
  destruct (lookup_in w s T va' Hok Hcan') as (r1 & w1 & Hl1 & Hans1 & _).
  destruct (lookup_in w' s' T' va' Hok' Hcan') as (r2 & w2 & Hl2 & Hans2 & _).
  exists r1, r2, w1, w2. split_and!; [done..|]. rewrite Hr, Htr in Hans2.
  destruct r1 as [[rc1 x1] l1], r2 as [[rc2 x2] l2]. unfold lookup_answers in *.
  destruct (translate 3 w (pml4_pfn s) va'); cbn in *; destruct_hyps; congruence.
Qed.
End space_theorems.
