(* ===== verification/SpaceTables.v ===== *)
(** The tables of an address space seen as pages of it ([arch/x86_64/space.c]):
    listing them, and giving each an address in the direct map. *)
From S2P Require Import Prelude.
From S2P Require Import Rc.
From S2P Require Import Mem.
From S2P Require Import Mmu.
From S2P Require Import Space.

Definition CO_SPACE_MAX_TABLES : Z := 4096.
Definition CO_SPACE_MAX_PASSES : Z := 8.

Section tables_ops.
Context {W : Type} `{SpaceEnv W}.

(** [co_space_collect_tables] at level [3 - n]; the state's second component
    is what [out] holds so far. *)
Fixpoint co_space_collect_tables (n : nat) (pfn limit : Z) : M (W * list Z) unit :=
  count ← gets (fun ws => Z.of_nat (length ws.2));
  if limit <=? count then mret tt else
  modify (fun ws => (ws.1, ws.2 ++ [pfn])) ;;
  match n with
  | O => mret tt
  | S n' =>
      mloop (fun i =>
        if 512 <=? i then mret (inr tt) else
        table ← lift (co_space_map pfn);
        match table with
        | None => mret (inr tt)
        | Some table =>
            entry ← lift (load_entry table i);
            lift (co_space_unmap table pfn) ;;
            (if negb (entry_present entry) then mret tt
             else if entry_pse entry then mret tt
             else co_space_collect_tables n' (entry_pfn entry) limit) ;;
            mret (inl (i + 1))
        end) 0
  end.

(** The list of one pass. *)
Definition collect_pass : M (W * co_arch_guest_space) (list Z) := fun ws =>
  match co_space_collect_tables 3 (pml4_pfn ws.2) CO_SPACE_MAX_TABLES (ws.1, []) with
  | (Ret _, (w, out)) => (Ret out, (w, ws.2))
  | (Fail rc, (w, _)) => (Fail rc, (w, ws.2))
  | (Fault, (w, _)) => (Fault, (w, ws.2))
  end.

(** [for (i = 0; i < count; i++)]: the failure it stops with, if any, and
    [added]. *)
Fixpoint map_listed (direct_map_base : Z) (list : list Z) (added : Z) :
    M (W * co_arch_guest_space) ((unit + co_rc_value_t) * Z) :=
  match list with
  | [] => mret (inl tt, added)
  | pfn :: list' =>
      let pa := u64 (Z.shiftl pfn CO_ARCH_PAGE_SHIFT) in
      let va := u64 (direct_map_base + pa) in
      space ← gets snd;
      r ← lift (co_arch_guest_lookup space va);
      if (bool_decide (r.1.1 = CO_RC_OK) && (r.1.2 =? pa))%bool
      then map_listed direct_map_base list' added else
      done ← attempt (co_arch_guest_map va pa KERNPG_TABLE);
      match done with
      | inr rc => mret (inr rc, added)
      | inl _ => map_listed direct_map_base list' (ulong (added + 1))
      end
  end.

(** One pass; the loop state is [(pass, total)], the result the outcome and
    [*mapped_out]. *)
Definition own_tables_pass (direct_map_base : Z) (st : Z * Z) :
    M (W * co_arch_guest_space) ((Z * Z) + ((unit + co_rc_value_t) * Z)) :=
  let '(pass, total) := st in
  if CO_SPACE_MAX_PASSES <=? pass then mret (inr (inl tt, total)) else
  list ← collect_pass;
  if CO_SPACE_MAX_TABLES <=? Z.of_nat (length list)
  then mret (inr (inr CO_RC_ERROR, total)) else
  r ← map_listed direct_map_base list 0;
  let total := ulong (total + r.2) in
  match r.1 with
  | inr rc => mret (inr (inr rc, total))
  | inl _ => if r.2 =? 0 then mret (inr (inl tt, total)) else mret (inl (pass + 1, total))
  end.

(** The outcome and [*mapped_out]. [alloc]: whether [co_os_malloc] found room
    for the list. *)
Definition co_arch_guest_map_own_tables (alloc : bool) (direct_map_base : Z) :
    M (W * co_arch_guest_space) ((unit + co_rc_value_t) * Z) :=
  fail_if (negb alloc) CO_RC_OUT_OF_MEMORY ;;
  mloop (own_tables_pass direct_map_base) (0, 0).
End tables_ops.

(** ** What is listed *)

Section tables_spec.
Context {W : Type} `{SpaceLaws W}.
Implicit Types (w : W) (T : gmap Z Z) (p q va : Z) (s : co_arch_guest_space).

Abbreviation env_same := (env_same_on env_inv env_frame env_used env_quiet).

(** The table slot [i] of [p] points to. *)
Definition child_at w p i : option Z :=
  e ← entry_at w p i; if (entry_present e && negb (entry_pse e))%bool then Some (entry_pfn e) else None.

(** Every table from [p] down, in the order of a depth-first walk. *)
Fixpoint tables_below (n : nat) w p : list Z :=
  p :: match n with
       | O => []
       | S n' => concat ((fun i => match child_at w p i with
                                   | Some q => tables_below n' w q
                                   | None => []
                                   end) <$> seqZ 0 512)
       end.

Lemma child_link w p i q : child_at w p i = Some q <-> link w p i q.
Proof using.
  unfold child_at, link. destruct (entry_at w p i) as [e|]; cbn;
    [|split; [done|by intros (? & ? & _)]].
  destruct (entry_present e) eqn:Ep, (entry_pse e) eqn:Es; cbn; split;
    try done; try (intros (? & ? & ? & ? & ?); simplify_eq; congruence).
  intros [= <-]. by exists e.
Qed.

Lemma take_take_app {A} n (l k : list A) : take n (take n l ++ k) = take n (l ++ k).
Proof.
  destruct (decide (length l <= n)%nat) as [Hl|Hl]; [by rewrite (take_ge l) by lia|].
  rewrite !take_app_le; [by rewrite take_take, Nat.min_id|lia|rewrite length_take; lia].
Qed.

Lemma wp_lift_mono {S A} (m : M W A) (Q : A -> W -> Prop) (Q' : A -> W * S -> Prop)
    (E : co_rc_value_t -> W -> Prop) E' w (s : S) :
  wp m Q E w -> (forall a w', Q a w' -> Q' a (w', s)) ->
  (forall rc w', E rc w' -> E' rc (w', s)) -> wp (lift m) Q' E' (w, s).
Proof. intros Hm HQ HE. apply wp_lift. eapply wp_mono; eauto. Qed.

(** The list is the depth-first walk, cut at the limit; nothing changes. *)
Lemma wp_collect n p (limit : nat) w0 root T w out :
  tree w0 root T -> T !! p = Some (3 - Z.of_nat n) -> (n <= 3)%nat -> env_same w0 w ->
  (length out <= limit)%nat ->
  wp (co_space_collect_tables n p (Z.of_nat limit))
     (fun _ ws => env_same w0 ws.1 /\ ws.2 = take limit (out ++ tables_below n w0 p))
     (fun _ _ => False) (w, out).
Proof using.
  intros HT. revert p w out. induction n as [|n IH]; intros p w out Hp Hn Hs Hout;
    cbn [co_space_collect_tables]; wp_step; wp_step; cbn [snd]; wp_step;
    try (apply wp_ret; cbn [fst snd]; split; [done|];
         rewrite take_app_le by lia; by rewrite take_ge by lia);
    wp_step; wp_step; cbn [fst snd].
  { apply wp_ret. cbn [fst snd tables_below]. split; [done|].
    by rewrite take_ge by (rewrite length_app; cbn; lia). }
  set (f := fun i => match child_at w0 p i with Some q => tables_below n w0 q | None => [] end).
  apply (wp_mloop _ (fun i ws => 0 <= i <= 512 /\ env_same w0 ws.1 /\
           ws.2 = take limit (out ++ p :: concat (f <$> seqZ 0 i))) (fun i _ => 512 - i)).
  2:{ cbn [fst snd]. split; [lia|]. split; [done|].
      change (concat (f <$> seqZ 0 0)) with (@nil Z).
      by rewrite take_ge by (rewrite length_app; cbn; lia). }
  2:{ lia. }
  clear w Hs Heqb. rename Hout into Hlen. intros i [w out'] (Hi & Hs & Hout). cbn [fst snd] in Hs, Hout. wp_step.
  { apply wp_ret. cbn [fst snd]. split; [done|]. replace i with 512 in Hout by lia. done. }
  destruct (tree_used _ _ _ HT p _ Hp) as [Hu _]. wp_step. apply wp_lift, wp_space_map;
    [apply Hs|by apply Hs|]. intros a w1 Ha Hs1. pose proof (env_same_trans _ _ _ Hs Hs1) as Hs01.
  wp_step. apply wp_lift, wp_load_entry. wp_step.
  apply wp_lift, wp_space_unmap; [apply Hs01|by apply Hs01|]. intros w2 Hs2.
  pose proof (env_same_trans _ _ _ Hs01 Hs2) as Hs02.
  assert (entry_at w0 p i = Some (load_u64 (env_mem w1) (a + 8 * i))) as He.
  { rewrite <- (entry_same w0 w1) by done. apply entry_at_frame. rewrite <- Ha.
    apply Hs1. by apply Hs. }
  set (e := load_u64 _ _) in *. wp_step.
  assert (seqZ 0 (i + 1) = seqZ 0 i ++ [i]) as Hseq.
  { rewrite seqZ_app by lia. done. }
  assert (Hf : forall out1, out1 = take limit (out' ++ f i) ->
    out1 = take limit (out ++ p :: concat (f <$> seqZ 0 (i + 1)))).
  { intros out1 ->. rewrite Hout, take_take_app. rewrite Hseq, fmap_app, concat_app. cbn.
    by rewrite app_nil_r, <- app_assoc. }
  assert (f i = match (if (entry_present e && negb (entry_pse e))%bool then Some (entry_pfn e) else None)
                with Some q => tables_below n w0 q | None => [] end) as Hfi
    by (unfold f, child_at; by rewrite He).
  assert (Hskip : (entry_present e && negb (entry_pse e))%bool = false ->
    0 <= i + 1 <= 512 /\ env_same w0 w2 /\ out' = take limit (out ++ p :: concat (f <$> seqZ 0 (i + 1)))).
  { intros Eb. split; [lia|]. split; [done|]. apply Hf. rewrite Hfi, Eb, app_nil_r, Hout.
    by rewrite take_take, Nat.min_id. }
  destruct (entry_present e) eqn:Ep; cbn [negb]; [destruct (entry_pse e) eqn:Es|].
  - wp_step. wp_step. split; [by apply Hskip|lia].
  - cbn [andb negb] in Hfi. eapply wp_ret_mono; [apply IH|].
    + replace (3 - Z.of_nat n) with (3 - Z.of_nat (S n) + 1) by lia.
      apply (tree_child _ _ _ HT p _ i); [done|lia|lia|]. by exists e.
    + lia.
    + done.
    + rewrite Hout, length_take. lia.
    + intros _ [w3 out3] [Hs3 Ho3]. cbn [fst snd] in Hs3, Ho3. wp_step.
      split; [|lia]. cbn [fst snd]. split; [lia|]. split; [done|]. apply Hf. by rewrite Hfi.
  - wp_step. wp_step. split; [by apply Hskip|lia].
Qed.

Lemma child_at_same w w' p i : env_same w w' -> env_used w p -> child_at w' p i = child_at w p i.
Proof using. intros Hs Hu. unfold child_at. by rewrite (entry_same w w'). Qed.

Lemma tables_below_same w w' root T n p :
  tree w root T -> env_same w w' -> T !! p = Some (3 - Z.of_nat n) -> (n <= 3)%nat ->
  tables_below n w' p = tables_below n w p.
Proof using.
  intros HT Hs. revert p. induction n as [|n IH]; intros p Hp Hn; cbn [tables_below]; [done|].
  f_equal. f_equal. apply list_fmap_ext. intros k i Hk. apply lookup_seqZ in Hk.
  destruct (tree_used _ _ _ HT p _ Hp) as [Hu _]. rewrite (child_at_same w w') by done.
  destruct (child_at w p i) as [q|] eqn:Eq; [|done]. apply IH; [|lia].
  replace (3 - Z.of_nat n) with (3 - Z.of_nat (S n) + 1) by lia.
  apply (tree_child _ _ _ HT p _ i); [done|lia|lia|by apply child_link].
Qed.

Lemma tables_below_in w root T n p :
  tree w root T -> T !! p = Some (3 - Z.of_nat n) -> (n <= 3)%nat ->
  Forall (fun q => is_Some (T !! q)) (tables_below n w p).
Proof using.
  intros HT. revert p. induction n as [|n IH]; intros p Hp Hn; cbn [tables_below];
    (constructor; [by eexists|]); [constructor|].
  apply Forall_concat, Forall_fmap, Forall_forall. intros i Hi. apply elem_of_seqZ in Hi. cbn.
  destruct (child_at w p i) as [q|] eqn:Eq; [|constructor]. apply IH; [|lia].
  replace (3 - Z.of_nat n) with (3 - Z.of_nat (S n) + 1) by lia.
  apply (tree_child _ _ _ HT p _ i); [done|lia|lia|by apply child_link].
Qed.

(** ** Giving the tables an address *)

Variables (w_start : W) (base : Z).
Hypothesis Hbase : 0 <= base < 2 ^ 64.
Hypothesis Hpage : base mod 2 ^ 12 = 0.

(** The address of frame [p] in the direct map. *)
Definition direct p : Z := u64 (base + p * 2 ^ 12).

Definition has_direct w root p : Prop :=
  CO_ARCH_VA_CANONICAL (direct p) = true /\
  translate 3 w root (direct p) = Some (p * 2 ^ 12).

(** The space is sound, and an address that no frame has in the direct map
    translates as at the start. *)
Definition kept root (ws : W * co_arch_guest_space) : Prop :=
  exists T, space_ok ws.1 ws.2 T /\ pml4_pfn ws.2 = root /\
    forall va, 0 <= va < 2 ^ 64 -> CO_ARCH_VA_CANONICAL va = true ->
      2 ^ 52 <= u64 (va - base) ->
      translate 3 ws.1 root va = translate 3 w_start root va.

Lemma kept_same root w w' s : kept root (w, s) -> env_same w w' -> kept root (w', s).
Proof using.
  intros (T & Hok & Hr & Hk) Hs. destruct (space_ok_same w w' s T Hok Hs) as [Hok' Ht].
  exists T. split; [done|]. split; [done|]. intros va H1 H2 H3. cbn [fst snd] in *.
  rewrite Ht; [by apply Hk|lia|]. subst root. apply (tree_root w _ T), Hok.
Qed.

Lemma direct_outside p va :
  0 <= p < 2 ^ 40 -> 0 <= va < 2 ^ 64 -> 2 ^ 52 <= u64 (va - base) ->
  va / 2 ^ 12 <> direct p / 2 ^ 12.
Proof using Hbase Hpage. unfold direct. intros. zwrap. Qed.

Lemma wp_lookup_kept root w s va :
  kept root (w, s) ->
  wp (co_arch_guest_lookup s va)
     (fun r w' => env_same w w' /\ (r.1.1 = CO_RC_OK ->
        CO_ARCH_VA_CANONICAL va = true /\ translate 3 w root va = Some r.1.2))
     (fun _ _ => False) w.
Proof using.
  intros (T & Hok & Hr & _). cbn [fst snd] in *. subst root.
  destruct (CO_ARCH_VA_CANONICAL va) eqn:Hc.
  - destruct (lookup_in w s T va Hok Hc) as (r & w' & Hrun & Ha & Hs). unfold wp. rewrite Hrun.
    split; [done|]. intros Hrc. split; [done|]. unfold lookup_answers in Ha.
    destruct (translate 3 w _ va); [by destruct Ha as [_ ->]|]. destruct Ha. congruence.
  - unfold co_arch_guest_lookup, co_arch_guest_lookup_root. rewrite Hc. cbn [negb]. wp_step.
    split; [apply env_same_refl, Hok|done].
Qed.

Lemma kept_mapped root w s p ws :
  kept root (w, s) -> 0 <= p < 2 ^ 40 -> mapped w root (direct p) (p * 2 ^ 12) ws -> kept root ws.
Proof using Hbase Hpage.
  intros (T & Hok & Hr & Hk) Hp (_ & T' & Hok' & Hr' & _ & Hoth). exists T'.
  split; [done|]. split; [done|]. intros va H1 H2 H3. rewrite Hoth; [by apply Hk|done|done|].
  by apply direct_outside.
Qed.

Lemma kept_unchanged root w s ws : kept root (w, s) -> unchanged w root ws -> kept root ws.
Proof using.
  intros (T & Hok & Hr & Hk) (_ & T' & Hok' & Hr' & Ht). exists T'.
  split; [done|]. split; [done|]. intros va H1 H2 H3. rewrite Ht. by apply Hk.
Qed.

Lemma wp_map_listed root l added w s :
  kept root (w, s) -> Forall (fun p => 0 <= p < 2 ^ 40) l ->
  0 <= added -> added + Z.of_nat (length l) < 2 ^ 32 ->
  wp (map_listed base l added)
     (fun r ws => kept root ws /\ added <= r.2 <= added + Z.of_nat (length l) /\
        (r.1 = inl tt -> r.2 = added -> env_same w ws.1 /\
           Forall (has_direct w root) l))
     (fun _ _ => False) (w, s).
Proof using Hbase Hpage.
  revert added w s. induction l as [|p l IH]; intros added w s Hk Hl Hadd Hb; cbn [map_listed].
  { wp_step. cbn [fst snd length]. split; [done|]. split; [lia|]. intros _ _.
    split; [|constructor]. destruct Hk as (T & Hok & _). apply env_same_refl, Hok. }
  apply Forall_cons in Hl as [Hp Hl]. cbn [length] in Hb.
  assert (u64 (Z.shiftl p CO_ARCH_PAGE_SHIFT) = p * 2 ^ 12) as Epa.
  { change CO_ARCH_PAGE_SHIFT with 12. rewrite Z.shiftl_mul_pow2 by lia. apply u64_small. lia. }
  rewrite Epa. fold (direct p). cbn zeta. wp_step. wp_step. cbn [snd]. wp_step.
  apply (wp_lift_mono _ _ _ _ _ _ _ (wp_lookup_kept root w s (direct p) Hk)); [|done].
  intros r w1 [Hs Hr]. pose proof (kept_same root w w1 s Hk Hs) as Hk1.
  destruct (bool_decide (r.1.1 = CO_RC_OK) && (r.1.2 =? p * 2 ^ 12))%bool eqn:Eb.
  - apply andb_true_iff in Eb as [Eb1%bool_decide_eq_true Eb2%Z.eqb_eq].
    eapply wp_ret_mono; [apply IH; [done|done|done|lia]|]. intros r' ws (Hkw & Hr' & Hz).
    split; [done|]. split; [cbn [length]; lia|]. intros Hrc Ha.
    destruct (Hz Hrc Ha) as [Hsw Hall]. split; [by eapply env_same_trans|].
    destruct Hk as (T & Hok & Hroot & _). cbn [fst snd] in *.
    constructor; [destruct (Hr Eb1) as [? Ht]; split; [done|]; rewrite Ht; by f_equal|]. eapply Forall_impl; [exact Hall|].
    intros q. unfold has_direct. destruct (space_ok_same w w1 s T Hok Hs) as [_ ->];
      [done|lia|subst root; apply (tree_root w _ T), Hok].
  - wp_step. wp_step. destruct Hk1 as (T & Hok & Hroot & Hrest). cbn [fst snd] in *.
    eapply wp_mono.
    + apply (wp_guest_map w1 s T (direct p) (p * 2 ^ 12) KERNPG_TABLE Hok);
        [apply u64_range|lia|split; [split; [done|reflexivity]|split; reflexivity]].
    + intros [] ws Hm. rewrite Hroot in Hm. destruct ws as [w2 s2].
      assert (kept root (w2, s2)) as Hk2 by (eapply kept_mapped; [by exists T|done|done]).
      unfold ulong. rewrite u32_small by lia.
      eapply wp_ret_mono; [apply IH; [done|done|lia|lia]|]. intros r' ws' (Hkw & Hr' & _).
      split; [done|]. split; [cbn [length]; lia|]. intros _ ?. lia.
    + intros rc ws Hu. rewrite Hroot in Hu. wp_step. cbn [fst snd].
      assert (kept root ws) as Hk2 by (eapply kept_unchanged; [by exists T|done]).
      split; [done|]. split; [cbn [length]; lia|]. done.
Qed.

Lemma wp_collect_pass root w s :
  kept root (w, s) ->
  wp collect_pass
     (fun l ws => ws.2 = s /\ env_same w ws.1 /\ l = take (Z.to_nat CO_SPACE_MAX_TABLES) (tables_below 3 w root))
     (fun _ _ => False) (w, s).
Proof using.
  intros (T & Hok & Hr & _). cbn [fst snd] in *.
  assert (T !! root = Some (3 - Z.of_nat 3)) as Hroot
    by (subst root; apply (tree_root w _ T), Hok).
  pose proof (wp_collect 3 root (Z.to_nat CO_SPACE_MAX_TABLES) w _ T w [] ltac:(apply Hok) Hroot ltac:(lia)
    (env_same_refl _ ltac:(apply Hok)) (Nat.le_0_l _)) as Hwp.
  rewrite Z2Nat.id in Hwp by done. revert Hwp. generalize (Z.to_nat CO_SPACE_MAX_TABLES).
  intros lim. unfold wp, collect_pass. cbn [fst snd]. rewrite Hr.
  destruct (co_space_collect_tables 3 root _ (w, [])) as [[[]|rc|] [w' out]]; [|done..].
  cbn [fst snd]. intros [? ?]. auto.
Qed.

(** Every table of the space has its address in the direct map. *)
Definition all_direct root w : Prop := Forall (has_direct w root) (tables_below 3 w root).

Lemma kept_listed root w s :
  kept root (w, s) -> Forall (fun p => 0 <= p < 2 ^ 40) (tables_below 3 w root).
Proof using.
  intros (T & Hok & Hr & _). cbn [fst snd] in *. subst root.
  pose proof (tree_root _ _ _ (proj1 (proj2 Hok))) as Hroot.
  eapply Forall_impl; [apply (tables_below_in w _ T 3 _ (proj1 (proj2 Hok))); [done|lia]|].
  intros q [l Hq]. apply (law_range w); [apply Hok|].
  by apply (tree_used _ _ _ (proj1 (proj2 Hok)) q l).
Qed.

Lemma wp_own_tables root w s :
  kept root (w, s) ->
  wp (co_arch_guest_map_own_tables true base)
     (fun r ws => kept root ws /\ (r.1 = inl tt -> r.2 < 8 -> all_direct root ws.1))
     (fun _ _ => False) (w, s).
Proof using Hbase Hpage.
  intros Hk0. unfold co_arch_guest_map_own_tables. wp_step. wp_step; [done|].
  apply (wp_mloop _ (fun st ws => kept root ws /\ 0 <= st.1 <= 8 /\
           st.1 <= st.2 <= 4096 * st.1) (fun st _ => 8 - st.1)).
  2:{ cbn [fst snd]. split; [done|lia]. }
  2:{ cbn [fst snd]. lia. }
  intros [pass total] [w1 s1] (Hk & Hp & Ht). cbn [fst snd] in *. unfold own_tables_pass.
  change CO_SPACE_MAX_PASSES with 8. change CO_SPACE_MAX_TABLES with 4096.
  wp_step; [wp_step; cbn [fst snd]; split; [done|lia]|]. wp_step.
  eapply wp_ret_mono; [by apply (wp_collect_pass root)|]. intros l [w2 s2] (Hs2 & Hs & El).
  cbn [fst snd] in *. subst s2. pose proof (kept_same root w1 w2 s1 Hk Hs) as Hk2.
  wp_step; [by wp_step|]. wp_step.
  assert (l = tables_below 3 w1 root) as El'
    by (rewrite El; apply take_ge; rewrite El, length_take in *; change CO_SPACE_MAX_TABLES with 4096 in *; lia).
  eapply wp_ret_mono; [apply (wp_map_listed root); [done| |lia|lia]|].
  { rewrite El'. by eapply kept_listed. }
  intros [[[]|rc] added] [w3 s3] (Hk3 & Ha & Hz); cbn [fst snd] in *; [|by wp_step].
  unfold ulong. rewrite u32_small by lia. wp_step; wp_step; cbn [fst snd].
  - split; [done|]. intros _ _. destruct (Hz eq_refl ltac:(lia)) as [Hs3 Hall].
    destruct Hk2 as (T & Hok & Hr & _). cbn [fst snd] in *.
    assert (T !! root = Some (3 - Z.of_nat 3)) as Hroot
      by (subst root; apply (tree_root w2 _ T), Hok).
    destruct Hk as (T1 & Hok1 & Hr1 & _). cbn [fst snd] in *.
    unfold all_direct. rewrite (tables_below_same w2 w3 (pml4_pfn s1) T);
      [|apply Hok|done|done|lia].
    rewrite (tables_below_same w1 w2 (pml4_pfn s1) T1);
      [|apply Hok1|done|subst root; apply (tree_root w1 _ T1), Hok1|lia].
    rewrite <- El'. eapply Forall_impl; [exact Hall|]. intros q.
    unfold has_direct. destruct (space_ok_same w2 w3 s1 T Hok Hs3) as [_ ->]; [done|lia|done].
  - split; [|lia]. split; [done|lia].
Qed.
End tables_spec.

Lemma all_direct_looked_up {W} `{SpaceLaws W} (w : W) s T base root :
  space_ok w s T -> pml4_pfn s = root -> all_direct base root w ->
  Forall (fun p => exists r w'', co_arch_guest_lookup s (direct base p) w = (Ret r, w'') /\
                                 r.1 = (CO_RC_OK, p * 2 ^ 12)) (tables_below 3 w root).
Proof.
  intros Hok Hr Hall. eapply Forall_impl; [exact Hall|]. intros p [Hc Htr].
  destruct (lookup_in w s T _ Hok Hc) as (r & w'' & Hl & Ha & _). exists r, w''.
  split; [done|]. rewrite Hr, Htr in Ha. destruct r as [[rc x] l], Ha. cbn in *. by subst.
Qed.

(** ** Properties *)

Section tables_theorem.
Context {W : Type} `{SpaceLaws W}.

(** The tables get an address. [co_arch_guest_map_own_tables] always
    returns; the tables are still a tree and every address that no frame has
    in the direct map is looked up as before. When it reports success having
    made fewer than eight mappings, each page table of the space, the ones it
    had to add included, is found at its own address in the direct map. *)
Theorem own_tables_mapped w s T base :
  space_ok w s T -> 0 <= base < 2 ^ 64 -> base mod 2 ^ 12 = 0 ->
  exists out total w' s',
    co_arch_guest_map_own_tables true base (w, s) = (Ret (out, total), (w', s')) /\
    (exists T', space_ok w' s' T') /\
    (forall va, 0 <= va < 2 ^ 64 -> CO_ARCH_VA_CANONICAL va = true ->
       2 ^ 52 <= u64 (va - base) ->
       exists r1 r2 w1 w2, co_arch_guest_lookup s va w = (Ret r1, w1) /\
         co_arch_guest_lookup s' va w' = (Ret r2, w2) /\ r1.1 = r2.1) /\
    (out = inl tt -> total < 8 ->
     Forall (fun p => exists r w'', co_arch_guest_lookup s' (direct base p) w' = (Ret r, w'') /\
                                    r.1 = (CO_RC_OK, p * 2 ^ 12))
       (tables_below 3 w' (pml4_pfn s'))).
Proof using.
  intros Hok Hb Hp.
  assert (kept w base (pml4_pfn s) (w, s)) as Hk by (exists T; auto).
  destruct (wp_total _ _ _ (wp_own_tables w base Hb Hp (pml4_pfn s) w s Hk))
    as ([out total] & [w' s'] & Hrun & (T' & Hok' & Hr & Hsame) & Hall).
  cbn [fst snd] in *. exists out, total, w', s'. split; [done|]. split; [by exists T'|]. split.
  - intros va H1 H2 H3. destruct (lookup_in w s T va Hok H2) as (r1 & w1 & Hl1 & Ha1 & _).
    destruct (lookup_in w' s' T' va Hok' H2) as (r2 & w2 & Hl2 & Ha2 & _).
    exists r1, r2, w1, w2. split_and!; [done..|]. rewrite Hr, Hsame in Ha2 by done.
    destruct r1 as [[rc1 x1] l1], r2 as [[rc2 x2] l2]. unfold lookup_answers in *.
    destruct (translate 3 w (pml4_pfn s) va); cbn in *; destruct_hyps; congruence.
  - intros Ho Ht. rewrite Hr. apply (all_direct_looked_up w' s' T'); [done|done|].
    by apply Hall.
Qed.
End tables_theorem.
