(* ===== verification/SpaceDestroy.v ===== *)
(** Giving the tables of an address space back
    ([co_arch_guest_space_destroy] in [arch/x86_64/space.c]).

    [SpaceReturns] adds to the contract of [Space] what the host promises when
    a page is returned to it. *)
From S2P Require Import Prelude.
From S2P Require Import Rc.
From S2P Require Import Mem.
From S2P Require Import Mmu.
From S2P Require Import Space.
From S2P Require Import SpaceTables.

(** A page given back is no longer a table; the others stay as they are. Pages
    are given back only where no frame source is installed. *)
Class SpaceReturns (W : Type) `{SpaceLaws W} := {
  law_put w p :
    env_inv w -> env_used w p -> co_space_frame_source w = None ->
    exists w', co_os_put_page p w = (Ret tt, w') /\ env_inv w' /\
      co_space_frame_source w' = co_space_frame_source w /\
      (forall q, env_used w' q <-> env_used w q /\ q <> p) /\
      (forall q, env_used w q -> q <> p -> env_frame w' q = env_frame w q /\
                 forall i, 0 <= i < 512 -> entry_at w' q i = entry_at w q i);
  law_source w w' : env_quiet w w' -> co_space_frame_source w' = co_space_frame_source w;
}.

(** ** Every table is listed once *)

Section once.
Context {W : Type} `{SpaceLaws W}.
Implicit Types (w : W) (T : gmap Z Z) (p q : Z).

Lemma child_step w root T n p i q :
  tree w root T -> T !! p = Some (3 - Z.of_nat (S n)) -> (S n <= 3)%nat -> 0 <= i < 512 ->
  child_at w p i = Some q -> T !! q = Some (3 - Z.of_nat n).
Proof using.
  intros HT Hp Hn Hi Hq. replace (3 - Z.of_nat n) with (3 - Z.of_nat (S n) + 1) by lia.
  apply (tree_child _ _ _ HT p _ i); [done|lia|lia|by apply child_link].
Qed.

(** What hangs below the first [m] slots of [p]. *)
Definition kids (n : nat) w p (m : Z) : list Z :=
  concat ((fun i => match child_at w p i with
                    | Some q => tables_below n w q
                    | None => []
                    end) <$> seqZ 0 m).

Lemma below_kids n w p : tables_below (S n) w p = p :: kids n w p 512.
Proof using. done. Qed.

Lemma elem_of_kids n w p m x :
  x ∈ kids n w p m <->
  exists i q, 0 <= i < m /\ child_at w p i = Some q /\ x ∈ tables_below n w q.
Proof using.
  unfold kids. rewrite list_elem_of_In, in_concat. split.
  - intros (l & Hl & Hx). apply list_elem_of_In in Hx.
    apply list_elem_of_In, list_elem_of_fmap in Hl as (i & -> & Hi). apply elem_of_seqZ in Hi.
    destruct (child_at w p i) as [q|] eqn:Eq; [|by apply elem_of_nil in Hx].
    exists i, q. auto with lia.
  - intros (i & q & Hi & Hq & Hx). exists (tables_below n w q).
    split; [|by apply list_elem_of_In]. apply list_elem_of_In, list_elem_of_fmap. exists i.
    split; [by rewrite Hq|]. apply elem_of_seqZ. lia.
Qed.

Lemma kids_next n w p i :
  0 <= i -> kids n w p (i + 1) =
            kids n w p i ++ match child_at w p i with Some q => tables_below n w q | None => [] end.
Proof using.
  intros Hi. unfold kids. rewrite seqZ_app by lia. rewrite fmap_app, concat_app.
  cbn [fmap]. change (seqZ (0 + i) 1) with [0 + i]. cbn. by rewrite app_nil_r.
Qed.

Lemma elem_of_below n w p x :
  x ∈ tables_below n w p <->
  x = p \/ exists n' i q, n = S n' /\ 0 <= i < 512 /\ child_at w p i = Some q /\
                          x ∈ tables_below n' w q.
Proof using.
  destruct n as [|n]; [cbn [tables_below]|rewrite below_kids]; rewrite elem_of_cons.
  - split; [|by intros [?|(? & ? & ? & ? & _)]; [left|]]. intros [?|Hx]; [by left|].
    by apply elem_of_nil in Hx.
  - rewrite elem_of_kids. split; (intros [?|Hx]; [by left|right]).
    + destruct Hx as (i & q & ?). by exists n, i, q.
    + destruct Hx as (n' & i & q & [= <-] & ?). by exists i, q.
Qed.

Lemma below_level n w root T p x :
  tree w root T -> T !! p = Some (3 - Z.of_nat n) -> (n <= 3)%nat -> x ∈ tables_below n w p ->
  exists l, T !! x = Some l /\ 3 - Z.of_nat n <= l /\ (l = 3 - Z.of_nat n -> x = p).
Proof using.
  intros HT. revert p. induction n as [|n IH]; intros p Hp Hn Hx;
    apply elem_of_below in Hx as [->|(n' & i & q & E & Hi & Hq & Hx)]; try done;
    try (eexists; split; [done|split; [lia|done]]).
  injection E as <-. pose proof (child_step _ _ _ _ _ _ _ HT Hp Hn Hi Hq) as Hq'.
  destruct (IH q Hq' ltac:(lia) Hx) as (l & Hl & Hle & _). exists l.
  split; [done|]. split; [lia|]. lia.
Qed.

(** Two tables of one level have nothing below them in common. *)
Lemma below_meet n w root T p p' x :
  tree w root T -> T !! p = Some (3 - Z.of_nat n) -> T !! p' = Some (3 - Z.of_nat n) ->
  (n <= 3)%nat -> x ∈ tables_below n w p -> x ∈ tables_below n w p' -> p = p'.
Proof using.
  intros HT. revert p p'. induction n as [|n IH]; intros p p' Hp Hp' Hn Hx Hx';
    destruct (below_level _ _ _ _ _ _ HT Hp Hn Hx) as (l & Hl & _ & Hlp);
    destruct (below_level _ _ _ _ _ _ HT Hp' Hn Hx') as (l' & Hl' & _ & Hlp'); simplify_eq.
  - apply elem_of_below in Hx as [->|(? & ? & ? & ? & _)], Hx' as [->|(? & ? & ? & ? & _)]; done.
  - apply elem_of_below in Hx as [->|(n1 & i & q & [= <-] & Hi & Hq & Hx)];
      [apply Hlp'; congruence|].
    apply elem_of_below in Hx' as [->|(n1 & i' & q' & [= <-] & Hi' & Hq' & Hx')];
      [symmetry; apply Hlp; congruence|].
    pose proof (child_step _ _ _ _ _ _ _ HT Hp Hn Hi Hq).
    pose proof (child_step _ _ _ _ _ _ _ HT Hp' Hn Hi' Hq').
    assert (q = q') as <- by (apply IH; [done|done|lia|done|done]).
    apply (tree_inj _ _ _ HT p (3 - Z.of_nat (S n)) i p' (3 - Z.of_nat (S n)) i' q);
      [done|lia|done|done|lia|done|by apply child_link..].
Qed.

Lemma kids_not_self n w root T p m :
  tree w root T -> T !! p = Some (3 - Z.of_nat (S n)) -> (S n <= 3)%nat -> m <= 512 ->
  p ∉ kids n w p m.
Proof using.
  intros HT Hp Hn Hm (i & q & Hi & Hq & Hx)%elem_of_kids.
  pose proof (child_step w root T n p i _ HT Hp Hn ltac:(lia) Hq) as HTq.
  destruct (below_level _ _ _ _ _ _ HT HTq ltac:(lia) Hx) as (l & Hl & Hle & _).
  rewrite Hp in Hl. simplify_eq. lia.
Qed.

(** What hangs below a slot hangs below no earlier one. *)
Lemma kids_fresh n w root T p i q x :
  tree w root T -> T !! p = Some (3 - Z.of_nat (S n)) -> (S n <= 3)%nat -> 0 <= i < 512 ->
  child_at w p i = Some q -> x ∈ tables_below n w q -> x ∉ kids n w p i.
Proof using.
  intros HT Hp Hn Hi Hq Hx (j & q' & Hj & Hq' & Hx')%elem_of_kids.
  pose proof (child_step w root T n p i _ HT Hp Hn Hi Hq) as HTq.
  pose proof (child_step w root T n p j _ HT Hp Hn ltac:(lia) Hq') as HTq'.
  assert (q = q') as <- by (eapply (below_meet n w); try done; lia).
  destruct (tree_inj _ _ _ HT p (3 - Z.of_nat (S n)) i p (3 - Z.of_nat (S n)) j q) as [_ ?];
    [done|lia|lia|done|lia|lia|by apply child_link..|]. lia.
Qed.

Lemma below_once n w root T p :
  tree w root T -> T !! p = Some (3 - Z.of_nat n) -> (n <= 3)%nat -> NoDup (tables_below n w p).
Proof using.
  intros HT. revert p. induction n as [|n IH]; intros p Hp Hn; [apply NoDup_singleton|].
  rewrite below_kids. apply NoDup_cons. split; [eapply kids_not_self; [done..|lia]|].
  assert (forall m : nat, (m <= 512)%nat -> NoDup (kids n w p (Z.of_nat m))) as Hk;
    [|change 512 with (Z.of_nat 512); by apply Hk].
  induction m as [|m IHm]; intros Hm; [apply NoDup_nil; constructor|].
  rewrite Nat2Z.inj_succ, <- Z.add_1_r, kids_next by lia. apply NoDup_app.
  destruct (child_at w p (Z.of_nat m)) as [q|] eqn:Eq.
  - pose proof (child_step w root T n p (Z.of_nat m) _ HT Hp Hn ltac:(lia) Eq) as HTq.
    split; [apply IHm; lia|]. split; [|apply IH; [done|lia]].
    intros x Hx Hxq. eapply (kids_fresh n w root T p (Z.of_nat m)); try done. lia.
  - split; [apply IHm; lia|]. split; [|constructor]. intros x _ Hx. by apply elem_of_nil in Hx.
Qed.

(** The tables [T] counts are as many as are listed, if it has no others. *)
Lemma below_size w root T :
  tree w root T -> (forall q, is_Some (T !! q) -> q ∈ tables_below 3 w root) ->
  size T = length (tables_below 3 w root).
Proof using.
  intros HT Hall. pose proof (tree_root _ _ _ HT) as Hroot.
  pose proof (below_once 3 w root T root HT Hroot ltac:(lia)) as Hnd.
  pose proof (tables_below_in w root T 3 root HT Hroot ltac:(lia)) as Hin.
  rewrite Forall_forall in Hin. rewrite <- size_dom, <- (size_list_to_set (C := gset Z)) by done.
  apply set_size_proper. intros q. rewrite elem_of_dom, elem_of_list_to_set.
  split; [apply Hall|apply Hin].
Qed.
End once.

(** ** Freeing *)

Section free.
Context {W : Type} `{SpaceReturns W}.
Implicit Types (w : W) (T : gmap Z Z) (p q : Z).

Abbreviation env_same := (env_same_on env_inv env_frame env_used env_quiet).

(** [w] is [w0] less the tables [gone], which the host has back unless a
    frame source owns them. *)
Definition given_back w0 (gone : Z -> Prop) w : Prop :=
  env_inv w /\ co_space_frame_source w = co_space_frame_source w0 /\
  (forall q, env_used w q <-> env_used w0 q /\ (co_space_frame_source w0 = None -> ~ gone q)) /\
  (forall q, env_used w0 q -> ~ gone q ->
     env_frame w q = env_frame w0 q /\ forall i, 0 <= i < 512 -> entry_at w q i = entry_at w0 q i).

Lemma given_ext w0 w (gone gone' : Z -> Prop) :
  (forall x, gone x <-> gone' x) -> given_back w0 gone w -> given_back w0 gone' w.
Proof using H1.
  intros Hg (Hi & Hs & Hu & Hf). split_and!; [done|done| |].
  - intros q. by rewrite Hu, Hg.
  - intros q Hq Hn. apply Hf; [done|]. by rewrite Hg.
Qed.

Lemma given_used w0 gone w q : given_back w0 gone w -> env_used w0 q -> ~ gone q -> env_used w q.
Proof using H1. intros (_ & _ & Hu & _) Hq Hn. by apply Hu. Qed.

Lemma given_same w0 gone w w' : given_back w0 gone w -> env_same w w' -> given_back w0 gone w'.
Proof using H1.
  intros Hg Hs. pose proof Hg as (Hi & Hsrc & Hu & Hf). split_and!.
  - apply Hs.
  - rewrite <- Hsrc. apply law_source, Hs.
  - intros q. rewrite <- Hu. apply Hs.
  - intros q Hq Hn. pose proof (given_used _ _ _ _ Hg Hq Hn) as Hw.
    destruct (Hf q Hq Hn) as [<- He]. split; [by apply Hs|]. intros i Hr.
    rewrite <- He by done. by apply entry_same.
Qed.

(** The end of [co_space_free_table]: hand the page back, count it. *)
Lemma wp_put_table w0 gone w c p :
  given_back w0 gone w -> env_used w0 p -> ~ gone p ->
  wp (source ← gets (fun ws : W * Z => co_space_frame_source ws.1);
      match source with
      | None => lift (co_os_put_page p)
      | Some _ => mret tt
      end ;;
      modify (fun ws => (ws.1, ulong (ws.2 + 1))))
     (fun _ ws => given_back w0 (fun x => gone x \/ x = p) ws.1 /\ ws.2 = ulong (c + 1))
     (fun _ _ => False) (w, c).
Proof using H1.
  intros Hg Hp Hn. pose proof Hg as (Hi & Hs & Hu & Hf). wp_step. wp_step. wp_step. cbn [fst].
  destruct (co_space_frame_source w) as [src|] eqn:Es.
  - wp_step. wp_step. cbn [fst snd]. split; [|done]. split_and!; [done|congruence| |].
    + intros q. rewrite Hu, <- Hs. split; intros [? ?]; (split; [done|congruence]).
    + intros q Hq Hnq. apply Hf; [done|]. intros ?. apply Hnq. by left.
  - destruct (law_put w p Hi (given_used _ _ _ _ Hg Hp Hn) Es)
      as (w' & Hrun & Hi' & Hs' & Hu' & Hf').
    apply wp_lift. unfold wp at 1. rewrite Hrun. wp_step. cbn [fst snd]. split; [|done].
    split_and!; [done|congruence| |].
    + intros q. rewrite Hu', Hu, <- Hs. split.
      * intros [[G1 G2] G3]. split; [done|]. intros _ [?|?]; [by apply G2|done].
      * intros [G1 G2]. split; [split; [done|]|]; [intros _ ?|intros ->]; apply G2; auto.
    + intros q Hq Hnq. assert (~ gone q /\ q <> p) as [Hnq' Hqp] by (split; intros ?; apply Hnq; auto).
      destruct (Hf q Hq Hnq') as [<- He].
      destruct (Hf' q (given_used _ _ _ _ Hg Hq Hnq') Hqp) as [<- He']. split; [done|].
      intros i Hr. by rewrite He', He.
Qed.

Lemma ulong_count c a b : ulong (ulong (c + a) + b) = ulong (c + (a + b)).
Proof. zwrap. Qed.

(** One slot of the table [p], seen at [a]; [free] frees what is below. *)
Lemma wp_free_slot n (free : Z -> M (W * Z) unit) p w0 root T gone w c c' a i :
  (forall q gone w c, T !! q = Some (3 - Z.of_nat n) -> given_back w0 gone w ->
     (forall x, x ∈ tables_below n w0 q -> ~ gone x) -> ulong c = c ->
     wp (free q) (fun _ ws => given_back w0 (fun x => gone x \/ x ∈ tables_below n w0 q) ws.1 /\
                              ws.2 = ulong (c + Z.of_nat (length (tables_below n w0 q))))
        (fun _ _ => False) (w, c)) ->
  tree w0 root T -> T !! p = Some (3 - Z.of_nat (S n)) -> (S n <= 3)%nat -> env_used w0 p ->
  env_frame w0 p = Some a -> (forall x, x ∈ tables_below (S n) w0 p -> ~ gone x) -> 0 <= i < 512 ->
  ~ (gone p \/ p ∈ kids n w0 p i) -> given_back w0 (fun x => gone x \/ x ∈ kids n w0 p i) w ->
  c' = ulong (c + Z.of_nat (length (kids n w0 p i))) ->
  wp (entry ← lift (load_entry a i);
      if negb (entry_present entry) then mret tt
      else if entry_pse entry then mret tt
      else free (entry_pfn entry))
     (fun _ ws => given_back w0 (fun x => gone x \/ x ∈ kids n w0 p (i + 1)) ws.1 /\
                  ws.2 = ulong (c + Z.of_nat (length (kids n w0 p (i + 1)))))
     (fun _ _ => False) (w, c').
Proof using H1.
  intros Hfree HT Hp Hn Hu Ha0 Hfresh Hi Hnp Hg Hc'. pose proof Hg as (_ & _ & _ & Hf).
  destruct (Hf p Hu Hnp) as [Hfr He]. rewrite Ha0 in Hfr. specialize (He i Hi).
  rewrite (entry_at_frame _ _ _ _ Hfr) in He.
  wp_step. apply wp_lift, wp_load_entry. set (e := load_u64 _ _) in *.
  assert (child_at w0 p i = if (entry_present e && negb (entry_pse e))%bool
                            then Some (entry_pfn e) else None) as Hch
    by (unfold child_at; by rewrite <- He).
  rewrite kids_next, Hch by lia.
  destruct (entry_present e) eqn:Ep; cbn [negb andb] in *;
    [destruct (entry_pse e) eqn:Es; cbn [negb andb] in *|].
  - wp_step. cbn [fst snd]. by rewrite app_nil_r.
  - pose proof (child_step w0 root T n p i _ HT Hp Hn Hi Hch) as HTq.
    eapply wp_ret_mono; [apply (Hfree (entry_pfn e) _ w c' HTq Hg)|].
    + intros x Hx [Hgx|Hk]; [|by eapply kids_fresh].
      apply (Hfresh x); [|done]. apply elem_of_below. right. by exists n, i, (entry_pfn e).
    + rewrite Hc'. apply u32_idemp.
    + intros _ ws [Hg' Hcw]. split.
      * eapply given_ext; [|exact Hg']. intros x. cbn beta. rewrite elem_of_app. tauto.
      * rewrite Hcw, Hc', ulong_count, length_app. f_equal. lia.
  - wp_step. cbn [fst snd]. by rewrite app_nil_r.
Qed.

Lemma wp_free_once n p w0 root T gone w c :
  tree w0 root T -> T !! p = Some (3 - Z.of_nat n) -> (n <= 3)%nat ->
  given_back w0 gone w -> (forall x, x ∈ tables_below n w0 p -> ~ gone x) -> ulong c = c ->
  wp (co_space_free_table n p)
     (fun _ ws => given_back w0 (fun x => gone x \/ x ∈ tables_below n w0 p) ws.1 /\
                  ws.2 = ulong (c + Z.of_nat (length (tables_below n w0 p))))
     (fun _ _ => False) (w, c).
Proof using H1.
  intros HT. revert p gone w c. induction n as [|n IH]; intros p gone w c Hp Hn Hg Hfresh Hc;
    destruct (tree_used _ _ _ HT p _ Hp) as [Hu _];
    assert (~ gone p) as Hnp by (apply Hfresh, elem_of_below; by left);
    cbn [co_space_free_table]; apply wp_bind.
  { wp_step. eapply wp_ret_mono; [by apply (wp_put_table w0 gone)|]. intros _ ws [Hg' Hc'].
    split; [|done]. eapply given_ext; [|done]. intros x. cbn [tables_below].
    by rewrite list_elem_of_singleton. }
  wp_step. apply wp_lift, wp_space_map; [apply Hg|by eapply given_used|]. intros a w1 Ha Hs1.
  assert (env_frame w0 p = Some a) as Ha0.
  { destruct Hg as (_ & _ & _ & Hf). by rewrite <- (proj1 (Hf p Hu Hnp)). }
  pose proof (given_same _ _ _ _ Hg Hs1) as Hg1.
  assert (Hself : forall m, m <= 512 -> ~ (gone p \/ p ∈ kids n w0 p m))
    by (intros m Hm [?|?]; [done|by eapply kids_not_self]).
  wp_step. apply (wp_mfor _ (fun i ws =>
    given_back w0 (fun x => gone x \/ x ∈ kids n w0 p i) ws.1 /\
    ws.2 = ulong (c + Z.of_nat (length (kids n w0 p i)))) 512 0).
  - clear w w1 Hg Hs1 Hg1 Ha. intros i [w c'] Hi [Hg Hc'].
    change (0 + Z.of_nat 512) with 512 in Hi. cbn [fst snd] in Hg, Hc'.
    apply (wp_free_slot n (co_space_free_table n) p w0 root T gone w c c' a i); try done;[| ].
    + intros q gone' w' c2 Hq Hg' Hf' Hc2. apply IH; [done|lia|done..].
    + apply Hself. lia.
  - split; [|cbn; by rewrite Z.add_0_r].
    eapply given_ext; [|exact Hg1]. intros x. change (kids n w0 p 0) with (@nil Z).
    rewrite elem_of_nil. tauto.
  - intros [w2 c2] [Hg2 Hc2]. change (0 + Z.of_nat 512) with 512 in *. cbn [fst snd] in *.
    pose proof (Hself 512 ltac:(lia)) as Hnp'.
    apply wp_lift, wp_space_unmap; [apply Hg2|by eapply given_used|]. intros w3 Hs3.
    eapply wp_ret_mono;
      [apply (wp_put_table w0 _ w3 c2 p (given_same _ _ _ _ Hg2 Hs3) Hu Hnp')|].
    intros _ ws [Hg3 Hc3]. rewrite below_kids. split.
    + eapply given_ext; [|exact Hg3]. intros x. cbn beta. rewrite elem_of_cons. tauto.
    + rewrite Hc3, Hc2, ulong_count. cbn [length]. f_equal. lia.
Qed.
End free.

Section destroy_theorem.
Context {W : Type} `{SpaceReturns W}.

Lemma wp_space_destroy_tables (w : W) s T :
  space_ok w s T ->
  wp (co_arch_guest_space_destroy s)
     (fun freed w' => given_back w (fun q => q ∈ tables_below 3 w (pml4_pfn s)) w' /\
        freed = ulong (Z.of_nat (length (tables_below 3 w (pml4_pfn s)))))
     (fun _ _ => False) w.
Proof using H1.
  intros (Hi & HT & _). pose proof (tree_root _ _ _ HT) as Hroot.
  assert (given_back w (fun _ => False) w) as Hg by (split_and!; [done|done|intros q; tauto|done]).
  pose proof (wp_free_once 3 (pml4_pfn s) w _ T _ w 0 HT Hroot ltac:(lia) Hg
    ltac:(intros ? _ []) eq_refl) as Hwp.
  unfold wp in *. unfold co_arch_guest_space_destroy.
  destruct (co_space_free_table 3 (pml4_pfn s) (w, 0)) as [[[]|rc|] [w' c]]; [|done..].
  cbn [fst snd] in *. destruct Hwp as [Hg' Hc]. split; [|done].
  eapply given_ext; [|exact Hg']. cbn beta. tauto.
Qed.

(** ** Properties *)

End destroy_theorem.
