(* ===== verification/Bdev.v ===== *)
(** Backing stores of the block devices
    ([os/winnt/kernel/lowlevel/blockio.c]).

    The calls of Windows the file makes are the class [NtFiles]; [NtLaws] is
    the documented behaviour the driver relies on. *)
From S2P Require Import Prelude.
From S2P Require Import Rc.
From S2P Require Import Mem.

(** A handle is a number, the null handle zero. [zw_read] and [zw_write] give
    the status and [iosb.Information]; a read also what it put into the
    buffer. *)
Class NtFiles (N : Type) := {
  nt_malloc : N -> bool * N;
  nt_free : N -> N;
  co_winnt_utf8_to_unicode : list Z -> N -> (list Z + co_rc_value_t) * N;
  co_winnt_free_unicode : list Z -> N -> N;
  zw_create_file : list Z -> N -> option Z * N;
  (** [FileStandardInformation], [IOCTL_DISK_GET_LENGTH_INFO]. *)
  zw_query_information_file : Z -> N -> option Z * N;
  zw_device_io_control_file : Z -> N -> option Z * N;
  (** [FileValidDataLengthInformation]. *)
  zw_set_information_file : Z -> Z -> N -> bool * N;
  zw_read_file : Z -> Z -> Z -> N -> bool * Z * list Z * N;
  zw_write_file : Z -> Z -> list Z -> N -> bool * Z * N;
  zw_close : Z -> N -> N;
}.

(** [nt_byte n h i] is byte [i] of what [h] is open on; [nt_open n h]. *)
Class NtLaws (N : Type) `{NtFiles N} := {
  nt_byte : N -> Z -> Z -> Z;
  nt_open : N -> Z -> Prop;
  (** A transfer that reports its whole length has moved exactly the bytes
      asked for; whatever it reports it touches nothing else. *)
  law_read h off len n : nt_open n h -> 0 <= off -> 0 <= len ->
    let '(ok, info, bs, n') := zw_read_file h off len n in
    Forall is_byte bs /\ Z.of_nat (length bs) <= len /\
    (ok = true -> info = len -> bs = (fun i => nt_byte n h (off + i)) <$> seqZ 0 len) /\
    (forall h' i, nt_byte n' h' i = nt_byte n h' i) /\ (forall h', nt_open n' h' <-> nt_open n h');
  law_write h off bs n : nt_open n h -> 0 <= off -> Forall is_byte bs ->
    let '(ok, info, n') := zw_write_file h off bs n in
    (ok = true -> info = Z.of_nat (length bs) ->
       forall i, 0 <= i < Z.of_nat (length bs) ->
         nt_byte n' h (off + i) = default 0 (bs !! Z.to_nat i)) /\
    (forall h' i, h' <> h \/ i < off \/ off + Z.of_nat (length bs) <= i ->
       nt_byte n' h' i = nt_byte n h' i) /\
    (forall h', nt_open n' h' <-> nt_open n h');
  (** A handle that is opened is new, one that is closed is gone. *)
  law_create path n : let '(r, n') := zw_create_file path n in
    (forall h' i, nt_open n h' -> nt_byte n' h' i = nt_byte n h' i) /\
    match r with
    | Some h => h <> 0 /\ ~ nt_open n h /\ (forall h', nt_open n' h' <-> h' = h \/ nt_open n h')
    | None => forall h', nt_open n' h' <-> nt_open n h'
    end;
  law_close h n : nt_open n h ->
    (forall h', nt_open (zw_close h n) h' <-> nt_open n h' /\ h' <> h) /\
    forall h' i, h' <> h -> nt_byte (zw_close h n) h' i = nt_byte n h' i;
  (** The other calls leave the files alone. *)
  law_quiet n n' :
    (exists b, nt_malloc n = (b, n')) \/ n' = nt_free n \/
    (exists p r, co_winnt_utf8_to_unicode p n = (r, n')) \/
    (exists u, n' = co_winnt_free_unicode u n) \/
    (exists h r, zw_query_information_file h n = (r, n')) \/
    (exists h r, zw_device_io_control_file h n = (r, n')) \/
    (exists h s r, zw_set_information_file h s n = (r, n')) ->
    (forall h' i, nt_byte n' h' i = nt_byte n h' i) /\ (forall h', nt_open n' h' <-> nt_open n h');
  law_size h n r n' : zw_query_information_file h n = (Some r, n') -> r < 2 ^ 63;
  law_length h n r n' : zw_device_io_control_file h n = (Some r, n') -> r < 2 ^ 63;
}.

(** [co_winnt_bdev_t]; a [co_os_bdev_t] points to one or is null. *)
Record co_winnt_bdev_t := Bdev { bd_handle : Z; bd_size : Z }.
Definition co_os_bdev_t : Type := option co_winnt_bdev_t.

(** A call of Windows as a step. *)
Definition nt_call {N A} (f : N -> A * N) : M N A := fun n => let '(a, n') := f n in (Ret a, n').

Section bdev.
Context {N : Type} `{NtFiles N}.

Definition co_winnt_bdev_size (handle : Z) : M N Z :=
  info ← nt_call (zw_query_information_file handle);
  let disk :=
    length ← nt_call (zw_device_io_control_file handle);
    match length with
    | Some n => if 0 <? n then mret n else throw CO_RC_ERROR
    | None => throw CO_RC_ERROR
    end in
  match info with
  | Some n => if 0 <? n then mret n else disk
  | None => disk
  end.

(** The device and its size; a failure leaves [*dev_out] null. *)
Definition co_os_bdev_open (path : list Z) : M N (co_winnt_bdev_t * Z) :=
  dev ← nt_call nt_malloc;
  fail_if (negb dev) CO_RC_OUT_OF_MEMORY ;;
  unipath ← nt_call (co_winnt_utf8_to_unicode path);
  match unipath with
  | inr rc => modify nt_free ;; throw rc
  | inl unipath =>
      handle ← nt_call (zw_create_file unipath);
      modify (co_winnt_free_unicode unipath) ;;
      match handle with
      | None => modify nt_free ;; throw CO_RC_ERROR
      | Some handle =>
          size ← attempt (co_winnt_bdev_size handle);
          match size with
          | inr rc => modify (zw_close handle) ;; modify nt_free ;; throw rc
          | inl size =>
              nt_call (zw_set_information_file handle size) ;;
              mret (Bdev handle size, size)
          end
      end
  end.

Definition co_os_bdev_close (dev : co_os_bdev_t) : M N unit :=
  match dev with
  | None => mret tt
  | Some d =>
      (if bd_handle d =? 0 then mret tt else modify (zw_close (bd_handle d))) ;;
      modify nt_free
  end.

(** The buffer is [size] bytes of memory at [buffer]. *)
Definition co_os_bdev_rw (dev : co_os_bdev_t) (offset buffer size : Z) (write : bool) :
    M (mem * N) unit :=
  match dev with
  | None => throw CO_RC_ERROR
  | Some d =>
      fail_if (bd_handle d =? 0) CO_RC_ERROR ;;
      fail_if ((bd_size d <? offset) || (u64 (bd_size d - offset) <? size))%bool CO_RC_ERROR ;;
      r ← (fun mn : mem * N =>
             let '(m, n) := mn in
             if write
             then let '(ok, info, n') :=
                    zw_write_file (bd_handle d) offset (load_bytes m buffer size) n in
                  (Ret (ok, info), (m, n'))
             else let '(ok, info, bs, n') := zw_read_file (bd_handle d) offset size n in
                  (Ret (ok, info), (store_bytes m buffer bs, n')));
      fail_if (negb r.1) CO_RC_ERROR ;;
      fail_if (negb (r.2 =? size)) CO_RC_ERROR
  end.
End bdev.
