(* ===== verification/Cobd.v ===== *)
(** The cooperative block device, host side ([kernel/cobd.c]).

    Requests name guest memory by pseudo-physical address. [GuestPages] is what
    the device uses of the loader: the address of a guest page, or nothing;
    [KloadPages] discharges it. A unit is backed by a file of [Bdev]. *)
From S2P Require Import Prelude.
From S2P Require Import Rc.
From S2P Require Import Mem.
From S2P Require Import Mmu.
From S2P Require Import Space.
From S2P Require Import Bdev.

Definition CO_COBD_MAX_UNITS : Z := 4.
Definition CO_COBD_MAX_SG : Z := 128.
Definition CO_COBD_MAX_SEGMENT : Z := 1024 * 1024.

(** [co_kload_pseudo_frame_va] and the memory it points into. *)
Class GuestPages (W : Type) := {
  gp_mem : W -> mem;
  gp_upd_mem : (mem -> mem) -> W -> W;
  gp_frame_va : Z -> M W (option Z);
}.

(** [gp_page w p]: where guest page [p] is. *)
Class GuestPagesLaws (W : Type) `{GuestPages W} := {
  gp_ok : W -> Prop;
  gp_page : W -> Z -> option Z;
  gp_frame w p : gp_ok w -> 0 <= p ->
    exists w', gp_frame_va p w = (Ret (gp_page w p), w') /\ gp_ok w' /\
      gp_mem w' = gp_mem w /\ forall q, gp_page w' q = gp_page w q;
  gp_upd w f : gp_ok w ->
    gp_ok (gp_upd_mem f w) /\ gp_mem (gp_upd_mem f w) = f (gp_mem w) /\
    forall q, gp_page (gp_upd_mem f w) q = gp_page w q;
  gp_range w p a : gp_ok w -> gp_page w p = Some a -> p < 2 ^ 40;
  gp_apart w p q a b : gp_ok w -> gp_page w p = Some a -> gp_page w q = Some b -> p <> q ->
    a + CO_ARCH_PAGE_SIZE <= b \/ b + CO_ARCH_PAGE_SIZE <= a;
}.

(** [co_cobd_unit_t] and the statics of the file. *)
Record co_cobd_unit_t := Unit { u_dev : co_os_bdev_t; u_size : Z }.
Record cobd (N : Type) := Cobd {
  cobd_unit : gmap Z co_cobd_unit_t;
  cobd_nt : N;
  sg_seen_max : Z;
}.
Arguments Cobd {N} _ _ _.
Arguments cobd_unit {N} _.
Arguments cobd_nt {N} _.
Arguments sg_seen_max {N} _.

Definition unit_at {N} (c : cobd N) (unit : Z) : co_cobd_unit_t :=
  default (Unit None 0) (cobd_unit c !! unit).
Definition set_unit {N} (unit : Z) (u : co_cobd_unit_t) (c : cobd N) : cobd N :=
  Cobd (<[unit := u]> (cobd_unit c)) (cobd_nt c) (sg_seen_max c).
Definition set_nt {N} (n : N) (c : cobd N) : cobd N := Cobd (cobd_unit c) n (sg_seen_max c).
Definition set_seen {N} (v : Z) (c : cobd N) : cobd N := Cobd (cobd_unit c) (cobd_nt c) v.

Definition no_unit (unit : Z) : bool := (unit <? 0) || (CO_COBD_MAX_UNITS <=? unit).

(** [pa], [len] of a descriptor; [sizeof (co_cobd_sg_t)]. *)
Record co_cobd_sg_t := Sg { sg_addr : Z; sg_len : Z }.
Definition sg_bytes : Z := 16.
Definition sg_decode (bs : list Z) : co_cobd_sg_t :=
  Sg (le_join (take 8 bs)) (le_join (take 4 (drop 8 bs))).

Section units.
Context {N : Type} `{NtFiles N}.

Definition on_nt {A} (m : M N A) : M (cobd N) A := fun c =>
  let '(r, n) := m (cobd_nt c) in (r, set_nt n c).

Definition co_cobd_attach (unit : Z) (path : list Z) : M (cobd N) Z :=
  fail_if (no_unit unit) CO_RC_INVALID_PARAMETER ;;
  u ← gets (fun c => unit_at c unit);
  match u_dev u with
  | Some _ => on_nt (co_os_bdev_close (u_dev u)) ;; modify (set_unit unit (Unit None 0))
  | None => mret tt
  end ;;
  r ← attempt (on_nt (co_os_bdev_open path));
  match r with
  | inr rc => modify (fun c => set_unit unit (Unit None (u_size (unit_at c unit))) c) ;; throw rc
  | inl (dev, size) => modify (set_unit unit (Unit (Some dev) size)) ;; mret size
  end.

Definition co_cobd_detach_all : M (cobd N) unit :=
  mfor 4 0 (fun i =>
    u ← gets (fun c => unit_at c i);
    match u_dev u with
    | Some _ => on_nt (co_os_bdev_close (u_dev u)) ;; modify (set_unit i (Unit None 0))
    | None => mret tt
    end).

Definition co_cobd_present (c : cobd N) (unit : Z) : bool :=
  if no_unit unit then false else bool_decide (is_Some (u_dev (unit_at c unit))).

Definition co_cobd_size (c : cobd N) (unit : Z) : Z :=
  if no_unit unit then 0 else u_size (unit_at c unit).
End units.

Section requests.
Context {W N : Type} `{GuestPages W} `{NtFiles N}.

Definition frame_va (pfn : Z) : M (W * cobd N) (option Z) := lift (gp_frame_va pfn).

(** A transfer of the backing store, on the memory of the one and the files of
    the other. *)
Definition on_disk {A} (m : M (mem * N) A) : M (W * cobd N) A := fun ws =>
  let '(r, (mm, n)) := m (gp_mem ws.1, cobd_nt ws.2) in
  (r, (gp_upd_mem (fun _ => mm) ws.1, set_nt n ws.2)).

(** [while (size > 0)]: [(guest_pa, offset, size)]. *)
Definition request_step (dev : co_os_bdev_t) (write : bool) (st : Z * Z * Z) :
    M (W * cobd N) ((Z * Z * Z) + unit) :=
  let '(guest_pa, offset, size) := st in
  if negb (0 <? size) then mret (inr tt) else
  let page_off := Z.land guest_pa (CO_ARCH_PAGE_SIZE - 1) in
  let chunk := ulong (CO_ARCH_PAGE_SIZE - ulong page_off) in
  let chunk := if size <? chunk then size else chunk in
  va ← frame_va (Z.shiftr guest_pa CO_ARCH_PAGE_SHIFT);
  match va with
  | None => throw CO_RC_ERROR
  | Some va =>
      on_disk (co_os_bdev_rw dev offset (va + page_off) chunk write) ;;
      mret (inl (u64 (guest_pa + chunk), u64 (offset + chunk), ulong (size - chunk)))
  end.

Definition co_cobd_request (unit offset guest_pa size : Z) (write : bool) :
    M (W * cobd N) () :=
  u ← gets (fun ws => unit_at ws.2 unit);
  fail_if (no_unit unit || negb (bool_decide (is_Some (u_dev u))))%bool CO_RC_INVALID_PARAMETER ;;
  if size =? 0 then mret tt else
  fail_if ((u_size u <? offset) || (u64 (u_size u - offset) <? size))%bool
    CO_RC_INVALID_PARAMETER ;;
  mloop (request_step (u_dev u) write) (guest_pa, offset, size).

(** [while (got < sizeof(d))]: the bytes of the descriptor got so far. *)
Definition sg_fetch_step (dpa : Z) (d : list Z) : M (W * cobd N) (list Z + list Z) :=
  let got := Z.of_nat (length d) in
  if negb (got <? sg_bytes) then mret (inr d) else
  let addr := u64 (dpa + got) in
  let off := Z.land addr (CO_ARCH_PAGE_SIZE - 1) in
  let part := ulong (CO_ARCH_PAGE_SIZE - off) in
  let part := if sg_bytes - got <? part then sg_bytes - got else part in
  dva ← frame_va (Z.shiftr addr CO_ARCH_PAGE_SHIFT);
  match dva with
  | None => throw CO_RC_ERROR
  | Some dva =>
      bs ← gets (fun ws => load_bytes (gp_mem ws.1) (dva + off) part);
      mret (inl (d ++ bs))
  end.

(** [for (i = 0; i < count; i++)]: [(i, offset, total)]; it leaves with
    [total]. *)
Definition request_sg_step (unit sg_pa count : Z) (write : bool) (st : Z * Z * Z) :
    M (W * cobd N) ((Z * Z * Z) + Z) :=
  let '(i, offset, total) := st in
  if negb (i <? count) then mret (inr total) else
  bs ← mloop (sg_fetch_step (u64 (sg_pa + i * sg_bytes))) [];
  let d := sg_decode bs in
  fail_if ((sg_len d =? 0) || (CO_COBD_MAX_SEGMENT <? sg_len d))%bool CO_RC_INVALID_PARAMETER ;;
  co_cobd_request unit offset (sg_addr d) (sg_len d) write ;;
  mret (inl (i + 1, u64 (offset + sg_len d), u64 (total + sg_len d))).

Definition co_cobd_request_sg (unit offset sg_pa count : Z) (write : bool) :
    M (W * cobd N) () :=
  u ← gets (fun ws => unit_at ws.2 unit);
  fail_if (no_unit unit || negb (bool_decide (is_Some (u_dev u))))%bool CO_RC_INVALID_PARAMETER ;;
  fail_if ((count =? 0) || (CO_COBD_MAX_SG <? count))%bool CO_RC_INVALID_PARAMETER ;;
  total ← mloop (request_sg_step unit sg_pa count write) (0, offset, 0);
  seen ← gets (fun ws => sg_seen_max ws.2);
  if seen <? total then modify (fun ws => (ws.1, set_seen total ws.2)) else mret tt.
End requests.
