(* ===== verification/CobdOk.v ===== *)
(** Block requests move the bytes they name and touch nothing else. *)
From S2P Require Import Prelude.
From S2P Require Import Rc.
From S2P Require Import Mem.
From S2P Require Import Mmu.
From S2P Require Import Space.
From S2P Require Import Bdev.
From S2P Require Import Cobd.

Section cobd_ok.
Context {W N : Type} `{GuestPagesLaws W} `{NtLaws N}.
Implicit Types (w : W) (c : cobd N) (ws : W * cobd N).

(** Where byte [g] of guest memory is. *)
Definition gbyte w (g : Z) : option Z :=
  (fun a => a + g mod CO_ARCH_PAGE_SIZE) <$> gp_page w (g / CO_ARCH_PAGE_SIZE).

Lemma gbyte_inj w g g' x :
  gp_ok w -> gbyte w g = Some x -> gbyte w g' = Some x -> g = g'.
Proof using.
  unfold gbyte. intros Hok Hg Hg'. change CO_ARCH_PAGE_SIZE with 4096 in *.
  destruct (gp_page w (g / 4096)) as [a|] eqn:Ea; [|done].
  destruct (gp_page w (g' / 4096)) as [b|] eqn:Eb; [|done]. cbn in *.
  injection Hg as Hg. injection Hg' as Hg'. destruct (decide (g / 4096 = g' / 4096)) as [E|Hne].
  - rewrite E in Ea. simplify_eq. Z.div_mod_to_equations; lia.
  - pose proof (gp_apart w _ _ a b Hok Ea Eb Hne). change CO_ARCH_PAGE_SIZE with 4096 in *.
    pose proof (Z.mod_pos_bound g 4096). pose proof (Z.mod_pos_bound g' 4096). lia.
Qed.

(** The bytes of one page lie side by side. *)
Lemma gbyte_page w g a k :
  gp_page w (g / CO_ARCH_PAGE_SIZE) = Some a -> 0 <= k ->
  g mod CO_ARCH_PAGE_SIZE + k < CO_ARCH_PAGE_SIZE ->
  gbyte w (g + k) = Some (a + g mod CO_ARCH_PAGE_SIZE + k).
Proof using.
  change CO_ARCH_PAGE_SIZE with 4096. intros Ha Hk Hlt. unfold gbyte.
  change CO_ARCH_PAGE_SIZE with 4096.
  replace ((g + k) / 4096) with (g / 4096) by (Z.div_mod_to_equations; lia).
  rewrite Ha. cbn. f_equal. Z.div_mod_to_equations; lia.
Qed.

(** [ws] still serves what [(w0, c0)] served. *)
Definition serves w0 c0 ws : Prop :=
  gp_ok ws.1 /\ (forall p, gp_page ws.1 p = gp_page w0 p) /\
  cobd_unit ws.2 = cobd_unit c0 /\
  (forall h, nt_open (cobd_nt ws.2) h <-> nt_open (cobd_nt c0) h).

(** Nothing but the [n] bytes of guest memory at [pa] (a read) or of the file
    at [off] (a write) is different. *)
Definition confined (write : bool) w0 c0 (h pa off n : Z) ws : Prop :=
  serves w0 c0 ws /\
  (forall x, write = true \/ (forall j, 0 <= j < n -> gbyte w0 (pa + j) <> Some x) ->
     gp_mem ws.1 x = gp_mem w0 x) /\
  (forall h' i, write = false \/ h' <> h \/ i < off \/ off + n <= i ->
     nt_byte (cobd_nt ws.2) h' i = nt_byte (cobd_nt c0) h' i).

(** The bytes are all guest memory and have arrived. *)
Definition carried (write : bool) w0 c0 (h pa off n : Z) ws : Prop :=
  forall j, 0 <= j < n -> exists x, gbyte w0 (pa + j) = Some x /\
    if write then nt_byte (cobd_nt ws.2) h (off + j) = load (gp_mem w0) x
    else load (gp_mem ws.1) x = nt_byte (cobd_nt c0) h (off + j).

Lemma serves_refl w c : gp_ok w -> serves w c (w, c).
Proof using. by intros. Qed.

Lemma confined_refl write w c h pa off : gp_ok w -> confined write w c h pa off 0 (w, c).
Proof using. intros Hok. by split_and!. Qed.

Lemma confined_mono write w0 c0 h pa off n n' ws :
  confined write w0 c0 h pa off n ws -> n <= n' -> confined write w0 c0 h pa off n' ws.
Proof using.
  intros (Hs & Hm & Hf) Hn. split; [done|]. split.
  - intros x [?|Hx]; apply Hm; [by left|]. right. intros j Hj. apply Hx. lia.
  - intros h' i Hi. apply Hf. intuition lia.
Qed.

(** ** One transfer *)

Lemma wp_disk_read d offset buffer size w c :
  gp_ok w -> bd_handle d <> 0 -> nt_open (cobd_nt c) (bd_handle d) ->
  0 <= offset -> 0 <= size -> offset + size <= bd_size d < 2 ^ 64 ->
  let done (bs : list Z) ws := Forall is_byte bs /\ Z.of_nat (length bs) <= size /\
    exists n', ws = (gp_upd_mem (fun _ => store_bytes (gp_mem w) buffer bs) w, set_nt n' c) /\
      (forall h' i, nt_byte n' h' i = nt_byte (cobd_nt c) h' i) /\
      (forall h', nt_open n' h' <-> nt_open (cobd_nt c) h') in
  wp (on_disk (co_os_bdev_rw (Some d) offset buffer size false))
     (fun _ => done ((fun i => nt_byte (cobd_nt c) (bd_handle d) (offset + i)) <$> seqZ 0 size))
     (fun _ ws => (exists bs, done bs ws)) (w, c).
Proof using.
  intros Hok Hh Hopen Ho Hs Hend done_. unfold wp, on_disk, co_os_bdev_rw. cbn [fst snd].
  unfold mbind, M_bind, fail_if. rewrite (proj2 (Z.eqb_neq _ _)) by done. cbn.
  rewrite (u64_small (bd_size d - offset)) by lia.
  rewrite (proj2 (Z.ltb_ge _ _)), (proj2 (Z.ltb_ge _ _)) by lia. cbn.
  pose proof (law_read (bd_handle d) offset size (cobd_nt c) Hopen Ho Hs) as Hl.
  destruct (zw_read_file _ _ _ _) as [[[ok info] bs] n'].
  destruct Hl as (Hb & Hlen & Hgot & Hsame & Hop).
  assert (done_ bs (gp_upd_mem (fun _ => store_bytes (gp_mem w) buffer bs) w, set_nt n' c)) as Hd
    by (split; [done|]; split; [done|]; by exists n').
  destruct ok; cbn; [|by exists bs]. destruct (Z.eqb_spec info size) as [->|]; cbn; [|by exists bs].
  by rewrite <- Hgot.
Qed.

Lemma wp_disk_write d offset buffer size w c :
  gp_ok w -> bd_handle d <> 0 -> nt_open (cobd_nt c) (bd_handle d) ->
  0 <= offset -> 0 <= size -> offset + size <= bd_size d < 2 ^ 64 ->
  let done n' ws := ws = (gp_upd_mem (fun _ => gp_mem w) w, set_nt n' c) /\
    (forall h' i, h' <> bd_handle d \/ i < offset \/ offset + size <= i ->
       nt_byte n' h' i = nt_byte (cobd_nt c) h' i) /\
    (forall h', nt_open n' h' <-> nt_open (cobd_nt c) h') in
  wp (on_disk (co_os_bdev_rw (Some d) offset buffer size true))
     (fun _ ws => exists n', done n' ws /\
        forall i, 0 <= i < size -> nt_byte n' (bd_handle d) (offset + i) = load (gp_mem w) (buffer + i))
     (fun _ ws => exists n', done n' ws) (w, c).
Proof using.
  intros Hok Hh Hopen Ho Hs Hend done_. unfold wp, on_disk, co_os_bdev_rw. cbn [fst snd].
  unfold mbind, M_bind, fail_if. rewrite (proj2 (Z.eqb_neq _ _)) by done. cbn.
  rewrite (u64_small (bd_size d - offset)) by lia.
  rewrite (proj2 (Z.ltb_ge _ _)), (proj2 (Z.ltb_ge _ _)) by lia. cbn.
  pose proof (law_write (bd_handle d) offset (load_bytes (gp_mem w) buffer size) (cobd_nt c)
    Hopen Ho (load_bytes_bytes _ _ _)) as Hl.
  destruct (zw_write_file _ _ _ _) as [[ok info] n'].
  rewrite length_load_bytes, Z2Nat.id in Hl by lia. destruct Hl as (Hput & Hsame & Hop).
  assert (done_ n' (gp_upd_mem (fun _ => gp_mem w) w, set_nt n' c)) as Hd by done.
  destruct ok; cbn; [|by exists n']. destruct (Z.eqb_spec info size) as [->|]; cbn; [|by exists n'].
  exists n'. split; [done|]. intros i Hi. rewrite Hput by done.
  by rewrite load_bytes_lookup by lia.
Qed.

(** ** One page of a request *)

(** A read whose first [k] bytes are in place stores [bs] at the next. *)
Lemma confined_read w0 c0 h pa off k n w1 c1 a bs n' :
  confined false w0 c0 h pa off k (w1, c1) ->
  gp_page w0 ((pa + k) / CO_ARCH_PAGE_SIZE) = Some a ->
  (pa + k) mod CO_ARCH_PAGE_SIZE + n <= CO_ARCH_PAGE_SIZE ->
  Z.of_nat (length bs) <= n -> 0 <= k ->
  (forall h' i, nt_byte n' h' i = nt_byte (cobd_nt c1) h' i) ->
  (forall h', nt_open n' h' <-> nt_open (cobd_nt c1) h') ->
  confined false w0 c0 h pa off (k + n)
    (gp_upd_mem (fun _ => store_bytes (gp_mem w1) (a + (pa + k) mod CO_ARCH_PAGE_SIZE) bs) w1,
     set_nt n' c1).
Proof using.
  intros ((Hok & Hp & Hu & Ho) & Hm & Hf) Ha Hpage Hlen Hk Hn Hopen. cbn [fst snd] in *.
  destruct (gp_upd w1 (fun _ => store_bytes (gp_mem w1) (a + (pa + k) mod CO_ARCH_PAGE_SIZE) bs) Hok)
    as (Hok' & Hmem & Hpg).
  split; [|split]; cbn [fst snd].
  - split; [done|]. split; [intros q; by rewrite Hpg|]. split; [done|]. intros h'. by rewrite Hopen.
  - intros x [?|Hx]; [done|]. rewrite Hmem. unfold store_bytes. rewrite decide_False.
    + apply Hm. right. intros j Hj. apply Hx. lia.
    + intros Hin. apply (Hx (k + (x - (a + (pa + k) mod CO_ARCH_PAGE_SIZE)))); [lia|].
      rewrite Z.add_assoc, (gbyte_page w0 (pa + k) a) by (done || lia). f_equal. lia.
  - intros h' i _. cbn. rewrite Hn. apply Hf. by left.
Qed.

Lemma carried_read w0 c0 h pa off k n w1 c1 a n' bs :
  gp_ok w0 -> confined false w0 c0 h pa off k (w1, c1) -> carried false w0 c0 h pa off k (w1, c1) ->
  gp_page w0 ((pa + k) / CO_ARCH_PAGE_SIZE) = Some a ->
  (pa + k) mod CO_ARCH_PAGE_SIZE + n <= CO_ARCH_PAGE_SIZE -> 0 <= k -> 0 <= n ->
  bs = (fun i => nt_byte (cobd_nt c1) h (off + k + i)) <$> seqZ 0 n -> Forall is_byte bs ->
  carried false w0 c0 h pa off (k + n)
    (gp_upd_mem (fun _ => store_bytes (gp_mem w1) (a + (pa + k) mod CO_ARCH_PAGE_SIZE) bs) w1,
     set_nt n' c1).
Proof using.
  intros Hok0 ((Hok & _) & _ & Hf) Hc Ha Hpage Hk Hn -> Hb j Hj. cbn [fst snd] in *.
  destruct (gp_upd w1 (fun _ => store_bytes (gp_mem w1) (a + (pa + k) mod CO_ARCH_PAGE_SIZE)
    ((fun i => nt_byte (cobd_nt c1) h (off + k + i)) <$> seqZ 0 n)) Hok) as (_ & -> & _).
  set (bs := (fun i => _) <$> _) in *.
  assert (Z.of_nat (length bs) = n) as Hlen
    by (unfold bs; rewrite length_fmap, length_seqZ; lia).
  assert (forall i, 0 <= i < n -> gbyte w0 (pa + (k + i)) = Some (a + (pa + k) mod CO_ARCH_PAGE_SIZE + i))
    as Hat by (intros i Hi; rewrite Z.add_assoc; apply gbyte_page; [done|lia|lia]).
  destruct (decide (j < k)) as [Hjk|Hjk].
  - destruct (Hc j ltac:(lia)) as (x & Hx & Hv). exists x. split; [done|].
    rewrite load_store, decide_False; [done| |done]. rewrite Hlen. intros Hin.
    assert (pa + j = pa + (k + (x - (a + (pa + k) mod CO_ARCH_PAGE_SIZE)))); [|lia].
    apply (gbyte_inj w0 _ _ x Hok0 Hx). rewrite Hat by lia. f_equal. lia.
  - exists (a + (pa + k) mod CO_ARCH_PAGE_SIZE + (j - k)). split.
    + rewrite <- Hat by lia. f_equal. lia.
    + rewrite load_store by done. rewrite Hlen, decide_True by lia.
      replace (a + _ + _ - _) with (j - k) by lia. unfold bs.
      rewrite list_lookup_fmap, lookup_seqZ_lt by lia. cbn.
      rewrite Hf by (by left). f_equal. lia.
Qed.

Lemma confined_write w0 c0 h pa off k n w1 c1 n' :
  confined true w0 c0 h pa off k (w1, c1) -> 0 <= k -> 0 <= n ->
  (forall h' i, h' <> h \/ i < off + k \/ off + k + n <= i ->
     nt_byte n' h' i = nt_byte (cobd_nt c1) h' i) ->
  (forall h', nt_open n' h' <-> nt_open (cobd_nt c1) h') ->
  confined true w0 c0 h pa off (k + n) (gp_upd_mem (fun _ => gp_mem w1) w1, set_nt n' c1).
Proof using.
  intros ((Hok & Hp & Hu & Ho) & Hm & Hf) Hk Hn0 Hn Hopen. cbn [fst snd] in *.
  destruct (gp_upd w1 (fun _ => gp_mem w1) Hok) as (Hok' & Hmem & Hpg).
  split; [|split]; cbn [fst snd].
  - split; [done|]. split; [intros q; by rewrite Hpg|]. split; [done|]. intros h'. by rewrite Hopen.
  - intros x _. rewrite Hmem. apply Hm. by left.
  - intros h' i [?|Hi]; [done|]. cbn. rewrite Hn by (intuition lia). apply Hf. intuition lia.
Qed.

Lemma carried_write w0 c0 h pa off k n w1 c1 a n' :
  confined true w0 c0 h pa off k (w1, c1) -> carried true w0 c0 h pa off k (w1, c1) ->
  gp_page w0 ((pa + k) / CO_ARCH_PAGE_SIZE) = Some a ->
  (pa + k) mod CO_ARCH_PAGE_SIZE + n <= CO_ARCH_PAGE_SIZE -> 0 <= k -> 0 <= n ->
  (forall h' i, h' <> h \/ i < off + k \/ off + k + n <= i ->
     nt_byte n' h' i = nt_byte (cobd_nt c1) h' i) ->
  (forall i, 0 <= i < n -> nt_byte n' h (off + k + i) =
     load (gp_mem w1) (a + (pa + k) mod CO_ARCH_PAGE_SIZE + i)) ->
  carried true w0 c0 h pa off (k + n) (gp_upd_mem (fun _ => gp_mem w1) w1, set_nt n' c1).
Proof using.
  intros (_ & Hm & Hf) Hc Ha Hpage Hk Hn0 Hn Hput j Hj. cbn [fst snd] in *.
  destruct (decide (j < k)) as [Hjk|Hjk].
  - destruct (Hc j ltac:(lia)) as (x & Hx & Hv). exists x. split; [done|]. cbn.
    rewrite Hn by lia. exact Hv.
  - exists (a + (pa + k) mod CO_ARCH_PAGE_SIZE + (j - k)). split.
    + rewrite <- (gbyte_page w0 (pa + k) a) by (done || lia). f_equal. lia.
    + cbn. replace (off + j) with (off + k + (j - k)) by lia. rewrite Hput by lia.
      unfold load. by rewrite Hm by (by left).
Qed.

(** ** A whole request *)

(** The unit has a device, open, of the size recorded. *)
Definition unit_ready c (unit : Z) (d : co_winnt_bdev_t) : Prop :=
  no_unit unit = false /\ unit_at c unit = Unit (Some d) (bd_size d) /\ bd_handle d <> 0 /\
  nt_open (cobd_nt c) (bd_handle d) /\ 0 <= bd_size d < 2 ^ 64.

Lemma serves_ready w0 c0 ws unit d : serves w0 c0 ws -> unit_ready c0 unit d -> unit_ready ws.2 unit d.
Proof using.
  intros (_ & _ & Hu & Ho) (H1' & H2' & H3' & H4' & H5'). split; [done|].
  split; [unfold unit_at; by rewrite Hu|]. split; [done|]. split; [by apply Ho|done].
Qed.

Lemma wp_frame_page w0 c0 ws p (Q : option Z -> W * cobd N -> Prop) E :
  serves w0 c0 ws -> 0 <= p ->
  (forall w', serves w0 c0 (w', ws.2) -> gp_mem w' = gp_mem ws.1 -> Q (gp_page w0 p) (w', ws.2)) ->
  wp (frame_va p) Q E ws.
Proof using.
  intros (Hok & Hp & Hu & Ho) Hp0 HQ. destruct ws as [w c]. cbn [fst snd] in *.
  destruct (gp_frame w p Hok Hp0) as (w' & Hrun & Hok' & Hm & Hpg).
  unfold frame_va. apply wp_lift. unfold wp. rewrite Hrun, Hp. apply HQ; [|done].
  split; [done|]. split; [intros q; by rewrite Hpg|done].
Qed.

Lemma confined_frame write w0 c0 h pa off n w1 w' c1 :
  confined write w0 c0 h pa off n (w1, c1) -> serves w0 c0 (w', c1) -> gp_mem w' = gp_mem w1 ->
  confined write w0 c0 h pa off n (w', c1).
Proof using. intros (_ & Hm & Hf) Hs E. split; [done|]. cbn [fst snd] in *. rewrite E. by split. Qed.

Lemma carried_frame write w0 c0 h pa off n w1 w' c1 :
  carried write w0 c0 h pa off n (w1, c1) -> gp_mem w' = gp_mem w1 ->
  carried write w0 c0 h pa off n (w', c1).
Proof using. intros Hc E j Hj. cbn [fst snd] in *. rewrite E. by apply Hc. Qed.

(** The bytes that page piece [k] of a request moves. *)
Definition piece (pa total k : Z) : Z :=
  Z.min (total - k) (CO_ARCH_PAGE_SIZE - (pa + k) mod CO_ARCH_PAGE_SIZE).

Lemma wp_request_piece write w0 c0 d pa off k n a ws :
  gp_ok w0 -> bd_handle d <> 0 -> nt_open (cobd_nt c0) (bd_handle d) ->
  0 <= off -> off + k + n <= bd_size d < 2 ^ 64 -> 0 <= k -> 0 <= n ->
  gp_page w0 ((pa + k) / CO_ARCH_PAGE_SIZE) = Some a ->
  (pa + k) mod CO_ARCH_PAGE_SIZE + n <= CO_ARCH_PAGE_SIZE ->
  confined write w0 c0 (bd_handle d) pa off k ws -> carried write w0 c0 (bd_handle d) pa off k ws ->
  wp (on_disk (co_os_bdev_rw (Some d) (off + k) (a + (pa + k) mod CO_ARCH_PAGE_SIZE) n write))
     (fun _ ws' => confined write w0 c0 (bd_handle d) pa off (k + n) ws' /\
                   carried write w0 c0 (bd_handle d) pa off (k + n) ws')
     (fun _ ws' => confined write w0 c0 (bd_handle d) pa off (k + n) ws') ws.
Proof using.
  intros Hok0 Hh Hopen Ho Hend Hk Hn Ha Hpage Hc Hca. destruct ws as [w1 c1].
  assert (nt_open (cobd_nt c1) (bd_handle d)) as Hopen1 by (by apply Hc).
  assert (gp_ok w1) as Hok1 by apply Hc. destruct write.
  - eapply wp_mono; [apply (wp_disk_write d (off + k) _ n w1 c1); (done || lia)| |].
    + intros [] ws (n' & (-> & Hsame & Hop) & Hput). split.
      * by apply (confined_write w0 c0 (bd_handle d) pa off k n w1 c1).
      * by apply (carried_write w0 c0 (bd_handle d) pa off k n w1 c1 a).
    + intros rc ws (n' & -> & Hsame & Hop).
      by apply (confined_write w0 c0 (bd_handle d) pa off k n w1 c1).
  - eapply wp_mono; [apply (wp_disk_read d (off + k) _ n w1 c1); (done || lia)| |].
    + intros [] ws (Hb & Hlen & n' & -> & Hsame & Hop). split.
      * by apply (confined_read w0 c0 (bd_handle d) pa off k n w1 c1 a).
      * by apply (carried_read w0 c0 (bd_handle d) pa off k n w1 c1 a).
    + intros rc ws (bs & Hb & Hlen & n' & -> & Hsame & Hop).
      by apply (confined_read w0 c0 (bd_handle d) pa off k n w1 c1 a).
Qed.

(** Where the loop stands when [k] bytes are done. *)
Definition request_inv write w0 c0 d pa off size (st : Z * Z * Z) ws : Prop :=
  exists k, 0 <= k <= size /\ st = (pa + k, off + k, size - k) /\ pa + k < 2 ^ 64 /\
    confined write w0 c0 (bd_handle d) pa off k ws /\ carried write w0 c0 (bd_handle d) pa off k ws.

Lemma wp_request_step write w0 c0 d pa off size st ws :
  gp_ok w0 -> bd_handle d <> 0 -> nt_open (cobd_nt c0) (bd_handle d) ->
  0 <= pa -> 0 <= off -> 0 <= size < 2 ^ 32 -> off + size <= bd_size d < 2 ^ 64 ->
  request_inv write w0 c0 d pa off size st ws ->
  wp (request_step (Some d) write st)
     (fun r ws' => match r with
                   | inl st' => request_inv write w0 c0 d pa off size st' ws' /\ 0 <= st'.2 < st.2
                   | inr _ => confined write w0 c0 (bd_handle d) pa off size ws' /\
                              carried write w0 c0 (bd_handle d) pa off size ws'
                   end)
     (fun _ ws' => confined write w0 c0 (bd_handle d) pa off size ws') ws.
Proof using.
  intros Hok Hh Hopen Hpa Hoff Hsize Hend (k & Hk & -> & Hpk & Hc & Hca). unfold request_step.
  wp_step; [wp_step; replace k with size in * by lia; done|].
  change (CO_ARCH_PAGE_SIZE - 1) with (Z.ones 12). rewrite Z.land_ones by lia.
  change (2 ^ 12) with CO_ARCH_PAGE_SIZE.
  pose proof (Z.mod_pos_bound (pa + k) CO_ARCH_PAGE_SIZE eq_refl) as Hmod.
  rewrite Z.shiftr_div_pow2 by done. change (2 ^ CO_ARCH_PAGE_SHIFT) with CO_ARCH_PAGE_SIZE.
  assert (ulong (CO_ARCH_PAGE_SIZE - ulong ((pa + k) mod CO_ARCH_PAGE_SIZE)) =
          CO_ARCH_PAGE_SIZE - (pa + k) mod CO_ARCH_PAGE_SIZE) as ->.
  { unfold ulong. change CO_ARCH_PAGE_SIZE with 4096 in *.
    rewrite (u32_small ((pa + k) mod 4096)) by lia. apply u32_small. lia. }
  set (n := if size - k <? _ then _ else _).
  assert (n = piece pa size k) as En by (unfold n, piece; case_cond; lia).
  assert (0 < n <= size - k /\ (pa + k) mod CO_ARCH_PAGE_SIZE + n <= CO_ARCH_PAGE_SIZE) as [Hn Hnp]
    by (rewrite En; unfold piece; lia). clearbody n.
  wp_step. apply (wp_frame_page w0 c0); [apply Hc|apply Z.div_pos; [lia|done]|].
  intros w' Hs' Em. destruct ws as [w1 c1]. cbn [snd] in *.
  pose proof (confined_frame _ _ _ _ _ _ _ _ _ _ Hc Hs' Em) as Hc'.
  pose proof (carried_frame _ _ _ _ _ _ _ _ _ _ Hca Em) as Hca'.
  destruct (gp_page w0 ((pa + k) / CO_ARCH_PAGE_SIZE)) as [a|] eqn:Ea;
    [|wp_step; apply (confined_mono _ _ _ _ _ _ k); [done|lia]].
  wp_step. eapply wp_mono;
    [apply (wp_request_piece write w0 c0 d pa off k n a (w', c1)); (done || lia)| |].
  - intros [] ws [Hc2 Hca2]. pose proof (gp_range w0 _ a Hok Ea) as Hr.
    assert (pa + k + n < 2 ^ 64) by (change CO_ARCH_PAGE_SIZE with 4096 in *; Z.div_mod_to_equations; lia).
    wp_step. cbn [snd]. unfold ulong. rewrite !u64_small, u32_small by lia. split; [|lia].
    exists (k + n). split; [lia|]. split; [f_equal; [f_equal|]; lia|]. split; [lia|]. done.
  - intros rc ws Hc2. apply (confined_mono _ _ _ _ _ _ (k + n)); [done|lia].
Qed.

Lemma wp_cobd_request unit d write w0 c0 pa off size :
  gp_ok w0 -> unit_ready c0 unit d -> 0 <= pa < 2 ^ 64 -> 0 <= off < 2 ^ 64 -> 0 <= size < 2 ^ 32 ->
  wp (co_cobd_request unit off pa size write)
     (fun _ ws => (confined write w0 c0 (bd_handle d) pa off size ws /\
                   carried write w0 c0 (bd_handle d) pa off size ws) /\
                  (size = 0 \/ off + size <= bd_size d))
     (fun _ ws => confined write w0 c0 (bd_handle d) pa off size ws) (w0, c0).
Proof using.
  intros Hok (Hno & Hun & Hh & Hopen & Hsz) Hpa Hoff Hsize.
  assert (confined write w0 c0 (bd_handle d) pa off size (w0, c0)) as Hc0
    by (eapply confined_mono; [by apply confined_refl|lia]).
  unfold co_cobd_request. wp_step. wp_step. cbn [snd]. rewrite Hun, Hno. cbn [u_dev u_size].
  rewrite bool_decide_true by done. cbn [negb orb]. wp_step. wp_step; [done|].
  wp_step; [wp_step; subst; split; [|by left]; split; [done|]; intros j Hj; lia|].
  wp_step. wp_step; [done|].
  rewrite u64_small in * by lia.
  apply (wp_mloop _ (request_inv write w0 c0 d pa off size) (fun st _ => st.2)).
  2:{ exists 0. rewrite !Z.add_0_r, Z.sub_0_r. split; [lia|]. split; [done|]. split; [lia|].
      split; [by apply confined_refl|]. intros j Hj. lia. }
  2:{ cbn [snd]. lia. }
  intros st ws Hinv. eapply wp_ret_mono; [by apply wp_request_step; try lia|].
  intros [st'|[]] ws' Hr; [done|]. split; [done|]. right. lia.
Qed.

(** ** Scatter-gather *)

(** The bytes [bs] are those of guest memory from [g] on. *)
Definition guest_bytes w (g : Z) (bs : list Z) : Prop :=
  forall t, 0 <= t < Z.of_nat (length bs) ->
    exists x, gbyte w (g + t) = Some x /\ bs !! Z.to_nat t = Some (load (gp_mem w) x).

Lemma guest_bytes_app w g bs a n :
  guest_bytes w g bs ->
  gp_page w ((g + Z.of_nat (length bs)) / CO_ARCH_PAGE_SIZE) = Some a -> 0 <= n ->
  (g + Z.of_nat (length bs)) mod CO_ARCH_PAGE_SIZE + n <= CO_ARCH_PAGE_SIZE ->
  guest_bytes w g (bs ++ load_bytes (gp_mem w)
    (a + (g + Z.of_nat (length bs)) mod CO_ARCH_PAGE_SIZE) n).
Proof using.
  intros Hbs Ha Hn Hpage t Ht. rewrite length_app, length_load_bytes in Ht.
  destruct (decide (t < Z.of_nat (length bs))) as [Hlt|Hge].
  - destruct (Hbs t ltac:(lia)) as (x & Hx & Hv). exists x. split; [done|].
    by rewrite lookup_app_l by lia.
  - set (k := Z.of_nat (length bs)) in *.
    exists (a + (g + k) mod CO_ARCH_PAGE_SIZE + (t - k)). split.
    + rewrite <- (gbyte_page w (g + k) a) by (done || lia). f_equal. lia.
    + rewrite lookup_app_r by lia.
      replace (Z.to_nat t - length bs)%nat with (Z.to_nat (t - k)) by lia.
      by rewrite load_bytes_lookup by lia.
Qed.

Lemma guest_bytes_same w w' g bs :
  (forall p, gp_page w' p = gp_page w p) -> gp_mem w' = gp_mem w ->
  guest_bytes w' g bs -> guest_bytes w g bs.
Proof using.
  intros Hp Hm Hb t Ht. destruct (Hb t Ht) as (x & Hx & Hv). exists x.
  unfold gbyte in *. by rewrite <- Hp, <- Hm.
Qed.

(** Fetching a descriptor reads sixteen bytes of guest memory, wherever the
    page boundary falls, and changes nothing. *)
Lemma wp_sg_fetch w0 c0 ws dpa :
  serves w0 c0 ws -> 0 <= dpa < 2 ^ 64 ->
  let looked ws' := serves w0 c0 ws' /\ gp_mem ws'.1 = gp_mem ws.1 /\ ws'.2 = ws.2 in
  wp (mloop (sg_fetch_step dpa) [])
     (fun bs ws' => looked ws' /\ length bs = 16%nat /\ guest_bytes ws.1 dpa bs)
     (fun _ ws' => looked ws') ws.
Proof using.
  intros Hs Hd looked.
  apply (wp_mloop _ (fun bs ws' => looked ws' /\ (length bs <= 16)%nat /\ guest_bytes ws.1 dpa bs /\
           dpa + Z.of_nat (length bs) < 2 ^ 64) (fun bs _ => 16 - Z.of_nat (length bs))).
  2:{ split; [done|]. cbn. split; [lia|]. split; [intros t Ht; cbn in Ht; lia|lia]. }
  2:{ cbn. lia. }
  intros bs ws1 ((Hs1 & Hm1 & Hc1) & Hlen & Hbs & Hw). unfold sg_fetch_step.
  change sg_bytes with 16. set (k := Z.of_nat (length bs)) in *.
  wp_step; [wp_step; split; [done|]; split; [lia|done]|].
  change (CO_ARCH_PAGE_SIZE - 1) with (Z.ones 12). rewrite Z.land_ones by lia.
  change (2 ^ 12) with CO_ARCH_PAGE_SIZE. rewrite (u64_small (dpa + k)) by lia.
  pose proof (Z.mod_pos_bound (dpa + k) CO_ARCH_PAGE_SIZE eq_refl) as Hmod.
  rewrite Z.shiftr_div_pow2 by done. change (2 ^ CO_ARCH_PAGE_SHIFT) with CO_ARCH_PAGE_SIZE.
  unfold ulong. rewrite u32_small by (change CO_ARCH_PAGE_SIZE with 4096 in *; lia).
  set (n := if 16 - k <? _ then _ else _).
  assert (0 < n <= 16 - k /\ (dpa + k) mod CO_ARCH_PAGE_SIZE + n <= CO_ARCH_PAGE_SIZE) as [Hn Hnp]
    by (unfold n; case_cond; lia). clearbody n.
  wp_step. destruct ws1 as [w1 c1]. cbn [fst snd] in *. subst c1.
  apply (wp_frame_page w0 c0); [done|apply Z.div_pos; [lia|done]|]. intros w2 Hs2 Hm2.
  cbn [fst snd] in *. destruct (gp_page w0 _) as [a|] eqn:Ea; [|wp_step; split; [done|split; [cbn [fst]; congruence|done]]].
  wp_step. wp_step. wp_step. cbn [fst]. rewrite Hm2, Hm1, length_app, length_load_bytes.
  destruct Hs as (Hok & Hp & _). split; [|lia]. split; [split; [done|split; [cbn [fst]; congruence|done]]|].
  split; [lia|]. split.
  - apply guest_bytes_app; [done|by rewrite Hp|lia|done].
  - assert ((dpa + k) / CO_ARCH_PAGE_SIZE < 2 ^ 40)
      by (apply (gp_range ws.1 _ a); [done|by rewrite Hp]).
    change CO_ARCH_PAGE_SIZE with 4096 in *. Z.div_mod_to_equations; lia.
Qed.

Fixpoint sg_total (ds : list co_cobd_sg_t) : Z :=
  match ds with
  | [] => 0
  | d :: ds' => sg_len d + sg_total ds'
  end.

Lemma sg_total_app ds d : sg_total (ds ++ [d]) = sg_total ds + sg_len d.
Proof using. induction ds as [|d' ds IH]; cbn [app sg_total]; lia. Qed.

Definition sane (d : co_cobd_sg_t) : Prop := 0 < sg_len d <= CO_COBD_MAX_SEGMENT.

Lemma sg_total_bound ds :
  Forall sane ds -> 0 <= sg_total ds <= Z.of_nat (length ds) * CO_COBD_MAX_SEGMENT.
Proof using.
  unfold sane. change CO_COBD_MAX_SEGMENT with 1048576.
  induction 1 as [|d ds Hd _ IH]; cbn [sg_total length]; lia.
Qed.

Lemma sg_total_take ds i d :
  Forall sane ds -> ds !! i = Some d -> sg_total (take i ds) + sg_len d <= sg_total ds.
Proof using.
  intros Hall. revert i. induction Hall as [|d' ds [Hd _] Hall IH]; intros i Hi; [done|].
  destruct i as [|i]; cbn in Hi; cbn [take sg_total].
  - simplify_eq. pose proof (sg_total_bound ds Hall). lia.
  - specialize (IH i Hi). lia.
Qed.

(** [ds] is the list the guest wrote at [sg_pa]. *)
Definition described w (sg_pa : Z) (ds : list co_cobd_sg_t) : Prop :=
  forall i d, ds !! i = Some d -> exists bs, length bs = 16%nat /\ d = sg_decode bs /\
    guest_bytes w (u64 (sg_pa + Z.of_nat i * sg_bytes)) bs.

(** The pieces of [ds] lie one after the other in the file. *)
Definition gathered w (n : N) (h off : Z) (ds : list co_cobd_sg_t) : Prop :=
  forall i d, ds !! i = Some d -> forall t, 0 <= t < sg_len d ->
    exists x, gbyte w (sg_addr d + t) = Some x /\
      nt_byte n h (off + sg_total (take i ds) + t) = load (gp_mem w) x.

(** Only guest memory is written by reads, only the file range by writes. *)
Definition sg_confined (write : bool) w0 c0 (h off len : Z) ws : Prop :=
  serves w0 c0 ws /\
  (forall x, write = true \/ (forall g, gbyte w0 g <> Some x) -> gp_mem ws.1 x = gp_mem w0 x) /\
  (forall h' i, write = false \/ h' <> h \/ i < off \/ off + len <= i ->
     nt_byte (cobd_nt ws.2) h' i = nt_byte (cobd_nt c0) h' i).

Lemma sg_confined_mono write w0 c0 h off n n' ws :
  sg_confined write w0 c0 h off n ws -> n <= n' -> sg_confined write w0 c0 h off n' ws.
Proof using.
  intros (Hs & Hm & Hf) Hn. split; [done|]. split; [done|]. intros h' i Hi. apply Hf. intuition lia.
Qed.

Lemma sg_confined_step write w0 c0 h off n pa m ws ws' :
  sg_confined write w0 c0 h off n ws -> 0 <= n -> 0 <= m ->
  confined write ws.1 ws.2 h pa (off + n) m ws' -> sg_confined write w0 c0 h off (n + m) ws'.
Proof using.
  intros ((Hok & Hp & Hu & Ho) & Hm & Hf) Hn Hm0 ((Hok' & Hp' & Hu' & Ho') & Hm' & Hf').
  split; [|split].
  - split; [done|]. split; [intros q; by rewrite Hp'|]. split; [congruence|]. intros h'. by rewrite Ho'.
  - intros x Hx. rewrite Hm'; [by apply Hm|]. destruct Hx as [?|Hx]; [by left|right].
    intros j _. unfold gbyte. rewrite Hp. apply Hx.
  - intros h' i Hi. rewrite Hf' by (intuition lia). apply Hf. intuition lia.
Qed.

Lemma sg_confined_looked write w0 c0 h off n ws ws' :
  sg_confined write w0 c0 h off n ws -> serves w0 c0 ws' -> gp_mem ws'.1 = gp_mem ws.1 ->
  ws'.2 = ws.2 -> sg_confined write w0 c0 h off n ws'.
Proof using. intros (_ & Hm & Hf) Hs E1 E2. split; [done|]. rewrite E1, E2. by split. Qed.

(** The next piece, written behind those that are there. *)
Lemma gathered_step w0 c0 h off ds d ws ws' :
  sg_confined true w0 c0 h off (sg_total ds) ws -> Forall sane ds ->
  gathered w0 (cobd_nt ws.2) h off ds ->
  confined true ws.1 ws.2 h (sg_addr d) (off + sg_total ds) (sg_len d) ws' ->
  carried true ws.1 ws.2 h (sg_addr d) (off + sg_total ds) (sg_len d) ws' ->
  gathered w0 (cobd_nt ws'.2) h off (ds ++ [d]).
Proof using.
  intros ((_ & Hp & _) & Hm & _) Hsane Hg (_ & _ & Hf) Hc i d' Hi t Ht.
  apply lookup_app_Some in Hi as [Hi|[Hlen Hi]].
  - destruct (Hg i d' Hi t Ht) as (x & Hx & Hv). exists x. split; [done|].
    rewrite take_app_le by (apply lookup_lt_Some in Hi; lia). rewrite Hf; [done|].
    right. right. left.
    pose proof (sg_total_take ds i d' Hsane Hi). lia.
  - destruct (i - length ds)%nat as [|n] eqn:En; [|done]. cbn in Hi. injection Hi as <-.
    assert (i = length ds) as -> by lia. destruct (Hc t Ht) as (x & Hx & Hv). exists x.
    unfold gbyte in *. rewrite <- Hp. split; [done|].
    rewrite take_app_length. rewrite Hv. unfold load. by rewrite Hm by (by left).
Qed.

(** ** The loop over the list *)

Definition sg_inv write w0 c0 d unit sg_pa off count (st : Z * Z * Z) ws : Prop :=
  exists ds, st = (Z.of_nat (length ds), off + sg_total ds, sg_total ds) /\
    Forall sane ds /\ Z.of_nat (length ds) <= count /\
    off + sg_total ds <= Z.max off (bd_size d) /\ unit_ready ws.2 unit d /\
    sg_confined write w0 c0 (bd_handle d) off (sg_total ds) ws /\
    (write = true -> described w0 sg_pa ds /\
                     gathered w0 (cobd_nt ws.2) (bd_handle d) off ds).

Lemma described_app w sg_pa ds bs :
  described w sg_pa ds -> length bs = 16%nat ->
  guest_bytes w (u64 (sg_pa + Z.of_nat (length ds) * sg_bytes)) bs ->
  described w sg_pa (ds ++ [sg_decode bs]).
Proof using.
  intros Hd Hl Hb i d Hi. apply lookup_app_Some in Hi as [Hi|[Hlen Hi]]; [by apply Hd|].
  destruct (i - length ds)%nat as [|n] eqn:En; [|done]. cbn in Hi. injection Hi as <-.
  assert (i = length ds) as -> by lia. by exists bs.
Qed.

Lemma sg_decode_range bs :
  0 <= sg_addr (sg_decode bs) < 2 ^ 64 /\ 0 <= sg_len (sg_decode bs) < 2 ^ 32.
Proof using.
  cbn. pose proof (le_join_range (take 8 bs)) as H8. pose proof (le_join_range (take 4 (drop 8 bs))) as H4.
  rewrite length_take in H8, H4. split; [split; [lia|]|split; [lia|]].
  - eapply Z.lt_le_trans; [apply H8|]. apply Z.pow_le_mono_r; lia.
  - eapply Z.lt_le_trans; [apply H4|]. apply Z.pow_le_mono_r; lia.
Qed.

Lemma wp_sg_step write w0 c0 d unit sg_pa off count st ws :
  gp_ok w0 -> 0 <= off < 2 ^ 64 -> count <= 128 ->
  sg_inv write w0 c0 d unit sg_pa off count st ws ->
  let spoilt ws' := sg_confined write w0 c0 (bd_handle d) off (128 * CO_COBD_MAX_SEGMENT) ws' in
  wp (request_sg_step unit sg_pa count write st)
     (fun r ws' => match r with
                   | inl st' => sg_inv write w0 c0 d unit sg_pa off count st' ws' /\
                                0 <= count - st'.1.1 < count - st.1.1
                   | inr total => total = st.2 /\ ws' = ws /\ count <= st.1.1
                   end)
     (fun _ ws' => spoilt ws') ws.
Proof using.
  intros Hok Hoff Hcount (ds & -> & Hsane & Hlen & Hend & Hu & Hc & Hw) spoilt.
  pose proof (sg_total_bound ds Hsane) as Hbound. pose proof Hu as (_ & _ & _ & _ & Hsz).
  change CO_COBD_MAX_SEGMENT with 1048576 in *. unfold request_sg_step.
  wp_step; [wp_step; cbn [fst snd]; split; [done|]; split; [done|lia]|]. wp_step.
  eapply wp_mono; [apply (wp_sg_fetch w0 c0 ws); [apply Hc|apply u64_range]| |].
  2:{ intros rc ws' (Hs' & Em & Ec). eapply sg_confined_mono; [by eapply sg_confined_looked|lia]. }
  intros bs ws1 ((Hs1 & Em & Ec) & Hbs & Hgb).
  pose proof (sg_confined_looked _ _ _ _ _ _ _ _ Hc Hs1 Em Ec) as Hc1.
  wp_step. wp_step; [eapply sg_confined_mono; [done|lia]|].
  pose proof (sg_decode_range bs) as [Hra Hrl]. set (e := sg_decode bs) in *.
  assert (sane e) as He by (unfold sane; change CO_COBD_MAX_SEGMENT with 1048576 in *; lia).
  rewrite <- Ec in Hu. wp_step. destruct ws1 as [w1 c1]. cbn [fst snd] in *.
  eapply wp_mono; [apply (wp_cobd_request unit d write w1 c1 (sg_addr e) (off + sg_total ds) (sg_len e));
    [apply Hc1|done|done|lia|done]| |].
  2:{ intros rc ws' Hc2. eapply sg_confined_mono;
        [eapply (sg_confined_step _ _ _ _ _ _ _ _ _ _ Hc1); [lia| |exact Hc2]; lia|].
      unfold sane in He. change CO_COBD_MAX_SEGMENT with 1048576 in *. lia. }
  intros [] ws2 [[Hc2 Hca2] Hfit]. wp_step. cbn [fst snd]. pose proof He as He'. unfold sane in He.
  change CO_COBD_MAX_SEGMENT with 1048576 in *.
  rewrite !u64_small by lia. split; [|lia]. exists (ds ++ [e]). rewrite length_app, sg_total_app.
  cbn [length]. split; [apply (f_equal2 pair); [apply (f_equal2 pair)|]; lia|]. split; [apply Forall_app; split; [done|constructor; [done|constructor]]|].
  split; [lia|]. split; [lia|]. split; [by apply (serves_ready w1 c1); [apply Hc2|]|].
  split; [by eapply (sg_confined_step _ _ _ _ _ _ _ _ _ _ Hc1); [lia| |exact Hc2]; lia|].
  intros ->. destruct (Hw eq_refl) as [Hdesc Hga]. split.
  - apply described_app; [done|done|]. destruct Hc as ((_ & Hp & _) & Hm & _).
    intros t Ht. destruct (Hgb t Ht) as (x & Hx & Hv). exists x. unfold gbyte in *.
    rewrite <- Hp. split; [done|]. rewrite Hv. unfold load. by rewrite Hm by (by left).
  - eapply gathered_step; [exact Hc1|done| |exact Hc2|exact Hca2]. by rewrite Ec.
Qed.

Lemma wp_cobd_request_sg write w0 c0 d unit sg_pa off count :
  gp_ok w0 -> unit_ready c0 unit d -> 0 <= off < 2 ^ 64 -> 0 <= count ->
  wp (co_cobd_request_sg unit off sg_pa count write)
     (fun _ ws => sg_confined write w0 c0 (bd_handle d) off (128 * CO_COBD_MAX_SEGMENT) ws /\
        exists ds, Z.of_nat (length ds) = count /\ Forall sane ds /\
          (write = true -> described w0 sg_pa ds /\
             gathered w0 (cobd_nt ws.2) (bd_handle d) off ds /\
             sg_confined write w0 c0 (bd_handle d) off (sg_total ds) ws))
     (fun _ ws => sg_confined write w0 c0 (bd_handle d) off (128 * CO_COBD_MAX_SEGMENT) ws)
     (w0, c0).
Proof using.
  intros Hok Hu Hoff Hcount.
  assert (sg_confined write w0 c0 (bd_handle d) off 0 (w0, c0)) as Hc0 by (by split_and!).
  assert (forall n ws, sg_confined write w0 c0 (bd_handle d) off n ws ->
    n <= 128 * CO_COBD_MAX_SEGMENT ->
    sg_confined write w0 c0 (bd_handle d) off (128 * CO_COBD_MAX_SEGMENT) ws) as Hmono
    by (intros n ws; apply sg_confined_mono).
  pose proof Hu as (Hno & Hun & _ & _ & Hsz). unfold co_cobd_request_sg. wp_step. wp_step.
  cbn [snd]. rewrite Hun, Hno. cbn [u_dev]. rewrite bool_decide_true by done. cbn [negb orb].
  wp_step. wp_step; [done|]. wp_step. wp_step; [by apply (Hmono 0)|]. wp_step.
  change CO_COBD_MAX_SG with 128 in *.
  apply (wp_mloop _ (sg_inv write w0 c0 d unit sg_pa off count) (fun st _ => count - st.1.1)).
  - intros st ws Hinv. eapply wp_ret_mono; [apply (wp_sg_step write w0 c0 d); (done || lia)|].
    intros [st'|total] ws' Hr; [done|]. destruct Hr as (-> & -> & Hge).
    destruct Hinv as (ds & -> & Hsane & Hlen & _ & _ & Hc & Hw). cbn [fst snd] in *.
    pose proof (sg_total_bound ds Hsane) as Hb.
    change CO_COBD_MAX_SEGMENT with 1048576 in *.
    set (P := fun ws0 : W * cobd N => sg_confined _ _ _ _ _ _ ws0 /\ _).
    assert (P ws) as HP.
    { split; [apply (sg_confined_mono _ _ _ _ _ (sg_total ds)); [done|lia]|]. exists ds.
      split; [lia|]. split; [done|]. intros E. by destruct (Hw E). }
    wp_step. wp_step. wp_step; wp_step; [|done].
    destruct ws as [w c]. exact HP.
  - exists []. cbn [length sg_total]. rewrite Z.add_0_r. split; [done|]. split; [constructor|].
    split; [lia|]. split; [lia|]. split; [done|]. split; [done|]. intros _. split; by intros i e Hi.
  - cbn [fst]. lia.
Qed.

(** ** Properties *)

(** C29: a block request moves the bytes it names and nothing else. A read that
    succeeds has put byte [off + j] of the unit's file at guest byte [pa + j]
    for every [j] below [size], a write the other way; every one of these is
    guest memory. Whether it succeeds or fails, a read has changed no host byte
    outside those guest bytes and no file, a write no memory and no file byte
    outside the range. A request past the end of the device is refused with
    nothing touched. *)
Theorem cobd_request_moves write (w : W) c unit d off pa size :
  gp_ok w -> unit_ready c unit d -> 0 <= pa < 2 ^ 64 -> 0 <= off < 2 ^ 64 -> 0 <= size < 2 ^ 32 ->
  match co_cobd_request unit off pa size write (w, c) with
  | (Ret _, ws) => confined write w c (bd_handle d) pa off size ws /\
                   carried write w c (bd_handle d) pa off size ws
  | (Fail _, ws) => confined write w c (bd_handle d) pa off size ws
  | (Fault, _) => False
  end /\
  (size <> 0 -> bd_size d < off + size ->
   co_cobd_request unit off pa size write (w, c) = (Fail CO_RC_INVALID_PARAMETER, (w, c))).
Proof using.
  intros Hok Hu Hpa Hoff Hsize.
  pose proof (wp_cobd_request unit d write w c pa off size Hok Hu Hpa Hoff Hsize) as Hwp. split.
  - unfold wp in Hwp. destruct (co_cobd_request _ _ _ _ _ _) as [[r|rc|] ws]; by destruct Hwp.
  - intros Hne Hend. destruct Hu as (Hno & Hun & _ & _ & Hsz).
    unfold co_cobd_request, mbind, M_bind, gets, fail_if. cbn [snd]. rewrite Hun, Hno.
    cbn [u_dev u_size]. rewrite bool_decide_true by done. cbn.
    rewrite (proj2 (Z.eqb_neq _ _)) by done.
    assert ((bd_size d <? off) || (u64 (bd_size d - off) <? size) = true)%bool as ->; [|done].
    destruct (Z.ltb_spec (bd_size d) off); [done|]. cbn. apply Z.ltb_lt.
    rewrite u64_small by lia. lia.
Qed.

(** C31: whatever list the guest wrote, a scatter-gather request reaches guest
    memory and the unit's file only. However it ends, a read has changed
    nothing but bytes of guest pages, and a write nothing but bytes of the one
    file, from the offset on and at most 128 segments of one megabyte. *)
Theorem cobd_sg_stays_inside write (w : W) c unit d off sg_pa count :
  gp_ok w -> unit_ready c unit d -> 0 <= off < 2 ^ 64 -> 0 <= count ->
  match co_cobd_request_sg unit off sg_pa count write (w, c) with
  | (Fault, _) => False
  | (_, ws) => sg_confined write w c (bd_handle d) off (128 * CO_COBD_MAX_SEGMENT) ws
  end.
Proof using.
  intros Hok Hu Hoff Hcount.
  pose proof (wp_cobd_request_sg write w c d unit sg_pa off count Hok Hu Hoff Hcount) as Hwp.
  unfold wp in Hwp. destruct (co_cobd_request_sg _ _ _ _ _ _) as [[r|rc|] ws]; [|done..].
  apply Hwp.
Qed.

(** A scatter-gather write that succeeds gathers. There are [count]
    descriptors as the guest wrote them at [sg_pa], wherever a page boundary
    falls inside one, each of a sane length; the file holds the guest memory
    they name, piece after piece from [off] on, and nothing else of the file,
    of memory or of another file is different. *)
Theorem cobd_sg_write_gathers (w : W) c unit d off sg_pa count ws :
  gp_ok w -> unit_ready c unit d -> 0 <= off < 2 ^ 64 -> 0 <= count ->
  co_cobd_request_sg unit off sg_pa count true (w, c) = (Ret tt, ws) ->
  exists ds, Z.of_nat (length ds) = count /\ Forall sane ds /\ described w sg_pa ds /\
    gathered w (cobd_nt ws.2) (bd_handle d) off ds /\
    sg_confined true w c (bd_handle d) off (sg_total ds) ws.
Proof using.
  intros Hok Hu Hoff Hcount Hrun.
  pose proof (wp_cobd_request_sg true w c d unit sg_pa off count Hok Hu Hoff Hcount) as Hwp.
  unfold wp in Hwp. rewrite Hrun in Hwp. destruct Hwp as (_ & ds & H1' & H2' & H3').
  exists ds. by destruct (H3' eq_refl) as (? & ? & ?).
Qed.
End cobd_ok.
