(* ===== verification/CobdUnits.v ===== *)
(** Attaching backing stores to the units of the block device. *)
From S2P Require Import Prelude.
From S2P Require Import Rc.
From S2P Require Import Bdev.
From S2P Require Import Cobd.

Section units_ok.
Context {N : Type} `{NtLaws N}.
Implicit Types (n : N) (c : cobd N).

(** Same handles open, same bytes behind them. *)
Definition nt_same n n' : Prop :=
  (forall h, nt_open n' h <-> nt_open n h) /\
  (forall h i, nt_open n h -> nt_byte n' h i = nt_byte n h i).

Lemma nt_same_refl n : nt_same n n.
Proof using. by split. Qed.

Lemma nt_same_trans n n1 n2 : nt_same n n1 -> nt_same n1 n2 -> nt_same n n2.
Proof using.
  intros [Ho Hb] [Ho' Hb']. split; [intros h; by rewrite Ho'|].
  intros h i Hh. rewrite Hb' by (by apply Ho). by apply Hb.
Qed.

(** The calls that leave files alone. *)
Definition nt_quiet {A} (f : N -> A * N) : Prop := forall n, nt_same n (f n).2.

Lemma quiet_same n n' : (forall h' i, nt_byte n' h' i = nt_byte n h' i) /\
  (forall h', nt_open n' h' <-> nt_open n h') -> nt_same n n'.
Proof using. intros [Hb Ho]. by split. Qed.

Lemma quiet_malloc : nt_quiet nt_malloc.
Proof using All.
  intros n. apply quiet_same, law_quiet. left. destruct (nt_malloc n) as [b n']. by exists b.
Qed.
Lemma quiet_free n : nt_same n (nt_free n).
Proof using All. apply quiet_same, law_quiet. auto. Qed.
Lemma quiet_unicode p : nt_quiet (co_winnt_utf8_to_unicode p).
Proof using All.
  intros n. apply quiet_same, law_quiet. do 2 right. left. exists p.
  destruct (co_winnt_utf8_to_unicode p n) as [r n']. by exists r.
Qed.
Lemma quiet_free_unicode u n : nt_same n (co_winnt_free_unicode u n).
Proof using All. apply quiet_same, law_quiet. do 3 right. left. by exists u. Qed.
Lemma quiet_query h : nt_quiet (zw_query_information_file h).
Proof using All.
  intros n. apply quiet_same, law_quiet. do 4 right. left. exists h.
  destruct (zw_query_information_file h n) as [r n']. by exists r.
Qed.
Lemma quiet_ioctl h : nt_quiet (zw_device_io_control_file h).
Proof using All.
  intros n. apply quiet_same, law_quiet. do 5 right. left. exists h.
  destruct (zw_device_io_control_file h n) as [r n']. by exists r.
Qed.
Lemma quiet_set h s : nt_quiet (zw_set_information_file h s).
Proof using All.
  intros n. apply quiet_same, law_quiet. do 6 right. exists h, s.
  destruct (zw_set_information_file h s n) as [r n']. by exists r.
Qed.

Lemma wp_quiet {A} (f : N -> A * N) n0 n (Q : A -> N -> Prop) E :
  nt_quiet f -> nt_same n0 n -> (forall a n', f n = (a, n') -> nt_same n0 n' -> Q a n') ->
  wp (nt_call f) Q E n.
Proof using.
  intros Hf Hs HQ. specialize (Hf n). unfold wp, nt_call. destruct (f n) as [a n'] eqn:Ef.
  apply HQ; [done|]. by eapply nt_same_trans.
Qed.

(** ** Opening and closing *)

Lemma wp_bdev_size h n0 n :
  nt_same n0 n ->
  wp (co_winnt_bdev_size h) (fun size n' => nt_same n0 n' /\ 0 < size < 2 ^ 63)
     (fun _ n' => nt_same n0 n') n.
Proof using All.
  intros Hs. unfold co_winnt_bdev_size. wp_step.
  apply (wp_quiet _ n0); [apply quiet_query|done|]. intros info n1 Hq Hs1.
  assert (wp (length ← nt_call (zw_device_io_control_file h);
              match length with
              | Some n => if 0 <? n then mret n else throw CO_RC_ERROR
              | None => throw CO_RC_ERROR
              end) (fun size n' => nt_same n0 n' /\ 0 < size < 2 ^ 63)
            (fun _ n' => nt_same n0 n') n1) as Hdisk.
  { wp_step. apply (wp_quiet _ n0); [apply quiet_ioctl|done|]. intros [l|] n2 Hi Hs2; [|done].
    wp_step; wp_step; [|done]. split; [done|]. split; [lia|by eapply law_length]. }
  destruct info as [s|]; [|done]. wp_step; [|done]. wp_step. split; [done|].
  split; [lia|by eapply law_size].
Qed.

(** [h] came into being. *)
Definition opened n n' (h : Z) : Prop :=
  h <> 0 /\ ~ nt_open n h /\ (forall h', nt_open n' h' <-> h' = h \/ nt_open n h') /\
  (forall h' i, nt_open n h' -> nt_byte n' h' i = nt_byte n h' i).

Lemma opened_same n n1 n2 h : opened n n1 h -> nt_same n1 n2 -> opened n n2 h.
Proof using.
  intros (H1' & H2' & H3' & H4') [Ho Hb]. split; [done|]. split; [done|]. split.
  - intros h'. by rewrite Ho, H3'.
  - intros h' i Hh. rewrite Hb by (apply H3'; by right). by apply H4'.
Qed.

Lemma opened_closed n n1 h : opened n n1 h -> nt_same n (zw_close h n1).
Proof using All.
  intros (H1' & H2' & H3' & H4'). assert (nt_open n1 h) as Hh by (apply H3'; by left).
  destruct (law_close h n1 Hh) as [Hc Hb]. split.
  - intros h'. rewrite Hc, H3'. split; [intros [[->|?] ?]; done|].
    intros Ho. split; [by right|]. intros ->. done.
  - intros h' i Ho. rewrite Hb by (intros ->; done). by apply H4'.
Qed.

Lemma wp_bdev_open path n :
  wp (co_os_bdev_open path)
     (fun r n' => bd_size r.1 = r.2 /\ 0 < r.2 < 2 ^ 63 /\ opened n n' (bd_handle r.1))
     (fun _ n' => nt_same n n') n.
Proof using All.
  unfold co_os_bdev_open. wp_step. apply (wp_quiet _ n); [apply quiet_malloc|apply nt_same_refl|].
  intros dev n1 _ Hs1. wp_step. wp_step; [done|]. wp_step.
  apply (wp_quiet _ n); [apply quiet_unicode|done|]. intros [u|rc] n2 _ Hs2.
  2:{ wp_step. wp_step. wp_step. eapply nt_same_trans; [done|apply quiet_free]. }
  wp_step. unfold wp at 1, nt_call. pose proof (law_create u n2) as Hl.
  destruct (zw_create_file u n2) as [h n3]. destruct Hl as [Hb Ho]. wp_step. wp_step.
  pose proof (quiet_free_unicode u n3) as Hfu. destruct h as [h|].
  - destruct Ho as (Hh & Hnew & Ho).
    assert (opened n n3 h) as Hop.
    { destruct Hs2 as [Ho2 Hb2]. split; [done|]. split; [by rewrite <- Ho2|]. split.
      - intros h'. by rewrite Ho, Ho2.
      - intros h' i Hh'. rewrite Hb by (by apply Ho2). by apply Hb2. }
    pose proof (opened_same _ _ _ _ Hop Hfu) as Hop4. wp_step. wp_step.
    eapply wp_mono; [apply (wp_bdev_size h (co_winnt_free_unicode u n3)), nt_same_refl| |].
    + intros size n5 [Hs5 Hsz]. wp_step.
      apply (wp_quiet _ (co_winnt_free_unicode u n3)); [apply quiet_set|done|].
      intros b n6 _ Hs6. wp_step. split; [done|]. split; [done|]. by eapply opened_same.
    + intros rc n5 Hs5. wp_step. wp_step. wp_step. wp_step. wp_step.
      pose proof (opened_same _ _ _ _ Hop4 Hs5) as Hop5.
      eapply nt_same_trans; [by apply opened_closed|apply quiet_free].
  - wp_step. wp_step. wp_step. eapply nt_same_trans; [|apply quiet_free].
    eapply nt_same_trans; [exact Hs2|]. eapply nt_same_trans; [|exact Hfu]. by split.
Qed.

(** ** The table of units *)

(** A unit without a device has no size; one with a device has an open handle
    of its own and the size of the device. *)
Definition unit_ok n (u : Z) (e : co_cobd_unit_t) : Prop :=
  match u_dev e with
  | None => u_size e = 0
  | Some d => no_unit u = false /\ bd_handle d <> 0 /\ nt_open n (bd_handle d) /\
              0 < bd_size d < 2 ^ 63 /\ u_size e = bd_size d
  end.

Definition units_ok c : Prop :=
  (forall u, unit_ok (cobd_nt c) u (unit_at c u)) /\
  (forall u v d e, u <> v -> u_dev (unit_at c u) = Some d -> u_dev (unit_at c v) = Some e ->
     bd_handle d <> bd_handle e).

(** The other units, and the files behind them, are as they were. *)
Definition others_kept c c' (unit : Z) : Prop :=
  forall v, v <> unit -> unit_at c' v = unit_at c v /\
    forall d i, u_dev (unit_at c v) = Some d ->
      nt_byte (cobd_nt c') (bd_handle d) i = nt_byte (cobd_nt c) (bd_handle d) i.

Lemma unit_at_set unit e c v :
  unit_at (set_unit unit e c) v = if decide (v = unit) then e else unit_at c v.
Proof using.
  unfold unit_at, set_unit. cbn. case_decide as E; [subst; by rewrite lookup_insert_eq|].
  by rewrite lookup_insert_ne by done.
Qed.

Lemma others_kept_trans c c1 c2 unit :
  others_kept c c1 unit -> others_kept c1 c2 unit -> others_kept c c2 unit.
Proof using.
  intros Hk Hk' v Hv. destruct (Hk v Hv) as [E B], (Hk' v Hv) as [E' B']. split; [congruence|].
  intros d i Hd. rewrite B' by (by rewrite E). by apply B.
Qed.

(** Files may come and go as long as those of the units stay. *)
Lemma units_ok_nt c n' :
  units_ok c ->
  (forall u d, u_dev (unit_at c u) = Some d -> nt_open n' (bd_handle d)) -> units_ok (set_nt n' c).
Proof using.
  intros [Hu Hd] Hn. split; [|done]. intros u. specialize (Hu u). specialize (Hn u).
  change (unit_at (set_nt n' c) u) with (unit_at c u). unfold unit_ok in *.
  destruct (u_dev (unit_at c u)) as [d|]; [|done]. destruct Hu as (? & ? & _ & ? & ?).
  split; [done|split; [done|split; [by apply Hn|done]]].
Qed.

Lemma units_ok_same c n' : units_ok c -> nt_same (cobd_nt c) n' ->
  units_ok (set_nt n' c) /\ forall unit, others_kept c (set_nt n' c) unit.
Proof using.
  intros Hok [Ho Hb]. pose proof Hok as [Hu _]. split.
  - apply units_ok_nt; [done|]. intros u d Hd. apply Ho. specialize (Hu u). unfold unit_ok in Hu.
    rewrite Hd in Hu. apply Hu.
  - intros unit v _. split; [done|]. intros d i Hd. apply Hb. specialize (Hu v).
    unfold unit_ok in Hu. rewrite Hd in Hu. apply Hu.
Qed.

(** Closing the device of a unit empties it. *)
Lemma wp_close_unit c unit d :
  units_ok c -> u_dev (unit_at c unit) = Some d ->
  wp (on_nt (co_os_bdev_close (Some d)) ;; modify (set_unit unit (Unit None 0)))
     (fun _ c' => units_ok c' /\ unit_at c' unit = Unit None 0 /\ others_kept c c' unit)
     (fun _ _ => False) c.
Proof using All.
  intros [Hu Hdist] Hd. pose proof (Hu unit) as Hone. unfold unit_ok in Hone. rewrite Hd in Hone.
  destruct Hone as (Hno & Hh & Hopen & _). destruct (law_close _ _ Hopen) as [Hc Hb].
  pose proof (quiet_free (zw_close (bd_handle d) (cobd_nt c))) as [Hfo Hfb].
  set (n' := nt_free (zw_close (bd_handle d) (cobd_nt c))) in *.
  assert (co_os_bdev_close (Some d) (cobd_nt c) = (Ret tt, n')) as Hrun.
  { unfold co_os_bdev_close, mbind, M_bind. by rewrite (proj2 (Z.eqb_neq _ _)) by done. }
  wp_step. unfold wp at 1, on_nt. rewrite Hrun. wp_step.
  assert (forall v e, v <> unit -> u_dev (unit_at c v) = Some e ->
    nt_open n' (bd_handle e) /\ forall i, nt_byte n' (bd_handle e) i = nt_byte (cobd_nt c) (bd_handle e) i)
    as Hother.
  { intros v e Hv He. pose proof (Hdist unit v d e ltac:(done) Hd He) as Hne.
    specialize (Hu v). unfold unit_ok in Hu. rewrite He in Hu.
    assert (nt_open (zw_close (bd_handle d) (cobd_nt c)) (bd_handle e)) as Ho
      by (apply Hc; split; [apply Hu|by intros E]).
    split; [by apply Hfo|]. intros i. rewrite Hfb by done. by apply Hb. }
  split; [split|split].
  - intros v. rewrite unit_at_set. case_decide as E; [done|]. specialize (Hu v). unfold unit_ok in *.
    change (unit_at (set_nt n' c) v) with (unit_at c v).
    destruct (u_dev (unit_at c v)) as [e|] eqn:He; [|done].
    destruct (Hother v e E He) as [Ho _]. by destruct Hu as (? & ? & _ & ? & ?).
  - intros u v e e' Huv. rewrite !unit_at_set. repeat case_decide; try done. by apply Hdist.
  - rewrite unit_at_set. by rewrite decide_True.
  - intros v Hv. rewrite unit_at_set, decide_False by done. split; [done|].
    intros e i He. by apply (Hother v e).
Qed.

Lemma wp_attach c unit path :
  units_ok c -> no_unit unit = false ->
  wp (co_cobd_attach unit path)
     (fun size c' => units_ok c' /\ others_kept c c' unit /\
        exists d, unit_at c' unit = Unit (Some d) size)
     (fun _ c' => units_ok c' /\ others_kept c c' unit /\ u_dev (unit_at c' unit) = None) c.
Proof using All.
  intros Hok Hno. unfold co_cobd_attach. rewrite Hno. wp_step. wp_step; [done|].
  wp_step. wp_step. wp_step.
  assert (wp (match u_dev (unit_at c unit) with
              | Some _ => on_nt (co_os_bdev_close (u_dev (unit_at c unit))) ;;
                          modify (set_unit unit (Unit None 0))
              | None => mret tt
              end)
    (fun _ c' => units_ok c' /\ unit_at c' unit = Unit None 0 /\ others_kept c c' unit)
    (fun _ _ => False) c) as Hclose.
  { destruct (u_dev (unit_at c unit)) as [d|] eqn:Hd; [by apply wp_close_unit|].
    wp_step. split; [done|]. split; [|by intros v Hv].
    destruct Hok as [Hu _]. specialize (Hu unit). unfold unit_ok in Hu. rewrite Hd in Hu.
    destruct (unit_at c unit). cbn in *. by subst. }
  eapply wp_mono; [exact Hclose| |done]. intros [] c1 (Hok1 & Hun1 & Hk1). wp_step. wp_step.
  pose proof (wp_bdev_open path (cobd_nt c1)) as Hopen. unfold wp at 1, on_nt. unfold wp in Hopen.
  destruct (co_os_bdev_open path (cobd_nt c1)) as [[[d size]|rc|] n'].
  - destruct Hopen as (Es & Hs & Hh & Hnew & Ho & Hb). cbn [fst snd] in *. wp_step. wp_step. wp_step.
    assert (forall v e, u_dev (unit_at c1 v) = Some e -> nt_open (cobd_nt c1) (bd_handle e)) as Hopen1.
    { intros v e He. destruct Hok1 as [Hu _]. specialize (Hu v). unfold unit_ok in Hu.
      rewrite He in Hu. apply Hu. }
    assert (units_ok (set_nt n' c1)) as [Hu Hdist]
      by (apply units_ok_nt; [done|]; intros u e He; apply Ho; right; by eapply Hopen1).
    split; [split|split].
    + intros v. rewrite unit_at_set. case_decide as E; [|apply Hu]. subst. unfold unit_ok. cbn.
      split; [done|split; [done|split; [apply Ho; by left|split; [lia|done]]]].
    + intros u v e e' Huv. rewrite !unit_at_set. case_decide as Eu; case_decide as Ev; try congruence.
      * intros [= <-] He' E. apply Hnew. rewrite E. by eapply Hopen1.
      * intros He [= <-] E. apply Hnew. rewrite <- E. by eapply Hopen1.
      * by apply Hdist.
    + eapply others_kept_trans; [exact Hk1|]. intros v Hv. rewrite unit_at_set, decide_False by done.
      split; [done|]. intros e i He. apply Hb. by eapply Hopen1.
    + exists d. rewrite unit_at_set. by rewrite decide_True.
  - wp_step. wp_step. wp_step. destruct (units_ok_same c1 n' Hok1 Hopen) as [[Hu Hdist] Hk2].
    change (unit_at (set_nt n' c1) unit) with (unit_at c1 unit). rewrite Hun1. cbn [u_size].
    split; [split|split].
    + intros v. rewrite unit_at_set. case_decide as E; [done|apply Hu].
    + intros u v e e' Huv. rewrite !unit_at_set. repeat case_decide; try done. by apply Hdist.
    + eapply others_kept_trans; [exact Hk1|]. intros v Hv. rewrite unit_at_set, decide_False by done.
      exact (Hk2 unit v Hv).
    + rewrite unit_at_set. by rewrite decide_True.
  - done.
Qed.

Lemma wp_detach_all c :
  units_ok c ->
  wp co_cobd_detach_all (fun _ c' => units_ok c' /\ forall u, u_dev (unit_at c' u) = None)
     (fun _ _ => False) c.
Proof using All.
  intros Hok. unfold co_cobd_detach_all.
  apply (wp_mfor _ (fun i c' => units_ok c' /\ forall u, 0 <= u < i -> u_dev (unit_at c' u) = None)).
  - intros i c1 Hi [Hok1 Hnone]. wp_step. wp_step.
    destruct (u_dev (unit_at c1 i)) as [d|] eqn:Hd.
    + eapply wp_ret_mono; [by apply wp_close_unit|]. intros [] c2 (Hok2 & Hun & Hk).
      split; [done|]. intros u Hu. destruct (decide (u = i)) as [->|Hne]; [by rewrite Hun|].
      destruct (Hk u Hne) as [-> _]. apply Hnone. lia.
    + wp_step. split; [done|]. intros u Hu. destruct (decide (u = i)) as [->|]; [done|].
      apply Hnone. lia.
  - split; [done|]. intros u Hu. lia.
  - intros c' [Hok' Hnone]. split; [done|]. intros u.
    destruct (decide (0 <= u < 0 + Z.of_nat 4)) as [Hin|Hout]; [by apply Hnone|].
    destruct Hok' as [Hu _]. specialize (Hu u). unfold unit_ok in Hu.
    destruct (u_dev (unit_at c' u)) as [d|]; [|done]. destruct Hu as [Hno _].
    unfold no_unit in Hno. change CO_COBD_MAX_UNITS with 4 in Hno. zbool. lia.
Qed.

(** ** Properties *)

(** C38: the table of units is well formed after every operation. Attaching
    always returns; it leaves every unit with either no device and no size, or
    an open handle of its own and that device's size; the other units and the
    bytes behind them are untouched; on success the unit is present with the
    size reported, on failure it is not present. Detaching leaves no unit. *)
Theorem cobd_units_well_formed c unit path :
  units_ok c ->
  match co_cobd_attach unit path c with
  | (Ret size, c') => units_ok c' /\ others_kept c c' unit /\
                      co_cobd_present c' unit = true /\ co_cobd_size c' unit = size
  | (Fail rc, c') => units_ok c' /\ others_kept c c' unit /\ co_cobd_present c' unit = false
  | (Fault, _) => False
  end /\
  exists c', co_cobd_detach_all c = (Ret tt, c') /\ units_ok c' /\
    forall u, co_cobd_present c' u = false /\ co_cobd_size c' u = 0.
Proof using All.
  intros Hok. split.
  - destruct (no_unit unit) eqn:Hno.
    + assert (co_cobd_attach unit path c = (Fail CO_RC_INVALID_PARAMETER, c)) as ->
        by (unfold co_cobd_attach, mbind, M_bind, fail_if; by rewrite Hno).
      split; [done|]. split; [by intros v Hv|]. unfold co_cobd_present. by rewrite Hno.
    + pose proof (wp_attach c unit path Hok Hno) as Hwp. unfold wp in Hwp.
      unfold co_cobd_present, co_cobd_size. rewrite Hno.
      destruct (co_cobd_attach unit path c) as [[size|rc|] c']; [| |done].
      * destruct Hwp as (Hok' & Hk & d & Hd). rewrite Hd. cbn.
        split; [done|]. split; [done|]. by split.
      * destruct Hwp as (Hok' & Hk & Hd). rewrite Hd. split; [done|]. split; [done|].
        apply bool_decide_false. by intros [? ?].
  - destruct (wp_total _ _ _ (wp_detach_all c Hok)) as ([] & c' & Hrun & Hok' & Hnone).
    exists c'. split; [done|]. split; [done|]. intros u. unfold co_cobd_present, co_cobd_size.
    rewrite Hnone. destruct Hok' as [Hu _]. specialize (Hu u). unfold unit_ok in Hu.
    rewrite Hnone in Hu. rewrite Hu. rewrite bool_decide_false by (by intros [? ?]).
    by destruct (no_unit u).
Qed.
End units_ok.
