(* ===== verification/CobdAsync.v ===== *)
(** Asynchronous block requests ([kernel/cobd_async.c]).

    Requests wait in one queue per unit, threaded through the [next] pointers
    of a fixed array of nodes; one worker per unit takes them out, performs the
    transfer and reports it in the guest's completion ring. The section of each
    operation under a lock is one step; [astep] interleaves the submitting
    thread, the workers, the guest and the stop request. *)
From S2P Require Import Prelude.
From S2P Require Import Rc.
From S2P Require Import Mem.
From S2P Require Import GuestMem.
From S2P Require Import Space.
From S2P Require Import Bdev.
From S2P Require Import Cobd.

(** The completion ring, [CO_CIO_*] in this file of the source. *)
Definition CO_ACIO_ENABLED : Z := 0x00.
Definition CO_ACIO_COMP_HEAD : Z := 0x04.
Definition CO_ACIO_COMP_TAIL : Z := 0x08.
Definition CO_ACIO_COMP : Z := 0x10.
Definition CO_ACIO_COMP_STRIDE : Z := 0x10.
Definition CO_COBD_COMP_SLOTS : Z := 128.
Definition CO_COBD_WORK_NODES : Z := 128.
Definition CO_COBD_WORKERS : Z := CO_COBD_MAX_UNITS.

(** A pointer to a node is its index in [work_nodes]. *)
Definition ptr : Type := option Z.

Record co_cobd_work := Work {
  wk_unit : Z;
  wk_offset : Z;
  wk_sg_pa : Z;
  wk_count : Z;
  wk_write : bool;
  wk_tag : Z;
  wk_next : ptr;
}.

(** The statics. An absent entry of a map is what the array starts with. *)
Record async := Async {
  cobd_io_va : Z;
  stopping : bool;
  async_errors : Z;
  work_nodes : gmap Z co_cobd_work;
  free_list : ptr;
  fifo_head : gmap Z Z;
  fifo_tail : gmap Z Z;
  worker_count : Z;
}.

Definition node_at (a : async) (n : Z) : co_cobd_work :=
  default (Work 0 0 0 0 false 0 None) (work_nodes a !! n).
Definition set_nodes (nodes : gmap Z co_cobd_work) (free : ptr) (head tail : gmap Z Z) (a : async) :
    async :=
  Async (cobd_io_va a) (stopping a) (async_errors a) nodes free head tail (worker_count a).
Definition set_next (n : Z) (next : ptr) (nodes : gmap Z co_cobd_work) : gmap Z co_cobd_work :=
  let k := default (Work 0 0 0 0 false 0 None) (nodes !! n) in
  <[n := Work (wk_unit k) (wk_offset k) (wk_sg_pa k) (wk_count k) (wk_write k) (wk_tag k) next]> nodes.

(** [fifo_head[unit] = p] *)
Definition set_ptr (unit : Z) (p : ptr) (m : gmap Z Z) : gmap Z Z :=
  match p with
  | Some n => <[unit := n]> m
  | None => delete unit m
  end.

(** ** Queues and the pool *)

Definition fifo_pop (unit : Z) (a : async) : ptr * async :=
  match fifo_head a !! unit with
  | None => (None, a)
  | Some n =>
      let next := wk_next (node_at a n) in
      (Some n, set_nodes (work_nodes a) (free_list a) (set_ptr unit next (fifo_head a))
                 (match next with Some _ => fifo_tail a | None => delete unit (fifo_tail a) end) a)
  end.

Definition node_free (n : Z) (a : async) : async :=
  set_nodes (set_next n (free_list a) (work_nodes a)) (Some n) (fifo_head a) (fifo_tail a) a.

Definition co_cobd_async_submit (unit offset sg_pa count : Z) (write : bool) (tag : Z) (a : async) :
    bool * async :=
  if no_unit unit then (false, a) else
  match free_list a with
  | None => (false, a)
  | Some n =>
      let free := wk_next (node_at a n) in
      let nodes := <[n := Work unit offset sg_pa count write tag None]> (work_nodes a) in
      (true, match fifo_tail a !! unit with
             | Some t => set_nodes (set_next t (Some n) nodes) free (fifo_head a)
                           (<[unit := n]> (fifo_tail a)) a
             | None => set_nodes nodes free (<[unit := n]> (fifo_head a))
                         (<[unit := n]> (fifo_tail a)) a
             end)
  end.

(** ** Starting and stopping *)

(** [for (i = 0; i < CO_COBD_WORK_NODES; i++)]: push every node. *)
Fixpoint build_free (n : nat) (i : Z) (nodes : gmap Z co_cobd_work) (free : ptr) :
    gmap Z co_cobd_work * ptr :=
  match n with
  | O => (nodes, free)
  | S n' => build_free n' (i + 1) (set_next i free nodes) (Some i)
  end.

(** How many threads start before the first that does not; [kthread i] is the
    answer of [co_os_kthread_start] for worker [i]. *)
Fixpoint start_workers (n : nat) (i : Z) (kthread : Z -> bool) : Z :=
  match n with
  | O => 0
  | S n' => if kthread i then 1 + start_workers n' (i + 1) kthread else 0
  end.

Definition set_io_va (va : Z) (a : async) : async :=
  Async va (stopping a) (async_errors a) (work_nodes a) (free_list a) (fifo_head a) (fifo_tail a)
    (worker_count a).
Definition set_workers (n : Z) (a : async) : async :=
  Async (cobd_io_va a) (stopping a) (async_errors a) (work_nodes a) (free_list a) (fifo_head a)
    (fifo_tail a) n.
Definition set_stopping (a : async) : async :=
  Async (cobd_io_va a) true (async_errors a) (work_nodes a) (free_list a) (fifo_head a)
    (fifo_tail a) (worker_count a).
Definition count_error (a : async) : async :=
  Async (cobd_io_va a) (stopping a) (ulong (async_errors a + 1)) (work_nodes a) (free_list a)
    (fifo_head a) (fifo_tail a) (worker_count a).

Section async_ops.
Context {W : Type} `{GuestMem W}.

(** The state a start leaves before it touches the guest. *)
Definition fresh_async (va : Z) (a : async) : async :=
  let '(nodes, free) := build_free (Z.to_nat CO_COBD_WORK_NODES) 0 (work_nodes a) None in
  Async va false 0 nodes free ∅ ∅ 0.

Definition co_cobd_async_start (va : Z) (kthread : Z -> bool) : M (W * async) () :=
  modify (fun ws => (ws.1, fresh_async va ws.2)) ;;
  told ← attempt (lift (gm_write (u64 (va + CO_ACIO_ENABLED)) (le_bytes 4 1) 4));
  match told with
  | inr _ => modify (fun ws => (ws.1, set_io_va 0 ws.2)) ;; throw CO_RC_ERROR
  | inl _ =>
      let n := start_workers (Z.to_nat CO_COBD_WORKERS) 0 kthread in
      modify (fun ws => (ws.1, set_workers n ws.2)) ;;
      if n =? 0 then modify (fun ws => (ws.1, set_io_va 0 ws.2)) ;; throw CO_RC_ERROR
      else mret tt
  end.

(** After the workers are joined. *)
Definition stopped_async (a : async) : async :=
  Async 0 (stopping a) (async_errors a) (work_nodes a) None ∅ ∅ 0.

(** The record a completion adds to the ring. *)
Definition comp_record (unit tag result : Z) : list Z :=
  le_bytes 4 unit ++ le_bytes 4 tag ++ le_bytes 4 result ++ le_bytes 4 0.

(** [va]: [cobd_io_va] as read under [comp_lock]. *)
Definition co_cobd_complete (va unit tag result : Z) : M W () :=
  if va =? 0 then mret tt else
  head ← attempt (gm_read (u64 (va + CO_ACIO_COMP_HEAD)) 4);
  match head with inr _ => mret tt | inl head =>
  tail ← attempt (gm_read (u64 (va + CO_ACIO_COMP_TAIL)) 4);
  match tail with inr _ => mret tt | inl tail =>
  let head := le_join head in
  let tail := le_join tail in
  if CO_COBD_COMP_SLOTS <=? u32 (head - tail) then mret tt else
  let slot := u64 (va + CO_ACIO_COMP +
                   Z.land head (CO_COBD_COMP_SLOTS - 1) * CO_ACIO_COMP_STRIDE) in
  put ← attempt (gm_write slot (comp_record unit tag result) 16);
  match put with inr _ => mret tt | inl _ =>
  told ← attempt (gm_write (u64 (va + CO_ACIO_COMP_HEAD)) (le_bytes 4 (u32 (head + 1))) 4);
  mret tt end end end.
End async_ops.

(** ** The worker, and everybody at once *)

(** Where a worker is between two of its locked sections: about to pop, having
    found nothing, asleep on its event, with a node it took out, with the
    result of the transfer, with the result reported, gone. *)
Inductive worker_pc :=
  | Idle
  | Empty
  | Sleeping
  | Holding (n : Z)
  | Transferred (n result : Z)
  | Reported (n : Z)
  | Exited.

(** [s_event]: the units whose [sub_wait] event is signalled. [s_wakes]: the
    calls of [co_os_wait_wakeup] still to be made by a thread that has left its
    locked section. [s_acc] and [s_comp] record, per unit, the tags accepted by
    a submission and the tags handed to [co_cobd_complete], oldest first. *)
Record sys (W N : Type) := Sys {
  s_world : W * cobd N;
  s_async : async;
  s_pc : gmap Z worker_pc;
  s_event : gset Z;
  s_wakes : list Z;
  s_acc : Z -> list Z;
  s_comp : Z -> list Z;
}.
Arguments Sys {W N} _ _ _ _ _ _ _.
Arguments s_world {W N} _.
Arguments s_async {W N} _.
Arguments s_pc {W N} _.
Arguments s_event {W N} _.
Arguments s_wakes {W N} _.
Arguments s_acc {W N} _ _.
Arguments s_comp {W N} _ _.

(** [f] with [f u] replaced. *)
Definition upd {A} (f : Z -> A) (u : Z) (x : A) : Z -> A :=
  fun v => if decide (v = u) then x else f v.
Definition append_at (f : Z -> list Z) (u x : Z) : Z -> list Z := upd f u (f u ++ [x]).

Section steps.
Context {W N : Type} `{GuestPages W} `{GuestMem W} `{NtFiles N}.

(** [result = CO_OK(rc) ? 0 : 1]; a [Fault] would stop the machine, and
    [CobdOk] shows that the transfer has none. *)
Definition result_of {A} (r : outcome A) : Z := match r with Ret _ => 0 | _ => 1 end.

Definition transfer (k : co_cobd_work) : M (W * cobd N) () :=
  co_cobd_request_sg (wk_unit k) (wk_offset k) (wk_sg_pa k) (wk_count k) (wk_write k).

(** One locked section, wait or test of [stopping] of the worker of unit [u]. *)
Inductive worker_step (u : Z) : sys W N -> sys W N -> Prop :=
  | step_pop ws a pc ev wk acc comp n a' :
      pc !! u = Some Idle -> fifo_pop u a = (Some n, a') ->
      worker_step u (Sys ws a pc ev wk acc comp) (Sys ws a' (<[u := Holding n]> pc) ev wk acc comp)
  | step_empty ws a pc ev wk acc comp a' :
      pc !! u = Some Idle -> fifo_pop u a = (None, a') ->
      worker_step u (Sys ws a pc ev wk acc comp) (Sys ws a' (<[u := Empty]> pc) ev wk acc comp)
  | step_exit ws a pc ev wk acc comp :
      pc !! u = Some Empty -> stopping a = true ->
      worker_step u (Sys ws a pc ev wk acc comp) (Sys ws a (<[u := Exited]> pc) ev wk acc comp)
  | step_sleep ws a pc ev wk acc comp :
      pc !! u = Some Empty -> stopping a = false ->
      worker_step u (Sys ws a pc ev wk acc comp) (Sys ws a (<[u := Sleeping]> pc) ev wk acc comp)
  | step_woken ws a pc ev wk acc comp :
      pc !! u = Some Sleeping -> u ∈ ev ->
      worker_step u (Sys ws a pc ev wk acc comp) (Sys ws a (<[u := Idle]> pc) (ev ∖ {[u]}) wk acc comp)
  | step_transfer ws a pc ev wk acc comp n r ws' :
      pc !! u = Some (Holding n) -> transfer (node_at a n) ws = (r, ws') ->
      worker_step u (Sys ws a pc ev wk acc comp)
        (Sys ws' (if result_of r =? 0 then a else count_error a)
           (<[u := Transferred n (result_of r)]> pc) ev wk acc comp)
  | step_report w c a pc ev wk acc comp n result r w' :
      pc !! u = Some (Transferred n result) ->
      co_cobd_complete (cobd_io_va a) (wk_unit (node_at a n)) (wk_tag (node_at a n)) result w = (r, w') ->
      worker_step u (Sys (w, c) a pc ev wk acc comp)
        (Sys (w', c) a (<[u := Reported n]> pc) ev wk acc
           (append_at comp (wk_unit (node_at a n)) (wk_tag (node_at a n))))
  | step_free ws a pc ev wk acc comp n :
      pc !! u = Some (Reported n) ->
      worker_step u (Sys ws a pc ev wk acc comp)
        (Sys ws (node_free n a) (<[u := Idle]> pc) ev wk acc comp).

(** [co_os_wait_wakeup(sub_wait[u])] of some thread: the event is signalled,
    and stays so until the worker waits. *)
Inductive wakeup_step (u : Z) : sys W N -> sys W N -> Prop :=
  | step_wakeup ws a pc ev wk wk' acc comp :
      wk ≡ₚ u :: wk' ->
      wakeup_step u (Sys ws a pc ev wk acc comp) (Sys ws a pc ({[u]} ∪ ev) wk' acc comp).

(** Anybody's step: a submission, a worker, a pending wakeup, the guest (which
    may do anything to its memory), the request to stop, and the early return
    of an alertable wait. *)
Inductive astep : sys W N -> sys W N -> Prop :=
  | step_submit ws a pc ev wk acc comp unit offset sg_pa count write tag ok a' :
      co_cobd_async_submit unit offset sg_pa count write tag a = (ok, a') ->
      astep (Sys ws a pc ev wk acc comp)
        (Sys ws a' pc ev (if ok : bool then wk ++ [unit] else wk)
           (if ok then append_at acc unit tag else acc) comp)
  | step_worker u s s' : worker_step u s s' -> astep s s'
  | step_wake u s s' : wakeup_step u s s' -> astep s s'
  | step_guest ws ws' a pc ev wk acc comp :
      astep (Sys ws a pc ev wk acc comp) (Sys ws' a pc ev wk acc comp)
  | step_stop ws a pc ev wk acc comp :
      astep (Sys ws a pc ev wk acc comp)
        (Sys ws (set_stopping a) pc ev (wk ++ seqZ 0 (worker_count a)) acc comp)
  | step_alerted u ws a pc ev wk acc comp :
      pc !! u = Some Sleeping ->
      astep (Sys ws a pc ev wk acc comp) (Sys ws a (<[u := Idle]> pc) ev wk acc comp).

(** Right after a start in which [n] workers came up; an event may still be
    signalled from an earlier run. *)
Definition started (s : sys W N) : Prop :=
  exists ws va a n ev, 0 <= n <= CO_COBD_WORKERS /\
    s = Sys ws (set_workers n (fresh_async va a))
          (list_to_map ((fun u => (u, Idle)) <$> seqZ 0 n)) ev [] (fun _ => []) (fun _ => []).
End steps.

(** ** The objects

    Two mutexes and an event per unit,
    each an allocation ([co_os_mutex_create], [co_os_wait_create]). *)

(** Which of the pointers are not null. *)
Record async_objects := Objects { sub_lock : bool; comp_lock : bool; sub_wait : gset Z }.

Section objects.
Context {N : Type} `{NtFiles N}.

Definition on_objects (f : async_objects -> async_objects) : M (N * async_objects) () :=
  modify (fun s => (s.1, f (s.2))).
Definition set_sub (b : bool) (o : async_objects) := Objects b (comp_lock o) (sub_wait o).
Definition set_comp (b : bool) (o : async_objects) := Objects (sub_lock o) b (sub_wait o).
Definition set_wait (i : Z) (b : bool) (o : async_objects) :=
  Objects (sub_lock o) (comp_lock o) (if b then {[i]} ∪ sub_wait o else sub_wait o ∖ {[i]}).

(** [co_os_malloc], then the pointer is stored; [co_os_free], then it is
    cleared. *)
Definition create_object (have : bool -> async_objects -> async_objects) : M (N * async_objects) () :=
  ok ← (fun s => let '(ok, n) := nt_malloc s.1 in (Ret ok, (n, s.2)));
  on_objects (have ok) ;;
  fail_if (negb ok) CO_RC_OUT_OF_MEMORY.
Definition drop_object (there : async_objects -> bool) (have : bool -> async_objects -> async_objects) :
    M (N * async_objects) () :=
  live ← gets (fun s => there s.2);
  if live : bool then modify (fun s => (nt_free s.1, s.2)) ;; on_objects (have false) else mret tt.

Definition co_cobd_async_free : M (N * async_objects) () :=
  mfor 4 0 (fun i => drop_object (fun o => bool_decide (i ∈ sub_wait o)) (set_wait i)) ;;
  drop_object comp_lock set_comp ;;
  drop_object sub_lock set_sub.

Definition co_cobd_async_init : M (N * async_objects) () :=
  create_object set_sub ;;
  r ← attempt (create_object set_comp);
  match r with
  | inr rc =>
      modify (fun s => (nt_free s.1, s.2)) ;; on_objects (set_sub false) ;; throw rc
  | inl _ =>
      mfor 4 0 (fun i =>
        r ← attempt (create_object (set_wait i));
        match r with
        | inr rc => co_cobd_async_free ;; throw rc
        | inl _ => mret tt
        end)
  end.

(** [live n]: allocations of the driver that have not been freed. *)
Context (live : N -> Z)
  (live_malloc : forall n, let '(ok, n') := nt_malloc n in live n' = live n + (if ok : bool then 1 else 0))
  (live_free : forall n, live (nt_free n) = live n - 1).

Definition b2z (b : bool) : Z := if b then 1 else 0.
Definition objects (o : async_objects) : Z :=
  b2z (sub_lock o) + b2z (comp_lock o) + Z.of_nat (size (sub_wait o)).
Definition no_objects : async_objects := Objects false false ∅.

(** Allocations and pointers keep step. *)
Definition balanced (k : Z) (s : N * async_objects) : Prop := live s.1 = k + objects s.2.

Lemma wp_create k have (Q : () -> N * async_objects -> Prop) E s :
  balanced k s -> objects (have true s.2) = objects s.2 + 1 -> objects (have false s.2) = objects s.2 ->
  (forall n, balanced k (n, have true s.2) -> Q () (n, have true s.2)) ->
  (forall n, balanced k (n, have false s.2) -> E CO_RC_OUT_OF_MEMORY (n, have false s.2)) ->
  wp (create_object have) Q E s.
Proof using live_malloc.
  intros Hb Hup Hdown HQ HE. destruct s as [n o]. simpl in *. unfold create_object.
  pose proof (live_malloc n) as Hm. unfold wp, mbind, M_bind. simpl.
  destruct (nt_malloc n) as [ok n']. unfold balanced in *. simpl in *.
  destruct ok; [apply HQ|apply HE]; simpl; lia.
Qed.

Lemma wp_drop k there have (Q : () -> N * async_objects -> Prop) E s :
  balanced k s ->
  (there s.2 = true -> objects (have false s.2) = objects s.2 - 1) ->
  (forall n, balanced k (n, have false s.2) -> there s.2 = true -> Q () (n, have false s.2)) ->
  (there s.2 = false -> Q () s) ->
  wp (drop_object there have) Q E s.
Proof using live_free.
  intros Hb Hdown HQ HQ'. destruct s as [n o]. simpl in *. unfold drop_object.
  apply wp_bind, wp_gets. simpl. destruct (there o) eqn:Ht; [|apply wp_ret; auto].
  apply wp_bind, wp_modify, wp_modify. simpl. apply HQ; [|done].
  unfold balanced in *. simpl in *. rewrite live_free, Hdown by done. lia.
Qed.

(** Freeing drops whatever there is. *)
Lemma wp_free k (Q : () -> N * async_objects -> Prop) E s :
  balanced k s -> (forall i, i ∈ sub_wait s.2 -> 0 <= i < 4) ->
  (forall n, live n = k -> Q () (n, no_objects)) ->
  wp co_cobd_async_free Q E s.
Proof using live_malloc live_free.
  intros Hb Hr HQ. unfold co_cobd_async_free. wp_step.
  apply (wp_mfor _ (fun i s => balanced k s /\ forall j, j ∈ sub_wait s.2 -> i <= j < 4)).
  - intros i s' Hi [Hb' Hr']. apply (wp_drop k); [done|..].
    + intros Hin%bool_decide_eq_true. unfold objects, set_wait. simpl.
      rewrite size_difference by set_solver. rewrite size_singleton.
      assert (size (sub_wait s'.2) <> 0)%nat by (apply size_non_empty_iff; set_solver). lia.
    + intros n Hb1 _. split; [done|]. simpl. intros j [Hj Hne]%elem_of_difference.
      specialize (Hr' j Hj). rewrite elem_of_singleton in Hne. lia.
    + intros Hout%bool_decide_eq_false. split; [done|]. intros j Hj. specialize (Hr' j Hj).
      assert (j <> i) by by intros ->. lia.
  - by split.
  - intros s1 [Hb1 Hr1]. change (0 + Z.of_nat 4) with 4 in Hr1.
    assert (sub_wait s1.2 = ∅) as He.
    { apply set_eq. intros j. split; [|set_solver]. intros Hj. specialize (Hr1 j Hj). lia. }
    assert (forall n (o : async_objects), balanced k (n, o) -> sub_wait o = ∅ -> comp_lock o = false ->
      sub_lock o = false -> Q () (n, o)) as Hend.
    { intros n [s2 c2 w2] Hbal Hw Hc Hs. simpl in *. subst. apply HQ. unfold balanced in Hbal.
      change (objects _) with 0 in Hbal. simpl in Hbal. lia. }
    wp_step. apply (wp_drop k); [done|..].
    + intros Hc. unfold objects, set_comp. simpl. rewrite Hc. simpl. lia.
    + intros n Hb2 Hc. apply (wp_drop k); [done|..]; simpl.
      * intros Hs. unfold objects, set_sub. simpl. rewrite Hs. simpl. lia.
      * intros n2 Hb3 _. by apply Hend.
      * intros Hs. by apply Hend.
    + intros Hc. destruct s1 as [n1 o1]. simpl in *. apply (wp_drop k); [done|..]; simpl.
      * intros Hs. unfold objects, set_sub. simpl. rewrite Hs. simpl. lia.
      * intros n2 Hb3 _. by apply Hend.
      * intros Hs. by apply Hend.
Qed.

(** Making the module's objects makes all six or none: when one cannot be made
    every other is freed again and every pointer is null, whichever call it
    was that failed. *)
Theorem async_init_all_or_nothing n :
  match co_cobd_async_init (n, no_objects) with
  | (Ret _, (n', o)) => o = Objects true true {[0; 1; 2; 3]} /\ live n' = live n + 6
  | (Fail rc, (n', o)) => rc = CO_RC_OUT_OF_MEMORY /\ o = no_objects /\ live n' = live n
  | (Fault, _) => False
  end.
Proof using live_malloc live_free.
  assert (wp co_cobd_async_init
    (fun _ s' => s'.2 = Objects true true {[0; 1; 2; 3]} /\ live s'.1 = live n + 6)
    (fun rc s' => rc = CO_RC_OUT_OF_MEMORY /\ s'.2 = no_objects /\ live s'.1 = live n)
    (n, no_objects)) as Hwp.
  { assert (objects no_objects = 0) as Hz by done.
    unfold co_cobd_async_init. wp_step. apply (wp_create (live n)); [unfold balanced; simpl; lia|done|done|..].
    2:{ intros n1 Hb1. change (live n1 = live n + 0) in Hb1. split_and!; [done|done|simpl; lia]. }
    intros n1 Hb1. wp_step. apply wp_attempt. apply (wp_create (live n)); [done|done|done|..].
    2:{ intros n2 Hb2. unfold on_objects. repeat wp_step. change (live n2 = live n + 1) in Hb2. simpl.
        rewrite live_free. split_and!; [done|done|lia]. }
    intros n2 Hb2. cbn beta iota.
    apply (wp_mfor _ (fun i s => balanced (live n) s /\ sub_lock s.2 = true /\ comp_lock s.2 = true /\
      sub_wait s.2 = list_to_set (seqZ 0 i))).
    - intros i s Hi (Hb & Hs & Hc & Hw). wp_step. apply wp_attempt.
      assert (i ∉ sub_wait s.2) as Hni by (rewrite Hw, elem_of_list_to_set, elem_of_seqZ; lia).
      apply (wp_create (live n)); [done|..].
      + unfold objects, set_wait. simpl. rewrite size_union, size_singleton by set_solver. lia.
      + unfold objects, set_wait. simpl. by replace (sub_wait s.2 ∖ {[i]}) with (sub_wait s.2) by set_solver.
      + intros n3 Hb3. apply wp_ret. split_and!; [done|done|done|]. simpl. rewrite Hw.
        apply set_eq. intros j. rewrite elem_of_union, elem_of_singleton, !elem_of_list_to_set, !elem_of_seqZ.
        lia.
      + intros n3 Hb3. wp_step. apply (wp_free (live n)); [done|..].
        * simpl. intros j [Hj _]%elem_of_difference. rewrite Hw, elem_of_list_to_set, elem_of_seqZ in Hj. lia.
        * intros n4 Hl. by wp_step.
    - by split_and!.
    - intros [n3 [s3 c3 w3]] (Hb & Hs & Hc & Hw). simpl in *. subst. split; [done|].
      unfold balanced in Hb. simpl in Hb. rewrite Hb. done. }
  unfold wp in Hwp. by destruct (co_cobd_async_init (n, no_objects)) as [[[]|rc|] [n' o]].
Qed.
End objects.
