(* ===== verification/CobdAsyncOk.v ===== *)
(** The request queues of [CobdAsync]: pointer chains that denote lists, and
    the invariant of the interleaving. *)
From stdpp Require Import relations.
From S2P Require Import Prelude.
From S2P Require Import Rc.
From S2P Require Import Mem.
From S2P Require Import GuestMem.
From S2P Require Import Space.
From S2P Require Import Bdev.
From S2P Require Import Cobd.
From S2P Require Import CobdAsync.

#[local] Open Scope Z_scope.

Lemma upd_eq {A} (f : Z -> A) u x : upd f u x u = x.
Proof. unfold upd. by rewrite decide_True. Qed.
Lemma upd_ne {A} (f : Z -> A) u x v : v <> u -> upd f u x v = f v.
Proof. intros Hv. unfold upd. by rewrite decide_False. Qed.
Lemma upd_id {A} (f : Z -> A) u v : upd f u (f u) v = f v.
Proof. unfold upd. by case_decide; subst. Qed.

(** ** Chains *)

Definition next_of (nodes : gmap Z co_cobd_work) (n : Z) : ptr :=
  wk_next (default (Work 0 0 0 0 false 0 None) (nodes !! n)).

(** From pointer [p] the [next] pointers run through [l]. *)
Fixpoint links (nodes : gmap Z co_cobd_work) (p : ptr) (l : list Z) : Prop :=
  match l with
  | [] => p = None
  | n :: l' => p = Some n /\ links nodes (next_of nodes n) l'
  end.

Lemma next_insert nodes n k m :
  next_of (<[n := k]> nodes) m = if decide (m = n) then wk_next k else next_of nodes m.
Proof.
  unfold next_of. case_decide; subst; [by rewrite lookup_insert_eq|by rewrite lookup_insert_ne by done].
Qed.

Lemma next_set_next nodes n p m :
  next_of (set_next n p nodes) m = if decide (m = n) then p else next_of nodes m.
Proof. unfold set_next. rewrite next_insert. by destruct (nodes !! n). Qed.

Lemma links_frame nodes nodes' p l :
  links nodes p l -> (forall n, n ∈ l -> next_of nodes' n = next_of nodes n) -> links nodes' p l.
Proof.
  revert p. induction l as [|n l IH]; intros p Hl Hf; [done|].
  destruct Hl as [Hp Hl]. split; [done|]. rewrite Hf by left.
  apply IH; [done|]. intros m Hm. apply Hf. by right.
Qed.

(** Appending at the last node. *)
Lemma links_snoc nodes nodes' p l n :
  links nodes p l -> NoDup l -> n ∉ l -> next_of nodes' n = None ->
  (forall m, m ∈ l -> last l <> Some m -> next_of nodes' m = next_of nodes m) ->
  (forall m, last l = Some m -> next_of nodes' m = Some n) ->
  links nodes' (match l with [] => Some n | _ => p end) (l ++ [n]).
Proof.
  intros Hl Hd Hn Hnone Hf Hlast. revert p Hl. induction l as [|x l IH]; intros p Hl.
  { simpl. by rewrite Hnone. }
  destruct Hl as [-> Hl]. simpl. split; [done|].
  apply NoDup_cons in Hd as [Hx Hd]. apply not_elem_of_cons in Hn as [Hnx Hn].
  destruct l as [|y l].
  { rewrite (Hlast x) by done. simpl. by rewrite Hnone. }
  assert (last (x :: y :: l) = last (y :: l)) as Hl' by done.
  rewrite Hf; [|left|].
  - refine (IH Hd Hn _ _ _ Hl).
    + intros m Hm. apply Hf. by right.
    + intros m Hm. by apply Hlast.
  - rewrite Hl'. intros He. apply Hx. by apply last_Some_elem_of.
Qed.

(** ** The queues and the pool denote lists *)

(** [queues a free q]: the free nodes are [free], the queue of unit [u] is
    [q u]; units that do not exist have empty queues. *)
Definition queues (a : async) (free : list Z) (q : Z -> list Z) : Prop :=
  links (work_nodes a) (free_list a) free /\
  forall u, links (work_nodes a) (fifo_head a !! u) (q u) /\ fifo_tail a !! u = last (q u).

Lemma lookup_set_ptr u p m v :
  set_ptr u p m !! v = if decide (v = u) then p else (m !! v : ptr).
Proof.
  unfold set_ptr. destruct p, (decide (v = u)); subst;
    by rewrite ?lookup_insert_eq, ?lookup_delete_eq, ?lookup_insert_ne, ?lookup_delete_ne by done.
Qed.

Lemma pop_cons a free q u n l :
  queues a free q -> q u = n :: l ->
  exists a', fifo_pop u a = (Some n, a') /\ queues a' free (upd q u l) /\
    work_nodes a' = work_nodes a /\ stopping a' = stopping a /\ worker_count a' = worker_count a.
Proof.
  intros [Hf Hq] Hu. destruct (Hq u) as [Hh Ht]. rewrite Hu in Hh, Ht. destruct Hh as [Hh Hl].
  unfold fifo_pop. rewrite Hh. eexists. split; [done|]. split; [|done].
  split; [done|]. intros v. simpl. rewrite lookup_set_ptr. unfold upd.
  change (wk_next (node_at a n)) with (next_of (work_nodes a) n).
  case_decide as Hv; subst; (split; [by try apply Hq|]).
  - destruct l as [|m l]; simpl in Hl; [rewrite Hl|destruct Hl as [-> Hl]].
    + by rewrite lookup_delete_eq.
    + by rewrite Ht.
  - destruct (next_of (work_nodes a) n); [|rewrite lookup_delete_ne by done]; apply Hq.
Qed.

Lemma pop_nil a free q u : queues a free q -> q u = [] -> fifo_pop u a = (None, a).
Proof.
  intros [Hf Hq] Hu. destruct (Hq u) as [Hh Ht]. rewrite Hu in Hh. simpl in Hh.
  unfold fifo_pop. by rewrite Hh.
Qed.

Lemma free_queues a free q n :
  queues a free q -> n ∉ free -> (forall u, n ∉ q u) -> queues (node_free n a) (n :: free) q.
Proof.
  intros [Hf Hq] Hn Hnq. split; simpl.
  - split; [done|]. rewrite next_set_next, decide_True by done. eapply links_frame; [done|].
    intros m Hm. rewrite next_set_next. case_decide; [by subst|done].
  - intros u. destruct (Hq u) as [Hh Ht]. split; [|done]. eapply links_frame; [done|].
    intros m Hm. rewrite next_set_next. case_decide; [subst; by destruct (Hnq u)|done].
Qed.

Lemma submit_full a q unit offset sg_pa count write tag :
  queues a [] q -> co_cobd_async_submit unit offset sg_pa count write tag a = (false, a).
Proof.
  intros [Hf _]. unfold co_cobd_async_submit. destruct (no_unit unit); [done|].
  simpl in Hf. by rewrite Hf.
Qed.

(** Appending node [n] to one queue leaves the other lists alone. *)
Lemma push_queues a a' n free q unit :
  queues a (n :: free) q -> NoDup (n :: free) -> (forall u, NoDup (q u) /\ n ∉ q u) ->
  (forall u m, m ∈ q u -> m ∉ free) -> (forall u v m, m ∈ q u -> m ∈ q v -> u = v) ->
  free_list a' = next_of (work_nodes a) n ->
  (forall u, fifo_head a' !! u = (match q u with [] => if decide (u = unit) then Some n else None
                                            | _ => fifo_head a !! u end)) ->
  (forall u, fifo_tail a' !! u = if decide (u = unit) then Some n else fifo_tail a !! u) ->
  next_of (work_nodes a') n = None ->
  (forall m, m <> n -> last (q unit) <> Some m -> next_of (work_nodes a') m = next_of (work_nodes a) m) ->
  (forall m, last (q unit) = Some m -> next_of (work_nodes a') m = Some n) ->
  queues a' free (upd q unit (q unit ++ [n])).
Proof.
  intros [[Hf Hl] Hq] Hd Hnq Hfree Hdis Hfl Hhead Htail Hnone Hsame Hlast.
  apply NoDup_cons in Hd as [Hn Hd]. split.
  - rewrite Hfl. eapply links_frame; [done|]. intros m Hm. apply Hsame; [by intros ->|].
    intros Hm'. by apply (Hfree unit m); [apply last_Some_elem_of|].
  - intros u. destruct (Hq u) as [Hh Ht]. rewrite Hhead, Htail. unfold upd. case_decide as Hv.
    + subst u. rewrite last_snoc. split; [|done].
      eapply (links_snoc (work_nodes a)) in Hh; [|apply Hnq|apply Hnq|done|..|done].
      { by destruct (q unit). }
      intros m Hm. apply Hsame. intros ->. by destruct (Hnq unit).
    + split; [|done]. eapply (links_frame (work_nodes a)); [by destruct (q u)|].
      intros m Hm. apply Hsame; [intros ->; by destruct (Hnq u)|].
      intros Hm'. apply Hv. eapply Hdis; [done|]. by apply last_Some_elem_of.
Qed.

Lemma submit_queues a n free q unit offset sg_pa count write tag :
  queues a (n :: free) q -> no_unit unit = false ->
  NoDup (n :: free) -> (forall u, NoDup (q u) /\ n ∉ q u) ->
  (forall u m, m ∈ q u -> m ∉ free) -> (forall u v m, m ∈ q u -> m ∈ q v -> u = v) ->
  exists a', co_cobd_async_submit unit offset sg_pa count write tag a = (true, a') /\
    queues a' free (upd q unit (q unit ++ [n])) /\
    stopping a' = stopping a /\ worker_count a' = worker_count a /\
    (forall m, m <> n -> wk_unit (node_at a' m) = wk_unit (node_at a m) /\
                         wk_tag (node_at a' m) = wk_tag (node_at a m)) /\
    wk_unit (node_at a' n) = unit /\ wk_tag (node_at a' n) = tag.
Proof.
  intros Hqs Hu Hd Hnq Hfree Hdis. pose proof Hqs as [[Hf Hl] Hq].
  destruct (Hq unit) as [Hh Ht]. unfold co_cobd_async_submit. rewrite Hu, Hf, Ht.
  destruct (last (q unit)) as [t|] eqn:Hlast; (eexists; split; [done|]).
  - assert (t ∈ q unit) as Htq by by apply last_Some_elem_of.
    assert (t <> n) as Htn by (intros ->; by destruct (Hnq unit)).
    split; [|split_and!; try done].
    + eapply push_queues; try done; simpl.
      * intros u. destruct (Hq u) as [Hhu _]. destruct (q u) eqn:Hqu; [|done].
        rewrite Hhu. case_decide; [|done]. subst. by rewrite Hqu in Htq; apply not_elem_of_nil in Htq.
      * intros u. rewrite lookup_insert. by repeat case_decide; subst.
      * rewrite next_set_next, decide_False, next_insert, decide_True by done. done.
      * intros m Hm Hm'. rewrite next_set_next, decide_False, next_insert, decide_False by congruence.
        done.
      * intros m [= <-]%(eq_trans (eq_sym Hlast)). by rewrite next_set_next, decide_True.
    + intros m Hm. unfold node_at, set_next. simpl.
      rewrite (lookup_insert_ne _ n t) by done. rewrite lookup_insert. case_decide; subst; [done|].
      by rewrite lookup_insert_ne.
    + unfold node_at. simpl. unfold set_next. by rewrite lookup_insert_ne, lookup_insert_eq by done.
    + unfold node_at. simpl. unfold set_next. by rewrite lookup_insert_ne, lookup_insert_eq by done.
  - apply last_None in Hlast. split; [|split_and!; try done].
    + eapply push_queues; try done; simpl.
      * intros u. destruct (Hq u) as [Hhu _]. rewrite lookup_insert.
        destruct (q u) eqn:Hqu; repeat case_decide; subst; try congruence; done.
      * intros u. rewrite lookup_insert. by repeat case_decide; subst.
      * by rewrite next_insert, decide_True.
      * intros m Hm _. by rewrite next_insert, decide_False.
      * by rewrite Hlast.
    + intros m Hm. unfold node_at. simpl. by rewrite lookup_insert_ne.
    + unfold node_at. simpl. by rewrite lookup_insert_eq.
    + unfold node_at. simpl. by rewrite lookup_insert_eq.
Qed.

(** ** Where the nodes are *)

Lemma bind_nodup (f : Z -> list Z) l u :
  NoDup (l ≫= f) -> u ∈ l -> NoDup (f u).
Proof.
  induction l as [|x l IH]; intros Hd Hu; [by apply not_elem_of_nil in Hu|].
  simpl in Hd. apply NoDup_app in Hd as (Hx & _ & Hl). apply elem_of_cons in Hu as [->|Hu]; auto.
Qed.

Lemma bind_disjoint (f : Z -> list Z) l u v m :
  NoDup (l ≫= f) -> u ∈ l -> v ∈ l -> m ∈ f u -> m ∈ f v -> u = v.
Proof.
  induction l as [|x l IH]; intros Hd Hu Hv Hm Hm'; [by apply not_elem_of_nil in Hu|].
  simpl in Hd. apply NoDup_app in Hd as (Hx & Hxl & Hl).
  assert (forall w, w ∈ l -> m ∈ f w -> m ∈ l ≫= f) as Hin by (intros w ??; apply list_elem_of_bind; eauto).
  apply elem_of_cons in Hu as [->|Hu], Hv as [->|Hv]; [done|..|by apply IH].
  - destruct (Hxl m Hm). by eapply Hin.
  - destruct (Hxl m Hm'). by eapply Hin.
Qed.

Lemma bind_same (f f' : Z -> list Z) l :
  (forall u, f' u ≡ₚ f u) -> (l ≫= f') ≡ₚ (l ≫= f).
Proof. intros Hf. induction l as [|x l IH]; simpl; [done|]. by rewrite Hf, IH. Qed.

Lemma bind_more (f f' : Z -> list Z) l u n :
  NoDup l -> u ∈ l -> (forall v, v <> u -> f' v ≡ₚ f v) -> f' u ≡ₚ n :: f u ->
  (l ≫= f') ≡ₚ n :: (l ≫= f).
Proof.
  intros Hd Hu Hne He. induction l as [|x l IH]; [by apply not_elem_of_nil in Hu|].
  apply NoDup_cons in Hd as [Hx Hd]. simpl. apply elem_of_cons in Hu as [<-|Hu].
  - rewrite He. simpl. f_equiv. f_equiv. clear -Hne Hx.
    induction l as [|y l IH]; simpl; [done|]. apply not_elem_of_cons in Hx as [Hy Hx].
    by rewrite IH, Hne by congruence.
  - rewrite IH by done. rewrite Hne by by intros ->. apply Permutation_sym, Permutation_middle.
Qed.

(** The node a worker holds. *)
Definition held (pc : gmap Z worker_pc) (u : Z) : list Z :=
  match pc !! u with
  | Some (Holding n | Transferred n _ | Reported n) => [n]
  | _ => []
  end.

Definition node_list (free : list Z) (q : Z -> list Z) (pc : gmap Z worker_pc) : list Z :=
  free ++ (u ← seqZ 0 CO_COBD_WORKERS; q u ++ held pc u).

Definition tag_of (a : async) (n : Z) : Z := wk_tag (node_at a n).

(** The tags a worker has taken out and not yet reported. *)
Definition in_flight (a : async) (pc : gmap Z worker_pc) (u : Z) : list Z :=
  match pc !! u with
  | Some (Holding n | Transferred n _) => [tag_of a n]
  | _ => []
  end.

Lemma no_unit_false u : no_unit u = false <-> u ∈ seqZ 0 CO_COBD_WORKERS.
Proof.
  rewrite elem_of_seqZ. unfold no_unit. change CO_COBD_WORKERS with CO_COBD_MAX_UNITS.
  rewrite orb_false_iff, Z.ltb_ge, Z.leb_gt. lia.
Qed.

(** No wakeup is lost: a worker that has found its queue empty and has since
    been given work, or is asleep when it should leave, has its event signalled
    or about to be. *)
Definition awaited (q : Z -> list Z) (stop : bool) (p : worker_pc) (u : Z) : Prop :=
  match p with
  | Empty => q u <> []
  | Sleeping => q u <> [] \/ stop = true
  | _ => False
  end.
Definition wakes_ok (q : Z -> list Z) (stop : bool) (pc : gmap Z worker_pc) (ev : gset Z)
    (wk : list Z) : Prop :=
  forall u p, pc !! u = Some p -> awaited q stop p u -> u ∈ ev \/ u ∈ wk.

Lemma wakes_insert q q' stop pc ev ev' wk u p' :
  wakes_ok q stop pc ev wk -> (awaited q' stop p' u -> u ∈ ev' \/ u ∈ wk) ->
  (forall v, v <> u -> q' v = q v) -> (forall v, v <> u -> v ∈ ev -> v ∈ ev') ->
  wakes_ok q' stop (<[u := p']> pc) ev' wk.
Proof.
  intros Hw Hp' Hq Hev v p Hv Ha. destruct (decide (v = u)) as [->|Hvu].
  - rewrite lookup_insert_eq in Hv. injection Hv as ->. auto.
  - rewrite lookup_insert_ne in Hv by done.
    assert (awaited q stop p v) as Ha' by (revert Ha; unfold awaited; by rewrite (Hq v Hvu)).
    destruct (Hw v p Hv Ha'); auto.
Qed.

Lemma held_insert_ne pc u p' v : v <> u -> held (<[u := p']> pc) v = held pc v.
Proof. intros Hv. unfold held. by rewrite lookup_insert_ne. Qed.
Lemma in_flight_insert_ne a pc u p' v : v <> u -> in_flight a (<[u := p']> pc) v = in_flight a pc v.
Proof. intros Hv. unfold in_flight. by rewrite lookup_insert_ne. Qed.

(** Replacing the state of a running worker. *)
Lemma running_insert {A} (pc : gmap Z A) u p p' v :
  pc !! u = Some p -> is_Some (<[u := p']> pc !! v) <-> is_Some (pc !! v).
Proof.
  intros Hp. rewrite lookup_insert_is_Some. split; [intros [<-|[_ ?]]; eauto|].
  intros Hv. destruct (decide (u = v)); auto.
Qed.

Section invariant.
Context {W N : Type} `{GuestPages W} `{GuestMem W} `{NtFiles N}.
Implicit Types s : sys W N.

Record async_inv (free : list Z) (q : Z -> list Z) (s : sys W N) : Prop := {
  inv_queues : queues (s_async s) free q;
  inv_nodes : node_list free q (s_pc s) ≡ₚ seqZ 0 CO_COBD_WORK_NODES;
  inv_none (u : Z) : no_unit u = true -> q u = [];
  inv_unit (u n : Z) : n ∈ q u ++ held (s_pc s) u -> wk_unit (node_at (s_async s) n) = u;
  inv_fifo (u : Z) :
    s_acc s u = s_comp s u ++ in_flight (s_async s) (s_pc s) u ++ (tag_of (s_async s) <$> q u);
  inv_wake : wakes_ok q (stopping (s_async s)) (s_pc s) (s_event s) (s_wakes s);
  inv_running (u : Z) : is_Some (s_pc s !! u) <-> 0 <= u < worker_count (s_async s);
  inv_count : worker_count (s_async s) <= CO_COBD_WORKERS;
}.

Lemma inv_real_unit free q s u p : async_inv free q s -> s_pc s !! u = Some p -> no_unit u = false.
Proof using.
  intros Hi Hp. assert (0 <= u < worker_count (s_async s)) as Hu by by apply (inv_running _ _ _ Hi); eauto.
  pose proof (inv_count _ _ _ Hi). apply no_unit_false, elem_of_seqZ. lia.
Qed.

Lemma inv_unit_real free q s u n : async_inv free q s -> n ∈ q u ++ held (s_pc s) u -> no_unit u = false.
Proof using.
  intros Hi Hn. destruct (s_pc s !! u) as [p|] eqn:Hp; [by eapply inv_real_unit|].
  destruct (no_unit u) eqn:Hu; [|done]. unfold held in Hn. rewrite Hp, (inv_none _ _ _ Hi u Hu) in Hn.
  by apply not_elem_of_nil in Hn.
Qed.

Lemma inv_nodup free q s : async_inv free q s -> NoDup (node_list free q (s_pc s)).
Proof using. intros Hi. rewrite (inv_nodes _ _ _ Hi). apply NoDup_seqZ. Qed.

Lemma inv_not_free free q s u m : async_inv free q s -> m ∈ q u ++ held (s_pc s) u -> m ∉ free.
Proof using.
  intros Hi Hm Hf. pose proof (inv_nodup _ _ _ Hi) as Hd. unfold node_list in Hd.
  apply NoDup_app in Hd as (_ & Hd & _). apply (Hd m Hf).
  apply list_elem_of_bind. exists u. split; [done|]. apply no_unit_false. by eapply inv_unit_real.
Qed.

Lemma inv_unit_nodup free q s u : async_inv free q s -> NoDup (q u ++ held (s_pc s) u).
Proof using.
  intros Hi. destruct (q u ++ held (s_pc s) u) as [|m l] eqn:Hl; [constructor|]. rewrite <- Hl.
  assert (no_unit u = false) as Hu by (eapply (inv_unit_real _ _ _ _ m Hi); rewrite Hl; left).
  pose proof (inv_nodup _ _ _ Hi) as Hd. unfold node_list in Hd. apply NoDup_app in Hd as (_ & _ & Hd).
  eapply (bind_nodup (fun u => q u ++ held (s_pc s) u)); [done|by apply no_unit_false].
Qed.

(** A node is in one place only: the unit it was submitted for says where. *)
Lemma inv_one_unit free q s u v m :
  async_inv free q s -> m ∈ q u ++ held (s_pc s) u -> m ∈ q v ++ held (s_pc s) v -> u = v.
Proof using. intros Hi Hu Hv. rewrite <- (inv_unit _ _ _ Hi u m Hu). by apply (inv_unit _ _ _ Hi). Qed.

(** *** Each step *)

(** The invariant after a step of worker [u] that moves no node: [p'] holds and
    owes what its old state did. *)
Lemma inv_pc free q ws ws' a a' pc ev ev' wk acc comp u p p' :
  async_inv free q (Sys ws a pc ev wk acc comp) ->
  pc !! u = Some p ->
  held (<[u := p']> pc) u = held pc u -> in_flight a (<[u := p']> pc) u = in_flight a pc u ->
  queues a' free q -> work_nodes a' = work_nodes a -> stopping a' = stopping a ->
  worker_count a' = worker_count a ->
  (forall v, v <> u -> v ∈ ev -> v ∈ ev') ->
  (awaited q (stopping a) p' u -> u ∈ ev' \/ u ∈ wk) ->
  async_inv free q (Sys ws' a' (<[u := p']> pc) ev' wk acc comp).
Proof using.
  intros [Iq In Inone Iu If Iw Ir Ic] Hp Hheld Hfly Hqs Hn Hst Hwc Hev Hawait; simpl in *.
  assert (forall v, held (<[u := p']> pc) v = held pc v) as Hheld'.
  { intros v. destruct (decide (v = u)) as [->|]; [done|by apply held_insert_ne]. }
  assert (forall v, in_flight a' (<[u := p']> pc) v = in_flight a pc v) as Hfly'.
  { intros v. unfold in_flight, tag_of, node_at. rewrite Hn.
    destruct (decide (v = u)) as [->|]; [done|by apply in_flight_insert_ne]. }
  split; simpl; [done|..].
  - rewrite <- In. unfold node_list. f_equiv. apply bind_same. intros v. by rewrite Hheld'.
  - done.
  - intros v n. rewrite Hheld'. unfold node_at. rewrite Hn. apply Iu.
  - intros v. rewrite Hfly'. unfold tag_of, node_at. rewrite Hn. apply If.
  - rewrite Hst. by eapply wakes_insert.
  - intros v. by rewrite Hwc, <- Ir, running_insert.
  - by rewrite Hwc.
Qed.

Lemma inv_pop free q ws a a' pc ev wk acc comp u n l :
  async_inv free q (Sys ws a pc ev wk acc comp) -> pc !! u = Some Idle -> q u = n :: l ->
  queues a' free (upd q u l) -> work_nodes a' = work_nodes a -> stopping a' = stopping a ->
  worker_count a' = worker_count a ->
  async_inv free (upd q u l) (Sys ws a' (<[u := Holding n]> pc) ev wk acc comp).
Proof using.
  intros Hi Hp Hq Hqs Hn Hst Hwc. pose proof (inv_real_unit _ _ _ u Idle Hi Hp) as Hru.
  destruct Hi as [Iq In Inone Iu If Iw Ir Ic]; simpl in *.
  assert (held pc u = []) as Hh by (unfold held; by rewrite Hp).
  assert (forall v, upd q u l v ++ held (<[u := Holding n]> pc) v ≡ₚ q v ++ held pc v) as Hplace.
  { intros v. destruct (decide (v = u)) as [->|Hv].
    - rewrite upd_eq, Hq, Hh. unfold held. rewrite lookup_insert_eq, app_nil_r.
      symmetry. apply Permutation_cons_append.
    - by rewrite upd_ne, held_insert_ne by done. }
  split; simpl; [done|..].
  - rewrite <- In. unfold node_list. f_equiv. by apply bind_same.
  - intros v Hv. rewrite upd_ne by congruence. auto.
  - intros v m Hm. rewrite Hplace in Hm. unfold node_at. rewrite Hn. by apply Iu.
  - intros v. rewrite If. unfold in_flight, tag_of, node_at. rewrite Hn. f_equal.
    destruct (decide (v = u)) as [->|Hv].
    + by rewrite upd_eq, lookup_insert_eq, Hp, Hq.
    + by rewrite upd_ne, lookup_insert_ne by done.
  - rewrite Hst. eapply wakes_insert; [done|done|intros v Hv; by rewrite upd_ne|done].
  - intros v. by rewrite Hwc, <- Ir, running_insert.
  - by rewrite Hwc.
Qed.

Lemma inv_report free q ws ws' a pc ev wk acc comp u n result :
  async_inv free q (Sys ws a pc ev wk acc comp) -> pc !! u = Some (Transferred n result) ->
  async_inv free q (Sys ws' a (<[u := Reported n]> pc) ev wk acc
                      (append_at comp (wk_unit (node_at a n)) (wk_tag (node_at a n)))).
Proof using.
  intros Hi Hp.
  assert (wk_unit (node_at a n) = u) as Hu.
  { apply (inv_unit _ _ _ Hi). simpl. apply elem_of_app. right. unfold held. rewrite Hp. left. }
  rewrite Hu. destruct Hi as [Iq In Inone Iu If Iw Ir Ic]; simpl in *.
  assert (forall v, held (<[u := Reported n]> pc) v = held pc v) as Hheld.
  { intros v. destruct (decide (v = u)) as [->|]; [|by apply held_insert_ne].
    unfold held. by rewrite lookup_insert_eq, Hp. }
  split; simpl; [done|..].
  - rewrite <- In. unfold node_list. f_equiv. apply bind_same. intros v. by rewrite Hheld.
  - done.
  - intros v m. rewrite Hheld. apply Iu.
  - intros v. rewrite If. unfold append_at. destruct (decide (v = u)) as [->|Hv].
    + unfold in_flight. by rewrite upd_eq, lookup_insert_eq, Hp, <- app_assoc.
    + by rewrite upd_ne, in_flight_insert_ne by done.
  - by eapply wakes_insert.
  - intros v. by rewrite <- Ir, running_insert.
  - done.
Qed.

Lemma inv_free free q ws a pc ev wk acc comp u n :
  async_inv free q (Sys ws a pc ev wk acc comp) -> pc !! u = Some (Reported n) ->
  async_inv (n :: free) q (Sys ws (node_free n a) (<[u := Idle]> pc) ev wk acc comp).
Proof using.
  intros Hi Hp.
  assert (n ∈ q u ++ held pc u) as Hn.
  { apply elem_of_app. right. unfold held. rewrite Hp. left. }
  assert (n ∉ free) as Hnf by by apply (inv_not_free _ _ _ u _ Hi).
  assert (forall v, n ∉ q v) as Hnq.
  { intros v Hv. assert (v = u) as ->.
    { apply (inv_one_unit _ _ _ _ _ n Hi); [apply elem_of_app; by left|done]. }
    pose proof (inv_unit_nodup _ _ _ u Hi) as Hd. simpl in Hd. unfold held in Hd. rewrite Hp in Hd.
    apply NoDup_app in Hd as (_ & Hd & _). apply (Hd n Hv). left. }
  pose proof (inv_real_unit _ _ _ u _ Hi Hp) as Hu.
  destruct Hi as [Iq In Inone Iu If Iw Ir Ic]; simpl in *.
  assert (forall m, wk_unit (node_at (node_free n a) m) = wk_unit (node_at a m) /\
                    wk_tag (node_at (node_free n a) m) = wk_tag (node_at a m)) as Hat.
  { intros m. unfold node_at, node_free, set_next. simpl. rewrite lookup_insert.
    by case_decide; subst. }
  assert (held (<[u := Idle]> pc) u = []) as Hh by (unfold held; by rewrite lookup_insert_eq).
  split; simpl; [by apply free_queues|..].
  - rewrite <- In. unfold node_list. rewrite <- app_comm_cons, Permutation_middle. f_equiv. symmetry.
    refine (bind_more _ (fun u => q u ++ held pc u) _ u n _ _ _ _).
    + apply NoDup_seqZ.
    + by apply no_unit_false.
    + intros v Hv. by rewrite held_insert_ne.
    + rewrite Hh, app_nil_r. unfold held. rewrite Hp. symmetry. apply Permutation_cons_append.
  - done.
  - intros v m Hm. rewrite (proj1 (Hat m)). apply Iu. revert Hm. rewrite !elem_of_app.
    intros [Hm|Hm]; [by left|right]. destruct (decide (v = u)) as [->|Hv].
    + rewrite Hh in Hm. by apply not_elem_of_nil in Hm.
    + by rewrite held_insert_ne in Hm.
  - intros v. rewrite If. f_equal. f_equal.
    + unfold in_flight, tag_of. destruct (decide (v = u)) as [->|Hv].
      * by rewrite lookup_insert_eq, Hp.
      * rewrite lookup_insert_ne by done. destruct (pc !! v) as [[]|]; rewrite ?(proj2 (Hat _)); done.
    + apply list_fmap_ext. intros i m _. unfold tag_of. by rewrite (proj2 (Hat m)).
  - by eapply wakes_insert.
  - intros v. by rewrite <- Ir, running_insert.
  - done.
Qed.

Lemma inv_submit free q ws a a' pc ev wk acc comp n unit tag :
  async_inv (n :: free) q (Sys ws a pc ev wk acc comp) -> no_unit unit = false ->
  queues a' free (upd q unit (q unit ++ [n])) ->
  stopping a' = stopping a -> worker_count a' = worker_count a ->
  (forall m, m <> n -> wk_unit (node_at a' m) = wk_unit (node_at a m) /\
                       wk_tag (node_at a' m) = wk_tag (node_at a m)) ->
  wk_unit (node_at a' n) = unit -> wk_tag (node_at a' n) = tag ->
  async_inv free (upd q unit (q unit ++ [n]))
    (Sys ws a' pc ev (wk ++ [unit]) (append_at acc unit tag) comp).
Proof using.
  intros Hi Hu Hqs Hst Hwc Hat Hnu Hnt.
  assert (forall v m, m ∈ q v ++ held pc v -> m <> n) as Hnot.
  { intros v m Hm ->. apply (inv_not_free _ _ _ v n Hi Hm). left. }
  destruct Hi as [Iq In Inone Iu If Iw Ir Ic]; simpl in *.
  assert (forall v, upd q unit (q unit ++ [n]) v = q v ++ (if decide (v = unit) then [n] else [])) as Hupd.
  { intros v. unfold upd. case_decide; subst; [done|by rewrite app_nil_r]. }
  assert (forall v m, m ∈ q v ++ held pc v -> tag_of a' m = tag_of a m) as Htag.
  { intros v m Hm. unfold tag_of. by rewrite (proj2 (Hat m (Hnot v m Hm))). }
  split; simpl; [done|..].
  - rewrite <- In. unfold node_list. rewrite <- app_comm_cons, Permutation_middle. f_equiv.
    refine (bind_more (fun u => q u ++ held pc u) _ _ unit n _ _ _ _).
    + apply NoDup_seqZ.
    + by apply no_unit_false.
    + intros v Hv. by rewrite upd_ne.
    + rewrite upd_eq, <- app_assoc. simpl. symmetry. apply Permutation_middle.
  - intros v Hv. rewrite upd_ne by congruence. auto.
  - intros v m. rewrite Hupd, !elem_of_app. intros [[Hm|Hm]|Hm].
    + rewrite (proj1 (Hat m (Hnot v m (proj2 (elem_of_app _ _ _) (or_introl Hm))))).
      apply Iu, elem_of_app. by left.
    + case_decide; [|by apply not_elem_of_nil in Hm].
      apply list_elem_of_singleton in Hm. by subst.
    + rewrite (proj1 (Hat m (Hnot v m (proj2 (elem_of_app _ _ _) (or_intror Hm))))).
      apply Iu, elem_of_app. by right.
  - intros v. assert (in_flight a' pc v = in_flight a pc v) as ->.
    { unfold in_flight. destruct (pc !! v) as [[]|] eqn:Hv; [done|done|done| | |done|done|done];
        (rewrite (Htag v); [done|]; apply elem_of_app; right; unfold held; rewrite Hv; left). }
    rewrite Hupd, fmap_app.
    assert (tag_of a' <$> q v = tag_of a <$> q v) as ->.
    { apply list_fmap_ext. intros i m Hm%list_elem_of_lookup_2. apply (Htag v), elem_of_app. by left. }
    unfold append_at, upd. case_decide as Hv.
    + subst v. rewrite If, <- !app_assoc. simpl. unfold tag_of at 3. by rewrite Hnt.
    + by rewrite If, app_nil_r.
  - rewrite Hst. intros v p Hp Ha. destruct (decide (v = unit)) as [->|Hv].
    + right. apply elem_of_app. right. left.
    + destruct (Iw v p Hp) as [?|?]; [|by left|right; apply elem_of_app; by left].
      revert Ha. unfold awaited. by rewrite upd_ne.
  - intros v. by rewrite Hwc.
  - by rewrite Hwc.
Qed.
End invariant.
