(* ===== verification/CobdAsyncRun.v ===== *)
(** What holds of every run of the asynchronous block device, whatever the
    order in which the submissions, the workers and the stop request take
    their steps. *)
From stdpp Require Import relations.
From S2P Require Import Prelude.
From S2P Require Import Rc.
From S2P Require Import Mem.
From S2P Require Import GuestMem.
From S2P Require Import Ring.
From S2P Require Import Space.
From S2P Require Import Bdev.
From S2P Require Import Cobd.
From S2P Require Import CobdAsync.
From S2P Require Import CobdAsyncOk.

#[local] Open Scope Z_scope.

(** ** The start *)

Lemma build_free_links n i nodes free l :
  links nodes free l -> (forall m, m ∈ l -> m < i) ->
  let '(nodes', free') := build_free n i nodes free in
  links nodes' free' (reverse (seqZ i (Z.of_nat n)) ++ l).
Proof.
  revert i nodes free l. induction n as [|n IH]; intros i nodes free l Hl Hm; [done|].
  cbn [build_free]. rewrite seqZ_cons, reverse_cons, <- app_assoc by lia.
  replace (Z.pred (Z.of_nat (S n))) with (Z.of_nat n) by lia. apply IH.
  - split; [done|]. rewrite next_set_next, decide_True by done.
    eapply links_frame; [done|]. intros m Hin. rewrite next_set_next, decide_False; [done|].
    specialize (Hm m Hin). lia.
  - intros m [->|Hin]%elem_of_cons; [lia|]. specialize (Hm m Hin). lia.
Qed.

Lemma start_pc (n u : Z) (p : worker_pc) :
  (list_to_map ((fun u => (u, Idle)) <$> seqZ 0 n) : gmap Z worker_pc) !! u = Some p <->
  p = Idle /\ 0 <= u < n.
Proof.
  assert (((fun u : Z => (u, Idle)) <$> seqZ 0 n).*1 = seqZ 0 n) as Hfst.
  { rewrite <- list_fmap_compose. apply list_fmap_id. }
  rewrite <- elem_of_list_to_map by (rewrite Hfst; apply NoDup_seqZ).
  rewrite list_elem_of_fmap. setoid_rewrite elem_of_seqZ. split.
  - intros (v & [= -> ->] & Hv). split; [done|lia].
  - intros [-> Hu]. exists u. split; [done|lia].
Qed.

Section run.
Context {W N : Type} `{GuestPages W} `{GuestMem W} `{NtFiles N}.
Implicit Types s : sys W N.

Lemma inv_started s : started s -> exists free, async_inv free (fun _ => []) s.
Proof using.
  intros (ws & va & a & n & ev & Hn & ->). exists (reverse (seqZ 0 CO_COBD_WORK_NODES)).
  pose proof (build_free_links (Z.to_nat CO_COBD_WORK_NODES) 0 (work_nodes a) None []) as Hb.
  unfold fresh_async. destruct (build_free _ _ _ _) as [nodes' free'] eqn:He.
  rewrite Z2Nat.id, app_nil_r in Hb by done.
  split; simpl.
  - split; [apply Hb; [done|]; by intros m Hm%not_elem_of_nil|]. done.
  - unfold node_list. rewrite reverse_Permutation.
    replace (_ ≫= _) with (@nil Z); [by rewrite app_nil_r|]. symmetry.
    induction (seqZ 0 CO_COBD_WORKERS) as [|x l IH]; [done|]. rewrite bind_cons, IH, app_nil_r.
    unfold held. destruct (_ !! x) as [p|] eqn:Hp; [|done]. by apply start_pc in Hp as [-> _].
  - done.
  - intros u m Hm. unfold held in Hm. destruct (_ !! u) as [p|] eqn:Hp; [|by apply not_elem_of_nil in Hm].
    apply start_pc in Hp as [-> _]. by apply not_elem_of_nil in Hm.
  - intros u. unfold in_flight. destruct (_ !! u) as [p|] eqn:Hp; [|done].
    by apply start_pc in Hp as [-> _].
  - intros u p [-> _]%start_pc Ha. done.
  - intros u. split.
    + intros [p [_ Hu]%start_pc]. done.
    + intros Hu. exists Idle. by apply start_pc.
  - lia.
Qed.

(** ** Rule induction *)

Lemma inv_worker free q u s s' :
  async_inv free q s -> worker_step u s s' -> exists free' q', async_inv free' q' s'.
Proof using.
  intros Hi Hs.
  destruct Hs as [ws a pc ev wk acc comp n a' Hp Hpop|ws a pc ev wk acc comp a' Hp Hpop
    |ws a pc ev wk acc comp Hp Hst|ws a pc ev wk acc comp Hp Hst|ws a pc ev wk acc comp Hp Hev
    |ws a pc ev wk acc comp n r ws' Hp Htr|w c a pc ev wk acc comp n result r w' Hp Hc
    |ws a pc ev wk acc comp n Hp].
  - pose proof (inv_queues _ _ _ Hi) as Hqs. simpl in Hqs. destruct (q u) as [|m l] eqn:Hq.
    { rewrite (pop_nil _ _ _ _ Hqs Hq) in Hpop. by simplify_eq. }
    destruct (pop_cons _ _ _ _ _ _ Hqs Hq) as (a1 & Hpop1 & Hqs1 & Hn1 & Hs1 & Hw1).
    simpl in *. rewrite Hpop in Hpop1. simplify_eq. eauto using inv_pop.
  - pose proof (inv_queues _ _ _ Hi) as Hqs. simpl in Hqs. destruct (q u) as [|m l] eqn:Hq.
    2:{ destruct (pop_cons _ _ _ _ _ _ Hqs Hq) as (a1 & Hpop1 & _). simpl in *. congruence. }
    rewrite (pop_nil _ _ _ _ Hqs Hq) in Hpop. simplify_eq. exists free, q.
    eapply inv_pc; try done; unfold held, in_flight; by rewrite ?lookup_insert_eq, ?Hp.
  - exists free, q. pose proof (inv_queues _ _ _ Hi).
    eapply inv_pc; try done; unfold held, in_flight; by rewrite ?lookup_insert_eq, ?Hp.
  - exists free, q. pose proof (inv_queues _ _ _ Hi).
    eapply inv_pc; try done; try (unfold held, in_flight; by rewrite ?lookup_insert_eq, ?Hp).
    simpl. intros [Hq|Hq]; [|congruence]. by apply (inv_wake _ _ _ Hi u Empty).
  - exists free, q. pose proof (inv_queues _ _ _ Hi).
    eapply inv_pc; try done; try (unfold held, in_flight; by rewrite ?lookup_insert_eq, ?Hp).
    set_solver.
  - exists free, q. pose proof (inv_queues _ _ _ Hi).
    eapply inv_pc; try done; try (unfold held, in_flight; by rewrite ?lookup_insert_eq, ?Hp);
      by case_match.
  - exists free, q. by eapply inv_report.
  - exists (n :: free), q. by apply inv_free.
Qed.

Lemma inv_step free q s s' :
  async_inv free q s -> astep s s' -> exists free' q', async_inv free' q' s'.
Proof using.
  intros Hi Hs.
  destruct Hs as [ws a pc ev wk acc comp unit offset sg_pa count write tag ok a' Hsub|u s s' Hw|u s s' Hw
    |ws ws' a pc ev wk acc comp|ws a pc ev wk acc comp|u ws a pc ev wk acc comp Hp].
  - pose proof (inv_queues _ _ _ Hi) as Hqs. simpl in Hqs. destruct (no_unit unit) eqn:Hu.
    { unfold co_cobd_async_submit in Hsub. rewrite Hu in Hsub. simplify_eq. eauto. }
    destruct free as [|n free].
    { simpl in Hqs. rewrite (submit_full _ _ _ _ _ _ _ _ Hqs) in Hsub. simplify_eq. eauto. }
    destruct (submit_queues a n free q unit offset sg_pa count write tag) as (a1 & Hs1 & Hq1 & Hst & Hwc & Hat & Hnu & Hnt);
      [done|done|..].
    + pose proof (inv_nodup _ _ _ Hi) as Hd. by apply NoDup_app in Hd as (Hd & _).
    + intros v. pose proof (inv_unit_nodup _ _ _ v Hi) as Hd. apply NoDup_app in Hd as (Hd & _).
      split; [done|]. intros Hv. apply (inv_not_free _ _ _ v n Hi); [apply elem_of_app; by left|left].
    + intros v m Hv Hm. apply (inv_not_free _ _ _ v m Hi); [apply elem_of_app; by left|by right].
    + intros v v' m Hv Hv'. apply (inv_one_unit _ _ _ v v' m Hi); apply elem_of_app; by left.
    + rewrite Hsub in Hs1. injection Hs1 as -> ->. eauto using inv_submit.
  - by eapply inv_worker.
  - destruct Hw as [ws a pc ev wk wk' acc comp Hwk]. exists free, q.
    destruct Hi as [Iq In Inone Iu If Iw Ir Ic]; split; simpl in *; try done.
    intros v p Hv Ha. destruct (Iw v p Hv Ha) as [?|Hin]; [left; set_solver|].
    rewrite Hwk in Hin. apply elem_of_cons in Hin as [->|?]; [left; set_solver|by right].
  - exists free, q. by destruct Hi as [Iq In Inone Iu If Iw Ir Ic]; split.
  - exists free, q. destruct Hi as [Iq In Inone Iu If Iw Ir Ic]; split; simpl in *; try done.
    intros v p Hv _. right. apply elem_of_app. right. apply elem_of_seqZ.
    assert (0 <= v < worker_count a) by (apply Ir; eauto). lia.
  - exists free, q. pose proof (inv_queues _ _ _ Hi).
    eapply inv_pc; try done; by (unfold held, in_flight; by rewrite ?lookup_insert_eq, ?Hp).
Qed.

Lemma inv_reachable s0 s :
  started s0 -> rtc astep s0 s -> exists free q, async_inv free q s.
Proof using.
  intros Hs Hr. apply inv_started in Hs as [free Hi]. revert Hi. generalize (fun _ : Z => @nil Z).
  revert free. induction Hr as [|s1 s2 s3 Hst Hr IH]; intros free q Hi; [eauto|].
  destruct (inv_step _ _ _ _ Hi Hst) as (free' & q' & Hi'). by eapply IH.
Qed.

(** C12: from a start on, whatever the order of the steps, the pool, the queues
    and the workers share the 128 nodes without losing or doubling one, each
    queue's pointers (head, tail and [next]) denote one list, and the tags
    accepted for a unit are, in order, those reported to the guest, then the
    one its worker has in hand, then those still queued: every accepted request
    is reported at most once, in the order of submission, and none is lost. *)
Theorem async_requests_conserved s0 s :
  started s0 -> rtc astep s0 s ->
  exists free q,
    queues (s_async s) free q /\
    node_list free q (s_pc s) ≡ₚ seqZ 0 CO_COBD_WORK_NODES /\
    (forall u n, n ∈ q u ++ held (s_pc s) u -> wk_unit (node_at (s_async s) n) = u) /\
    forall u, s_acc s u =
      s_comp s u ++ in_flight (s_async s) (s_pc s) u ++ (tag_of (s_async s) <$> q u).
Proof using.
  intros Hs Hr. destruct (inv_reachable _ _ Hs Hr) as (free & q & Hi). exists free, q.
  destruct Hi. by split_and!.
Qed.

(** ** Progress *)

(** A step of the worker of unit [u], or a wakeup of it that is due. *)
Inductive unit_step (u : Z) s s' : Prop :=
  | unit_worker : worker_step u s s' -> unit_step u s s'
  | unit_wake : wakeup_step u s s' -> unit_step u s s'.

(** What the worker of unit [u] has to do: it must leave, or has a request it
    has not reported. *)
Definition has_work (u : Z) s : Prop :=
  stopping (s_async s) = true \/ s_comp s u <> s_acc s u.
Definition runs (u : Z) s : Prop :=
  exists p, s_pc s !! u = Some p /\ p <> Exited.

Definition pc_rank (stop : bool) (p : option worker_pc) : nat :=
  match p with
  | Some Empty => if stop then 1 else 5
  | Some Sleeping => 4
  | Some Idle => 3
  | Some (Holding _) => 2
  | Some (Transferred _ _) => 1
  | Some (Reported _) => 4
  | Some Exited | None => 0
  end.
Definition work_left (u : Z) s : nat :=
  4 * (length (s_acc s u) - length (s_comp s u)) + pc_rank (stopping (s_async s)) (s_pc s !! u) +
  length (s_wakes s).

Lemma queue_nonempty free q s u p :
  async_inv free q s -> s_pc s !! u = Some p -> held (s_pc s) u = [] ->
  s_comp s u <> s_acc s u -> q u <> [].
Proof using.
  intros Hi Hp Hh Hne Hq. apply Hne. rewrite (inv_fifo _ _ _ Hi u), Hq, app_nil_r.
  unfold held in Hh. unfold in_flight. destruct (s_pc s !! u) as [[]|]; try done; by rewrite app_nil_r.
Qed.

(** A worker with work is never stuck. *)
Lemma unit_progress free q s u :
  async_inv free q s -> runs u s -> has_work u s -> exists s', unit_step u s s'.
Proof using.
  intros Hi (p & Hp & Hne) Hw. destruct s as [[w c] a pc ev wk acc comp]. simpl in *.
  destruct p as [| | |n|n result|n|]; [..|done].
  - destruct (fifo_pop u a) as [[n|] a'] eqn:Hpop; eexists; apply unit_worker.
    + by eapply step_pop.
    + by eapply step_empty.
  - destruct (stopping a) eqn:Hst; eexists; apply unit_worker; [by eapply step_exit|by eapply step_sleep].
  - assert (awaited q (stopping a) Sleeping u) as Ha.
    { destruct Hw as [Hw|Hw]; [by right|left]. eapply (queue_nonempty _ _ _ _ _ Hi); [done| |done].
      simpl. unfold held. by rewrite Hp. }
    destruct (inv_wake _ _ _ Hi u Sleeping Hp Ha) as [Hev|Hwk]; simpl in *.
    + eexists. apply unit_worker. by eapply step_woken.
    + apply elem_of_Permutation in Hwk as [wk' Hwk]. eexists. apply unit_wake. by eapply step_wakeup.
  - destruct (transfer (node_at a n) (w, c)) as [r ws'] eqn:Htr.
    eexists. apply unit_worker. by eapply step_transfer.
  - destruct (co_cobd_complete (cobd_io_va a) (wk_unit (node_at a n)) (wk_tag (node_at a n)) result w)
      as [r w'] eqn:Hc.
    eexists. apply unit_worker. by eapply step_report.
  - eexists. apply unit_worker. by eapply step_free.
Qed.

(** Each of its steps leaves less to do, and nobody is accepted meanwhile. *)
Lemma unit_decreases free q s s' u :
  async_inv free q s -> has_work u s -> unit_step u s s' ->
  (work_left u s' < work_left u s)%nat /\ stopping (s_async s') = stopping (s_async s) /\
  s_acc s' = s_acc s.
Proof using.
  intros Hi Hw [Hs|Hs].
  2:{ destruct Hs as [ws a pc ev wk wk' acc comp Hwk]. unfold work_left. simpl. split; [|done].
      apply Permutation_length in Hwk. rewrite Hwk. simpl. lia. }
  pose proof (inv_queues _ _ _ Hi) as Hqs. pose proof (inv_fifo _ _ _ Hi u) as Hf.
  pose proof (queue_nonempty free q s u Idle Hi) as Hnq.
  destruct Hs as [ws a pc ev wk acc comp n a' Hp Hpop|ws a pc ev wk acc comp a' Hp Hpop
    |ws a pc ev wk acc comp Hp Hst|ws a pc ev wk acc comp Hp Hst|ws a pc ev wk acc comp Hp Hev
    |ws a pc ev wk acc comp n r ws' Hp Htr|w c a pc ev wk acc comp n result r w' Hp Hc
    |ws a pc ev wk acc comp n Hp]; unfold work_left; simpl in *; rewrite Hp, lookup_insert_eq.
  - destruct (q u) as [|m l] eqn:Hq.
    { rewrite (pop_nil _ _ _ _ Hqs Hq) in Hpop. by simplify_eq. }
    destruct (pop_cons _ _ _ _ _ _ Hqs Hq) as (a1 & Hpop1 & _ & _ & Hs1 & _).
    rewrite Hpop in Hpop1. simplify_eq. simpl. split; [lia|done].
  - destruct (q u) as [|m l] eqn:Hq.
    2:{ destruct (pop_cons _ _ _ _ _ _ Hqs Hq) as (a1 & Hpop1 & _). congruence. }
    rewrite (pop_nil _ _ _ _ Hqs Hq) in Hpop. simplify_eq. split; [|done].
    destruct Hw as [Hw|Hw]; simpl in Hw; [rewrite Hw; simpl; lia|]. destruct Hnq; [done| |done|done].
    unfold held. by rewrite Hp.
  - split; [|done]. rewrite Hst. simpl. lia.
  - split; [|done]. rewrite Hst. simpl. lia.
  - split; [simpl; lia|done].
  - by case_match; (split; [simpl; lia|done]).
  - split; [|done]. assert (wk_unit (node_at a n) = u) as ->.
    { apply (inv_unit _ _ _ Hi). simpl. apply elem_of_app. right. unfold held. rewrite Hp. left. }
    unfold append_at. rewrite upd_eq, Hf. unfold in_flight. rewrite Hp, !length_app. simpl. lia.
  - split; [simpl; lia|done].
Qed.

Lemma unit_runs s s' u :
  runs u s -> unit_step u s s' ->
  runs u s' \/ (stopping (s_async s) = true /\ s_pc s' !! u = Some Exited).
Proof using.
  intros (p & Hp & Hne) [Hs|Hs]; destruct Hs; simpl in *; unfold runs; simpl; [..|by left; eauto];
    rewrite lookup_insert_eq; first [by left; eauto|by right].
Qed.

Lemma unit_astep u s s' : unit_step u s s' -> astep s s'.
Proof using. intros [Hs|Hs]; [by eapply step_worker|by eapply step_wake]. Qed.

Lemma unit_finishes free q s u :
  async_inv free q s -> runs u s ->
  exists s', rtc (unit_step u) s s' /\ s_acc s' = s_acc s /\
    if stopping (s_async s) then s_pc s' !! u = Some Exited else s_comp s' u = s_acc s' u.
Proof using.
  remember (work_left u s) as k eqn:Hk. revert free q s Hk.
  induction k as [k IH] using lt_wf_ind. intros free q s -> Hi Hr.
  assert (has_work u s \/ (stopping (s_async s) = false /\ s_comp s u = s_acc s u)) as [Hw|[Hst Hc]].
  { unfold has_work. destruct (stopping (s_async s)); [by left; left|].
    destruct (decide (s_comp s u = s_acc s u)); auto. }
  2:{ exists s. by rewrite Hst. }
  destruct (unit_progress _ _ _ _ Hi Hr Hw) as [s1 Hs1].
  destruct (unit_decreases _ _ _ _ _ Hi Hw Hs1) as (Hlt & Hst & Hacc).
  destruct (inv_step _ _ _ _ Hi (unit_astep _ _ _ Hs1)) as (free1 & q1 & Hi1).
  destruct (unit_runs _ _ _ Hr Hs1) as [Hr1|[Hstop Hex]].
  - destruct (IH _ Hlt free1 q1 s1 eq_refl Hi1 Hr1) as (s' & Hrtc & Ha' & Hend).
    exists s'. rewrite Hst in Hend. split_and!; [by econstructor|congruence|done].
  - exists s1. rewrite Hstop. split_and!; [by apply rtc_once|done|done].
Qed.

Lemma unit_runs_bounded free q s s' u k :
  async_inv free q s -> nsteps (fun s1 s2 => has_work u s1 /\ unit_step u s1 s2) k s s' ->
  (k <= work_left u s)%nat.
Proof using.
  intros Hi Hn. revert free q Hi. induction Hn as [s|k s1 s2 s3 [Hw Hs] Hn IH]; intros free q Hi; [lia|].
  destruct (unit_decreases _ _ _ _ _ Hi Hw Hs) as (Hlt & _ & _).
  destruct (inv_step _ _ _ _ Hi (unit_astep _ _ _ Hs)) as (free1 & q1 & Hi1).
  specialize (IH _ _ Hi1). lia.
Qed.

(** C30: no wakeup is lost and no worker gets stuck. From any state a run can
    reach, the steps of a live worker (and the wakeups already due to it) can
    bring it, with nobody else's help, to where every accepted request of its
    unit is reported or, once it is asked to stop, to its exit, which is what
    the join in [co_cobd_async_stop] waits for; and whatever of these steps it
    takes while it has work, there are at most [work_left] of them. *)
Theorem async_worker_finishes s0 s u :
  started s0 -> rtc astep s0 s -> runs u s ->
  (exists s', rtc (unit_step u) s s' /\ s_acc s' = s_acc s /\
     if stopping (s_async s) then s_pc s' !! u = Some Exited else s_comp s' u = s_acc s' u) /\
  forall k s', nsteps (fun s1 s2 => has_work u s1 /\ unit_step u s1 s2) k s s' ->
    (k <= work_left u s)%nat.
Proof using.
  intros Hs Hr Hu. destruct (inv_reachable _ _ Hs Hr) as (free & q & Hi). split.
  - by eapply unit_finishes.
  - intros k s'. by eapply unit_runs_bounded.
Qed.

(** ** Units without a worker *)

Lemma count_step s s' : astep s s' -> worker_count (s_async s') = worker_count (s_async s).
Proof using.
  intros Hs.
  destruct Hs as [ws a pc ev wk acc comp unit offset sg_pa count write tag ok a' Hsub|u s s' Hw|u s s' Hw
    |ws ws' a pc ev wk acc comp|ws a pc ev wk acc comp|u ws a pc ev wk acc comp Hp]; try done.
  - simpl. unfold co_cobd_async_submit in Hsub. repeat case_match; by simplify_eq.
  - destruct Hw as [? a ? ? ? ? ? ? ? ? Hpop|? a ? ? ? ? ? ? ? Hpop| | | | | |]; simpl; try done;
      try (by case_match); unfold fifo_pop in Hpop; repeat case_match; by simplify_eq.
  - by destruct Hw.
Qed.

Lemma start_workers_stop kthread m k i :
  (forall j, i <= j < i + Z.of_nat k -> kthread j = true) -> kthread (i + Z.of_nat k) = false ->
  (k < m)%nat -> start_workers m i kthread = Z.of_nat k.
Proof using.
  revert m i. induction k as [|k IH]; intros [|m] i Hup Hdown Hlt; try lia; cbn [start_workers].
  - replace (i + Z.of_nat 0) with i in Hdown by lia. by rewrite Hdown.
  - rewrite Hup, IH; [lia| | |lia|lia].
    + intros j Hj. apply Hup. lia.
    + by replace (i + 1 + Z.of_nat k) with (i + Z.of_nat (S k)) by lia.
Qed.

(** Nothing is reported for a unit that has no worker. *)
Definition silent s : Prop := forall u, s_pc s !! u = None -> s_comp s u = [].

Lemma silent_step free q s s' : async_inv free q s -> silent s -> astep s s' -> silent s'.
Proof using.
  intros Hi Hn Hs v Hv.
  destruct Hs as [| u s s' Hw|u s s' Hw| | |u ws a pc ev wk acc comp Hp]; try by apply (Hn v).
  - destruct Hw; simpl in *; apply lookup_insert_None in Hv as [Hv Hne]; try by apply (Hn v).
    unfold append_at. rewrite upd_ne; [by apply (Hn v)|]. intros ->. apply Hne. symmetry.
    rewrite <- (inv_unit _ _ _ Hi u n); [done|]. apply elem_of_app. right. simpl.
    unfold held. by case_match; simplify_eq; left.
  - destruct Hw. by apply (Hn v).
  - simpl in *. apply lookup_insert_None in Hv as [Hv _]. by apply (Hn v).
Qed.

Lemma silent_reachable s0 s :
  started s0 -> rtc astep s0 s ->
  (exists free q, async_inv free q s) /\ silent s /\
  worker_count (s_async s) = worker_count (s_async s0).
Proof using.
  intros Hs Hr. pose proof (inv_started _ Hs) as [free Hi].
  assert (silent s0) as Hsil by by destruct Hs as (ws & va & a & n & ev & Hn & ->).
  clear Hs. revert Hi Hsil. generalize (fun _ : Z => @nil Z). revert free.
  induction Hr as [s|s1 s2 s3 Hst Hr IH]; intros free q Hi Hsil; [by eauto|].
  destruct (inv_step _ _ _ _ Hi Hst) as (free' & q' & Hi').
  destruct (IH _ _ Hi') as (Hi3 & Hsil3 & Hwc3); [by apply (silent_step _ _ _ _ Hi)|].
  split_and!; [done|done|]. by rewrite Hwc3, (count_step _ _ Hst).
Qed.

(** A start whose threads come up only for the first [n] of the four units
    succeeds all the same; in the run that follows, requests for the other
    units are accepted as long as the pool has a node, and none of them is ever
    reported (the comment on [co_cobd_async_submit] says that a worker will
    perform what is accepted). *)
Theorem partial_start_strands_units (w w' : W) a va kthread n s0 s u :
  0 < n < CO_COBD_WORKERS -> (forall i, 0 <= i < n -> kthread i = true) -> kthread n = false ->
  gm_write (u64 (va + CO_ACIO_ENABLED)) (le_bytes 4 1) 4 w = (Ret tt, w') ->
  started s0 -> worker_count (s_async s0) = n -> rtc astep s0 s -> n <= u < CO_COBD_WORKERS ->
  co_cobd_async_start va kthread (w, a) = (Ret tt, (w', set_workers n (fresh_async va a))) /\
  s_comp s u = [] /\
  forall offset sg_pa count write tag, free_list (s_async s) <> None ->
    exists a', co_cobd_async_submit u offset sg_pa count write tag (s_async s) = (true, a').
Proof using.
  intros Hn Hup Hdown Hwr Hs Hwc Hr Hu.
  destruct (silent_reachable _ _ Hs Hr) as ((free & q & Hi) & Hsil & Hcount).
  split_and!.
  - assert (start_workers (Z.to_nat CO_COBD_WORKERS) 0 kthread = n) as Hstart.
    { rewrite <- (Z2Nat.id n) by lia. apply start_workers_stop; rewrite ?Z2Nat.id by lia; [|done|lia].
      intros j Hj. apply Hup. lia. }
    unfold co_cobd_async_start. rewrite Hstart.
    unfold mbind, M_bind, modify, attempt, lift. cbn [fst snd]. rewrite Hwr. cbn [fst snd].
    generalize (fresh_async va a) as f. intros f.
    destruct (Z.eqb_spec n 0); [lia|done].
  - apply Hsil. destruct (s_pc s !! u) eqn:Hp; [|done].
    assert (0 <= u < worker_count (s_async s)) by (apply (inv_running _ _ _ Hi); eauto). lia.
  - intros offset sg_pa count write tag Hfree. unfold co_cobd_async_submit.
    rewrite (proj2 (no_unit_false u)) by (apply elem_of_seqZ; lia).
    destruct (free_list (s_async s)); [|done]. eauto.
Qed.
End run.

(** ** The completion ring

    The completion ring of [co_cobd_complete]: a bounded queue of records in
    guest memory, which the host extends and the guest consumes. *)

Definition CO_ACIO_BYTES : Z := CO_ACIO_COMP + CO_COBD_COMP_SLOTS * CO_ACIO_COMP_STRIDE.

(** What the guest reads of one completion. *)
Record completion := Completion { c_unit : Z; c_tag : Z; c_result : Z }.
Definition comp_bytes (c : completion) : list Z := comp_record (c_unit c) (c_tag c) (c_result c).

(** Where the record at position [pos] is. *)
Definition comp_off (pos : Z) : Z := CO_ACIO_COMP + pos mod CO_COBD_COMP_SLOTS * CO_ACIO_COMP_STRIDE.

(** The ring holds the completions [cs], at the positions from [tpos] on, and
    its indices say so. *)
Definition comp_ring (m : mem) (tpos : Z) (cs : list completion) : Prop :=
  load_u32 m CO_ACIO_COMP_TAIL = u32 tpos /\
  load_u32 m CO_ACIO_COMP_HEAD = u32 (tpos + Z.of_nat (length cs)) /\
  Z.of_nat (length cs) <= CO_COBD_COMP_SLOTS /\
  forall i c, cs !! i = Some c ->
    load_bytes m (comp_off (tpos + Z.of_nat i)) CO_ACIO_COMP_STRIDE = comp_bytes c.

Lemma comp_bytes_ok u t r : Z.of_nat (length (comp_record u t r)) = 16 /\ Forall is_byte (comp_record u t r).
Proof.
  unfold comp_record. rewrite !length_app, !length_le_bytes. split; [done|].
  repeat (apply Forall_app_2; [apply le_bytes_bytes|]). apply le_bytes_bytes.
Qed.

Lemma comp_off_range pos : 16 <= comp_off pos /\ comp_off pos + 16 <= CO_ACIO_BYTES.
Proof.
  unfold comp_off, CO_ACIO_BYTES. change CO_ACIO_COMP with 16. change CO_ACIO_COMP_STRIDE with 16.
  change CO_COBD_COMP_SLOTS with 128. pose proof (Z.mod_pos_bound pos 128). lia.
Qed.

Lemma comp_off_apart p q :
  p < q < p + CO_COBD_COMP_SLOTS -> comp_off p + 16 <= comp_off q \/ comp_off q + 16 <= comp_off p.
Proof.
  intros Hpq. pose proof (ring_apart 7 ltac:(lia) p q Hpq) as Hne. change (2 ^ 7) with 128 in Hne.
  unfold comp_off. change CO_ACIO_COMP with 16. change CO_ACIO_COMP_STRIDE with 16.
  change CO_COBD_COMP_SLOTS with 128. lia.
Qed.

(** The slot the code computes. *)
Lemma comp_slot pos : CO_ACIO_COMP + Z.land (u32 pos) (CO_COBD_COMP_SLOTS - 1) * CO_ACIO_COMP_STRIDE = comp_off pos.
Proof.
  unfold comp_off. do 2 f_equal. change CO_COBD_COMP_SLOTS with (2 ^ 7).
  rewrite (ring_mask 7 ltac:(lia)). by apply (ring_u32 7 ltac:(lia)).
Qed.

(** Storing a record at the next position, then the head. *)
Lemma comp_ring_push m tpos cs c :
  comp_ring m tpos cs -> Z.of_nat (length cs) < CO_COBD_COMP_SLOTS ->
  comp_ring (store_bytes (store_bytes m (comp_off (tpos + Z.of_nat (length cs))) (comp_bytes c))
      CO_ACIO_COMP_HEAD (le_bytes 4 (u32 (u32 (tpos + Z.of_nat (length cs)) + 1)))) tpos (cs ++ [c]).
Proof.
  intros (Ht & Hh & Hle & Hcs) Hlt. set (p := tpos + Z.of_nat (length cs)).
  pose proof (comp_bytes_ok (c_unit c) (c_tag c) (c_result c)) as [Hlen Hby]. fold (comp_bytes c) in *.
  assert (forall i, load_bytes (store_bytes (store_bytes m (comp_off p) (comp_bytes c))
      CO_ACIO_COMP_HEAD (le_bytes 4 (u32 (u32 p + 1)))) (comp_off i) 16 =
      load_bytes (store_bytes m (comp_off p) (comp_bytes c)) (comp_off i) 16) as Hrec.
  { intros i. apply load_bytes_store_ne. right. rewrite length_le_bytes.
    pose proof (comp_off_range i). change CO_ACIO_COMP_HEAD with 4. lia. }
  pose proof (comp_off_range p) as Hp.
  split_and!.
  - unfold load_u32. rewrite load_bytes_store_ne by (right; done).
    rewrite load_bytes_store_ne; [done|]. left. change CO_ACIO_COMP_TAIL with 8. lia.
  - fold (store_u32 (store_bytes m (comp_off p) (comp_bytes c)) CO_ACIO_COMP_HEAD (u32 (u32 p + 1))).
    rewrite load_u32_store_eq, u32_idemp, u32_add_wrap_l, length_app. simpl. f_equal. lia.
  - rewrite length_app. simpl. lia.
  - intros i d Hd. change CO_ACIO_COMP_STRIDE with 16. rewrite Hrec.
    apply lookup_snoc_Some in Hd as [[Hi Hd]|[-> ->]].
    + rewrite load_bytes_store_ne; [by apply Hcs|]. rewrite Hlen.
      destruct (comp_off_apart (tpos + Z.of_nat i) p) as [?|?]; [unfold p; lia|left; lia|right; lia].
    + fold p. rewrite <- Hlen. by apply load_bytes_store_eq.
Qed.

Section complete.
Context {W : Type} `{HW : GuestWindow W}.

(** A completion is appended to the ring: the guest finds the records that
    were there, then the new one, with head and tail saying so; in a full ring it is
    dropped and no byte changes. Nothing outside the ring is touched, and it always returns. *)
Theorem completion_published (w : W) va m tpos cs c :
  gm_window w va CO_ACIO_BYTES m -> va <> 0 -> comp_ring m tpos cs ->
  exists w' m',
    co_cobd_complete va (c_unit c) (c_tag c) (c_result c) w = (Ret tt, w') /\
    gm_window w' va CO_ACIO_BYTES m' /\ gm_only w va CO_ACIO_BYTES w' /\
    if decide (Z.of_nat (length cs) = CO_COBD_COMP_SLOTS) then m' = m
    else comp_ring m' tpos (cs ++ [c]) /\ load_u32 m' CO_ACIO_ENABLED = load_u32 m CO_ACIO_ENABLED.
Proof using.
  intros Hw Hva Hr. pose proof Hr as (Ht & Hh & Hle & Hcs).
  destruct (gm_range _ _ _ _ Hw) as (Hb & Hs & Hend).
  assert (forall off, 0 <= off < CO_ACIO_BYTES -> u64 (va + off) = va + off) as Hu
    by (intros off Ho; apply u64_small; lia).
  pose proof (comp_bytes_ok (c_unit c) (c_tag c) (c_result c)) as [Hlen Hby].
  set (hpos := tpos + Z.of_nat (length cs)) in *. pose proof (comp_off_range hpos) as Hoff.
  assert (wp (co_cobd_complete va (c_unit c) (c_tag c) (c_result c))
    (fun _ w' => exists m', reached w va CO_ACIO_BYTES m' w' /\
       if decide (Z.of_nat (length cs) = CO_COBD_COMP_SLOTS) then m' = m
       else comp_ring m' tpos (cs ++ [c]) /\ load_u32 m' CO_ACIO_ENABLED = load_u32 m CO_ACIO_ENABLED)
    (fun _ _ => False) w) as Hwp.
  { unfold co_cobd_complete. rewrite (proj2 (Z.eqb_neq _ _)) by done.
    wp_step. apply wp_attempt. rewrite Hu by done.
    apply (wp_gm_read w va CO_ACIO_BYTES m); [by apply reached_refl|done..|]. intros w1 R1.
    wp_step. apply wp_attempt. rewrite Hu by done.
    apply (wp_gm_read w va CO_ACIO_BYTES m); [done..|]. intros w2 R2.
    fold (load_u32 m CO_ACIO_COMP_HEAD) (load_u32 m CO_ACIO_COMP_TAIL). rewrite Ht, Hh.
    rewrite u32_sub_wrap_l.
    assert (hpos - tpos = Z.of_nat (length cs)) as -> by lia.
    rewrite (u32_small (Z.of_nat (length cs))) by (change CO_COBD_COMP_SLOTS with 128 in *; lia).
    destruct (Z.leb_spec CO_COBD_COMP_SLOTS (Z.of_nat (length cs))) as [Hfull|Hroom].
    { apply wp_ret. exists m. split; [done|]. by rewrite decide_True by lia. }
    wp_step. apply wp_attempt. rewrite <- Z.add_assoc, comp_slot. rewrite Hu by lia.
    apply (wp_gm_write w va CO_ACIO_BYTES m); [done|lia|done|lia|lia|done|]. intros w3 R3.
    wp_step. apply wp_attempt.
    eapply (wp_gm_write w va CO_ACIO_BYTES); [done|done|by rewrite length_le_bytes|done|done|
      apply le_bytes_bytes|]. intros w4 R4. apply wp_ret.
    eexists. split; [exact R4|]. rewrite decide_False by lia. split; [by apply comp_ring_push|].
    unfold load_u32. rewrite load_bytes_store_ne by (left; done).
    rewrite load_bytes_store_ne; [done|]. left. change CO_ACIO_ENABLED with 0. lia. }
  destruct (wp_cases _ _ _ _ Hwp) as [([] & w' & Hrun & m' & (Hw' & Ho & _) & Hm)|(rc & w' & _ & [])].
  exists w', m'. by split_and!.
Qed.
End complete.
