(* ===== verification/Host.v ===== *)
(** What the portable driver asks of the host operating system layer.

    [HostOS] lists the operations of [os/kernel] that the loader and the page
    tables call; the state [OS] is the host's own. [HostLaws] is the documented
    behaviour the loader relies on: cached pool pages and locked section pages
    come with a machine frame each, frames of live allocations are distinct,
    and a kernel address keeps its frame. [SimpleHost] is a bump allocator that
    satisfies the laws, with frames descending inside a block so that nothing
    is physically contiguous. *)
From S2P Require Import Prelude.
From S2P Require Import Rc.
From S2P Require Import Mem.
From S2P Require Import Mmu.

Class HostOS (OS : Type) := {
  (** [co_os_alloc_cached_pages (pages)]: kernel address, or NULL. *)
  co_os_alloc_cached_pages : Z -> OS -> option Z * OS;
  co_os_free_cached_pages : Z -> Z -> OS -> OS;
  (** [co_os_user_block_map (user_va, bytes)]: kernel address and MDL. *)
  co_os_user_block_map : Z -> Z -> OS -> option (Z * Z) * OS;
  co_os_user_block_unmap : Z -> Z -> OS -> OS;
  co_os_virt_to_phys : OS -> Z -> Z;
  (** One page from the host's page allocator, as a frame number. *)
  host_get_page : OS -> option Z * OS;
  host_put_page : Z -> OS -> OS;
  (** [co_os_map] / [co_os_unmap]: a temporary kernel mapping of a frame. *)
  host_map : Z -> OS -> option Z * OS;
  host_unmap : Z -> Z -> OS -> OS;
  (** Whether [co_os_malloc] succeeds. *)
  host_malloc : Z -> OS -> bool * OS;
}.

(** [pages] kernel pages at [va] came into being between [os] and [os']: page
    aligned, away from the live pages of [os] in both address spaces, one
    frame each. [frames os] maps live kernel page numbers to machine frames. *)
Definition fresh_block {OS} (frames : OS -> gmap Z Z) (os os' : OS) (va pages : Z) : Prop :=
  va mod CO_ARCH_PAGE_SIZE = 0 /\ 0 < va /\
  (forall v, (v < va / CO_ARCH_PAGE_SIZE \/ va / CO_ARCH_PAGE_SIZE + pages <= v) ->
             frames os' !! v = frames os !! v) /\
  (forall v, va / CO_ARCH_PAGE_SIZE <= v < va / CO_ARCH_PAGE_SIZE + pages ->
     frames os !! v = None /\
     exists mfn, frames os' !! v = Some mfn /\ 0 < mfn < 2 ^ 40 /\
       forall v', frames os' !! v' = Some mfn -> v' = v).

Class HostLaws (OS : Type) `{HostOS OS} := {
  os_ok : OS -> Prop;
  os_frames : OS -> gmap Z Z;
  law_virt_to_phys os va mfn :
    0 <= va -> os_frames os !! (va / CO_ARCH_PAGE_SIZE) = Some mfn ->
    co_os_virt_to_phys os va = mfn * CO_ARCH_PAGE_SIZE + va mod CO_ARCH_PAGE_SIZE;
  law_alloc_cached os pages : os_ok os -> 0 < pages ->
    match co_os_alloc_cached_pages pages os with
    | (Some va, os') => os_ok os' /\ fresh_block os_frames os os' va pages
    | (None, os') => os_ok os' /\ os_frames os' = os_frames os
    end;
  law_free_cached os va pages : os_ok os -> os_ok (co_os_free_cached_pages va pages os);
  law_block_map os uva bytes : os_ok os ->
    0 < bytes -> bytes mod CO_ARCH_PAGE_SIZE = 0 ->
    match co_os_user_block_map uva bytes os with
    | (Some (va, mdl), os') =>
        mdl <> 0 /\ os_ok os' /\
        fresh_block os_frames os os' va (bytes / CO_ARCH_PAGE_SIZE)
    | (None, os') => os_ok os' /\ os_frames os' = os_frames os
    end;
  law_block_unmap os va mdl : os_ok os -> os_ok (co_os_user_block_unmap va mdl os);
  law_malloc os n : os_ok os ->
    os_ok (host_malloc n os).2 /\ os_frames (host_malloc n os).2 = os_frames os;
  law_host_map os pfn : os_ok os ->
    os_ok (host_map pfn os).2 /\ os_frames (host_map pfn os).2 = os_frames os;
  law_host_unmap os va pfn : os_ok os ->
    os_ok (host_unmap va pfn os) /\ os_frames (host_unmap va pfn os) = os_frames os;
}.

(** ** A concrete host *)

Module SimpleHost.
(** Next free kernel page, next free frame, how many pages the pool still
    has, and the live pages. *)
Record host := Host { next_vpn : Z; next_mfn : Z; pool : Z; live : gmap Z Z }.

(** The frames of [n] pages from [vpn], last page first. *)
Fixpoint put_pages (n : nat) (vpn mfn : Z) (m : gmap Z Z) : gmap Z Z :=
  match n with
  | O => m
  | S n' => <[vpn := mfn + Z.of_nat n']> (put_pages n' (vpn + 1) mfn m)
  end.

Definition take_pages (n : Z) (h : host) : option Z * host :=
  if ((0 <? n) && (n <=? pool h) && (next_mfn h + n <? 2 ^ 40))%bool then
    (Some (next_vpn h * CO_ARCH_PAGE_SIZE),
     Host (next_vpn h + n) (next_mfn h + n) (pool h - n)
       (put_pages (Z.to_nat n) (next_vpn h) (next_mfn h) (live h)))
  else (None, h).

Definition forget (vpn n : Z) (h : host) : host :=
  Host (next_vpn h) (next_mfn h) (pool h)
    (filter (fun kv => ~ (vpn <= kv.1 < vpn + n)) (live h)).

#[export] Instance os : HostOS host := {|
  co_os_alloc_cached_pages := take_pages;
  co_os_free_cached_pages va n h := forget (va / CO_ARCH_PAGE_SIZE) n h;
  co_os_user_block_map uva bytes h :=
    let '(r, h') := take_pages (bytes / CO_ARCH_PAGE_SIZE) h in
    ((fun va => (va, 1)) <$> r, h');
  co_os_user_block_unmap va mdl h := h;
  co_os_virt_to_phys h va :=
    default 0 (live h !! (va / CO_ARCH_PAGE_SIZE)) * CO_ARCH_PAGE_SIZE
    + va mod CO_ARCH_PAGE_SIZE;
  host_get_page h :=
    (Some (next_mfn h), Host (next_vpn h) (next_mfn h + 1) (pool h) (live h));
  host_put_page pfn h := h;
  host_map pfn h := (Some (2 ^ 50 + pfn * CO_ARCH_PAGE_SIZE), h);
  host_unmap va pfn h := h;
  host_malloc n h := (true, h);
|}.

(** A host whose kernel pages start at [0x10000] and frames at [0x5000]. *)
Definition boot (pages : Z) : host := Host 0x10000 0x5000 pages ∅.

(** Live pages and frames lie below the next free ones, one frame a page. *)
Record ok (h : host) : Prop := {
  ok_next : 0 < next_vpn h /\ 0 < next_mfn h;
  ok_below v m : live h !! v = Some m -> v < next_vpn h /\ 0 < m < next_mfn h;
  ok_mfn v m : live h !! v = Some m -> m < 2 ^ 40;
  ok_inj v v' m : live h !! v = Some m -> live h !! v' = Some m -> v = v';
}.

Lemma lookup_put_pages n vpn mfn m v :
  put_pages n vpn mfn m !! v =
    if decide (vpn <= v < vpn + Z.of_nat n)
    then Some (mfn + (Z.of_nat n - 1 - (v - vpn))) else m !! v.
Proof.
  revert vpn. induction n as [|n IH]; intros vpn; cbn [put_pages].
  - by rewrite decide_False by lia.
  - destruct (decide (v = vpn)) as [->|Hne].
    + rewrite lookup_insert_eq, decide_True by lia. f_equal. lia.
    + rewrite lookup_insert_ne, IH by done.
      repeat case_decide; try lia; [f_equal; lia|done].
Qed.

Lemma take_pages_spec n h :
  ok h -> 0 < n ->
  match take_pages n h with
  | (Some va, h') => ok h' /\ fresh_block live h h' va n
  | (None, h') => ok h' /\ live h' = live h
  end.
Proof.
  intros Hok Hn. unfold take_pages.
  destruct ((0 <? n) && _ && _)%bool eqn:Hc; [|done].
  apply andb_true_iff in Hc as [_ Hlim]. apply Z.ltb_lt in Hlim.
  destruct Hok as [Hnx Hbl Hmf Hinj].
  assert (forall v, put_pages (Z.to_nat n) (next_vpn h) (next_mfn h) (live h) !! v =
            if decide (next_vpn h <= v < next_vpn h + n)
            then Some (next_mfn h + (n - 1 - (v - next_vpn h))) else live h !! v) as Hl.
  { intros v. rewrite lookup_put_pages, Z2Nat.id by lia. done. }
  set (m := put_pages _ _ _ _) in *. unfold fresh_block.
  change CO_ARCH_PAGE_SIZE with 4096. rewrite Z.mod_mul, Z.div_mul by lia.
  split; [split; cbn|split_and!; cbn; [done|lia|..]].
  - lia.
  - intros v x. rewrite Hl. case_decide; intros Hv; simplify_eq; [lia|].
    specialize (Hbl v x Hv). lia.
  - intros v x. rewrite Hl. case_decide; intros Hv; simplify_eq; [lia|eauto].
  - intros v v' x. rewrite !Hl. repeat case_decide; intros Hv Hv'; simplify_eq;
      [lia|specialize (Hbl v' _ Hv'); lia|specialize (Hbl v _ Hv); lia|eauto].
  - intros v Hv. rewrite Hl, decide_False by lia. done.
  - intros v Hv. split.
    + destruct (live h !! v) as [x|] eqn:Hx; [|done]. specialize (Hbl v x Hx). lia.
    + rewrite Hl, decide_True by lia. eexists. split; [done|]. split; [lia|].
      intros v'. rewrite Hl. case_decide; intros Hv'; simplify_eq; [lia|].
      specialize (Hbl v' _ Hv'). lia.
Qed.

Lemma forget_ok vpn n h : ok h -> ok (forget vpn n h).
Proof.
  intros [Hnx Hbl Hmf Hinj]. split; cbn; [done|..].
  - intros v m [Hv _]%map_lookup_filter_Some. eauto.
  - intros v m [Hv _]%map_lookup_filter_Some. eauto.
  - intros v v' m [Hv _]%map_lookup_filter_Some [Hv' _]%map_lookup_filter_Some. eauto.
Qed.

#[export] Program Instance laws : HostLaws host := {|
  os_ok := ok;
  os_frames := live;
|}.
Next Obligation. intros h va mfn Hva Hl. cbn in *. by rewrite Hl. Qed.
Next Obligation. intros h n Hok Hn. exact (take_pages_spec n h Hok Hn). Qed.
Next Obligation. intros h va n Hok. by apply forget_ok. Qed.
Next Obligation.
  intros h uva bytes Hok Hb Hm. cbn.
  assert (0 < bytes / CO_ARCH_PAGE_SIZE) as Hp
    by (change CO_ARCH_PAGE_SIZE with 4096 in *; Z.div_mod_to_equations; lia).
  pose proof (take_pages_spec _ h Hok Hp) as Ht.
  destruct (take_pages _ h) as [[va|] h']; cbn; [|done].
  by split; [|destruct Ht].
Qed.
Next Obligation. done. Qed.
Next Obligation. done. Qed.
Next Obligation. done. Qed.
Next Obligation. done. Qed.

Lemma boot_ok n : ok (boot n).
Proof. split; cbn; [done|..]; intros *; rewrite lookup_empty; done. Qed.

End SimpleHost.
