(* ===== verification/Frames.v ===== *)
(** FragRAM: the frames behind guest RAM ([kernel/kload.c], first half).

    Guest RAM is a list of host allocations ("blocks") that are contiguous in
    kernel virtual memory and scattered over machine frames. [kload_p2m] maps a
    pseudo PFN to its machine PFN, [kload_m2p] is an open-addressed hash back,
    and host windows live in the p2m above RAM. The state is the file's
    statics; the operations keep their names. Locks are not state here: every
    function of this file that takes [kload_lock] holds it from its first
    access to its return, so it is one step. *)
From S2P Require Import Prelude.
From S2P Require Import Rc.
From S2P Require Import Mem.
From S2P Require Import Mmu.
From S2P Require Import Space.
From S2P Require Import Host.

(** ** The statics *)

Record co_kload_block_t := Block {
  block_va : Z;             (* 0 is NULL *)
  pseudo_base : Z;
  block_bytes : Z;
  block_mdl : Z;            (* 0 is NULL: a pool block *)
}.

Definition null_block : co_kload_block_t := Block 0 0 0 0.

#[export] Instance co_kload_block_eq_dec : EqDecision co_kload_block_t.
Proof. solve_decision. Defined.

(** A table allocated from the pool: its kernel address and its cells. *)
Record pool_array := PoolArray { array_va : Z; cells : gmap Z Z }.

Record kload_statics := Kload {
  kload_space : option co_arch_guest_space;
  kload_min_va : Z;
  kload_max_va : Z;
  kload_pages : Z;
  kload_chunks : Z;
  kload_ram_bytes : Z;
  kload_text_phys : Z;
  kload_end_phys : Z;
  kload_ram_pages : Z;
  kload_block : gmap Z co_kload_block_t;
  kload_block_count : Z;
  kload_last_hit : Z;
  kload_user_ram_va : Z;
  kload_user_ram_bytes : Z;
  kload_p2m : option pool_array;
  kload_m2p : option pool_array;
  kload_p2m_alloc_pages : Z;
  kload_m2p_alloc_pages : Z;
  kload_p2m_capacity : Z;
  kload_backed_pages : Z;
  kload_m2p_slots : Z;
  kload_m2p_mask_value : Z;
  kload_phys_base : Z;
  kload_table_start : Z;
  kload_table_end : Z;
  kload_table_top : Z;
  kload_user_maps : Z;
  kload_pending_free : bool;
  kload_ram_ready : bool;
  kload_window_next : Z;
  kload_window_base_pages : Z;
}.

Definition eta_kload (k : kload_statics) : kload_statics :=
  Kload (kload_space k) (kload_min_va k) (kload_max_va k) (kload_pages k)
    (kload_chunks k) (kload_ram_bytes k) (kload_text_phys k) (kload_end_phys k)
    (kload_ram_pages k) (kload_block k) (kload_block_count k) (kload_last_hit k)
    (kload_user_ram_va k) (kload_user_ram_bytes k) (kload_p2m k) (kload_m2p k)
    (kload_p2m_alloc_pages k) (kload_m2p_alloc_pages k) (kload_p2m_capacity k)
    (kload_backed_pages k) (kload_m2p_slots k) (kload_m2p_mask_value k)
    (kload_phys_base k) (kload_table_start k) (kload_table_end k)
    (kload_table_top k) (kload_user_maps k) (kload_pending_free k)
    (kload_ram_ready k) (kload_window_next k) (kload_window_base_pages k).

(** An assignment to one static: [eta_kload k] with field [proj] replaced. *)
Ltac assign proj v k :=
  let e := eval cbv beta delta [eta_kload] in (eta_kload k) in
  let f := eval pattern (proj k) in e in
  lazymatch f with ?g _ => let r := eval cbv beta in (g v) in exact r end.

Definition set_space v k : kload_statics := ltac:(assign kload_space v k).
Definition set_min_va v k : kload_statics := ltac:(assign kload_min_va v k).
Definition set_max_va v k : kload_statics := ltac:(assign kload_max_va v k).
Definition set_pages v k : kload_statics := ltac:(assign kload_pages v k).
Definition set_chunks v k : kload_statics := ltac:(assign kload_chunks v k).
Definition set_ram_bytes v k : kload_statics := ltac:(assign kload_ram_bytes v k).
Definition set_text_phys v k : kload_statics := ltac:(assign kload_text_phys v k).
Definition set_end_phys v k : kload_statics := ltac:(assign kload_end_phys v k).
Definition set_ram_pages v k : kload_statics := ltac:(assign kload_ram_pages v k).
Definition set_block v k : kload_statics := ltac:(assign kload_block v k).
Definition set_block_count v k : kload_statics := ltac:(assign kload_block_count v k).
Definition set_last_hit v k : kload_statics := ltac:(assign kload_last_hit v k).
Definition set_user_ram_va v k : kload_statics := ltac:(assign kload_user_ram_va v k).
Definition set_user_ram_bytes v k : kload_statics := ltac:(assign kload_user_ram_bytes v k).
Definition set_p2m v k : kload_statics := ltac:(assign kload_p2m v k).
Definition set_m2p v k : kload_statics := ltac:(assign kload_m2p v k).
Definition set_p2m_alloc_pages v k : kload_statics := ltac:(assign kload_p2m_alloc_pages v k).
Definition set_m2p_alloc_pages v k : kload_statics := ltac:(assign kload_m2p_alloc_pages v k).
Definition set_p2m_capacity v k : kload_statics := ltac:(assign kload_p2m_capacity v k).
Definition set_backed_pages v k : kload_statics := ltac:(assign kload_backed_pages v k).
Definition set_m2p_slots v k : kload_statics := ltac:(assign kload_m2p_slots v k).
Definition set_m2p_mask_value v k : kload_statics := ltac:(assign kload_m2p_mask_value v k).
Definition set_phys_base v k : kload_statics := ltac:(assign kload_phys_base v k).
Definition set_table_start v k : kload_statics := ltac:(assign kload_table_start v k).
Definition set_table_end v k : kload_statics := ltac:(assign kload_table_end v k).
Definition set_table_top v k : kload_statics := ltac:(assign kload_table_top v k).
Definition set_user_maps v k : kload_statics := ltac:(assign kload_user_maps v k).
Definition set_pending_free v k : kload_statics := ltac:(assign kload_pending_free v k).
Definition set_ram_ready v k : kload_statics := ltac:(assign kload_ram_ready v k).
Definition set_window_next v k : kload_statics := ltac:(assign kload_window_next v k).
Definition set_window_base_pages v k : kload_statics :=
  ltac:(assign kload_window_base_pages v k).

(** All zeroes, as C's statics start. *)
Definition kload_zero : kload_statics :=
  Kload None 0 0 0 0 0 0 0 0 ∅ 0 0 0 0 None None 0 0 0 0 0 0 0 0 0 0 0 false false 0 0.

(** The driver: host memory, the host, the loader's statics, whether the
    page-table hooks of space.c are installed, the published addresses of
    the guest's console, network and GPU areas with the GPU kick frames, and
    which of the device locks exist. *)
Record dev_locks := Locks { console_lock : bool; net_lock : bool; vgpu_lock : bool }.

Record world (OS : Type) := World {
  w_mem : mem;
  w_os : OS;
  w_kl : kload_statics;
  w_hooks : bool;
  console_io_va : Z;
  net_io_va : Z;
  vgpu_io_va : Z;
  vgpu_kick_frame : gmap Z Z;
  w_locks : dev_locks;
}.
Arguments World {OS}.
Arguments w_mem {OS}.
Arguments w_os {OS}.
Arguments w_kl {OS}.
Arguments w_hooks {OS}.
Arguments console_io_va {OS}.
Arguments net_io_va {OS}.
Arguments vgpu_io_va {OS}.
Arguments vgpu_kick_frame {OS}.
Arguments w_locks {OS}.

Section world.
Context {OS : Type}.
Implicit Types w : world OS.

Definition set_mem (m : mem) w : world OS := World m (w_os w) (w_kl w) (w_hooks w)
  (console_io_va w) (net_io_va w) (vgpu_io_va w) (vgpu_kick_frame w) (w_locks w).
Definition set_os (o : OS) w : world OS := World (w_mem w) o (w_kl w) (w_hooks w)
  (console_io_va w) (net_io_va w) (vgpu_io_va w) (vgpu_kick_frame w) (w_locks w).
Definition set_kl (k : kload_statics) w : world OS := World (w_mem w) (w_os w) k (w_hooks w)
  (console_io_va w) (net_io_va w) (vgpu_io_va w) (vgpu_kick_frame w) (w_locks w).
Definition set_hooks (h : bool) w : world OS := World (w_mem w) (w_os w) (w_kl w) h
  (console_io_va w) (net_io_va w) (vgpu_io_va w) (vgpu_kick_frame w) (w_locks w).
Definition set_locks (l : dev_locks) w : world OS := World (w_mem w) (w_os w) (w_kl w) (w_hooks w)
  (console_io_va w) (net_io_va w) (vgpu_io_va w) (vgpu_kick_frame w) l.
Definition upd_kl (f : kload_statics -> kload_statics) w : world OS := set_kl (f (w_kl w)) w.
Definition upd_mem (f : mem -> mem) w : world OS := set_mem (f (w_mem w)) w.

(** Read a static, assign a static. *)
Definition kl {A} (f : kload_statics -> A) : M (world OS) A := gets (fun w => f (w_kl w)).
Definition kset (f : kload_statics -> kload_statics) : M (world OS) unit :=
  modify (upd_kl f).

(** An operation of the host. *)
Definition host {A} (f : OS -> A * OS) : M (world OS) A := fun w =>
  let '(a, o) := f (w_os w) in (Ret a, set_os o w).
Definition host_do (f : OS -> OS) : M (world OS) unit :=
  modify (fun w => set_os (f (w_os w)) w).
End world.

Lemma wp_host {OS A} (f : OS -> A * OS) (Q : A -> world OS -> Prop) E w :
  (forall a o, f (w_os w) = (a, o) -> Q a (set_os o w)) -> wp (host f) Q E w.
Proof. intros HQ. unfold wp, host. destruct (f (w_os w)) as [a o]. by apply HQ. Qed.

(** ** Sizes *)

Definition CO_KLOAD_CHUNK_BYTES : Z := Z.shiftl 32 20.
Definition CO_KLOAD_MAX_BLOCKS : Z := 16384.
Definition CO_KLOAD_TRANSLATION_WINDOW_BYTES : Z := Z.shiftl 1 30.
Definition CO_KLOAD_USER_BLOCK_BYTES : Z := Z.shiftl 8 20.
(** [sizeof(kload_p2m[0])], [sizeof(kload_m2p[0])] *)
Definition p2m_cell_bytes : Z := 8.
Definition m2p_cell_bytes : Z := 4.

Definition pages_of (bytes : Z) : Z := Z.shiftr bytes CO_ARCH_PAGE_SHIFT.
Definition bytes_of (pages : Z) : Z := u64 (Z.shiftl pages CO_ARCH_PAGE_SHIFT).

(** The low bits of a 64-bit product with Knuth's odd constant. *)
Definition kload_m2p_hash (mask mfn : Z) : Z :=
  ulong (Z.land (u64 (mfn * 11400714819323198485)) mask).

Section frames.
Context {OS : Type} `{HostOS OS}.

Abbreviation D := (M (world OS)).

(** *** Array accesses, checked against the allocation *)

Definition p2m_get (i : Z) : D Z :=
  a ← kl kload_p2m;
  n ← kl kload_p2m_alloc_pages;
  match a with
  | None => fault
  | Some a =>
      in_bounds ((0 <=? i) && (i <? n * CO_ARCH_PAGE_SIZE / p2m_cell_bytes))%bool ;;
      mret (arr_get (cells a) i)
  end.

Definition p2m_set (i v : Z) : D unit :=
  a ← kl kload_p2m;
  n ← kl kload_p2m_alloc_pages;
  match a with
  | None => fault
  | Some a =>
      in_bounds ((0 <=? i) && (i <? n * CO_ARCH_PAGE_SIZE / p2m_cell_bytes))%bool ;;
      kset (set_p2m (Some (PoolArray (array_va a) (arr_set (cells a) i v))))
  end.

Definition m2p_get (i : Z) : D Z :=
  a ← kl kload_m2p;
  n ← kl kload_m2p_alloc_pages;
  match a with
  | None => fault
  | Some a =>
      in_bounds ((0 <=? i) && (i <? n * CO_ARCH_PAGE_SIZE / m2p_cell_bytes))%bool ;;
      mret (arr_get (cells a) i)
  end.

Definition m2p_set (i v : Z) : D unit :=
  a ← kl kload_m2p;
  n ← kl kload_m2p_alloc_pages;
  match a with
  | None => fault
  | Some a =>
      in_bounds ((0 <=? i) && (i <? n * CO_ARCH_PAGE_SIZE / m2p_cell_bytes))%bool ;;
      kset (set_m2p (Some (PoolArray (array_va a) (arr_set (cells a) i (u32 v)))))
  end.

Definition block_get (i : Z) : D co_kload_block_t :=
  in_bounds ((0 <=? i) && (i <? CO_KLOAD_MAX_BLOCKS))%bool ;;
  kl (fun k => default null_block (kload_block k !! i)).

Definition block_set (i : Z) (b : co_kload_block_t) : D unit :=
  in_bounds ((0 <=? i) && (i <? CO_KLOAD_MAX_BLOCKS))%bool ;;
  kset (fun k => set_block (<[i := b]> (kload_block k)) k).

(** *** Translation *)

Definition machine_to_pseudo_step (mfn : Z) (st : Z * Z) : D ((Z * Z) + option Z) :=
  let '(slot, probes) := st in
  slots ← kl kload_m2p_slots;
  if negb (probes <? slots) then mret (inr None) else
  stored ← m2p_get slot;
  if stored =? 0 then mret (inr None) else
  let ppfn := stored - 1 in
  backed ← kl kload_backed_pages;
  hit ← (if ppfn <? backed then m ← p2m_get ppfn; mret (m =? mfn) else mret false);
  if hit : bool then mret (inr (Some ppfn)) else
  mask ← kl kload_m2p_mask_value;
  mret (inl (Z.land (ulong (slot + 1)) mask, ulong (probes + 1))).

Definition kload_machine_to_pseudo_pfn (mfn : Z) : D (option Z) :=
  a ← kl kload_m2p;
  slots ← kl kload_m2p_slots;
  match a with
  | None => mret None
  | Some _ =>
      if slots =? 0 then mret None else
      mask ← kl kload_m2p_mask_value;
      mloop (machine_to_pseudo_step mfn) (kload_m2p_hash mask mfn, 0)
  end.

Definition kload_pseudo_to_machine_pfn (ppfn : Z) : D (option Z) :=
  a ← kl kload_p2m;
  capacity ← kl kload_p2m_capacity;
  match a with
  | None => mret None
  | Some _ =>
      if capacity <=? ppfn then mret None else
      backed ← kl kload_backed_pages;
      vacant ← (if backed <=? ppfn then m ← p2m_get ppfn; mret (m =? 0) else mret false);
      if vacant : bool then mret None else
      m ← p2m_get ppfn;
      mret (Some m)
  end.

Definition kload_pseudo_to_machine_pa (pseudo : Z) : D Z :=
  m ← kload_pseudo_to_machine_pfn (Z.shiftr pseudo CO_ARCH_PAGE_SHIFT);
  match m with
  | None => mret 0
  | Some mfn => mret (Z.lor (bytes_of mfn) (page_off pseudo))
  end.

(** [machine != NULL] is the caller's; the result is [*machine]. *)
Definition co_kload_pseudo_to_machine (pseudo : Z) : D Z :=
  m ← kload_pseudo_to_machine_pfn (Z.shiftr pseudo CO_ARCH_PAGE_SHIFT);
  match m with
  | None => throw CO_RC_NOT_FOUND
  | Some mfn => mret (Z.lor (bytes_of mfn) (page_off pseudo))
  end.

(** *** From a pseudo frame to a host pointer *)

Definition in_block (pa : Z) (b : co_kload_block_t) : bool :=
  ((pseudo_base b <=? pa) && (pa <? u64 (pseudo_base b + block_bytes b)))%bool.

Definition block_ptr (pa : Z) (b : co_kload_block_t) : Z :=
  block_va b + ulong (pa - pseudo_base b).

Definition frame_va_search_step (pa : Z) (st : Z * Z) : D ((Z * Z) + option Z) :=
  let '(lo, hi) := st in
  if negb (lo <=? hi) then mret (inr None) else
  let mid := lo + Z.quot (hi - lo) 2 in
  b ← block_get mid;
  if pa <? pseudo_base b then mret (inl (lo, mid - 1))
  else if u64 (pseudo_base b + block_bytes b) <=? pa then mret (inl (mid + 1, hi))
  else kset (set_last_hit mid) ;; mret (inr (Some (block_ptr pa b))).

Definition co_kload_pseudo_frame_va (pfn : Z) : D (option Z) :=
  let pa := bytes_of pfn in
  backed ← kl kload_backed_pages;
  if backed <=? pfn then mret None else
  last ← kl kload_last_hit;
  count ← kl kload_block_count;
  cached ← (if last <? count then
              b ← block_get last;
              mret (if (negb (block_va b =? 0) && in_block pa b)%bool
                    then Some (block_ptr pa b) else None)
            else mret None);
  match cached : option Z with
  | Some p => mret (Some p)
  | None => mloop (frame_va_search_step pa) (0, count - 1)
  end.

Definition co_kload_frame_va (pfn : Z) : D (option Z) :=
  ppfn ← kload_machine_to_pseudo_pfn pfn;
  match ppfn with
  | None => mret None
  | Some ppfn => co_kload_pseudo_frame_va ppfn
  end.

(** *** What the e820 is built from *)

Definition co_kload_range_count : D Z :=
  kl (fun k => if kload_block_count k =? 0 then 0
               else if kload_table_end k <? bytes_of (kload_backed_pages k) then 2 else 1).

(** The three outputs: [*pa], [*usable], [*reserved]. *)
Definition co_kload_range (i : Z) : D (Z * Z * Z) :=
  n ← co_kload_range_count;
  if ((i <? 0) || (n <=? i))%bool then mret (0, 0, 0) else
  kl (fun k => if i =? 0
    then (0, kload_table_start k, u64 (kload_table_end k - kload_table_start k))
    else (kload_table_end k,
          u64 (bytes_of (kload_backed_pages k) - kload_table_end k), 0)).

Definition kload_kva_pa (kva : Z) : D Z :=
  kl (fun k => u64 (kva - CO_ARCH_KERNEL_MAP + kload_phys_base k)).

(** *** Growing RAM *)

(** [while (kload_m2p[slot] != 0) slot = (slot + 1) & mask;] *)
Definition m2p_probe_step (slot : Z) : D (Z + Z) :=
  stored ← m2p_get slot;
  if stored =? 0 then mret (inr slot) else
  mask ← kl kload_m2p_mask_value;
  mret (inl (Z.land (ulong (slot + 1)) mask)).

(** Record page [i] of a new block whose first pseudo PFN is [first]. *)
Definition block_record_page (va first i : Z) : D unit :=
  machine ← gets (fun w => co_os_virt_to_phys (w_os w)
                             (va + ulong (Z.shiftl i CO_ARCH_PAGE_SHIFT)));
  let mfn := Z.shiftr machine CO_ARCH_PAGE_SHIFT in
  mask ← kl kload_m2p_mask_value;
  p2m_set (ulong (first + i)) mfn ;;
  slot ← mloop m2p_probe_step (kload_m2p_hash mask mfn);
  m2p_set slot (ulong (first + i + 1)).

(** Where a block's memory comes from: the caller's section view, or the
    pool. [None] is the early [return NULL]. *)
Definition block_memory (bytes pages : Z) : D (option (Z * Z)) :=
  user_va ← kl kload_user_ram_va;
  if negb (user_va =? 0) then
    backed ← kl kload_backed_pages;
    user_bytes ← kl kload_user_ram_bytes;
    let offset := bytes_of backed in
    if user_bytes <? u64 (offset + bytes) then mret None else
    host (co_os_user_block_map (u64 (user_va + offset)) (ulong bytes))
  else
    va ← host (co_os_alloc_cached_pages (u32 pages));
    mret ((fun va => (va, 0)) <$> va).

(** Returns whether a block was allocated. *)
Definition kload_block_alloc (bytes : Z) : D bool :=
  count ← kl kload_block_count;
  if CO_KLOAD_MAX_BLOCKS <=? count then mret false else
  user_va ← kl kload_user_ram_va;
  let bytes := if (negb (user_va =? 0) && (CO_KLOAD_USER_BLOCK_BYTES <? bytes))%bool
               then CO_KLOAD_USER_BLOCK_BYTES else bytes in
  let pages := ulong (pages_of bytes) in
  capacity ← kl kload_p2m_capacity;
  backed ← kl kload_backed_pages;
  if ((pages =? 0) || (ulong (capacity - backed) <? pages))%bool then mret false else
  m ← block_memory bytes pages;
  match m with
  | None => mret false
  | Some (va, mdl) =>
      modify (upd_mem (fun m => co_memset m va 0 (ulong (Z.shiftl pages CO_ARCH_PAGE_SHIFT)))) ;;
      first ← kl kload_backed_pages;
      mfor (Z.to_nat pages) 0 (block_record_page va first) ;;
      kset (fun k => set_block_count (kload_block_count k + 1) k) ;;
      block_set count (Block va (bytes_of first) (bytes_of pages) mdl) ;;
      kset (fun k => set_backed_pages (ulong (kload_backed_pages k + pages)) k) ;;
      mret true
  end.

(** One turn of the inner [for (;;)]: halve the request until one fits. *)
Definition grow_attempt_step (attempt : Z) : D (Z + bool) :=
  ok ← kload_block_alloc attempt;
  if ok : bool then mret (inr true) else
  if attempt =? CO_ARCH_PAGE_SIZE then mret (inr false) else
  let half := Z.land (Z.shiftr attempt 1) CO_ARCH_PAGE_MASK in
  mret (inl (if half <? CO_ARCH_PAGE_SIZE then CO_ARCH_PAGE_SIZE else half)).

Definition grow_want (have end_ : Z) : Z :=
  let want := u64 (end_ - have) in
  let want := if CO_KLOAD_CHUNK_BYTES <? want then CO_KLOAD_CHUNK_BYTES else want in
  let want := Z.land want CO_ARCH_PAGE_MASK in
  if want =? 0 then CO_ARCH_PAGE_SIZE else want.

Definition grow_step (end_ : Z) (_ : unit) : D (unit + bool) :=
  backed ← kl kload_backed_pages;
  let have := bytes_of backed in
  if negb (have <? end_) then mret (inr true) else
  ok ← mloop grow_attempt_step (grow_want have end_);
  mret (if ok : bool then inl tt else inr false).

Definition kload_grow_to (end_ : Z) : D bool := mloop (grow_step end_) tt.

(** A machine frame taken from the pseudo-physical reserved table range. *)
Definition co_kload_table_frame : D Z :=
  count ← kl kload_block_count;
  fail_if (count =? 0) CO_RC_ERROR ;;
  top ← kl kload_table_top;
  start ← kl kload_table_start;
  fail_if (top <? u64 (start + CO_ARCH_PAGE_SIZE)) CO_RC_OUT_OF_MEMORY ;;
  let top := u64 (top - CO_ARCH_PAGE_SIZE) in
  kset (set_table_top top) ;;
  let ppfn := Z.shiftr top CO_ARCH_PAGE_SHIFT in
  m ← kload_pseudo_to_machine_pfn ppfn;
  match m with
  | None => throw CO_RC_ERROR
  | Some mfn =>
      table ← co_kload_pseudo_frame_va ppfn;
      match table with
      | None => throw CO_RC_ERROR
      | Some table =>
          modify (upd_mem (fun m => co_memset m table 0 CO_ARCH_PAGE_SIZE)) ;;
          mret mfn
      end
  end.

(** *** Host windows *)

(** [while (i-- > 0) kload_p2m[first + i] = 0;] *)
Definition window_rollback_step (first i : Z) : D (Z + unit) :=
  if 0 <? i then p2m_set (ulong (first + (i - 1))) 0 ;; mret (inl (i - 1))
  else mret (inr tt).

(** Fill [count] slots; a zero frame undoes the slots filled so far. *)
Definition window_fill_step (mfns : list Z) (first count i : Z) : D (Z + bool) :=
  if negb (i <? count) then mret (inr true) else
  match mfns !! Z.to_nat i with
  | None => fault
  | Some m =>
      if m =? 0 then mloop (window_rollback_step first) i ;; mret (inr false)
      else p2m_set (ulong (first + i)) m ;; mret (inl (i + 1))
  end.

Definition window_fill (mfns : list Z) (first count : Z) : D bool :=
  mloop (window_fill_step mfns first count) 0.

(** [mfns = None] is the NULL pointer; the result is [*pseudo_out]. *)
Definition co_kload_window_map (mfns : option (list Z)) (count : Z) : D Z :=
  match mfns with
  | None => throw CO_RC_INVALID_PARAMETER
  | Some mfns =>
      fail_if (count =? 0) CO_RC_INVALID_PARAMETER ;;
      p2m ← kl kload_p2m;
      fail_if (bool_decide (p2m = None)) CO_RC_ERROR ;;
      next ← kl kload_window_next;
      base ← kl kload_window_base_pages;
      fail_if ((next <? count) || (ulong (next - count) <? base))%bool
        CO_RC_OUT_OF_MEMORY ;;
      let first := ulong (next - count) in
      ok ← window_fill mfns first count;
      fail_if (negb ok) CO_RC_INVALID_PARAMETER ;;
      kset (set_window_next first) ;;
      mret (bytes_of first)
  end.

(** The scan for an occupied slot, before anything is written. *)
Definition window_vacant_step (first count i : Z) : D (Z + bool) :=
  if negb (i <? count) then mret (inr true) else
  m ← p2m_get (ulong (first + i));
  if negb (m =? 0) then mret (inr false) else mret (inl (i + 1)).

Definition co_kload_window_map_at (mfns : option (list Z)) (count pseudo : Z) : D unit :=
  let first := ulong (Z.shiftr pseudo CO_ARCH_PAGE_SHIFT) in
  match mfns with
  | None => throw CO_RC_INVALID_PARAMETER
  | Some mfns =>
      fail_if ((count =? 0) || negb (Z.land pseudo (CO_ARCH_PAGE_SIZE - 1) =? 0))%bool
        CO_RC_INVALID_PARAMETER ;;
      p2m ← kl kload_p2m;
      fail_if (bool_decide (p2m = None)) CO_RC_ERROR ;;
      base ← kl kload_window_base_pages;
      capacity ← kl kload_p2m_capacity;
      fail_if ((first <? base) || (ulong (capacity - first) <? count))%bool
        CO_RC_INVALID_PARAMETER ;;
      vacant ← mloop (window_vacant_step first count) 0;
      fail_if (negb vacant) CO_RC_OUT_OF_MEMORY ;;
      ok ← window_fill mfns first count;
      fail_if (negb ok) CO_RC_INVALID_PARAMETER
  end.

Definition window_clear_step (first count i : Z) : D (Z + unit) :=
  if negb (i <? count) then mret (inr tt) else
  p2m_set (ulong (first + i)) 0 ;; mret (inl (i + 1)).

Definition co_kload_window_unmap (pseudo count : Z) : D unit :=
  let first := ulong (Z.shiftr pseudo CO_ARCH_PAGE_SHIFT) in
  if count =? 0 then mret tt else
  p2m ← kl kload_p2m;
  base ← kl kload_window_base_pages;
  capacity ← kl kload_p2m_capacity;
  if (bool_decide (p2m = None) || (first <? base) || (ulong (capacity - first) <? count))%bool
  then mret tt else
  mloop (window_clear_step first count) 0 ;;
  next ← kl kload_window_next;
  if first =? next then kset (set_window_next (ulong (next + count))) else mret tt.

Definition co_kload_window_bounds : D (Z * Z) :=
  kl (fun k => (bytes_of (kload_window_base_pages k), bytes_of (kload_p2m_capacity k))).

Definition co_kload_p2m_pages : D Z := kl kload_p2m_capacity.
Definition co_kload_m2p_mask : D Z := kl kload_m2p_mask_value.

(** *** The translation tables *)

Definition m2p_slots_step (wanted : Z) (_ : unit) : D (unit + bool) :=
  slots ← kl kload_m2p_slots;
  if negb (slots <? wanted) then mret (inr true) else
  if Z.shiftr (2 ^ 32 - 1) 1 <? slots then mret (inr false) else
  kset (set_m2p_slots (ulong (Z.shiftl slots 1))) ;; mret (inl tt).

Definition kload_translation_alloc (capacity_pages : Z) : D unit :=
  fail_if (capacity_pages =? 0) CO_RC_INVALID_PARAMETER ;;
  let wanted_slots := u64 (capacity_pages + u64 (capacity_pages + 1) / 2) in
  fail_if (2 ^ 32 - 1 <? wanted_slots) CO_RC_INVALID_PARAMETER ;;
  kset (set_m2p_slots 1) ;;
  ok ← mloop (m2p_slots_step wanted_slots) tt;
  fail_if (negb ok) CO_RC_INVALID_PARAMETER ;;
  slots ← kl kload_m2p_slots;
  kset (set_m2p_mask_value (ulong (slots - 1))) ;;
  let p2m_bytes := u64 (capacity_pages * p2m_cell_bytes) in
  let m2p_bytes := u64 (slots * m2p_cell_bytes) in
  (if ((CO_KLOAD_TRANSLATION_WINDOW_BYTES <? p2m_bytes)
       || (CO_KLOAD_TRANSLATION_WINDOW_BYTES <? m2p_bytes))%bool
   then kset (set_m2p_slots 0) ;; kset (set_m2p_mask_value 0) ;;
        throw CO_RC_INVALID_PARAMETER
   else mret tt) ;;
  let p2m_alloc := pages_of (u64 (p2m_bytes + CO_ARCH_PAGE_SIZE - 1)) in
  fail_if (2 ^ 32 - 1 <? p2m_alloc) CO_RC_INVALID_PARAMETER ;;
  kset (set_p2m_alloc_pages (u32 p2m_alloc)) ;;
  let m2p_alloc := pages_of (u64 (m2p_bytes + CO_ARCH_PAGE_SIZE - 1)) in
  fail_if (2 ^ 32 - 1 <? m2p_alloc) CO_RC_INVALID_PARAMETER ;;
  kset (set_m2p_alloc_pages (u32 m2p_alloc)) ;;
  p2m ← host (co_os_alloc_cached_pages (u32 p2m_alloc));
  match p2m with
  | None =>
      kset (set_p2m None) ;; kset (set_m2p_slots 0) ;; kset (set_m2p_mask_value 0) ;;
      throw CO_RC_OUT_OF_MEMORY
  | Some p2m_va =>
      kset (set_p2m (Some (PoolArray p2m_va ∅))) ;;
      m2p ← host (co_os_alloc_cached_pages (u32 m2p_alloc));
      match m2p with
      | None =>
          host_do (co_os_free_cached_pages p2m_va (u32 p2m_alloc)) ;;
          kset (set_m2p None) ;;
          kset (set_p2m None) ;; kset (set_p2m_alloc_pages 0) ;;
          kset (set_m2p_slots 0) ;; kset (set_m2p_mask_value 0) ;;
          throw CO_RC_OUT_OF_MEMORY
      | Some m2p_va =>
          kset (set_m2p (Some (PoolArray m2p_va ∅))) ;;
          kset (set_p2m_capacity capacity_pages) ;;
          kset (set_window_next capacity_pages)
      end
  end.
End frames.

(** ** The reverse hash, on its own

    The table is open-addressed with linear probing. [m2p_ok] says what it
    means for it to index the first [n] entries of the p2m: every one of them
    is stored at some distance from its hash with no empty slot before it. *)

Section reverse_hash.
Context (slots : Z) (sh : Z) (Hsh : 0 <= sh < 32) (Hslots : slots = 2 ^ sh).

Abbreviation hash := (kload_m2p_hash (slots - 1)).

Definition probe (mfn d : Z) : Z := (hash mfn + d) mod slots.

Record m2p_ok (p2m m2p : gmap Z Z) (n : Z) : Prop := {
  mo_n : 0 <= n < slots;
  mo_inj i j : 0 <= i < n -> 0 <= j < n -> arr_get p2m i = arr_get p2m j -> i = j;
  mo_stored i : 0 <= i < n -> exists d, 0 <= d < slots /\
    arr_get m2p (probe (arr_get p2m i) d) = i + 1 /\
    forall d', 0 <= d' < d -> arr_get m2p (probe (arr_get p2m i) d') <> 0;
  mo_values s : 0 <= arr_get m2p s <= n;
  mo_size : Z.of_nat (size m2p) <= n;
}.

Lemma slots_pos : 0 < slots < 2 ^ 32.
Proof using Hsh Hslots.
  subst slots. split; [apply Z.pow_pos_nonneg; lia|].
  apply Z.pow_lt_mono_r; lia.
Qed.

Lemma mask_slots x : Z.land x (slots - 1) = x mod slots.
Proof using Hsh Hslots. subst slots. apply land_mask. lia. Qed.

Lemma hash_range mfn : 0 <= hash mfn < slots.
Proof using Hsh Hslots.
  pose proof slots_pos. unfold kload_m2p_hash. rewrite mask_slots.
  pose proof (Z.mod_pos_bound (u64 (mfn * 11400714819323198485)) slots).
  unfold ulong. rewrite u32_small by lia. lia.
Qed.

Lemma probe_range mfn d : 0 <= probe mfn d < slots.
Proof using Hsh Hslots. apply Z.mod_pos_bound. apply slots_pos. Qed.

Lemma probe_0 mfn : probe mfn 0 = hash mfn.
Proof using Hsh Hslots.
  unfold probe. rewrite Z.add_0_r. apply Z.mod_small, hash_range.
Qed.

(** The code's step: [(slot + 1) & mask]. *)
Lemma probe_next mfn d : Z.land (ulong (probe mfn d + 1)) (slots - 1) = probe mfn (d + 1).
Proof using Hsh Hslots.
  pose proof (probe_range mfn d). pose proof slots_pos.
  unfold ulong. rewrite u32_small by lia. rewrite mask_slots. unfold probe.
  rewrite Zplus_mod_idemp_l. f_equal. lia.
Qed.

Lemma probe_reaches mfn s : 0 <= s < slots -> exists d, 0 <= d < slots /\ probe mfn d = s.
Proof using Hsh Hslots.
  intros Hs. pose proof slots_pos. exists ((s - hash mfn) mod slots). split.
  - apply Z.mod_pos_bound. lia.
  - unfold probe. rewrite Zplus_mod_idemp_r.
    replace (hash mfn + (s - hash mfn)) with s by lia. by apply Z.mod_small.
Qed.

(** The distance is recovered from the slot. *)
Lemma probe_dist mfn d : 0 <= d < slots -> (probe mfn d - hash mfn) mod slots = d.
Proof using Hsh Hslots.
  intros Hd. unfold probe. rewrite Zminus_mod_idemp_l.
  replace (hash mfn + d - hash mfn) with d by lia. by apply Z.mod_small.
Qed.

(** Fewer entries than slots leave a slot empty. *)
Lemma empty_slot p2m m2p n :
  m2p_ok p2m m2p n -> exists s, 0 <= s < slots /\ arr_get m2p s = 0.
Proof using Hsh Hslots.
  pose proof slots_pos. intros [Hn _ _ _ Hsz].
  destruct (decide (Exists (fun s => arr_get m2p s = 0) (seqZ 0 slots))) as [He|Hne].
  - apply Exists_exists in He as (s & Hs & Hz). apply elem_of_seqZ in Hs.
    exists s. split; [lia|done].
  - exfalso. assert (list_to_set (seqZ 0 slots) ⊆ dom m2p) as Hsub.
    { intros s Hs. apply elem_of_list_to_set in Hs. apply elem_of_dom.
      destruct (m2p !! s) as [v|] eqn:Hv; [done|]. destruct Hne.
      apply Exists_exists. exists s. split; [done|].
      unfold arr_get. by rewrite Hv. }
    apply subseteq_size in Hsub. rewrite size_dom, size_list_to_set, length_seqZ in Hsub.
    + lia.
    + apply NoDup_seqZ.
Qed.

Lemma m2p_ok_ext p2m p2m' m2p n :
  m2p_ok p2m m2p n -> (forall i, 0 <= i < n -> arr_get p2m' i = arr_get p2m i) ->
  m2p_ok p2m' m2p n.
Proof using Hsh Hslots.
  intros [Hn Hi Hs Hv Hz] He. split; [done| | |done|done].
  - intros i j Hir Hjr. rewrite !He by done. by apply Hi.
  - intros i Hir. rewrite He by done. by apply Hs.
Qed.

(** Storing entry [n] in the first empty slot of its probe sequence. *)
Lemma m2p_insert p2m m2p n mfn d :
  m2p_ok p2m m2p n -> n + 1 < slots -> 0 <= d < slots ->
  (forall i, 0 <= i < n -> arr_get p2m i <> mfn) ->
  arr_get m2p (probe mfn d) = 0 ->
  (forall d', 0 <= d' < d -> arr_get m2p (probe mfn d') <> 0) ->
  m2p_ok (arr_set p2m n mfn) (arr_set m2p (probe mfn d) (n + 1)) (n + 1).
Proof using Hsh Hslots.
  intros [Hn Hi Hs Hv Hz] Hlt Hd Hfresh Hempty Hbefore.
  assert (forall i, 0 <= i < n -> arr_get (arr_set p2m n mfn) i = arr_get p2m i) as Hold.
  { intros i Hir. apply arr_get_set_ne. lia. }
  split; [lia| | | |].
  - intros i j Hir Hjr He.
    destruct (decide (i = n)) as [->|], (decide (j = n)) as [->|]; [done|..].
    + rewrite arr_get_set_eq, Hold in He by lia. by destruct (Hfresh j ltac:(lia)).
    + rewrite arr_get_set_eq, Hold in He by lia. by destruct (Hfresh i ltac:(lia)).
    + rewrite !Hold in He by lia. apply Hi; [lia|lia|done].
  - intros i Hir. destruct (decide (i = n)) as [->|].
    + rewrite arr_get_set_eq. exists d. split; [done|]. split; [by rewrite arr_get_set_eq|].
      intros d' Hd'. specialize (Hbefore d' Hd').
      rewrite arr_get_set_ne; [done|]. congruence.
    + rewrite Hold by lia. destruct (Hs i ltac:(lia)) as (e & He & Hst & Hb).
      exists e. split; [done|].
      assert (forall s, arr_get m2p s <> 0 -> probe mfn d <> s) as Hne by congruence.
      split; [rewrite arr_get_set_ne by (apply Hne; lia); done|].
      intros d' Hd'. rewrite arr_get_set_ne by (apply Hne; by apply Hb). by apply Hb.
  - intros s. rewrite arr_get_set. case_decide; [lia|]. specialize (Hv s). lia.
  - unfold arr_set. rewrite map_size_insert.
    destruct (m2p !! probe mfn d); simpl; lia.
Qed.
End reverse_hash.
