(* ===== verification/FramesOk.v ===== *)
(** The invariant of FragRAM and the functional behaviour of its operations.

    [frames_ok] says what the statics of [kernel/kload.c] mean between two
    operations: the blocks tile pseudo memory from zero, the p2m holds the
    machine frame of every backed page, and the hash finds each of them. The
    lemmas give each operation of [Frames] its behaviour under the invariant. *)
From S2P Require Import Prelude.
From S2P Require Import Rc.
From S2P Require Import Mem.
From S2P Require Import Mmu.
From S2P Require Import Space.
From S2P Require Import Host.
From S2P Require Import Frames.

Definition cells_of (a : option pool_array) : gmap Z Z := from_option cells ∅ a.

(** Entry [i] of the p2m, slot [i] of the hash, block [i]. *)
Definition p2m_at (k : kload_statics) (i : Z) : Z := arr_get (cells_of (kload_p2m k)) i.
Definition block_at (k : kload_statics) (i : Z) : co_kload_block_t :=
  default null_block (kload_block k !! i).

(** First pseudo page after block [i - 1]. *)
Definition block_page (k : kload_statics) (i : Z) : Z :=
  pseudo_base (block_at k i) / CO_ARCH_PAGE_SIZE.
Definition block_pages (b : co_kload_block_t) : Z := block_bytes b / CO_ARCH_PAGE_SIZE.

(** A block: whole pages at a page-aligned address. *)
Record block_ok (b : co_kload_block_t) : Prop := {
  bo_va : block_va b mod CO_ARCH_PAGE_SIZE = 0 /\ 0 < block_va b;
  bo_base : pseudo_base b mod CO_ARCH_PAGE_SIZE = 0 /\ 0 <= pseudo_base b;
  bo_bytes : block_bytes b mod CO_ARCH_PAGE_SIZE = 0 /\
             0 < block_bytes b <= CO_KLOAD_CHUNK_BYTES;
}.

(** The blocks [0 .. count) tile [0, top). *)
Record tiles (k : kload_statics) (count top : Z) : Prop := {
  ti_ok i : 0 <= i < count -> block_ok (block_at k i);
  ti_first : 0 < count -> pseudo_base (block_at k 0) = 0;
  ti_next i : 0 <= i -> i + 1 < count ->
    pseudo_base (block_at k (i + 1)) = pseudo_base (block_at k i) + block_bytes (block_at k i);
  ti_top : top = if decide (count = 0) then 0
                 else pseudo_base (block_at k (count - 1)) + block_bytes (block_at k (count - 1));
}.

Section frames_ok.
Context {OS : Type} `{HostLaws OS}.
Implicit Types (o : OS) (k : kload_statics) (w : world OS).

(** The translation tables are allocated and large enough. *)
Record tables_ok k : Prop := {
  to_p2m : is_Some (kload_p2m k);
  to_m2p : is_Some (kload_m2p k);
  to_cap : 0 < kload_p2m_capacity k <= kload_p2m_alloc_pages k * 512;
  to_slots : exists sh, 0 <= sh < 32 /\ kload_m2p_slots k = 2 ^ sh;
  to_alloc : kload_m2p_slots k <= kload_m2p_alloc_pages k * 1024;
  to_mask : kload_m2p_mask_value k = kload_m2p_slots k - 1;
  to_room : kload_p2m_capacity k < kload_m2p_slots k;
}.

Definition hash_ok k n : Prop :=
  m2p_ok (kload_m2p_slots k) (cells_of (kload_p2m k)) (cells_of (kload_m2p k)) n.

(** Page [j] of block [i] lies on the frame the p2m names for it. *)
Definition backing_ok o k count : Prop := forall i j,
  0 <= i < count -> 0 <= j < block_pages (block_at k i) ->
  os_frames o !! (block_va (block_at k i) / CO_ARCH_PAGE_SIZE + j)
    = Some (p2m_at k (block_page k i + j)) /\
  0 < p2m_at k (block_page k i + j) < 2 ^ 40.

Record frames_ok o k : Prop := {
  fo_os : os_ok o;
  fo_tables : tables_ok k;
  fo_backed : 0 <= kload_backed_pages k <= kload_p2m_capacity k;
  fo_count : 0 <= kload_block_count k <= CO_KLOAD_MAX_BLOCKS;
  fo_hit : 0 <= kload_last_hit k < CO_KLOAD_MAX_BLOCKS;
  fo_tiles : tiles k (kload_block_count k) (kload_backed_pages k * CO_ARCH_PAGE_SIZE);
  fo_hash : hash_ok k (kload_backed_pages k);
  fo_backing : backing_ok o k (kload_block_count k);
}.

(** *** Bounds that follow *)

Lemma slots_bound k : tables_ok k -> 0 < kload_p2m_capacity k < 2 ^ 31 /\
  kload_m2p_slots k <= 2 ^ 31.
Proof using.
  intros [_ _ Hc (sh & Hsh & Hs) _ _ Hr].
  assert (kload_m2p_slots k <= 2 ^ 31) by (rewrite Hs; apply Z.pow_le_mono_r; lia).
  lia.
Qed.

Lemma bytes_of_small n : 0 <= n < 2 ^ 32 -> bytes_of n = n * CO_ARCH_PAGE_SIZE.
Proof using.
  intros Hn. unfold bytes_of. rewrite Z.shiftl_mul_pow2 by done.
  change CO_ARCH_PAGE_SIZE with (2 ^ 12). change CO_ARCH_PAGE_SHIFT with 12.
  apply u64_small. lia.
Qed.

(** Two blocks of a tiling are apart, the earlier below the later. *)
Lemma tiles_mono k count top i j :
  tiles k count top -> 0 <= i < j -> j < count ->
  pseudo_base (block_at k i) + block_bytes (block_at k i) <= pseudo_base (block_at k j).
Proof using.
  intros Ht [Hi Hij] Hj.
  assert (exists n, j = i + 1 + Z.of_nat n) as [n ->].
  { exists (Z.to_nat (j - i - 1)). lia. }
  clear Hij. induction n as [|n IH].
  - rewrite Z.add_0_r, (ti_next _ _ _ Ht i) by lia. lia.
  - specialize (IH ltac:(lia)).
    replace (i + 1 + Z.of_nat (S n)) with (i + 1 + Z.of_nat n + 1) by lia.
    rewrite (ti_next _ _ _ Ht (i + 1 + Z.of_nat n)) by lia.
    destruct (bo_bytes _ (ti_ok _ _ _ Ht (i + 1 + Z.of_nat n) ltac:(lia))). lia.
Qed.

Lemma tiles_top k count top i :
  tiles k count top -> 0 <= i < count ->
  pseudo_base (block_at k i) + block_bytes (block_at k i) <= top.
Proof using.
  intros Ht Hi. rewrite (ti_top _ _ _ Ht), decide_False by lia.
  destruct (decide (i = count - 1)) as [->|]; [lia|].
  pose proof (tiles_mono _ _ _ i (count - 1) Ht ltac:(lia) ltac:(lia)).
  destruct (bo_bytes _ (ti_ok _ _ _ Ht (count - 1) ltac:(lia))). lia.
Qed.

(** Every address below the top lies in a block. *)
Lemma tiles_cover k count top a :
  tiles k count top -> 0 <= count -> 0 <= a < top ->
  exists i, 0 <= i < count /\ pseudo_base (block_at k i) <= a <
            pseudo_base (block_at k i) + block_bytes (block_at k i).
Proof using.
  intros Ht Hc Ha. pose proof (ti_top _ _ _ Ht) as Htop. case_decide; [lia|].
  assert (forall n : nat, Z.of_nat n < count ->
    a < pseudo_base (block_at k (Z.of_nat n)) + block_bytes (block_at k (Z.of_nat n)) ->
    exists i, 0 <= i < count /\ pseudo_base (block_at k i) <= a <
            pseudo_base (block_at k i) + block_bytes (block_at k i)) as Hn.
  { induction n as [|n IH]; intros Hlt Hup.
    - exists 0. rewrite (ti_first _ _ _ Ht) in * by lia. change (Z.of_nat 0) with 0 in Hup.
      rewrite (ti_first _ _ _ Ht) in Hup by lia. lia.
    - destruct (decide (pseudo_base (block_at k (Z.of_nat (S n))) <= a)).
      + exists (Z.of_nat (S n)). lia.
      + apply IH; [lia|]. replace (Z.of_nat (S n)) with (Z.of_nat n + 1) in * by lia.
        rewrite (ti_next _ _ _ Ht) in n0 by lia. lia. }
  apply (Hn (Z.to_nat (count - 1))); rewrite Z2Nat.id by lia; lia.
Qed.

(** The same in pages: page [p] is page [j] of block [i]. *)
Lemma tiles_page k count n p :
  tiles k count (n * CO_ARCH_PAGE_SIZE) -> 0 <= count -> 0 <= p < n ->
  exists i j, 0 <= i < count /\ 0 <= j < block_pages (block_at k i) /\
              p = block_page k i + j.
Proof using.
  intros Ht Hc Hp.
  destruct (tiles_cover _ _ _ (p * CO_ARCH_PAGE_SIZE) Ht Hc) as (i & Hi & Hin).
  { change CO_ARCH_PAGE_SIZE with 4096 in *. lia. }
  exists i, (p - block_page k i). split; [done|]. split; [|lia].
  destruct (ti_ok _ _ _ Ht i Hi) as [_ [Hb _] [Hz _]].
  unfold block_page, block_pages. change CO_ARCH_PAGE_SIZE with 4096 in *.
  Z.div_mod_to_equations. lia.
Qed.

(** *** Array accesses *)

Lemma wp_p2m_get k w i (Q : Z -> world OS -> Prop) E :
  w_kl w = k -> tables_ok k -> 0 <= i < kload_p2m_alloc_pages k * 512 ->
  Q (p2m_at k i) w -> wp (p2m_get i) Q E w.
Proof using.
  intros <- [[a Ha] _ _ _ _ _ _] Hi HQ. unfold p2m_get, kl.
  do 2 (wp_step; apply wp_gets). unfold p2m_at in HQ. rewrite Ha in *.
  wp_step. apply wp_in_bounds; [|by apply wp_ret].
  apply andb_true_iff. rewrite Z.leb_le, Z.ltb_lt.
  change CO_ARCH_PAGE_SIZE with (512 * 8). change p2m_cell_bytes with 8.
  rewrite Z.mul_assoc, Z.div_mul by done. lia.
Qed.

Definition put_p2m (i v : Z) k : kload_statics :=
  set_p2m ((fun a => PoolArray (array_va a) (arr_set (cells a) i v)) <$> kload_p2m k) k.

Lemma wp_p2m_set k w i v (Q : unit -> world OS -> Prop) E :
  w_kl w = k -> tables_ok k -> 0 <= i < kload_p2m_alloc_pages k * 512 ->
  Q tt (set_kl (put_p2m i v k) w) -> wp (p2m_set i v) Q E w.
Proof using.
  intros <- [[a Ha] _ _ _ _ _ _] Hi HQ. unfold p2m_set, kset, kl.
  do 2 (wp_step; apply wp_gets). unfold put_p2m in HQ. rewrite Ha in *.
  wp_step. apply wp_in_bounds; [|by apply wp_modify].
  apply andb_true_iff. rewrite Z.leb_le, Z.ltb_lt.
  change CO_ARCH_PAGE_SIZE with (512 * 8). change p2m_cell_bytes with 8.
  rewrite Z.mul_assoc, Z.div_mul by done. lia.
Qed.

Lemma wp_m2p_get k w i (Q : Z -> world OS -> Prop) E :
  w_kl w = k -> tables_ok k -> 0 <= i < kload_m2p_slots k ->
  Q (arr_get (cells_of (kload_m2p k)) i) w -> wp (m2p_get i) Q E w.
Proof using.
  intros <- [_ [a Ha] _ _ Hm _ _] Hi HQ. unfold m2p_get, kl.
  do 2 (wp_step; apply wp_gets). rewrite Ha in *.
  wp_step. apply wp_in_bounds; [|by apply wp_ret].
  apply andb_true_iff. rewrite Z.leb_le, Z.ltb_lt.
  change CO_ARCH_PAGE_SIZE with (1024 * 4). change m2p_cell_bytes with 4.
  rewrite Z.mul_assoc, Z.div_mul by done. lia.
Qed.

Definition put_m2p (i v : Z) k : kload_statics :=
  set_m2p ((fun a => PoolArray (array_va a) (arr_set (cells a) i (u32 v))) <$> kload_m2p k) k.

Lemma wp_m2p_set k w i v (Q : unit -> world OS -> Prop) E :
  w_kl w = k -> tables_ok k -> 0 <= i < kload_m2p_slots k ->
  Q tt (set_kl (put_m2p i v k) w) -> wp (m2p_set i v) Q E w.
Proof using.
  intros <- [_ [a Ha] _ _ Hm _ _] Hi HQ. unfold m2p_set, kset, kl.
  do 2 (wp_step; apply wp_gets). unfold put_m2p in HQ. rewrite Ha in *.
  wp_step. apply wp_in_bounds; [|by apply wp_modify].
  apply andb_true_iff. rewrite Z.leb_le, Z.ltb_lt.
  change CO_ARCH_PAGE_SIZE with (1024 * 4). change m2p_cell_bytes with 4.
  rewrite Z.mul_assoc, Z.div_mul by done. lia.
Qed.

Lemma wp_block_get w i (Q : co_kload_block_t -> world OS -> Prop) E :
  0 <= i < CO_KLOAD_MAX_BLOCKS -> Q (block_at (w_kl w) i) w -> wp (block_get i) Q E w.
Proof using.
  intros Hi HQ. unfold block_get, kl. wp_step. apply wp_in_bounds; [|by apply wp_gets].
  apply andb_true_iff. rewrite Z.leb_le, Z.ltb_lt. lia.
Qed.

(** *** The reverse map answers exactly *)

Lemma wp_machine_to_pseudo w mfn (E : co_rc_value_t -> world OS -> Prop) :
  tables_ok (w_kl w) -> 0 <= kload_backed_pages (w_kl w) <= kload_p2m_capacity (w_kl w) ->
  hash_ok (w_kl w) (kload_backed_pages (w_kl w)) ->
  wp (kload_machine_to_pseudo_pfn mfn)
    (fun r w' => w' = w /\ match r with
       | Some p => 0 <= p < kload_backed_pages (w_kl w) /\ p2m_at (w_kl w) p = mfn
       | None => forall p, 0 <= p < kload_backed_pages (w_kl w) -> p2m_at (w_kl w) p <> mfn
       end) E w.
Proof using.
  intros Ht Hb Hh. set (k := w_kl w) in *.
  pose proof (slots_bound k Ht) as [Hcap Hsl].
  destruct (to_slots _ Ht) as (sh & Hsh & Hs2).
  pose proof (slots_pos _ sh Hsh Hs2) as Hpos.
  pose proof (to_mask _ Ht) as Hmask. pose proof (to_cap _ Ht) as Hc.
  destruct (to_m2p _ Ht) as [a Ha].
  unfold kload_machine_to_pseudo_pfn, kl. do 2 (wp_step; apply wp_gets).
  fold k. rewrite Ha. rewrite (proj2 (Z.eqb_neq _ 0)) by lia.
  wp_step. apply wp_gets. fold k. rewrite Hmask.
  set (slots := kload_m2p_slots k) in *. set (m2p := cells_of (kload_m2p k)).
  apply (wp_mloop _ (fun st w' => w' = w /\ 0 <= st.2 <= slots /\
      st.1 = probe slots mfn st.2 /\
      forall d, 0 <= d < st.2 -> arr_get m2p (probe slots mfn d) <> 0 /\
        p2m_at k (arr_get m2p (probe slots mfn d) - 1) <> mfn)
    (fun st _ => slots - st.2)).
  - intros [slot probes] w' (-> & Hp & Hslot & Hvis). cbn [fst snd] in *. subst slot.
    unfold machine_to_pseudo_step, kl. wp_step. apply wp_gets. fold k slots.
    wp_step; [wp_step|].
    { (* every slot probed *)
      split; [done|]. intros p Hpr He.
      destruct (mo_stored _ _ _ _ Hh p Hpr) as (d & Hd & Hst & _).
      fold (p2m_at k p) in Hst. rewrite He in Hst.
      destruct (Hvis d ltac:(lia)) as [_ Hne]. apply Hne. fold slots m2p in Hst.
      rewrite Hst. by replace (p + 1 - 1) with p by lia. }
    pose proof (probe_range slots sh Hsh Hs2 mfn probes) as Hpr.
    wp_step. apply (wp_m2p_get k); [done|done|by fold slots|]. fold m2p.
    wp_step; [wp_step|].
    { (* an empty slot *)
      split; [done|]. intros p Hpb He.
      destruct (mo_stored _ _ _ _ Hh p Hpb) as (d & Hd & Hst & Hbef).
      fold (p2m_at k p) in Hst, Hbef. rewrite He in Hst, Hbef. fold slots m2p in Hst, Hbef.
      destruct (decide (d < probes)) as [Hlt|].
      - destruct (Hvis d ltac:(lia)) as [_ Hne]. apply Hne. rewrite Hst.
        by replace (p + 1 - 1) with p by lia.
      - destruct (decide (d = probes)) as [->|]; [lia|].
        apply (Hbef probes); [lia|done]. }
    wp_step. apply wp_gets. fold k.
    pose proof (mo_values _ _ _ _ Hh (probe slots mfn probes)) as Hval. fold m2p in Hval.
    set (stored := arr_get m2p (probe slots mfn probes)) in *.
    rewrite (proj2 (Z.ltb_lt _ _)) by lia.
    wp_step. wp_step. apply (wp_p2m_get k); [done|done|lia|]. wp_step.
    wp_step; [wp_step|].
    { split; [done|]. split; [lia|done]. }
    wp_step. apply wp_gets, wp_ret. fold k. rewrite Hmask.
    assert (ulong (probes + 1) = probes + 1) as Hu by (apply u32_small; lia).
    rewrite Hu. cbn [fst snd].
    split_and!; [done|lia|lia|by apply (probe_next _ sh)| |lia|lia].
    intros d Hd. destruct (decide (d = probes)) as [->|]; [done|apply Hvis; lia].
  - split_and!; cbn [fst snd]; [done|lia|lia|by rewrite (probe_0 _ sh)|intros; lia].
  - cbn [snd]. lia.
Qed.

(** *** From a frame to a pointer *)

(** Where pseudo page [p] is mapped in the kernel. *)
Definition page_va k p (a : Z) : Prop := exists i j,
  0 <= i < kload_block_count k /\ 0 <= j < block_pages (block_at k i) /\
  p = block_page k i + j /\ a = block_va (block_at k i) + j * CO_ARCH_PAGE_SIZE.

Definition frame_va_answer k p (r : option Z) : Prop :=
  match r with
  | Some a => 0 <= p < kload_backed_pages k /\ page_va k p a
  | None => kload_backed_pages k <= p
  end.

(** What a successful test against block [i] yields. *)
Lemma in_block_page o k i p :
  frames_ok o k -> 0 <= i < kload_block_count k -> 0 <= p < kload_backed_pages k ->
  pseudo_base (block_at k i) <= p * CO_ARCH_PAGE_SIZE <
    pseudo_base (block_at k i) + block_bytes (block_at k i) ->
  frame_va_answer k p (Some (block_ptr (p * CO_ARCH_PAGE_SIZE) (block_at k i))).
Proof using.
  intros Hok Hi Hp Hin. split; [done|].
  destruct (ti_ok _ _ _ (fo_tiles _ _ Hok) i Hi) as [_ [Hb Hb0] [Hz Hz1]].
  exists i, (p - block_page k i). unfold block_page, block_pages, block_ptr, ulong.
  change CO_KLOAD_CHUNK_BYTES with (2 ^ 25) in *.
  rewrite u32_small by lia. change CO_ARCH_PAGE_SIZE with 4096 in *.
  Z.div_mod_to_equations. lia.
Qed.

Lemma block_end_small o k i :
  frames_ok o k -> 0 <= i < kload_block_count k ->
  u64 (pseudo_base (block_at k i) + block_bytes (block_at k i))
    = pseudo_base (block_at k i) + block_bytes (block_at k i).
Proof using.
  intros Hok Hi. pose proof (tiles_top _ _ _ i (fo_tiles _ _ Hok) Hi).
  pose proof (fo_backed _ _ Hok). pose proof (slots_bound k (fo_tables _ _ Hok)).
  destruct (ti_ok _ _ _ (fo_tiles _ _ Hok) i Hi) as [_ [_ Hb0] [_ Hz1]].
  apply u64_small. change CO_ARCH_PAGE_SIZE with 4096 in *. lia.
Qed.

Lemma page_bytes o k p :
  frames_ok o k -> 0 <= p < kload_backed_pages k -> bytes_of p = p * CO_ARCH_PAGE_SIZE.
Proof using.
  intros Hok Hp. pose proof (fo_backed _ _ Hok).
  pose proof (slots_bound k (fo_tables _ _ Hok)). apply bytes_of_small. lia.
Qed.

(** Only the cache changes. *)
Definition hit_moved w w' : Prop :=
  exists h, 0 <= h < CO_KLOAD_MAX_BLOCKS /\ w' = upd_kl (set_last_hit h) w.

Lemma hit_moved_refl w : frames_ok (w_os w) (w_kl w) -> hit_moved w w.
Proof using.
  intros Hok. exists (kload_last_hit (w_kl w)). split; [apply Hok|].
  destruct w as [m o k]; by destruct k.
Qed.

Lemma frames_ok_hit o k h :
  frames_ok o k -> 0 <= h < CO_KLOAD_MAX_BLOCKS -> frames_ok o (set_last_hit h k).
Proof using.
  intros [? Ht ? ? ? Hti ? ?] Hh. split; try done.
  - by destruct Ht; split.
  - by destruct Hti; split.
Qed.

Lemma wp_pseudo_frame_va w p (E : co_rc_value_t -> world OS -> Prop) :
  frames_ok (w_os w) (w_kl w) -> 0 <= p ->
  wp (co_kload_pseudo_frame_va p)
    (fun r w' => frame_va_answer (w_kl w) p r /\ hit_moved w w') E w.
Proof using.
  intros Hok Hp0. set (k := w_kl w) in *. pose proof (hit_moved_refl w Hok) as Hrefl.
  unfold co_kload_pseudo_frame_va, kl. wp_step. apply wp_gets. fold k.
  wp_step; [by apply wp_ret|].
  assert (0 <= p < kload_backed_pages k) as Hp by lia.
  rewrite (page_bytes _ _ _ Hok Hp).
  pose proof (fo_count _ _ Hok) as Hcnt. pose proof (fo_hit _ _ Hok) as Hhit.
  destruct (tiles_page _ _ _ p (fo_tiles _ _ Hok) (proj1 Hcnt) Hp)
    as (i & j & Hi & Hj & Hpij).
  assert (pseudo_base (block_at k i) <= p * CO_ARCH_PAGE_SIZE <
    pseudo_base (block_at k i) + block_bytes (block_at k i)) as Hin.
  { destruct (ti_ok _ _ _ (fo_tiles _ _ Hok) i Hi) as [_ [Hb Hb0] [Hz Hz1]].
    unfold block_page, block_pages in *. change CO_ARCH_PAGE_SIZE with 4096 in *.
    Z.div_mod_to_equations. lia. }
  do 2 (wp_step; apply wp_gets). fold k. wp_step.
  assert (wp (mloop (frame_va_search_step (p * CO_ARCH_PAGE_SIZE)) (0, kload_block_count k - 1))
    (fun r w' => frame_va_answer k p r /\ hit_moved w w') E w) as Hsearch.
  { apply (wp_mloop _ (fun st w' => w' = w /\ 0 <= st.1 <= i /\ i <= st.2 < kload_block_count k)
      (fun st _ => st.2 - st.1)).
    - intros [lo hi] w' (-> & Hlo & Hhi). cbn [fst snd] in *.
      unfold frame_va_search_step. rewrite (proj2 (Z.leb_le _ _)) by lia. cbn [negb].
      rewrite Z.quot_div_nonneg by lia. set (mid := lo + (hi - lo) / 2).
      assert (lo <= mid <= hi) as Hmid by (subst mid; Z.div_mod_to_equations; lia).
      wp_step. apply wp_block_get; [change CO_KLOAD_MAX_BLOCKS with 16384 in *; lia|].
      fold k. rewrite (block_end_small _ _ _ Hok) by lia. wp_step; [wp_step|].
      + enough (i < mid) by (cbn; split_and!; [done|lia..]).
        destruct (decide (mid <= i)); [|lia].
        destruct (decide (mid = i)) as [->|]; [lia|].
        pose proof (tiles_mono _ _ _ mid i (fo_tiles _ _ Hok) ltac:(lia) ltac:(lia)).
        destruct (ti_ok _ _ _ (fo_tiles _ _ Hok) mid ltac:(lia)) as [_ _ [_ Hz1]]. lia.
      + wp_step; [wp_step|].
        * enough (mid < i) by (cbn; split_and!; [done|lia..]).
          destruct (decide (i <= mid)); [|lia].
          destruct (decide (mid = i)) as [->|]; [lia|].
          pose proof (tiles_mono _ _ _ i mid (fo_tiles _ _ Hok) ltac:(lia) ltac:(lia)).
          lia.
        * wp_step. unfold kset. apply wp_modify, wp_ret. split.
          -- apply (in_block_page _ _ _ _ Hok); [lia|done|lia].
          -- exists mid. split; [|done]. change CO_KLOAD_MAX_BLOCKS with 16384 in *. lia.
    - cbn. split; [done|lia].
    - cbn. change CO_KLOAD_MAX_BLOCKS with 16384 in *. lia. }
  destruct (kload_last_hit k <? kload_block_count k) eqn:Hlt; zbool; [|apply wp_ret, Hsearch].
  wp_step. apply wp_block_get; [done|]. fold k. wp_step.
  destruct (_ && _)%bool eqn:Hc; [|exact Hsearch]. apply wp_ret.
  unfold in_block in Hc. zbool. split; [|done].
  rewrite (block_end_small _ _ _ Hok) in * by lia.
  apply (in_block_page _ _ _ _ Hok); lia.
Qed.

(** A machine frame of guest RAM, found through both maps. *)
Lemma wp_frame_va w mfn (E : co_rc_value_t -> world OS -> Prop) :
  frames_ok (w_os w) (w_kl w) ->
  wp (co_kload_frame_va mfn)
    (fun r w' => hit_moved w w' /\ match r with
       | Some a => exists p, 0 <= p < kload_backed_pages (w_kl w) /\
           p2m_at (w_kl w) p = mfn /\ page_va (w_kl w) p a
       | None => forall p, 0 <= p < kload_backed_pages (w_kl w) -> p2m_at (w_kl w) p <> mfn
       end) E w.
Proof using.
  intros Hok. unfold co_kload_frame_va. wp_step.
  eapply wp_mono; [apply (wp_machine_to_pseudo w mfn E); apply Hok| |done].
  intros [p|] w' [-> Hr].
  - destruct Hr as [Hp Hm]. eapply wp_mono; [apply wp_pseudo_frame_va; [done|lia]| |done].
    intros [a|] w' [Ha Hh]; cbn in Ha; [|lia]. split; [done|].
    exists p. split_and!; [lia|lia|done|by destruct Ha].
  - apply wp_ret. split; [by apply hit_moved_refl|done].
Qed.

(** One address per page. *)
Lemma page_va_fun o k p a b : frames_ok o k -> page_va k p a -> page_va k p b -> a = b.
Proof using.
  intros Hok (i & j & Hi & Hj & Hp & ->) (i' & j' & Hi' & Hj' & Hp' & ->).
  assert (i = i') as ->.
  { pose proof (fo_tiles _ _ Hok) as Ht.
    destruct (ti_ok _ _ _ Ht i Hi) as [_ [Hb Hb0] [Hz Hz1]].
    destruct (ti_ok _ _ _ Ht i' Hi') as [_ [Hb' Hb0'] [Hz' Hz1']].
    unfold block_page, block_pages in *. change CO_ARCH_PAGE_SIZE with 4096 in *.
    destruct (decide (i < i')); [pose proof (tiles_mono _ _ _ i i' Ht ltac:(lia) ltac:(lia))|
      destruct (decide (i' < i)); [pose proof (tiles_mono _ _ _ i' i Ht ltac:(lia) ltac:(lia))|lia]];
    Z.div_mod_to_equations; lia. }
  assert (j = j') as -> by lia. done.
Qed.

(** *** The linear reference *)

(** The first block that contains [pa], looking at blocks [i .. i + n). *)
Fixpoint linear_search (n : nat) (i : Z) k pa : option Z :=
  match n with
  | O => None
  | S n' => if in_block pa (block_at k i) then Some (block_ptr pa (block_at k i))
            else linear_search n' (i + 1) k pa
  end.

Definition linear_frame_va k p : option Z :=
  if kload_backed_pages k <=? p then None
  else linear_search (Z.to_nat (kload_block_count k)) 0 k (bytes_of p).

Lemma in_block_unique o k p i j :
  frames_ok o k -> 0 <= p < kload_backed_pages k ->
  0 <= i < kload_block_count k -> 0 <= j < kload_block_count k ->
  in_block (bytes_of p) (block_at k i) = true -> in_block (bytes_of p) (block_at k j) = true ->
  i = j.
Proof using.
  intros Hok Hp Hi Hj. rewrite (page_bytes _ _ _ Hok Hp). unfold in_block.
  rewrite !(block_end_small _ _ _ Hok) by done. intros H1 H2. zbool.
  pose proof (fo_tiles _ _ Hok) as Ht.
  destruct (decide (i < j)); [pose proof (tiles_mono _ _ _ i j Ht ltac:(lia) ltac:(lia)); lia|].
  destruct (decide (j < i)); [pose proof (tiles_mono _ _ _ j i Ht ltac:(lia) ltac:(lia)); lia|].
  lia.
Qed.

Lemma linear_search_finds (n : nat) i0 k pa i :
  i0 <= i < i0 + Z.of_nat n -> in_block pa (block_at k i) = true ->
  (forall j, i0 <= j < i -> in_block pa (block_at k j) = false) ->
  linear_search n i0 k pa = Some (block_ptr pa (block_at k i)).
Proof using.
  revert i0. induction n as [|n IH]; intros i0 Hi Hin Hbef; [lia|]. cbn [linear_search].
  destruct (decide (i = i0)) as [->|]; [by rewrite Hin|].
  rewrite Hbef by lia. apply IH; [lia|done|]. intros j Hj. apply Hbef. lia.
Qed.

Lemma linear_page o k p a :
  frames_ok o k -> 0 <= p < kload_backed_pages k -> page_va k p a ->
  linear_frame_va k p = Some a.
Proof using.
  intros Hok Hp (i & j & Hi & Hj & Hpij & ->). unfold linear_frame_va.
  rewrite (proj2 (Z.leb_gt _ _)) by lia.
  destruct (ti_ok _ _ _ (fo_tiles _ _ Hok) i Hi) as [_ [Hb Hb0] [Hz Hz1]].
  assert (in_block (bytes_of p) (block_at k i) = true) as Hin.
  { rewrite (page_bytes _ _ _ Hok Hp). unfold in_block.
    rewrite (block_end_small _ _ _ Hok) by done. apply andb_true_iff.
    rewrite Z.leb_le, Z.ltb_lt. unfold block_page, block_pages in *.
    change CO_ARCH_PAGE_SIZE with 4096 in *. Z.div_mod_to_equations. lia. }
  rewrite (linear_search_finds _ 0 k _ i); [|lia|done|].
  - f_equal. rewrite (page_bytes _ _ _ Hok Hp). unfold block_ptr, block_page, block_pages in *.
    change CO_KLOAD_CHUNK_BYTES with (2 ^ 25) in *. change CO_ARCH_PAGE_SIZE with 4096 in *.
    unfold ulong. rewrite u32_small by (Z.div_mod_to_equations; lia).
    Z.div_mod_to_equations. lia.
  - intros j' Hj'. destruct (in_block _ (block_at k j')) eqn:Hin'; [|done].
    pose proof (in_block_unique _ _ p i j' Hok Hp Hi ltac:(lia) Hin Hin'). lia.
Qed.

(** Finding the host address of a pseudo page is a linear scan. The
    one-entry cache and the binary search of [co_kload_pseudo_frame_va]
    return what scanning the blocks in order returns, whatever the cache
    held, and the lookup changes nothing but the cache. *)
Theorem pseudo_frame_va_is_linear w p :
  frames_ok (w_os w) (w_kl w) -> 0 <= p ->
  exists h, 0 <= h < CO_KLOAD_MAX_BLOCKS /\
    co_kload_pseudo_frame_va p w
      = (Ret (linear_frame_va (w_kl w) p), upd_kl (set_last_hit h) w).
Proof using.
  intros Hok Hp. pose proof (wp_pseudo_frame_va w p (fun _ _ => False) Hok Hp) as Hwp.
  unfold wp in Hwp. destruct (co_kload_pseudo_frame_va p w) as [[r|rc|] w']; [|done..].
  destruct Hwp as [Hans (h & Hh & ->)]. exists h. split; [done|]. do 2 f_equal.
  destruct r as [a|]; cbn in Hans.
  - destruct Hans as [Hpb Ha]. by rewrite (linear_page _ _ _ _ Hok Hpb Ha).
  - unfold linear_frame_va. by rewrite (proj2 (Z.leb_le _ _)) by lia.
Qed.

(** C36: the reverse map inverts the forward map. A machine frame has a pseudo
    frame exactly when some backed page lies on it, the probe sequence ends,
    and the answer is that page: translating back and forth is the identity
    on backed pages. *)
Theorem m2p_inverts_p2m w p mfn :
  frames_ok (w_os w) (w_kl w) -> 0 <= p < kload_backed_pages (w_kl w) ->
  kload_machine_to_pseudo_pfn (p2m_at (w_kl w) p) w = (Ret (Some p), w) /\
  ((forall q, 0 <= q < kload_backed_pages (w_kl w) -> p2m_at (w_kl w) q <> mfn) ->
   kload_machine_to_pseudo_pfn mfn w = (Ret None, w)).
Proof using.
  intros Hok Hp.
  pose proof (fun m => wp_machine_to_pseudo w m (fun _ _ => False) (fo_tables _ _ Hok)
                (fo_backed _ _ Hok) (fo_hash _ _ Hok)) as Hwp.
  unfold wp in Hwp. split; [specialize (Hwp (p2m_at (w_kl w) p))|intros Hno; specialize (Hwp mfn)].
  - destruct (kload_machine_to_pseudo_pfn _ w) as [[[q|]|rc|] w']; [..|done|done].
    + destruct Hwp as (-> & Hq & Heq).
      by rewrite (mo_inj _ _ _ _ (fo_hash _ _ Hok) q p Hq Hp Heq).
    + destruct Hwp as (_ & Hno). by destruct (Hno p Hp).
  - destruct (kload_machine_to_pseudo_pfn _ w) as [[[q|]|rc|] w']; [..|done|done].
    + destruct Hwp as (_ & Hq & Heq). by destruct (Hno q Hq).
    + by destruct Hwp as (-> & _).
Qed.
End frames_ok.
