(* ===== verification/Grow.v ===== *)
(** Growing guest RAM ([kload_block_alloc], [kload_grow_to]).

    A block allocation either adds one tile on top, with every new page
    recorded in both maps and zeroed, or changes nothing but the host. *)
From S2P Require Import Prelude.
From S2P Require Import Rc.
From S2P Require Import Mem.
From S2P Require Import Mmu.
From S2P Require Import Space.
From S2P Require Import Host.
From S2P Require Import Frames.
From S2P Require Import FramesOk.

(** Both maps of [k] with new contents. *)
Definition with_maps (k : kload_statics) (p2m m2p : gmap Z Z) : kload_statics :=
  set_m2p ((fun a => PoolArray (array_va a) m2p) <$> kload_m2p k)
    (set_p2m ((fun a => PoolArray (array_va a) p2m) <$> kload_p2m k) k).

Lemma put_p2m_with_maps k p m i v :
  put_p2m i v (with_maps k p m) = with_maps k (arr_set p i v) m.
Proof. unfold put_p2m, with_maps. cbn. by destruct (kload_p2m k). Qed.

Lemma put_m2p_with_maps k p m i v :
  put_m2p i v (with_maps k p m) = with_maps k p (arr_set m i (u32 v)).
Proof. unfold put_m2p, with_maps. cbn. by destruct (kload_m2p k). Qed.

Lemma with_maps_self k :
  is_Some (kload_p2m k) -> is_Some (kload_m2p k) ->
  with_maps k (cells_of (kload_p2m k)) (cells_of (kload_m2p k)) = k.
Proof.
  destruct k as [?????????????? [[]|] [[]|]]; cbn; intros [] []; by simplify_eq.
Qed.

Section grow.
Context {OS : Type} `{HostLaws OS}.
Implicit Types (o : OS) (k : kload_statics) (w : world OS).

Lemma tables_ok_with_maps k p m : tables_ok k -> tables_ok (with_maps k p m).
Proof using.
  intros [[a Ha] [b Hb] ? ? ? ? ?]. split; cbn; rewrite ?Ha, ?Hb; cbn; eauto.
Qed.

Lemma p2m_with_maps k p m j :
  tables_ok k -> p2m_at (with_maps k p m) j = arr_get p j.
Proof using. intros [[a Ha] _ _ _ _ _ _]. unfold p2m_at. cbn. by rewrite Ha. Qed.

Lemma cells_with_maps k p m :
  tables_ok k -> cells_of (kload_p2m (with_maps k p m)) = p /\
                 cells_of (kload_m2p (with_maps k p m)) = m.
Proof using. intros [[a Ha] [b Hb] _ _ _ _ _]. cbn. by rewrite Ha, Hb. Qed.

(** *** Finding an empty slot *)

Lemma wp_m2p_probe w mfn n p m k (E : co_rc_value_t -> world OS -> Prop) :
  w_kl w = with_maps k p m -> tables_ok k -> m2p_ok (kload_m2p_slots k) p m n ->
  wp (mloop m2p_probe_step (kload_m2p_hash (kload_m2p_mask_value k) mfn))
    (fun s w' => w' = w /\ exists d, 0 <= d < kload_m2p_slots k /\
       s = probe (kload_m2p_slots k) mfn d /\ arr_get m s = 0 /\
       forall d', 0 <= d' < d -> arr_get m (probe (kload_m2p_slots k) mfn d') <> 0) E w.
Proof using.
  intros Hw Ht Hm. destruct (to_slots _ Ht) as (sh & Hsh & Hs).
  pose proof (slots_pos _ sh Hsh Hs) as Hpos. pose proof (to_mask _ Ht) as Hmask.
  destruct (empty_slot _ sh Hsh Hs _ _ _ Hm) as (s0 & Hs0 & Hz).
  destruct (probe_reaches _ sh Hsh Hs mfn s0 Hs0) as (d0 & Hd0 & Hpd).
  rewrite Hmask. set (slots := kload_m2p_slots k) in *.
  set (dist := fun s => (s - kload_m2p_hash (slots - 1) mfn) mod slots).
  apply (wp_mloop _ (fun s w' => w' = w /\ exists d, 0 <= d <= d0 /\
      s = probe slots mfn d /\
      forall d', 0 <= d' < d -> arr_get m (probe slots mfn d') <> 0)
    (fun s _ => slots - dist s)).
  - intros s w' (-> & d & Hd & -> & Hbef).
    pose proof (probe_range slots sh Hsh Hs mfn d) as Hr.
    unfold m2p_probe_step, kl. wp_step.
    apply (wp_m2p_get (with_maps k p m)); [done|by apply tables_ok_with_maps|done|].
    destruct (cells_with_maps k p m Ht) as [_ ->]. wp_step; [wp_step|].
    + split; [done|]. exists d. split_and!; [lia|lia|done|done|done].
    + wp_step. apply wp_gets, wp_ret. rewrite Hw. cbn [with_maps set_m2p set_p2m
        kload_m2p_mask_value]. rewrite Hmask, (probe_next slots sh Hsh Hs).
      assert (d < d0) by (destruct (decide (d = d0)) as [->|]; [congruence|lia]).
      unfold dist. rewrite !(probe_dist slots sh Hsh Hs) by lia.
      split_and!; [done| |lia|lia]. exists (d + 1). split_and!; [lia|lia|done|].
      intros d' Hd'. destruct (decide (d' = d)) as [->|]; [done|apply Hbef; lia].
  - split; [done|]. exists 0. rewrite (probe_0 _ sh) by done.
    split_and!; [lia|lia|done|intros; lia].
  - unfold dist. pose proof (Z.mod_pos_bound
      (kload_m2p_hash (slots - 1) mfn - kload_m2p_hash (slots - 1) mfn) slots). lia.
Qed.

(** *** Recording the pages of a block *)

(** [i] pages of a block at [va] recorded from pseudo page [first] on. *)
Record recorded k o va first i (p m : gmap Z Z) : Prop := {
  rc_hash : m2p_ok (kload_m2p_slots k) p m (first + i);
  rc_keep j : j < first \/ first + i <= j -> arr_get p j = p2m_at k j;
  rc_new j : 0 <= j < i ->
    os_frames o !! (va / CO_ARCH_PAGE_SIZE + j) = Some (arr_get p (first + j)) /\
    0 < arr_get p (first + j) < 2 ^ 40;
}.

Lemma recorded_0 k o va :
  hash_ok k (kload_backed_pages k) ->
  recorded k o va (kload_backed_pages k) 0 (cells_of (kload_p2m k)) (cells_of (kload_m2p k)).
Proof using.
  intros Hh. split; [by rewrite Z.add_0_r|done|intros; lia].
Qed.

(** A frame of the fresh block is recorded nowhere yet. *)
Lemma fresh_frame o0 o k va pages first i p m mfn :
  frames_ok o0 k -> fresh_block os_frames o0 o va pages ->
  first = kload_backed_pages k -> 0 <= i < pages -> recorded k o va first i p m ->
  os_frames o !! (va / CO_ARCH_PAGE_SIZE + i) = Some mfn ->
  forall j, 0 <= j < first + i -> arr_get p j <> mfn.
Proof using.
  intros Hok (_ & _ & Hold & Hnew) -> Hi [Hh Hk Hr] Hmfn j Hj Heq.
  destruct (Hnew (va / CO_ARCH_PAGE_SIZE + i) ltac:(lia)) as (_ & x & Hx & _ & Huniq).
  rewrite Hmfn in Hx. injection Hx as <-.
  destruct (decide (j < kload_backed_pages k)) as [Hlt|Hge].
  - rewrite Hk in Heq by lia.
    destruct (tiles_page _ _ _ j (fo_tiles _ _ Hok) (proj1 (fo_count _ _ Hok)) ltac:(lia))
      as (bi & bj & Hbi & Hbj & ->).
    destruct (fo_backing _ _ Hok bi bj Hbi Hbj) as [Hlive _]. rewrite Heq in Hlive.
    set (v := block_va (block_at k bi) / CO_ARCH_PAGE_SIZE + bj) in *.
    destruct (decide (va / CO_ARCH_PAGE_SIZE <= v < va / CO_ARCH_PAGE_SIZE + pages)).
    + destruct (Hnew v ltac:(lia)) as [Hnone _]. congruence.
    + assert (os_frames o !! v = Some mfn) as Hv by (rewrite Hold by lia; done).
      specialize (Huniq v Hv). lia.
  - destruct (Hr (j - kload_backed_pages k) ltac:(lia)) as [Hlive _].
    replace (kload_backed_pages k + (j - kload_backed_pages k)) with j in Hlive by lia.
    rewrite Heq in Hlive. specialize (Huniq _ Hlive). lia.
Qed.

Lemma recorded_step k o va first i p m mfn d :
  recorded k o va first i p m -> tables_ok k -> 0 <= i -> 0 <= first ->
  first + i < kload_p2m_capacity k ->
  os_frames o !! (va / CO_ARCH_PAGE_SIZE + i) = Some mfn -> 0 < mfn < 2 ^ 40 ->
  (forall j, 0 <= j < first + i -> arr_get p j <> mfn) ->
  0 <= d < kload_m2p_slots k -> arr_get m (probe (kload_m2p_slots k) mfn d) = 0 ->
  (forall d', 0 <= d' < d -> arr_get m (probe (kload_m2p_slots k) mfn d') <> 0) ->
  recorded k o va first (i + 1) (arr_set p (first + i) mfn)
    (arr_set m (probe (kload_m2p_slots k) mfn d) (first + i + 1)).
Proof using.
  intros [Hh Hk Hr] Ht Hi Hf Hcap Hmfn Hrange Hfresh Hd Hempty Hbef.
  destruct (to_slots _ Ht) as (sh & Hsh & Hs). pose proof (to_room _ Ht). split.
  - rewrite Z.add_assoc. apply (m2p_insert _ sh); try done. lia.
  - intros j Hj. rewrite arr_get_set_ne by lia. apply Hk. lia.
  - intros j Hj. destruct (decide (j = i)) as [->|].
    + by rewrite arr_get_set_eq.
    + rewrite arr_get_set_ne by lia. apply Hr. lia.
Qed.

Lemma wp_block_record_page o0 o k va pages i p m w (E : co_rc_value_t -> world OS -> Prop) :
  frames_ok o0 k -> fresh_block os_frames o0 o va pages ->
  kload_backed_pages k + pages <= kload_p2m_capacity k -> pages <= 8192 ->
  w_os w = o -> w_kl w = with_maps k p m -> 0 <= i < pages ->
  recorded k o va (kload_backed_pages k) i p m ->
  wp (block_record_page va (kload_backed_pages k) i)
    (fun _ w' => exists p' m', w' = set_kl (with_maps k p' m') w /\
       recorded k o va (kload_backed_pages k) (i + 1) p' m') E w.
Proof using.
  intros Hok Hfb Hcap Hpages Hwo Hwk Hi Hrec.
  pose proof (fo_tables _ _ Hok) as Ht. pose proof (slots_bound _ Ht) as [Hcb Hsb].
  pose proof (to_cap _ Ht) as Hc. pose proof (fo_backed _ _ Hok) as Hb.
  pose proof (to_room _ Ht) as Hroom.
  destruct Hfb as (Hva0 & Hvapos & Hold & Hnew) eqn:Hfbe. clear Hfbe.
  destruct (Hnew (va / CO_ARCH_PAGE_SIZE + i) ltac:(lia)) as (_ & mfn & Hmfn & Hrange & _).
  set (first := kload_backed_pages k) in *.
  unfold block_record_page, kl. wp_step. apply wp_gets.
  assert (Z.shiftr (co_os_virt_to_phys (w_os w) (va + ulong (Z.shiftl i CO_ARCH_PAGE_SHIFT)))
            CO_ARCH_PAGE_SHIFT = mfn) as ->.
  { rewrite Z.shiftl_mul_pow2 by done. change CO_ARCH_PAGE_SHIFT with 12 in *.
    change CO_ARCH_PAGE_SIZE with 4096 in *. unfold ulong. rewrite u32_small by lia.
    assert ((va + i * 2 ^ 12) / 4096 = va / 4096 + i /\ (va + i * 2 ^ 12) mod 4096 = 0)
      as [Hdiv Hmod] by (Z.div_mod_to_equations; lia).
    rewrite Hwo. rewrite (law_virt_to_phys o _ mfn); change CO_ARCH_PAGE_SIZE with 4096;
      [|lia|by rewrite Hdiv].
    rewrite Hmod, Z.add_0_r, Z.shiftr_div_pow2 by lia. apply Z.div_mul. lia. }
  wp_step. apply wp_gets. rewrite Hwk. cbn [with_maps set_m2p set_p2m kload_m2p_mask_value].
  assert (ulong (first + i) = first + i) as -> by (apply u32_small; lia).
  assert (ulong (first + i + 1) = first + i + 1) as -> by (apply u32_small; lia).
  wp_step. eapply wp_p2m_set; [exact Hwk|by apply tables_ok_with_maps|cbn; lia|].
  rewrite put_p2m_with_maps. wp_step.
  set (w1 := set_kl _ w). set (p1 := arr_set p (first + i) mfn).
  assert (m2p_ok (kload_m2p_slots k) p1 m (first + i)) as Hm1.
  { destruct (to_slots _ Ht) as (sh & Hsh & Hs).
    eapply (m2p_ok_ext _ _ Hsh Hs); [apply Hrec|]. intros j Hj.
    apply arr_get_set_ne. lia. }
  eapply wp_mono; [apply (wp_m2p_probe w1 mfn _ p1 m k E eq_refl Ht Hm1)| |done].
  intros s w2 (-> & d & Hd & -> & Hempty & Hbef).
  destruct (to_slots _ Ht) as (sh & Hsh & Hs).
  pose proof (probe_range _ sh Hsh Hs mfn d) as Hpr.
  apply (wp_m2p_set (with_maps k p1 m)); [done|by apply tables_ok_with_maps|cbn; lia|].
  rewrite put_m2p_with_maps, u32_small by lia.
  exists p1, (arr_set m (probe (kload_m2p_slots k) mfn d) (first + i + 1)).
  split; [by destruct w|]. apply recorded_step; try done; try lia.
  by eapply (fresh_frame o0 o k va pages).
Qed.

Lemma wp_record_block o0 o k va pages w (E : co_rc_value_t -> world OS -> Prop) :
  frames_ok o0 k -> fresh_block os_frames o0 o va pages -> 0 < pages <= 8192 ->
  kload_backed_pages k + pages <= kload_p2m_capacity k ->
  w_os w = o -> w_kl w = k ->
  wp (mfor (Z.to_nat pages) 0 (block_record_page va (kload_backed_pages k)))
    (fun _ w' => exists p m, w' = set_kl (with_maps k p m) w /\
       recorded k o va (kload_backed_pages k) pages p m) E w.
Proof using.
  intros Hok Hfb Hp Hcap Hwo Hwk. pose proof (fo_tables _ _ Hok) as Ht.
  apply (wp_mfor _ (fun i w' => exists p m, w' = set_kl (with_maps k p m) w /\
    recorded k o va (kload_backed_pages k) i p m)).
  - intros i w' Hi (p & m & -> & Hrec).
    eapply wp_mono; [eapply (wp_block_record_page o0 o k va pages i p m); try done; lia| |done].
    intros _ w' (p' & m' & -> & Hrec'). exists p', m'. by destruct w.
  - exists (cells_of (kload_p2m k)), (cells_of (kload_m2p k)). split.
    + rewrite with_maps_self by apply Ht. rewrite <- Hwk. by destruct w.
    + apply recorded_0, Hok.
  - intros w' (p & m & -> & Hrec). rewrite Z2Nat.id in Hrec by lia. eauto.
Qed.

(** *** One block more *)

(** The statics after a block of [pages] pages at [va] was added. *)
Definition add_block k va pages mdl p m : kload_statics :=
  set_backed_pages (kload_backed_pages k + pages)
    (set_block (<[kload_block_count k :=
        Block va (kload_backed_pages k * CO_ARCH_PAGE_SIZE) (pages * CO_ARCH_PAGE_SIZE) mdl]>
        (kload_block k))
      (set_block_count (kload_block_count k + 1) (with_maps k p m))).

Lemma block_at_add k va pages mdl p m i :
  block_at (add_block k va pages mdl p m) i =
    if decide (i = kload_block_count k)
    then Block va (kload_backed_pages k * CO_ARCH_PAGE_SIZE) (pages * CO_ARCH_PAGE_SIZE) mdl
    else block_at k i.
Proof using.
  unfold block_at. cbn. case_decide as Hd; [subst; by rewrite lookup_insert_eq|].
  by rewrite lookup_insert_ne.
Qed.

Lemma tiles_add k va pages mdl p m :
  0 <= kload_block_count k -> 0 <= kload_backed_pages k ->
  tiles k (kload_block_count k) (kload_backed_pages k * CO_ARCH_PAGE_SIZE) ->
  va mod CO_ARCH_PAGE_SIZE = 0 -> 0 < va -> 0 < pages <= 8192 ->
  tiles (add_block k va pages mdl p m) (kload_block_count k + 1)
    ((kload_backed_pages k + pages) * CO_ARCH_PAGE_SIZE).
Proof using.
  intros Hc Hb [Hok Hf Hn Ht] Hva Hvap Hp. change CO_ARCH_PAGE_SIZE with 4096 in *. split.
  - intros i Hi. rewrite block_at_add. destruct (decide (i = _)); [|apply Hok; lia].
    split; cbn; change CO_ARCH_PAGE_SIZE with 4096; change CO_KLOAD_CHUNK_BYTES with (8192 * 4096);
      split; try lia; apply Z.mod_mul; lia.
  - intros _. rewrite block_at_add.
    destruct (decide (0 = _)) as [Hz|]; [cbn|apply Hf; lia].
    rewrite decide_True in Ht by lia. change CO_ARCH_PAGE_SIZE with 4096. lia.
  - intros i Hi Hlt. rewrite !block_at_add.
    rewrite (decide_False (P := i = _)) by lia. destruct (decide (i + 1 = _)); [cbn|apply Hn; lia].
    rewrite decide_False in Ht by lia.
    replace i with (kload_block_count k - 1) by lia. change CO_ARCH_PAGE_SIZE with 4096. lia.
  - rewrite decide_False by lia. rewrite block_at_add, decide_True by lia. cbn.
    change CO_ARCH_PAGE_SIZE with 4096. lia.
Qed.

Lemma frames_ok_add o0 o k va pages mdl p m :
  frames_ok o0 k -> os_ok o -> fresh_block os_frames o0 o va pages -> 0 < pages <= 8192 ->
  kload_backed_pages k + pages <= kload_p2m_capacity k ->
  kload_block_count k < CO_KLOAD_MAX_BLOCKS ->
  recorded k o va (kload_backed_pages k) pages p m ->
  frames_ok o (add_block k va pages mdl p m).
Proof using.
  intros Hok Ho (Hva0 & Hvapos & Hold & Hnew) Hp Hcap Hcnt [Hh Hk Hr].
  pose proof (fo_tables _ _ Hok) as Ht. pose proof (fo_backed _ _ Hok) as Hb.
  pose proof (fo_count _ _ Hok) as Hc.
  destruct (cells_with_maps k p m Ht) as [Hcp Hcm].
  assert (forall j, p2m_at (add_block k va pages mdl p m) j = arr_get p j) as Hp2m.
  { intros j. apply (p2m_with_maps k p m j Ht). }
  split; [done| |cbn; lia|cbn; lia|apply Hok| | |].
  - destruct (tables_ok_with_maps k p m Ht). by split.
  - apply tiles_add; try done; try lia. apply Hok.
  - unfold hash_ok. change (kload_p2m (add_block k va pages mdl p m)) with
      (kload_p2m (with_maps k p m)). change (kload_m2p (add_block k va pages mdl p m)) with
      (kload_m2p (with_maps k p m)). by rewrite Hcp, Hcm.
  - intros i j Hi Hj. cbn in Hi. unfold block_page. rewrite block_at_add in *.
    case_decide as Hd; cbn in Hj |- *; rewrite Hp2m.
    + rewrite Z.div_mul by done. apply Hr. unfold block_pages in Hj. cbn in Hj.
      by rewrite Z.div_mul in Hj by done.
    + destruct (fo_backing _ _ Hok i j ltac:(lia) Hj) as [Hlive Hrange].
      assert (block_page k i + j < kload_backed_pages k) as Hlt.
      { pose proof (tiles_top _ _ _ i (fo_tiles _ _ Hok) ltac:(lia)) as Htop.
        destruct (ti_ok _ _ _ (fo_tiles _ _ Hok) i ltac:(lia)) as [_ [Hb1 Hb0] [Hz Hz1]].
        unfold block_page, block_pages in *. change CO_ARCH_PAGE_SIZE with 4096 in *.
        Z.div_mod_to_equations. lia. }
      fold (block_page k i). rewrite Hk by lia. split; [|done].
      set (v := block_va (block_at k i) / CO_ARCH_PAGE_SIZE + j) in *.
      rewrite Hold; [done|].
      destruct (decide (va / CO_ARCH_PAGE_SIZE <= v < va / CO_ARCH_PAGE_SIZE + pages));
        [|lia]. destruct (Hnew v ltac:(lia)) as [Hnone _]. congruence.
Qed.

(** *** What growth keeps and what it adds *)

Record grown w w' : Prop := {
  gr_ok : frames_ok (w_os w') (w_kl w');
  gr_le : kload_backed_pages (w_kl w) <= kload_backed_pages (w_kl w');
  gr_keep j : j < kload_backed_pages (w_kl w) \/ kload_backed_pages (w_kl w') <= j ->
    p2m_at (w_kl w') j = p2m_at (w_kl w) j;
  gr_va p a : page_va (w_kl w) p a -> page_va (w_kl w') p a;
  gr_old p a x : page_va (w_kl w) p a -> a <= x < a + CO_ARCH_PAGE_SIZE ->
    w_mem w' x = w_mem w x;
  gr_new p a x : kload_backed_pages (w_kl w) <= p -> page_va (w_kl w') p a ->
    a <= x < a + CO_ARCH_PAGE_SIZE -> w_mem w' x = 0;
  gr_frame : w' = set_mem (w_mem w') (set_os (w_os w') (set_kl
    (set_p2m (kload_p2m (w_kl w')) (set_m2p (kload_m2p (w_kl w'))
      (set_block (kload_block (w_kl w')) (set_block_count (kload_block_count (w_kl w'))
        (set_backed_pages (kload_backed_pages (w_kl w')) (w_kl w)))))) w));
}.

Lemma page_va_backed o k p a :
  frames_ok o k -> page_va k p a -> 0 <= p < kload_backed_pages k.
Proof using.
  intros Hok (i & j & Hi & Hj & -> & _).
  pose proof (tiles_top _ _ _ i (fo_tiles _ _ Hok) Hi) as Htop.
  destruct (ti_ok _ _ _ (fo_tiles _ _ Hok) i Hi) as [_ [Hb1 Hb0] [Hz Hz1]].
  unfold block_page, block_pages in *. change CO_ARCH_PAGE_SIZE with 4096 in *.
  Z.div_mod_to_equations. lia.
Qed.

Lemma page_va_exists o k p :
  frames_ok o k -> 0 <= p < kload_backed_pages k -> exists a, page_va k p a.
Proof using.
  intros Hok Hp.
  destruct (tiles_page _ _ _ p (fo_tiles _ _ Hok) (proj1 (fo_count _ _ Hok)) Hp)
    as (i & j & Hi & Hj & ->). eexists. exists i, j. done.
Qed.

(** The page of a pseudo page is live, on the frame the p2m names. *)
Lemma page_va_live o k p a :
  frames_ok o k -> page_va k p a ->
  a mod CO_ARCH_PAGE_SIZE = 0 /\ 0 < a /\
  os_frames o !! (a / CO_ARCH_PAGE_SIZE) = Some (p2m_at k p).
Proof using.
  intros Hok (i & j & Hi & Hj & -> & ->).
  destruct (ti_ok _ _ _ (fo_tiles _ _ Hok) i Hi) as [[Hv Hv0] [Hb1 Hb0] [Hz Hz1]].
  destruct (fo_backing _ _ Hok i j Hi Hj) as [Hl _].
  rewrite Z.mod_add, Z.div_add by done. split_and!; [done| |done].
  change CO_ARCH_PAGE_SIZE with 4096 in *. lia.
Qed.

Lemma grown_refl w : frames_ok (w_os w) (w_kl w) -> grown w w.
Proof using.
  intros Hok. split; try done.
  - intros p a x Hp Hva. pose proof (page_va_backed _ _ _ _ Hok Hva). lia.
  - destruct w as [m o k]. by destruct k.
Qed.

Lemma grown_trans w1 w2 w3 : grown w1 w2 -> grown w2 w3 -> grown w1 w3.
Proof using.
  intros [Hok1 Hle1 Hk1 Hv1 Ho1 Hn1 Hf1] [Hok2 Hle2 Hk2 Hv2 Ho2 Hn2 Hf2]. split.
  - done.
  - lia.
  - intros j Hj. rewrite Hk2 by lia. apply Hk1. lia.
  - eauto.
  - intros p a x Hp Hx. rewrite (Ho2 p a) by eauto. by apply (Ho1 p a).
  - intros p a x Hp Hva Hx.
    destruct (decide (kload_backed_pages (w_kl w2) <= p)); [by apply (Hn2 p a)|].
    pose proof (page_va_backed _ _ _ _ Hok2 Hva).
    destruct (page_va_exists _ _ p Hok1 ltac:(lia)) as [b Hb].
    rewrite <- (page_va_fun _ _ _ _ _ Hok2 (Hv2 _ _ Hb) Hva) in Hx.
    rewrite (Ho2 p b x Hb Hx). by apply (Hn1 p b).
  - etrans; [exact Hf2|]. rewrite Hf1. reflexivity.
Qed.

(** *** The allocator *)

Lemma frames_ok_os o o' k :
  frames_ok o k -> os_ok o' -> os_frames o' = os_frames o -> frames_ok o' k.
Proof using.
  intros [? ? ? ? ? ? ? Hb] Ho Hf. split; try done.
  intros i j Hi Hj. rewrite Hf. by apply Hb.
Qed.

Lemma grown_os w o :
  frames_ok (w_os w) (w_kl w) -> os_ok o -> os_frames o = os_frames (w_os w) ->
  grown w (set_os o w).
Proof using.
  intros Hok Ho Hf. destruct (grown_refl w Hok) as [_ Hle Hk Hv Hold Hnew Hfr].
  split; try done; [by eapply frames_ok_os|]. cbn. by rewrite Hfr.
Qed.

Lemma wp_block_memory w pages (E : co_rc_value_t -> world OS -> Prop) :
  os_ok (w_os w) -> 0 < pages <= 8192 ->
  wp (block_memory (pages * CO_ARCH_PAGE_SIZE) pages)
    (fun r w' => exists o, w' = set_os o w /\ os_ok o /\
       match r with
       | Some (va, mdl) => fresh_block os_frames (w_os w) o va pages
       | None => os_frames o = os_frames (w_os w)
       end) E w.
Proof using.
  intros Ho Hp. unfold block_memory, kl. wp_step. apply wp_gets.
  destruct (kload_user_ram_va (w_kl w) =? 0); cbn [negb].
  - wp_step. unfold host, wp. rewrite u32_small by lia.
    pose proof (law_alloc_cached (w_os w) pages Ho ltac:(lia)) as Hl.
    destruct (co_os_alloc_cached_pages pages (w_os w)) as [[va|] o]; cbn.
    + destruct Hl. by exists o.
    + destruct Hl. by exists o.
  - do 2 (wp_step; apply wp_gets). wp_step.
    { apply wp_ret. exists (w_os w). split; [by destruct w|done]. }
    set (uva := u64 _). unfold host, wp, ulong.
    change CO_ARCH_PAGE_SIZE with 4096. rewrite u32_small by lia.
    pose proof (law_block_map (w_os w) uva (pages * 4096) Ho ltac:(lia)) as Hl.
    change CO_ARCH_PAGE_SIZE with 4096 in Hl. rewrite Z.mod_mul, Z.div_mul in Hl by lia.
    specialize (Hl eq_refl).
    destruct (co_os_user_block_map uva (pages * 4096) (w_os w)) as [[[va mdl]|] o]; cbn.
    + destruct Hl as (_ & ? & ?). by exists o.
    + destruct Hl. by exists o.
Qed.

(** The new block's statics, as the code arrives at them. *)
Lemma grown_add w o va pages mdl p m :
  frames_ok (w_os w) (w_kl w) -> os_ok o ->
  fresh_block os_frames (w_os w) o va pages -> 0 < pages <= 8192 ->
  kload_backed_pages (w_kl w) + pages <= kload_p2m_capacity (w_kl w) ->
  kload_block_count (w_kl w) < CO_KLOAD_MAX_BLOCKS ->
  recorded (w_kl w) o va (kload_backed_pages (w_kl w)) pages p m ->
  grown w (set_mem (co_memset (w_mem w) va 0 (pages * CO_ARCH_PAGE_SIZE))
             (set_os o (set_kl (add_block (w_kl w) va pages mdl p m) w))).
Proof using.
  intros Hok Ho Hfb Hp Hcap Hcnt Hrec. set (k := w_kl w) in *.
  pose proof (frames_ok_add _ _ _ _ _ mdl _ _ Hok Ho Hfb Hp Hcap Hcnt Hrec) as Hok'.
  destruct Hfb as (Hva0 & Hvapos & Hold & Hnew).
  assert (forall q a, page_va k q a -> page_va (add_block k va pages mdl p m) q a) as Hva.
  { intros q a (i & j & Hi & Hj & -> & ->). exists i, j. unfold block_page.
    rewrite !block_at_add, !decide_False by lia. cbn. split; [lia|done]. }
  split; cbn [w_mem w_os w_kl set_mem set_os set_kl]; fold k.
  - done.
  - cbn. lia.
  - intros j Hj. change (p2m_at (with_maps k p m) j = p2m_at k j).
    rewrite p2m_with_maps by apply Hok. apply (rc_keep _ _ _ _ _ _ _ Hrec). cbn in Hj. lia.
  - exact Hva.
  - intros q a x Hq Hx. destruct (page_va_live _ _ _ _ Hok Hq) as (Ha0 & Hapos & Hlive).
    unfold co_memset. rewrite decide_False; [done|]. intros Hin.
    destruct (Hnew (a / CO_ARCH_PAGE_SIZE)) as [Hnone _]; [|congruence].
    change CO_ARCH_PAGE_SIZE with 4096 in *. Z.div_mod_to_equations. lia.
  - intros q a x Hq Hqa Hx. unfold co_memset. rewrite decide_True; [done|].
    destruct Hqa as (i & j & Hi & Hj & Heq & ->). unfold block_page in Heq.
    rewrite block_at_add in *. destruct (decide (i = kload_block_count k)) as [->|Hne].
    + cbn in *. unfold block_pages in Hj. cbn in Hj. rewrite Z.div_mul in Hj by done.
      change CO_ARCH_PAGE_SIZE with 4096 in *. lia.
    + cbn in Hi. assert (page_va k q (block_va (block_at k i) + j * CO_ARCH_PAGE_SIZE)) as Hc
        by (exists i, j; split; [lia|done]).
      pose proof (page_va_backed _ _ _ _ Hok Hc). lia.
  - done.
Qed.

Lemma wp_block_alloc w bytes (E : co_rc_value_t -> world OS -> Prop) :
  frames_ok (w_os w) (w_kl w) -> 0 < bytes <= CO_KLOAD_CHUNK_BYTES ->
  bytes mod CO_ARCH_PAGE_SIZE = 0 ->
  wp (kload_block_alloc bytes)
    (fun ok w' => grown w w' /\
       if ok : bool
       then kload_backed_pages (w_kl w) < kload_backed_pages (w_kl w') <=
            kload_backed_pages (w_kl w) + bytes / CO_ARCH_PAGE_SIZE
       else w_kl w' = w_kl w) E w.
Proof using.
  intros Hok Hb Ha. pose proof (grown_refl w Hok) as Hrefl. set (k := w_kl w) in *.
  unfold kload_block_alloc, kl. wp_step. apply wp_gets. fold k. wp_step; [by apply wp_ret|].
  wp_step. apply wp_gets. fold k.
  set (bytes' := if (negb (kload_user_ram_va k =? 0) && _)%bool then _ else bytes).
  assert (0 < bytes' <= bytes /\ bytes' mod CO_ARCH_PAGE_SIZE = 0) as [Hb' Ha'].
  { subst bytes'. case_cond; [|split; [lia|done]]. split; [|done].
    change CO_KLOAD_USER_BLOCK_BYTES with 8388608 in *. lia. }
  clearbody bytes'.
  assert (exists pages, bytes' = pages * CO_ARCH_PAGE_SIZE) as [pages ->].
  { exists (bytes' / CO_ARCH_PAGE_SIZE). change CO_ARCH_PAGE_SIZE with 4096 in *.
    Z.div_mod_to_equations; lia. }
  change CO_KLOAD_CHUNK_BYTES with (8192 * CO_ARCH_PAGE_SIZE) in Hb.
  change CO_ARCH_PAGE_SIZE with 4096 in *.
  assert (pages <= bytes / 4096) as Hpb by (Z.div_mod_to_equations; lia).
  assert (ulong (pages_of (pages * 4096)) = pages) as ->.
  { unfold pages_of. change CO_ARCH_PAGE_SHIFT with 12. rewrite Z.shiftr_div_pow2 by lia.
    rewrite Z.div_mul by lia. apply u32_small. lia. }
  pose proof (fo_tables _ _ Hok) as Ht. pose proof (slots_bound _ Ht) as [Hcb Hsb].
  pose proof (fo_backed _ _ Hok) as Hbk.
  do 2 (wp_step; apply wp_gets). fold k. unfold ulong at 1. rewrite u32_small by lia.
  wp_step; [by apply wp_ret|]. wp_step.
  eapply wp_mono; [apply (wp_block_memory w pages E); [apply Hok|lia]| |done].
  intros [[va mdl]|] w1 (o & -> & Ho & Hr).
  2: { apply wp_ret. split; [by apply grown_os|done]. }
  wp_step. apply wp_modify. wp_step. apply wp_gets. wp_step. cbn [w_kl upd_mem set_mem set_os].
  fold k. set (w2 := upd_mem _ _).
  eapply wp_mono; [apply (wp_record_block (w_os w) o k va pages w2 E Hok Hr); try done; lia| |done].
  intros _ w3 (p & m & -> & Hrec). unfold kset, block_set.
  wp_step. apply wp_modify. wp_step.
  wp_step. apply wp_in_bounds.
  { apply andb_true_iff. rewrite Z.leb_le, Z.ltb_lt. pose proof (fo_count _ _ Hok). lia. }
  unfold kset. apply wp_modify. wp_step. apply wp_modify. apply wp_ret.
  pose proof (grown_add w o va pages mdl p m Hok Ho Hr ltac:(lia) ltac:(fold k; lia)
    ltac:(fold k; lia) Hrec) as Hg. fold k in Hg.
  unfold w2, upd_mem, upd_kl. cbn [set_mem set_os set_kl w_mem w_os w_kl].
  assert (forall n, 0 <= n < 2 ^ 32 -> bytes_of n = n * 4096) as Hbo
    by (intros; by apply bytes_of_small).
  rewrite !Hbo by lia.
  assert (ulong (Z.shiftl pages CO_ARCH_PAGE_SHIFT) = pages * 4096) as ->.
  { rewrite Z.shiftl_mul_pow2 by done. apply u32_small. change CO_ARCH_PAGE_SHIFT with 12. lia. }
  assert (ulong (kload_backed_pages k + pages) = kload_backed_pages k + pages) as Hu
    by (apply u32_small; lia).
  split; [|cbn; rewrite Hu; lia]. cbn. rewrite Hu. exact Hg.
Qed.

(** *** The growth loop *)

Lemma page_mask_land x :
  0 <= x < 2 ^ 64 -> Z.land x CO_ARCH_PAGE_MASK = x - x mod CO_ARCH_PAGE_SIZE.
Proof using. apply land_page_mask. Qed.

Lemma wp_grow_attempt w bytes (E : co_rc_value_t -> world OS -> Prop) :
  frames_ok (w_os w) (w_kl w) -> 0 < bytes <= CO_KLOAD_CHUNK_BYTES ->
  bytes mod CO_ARCH_PAGE_SIZE = 0 ->
  wp (mloop grow_attempt_step bytes)
    (fun ok w' => grown w w' /\
       if ok : bool
       then kload_backed_pages (w_kl w) < kload_backed_pages (w_kl w') <=
            kload_backed_pages (w_kl w) + bytes / CO_ARCH_PAGE_SIZE
       else w_kl w' = w_kl w) E w.
Proof using.
  intros Hok Hb Ha.
  apply (wp_mloop _ (fun a w' => grown w w' /\ w_kl w' = w_kl w /\ 0 < a <= bytes /\
      a mod CO_ARCH_PAGE_SIZE = 0) (fun a _ => a)).
  - intros a w1 (Hg & Hk & Har & Ham). unfold grow_attempt_step. wp_step.
    eapply wp_mono; [apply wp_block_alloc; [apply Hg|lia|done]| |done].
    intros [] w2 [Hg2 Hres]; [apply wp_ret|].
    + split; [by eapply grown_trans|]. rewrite Hk in Hres.
      change CO_ARCH_PAGE_SIZE with 4096 in *. Z.div_mod_to_equations; lia.
    + pose proof (grown_trans _ _ _ Hg Hg2) as Hg12.
      wp_step; apply wp_ret; [split; [done|congruence]|].
      change CO_KLOAD_CHUNK_BYTES with (2 ^ 25) in *.
      rewrite page_mask_land by (rewrite Z.shiftr_div_pow2 by lia; Z.div_mod_to_equations; lia).
      rewrite Z.shiftr_div_pow2 by lia. change CO_ARCH_PAGE_SIZE with 4096 in *.
      change (2 ^ 1) with 2.
      case_cond; (split; [split; [done|]; split; [congruence|]|]); Z.div_mod_to_equations; lia.
  - split_and!; [by apply grown_refl|done|lia|lia|done].
  - change CO_KLOAD_CHUNK_BYTES with (2 ^ 25) in *. lia.
Qed.

Lemma grow_want_spec have end_ :
  0 <= have < end_ -> end_ < 2 ^ 64 ->
  let want := grow_want have end_ in
  0 < want <= CO_KLOAD_CHUNK_BYTES /\ want mod CO_ARCH_PAGE_SIZE = 0 /\
  (want <= end_ - have \/ want = CO_ARCH_PAGE_SIZE).
Proof using.
  intros Hh He. unfold grow_want. rewrite u64_small by lia.
  change CO_KLOAD_CHUNK_BYTES with 33554432.
  set (x := if _ <? _ then _ else _).
  assert (0 < x <= 33554432 /\ x <= end_ - have) as [Hx Hxe]
    by (subst x; case_cond; lia).
  rewrite page_mask_land by lia. clearbody x. change CO_ARCH_PAGE_SIZE with 4096.
  cbn zeta. destruct (Z.eqb_spec (x - x mod 4096) 0); [split; [lia|split; [done|by right]]|].
  Z.div_mod_to_equations; lia.
Qed.

(** Pages that hold [bytes]. *)
Definition pages_up (bytes : Z) : Z := (bytes + (CO_ARCH_PAGE_SIZE - 1)) / CO_ARCH_PAGE_SIZE.

Lemma wp_grow_to w end_ (E : co_rc_value_t -> world OS -> Prop) :
  frames_ok (w_os w) (w_kl w) -> 0 <= end_ < 2 ^ 64 ->
  wp (kload_grow_to end_)
    (fun ok w' => grown w w' /\
       kload_backed_pages (w_kl w') <= Z.max (kload_backed_pages (w_kl w)) (pages_up end_) /\
       if ok : bool then end_ <= kload_backed_pages (w_kl w') * CO_ARCH_PAGE_SIZE
       else kload_backed_pages (w_kl w') * CO_ARCH_PAGE_SIZE < end_) E w.
Proof using.
  intros Hok He.
  apply (wp_mloop _ (fun _ w' => grown w w' /\
      kload_backed_pages (w_kl w') <= Z.max (kload_backed_pages (w_kl w)) (pages_up end_))
    (fun _ w' => kload_p2m_capacity (w_kl w') - kload_backed_pages (w_kl w'))).
  - intros [] w1 [Hg Hle]. pose proof (gr_ok _ _ Hg) as Hok1.
    pose proof (slots_bound _ (fo_tables _ _ Hok1)) as [Hcb _].
    pose proof (fo_backed _ _ Hok1) as Hbk.
    unfold grow_step, kl. wp_step. apply wp_gets. rewrite bytes_of_small by lia.
    wp_step; [by apply wp_ret|].
    destruct (grow_want_spec (kload_backed_pages (w_kl w1) * CO_ARCH_PAGE_SIZE) end_)
      as (Hw & Hm & Hcap); [change CO_ARCH_PAGE_SIZE with 4096 in *; lia|lia|].
    wp_step. eapply wp_mono; [by apply wp_grow_attempt| |done].
    intros [] w2 [Hg2 Hres]; apply wp_ret; pose proof (grown_trans _ _ _ Hg Hg2) as Hg12.
    + split.
      * split; [done|]. unfold pages_up in *.
        change CO_ARCH_PAGE_SIZE with 4096 in *. Z.div_mod_to_equations; lia.
      * pose proof (fo_backed _ _ (gr_ok _ _ Hg2)).
        assert (kload_p2m_capacity (w_kl w2) = kload_p2m_capacity (w_kl w1)) as Hc
          by (rewrite (gr_frame _ _ Hg2); done). lia.
    + rewrite Hres. split; [done|]. split; [lia|done].
  - split; [by apply grown_refl|lia].
  - pose proof (slots_bound _ (fo_tables _ _ Hok)). pose proof (fo_backed _ _ Hok). lia.
Qed.

(** Growing RAM ends and says what it did. From a consistent state
    [kload_grow_to] returns; RAM never shrinks and never exceeds the pages
    [end_] needs; it returns true exactly when [end_] is reached. The state
    is consistent again; the pages that were backed keep their machine
    frames, host addresses and contents; every new page reads zero; and no
    other static of the loader changed. *)
Theorem grow_to_extends w end_ :
  frames_ok (w_os w) (w_kl w) -> 0 <= end_ < 2 ^ 64 ->
  exists ok w', kload_grow_to end_ w = (Ret ok, w') /\ grown w w' /\
    kload_backed_pages (w_kl w') <= Z.max (kload_backed_pages (w_kl w)) (pages_up end_) /\
    (ok = true <-> end_ <= kload_backed_pages (w_kl w') * CO_ARCH_PAGE_SIZE).
Proof using.
  intros Hok He.
  destruct (wp_total _ _ _ (wp_grow_to w end_ (fun _ _ => False) Hok He))
    as (ok & w' & Hrun & Hg & Hle & Hres).
  exists ok, w'. split_and!; [exact Hrun|done|done|].
  destruct ok; [by split|]. split; [done|lia].
Qed.
End grow.
