(* ===== verification/Windows.v ===== *)
(** Host memory windows in the p2m above guest RAM ([co_kload_window_map],
    [_map_at], [_unmap]): which slots change, that a refusal changes none, and
    that unmapping undoes a mapping. *)
From S2P Require Import Prelude.
From S2P Require Import Rc.
From S2P Require Import Mem.
From S2P Require Import Mmu.
From S2P Require Import Space.
From S2P Require Import Host.
From S2P Require Import Frames.
From S2P Require Import FramesOk.
From S2P Require Import Grow.

Section windows.
Context {OS : Type} `{HostLaws OS}.
Implicit Types (o : OS) (k : kload_statics) (w : world OS).

(** [k'] is [k] with another p2m. *)
Definition p2m_only k k' : Prop :=
  exists p, k' = with_maps k p (cells_of (kload_m2p k)).

Lemma p2m_only_refl k : tables_ok k -> p2m_only k k.
Proof using.
  intros Ht. exists (cells_of (kload_p2m k)). by rewrite with_maps_self by apply Ht.
Qed.

Lemma p2m_only_put k k' i v : tables_ok k -> p2m_only k k' -> p2m_only k (put_p2m i v k').
Proof using.
  intros Ht [p ->]. exists (arr_set p i v). apply put_p2m_with_maps.
Qed.

Lemma p2m_only_tables k k' : tables_ok k -> p2m_only k k' -> tables_ok k'.
Proof using. intros Ht [p ->]. by apply tables_ok_with_maps. Qed.

Lemma p2m_at_put k i v j :
  tables_ok k -> p2m_at (put_p2m i v k) j = if decide (i = j) then v else p2m_at k j.
Proof using.
  intros [[a Ha] _ _ _ _ _ _]. unfold p2m_at, put_p2m. cbn. rewrite Ha. apply arr_get_set.
Qed.

(** A range of slots the code may index without wrapping. *)
Definition slot_range k (first count : Z) : Prop :=
  0 <= first /\ 0 <= count /\ first + count <= kload_p2m_capacity k.

(** The state between writes: slots [first .. first + i) as [f] says, the
    others as in [k]. *)
Definition slots_as k first i (f : Z -> Z) w0 w : Prop :=
  exists k', w = set_kl k' w0 /\ p2m_only k k' /\
    forall j, p2m_at k' j = if decide (first <= j < first + i) then f (j - first)
                            else p2m_at k j.

Lemma slots_as_0 w first f :
  tables_ok (w_kl w) -> slots_as (w_kl w) first 0 f w w.
Proof using.
  intros Ht. exists (w_kl w). split; [by destruct w|]. split; [by apply p2m_only_refl|].
  intros j. by rewrite decide_False by lia.
Qed.

Lemma set_kl_twice k k' w : set_kl k' (set_kl k w) = set_kl k' w.
Proof using. done. Qed.

(** Undo: the slots filled so far become zero. *)
Lemma wp_rollback w0 w first count i f (E : co_rc_value_t -> world OS -> Prop) :
  tables_ok (w_kl w0) -> slot_range (w_kl w0) first count -> 0 <= i <= count ->
  slots_as (w_kl w0) first i f w0 w ->
  wp (mloop (window_rollback_step first) i)
    (fun _ w' => slots_as (w_kl w0) first i (fun _ => 0) w0 w') E w.
Proof using.
  intros Ht Hr Hi Hw. pose proof (slots_bound _ Ht) as [Hcb _].
  pose proof (to_cap _ Ht) as Hc. destruct Hr as (Hf & Hn & Hle).
  apply (wp_mloop _ (fun n w' => 0 <= n <= i /\
      slots_as (w_kl w0) first i (fun j => if decide (j < n) then f j else 0) w0 w')
    (fun n _ => n)).
  - intros n w' (Hni & k' & -> & Hp & Hs). unfold window_rollback_step.
    destruct (Z.ltb_spec 0 n) as [Hn0|Hn0].
    + unfold ulong. rewrite u32_small by lia. wp_step.
      eapply (wp_p2m_set k'); [done|by eapply p2m_only_tables| |].
      { destruct Hp as [p ->]. cbn. lia. }
      apply wp_ret. rewrite set_kl_twice. split; [split; [lia|]|lia].
      eexists. split; [done|]. split; [by apply p2m_only_put|].
      intros j. rewrite p2m_at_put by (by eapply p2m_only_tables). rewrite Hs.
      repeat case_decide; try lia; try done.
    + apply wp_ret. exists k'. split; [done|]. split; [done|].
      intros j. rewrite Hs. repeat case_decide; try lia; done.
  - split; [lia|]. destruct Hw as (k' & -> & Hp & Hs). exists k'. split_and!; [done..|].
    intros j. rewrite Hs. repeat case_decide; try lia; done.
  - lia.
Qed.

(** The fill loop: all the frames, or a zero frame and everything undone. *)
Lemma wp_window_fill w first count mfns (E : co_rc_value_t -> world OS -> Prop) :
  tables_ok (w_kl w) -> slot_range (w_kl w) first count -> count < 2 ^ 32 ->
  Z.of_nat (length mfns) = count ->
  wp (window_fill mfns first count)
    (fun ok w' => if ok : bool
       then (0 ∉ mfns) /\
            slots_as (w_kl w) first count (fun i => default 0 (mfns !! Z.to_nat i)) w w'
       else exists i, mfns !! Z.to_nat i = Some 0 /\ 0 <= i < count /\
            slots_as (w_kl w) first i (fun _ => 0) w w') E w.
Proof using.
  intros Ht Hr Hcount Hlen. pose proof (slots_bound _ Ht) as [Hcb _].
  pose proof (to_cap _ Ht) as Hc. pose proof Hr as (Hf & Hn & Hle).
  set (f := fun i => default 0 (mfns !! Z.to_nat i)).
  apply (wp_mloop _ (fun i w' => 0 <= i <= count /\ (0 ∉ take (Z.to_nat i) mfns) /\
      slots_as (w_kl w) first i f w w') (fun i _ => count - i)).
  - intros i w' (Hi & Hnz & Hw). unfold window_fill_step.
    destruct (Z.ltb_spec i count) as [Hlt|Hge]; cbn [negb].
    2: { apply wp_ret. assert (i = count) by lia. subst i.
         rewrite take_ge in Hnz by lia. done. }
    destruct (lookup_lt_is_Some_2 mfns (Z.to_nat i)) as [m Hm]; [lia|]. rewrite Hm.
    destruct (Z.eqb_spec m 0) as [->|Hm0].
    + wp_step. eapply wp_mono; [by apply (wp_rollback w w' first count i f)| |done].
      intros [] w2 Hw2. apply wp_ret. exists i. split_and!; [done|lia|lia|done].
    + destruct Hw as (k' & -> & Hp & Hs). unfold ulong. rewrite u32_small by lia. wp_step.
      eapply (wp_p2m_set k'); [done|by eapply p2m_only_tables| |].
      { destruct Hp as [p ->]. cbn. lia. }
      apply wp_ret. rewrite set_kl_twice. split; [|lia]. split; [lia|]. split.
      * replace (Z.to_nat (i + 1)) with (S (Z.to_nat i)) by lia.
        rewrite (take_S_r _ _ _ Hm), elem_of_app, list_elem_of_singleton.
        by intros [?|?].
      * eexists. split; [done|]. split; [by apply p2m_only_put|].
        intros j. rewrite p2m_at_put by (by eapply p2m_only_tables). rewrite Hs.
        repeat case_decide; try lia; try done. subst j. unfold f.
        replace (first + i - first) with i by lia. by rewrite Hm.
  - split; [lia|]. split; [set_solver|]. by apply slots_as_0.
  - lia.
Qed.

(** The vacancy scan. *)
Lemma wp_vacant w first count (E : co_rc_value_t -> world OS -> Prop) :
  tables_ok (w_kl w) -> slot_range (w_kl w) first count -> count < 2 ^ 32 ->
  wp (mloop (window_vacant_step first count) 0)
    (fun ok w' => w' = w /\ if ok : bool
       then forall j, first <= j < first + count -> p2m_at (w_kl w) j = 0
       else exists j, first <= j < first + count /\ p2m_at (w_kl w) j <> 0) E w.
Proof using.
  intros Ht (Hf & Hn & Hle) Hcount. pose proof (slots_bound _ Ht) as [Hcb _].
  pose proof (to_cap _ Ht) as Hc.
  apply (wp_mloop _ (fun i w' => w' = w /\ 0 <= i <= count /\
      forall j, first <= j < first + i -> p2m_at (w_kl w) j = 0) (fun i _ => count - i)).
  - intros i w' (-> & Hi & Hz). unfold window_vacant_step.
    destruct (Z.ltb_spec i count) as [Hlt|Hge]; cbn [negb].
    2: { apply wp_ret. split; [done|]. intros j Hj. apply Hz. lia. }
    unfold ulong. rewrite u32_small by lia. wp_step.
    eapply (wp_p2m_get _ w); [done|done|lia|].
    destruct (Z.eqb_spec (p2m_at (w_kl w) (first + i)) 0) as [Hz0|Hz0]; apply wp_ret.
    + split; [|lia]. split_and!; [done|lia|lia|]. intros j Hj.
      destruct (decide (j = first + i)) as [->|]; [done|apply Hz; lia].
    + split; [done|]. exists (first + i). split; [lia|done].
  - split_and!; [done|lia|lia|intros; lia].
  - lia.
Qed.

Lemma slots_as_zero_reads k first count i w w' :
  k = w_kl w -> 0 <= i <= count ->
  (forall j, first <= j < first + count -> p2m_at k j = 0) ->
  slots_as k first i (fun _ => 0) w w' ->
  forall j, p2m_at (w_kl w') j = p2m_at k j.
Proof using.
  intros -> Hi Hz (k' & -> & _ & Hs) j. cbn. rewrite Hs. case_decide; [|done].
  rewrite Hz; [done|lia].
Qed.

(** Placing a window where the caller says. *)
Lemma wp_window_map_at w mfns count pseudo :
  let k := w_kl w in
  let first := pseudo / CO_ARCH_PAGE_SIZE in
  tables_ok k -> 0 <= kload_window_base_pages k ->
  0 <= pseudo < 2 ^ 44 -> first <= kload_p2m_capacity k ->
  Z.of_nat (length mfns) = count -> count < 2 ^ 32 ->
  wp (co_kload_window_map_at (Some mfns) count pseudo)
    (fun _ w' => 0 < count /\ pseudo mod CO_ARCH_PAGE_SIZE = 0 /\ (0 ∉ mfns) /\
       kload_window_base_pages k <= first /\ first + count <= kload_p2m_capacity k /\
       (forall j, first <= j < first + count -> p2m_at k j = 0) /\
       slots_as k first count (fun i => default 0 (mfns !! Z.to_nat i)) w w')
    (fun _ w' => exists k', w' = set_kl k' w /\ p2m_only k k' /\
       forall j, p2m_at k' j = p2m_at k j) w.
Proof using.
  intros k first Ht Hbase0 Hps Hcap Hlen Hcount.
  assert (exists k', w = set_kl k' w /\ p2m_only k k' /\
            forall j, p2m_at k' j = p2m_at k j) as Hsame.
  { exists k. split; [by destruct w|]. split; [by apply p2m_only_refl|done]. }
  pose proof (slots_bound _ Ht) as [Hcb _].
  unfold co_kload_window_map_at.
  assert (ulong (Z.shiftr pseudo CO_ARCH_PAGE_SHIFT) = first) as ->.
  { rewrite Z.shiftr_div_pow2 by done. apply u32_small. subst first.
    change CO_ARCH_PAGE_SIZE with 4096. Z.div_mod_to_equations; lia. }
  assert (Z.land pseudo (CO_ARCH_PAGE_SIZE - 1) = pseudo mod CO_ARCH_PAGE_SIZE) as ->
    by (by apply land_mask).
  wp_step. wp_step; [done|].
  wp_step. apply wp_gets. wp_step. wp_step; [done|].
  do 2 (wp_step; apply wp_gets). wp_step. wp_step; [done|]. subst k. set (k := w_kl w) in *.
  assert (0 <= first) by (subst first; change CO_ARCH_PAGE_SIZE with 4096;
    Z.div_mod_to_equations; lia).
  assert (ulong (kload_p2m_capacity k - first) = kload_p2m_capacity k - first) as Hu
    by (apply u32_small; lia). rewrite Hu in *.
  assert (slot_range k first count) as Hr by (split_and!; lia).
  wp_step. eapply wp_ret_mono; [by apply wp_vacant|].
  intros [] w1 [-> Hv]; wp_step; [apply wp_ret|by apply wp_throw].
  wp_step. eapply wp_ret_mono; [by apply wp_window_fill|].
  intros [] w2 Hw2; [apply wp_ret|apply wp_throw].
  - destruct Hw2 as [Hnz Hw2]. fold k in Hv. split_and!; try done; lia.
  - destruct Hw2 as (i & Hi & Hir & Hw2). 
    pose proof (slots_as_zero_reads k first count i w w2 eq_refl ltac:(lia) Hv Hw2) as Hz.
    destruct Hw2 as (k' & -> & Hp & _). by exists k'.
Qed.

(** The downward allocator. On success the window lies just below the
    previous one; what was in those slots is not looked at. *)
Lemma wp_window_map w mfns count :
  let k := w_kl w in
  let first := kload_window_next k - count in
  tables_ok k -> 0 <= kload_window_base_pages k ->
  0 <= kload_window_next k <= kload_p2m_capacity k ->
  Z.of_nat (length mfns) = count -> count < 2 ^ 32 ->
  wp (co_kload_window_map (Some mfns) count)
    (fun pseudo w' => 0 < count /\ pseudo = first * CO_ARCH_PAGE_SIZE /\ (0 ∉ mfns) /\
       kload_window_base_pages k <= first /\
       exists w1, slots_as k first count (fun i => default 0 (mfns !! Z.to_nat i)) w w1 /\
                  w' = upd_kl (set_window_next first) w1)
    (fun _ w' => exists i, 0 <= i <= count /\ slots_as k first i (fun _ => 0) w w') w.
Proof using.
  intros k first Ht Hbase Hnext Hlen Hcount. pose proof (slots_bound _ Ht) as [Hcb _].
  subst k. set (k := w_kl w) in *.
  assert (exists i, 0 <= i <= count /\ slots_as k first i (fun _ => 0) w w) as Hsame.
  { exists 0. split; [lia|]. by apply slots_as_0. }
  unfold co_kload_window_map. wp_step. wp_step; [done|].
  wp_step. apply wp_gets. wp_step. wp_step; [done|].
  do 2 (wp_step; apply wp_gets). fold k. wp_step. wp_step; [done|].
  assert (ulong (kload_window_next k - count) = first) as Hu by (apply u32_small; lia).
  rewrite Hu in *. wp_step.
  eapply wp_ret_mono; [apply (wp_window_fill w); try done; fold k; split_and!; lia|].
  intros [] w1 Hw1; wp_step; [apply wp_ret|apply wp_throw].
  - destruct Hw1 as [Hnz Hw1]. wp_step. unfold kset. apply wp_modify, wp_ret.
    split_and!; [lia|apply bytes_of_small; lia|done|lia|]. exists w1. done.
  - destruct Hw1 as (i & _ & Hi & Hw1). exists i. split; [lia|done].
Qed.

Lemma wp_window_clear w first count (E : co_rc_value_t -> world OS -> Prop) :
  tables_ok (w_kl w) -> slot_range (w_kl w) first count -> count < 2 ^ 32 ->
  wp (mloop (window_clear_step first count) 0)
    (fun _ w' => slots_as (w_kl w) first count (fun _ => 0) w w') E w.
Proof using.
  intros Ht (Hf & Hn & Hle) Hcount. pose proof (slots_bound _ Ht) as [Hcb _].
  pose proof (to_cap _ Ht) as Hc.
  apply (wp_mloop _ (fun i w' => 0 <= i <= count /\
      slots_as (w_kl w) first i (fun _ => 0) w w') (fun i _ => count - i)).
  - intros i w' (Hi & k' & -> & Hp & Hs). unfold window_clear_step.
    destruct (Z.ltb_spec i count) as [Hlt|Hge]; cbn [negb].
    2: { apply wp_ret. assert (count = i) as -> by lia. by exists k'. }
    unfold ulong. rewrite u32_small by lia. wp_step.
    eapply (wp_p2m_set k'); [done|by eapply p2m_only_tables| |].
    { destruct Hp as [p ->]. cbn. lia. }
    apply wp_ret. rewrite set_kl_twice. split; [|lia]. split; [lia|].
    eexists. split; [done|]. split; [by apply p2m_only_put|].
    intros j. rewrite p2m_at_put by (by eapply p2m_only_tables). rewrite Hs.
    repeat case_decide; try lia; done.
  - split; [lia|]. by apply slots_as_0.
  - lia.
Qed.

(** Unmapping: every slot of the range cleared, the watermark moved up when
    the range starts at it; a range outside the arena changes nothing. *)
Lemma wp_window_unmap w pseudo count (E : co_rc_value_t -> world OS -> Prop) :
  let k := w_kl w in
  let first := pseudo / CO_ARCH_PAGE_SIZE in
  tables_ok k -> 0 <= kload_window_base_pages k ->
  0 <= kload_window_next k <= kload_p2m_capacity k ->
  0 <= pseudo < 2 ^ 44 -> first <= kload_p2m_capacity k -> 0 <= count < 2 ^ 32 ->
  wp (co_kload_window_unmap pseudo count)
    (fun _ w' =>
       if (0 <? count) && (kload_window_base_pages k <=? first)
          && (first + count <=? kload_p2m_capacity k)
       then exists w1, slots_as k first count (fun _ => 0) w w1 /\
         w' = upd_kl (set_window_next (if first =? kload_window_next k then first + count
                                       else kload_window_next k)) w1
       else w' = w) E w.
Proof using.
  intros k first Ht Hbase Hnext Hps Hcap Hcount. pose proof (slots_bound _ Ht) as [Hcb _].
  subst k. set (k := w_kl w) in *. unfold co_kload_window_unmap.
  assert (ulong (Z.shiftr pseudo CO_ARCH_PAGE_SHIFT) = first) as ->.
  { rewrite Z.shiftr_div_pow2 by done. apply u32_small. subst first.
    change CO_ARCH_PAGE_SIZE with 4096. Z.div_mod_to_equations; lia. }
  assert (0 <= first) by (subst first; change CO_ARCH_PAGE_SIZE with 4096;
    Z.div_mod_to_equations; lia).
  destruct (Z.eqb_spec count 0) as [->|Hc0]; [by apply wp_ret|].
  do 3 (wp_step; apply wp_gets). fold k.
  assert (ulong (kload_p2m_capacity k - first) = kload_p2m_capacity k - first) as ->
    by (apply u32_small; lia).
  rewrite bool_decide_eq_false_2 by (destruct (to_p2m _ Ht) as [a ->]; done). cbn [orb].
  rewrite (proj2 (Z.ltb_lt 0 count)) by lia. cbn [andb].
  destruct (Z.ltb_spec first (kload_window_base_pages k));
    [rewrite (proj2 (Z.leb_gt _ _)) by lia; by apply wp_ret|].
  rewrite (proj2 (Z.leb_le (kload_window_base_pages k) _)) by lia. cbn [orb andb].
  destruct (Z.ltb_spec (kload_p2m_capacity k - first) count);
    [rewrite (proj2 (Z.leb_gt _ _)) by lia; by apply wp_ret|].
  rewrite (proj2 (Z.leb_le _ _)) by lia. wp_step.
  eapply wp_ret_mono; [apply (wp_window_clear w); try lia; fold k; [done|split_and!; lia]|].
  intros [] w1 Hw1. wp_step. apply wp_gets.
  assert (kload_window_next (w_kl w1) = kload_window_next k) as ->.
  { destruct Hw1 as (k' & -> & [p ->] & _). done. }
  destruct (Z.eqb_spec first (kload_window_next k)) as [Heq|Hne].
  - unfold kset. apply wp_modify. exists w1. split; [done|].
    rewrite <- Heq. unfold ulong. by rewrite u32_small by lia.
  - apply wp_ret. exists w1. split; [done|].
    destruct Hw1 as (k' & -> & [p ->] & _). reflexivity.
Qed.

(** *** Properties *)

Lemma slots_as_state k first i f w w' :
  slots_as k first i f w w' -> k = w_kl w ->
  w' = set_kl (w_kl w') w /\ p2m_only (w_kl w) (w_kl w').
Proof using. intros (k' & -> & Hp & _) ->. done. Qed.

(** Placing a window is all or nothing. [co_kload_window_map_at] either
    fills exactly the slots asked for, all of which were vacant and inside
    the arena, with the frames given; or it fails and every p2m entry reads
    as before. *)
Theorem window_map_at_all_or_nothing w mfns pseudo :
  tables_ok (w_kl w) -> 0 <= kload_window_base_pages (w_kl w) ->
  0 <= pseudo < 2 ^ 44 ->
  pseudo / CO_ARCH_PAGE_SIZE <= kload_p2m_capacity (w_kl w) ->
  Z.of_nat (length mfns) < 2 ^ 32 ->
  let count := Z.of_nat (length mfns) in
  let first := pseudo / CO_ARCH_PAGE_SIZE in
  match co_kload_window_map_at (Some mfns) count pseudo w with
  | (Ret _, w') =>
      kload_window_base_pages (w_kl w) <= first /\
      first + count <= kload_p2m_capacity (w_kl w) /\
      forall j, if decide (first <= j < first + count)
                then p2m_at (w_kl w) j = 0 /\
                     Some (p2m_at (w_kl w') j) = mfns !! Z.to_nat (j - first) /\
                     p2m_at (w_kl w') j <> 0
                else p2m_at (w_kl w') j = p2m_at (w_kl w) j
  | (Fail _, w') => forall j, p2m_at (w_kl w') j = p2m_at (w_kl w) j
  | (Fault, _) => False
  end.
Proof using.
  intros Ht Hb Hps Hcap Hlen count first.
  pose proof (wp_window_map_at w mfns count pseudo Ht Hb Hps Hcap eq_refl Hlen) as Hwp.
  unfold wp in Hwp. destruct (co_kload_window_map_at _ _ _ w) as [[r|rc|] w'] in Hwp |- *; [|by destruct Hwp as (k' & -> & _ & Hk')|done].
  destruct Hwp as (Hc0 & _ & Hnz & Hbase & Hend & Hvac & (k' & -> & Hp & Hs)).
  split_and!; [done|done|]. intros j. cbn. rewrite Hs. fold first.
  destruct (decide (first <= j < first + count)) as [Hj|Hj]; [|done].
  destruct (lookup_lt_is_Some_2 mfns (Z.to_nat (j - first))) as [m Hm]; [lia|].
  rewrite Hm. cbn. split_and!; [by apply Hvac|done|].
  intros ->. apply Hnz. by eapply list_elem_of_lookup_2.
Qed.

(** Unmapping undoes placing. After a successful
    [co_kload_window_map_at], [co_kload_window_unmap] of the same range gives
    back a p2m that reads as before the mapping. *)
Theorem window_unmap_undoes_map_at w mfns pseudo w1 :
  tables_ok (w_kl w) -> 0 <= kload_window_base_pages (w_kl w) ->
  0 <= kload_window_next (w_kl w) <= kload_p2m_capacity (w_kl w) ->
  0 <= pseudo < 2 ^ 44 ->
  pseudo / CO_ARCH_PAGE_SIZE <= kload_p2m_capacity (w_kl w) ->
  Z.of_nat (length mfns) < 2 ^ 32 ->
  co_kload_window_map_at (Some mfns) (Z.of_nat (length mfns)) pseudo w = (Ret tt, w1) ->
  exists w2, co_kload_window_unmap pseudo (Z.of_nat (length mfns)) w1 = (Ret tt, w2) /\
    forall j, p2m_at (w_kl w2) j = p2m_at (w_kl w) j.
Proof using.
  intros Ht Hb Hnx Hps Hcap Hlen Hrun. set (count := Z.of_nat (length mfns)) in *.
  pose proof (wp_window_map_at w mfns count pseudo Ht Hb Hps Hcap eq_refl Hlen) as Hwp.
  unfold wp in Hwp. rewrite Hrun in Hwp.
  destruct Hwp as (Hc0 & _ & _ & Hbase & Hend & Hvac & (k1 & -> & Hp1 & Hs1)).
  pose proof (p2m_only_tables _ _ Ht Hp1) as Ht1.
  set (first := pseudo / CO_ARCH_PAGE_SIZE) in *.
  assert (kload_p2m_capacity k1 = kload_p2m_capacity (w_kl w) /\
          kload_window_base_pages k1 = kload_window_base_pages (w_kl w) /\
          kload_window_next k1 = kload_window_next (w_kl w)) as (Ec & Eb & En)
    by (destruct Hp1 as [p ->]; done).
  pose proof (wp_window_unmap (set_kl k1 w) pseudo count (fun _ _ => False) Ht1) as Hun.
  cbn [w_kl set_kl] in Hun. rewrite Ec, Eb, En in Hun. fold first in Hun.
  specialize (Hun Hb Hnx Hps Hcap ltac:(lia)). unfold wp in Hun.
  destruct (co_kload_window_unmap pseudo count (set_kl k1 w)) as [[[]|rc|] w2]; [|done..].
  rewrite (proj2 (Z.ltb_lt 0 count)), (proj2 (Z.leb_le _ first)), (proj2 (Z.leb_le _ _)) in Hun
    by lia. cbn [andb] in Hun. destruct Hun as (w3 & (k3 & -> & _ & Hs3) & ->).
  eexists. split; [done|]. intros j. cbn.
  change (p2m_at (set_window_next _ k3) j) with (p2m_at k3 j). rewrite Hs3, Hs1.
  destruct (decide (first <= j < first + count)) as [Hj|]; [|done].
  symmetry. by apply Hvac.
Qed.

Lemma window_map_runs w mfns :
  let count := Z.of_nat (length mfns) in
  let first := kload_window_next (w_kl w) - count in
  tables_ok (w_kl w) -> 0 <= kload_window_base_pages (w_kl w) <= first ->
  kload_window_next (w_kl w) <= kload_p2m_capacity (w_kl w) ->
  0 < count < 2 ^ 32 -> (0 ∉ mfns) ->
  wp (co_kload_window_map (Some mfns) count)
    (fun pseudo w' => pseudo = first * CO_ARCH_PAGE_SIZE /\
       kload_window_next (w_kl w') = first /\
       forall j, if decide (first <= j < first + count)
                 then Some (p2m_at (w_kl w') j) = mfns !! Z.to_nat (j - first)
                 else p2m_at (w_kl w') j = p2m_at (w_kl w) j)
    (fun _ _ => False) w.
Proof using.
  intros count first Ht Hb Hn Hc Hnz. pose proof (slots_bound _ Ht) as [Hcb _].
  unfold co_kload_window_map, kl, kset. wp_step. wp_step; [lia|].
  wp_step. apply wp_gets.
  rewrite bool_decide_eq_false_2 by (destruct (to_p2m _ Ht) as [a ->]; done).
  wp_step. apply wp_ret. do 2 (wp_step; apply wp_gets).
  assert (ulong (kload_window_next (w_kl w) - count) = first) as ->
    by (subst first; apply u32_small; lia).
  rewrite (proj2 (Z.ltb_ge _ _)), (proj2 (Z.ltb_ge _ _)) by lia.
  wp_step. apply wp_ret. wp_step.
  eapply wp_ret_mono; [apply (wp_window_fill w); try done; [split_and!; lia|lia]|].
  intros [] w1 Hw1; wp_step; [apply wp_ret|].
  - destruct Hw1 as (_ & k' & -> & _ & Hs). wp_step. apply wp_modify, wp_ret.
    split_and!; [apply bytes_of_small; lia|done|]. intros j. cbn.
    change (p2m_at (set_window_next first k') j) with (p2m_at k' j). rewrite Hs.
    destruct (decide (first <= j < first + count)); [|done].
    destruct (lookup_lt_is_Some_2 mfns (Z.to_nat (j - first))) as [m Hm]; [lia|].
    by rewrite Hm.
  - destruct Hw1 as (i & Hi & _). destruct Hnz. by eapply list_elem_of_lookup_2.
Qed.

(** The downward allocator does not look at the slots it takes. Below
    the watermark and above the arena's base, [co_kload_window_map] succeeds
    and stores its frames whatever those slots held: a window that
    [co_kload_window_map_at] placed there is overwritten, not refused. *)
Theorem window_map_ignores_occupancy w mfns :
  let count := Z.of_nat (length mfns) in
  let first := kload_window_next (w_kl w) - count in
  tables_ok (w_kl w) -> 0 <= kload_window_base_pages (w_kl w) <= first ->
  kload_window_next (w_kl w) <= kload_p2m_capacity (w_kl w) ->
  0 < count < 2 ^ 32 -> (0 ∉ mfns) ->
  exists w', co_kload_window_map (Some mfns) count w = (Ret (first * CO_ARCH_PAGE_SIZE), w') /\
    kload_window_next (w_kl w') = first /\
    forall j, if decide (first <= j < first + count)
              then Some (p2m_at (w_kl w') j) = mfns !! Z.to_nat (j - first)
              else p2m_at (w_kl w') j = p2m_at (w_kl w) j.
Proof using.
  intros count first Ht Hb Hn Hc Hnz.
  destruct (wp_total _ _ _ (window_map_runs w mfns Ht Hb Hn Hc Hnz))
    as (r & w' & Hrun & -> & Hrest).
  exists w'. by split.
Qed.
(** Past the end of the p2m the range check of
    [co_kload_window_map_at] wraps around. Any page-aligned address whose
    page number exceeds the capacity passes it, and when that page lies
    beyond the memory of the table too, the vacancy scan reads outside the
    table. *)
Theorem window_map_at_overruns w mfns pseudo :
  let first := pseudo / CO_ARCH_PAGE_SIZE in
  let count := Z.of_nat (length mfns) in
  tables_ok (w_kl w) -> kload_window_base_pages (w_kl w) <= first < 2 ^ 32 ->
  pseudo mod CO_ARCH_PAGE_SIZE = 0 -> 0 <= pseudo ->
  kload_p2m_alloc_pages (w_kl w) * 512 <= first ->
  kload_p2m_capacity (w_kl w) < first ->
  0 < count <= 2 ^ 32 + kload_p2m_capacity (w_kl w) - first ->
  co_kload_window_map_at (Some mfns) count pseudo w = (Fault, w).
Proof using.
  intros first count Ht Hf Hal Hps Hn Hc Hcount.
  destruct (to_p2m _ Ht) as [a Ha]. pose proof (to_cap _ Ht) as Hcap.
  assert (Z.shiftr pseudo CO_ARCH_PAGE_SHIFT = first) as Hsh
    by (rewrite Z.shiftr_div_pow2 by done; done).
  assert (Z.land pseudo (CO_ARCH_PAGE_SIZE - 1) = 0) as Hland.
  { change (CO_ARCH_PAGE_SIZE - 1) with (2 ^ 12 - 1). by rewrite land_mask. }
  assert (ulong (kload_p2m_capacity (w_kl w) - first)
          = 2 ^ 32 + kload_p2m_capacity (w_kl w) - first) as Hwrap.
  { unfold ulong, u32. symmetry. apply (Z.mod_unique _ _ (-1)); lia. }
  assert (mloop (window_vacant_step first count) 0 w = (Fault, w)) as Hscan.
  { apply mloop_fault. unfold window_vacant_step.
    rewrite (proj2 (Z.ltb_lt 0 count)) by lia. cbn [negb].
    unfold p2m_get, kl, gets, mbind, M_bind, in_bounds, ulong. rewrite Z.add_0_r, Ha.
    rewrite u32_small by lia. cbn.
    rewrite (proj2 (Z.ltb_ge first _)); [by rewrite andb_false_r|].
    change (CO_ARCH_PAGE_SIZE) with 4096. unfold p2m_cell_bytes. Z.div_mod_to_equations; lia. }
  unfold co_kload_window_map_at. rewrite Hsh, Hland.
  assert (ulong first = first) as -> by (apply u32_small; lia).
  rewrite (run_bind _ _ w tt w)
    by (apply run_passes; by rewrite (proj2 (Z.eqb_neq count 0)) by lia).
  rewrite (run_bind _ _ w (Some a) w) by (unfold kl, gets; by rewrite Ha).
  rewrite (run_bind _ _ w tt w) by done.
  rewrite (run_bind _ _ w (kload_window_base_pages (w_kl w)) w) by done.
  rewrite (run_bind _ _ w (kload_p2m_capacity (w_kl w)) w) by done.
  rewrite (run_bind _ _ w tt w).
  { by apply run_bind_fault. }
  apply run_passes. rewrite Hwrap.
  by rewrite (proj2 (Z.ltb_ge first _)), (proj2 (Z.ltb_ge _ count)) by lia.
Qed.
End windows.
