(* ===== verification/Translation.v ===== *)
(** The translation tables come into being ([kload_translation_alloc]): their
    sizes, and that an empty machine satisfies [frames_ok]. *)
From S2P Require Import Prelude.
From S2P Require Import Rc.
From S2P Require Import Mem.
From S2P Require Import Mmu.
From S2P Require Import Space.
From S2P Require Import Host.
From S2P Require Import Frames.
From S2P Require Import FramesOk.
From S2P Require Import Grow.

Section translation.
Context {OS : Type} `{HostLaws OS}.
Implicit Types (o : OS) (k : kload_statics) (w : world OS).

(** The doubling loop finds the first power of two that is large enough. *)
Lemma wp_m2p_slots w wanted (E : co_rc_value_t -> world OS -> Prop) :
  kload_m2p_slots (w_kl w) = 1 -> 0 < wanted < 2 ^ 32 ->
  wp (mloop (m2p_slots_step wanted) tt)
    (fun ok w' => exists sh, 0 <= sh < 32 /\ w' = upd_kl (set_m2p_slots (2 ^ sh)) w /\
       (if ok : bool then wanted <= 2 ^ sh else 2 ^ sh < wanted) /\ (sh = 0 \/ 2 ^ (sh - 1) < wanted))
    E w.
Proof using.
  intros H1 Hw.
  apply (wp_mloop _ (fun _ w' => exists sh, 0 <= sh < 32 /\
      w' = upd_kl (set_m2p_slots (2 ^ sh)) w /\ (sh = 0 \/ 2 ^ (sh - 1) < wanted))
    (fun _ w' => 2 ^ 32 - kload_m2p_slots (w_kl w'))).
  - intros [] w' (sh & Hsh & -> & Hleast). unfold m2p_slots_step, kl.
    wp_step. apply wp_gets. cbn [w_kl upd_kl set_kl set_m2p_slots kload_m2p_slots].
    wp_step; [apply wp_ret; exists sh; split_and!; first [done|lia]|].
    change (Z.shiftr (2 ^ 32 - 1) 1) with (2 ^ 31 - 1).
    assert (sh <> 31 -> sh < 31) as Hlt by lia.
    wp_step; [apply wp_ret; exists sh; split_and!; first [done|lia]|].
    assert (sh < 31) as Hs.
    { destruct (decide (sh = 31)) as [->|]; [lia|auto]. }
    assert (0 < 2 ^ sh) by (apply Z.pow_pos_nonneg; lia).
    assert (2 ^ (sh + 1) = 2 * 2 ^ sh) as Hdbl by (rewrite Z.pow_add_r by lia; lia).
    assert (2 ^ (sh + 1) <= 2 ^ 31) by (apply Z.pow_le_mono_r; lia).
    wp_step. unfold kset. apply wp_modify, wp_ret.
    assert (ulong (Z.shiftl (2 ^ sh) 1) = 2 ^ (sh + 1)) as ->.
    { rewrite Z.shiftl_mul_pow2 by lia. unfold ulong. rewrite u32_small by lia. lia. }
    split; [|cbn; lia]. exists (sh + 1). split_and!; [lia|lia|done|].
    right. replace (sh + 1 - 1) with sh by lia. lia.
  - exists 0. split_and!; [lia|lia| |by left]. change (2 ^ 0) with 1. rewrite <- H1.
    destruct w as [m o k]; by destruct k.
  - lia.
Qed.

(** Nothing is backed yet. *)
Record no_ram k : Prop := {
  nr_count : kload_block_count k = 0;
  nr_backed : kload_backed_pages k = 0;
  nr_hit : 0 <= kload_last_hit k < CO_KLOAD_MAX_BLOCKS;
}.

Lemma frames_ok_empty o k :
  os_ok o -> tables_ok k -> no_ram k -> cells_of (kload_p2m k) = ∅ ->
  cells_of (kload_m2p k) = ∅ -> frames_ok o k.
Proof using.
  intros Ho Ht [Hc Hb Hh] Hp Hm. pose proof (slots_bound _ Ht) as [Hcb _].
  pose proof (to_room _ Ht). split; try done.
  - lia.
  - rewrite Hc. done.
  - rewrite Hc, Hb. split; [intros; lia|lia|intros; lia|]. by rewrite decide_True.
  - unfold hash_ok. rewrite Hp, Hm, Hb. split; [lia|intros; lia|intros; lia| |done].
    intros s. rewrite arr_get_empty. lia.
  - intros i j Hi. lia.
Qed.

(** The arithmetic of the sizes. *)
Lemma cells_fit n cell per :
  0 <= n -> cell * per = CO_ARCH_PAGE_SIZE -> 0 < per -> n * cell < 2 ^ 40 ->
  n <= pages_of (u64 (u64 (n * cell) + CO_ARCH_PAGE_SIZE - 1)) * per /\
  pages_of (u64 (u64 (n * cell) + CO_ARCH_PAGE_SIZE - 1)) <= 2 ^ 32 - 1 /\
  0 <= pages_of (u64 (u64 (n * cell) + CO_ARCH_PAGE_SIZE - 1)) /\
  (0 < n -> 0 < pages_of (u64 (u64 (n * cell) + CO_ARCH_PAGE_SIZE - 1))).
Proof using.
  intros Hn Hc Hp Hb. assert (0 < cell) by (change CO_ARCH_PAGE_SIZE with 4096 in Hc; nia).
  change CO_ARCH_PAGE_SIZE with 4096 in *. rewrite (u64_small (n * cell)) by nia.
  unfold pages_of. change CO_ARCH_PAGE_SHIFT with 12.
  rewrite u64_small by nia. rewrite Z.shiftr_div_pow2 by lia.
  change (2 ^ 12) with 4096. rewrite <- Hc in *.
  assert (n * cell <= (n * cell + cell * per - 1) / (cell * per) * (cell * per)) as Hle
    by (Z.div_mod_to_equations; lia).
  split; [nia|]. split; [Z.div_mod_to_equations; nia|].
  split; [Z.div_mod_to_equations; nia|]. intros Hpos. nia.
Qed.

(** Only the fields of the translation tables differ. *)
Definition translation_only w w' : Prop :=
  w' = set_os (w_os w') (set_kl
    (set_p2m (kload_p2m (w_kl w')) (set_m2p (kload_m2p (w_kl w'))
      (set_p2m_alloc_pages (kload_p2m_alloc_pages (w_kl w'))
        (set_m2p_alloc_pages (kload_m2p_alloc_pages (w_kl w'))
          (set_p2m_capacity (kload_p2m_capacity (w_kl w'))
            (set_window_next (kload_window_next (w_kl w'))
              (set_m2p_slots (kload_m2p_slots (w_kl w'))
                (set_m2p_mask_value (kload_m2p_mask_value (w_kl w')) (w_kl w))))))))) w).

Lemma translation_only_refl w : translation_only w w.
Proof using. destruct w as [m o k]. by destruct k. Qed.

Lemma translation_only_trans w1 w2 w3 :
  translation_only w1 w2 -> translation_only w2 w3 -> translation_only w1 w3.
Proof using.
  unfold translation_only. intros H1 H2. etrans; [exact H2|]. rewrite H1. reflexivity.
Qed.

(** What a refused allocation leaves: no tables, and nothing of the host. *)
Definition translation_refused w w' : Prop :=
  translation_only w w' /\ kload_p2m (w_kl w') = kload_p2m (w_kl w) /\
  kload_m2p (w_kl w') = kload_m2p (w_kl w) /\ os_ok (w_os w').

Lemma wp_translation_alloc w capacity :
  os_ok (w_os w) -> no_ram (w_kl w) -> 0 <= capacity < 2 ^ 32 ->
  kload_p2m (w_kl w) = None -> kload_m2p (w_kl w) = None ->
  wp (kload_translation_alloc capacity)
    (fun _ w' => translation_only w w' /\ frames_ok (w_os w') (w_kl w') /\
       0 < kload_p2m_capacity (w_kl w') /\ kload_p2m_capacity (w_kl w') = capacity /\
       kload_window_next (w_kl w') = capacity /\
       (forall i, p2m_at (w_kl w') i = 0))
    (fun _ => translation_refused w) w.
Proof using.
  intros Ho Hnr Hcap Hp0 Hm0. unfold kload_translation_alloc, kl, kset.
  assert (translation_refused w w) as Hsame
    by (split_and!; [apply translation_only_refl|done..]).
  wp_step. wp_step; [done|].
  assert ((capacity + 1) / 2 <= capacity /\ 1 <= (capacity + 1) / 2) as Hhalf
    by (Z.div_mod_to_equations; lia).
  rewrite (u64_small (capacity + 1)), (u64_small (capacity + (capacity + 1) / 2)) by lia.
  set (wanted := capacity + (capacity + 1) / 2) in *.
  wp_step. wp_step; [done|]. wp_step. apply wp_modify.
  set (w1 := upd_kl (set_m2p_slots 1) w). wp_step.
  eapply wp_ret_mono; [apply (wp_m2p_slots w1 wanted); [done|lia]|].
  intros ok w2 (sh & Hsh & -> & Hfit & _).
  wp_step. destruct ok; [apply wp_ret|apply wp_throw; by split_and!].
  wp_step. apply wp_gets. wp_step. apply wp_modify.
  cbn [w_kl upd_kl set_kl kload_m2p_slots set_m2p_slots].
  assert (0 < 2 ^ sh <= 2 ^ 31) as Hsl
    by (split; [apply Z.pow_pos_nonneg; lia|apply Z.pow_le_mono_r; lia]).
  assert (ulong (2 ^ sh - 1) = 2 ^ sh - 1) as -> by (apply u32_small; lia).
  set (slots := 2 ^ sh) in *.
  destruct (cells_fit capacity p2m_cell_bytes 512) as (Hpf & Hpl & Hp1 & Hp2); try done; try lia.
  { change p2m_cell_bytes with 8. lia. }
  destruct (cells_fit slots m2p_cell_bytes 1024) as (Hmf & Hml & Hm1 & Hm2); try done; try lia.
  { change m2p_cell_bytes with 4. lia. }
  set (pa := pages_of (u64 (u64 (capacity * p2m_cell_bytes) + CO_ARCH_PAGE_SIZE - 1))) in *.
  set (ma := pages_of (u64 (u64 (slots * m2p_cell_bytes) + CO_ARCH_PAGE_SIZE - 1))) in *.
  wp_step. destruct (_ || _)%bool eqn:Hbig.
  { do 2 (wp_step; apply wp_modify). apply wp_throw. by split_and!. }
  clear Hbig. apply wp_ret. wp_step.
  wp_step; [lia|]. wp_step. apply wp_modify. wp_step. wp_step; [lia|].
  wp_step. apply wp_modify. wp_step. rewrite !u32_small by lia.
  apply wp_host. cbn [w_os upd_kl set_kl]. intros p2m o1 Hrun1. change (w_os w1) with (w_os w) in Hrun1.
  pose proof (law_alloc_cached (w_os w) pa Ho ltac:(lia)) as Hl1. rewrite Hrun1 in Hl1.
  destruct p2m as [pva|].
  2: { do 3 (wp_step; apply wp_modify). apply wp_throw. destruct Hl1. by split_and!. }
  destruct Hl1 as [Ho1 _]. wp_step. apply wp_modify. wp_step.
  apply wp_host. cbn [w_os upd_kl set_kl set_os]. intros m2p o2 Hrun2.
  pose proof (law_alloc_cached o1 ma Ho1 ltac:(lia)) as Hl2. rewrite Hrun2 in Hl2.
  destruct m2p as [mva|].
  2: { destruct Hl2 as [Ho2 _]. unfold host_do.
       do 6 (wp_step; apply wp_modify). apply wp_throw.
       cbn. split_and!; [done|done|done|by apply law_free_cached]. }
  destruct Hl2 as [Ho2 _]. do 2 (wp_step; apply wp_modify). apply wp_modify.
  lazymatch goal with |- translation_only _ ?w' /\ _ => assert (tables_ok (w_kl w')) as Ht end.
  { split; cbn; [by eexists|by eexists|lia|by exists sh|lia|done|lia]. }
  split; [done|]. split_and!; try done; [|cbn; lia].
  apply frames_ok_empty; try done. destruct Hnr. by split.
Qed.
End translation.
