(* ===== verification/Kload.v ===== *)
(** The loader ([kernel/kload.c], second half, and the address publishing of
    [console.c], [net.c] and [vgpu.c]): page tables carved out of guest RAM,
    access to guest memory through them, teardown and its deferral while a
    user mapping is alive, and the steps of loading a kernel. *)
From S2P Require Import Prelude.
From S2P Require Import Rc.
From S2P Require Import Mem.
From S2P Require Import Mmu.
From S2P Require Import Space.
From S2P Require Import Host.
From S2P Require Import Frames.

Definition CO_KLOAD_MAX_RAM_BYTES : Z := Z.shiftl 128 30.
Definition CO_KLOAD_MIN_TABLE_BYTES : Z := Z.shiftl 4 20.
Definition CO_KLOAD_WINDOW_ARENA_BYTES : Z := Z.shiftl 4 30.
Definition CO_KREAD_MAX_BYTES : Z := 2 * 1024 * 1024.
Definition CO_KLOAD_P2M_VA : Z := 0xffffe99f80000000.
Definition CO_KLOAD_M2P_VA : Z := 0xffffe99fc0000000.
Definition CO_KLOAD_PFN_MASK : Z := 0x000ffffffffff000.
Definition CO_VGPU_NUM_VQS : Z := 2.
(** Offset of [vq[i].kick] in [struct co_vgpu_io]. *)
Definition vgpu_kick_offset (i : Z) : Z := 40 + i * 32 + 28.

Section kload.
Context {OS : Type} `{HostOS OS}.

Abbreviation D := (M (world OS)).

(** What space.c finds around it: with the hooks installed, tables come from
    and are visible in guest RAM; without, they are pages of the host. *)
#[export] Instance kload_env : SpaceEnv (world OS) := {|
  env_mem := w_mem;
  env_upd_mem := upd_mem;
  co_space_frame_source w := if w_hooks w then Some co_kload_table_frame else None;
  co_space_frame_mapper w := if w_hooks w then Some co_kload_frame_va else None;
  co_os_get_page := p ← host host_get_page;
                    match p with Some p => mret p | None => throw CO_RC_OUT_OF_MEMORY end;
  co_os_put_page pfn := host_do (host_put_page pfn);
  co_os_map pfn := host (host_map pfn);
  co_os_unmap p pfn := host_do (host_unmap p pfn);
|}.

Definition co_arch_guest_space_set_frame_source (installed : bool) : D unit :=
  modify (set_hooks installed).

(** Run an operation on [kload_space]; a NULL space is dereferenced. *)
Definition on_space {A} (m : M (world OS * co_arch_guest_space) A) : D A := fun w =>
  match kload_space (w_kl w) with
  | None => (Fault, w)
  | Some s => let '(r, (w', s')) := m (w, s) in (r, upd_kl (set_space (Some s')) w')
  end.

(** The walk every reader makes: code and [*pa_out]. *)
Definition lookup_space (va : Z) : D (co_rc_value_t * Z) :=
  s ← kl kload_space;
  match s with
  | None => fault
  | Some s => r ← co_arch_guest_lookup s va; mret r.1
  end.

(** [!CO_OK(lookup) || !pa] fails with [NOT_FOUND], a frame outside guest
    RAM with [ERROR]. *)
Definition page_ptr (lookup : Z -> D (co_rc_value_t * Z)) (va : Z) : D Z :=
  r ← lookup va;
  fail_if (negb (CO_OK r.1) || (r.2 =? 0))%bool CO_RC_NOT_FOUND ;;
  p ← co_kload_frame_va (Z.shiftr r.2 CO_ARCH_PAGE_SHIFT);
  match p with None => throw CO_RC_ERROR | Some p => mret p end.

(** *** The page loop

    [while (size) { offset; part; ...; va += part; size -= part; }] with the
    page found by [resolve] and used by [act], which threads [b]. *)
Definition xfer_step {R B} (resolve : Z -> D R) (act : B -> R -> Z -> Z -> D B)
    (st : Z * Z * B) : D ((Z * Z * B) + B) :=
  let '(va, size, b) := st in
  if size =? 0 then mret (inr b) else
  let offset := ulong (page_off va) in
  let part := CO_ARCH_PAGE_SIZE - offset in
  let part := if size <? part then size else part in
  r ← resolve va;
  b' ← act b r offset part;
  mret (inl (u64 (va + part), ulong (size - part), b')).

Definition xfer {R B} (resolve : Z -> D R) (act : B -> R -> Z -> Z -> D B)
    (va size : Z) (b : B) : D B :=
  mloop (xfer_step resolve act) (va, size, b).

(** [co_memcpy(buf, p + offset, part)]: the buffer is the bytes so far. *)
Definition act_read (buf : list Z) (p offset part : Z) : D (list Z) :=
  bs ← gets (fun w => load_bytes (w_mem w) (p + offset) part);
  mret (buf ++ bs).

(** [co_memcpy(p + offset, buf, part)]: what is left of the data. *)
Definition act_write (data : list Z) (p offset part : Z) : D (list Z) :=
  in_bounds (part <=? Z.of_nat (length data)) ;;
  modify (upd_mem (fun m => store_bytes m (p + offset) (take (Z.to_nat part) data))) ;;
  mret (drop (Z.to_nat part) data).

(** FNV-1a over a page's part. *)
Definition fnv_prime : Z := 1099511628211.
Definition fnv_offset_basis : Z := 1469598103934665603.
Definition fnv_step (sum b : Z) : Z := u64 (Z.lxor sum b * fnv_prime).
Definition act_sum (sum p offset part : Z) : D Z :=
  gets (fun w => fold_left fnv_step (load_bytes (w_mem w) (p + offset) part) sum).

(** *** Reading and writing guest memory *)

Definition need_space : D unit :=
  s ← kl kload_space; fail_if (bool_decide (s = None)) CO_RC_ERROR.

Definition co_kload_read (va size : Z) : D (list Z) :=
  need_space ;; xfer (page_ptr lookup_space) act_read va size [].

Definition co_kload_read_locked (va size : Z) : D (list Z) :=
  fail_if (CO_KREAD_MAX_BYTES <? size) CO_RC_INVALID_PARAMETER ;;
  need_space ;; co_kload_read va size.

Definition co_kload_write (va : Z) (buf : list Z) (size : Z) : D unit :=
  need_space ;; xfer (page_ptr lookup_space) act_write va size buf ;; mret tt.

Definition co_kload_verify (va size : Z) : D Z :=
  need_space ;; xfer (page_ptr lookup_space) act_sum va size fnv_offset_basis.

Definition cr3_root (cr3 : Z) : Z := Z.shiftr (Z.land cr3 CO_ARCH_PAGE_MASK) CO_ARCH_PAGE_SHIFT.

Definition lookup_cr3 (cr3 va : Z) : D (co_rc_value_t * Z) :=
  r ← co_arch_guest_lookup_root (cr3_root cr3) va; mret r.1.

Definition co_kload_read_cr3 (cr3 va size : Z) : D (list Z) :=
  fail_if (cr3 =? 0) CO_RC_ERROR ;;
  xfer (page_ptr (lookup_cr3 cr3)) act_read va size [].

Definition co_kload_write_cr3 (cr3 va : Z) (buf : list Z) (size : Z) : D unit :=
  fail_if (cr3 =? 0) CO_RC_ERROR ;;
  xfer (page_ptr (lookup_cr3 cr3)) act_write va size buf ;; mret tt.

(** A host pointer for one address, or NULL. *)
Definition co_kload_host_ptr (va : Z) : D (option Z) :=
  s ← kl kload_space;
  if bool_decide (s = None) then mret None else
  r ← lookup_space va;
  if (negb (CO_OK r.1) || (r.2 =? 0))%bool then mret None else
  p ← co_kload_frame_va (Z.shiftr r.2 CO_ARCH_PAGE_SHIFT);
  mret ((fun p => p + ulong (page_off va)) <$> p).

Definition co_kload_virt_to_phys (va : Z) : D Z :=
  s ← kl kload_space;
  fail_if (bool_decide (s = None)) CO_RC_NOT_FOUND ;;
  r ← lookup_space va;
  fail_if (negb (CO_OK r.1) || (r.2 =? 0))%bool CO_RC_NOT_FOUND ;;
  p ← kload_machine_to_pseudo_pfn (Z.shiftr r.2 CO_ARCH_PAGE_SHIFT);
  match p with
  | None => throw CO_RC_NOT_FOUND
  | Some ppfn => mret (Z.lor (bytes_of ppfn) (page_off va))
  end.

Definition co_kload_read_u32 (va : Z) : D Z :=
  fail_if (negb (Z.land va 3 =? 0)) CO_RC_INVALID_PARAMETER ;;
  p ← co_kload_host_ptr va;
  match p with
  | None => throw CO_RC_NOT_FOUND
  | Some p => gets (fun w => load_u32 (w_mem w) p)
  end.

Definition co_kload_write_u32 (va value : Z) : D unit :=
  fail_if (negb (Z.land va 3 =? 0)) CO_RC_INVALID_PARAMETER ;;
  p ← co_kload_host_ptr va;
  match p with
  | None => throw CO_RC_NOT_FOUND
  | Some p => modify (upd_mem (fun m => store_u32 m p value))
  end.

(** *** The published addresses *)

Definition co_console_set_address (va : Z) : D unit :=
  modify (fun w => World (w_mem w) (w_os w) (w_kl w) (w_hooks w) va (net_io_va w)
                     (vgpu_io_va w) (vgpu_kick_frame w) (w_locks w)).

Definition co_net_set_address (va : Z) : D unit :=
  modify (fun w => World (w_mem w) (w_os w) (w_kl w) (w_hooks w) (console_io_va w) va
                     (vgpu_io_va w) (vgpu_kick_frame w) (w_locks w)).

Definition set_vgpu (va : Z) (frames : gmap Z Z) : D unit :=
  modify (fun w => World (w_mem w) (w_os w) (w_kl w) (w_hooks w) (console_io_va w)
                     (net_io_va w) va frames (w_locks w)).

(** NULL kick pointers first, then each queue's counter resolved once. *)
Definition co_vgpu_set_address (va : Z) : D unit :=
  set_vgpu va ∅ ;;
  if va =? 0 then mret tt else
  mfor (Z.to_nat CO_VGPU_NUM_VQS) 0 (fun i =>
    p ← co_kload_host_ptr (u64 (va + vgpu_kick_offset i));
    frames ← gets vgpu_kick_frame;
    set_vgpu va (match p with Some p => <[i := p]> frames | None => delete i frames end)).

(** *** Teardown *)

Definition release_block (i : Z) : D unit :=
  b ← block_get i;
  if block_va b =? 0 then mret tt else
  block_set i null_block ;;
  if negb (block_mdl b =? 0) then host_do (co_os_user_block_unmap (block_va b) (block_mdl b))
  else host_do (co_os_free_cached_pages (block_va b) (u32 (pages_of (block_bytes b)))).

Definition free_array (a : option pool_array) (pages : Z) : D unit :=
  match a with
  | None => mret tt
  | Some a => host_do (co_os_free_cached_pages (array_va a) pages)
  end.

Definition kload_release_pages : D unit :=
  count ← kl kload_block_count;
  kset (set_block_count 0) ;;
  kset (set_last_hit 0) ;;
  mfor (Z.to_nat count) 0 release_block ;;
  p2m ← kl kload_p2m;
  p2m_pages ← kl kload_p2m_alloc_pages;
  free_array p2m p2m_pages ;;
  m2p ← kl kload_m2p;
  m2p_pages ← kl kload_m2p_alloc_pages;
  free_array m2p m2p_pages ;;
  kset (fun k =>
    set_user_ram_bytes 0 (set_user_ram_va 0
    (set_table_top 0 (set_table_end 0 (set_table_start 0 (set_phys_base 0
    (set_ram_ready false (set_m2p_mask_value 0 (set_m2p_slots 0
    (set_window_base_pages 0 (set_window_next 0 (set_backed_pages 0
    (set_p2m_capacity 0 (set_m2p_alloc_pages 0 (set_p2m_alloc_pages 0
    (set_m2p None (set_p2m None k))))))))))))))))).

Definition clear_counts : D unit :=
  kset (fun k => set_ram_pages 0 (set_ram_bytes 0 (set_chunks 0 (set_pages 0 k)))).

Definition co_kload_free : D unit :=
  kset (set_ram_ready false) ;;
  space ← kl kload_space;
  count ← kl kload_block_count;
  p2m ← kl kload_p2m;
  m2p ← kl kload_m2p;
  if (bool_decide (space = None) && (count =? 0) && bool_decide (p2m = None)
      && bool_decide (m2p = None))%bool then mret tt else
  co_console_set_address 0 ;;
  co_net_set_address 0 ;;
  co_vgpu_set_address 0 ;;
  kset (set_space None) ;;
  match space with
  | Some s => freed ← co_arch_guest_space_destroy s; mret tt
  | None => mret tt
  end ;;
  co_arch_guest_space_set_frame_source false ;;
  maps ← kl kload_user_maps;
  if negb (maps =? 0) then kset (set_pending_free true) else
  kload_release_pages ;;
  clear_counts.

Definition co_kload_user_map_try_get : D bool :=
  ready ← kl (fun k => kload_ram_ready k && negb (kload_pending_free k)
                       && negb (kload_block_count k =? 0))%bool;
  (if ready : bool then kset (fun k => set_user_maps (kload_user_maps k + 1) k)
   else mret tt) ;;
  mret ready.

Definition co_kload_user_map_put : D unit :=
  kset (fun k => if 0 <? kload_user_maps k then set_user_maps (kload_user_maps k - 1) k
                 else k) ;;
  maps ← kl kload_user_maps;
  pending ← kl kload_pending_free;
  if ((maps =? 0) && pending)%bool then
    kload_release_pages ;; clear_counts ;; kset (set_pending_free false)
  else mret tt.

Definition co_kload_block_count : D Z := kl kload_block_count.

Definition co_kload_block (i : Z) : D (Z * Z * Z) :=
  count ← kl kload_block_count;
  if ((0 <=? i) && (i <? count))%bool then
    b ← block_get i;
    if negb (block_va b =? 0) then mret (block_va b, pseudo_base b, block_bytes b)
    else throw CO_RC_ERROR
  else throw CO_RC_ERROR.

Definition block_for_pa_step (pa : Z) (st : Z * Z) : D ((Z * Z) + option (Z * Z * Z)) :=
  let '(lo, hi) := st in
  if negb (lo <=? hi) then mret (inr None) else
  let mid := lo + Z.quot (hi - lo) 2 in
  b ← block_get mid;
  if pa <? pseudo_base b then mret (inl (lo, mid - 1))
  else if u64 (pseudo_base b + block_bytes b) <=? pa then mret (inl (mid + 1, hi))
  else if negb (block_va b =? 0)
  then mret (inr (Some (block_va b, pseudo_base b, block_bytes b)))
  else mret (inr None).

Definition co_kload_block_for_pa (query_pa : Z) : D (Z * Z * Z) :=
  count ← kl kload_block_count;
  r ← mloop (block_for_pa_step query_pa) (0, count - 1);
  match r with Some b => mret b | None => throw CO_RC_ERROR end.

(** *** Starting a run *)

(** Map the pages of one translation table at its fixed window. *)
Definition map_array_page (va base i : Z) : D unit :=
  phys ← gets (fun w => co_os_virt_to_phys (w_os w)
                          (va + u32 (Z.shiftl i CO_ARCH_PAGE_SHIFT)));
  on_space (co_arch_guest_map (u64 (base + u64 (Z.shiftl i CO_ARCH_PAGE_SHIFT))) phys
    (Z.lor (Z.lor KERNPG_TABLE CO_PAGE_GLOBAL) CO_ARCH_PAGE_NX)).

Definition map_array (a : option pool_array) (pages base : Z) : D unit :=
  match a with
  | None => if pages =? 0 then mret tt else fault
  | Some a => mfor (Z.to_nat pages) 0 (map_array_page (array_va a) base)
  end.

Definition kload_map_translation_pages : D unit :=
  p2m ← kl kload_p2m;
  p2m_pages ← kl kload_p2m_alloc_pages;
  map_array p2m p2m_pages CO_KLOAD_P2M_VA ;;
  m2p ← kl kload_m2p;
  m2p_pages ← kl kload_m2p_alloc_pages;
  map_array m2p m2p_pages CO_KLOAD_M2P_VA.

(** [co_os_msleep] lets everything else run: it is the caller's. *)
Definition wait_step (co_os_msleep : Z -> D unit) (waited : Z) : D (Z + bool) :=
  if negb (waited <? 10000) then mret (inr false) else
  pending ← kl kload_pending_free;
  if negb pending then mret (inr true) else
  co_os_msleep 50 ;;
  mret (inl (waited + 50)).

Definition kload_wait_for_deferred_free (co_os_msleep : Z -> D unit) : D bool :=
  mloop (wait_step co_os_msleep) 0.

Definition round_up (x size : Z) : Z := Z.land (u64 (x + size - 1)) (u64 (Z.lnot (size - 1))).

(** The page-table reserve: a 2 MB base plus 1/512 of what is mapped. *)
Definition table_reserve (ram_bytes image_hi : Z) : Z :=
  let sizing := if image_hi <? ram_bytes then ram_bytes else image_hi in
  let bytes := u64 (Z.shiftl 2 20 + Z.shiftr (u64 (sizing + 511)) 9) in
  let bytes := round_up bytes CO_ARCH_PMD_SIZE in
  if bytes <? CO_KLOAD_MIN_TABLE_BYTES then CO_KLOAD_MIN_TABLE_BYTES else bytes.

(** The argument checks of [co_kload_begin]. *)
Definition begin_refuses (min_va max_va ram_bytes : Z) : bool :=
  ((max_va <=? min_va) || negb (CO_ARCH_VA_CANONICAL min_va)
   || negb (CO_ARCH_VA_CANONICAL (u64 (max_va - 1)))
   || (min_va <? CO_ARCH_KERNEL_MAP) || (CO_KLOAD_MAX_RAM_BYTES <? ram_bytes))%bool.

Definition begin_layout (max_va ram_bytes : Z) : D unit :=
  let image_hi := round_up (u64 (max_va - CO_ARCH_KERNEL_MAP)) CO_ARCH_PAGE_SIZE in
  let table_bytes := table_reserve ram_bytes image_hi in
  let table_end := u64 (image_hi + table_bytes) in
  let capacity_end := u64 (ram_bytes + table_bytes) in
  let capacity_end := if capacity_end <? table_end then table_end else capacity_end in
  let capacity_end := round_up capacity_end CO_ARCH_PAGE_SIZE in
  kset (fun k => set_table_top table_end (set_table_end table_end
                   (set_table_start image_hi (set_phys_base 0 k)))) ;;
  kset (set_window_base_pages (ulong (pages_of capacity_end))) ;;
  kload_translation_alloc
    (ulong (pages_of (u64 (capacity_end + CO_KLOAD_WINDOW_ARENA_BYTES)))).

(** [alloc] is whether the host has room for the space's struct. *)
Definition begin_space (alloc : bool) : D unit :=
  co_arch_guest_space_set_frame_source true ;;
  made ← attempt (co_arch_guest_space_create alloc);
  match made with
  | inr rc =>
      co_arch_guest_space_set_frame_source false ;; kload_release_pages ;; throw rc
  | inl s =>
      kset (set_space (Some s)) ;;
      mapped ← attempt kload_map_translation_pages;
      match mapped with
      | inl _ => mret tt
      | inr rc =>
          space ← kl kload_space;
          kset (set_space None) ;;
          match space with
          | Some s => freed ← co_arch_guest_space_destroy s; mret tt
          | None => fault
          end ;;
          co_arch_guest_space_set_frame_source false ;;
          kload_release_pages ;;
          throw rc
      end
  end.

Definition co_kload_begin (co_os_msleep : Z -> D unit) (alloc : bool)
    (min_va max_va ram_bytes ram_user_va ram_user_bytes : Z) : D unit :=
  co_kload_free ;;
  ready ← kload_wait_for_deferred_free co_os_msleep;
  fail_if (negb ready) CO_RC_ERROR ;;
  (if (negb (ram_user_va =? 0) && negb (ram_user_bytes =? 0)
       && (page_off ram_user_va =? 0))%bool
   then kset (fun k => set_user_ram_bytes (Z.land ram_user_bytes CO_ARCH_PAGE_MASK)
                         (set_user_ram_va ram_user_va k))
   else mret tt) ;;
  fail_if (begin_refuses min_va max_va ram_bytes) CO_RC_INVALID_PARAMETER ;;
  begin_layout max_va ram_bytes ;;
  table_end ← kl kload_table_end;
  grown ← kload_grow_to table_end;
  (if grown : bool then mret tt
   else kload_release_pages ;; throw CO_RC_OUT_OF_MEMORY) ;;
  begin_space alloc ;;
  kset (fun k => set_chunks 0 (set_pages 0
    (set_max_va (round_up max_va CO_ARCH_PAGE_SIZE)
      (set_min_va (Z.land min_va CO_ARCH_PAGE_MASK) k)))).

(** *** Loading the image *)

Definition kload_page_for (va : Z) : D Z :=
  let page_va := Z.land va CO_ARCH_PAGE_MASK in
  r ← lookup_space page_va;
  if (CO_OK r.1 && negb (r.2 =? 0))%bool then mret (Z.shiftr r.2 CO_ARCH_PAGE_SHIFT) else
  fail_if (page_va <? CO_ARCH_KERNEL_MAP) CO_RC_INVALID_PARAMETER ;;
  pa ← kload_kva_pa page_va;
  count ← kl kload_block_count;
  start ← kl kload_table_start;
  fail_if ((count =? 0) || (start <? u64 (pa + CO_ARCH_PAGE_SIZE)))%bool
    CO_RC_INVALID_PARAMETER ;;
  let ppfn := Z.shiftr pa CO_ARCH_PAGE_SHIFT in
  m ← kload_pseudo_to_machine_pfn ppfn;
  match m with
  | None => throw CO_RC_ERROR
  | Some mfn =>
      p ← co_kload_pseudo_frame_va ppfn;
      match p with
      | None => throw CO_RC_ERROR
      | Some p =>
          modify (upd_mem (fun m => co_memset m p 0 CO_ARCH_PAGE_SIZE)) ;;
          on_space (co_arch_guest_map page_va (bytes_of mfn) KERNPG_TABLE) ;;
          kset (fun k => set_pages (ulong (kload_pages k + 1)) k) ;;
          mret mfn
      end
  end.

(** A zeroing chunk touches its pages and copies nothing. *)
Definition act_chunk (zero : bool) (data : list Z) (pfn offset part : Z) : D (list Z) :=
  if zero then mret data else
  p ← co_kload_frame_va pfn;
  match p with
  | None => throw CO_RC_ERROR
  | Some p => act_write data p offset part
  end.

Definition co_kload_chunk (va : Z) (data : list Z) (size : Z) (zero : bool) : D unit :=
  need_space ;;
  min_va ← kl kload_min_va;
  max_va ← kl kload_max_va;
  fail_if ((va <? min_va) || (max_va <? u64 (va + size)))%bool CO_RC_INVALID_PARAMETER ;;
  xfer kload_page_for (act_chunk zero) va size data ;;
  kset (fun k => set_chunks (ulong (kload_chunks k + 1)) k).

(** *** Guest RAM and its direct map *)

Definition direct_map_page (ppfn : Z) : D unit :=
  mfn ← p2m_get ppfn;
  on_space (co_arch_guest_map (u64 (CO_ARCH_DIRECT_MAP + bytes_of ppfn)) (bytes_of mfn)
    (Z.lor (Z.lor KERNPG_TABLE CO_PAGE_GLOBAL) CO_ARCH_PAGE_NX)) ;;
  kset (fun k => set_ram_pages (ulong (kload_ram_pages k + 1)) k).

Definition ram_target (ram_bytes table_start table_end : Z) : Z :=
  if table_start <? ram_bytes then u64 (table_end + u64 (ram_bytes - table_start))
  else table_end.

Definition co_kload_build_ram (ram_bytes text_va end_va : Z) : D unit :=
  kset (set_ram_ready false) ;;
  space ← kl kload_space;
  count ← kl kload_block_count;
  fail_if (bool_decide (space = None) || (count =? 0))%bool CO_RC_ERROR ;;
  fail_if ((text_va <? CO_ARCH_KERNEL_MAP) || (end_va <=? text_va))%bool
    CO_RC_INVALID_PARAMETER ;;
  text_pa ← kload_kva_pa text_va;
  end_pa ← kload_kva_pa end_va;
  let text_phys := Z.land text_pa CO_ARCH_PAGE_MASK in
  let end_phys := round_up end_pa CO_ARCH_PAGE_SIZE in
  table_start ← kl kload_table_start;
  table_end ← kl kload_table_end;
  fail_if (table_start <? end_phys) CO_RC_INVALID_PARAMETER ;;
  kset (fun k => set_end_phys end_phys (set_text_phys text_phys (set_ram_bytes ram_bytes k))) ;;
  let desired_end := ram_target ram_bytes table_start table_end in
  capacity ← kl kload_p2m_capacity;
  fail_if (capacity <? Z.shiftr desired_end CO_ARCH_PAGE_SHIFT) CO_RC_INVALID_PARAMETER ;;
  grown ← kload_grow_to desired_end;
  kset (set_ram_pages 0) ;;
  backed ← kl kload_backed_pages;
  mfor (Z.to_nat backed) 0 direct_map_page ;;
  kset (set_ram_ready true).

(** *** Handing the page tables to the kernel *)

Definition machineize_entry (t i : Z) : D unit :=
  e ← gets (fun w => load_u64 (w_mem w) (t + 8 * i));
  if negb (entry_present e) then mret tt else
  fail_if (entry_pse e) CO_RC_ERROR ;;
  let target := Z.land e CO_KLOAD_PFN_MASK in
  let flags := Z.land e (u64 (Z.lnot CO_KLOAD_PFN_MASK)) in
  machine ← kload_pseudo_to_machine_pa target;
  fail_if ((machine =? 0) && negb (target =? 0))%bool CO_RC_ERROR ;;
  modify (upd_mem (fun m => store_u64 m (t + 8 * i) (Z.lor machine flags))).

Definition kload_machineize_table (table_va entries : Z) : D unit :=
  pseudo ← kload_kva_pa table_va;
  t ← co_kload_pseudo_frame_va (Z.shiftr pseudo CO_ARCH_PAGE_SHIFT);
  match t with
  | None => throw CO_RC_ERROR
  | Some t => mfor (Z.to_nat entries) 0 (machineize_entry t)
  end.

Definition some_or {A} (r : option A) : D A :=
  match r with Some a => mret a | None => throw CO_RC_ERROR end.

Definition graft_entry (ours kernel i : Z) : D unit :=
  e ← gets (fun w => load_u64 (w_mem w) (ours + 8 * i));
  if entry_present e then modify (upd_mem (fun m => store_u64 m (kernel + 8 * i) e))
  else mret tt.

Definition co_kload_adopt_kernel_tables (table_va : list Z) (table_count : Z) : D Z :=
  space ← kl kload_space;
  count ← kl kload_block_count;
  fail_if (bool_decide (space = None) || (count =? 0) || (table_count <? 5))%bool CO_RC_ERROR ;;
  in_bounds (table_count <=? Z.of_nat (length table_va)) ;;
  let pml4_va := default 0 (table_va !! 0%nat) in
  let fixmap_va := default 0 (table_va !! 3%nat) in
  fixed ← attempt (kload_machineize_table fixmap_va 512);
  match fixed with inr _ => throw CO_RC_ERROR | inl _ => mret tt end ;;
  pml4_pseudo ← kload_kva_pa pml4_va;
  kernel_pml4 ← co_kload_pseudo_frame_va (Z.shiftr pml4_pseudo CO_ARCH_PAGE_SHIFT);
  kernel_pml4 ← some_or kernel_pml4;
  s ← some_or space;
  ours ← co_kload_frame_va (Z.shiftr (co_arch_guest_space_root s) CO_ARCH_PAGE_SHIFT);
  ours ← some_or ours;
  let slot := CO_ARCH_PGD_INDEX CO_ARCH_KERNEL_MAP in
  kernel_entry ← gets (fun w => load_u64 (w_mem w) (ours + 8 * slot));
  fail_if (negb (entry_present kernel_entry)) CO_RC_ERROR ;;
  host_pud ← co_kload_frame_va
    (Z.shiftr (Z.land kernel_entry CO_KLOAD_PFN_MASK) CO_ARCH_PAGE_SHIFT);
  host_pud ← some_or host_pud;
  pud ← attempt co_kload_table_frame;
  kernel_pud_mfn ← match pud with inl p => mret p | inr _ => throw CO_RC_OUT_OF_MEMORY end;
  kernel_pud ← co_kload_frame_va kernel_pud_mfn;
  kernel_pud ← some_or kernel_pud;
  modify (upd_mem (fun m => store_bytes m kernel_pud (load_bytes m host_pud CO_ARCH_PAGE_SIZE))) ;;
  fixmap_pa ← kload_kva_pa fixmap_va;
  fixmap_machine ← kload_pseudo_to_machine_pa fixmap_pa;
  fail_if (fixmap_machine =? 0) CO_RC_ERROR ;;
  modify (upd_mem (fun m => store_u64 m (kernel_pud + 8 * 511)
                              (Z.lor fixmap_machine KERNPG_TABLE))) ;;
  mfor 512 0 (graft_entry ours kernel_pml4) ;;
  modify (upd_mem (fun m => store_u64 m (kernel_pml4 + 8 * slot)
    (Z.lor (bytes_of kernel_pud_mfn)
       (Z.land (load_u64 m (ours + 8 * slot)) (u64 (Z.lnot CO_KLOAD_PFN_MASK)))))) ;;
  pml4_machine ← kload_pseudo_to_machine_pa pml4_pseudo;
  fail_if (pml4_machine =? 0) CO_RC_ERROR ;;
  mret pml4_machine.

Definition co_kload_user_backed : D bool := kl (fun k => negb (kload_user_ram_va k =? 0)).
Definition co_kload_phys_base : D Z := kl kload_phys_base.
Definition co_kload_space : D (option co_arch_guest_space) := kl kload_space.
Definition co_kload_pages : D Z := kl kload_pages.
Definition co_kload_chunks : D Z := kl kload_chunks.
Definition co_kload_ram_pages : D Z := kl kload_ram_pages.
End kload.
