(* ===== verification/KloadSpace.v ===== *)
(** The loader keeps the page-table contract: [SpaceLaws] for the driver's
    state, with tables carved from the reserved range of guest RAM. *)
From S2P Require Import Prelude.
From S2P Require Import Rc.
From S2P Require Import Mem.
From S2P Require Import Mmu.
From S2P Require Import Space.
From S2P Require Import SpaceTables.
From S2P Require Import SpaceDestroy.
From S2P Require Import Host.
From S2P Require Import Frames.
From S2P Require Import FramesOk.
From S2P Require Import Grow.
From S2P Require Import Kload.

Section kload_space.
Context {OS : Type} `{HostLaws OS}.
Implicit Types (o : OS) (k : kload_statics) (w : world OS).

(** The reserved table range: page aligned and backed. *)
Record table_range k : Prop := {
  tr_count : 0 < kload_block_count k;
  tr_start : 0 <= kload_table_start k <= kload_table_top k;
  tr_top : kload_table_top k <= kload_table_end k;
  tr_aligned : kload_table_top k mod CO_ARCH_PAGE_SIZE = 0;
  tr_end : kload_table_end k <= kload_backed_pages k * CO_ARCH_PAGE_SIZE;
}.

Definition kload_inv w : Prop :=
  frames_ok (w_os w) (w_kl w) /\ table_range (w_kl w) /\ w_hooks w = true.

(** Where a machine frame of guest RAM is mapped in the kernel. *)
Definition frame_at w mfn : option Z :=
  match co_kload_frame_va mfn w with (Ret r, _) => r | _ => None end.

(** Frames handed out as tables. *)
Definition table_used w mfn : Prop :=
  exists p, kload_table_top (w_kl w) / CO_ARCH_PAGE_SIZE <= p /\
            p * CO_ARCH_PAGE_SIZE < kload_table_end (w_kl w) /\ p2m_at (w_kl w) p = mfn.

Lemma wp_pseudo_to_machine w p (E : co_rc_value_t -> world OS -> Prop) :
  tables_ok (w_kl w) -> 0 <= p ->
  wp (kload_pseudo_to_machine_pfn p)
    (fun r w' => w' = w /\ r =
       if (p <? kload_p2m_capacity (w_kl w)) &&
          negb ((kload_backed_pages (w_kl w) <=? p) && (p2m_at (w_kl w) p =? 0))
       then Some (p2m_at (w_kl w) p) else None) E w.
Proof using.
  intros Ht Hp. pose proof (to_cap _ Ht). destruct (to_p2m _ Ht) as [a Ha].
  unfold kload_pseudo_to_machine_pfn, kl. do 2 (wp_step; apply wp_gets). rewrite Ha.
  destruct (Z.leb_spec (kload_p2m_capacity (w_kl w)) p) as [Hc|Hc].
  { apply wp_ret. by rewrite (proj2 (Z.ltb_ge _ _)) by lia. }
  rewrite (proj2 (Z.ltb_lt p _)) by lia. wp_step. apply wp_gets. wp_step.
  assert (forall Q : Z -> world OS -> Prop, Q (p2m_at (w_kl w) p) w ->
            wp (p2m_get p) Q E w) as Hget
    by (intros Q HQ; eapply (wp_p2m_get (w_kl w)); [done|done|lia|done]).
  destruct (kload_backed_pages (w_kl w) <=? p); cbn [andb negb].
  - wp_step. apply Hget, wp_ret. destruct (p2m_at (w_kl w) p =? 0); cbn [negb].
    + by apply wp_ret.
    + wp_step. by apply Hget, wp_ret.
  - apply wp_ret. wp_step. by apply Hget, wp_ret.
Qed.

Lemma p2m_inj o k p q :
  frames_ok o k -> 0 <= p < kload_backed_pages k -> 0 <= q < kload_backed_pages k ->
  p2m_at k p = p2m_at k q -> p = q.
Proof using. intros Hok Hp Hq. by apply (mo_inj _ _ _ _ (fo_hash _ _ Hok)). Qed.

Lemma hit_moved_fields w w' :
  hit_moved w w' -> w_mem w' = w_mem w /\ w_os w' = w_os w /\ w_hooks w' = w_hooks w /\
  exists h, 0 <= h < CO_KLOAD_MAX_BLOCKS /\ w_kl w' = set_last_hit h (w_kl w).
Proof using. intros (h & Hh & ->). eauto 8. Qed.

Lemma hit_moved_ok w w' :
  frames_ok (w_os w) (w_kl w) -> hit_moved w w' -> frames_ok (w_os w') (w_kl w').
Proof using.
  intros Hok (h & Hh & ->). by apply frames_ok_hit.
Qed.

Lemma frame_at_page w p a :
  frames_ok (w_os w) (w_kl w) -> page_va (w_kl w) p a ->
  frame_at w (p2m_at (w_kl w) p) = Some a.
Proof using.
  intros Hok Hva. unfold frame_at.
  pose proof (page_va_backed _ _ _ _ Hok Hva) as Hp.
  pose proof (wp_frame_va w (p2m_at (w_kl w) p) (fun _ _ => False) Hok) as Hwp.
  unfold wp in Hwp. destruct (co_kload_frame_va _ w) as [[[b|]|rc|] w']; [..|done|done].
  - destruct Hwp as (_ & q & Hq & Heq & Hb).
    assert (q = p) as -> by (by eapply p2m_inj). f_equal. by eapply page_va_fun.
  - destruct Hwp as (_ & Hno). by destruct (Hno p Hp).
Qed.

(** The answer depends on nothing but the statics. *)
Lemma frame_at_kl w w' p :
  frames_ok (w_os w) (w_kl w) -> frames_ok (w_os w') (w_kl w') -> w_kl w' = w_kl w ->
  frame_at w' p = frame_at w p.
Proof using.
  intros Hok Hok' Hk. unfold frame_at.
  pose proof (wp_frame_va w p (fun _ _ => False) Hok) as H1.
  pose proof (wp_frame_va w' p (fun _ _ => False) Hok') as H2.
  unfold wp in H1, H2. rewrite Hk in H2.
  destruct (co_kload_frame_va p w) as [[[a|]|rc|] w1]; [..|done|done];
  destruct (co_kload_frame_va p w') as [[[b|]|rc|] w2]; try done.
  - destruct H1 as (_ & q & Hq & Hm & Ha), H2 as (_ & q' & Hq' & Hm' & Hb).
    assert (q = q') as -> by (apply (p2m_inj _ _ _ _ Hok); congruence).
    f_equal. exact (page_va_fun _ _ _ _ _ Hok Hb Ha).
  - destruct H1 as (_ & q & Hq & Hm & Ha), H2 as (_ & Hno). by destruct (Hno q Hq).
  - destruct H2 as (_ & q & Hq & Hm & Ha), H1 as (_ & Hno). by destruct (Hno q Hq).
Qed.

(** Two states with the same blocks and maps show frames at the same place. *)
Lemma frame_at_same w w' p :
  frames_ok (w_os w) (w_kl w) -> frames_ok (w_os w') (w_kl w') ->
  0 <= p < kload_backed_pages (w_kl w) ->
  (forall a, page_va (w_kl w) p a -> page_va (w_kl w') p a) ->
  p2m_at (w_kl w') p = p2m_at (w_kl w) p ->
  frame_at w' (p2m_at (w_kl w) p) = frame_at w (p2m_at (w_kl w) p).
Proof using.
  intros Hok Hok' Hp Hva Heq. destruct (page_va_exists _ _ _ Hok Hp) as [a Ha].
  rewrite (frame_at_page w p a Hok Ha), <- Heq. by apply frame_at_page; [|apply Hva].
Qed.

Lemma table_used_page w mfn :
  kload_inv w -> table_used w mfn ->
  exists p a, 0 <= p < kload_backed_pages (w_kl w) /\
    kload_table_top (w_kl w) / CO_ARCH_PAGE_SIZE <= p /\
    p2m_at (w_kl w) p = mfn /\ page_va (w_kl w) p a.
Proof using.
  intros (Hok & Htr & _) (p & Hlo & Hhi & Hm).
  assert (0 <= p < kload_backed_pages (w_kl w)) as Hp.
  { destruct Htr as [_ Hs Ht Ha He]. change CO_ARCH_PAGE_SIZE with 4096 in *.
    Z.div_mod_to_equations; lia. }
  destruct (page_va_exists _ _ _ Hok Hp) as [a Ha]. by exists p, a.
Qed.

Lemma hit_moved_trans w w1 w2 : hit_moved w w1 -> hit_moved w1 w2 -> hit_moved w w2.
Proof using. intros (h1 & Hh1 & ->) (h2 & Hh2 & ->). by exists h2. Qed.

(** Moving the lookup cache is invisible to the page tables. *)
Lemma hit_moved_inv w w' : kload_inv w -> hit_moved w w' -> kload_inv w'.
Proof using.
  intros (Hok & Htr & Hh) Hm. pose proof (hit_moved_ok _ _ Hok Hm) as Hok'.
  destruct Hm as (h & _ & ->). destruct Htr. by split_and!.
Qed.

Lemma hit_moved_frame w w' p :
  frames_ok (w_os w) (w_kl w) -> hit_moved w w' -> 0 <= p < kload_backed_pages (w_kl w) ->
  frame_at w' (p2m_at (w_kl w) p) = frame_at w (p2m_at (w_kl w) p).
Proof using.
  intros Hok Hm Hp. pose proof (hit_moved_ok _ _ Hok Hm) as Hok'.
  destruct Hm as (h & _ & ->). by apply frame_at_same.
Qed.

Lemma hit_moved_same w w' :
  kload_inv w -> hit_moved w w' -> env_same_on kload_inv frame_at table_used hit_moved w w'.
Proof using.
  intros Hi Hm. split_and!.
  - by destruct Hm as (h & _ & ->).
  - intros q Hq. destruct (table_used_page _ _ Hi Hq) as (p & a & Hp & _ & <- & _).
    apply hit_moved_frame; [apply Hi|done|done].
  - intros q. destruct Hm as (h & _ & ->). done.
  - by eapply hit_moved_inv.
  - done.
Qed.

Lemma kload_space_map w pfn :
  kload_inv w -> table_used w pfn ->
  exists a w', frame_at w pfn = Some a /\ co_space_map pfn w = (Ret (Some a), w') /\
               hit_moved w w'.
Proof using.
  intros Hi Hu. destruct (table_used_page _ _ Hi Hu) as (p & a & Hp & _ & <- & Ha).
  destruct Hi as (Hok & _ & Hh). pose proof (frame_at_page _ _ _ Hok Ha) as Hf.
  pose proof (wp_frame_va w (p2m_at (w_kl w) p) (fun _ _ => False) Hok) as Hwp.
  pose proof Hf as Hf'. unfold wp in Hwp. unfold frame_at in Hf.
  unfold co_space_map, mbind, M_bind, gets. cbn.
  rewrite Hh. destruct (co_kload_frame_va _ w) as [[[b|]|rc|] w']; [|done..].
  simplify_eq. exists a, w'. destruct Hwp. by split_and!.
Qed.

Lemma kload_space_unmap w a pfn :
  kload_inv w -> table_used w pfn ->
  exists w', co_space_unmap a pfn w = (Ret tt, w') /\ hit_moved w w'.
Proof using.
  intros Hi Hu. destruct (kload_space_map w pfn Hi Hu) as (b & w' & Hf & Hrun & Hm).
  exists w'. split; [|done]. revert Hrun. destruct Hi as (_ & _ & Hh).
  unfold co_space_unmap, co_space_map, mbind, M_bind, gets. cbn. rewrite Hh.
  unfold frame_at in Hf.
  destruct (co_kload_frame_va pfn w) as [[[c|]|rc|] w1]; [|done..].
  intros Hrun. by injection Hrun as _ ->.
Qed.

(** A table frame is the next page down, zeroed. *)
Definition frame_taken w p a w' : Prop :=
  exists h, 0 <= h < CO_KLOAD_MAX_BLOCKS /\
    w' = upd_mem (fun m => co_memset m a 0 CO_ARCH_PAGE_SIZE)
           (upd_kl (fun k => set_last_hit h (set_table_top (p * CO_ARCH_PAGE_SIZE) k)) w).

Lemma frames_ok_table_top o k t : frames_ok o k -> frames_ok o (set_table_top t k).
Proof using.
  intros [? Ht ? ? ? Hti ? ?]. split; try done; [by destruct Ht; split|by destruct Hti; split].
Qed.

Lemma frames_ok_range o k s e t :
  frames_ok o k -> frames_ok o (set_table_top t (set_table_end e (set_table_start s k))).
Proof using.
  intros [? Ht ? ? ? Hti ? ?]. split; try done; [by destruct Ht; split|by destruct Hti; split].
Qed.

Lemma wp_table_frame w :
  frames_ok (w_os w) (w_kl w) -> table_range (w_kl w) ->
  wp co_kload_table_frame
    (fun mfn w' => exists p a,
       kload_table_top (w_kl w) = (p + 1) * CO_ARCH_PAGE_SIZE /\
       kload_table_start (w_kl w) <= p * CO_ARCH_PAGE_SIZE /\
       0 <= p < kload_backed_pages (w_kl w) /\ page_va (w_kl w) p a /\
       mfn = p2m_at (w_kl w) p /\ frame_taken w p a w')
    (fun rc w' => rc = CO_RC_OUT_OF_MEMORY /\ w' = w /\
       kload_table_top (w_kl w) < kload_table_start (w_kl w) + CO_ARCH_PAGE_SIZE) w.
Proof using.
  intros Hok [Hc Hs Ht Ha He]. set (k := w_kl w) in *.
  pose proof (slots_bound _ (fo_tables _ _ Hok)) as [Hcb _].
  pose proof (fo_backed _ _ Hok) as Hb.
  unfold co_kload_table_frame, kl, kset. wp_step. apply wp_gets. fold k.
  wp_step. wp_step; [lia|]. do 2 (wp_step; apply wp_gets). fold k.
  change CO_ARCH_PAGE_SIZE with 4096 in *.
  rewrite (u64_small (kload_table_start k + 4096)) by lia.
  wp_step. wp_step; [done|]. rewrite u64_small by lia.
  wp_step. apply wp_modify. wp_step.
  assert (exists p, kload_table_top k = (p + 1) * 4096) as [p Hp].
  { exists (kload_table_top k / 4096 - 1). Z.div_mod_to_equations; lia. }
  assert (Z.shiftr (kload_table_top k - 4096) CO_ARCH_PAGE_SHIFT = p) as ->.
  { rewrite Z.shiftr_div_pow2 by done. change (2 ^ CO_ARCH_PAGE_SHIFT) with 4096.
    Z.div_mod_to_equations; lia. }
  assert (0 <= p < kload_backed_pages k) as Hpb by lia.
  replace (kload_table_top k - 4096) with (p * 4096) by lia.
  set (w1 := upd_kl (set_table_top (p * 4096)) w).
  pose proof (frames_ok_table_top _ _ (p * 4096) Hok) as Hok1.
  eapply wp_ret_mono; [apply (wp_pseudo_to_machine w1); [apply Hok1|lia]|].
  intros r w2 [-> ->]. cbn [w1 w_kl upd_kl set_kl kload_p2m_capacity kload_backed_pages set_table_top].
  fold k. rewrite (proj2 (Z.ltb_lt p (kload_p2m_capacity k))) by lia.
  rewrite (proj2 (Z.leb_gt (kload_backed_pages k) p)) by lia. cbn [andb negb].
  wp_step. eapply wp_ret_mono; [apply (wp_pseudo_frame_va w1); [exact Hok1|lia]|].
  intros [a|] w3 [Hans Hm]; cbn in Hans; [|fold k in Hans; lia].
  destruct Hans as [_ Hva]. wp_step. apply wp_modify, wp_ret.
  exists p, a. split_and!; [lia|lia|lia|lia|exact Hva|done|].
  destruct Hm as (h & Hh & ->). by exists h.
Qed.

Lemma frame_taken_inv w p a w' :
  kload_inv w -> kload_table_top (w_kl w) = (p + 1) * CO_ARCH_PAGE_SIZE ->
  kload_table_start (w_kl w) <= p * CO_ARCH_PAGE_SIZE ->
  frame_taken w p a w' ->
  kload_inv w' /\ (forall q b, page_va (w_kl w) q b -> page_va (w_kl w') q b) /\
  (forall q, p2m_at (w_kl w') q = p2m_at (w_kl w) q).
Proof using.
  intros (Hok & [Hc Hs Ht Ha He] & Hh) Hp Hsp (h & Hhr & ->).
  split; [|done]. split_and!; [|split; cbn|done].
  - cbn. by apply frames_ok_hit, Hhr; apply frames_ok_table_top.
  - done.
  - lia.
  - change CO_ARCH_PAGE_SIZE with 4096 in *. lia.
  - by apply Z.mod_mul.
  - done.
Qed.

Lemma kload_new_table w :
  kload_inv w ->
  match co_space_new_table w with
  | (Ret q, w') =>
      ~ table_used w q /\ (forall p, table_used w' p <-> p = q \/ table_used w p) /\
      (forall p, table_used w p -> frame_at w' p = frame_at w p) /\ kload_inv w' /\
      exists a, frame_at w' q = Some a /\
                w_mem w' = co_memset (w_mem w) a 0 CO_ARCH_PAGE_SIZE
  | (Fail _, w') => w' = w
  | (Fault, _) => False
  end.
Proof using.
  intros Hi. pose proof Hi as (Hok & Htr & Hh).
  pose proof (wp_table_frame w Hok Htr) as Hwp. unfold wp in Hwp.
  unfold co_space_new_table, mbind, M_bind, gets. cbn. rewrite Hh.
  destruct co_kload_table_frame as [[q|rc|] w'] in Hwp |- *; [|by destruct Hwp as (_ & -> & _)|done].
  destruct Hwp as (p & a & Hp & Hsp & Hpb & Hva & -> & Hft).
  destruct (frame_taken_inv _ _ _ _ Hi Hp Hsp Hft) as (Hi' & Hvas & Hp2m).
  assert (forall q, table_used w q -> exists p', p < p' < kload_backed_pages (w_kl w) /\
            p2m_at (w_kl w) p' = q) as Hold.
  { intros q Hq. destruct (table_used_page _ _ Hi Hq) as (p' & b & Hp' & Hlo & Hm & _).
    exists p'. split; [|done]. rewrite Hp, Z.div_mul in Hlo by done. lia. }
  split_and!.
  - intros Hq. destruct (Hold _ Hq) as (p' & Hp' & Hm).
    apply (p2m_inj _ _ _ _ Hok) in Hm; lia.
  - intros q. unfold table_used. destruct Hft as (h & _ & ->). cbn.
    change (p2m_at (set_last_hit h (set_table_top (p * 4096) (w_kl w)))) with (p2m_at (w_kl w)).
    change CO_ARCH_PAGE_SIZE with 4096 in *. rewrite Hp, !Z.div_mul by lia.
    destruct Htr as [_ _ Ht _ _]. split.
    + intros (p' & Hlo & Hhi & Hm). destruct (decide (p' = p)) as [->|]; [by left|].
      right. exists p'. split; [lia|done].
    + intros [->|(p' & Hlo & Hhi & Hm)]; [exists p|exists p']; split_and!; try done; lia.
  - intros q Hq. destruct (Hold _ Hq) as (p' & Hp' & <-).
    apply frame_at_same; [done|apply Hi'|lia|by apply Hvas|by apply Hp2m].
  - done.
  - exists a. split; [|by destruct Hft as (h & _ & ->)].
    rewrite <- Hp2m. apply frame_at_page; [apply Hi'|by apply Hvas].
Qed.

(** Two pages of guest RAM do not overlap in the kernel. *)
Lemma pages_apart o k p q a b :
  frames_ok o k -> page_va k p a -> page_va k q b -> p <> q ->
  a + CO_ARCH_PAGE_SIZE <= b \/ b + CO_ARCH_PAGE_SIZE <= a.
Proof using.
  intros Hok Ha Hb Hne.
  destruct (page_va_live _ _ _ _ Hok Ha) as (Hma & _ & Hla).
  destruct (page_va_live _ _ _ _ Hok Hb) as (Hmb & _ & Hlb).
  pose proof (page_va_backed _ _ _ _ Hok Ha) as Hpa.
  pose proof (page_va_backed _ _ _ _ Hok Hb) as Hpb.
  destruct (decide (a / CO_ARCH_PAGE_SIZE = b / CO_ARCH_PAGE_SIZE)) as [Heq|].
  - rewrite Heq, Hlb in Hla. injection Hla as Hla. destruct Hne.
    by apply (p2m_inj _ _ _ _ Hok).
  - change CO_ARCH_PAGE_SIZE with 4096 in *. Z.div_mod_to_equations; lia.
Qed.

Lemma p2m_range o k p :
  frames_ok o k -> 0 <= p < kload_backed_pages k -> 0 < p2m_at k p < 2 ^ 40.
Proof using.
  intros Hok Hp.
  destruct (tiles_page _ _ _ p (fo_tiles _ _ Hok) (proj1 (fo_count _ _ Hok)) Hp)
    as (i & j & Hi & Hj & ->). by apply (fo_backing _ _ Hok).
Qed.

(** What mapping may change: the cache, the top of the table range moving
    down, and the bytes of the table pages. *)
Definition table_page k top p : Prop :=
  top <= p * CO_ARCH_PAGE_SIZE < kload_table_end k.

Definition table_step w w' : Prop :=
  exists h top, 0 <= h < CO_KLOAD_MAX_BLOCKS /\
    top <= kload_table_top (w_kl w) /\
    w' = set_mem (w_mem w') (upd_kl (fun k => set_last_hit h (set_table_top top k)) w) /\
    forall p a x, page_va (w_kl w) p a -> ~ table_page (w_kl w) top p ->
      a <= x < a + CO_ARCH_PAGE_SIZE -> w_mem w' x = w_mem w x.

Lemma table_step_trans w w1 w2 : table_step w w1 -> table_step w1 w2 -> table_step w w2.
Proof using.
  intros (h1 & t1 & Hh1 & Ht1 & Hw1 & Hm1) (h2 & t2 & Hh2 & Ht2 & Hw2 & Hm2).
  assert (w_kl w1 = set_last_hit h1 (set_table_top t1 (w_kl w))) as Hk1
    by (rewrite Hw1; done).
  exists h2, t2. rewrite Hk1 in *. cbn in Ht2. split_and!; [lia|lia|lia| |].
  - etrans; [exact Hw2|]. rewrite Hw1. reflexivity.
  - intros p a x Hp Hn Hx. rewrite (Hm2 p a x); [|exact Hp|exact Hn|done].
    apply (Hm1 p a x); [done| |done]. unfold table_page in *. cbn in *. lia.
Qed.

Lemma table_step_hit w w' : hit_moved w w' -> table_step w w'.
Proof using.
  intros (h & Hh & ->). exists h, (kload_table_top (w_kl w)).
  split_and!; [lia|lia|lia| |done]. destruct w as [m o k]; by destruct k.
Qed.

Lemma table_step_new w r w' :
  kload_inv w -> co_space_new_table w = (r, w') -> table_step w w'.
Proof using.
  intros Hi Hrun. pose proof Hi as (Hok & Htr & Hh).
  pose proof (wp_table_frame w Hok Htr) as Hwp. unfold wp in Hwp.
  unfold co_space_new_table, mbind, M_bind, gets in Hrun. cbn in Hrun. rewrite Hh in Hrun.
  rewrite Hrun in Hwp. destruct r as [q|rc|]; [| |done].
  - destruct Hwp as (p & a & Hp & Hsp & Hpb & Hva & -> & h & Hhr & ->).
    exists h, (p * CO_ARCH_PAGE_SIZE). split_and!; [lia|lia| |done|].
    { change CO_ARCH_PAGE_SIZE with 4096 in *. lia. }
    intros p' b x Hp' Hn Hx. cbn. unfold co_memset. rewrite decide_False; [done|].
    destruct (decide (p' = p)) as [->|Hne].
    + destruct Hn. unfold table_page. destruct Htr.
      change CO_ARCH_PAGE_SIZE with 4096 in *. lia.
    + destruct (pages_apart _ _ _ _ _ _ Hok Hp' Hva Hne); lia.
  - destruct Hwp as (_ & -> & _). apply table_step_hit. by apply hit_moved_refl.
Qed.

Lemma table_step_store w mfn a i v :
  kload_inv w -> table_used w mfn -> frame_at w mfn = Some a -> 0 <= i < 512 ->
  table_step w (upd_mem (fun m => store_u64 m (a + 8 * i) v) w).
Proof using.
  intros Hi Hu Ha Hir. pose proof Hi as (Hok & Htr & _).
  exists (kload_last_hit (w_kl w)), (kload_table_top (w_kl w)).
  split_and!; [apply Hok|apply Hok|lia| |].
  - destruct w as [m o k]; by destruct k.
  - intros p b x Hp Hn Hx. destruct Hu as (q & Hlo & Hhi & Hm).
    destruct Htr as [_ Hst Htop Hal He].
    assert (0 <= q < kload_backed_pages (w_kl w)) as Hq
      by (change CO_ARCH_PAGE_SIZE with 4096 in *; Z.div_mod_to_equations; lia).
    destruct (page_va_exists _ _ _ Hok Hq) as [c Hc].
    pose proof (frame_at_page _ _ _ Hok Hc) as Hfc. rewrite Hm, Ha in Hfc. simplify_eq.
    assert (p <> q) as Hne.
    { intros ->. apply Hn. unfold table_page. split; [|done].
      change CO_ARCH_PAGE_SIZE with 4096 in *. Z.div_mod_to_equations; lia. }
    cbn. unfold store_u64, store_bytes. rewrite length_le_bytes, decide_False; [done|].
    destruct (pages_apart _ _ _ _ _ _ Hok Hp Hc Hne);
      change CO_ARCH_PAGE_SIZE with 4096 in *; lia.
Qed.

#[export] Program Instance kload_laws : SpaceLaws (world OS) := {|
  env_inv := kload_inv;
  env_frame := frame_at;
  env_used := table_used;
  env_quiet := hit_moved;
  env_step := table_step;
|}.
Next Obligation.
  intros w pfn Hi Hu. destruct (kload_space_map w pfn Hi Hu) as (a & w' & ? & ? & ?).
  exists a, w'. split_and!; [done|done|by apply hit_moved_same].
Qed.
Next Obligation.
  intros w a pfn Hi Hu. destruct (kload_space_unmap w a pfn Hi Hu) as (w' & ? & ?).
  exists w'. split; [done|by apply hit_moved_same].
Qed.
Next Obligation.
  intros w Hi. pose proof (kload_new_table w Hi) as Hn.
  destruct (co_space_new_table w) as [[q|rc|] w'] in Hn |- *; [exact Hn| |done].
  by subst w'.
Qed.
Next Obligation.
  intros w p q a b Hi Hp Hq Hne Ha Hb.
  destruct (table_used_page _ _ Hi Hp) as (p' & a' & Hp' & _ & <- & Hva).
  destruct (table_used_page _ _ Hi Hq) as (q' & b' & Hq' & _ & <- & Hvb).
  destruct Hi as (Hok & _). rewrite (frame_at_page _ _ _ Hok Hva) in Ha.
  rewrite (frame_at_page _ _ _ Hok Hvb) in Hb. simplify_eq.
  eapply pages_apart; [done..|]. congruence.
Qed.
Next Obligation.
  intros w f Hi. split_and!; [done|done| |done]. intros p. apply frame_at_kl; [apply Hi|apply Hi|done].
Qed.
Next Obligation.
  intros w p Hi Hp. destruct (table_used_page _ _ Hi Hp) as (p' & a' & Hp' & _ & <- & _).
  destruct Hi as (Hok & _). pose proof (p2m_range _ _ _ Hok Hp'). lia.
Qed.
Next Obligation.
  intros w p Hi Hp. destruct (table_used_page _ _ Hi Hp) as (p' & a' & Hp' & _ & <- & Hva).
  destruct Hi as (Hok & _). rewrite (frame_at_page _ _ _ Hok Hva). by eexists.
Qed.
Next Obligation. intros w Hi. apply hit_moved_refl, Hi. Qed.
Next Obligation.
  intros w w1 w2. apply hit_moved_trans.
Qed.
Next Obligation. intros w w1 w2. apply table_step_trans. Qed.
Next Obligation. intros w w' _. apply table_step_hit. Qed.
Next Obligation. intros w r w'. apply table_step_new. Qed.
Next Obligation. intros w p a i v. apply table_step_store. Qed.

(** The loader's tables stay its own: a frame source is installed. *)
#[export] Program Instance kload_returns : SpaceReturns (world OS).
Next Obligation. intros w p (_ & _ & Hh) _ Hs. cbn in Hs. by rewrite Hh in Hs. Qed.
Next Obligation. by intros w w' (h & _ & ->). Qed.

(** The state once the table range is fixed and the hooks are installed. *)
Definition with_tables (s e t : Z) w : world OS :=
  set_hooks true
    (upd_kl (fun k => set_table_top t (set_table_end e (set_table_start s k))) w).

Lemma kload_inv_with_tables s e t w :
  frames_ok (w_os w) (w_kl w) -> table_range (w_kl (with_tables s e t w)) ->
  kload_inv (with_tables s e t w).
Proof using. intros Hok Htr. split_and!; [by apply frames_ok_range|done|done]. Qed.
End kload_space.
