(* ===== verification/KloadPages.v ===== *)
(** The loader's pages as the block device uses them: FragRAM implements
    [GuestPages]. *)
From S2P Require Import Prelude.
From S2P Require Import Rc.
From S2P Require Import Mem.
From S2P Require Import Mmu.
From S2P Require Import Space.
From S2P Require Import Host.
From S2P Require Import Frames.
From S2P Require Import FramesOk.
From S2P Require Import Grow.
From S2P Require Import Kload.
From S2P Require Import KloadSpace.
From S2P Require Import Cobd.

Section kload_pages.
Context {OS : Type} `{HostLaws OS}.
Implicit Types (w : world OS).

#[export] Instance kload_guest_pages : GuestPages (world OS) := {|
  gp_mem := w_mem;
  gp_upd_mem := upd_mem;
  gp_frame_va := co_kload_pseudo_frame_va;
|}.

Definition page_ptr_of (k : kload_statics) (p : Z) : option Z :=
  if decide (0 <= p) then linear_frame_va k p else None.

Lemma page_ptr_hit k h p : page_ptr_of (set_last_hit h k) p = page_ptr_of k p.
Proof using.
  unfold page_ptr_of, linear_frame_va.
  assert (forall n i pa, linear_search n i (set_last_hit h k) pa = linear_search n i k pa) as Hl.
  { induction n as [|n IH]; intros i pa; cbn [linear_search]; [done|]. by rewrite IH. }
  by rewrite Hl.
Qed.

(** Exactly the backed pages have an address. *)
Lemma page_ptr_answer w p r :
  frames_ok (w_os w) (w_kl w) -> 0 <= p -> frame_va_answer (w_kl w) p r ->
  r = page_ptr_of (w_kl w) p.
Proof using.
  intros Hok Hp Hr. unfold page_ptr_of. rewrite decide_True by done.
  destruct r as [a|]; cbn in Hr.
  - destruct Hr as [Hb Ha]. by rewrite (linear_page _ _ _ _ Hok Hb Ha).
  - unfold linear_frame_va. by rewrite (proj2 (Z.leb_le _ _)).
Qed.

Lemma page_ptr_va w p a :
  frames_ok (w_os w) (w_kl w) -> page_ptr_of (w_kl w) p = Some a ->
  0 <= p < kload_backed_pages (w_kl w) /\ page_va (w_kl w) p a.
Proof using.
  intros Hok. unfold page_ptr_of. case_decide as Hp; [|done]. intros Ha.
  assert (p < kload_backed_pages (w_kl w)) as Hb.
  { unfold linear_frame_va in Ha. destruct (Z.leb_spec (kload_backed_pages (w_kl w)) p); [done|lia]. }
  split; [lia|]. destruct (tiles_page _ _ _ p (fo_tiles _ _ Hok)) as (i & j & Hi & Hj & Hpij);
    [apply (fo_count _ _ Hok)|lia|].
  assert (page_va (w_kl w) p (block_va (block_at (w_kl w) i) + j * CO_ARCH_PAGE_SIZE)) as Hva
    by (by exists i, j).
  rewrite (linear_page _ _ p _ Hok ltac:(lia) Hva) in Ha. by simplify_eq.
Qed.

#[export] Program Instance kload_pages_laws : GuestPagesLaws (world OS) := {|
  gp_ok w := frames_ok (w_os w) (w_kl w);
  gp_page w p := page_ptr_of (w_kl w) p;
|}.
Next Obligation.
  intros w p Hok Hp.
  destruct (wp_total _ _ _ (wp_pseudo_frame_va w p (fun _ _ => False) Hok Hp))
    as (r & w' & Hrun & Hr & h & Hh & ->).
  eexists. split; [by rewrite <- (page_ptr_answer w p r)|].
  split; [by apply frames_ok_hit|]. split; [done|]. intros q. apply page_ptr_hit.
Qed.
Next Obligation. intros w f Hok. split; [exact Hok|]. by split. Qed.
Next Obligation.
  intros w p a Hok Ha. destruct (page_ptr_va w p a Hok Ha) as [Hp _].
  pose proof (fo_backed _ _ Hok). pose proof (slots_bound _ (fo_tables _ _ Hok)). lia.
Qed.
Next Obligation.
  intros w p q a b Hok Ha Hb Hne. destruct (page_ptr_va w p a Hok Ha) as [_ Hva].
  destruct (page_ptr_va w q b Hok Hb) as [_ Hvb].
  exact (pages_apart _ _ p q a b Hok Hva Hvb Hne).
Qed.
End kload_pages.
