(* ===== verification/GuestAccess.v ===== *)
(** Guest memory through the guest's page tables ([co_kload_read],
    [co_kload_write], [co_kload_verify] and the word accesses).

    [guest_ptr] is the reference: what the walk and the two maps make of one
    address. The page loop of the code is shown to be that, byte by byte. *)
From S2P Require Import Prelude.
From S2P Require Import Rc.
From S2P Require Import Mem.
From S2P Require Import Mmu.
From S2P Require Import Space.
From S2P Require Import Host.
From S2P Require Import Frames.
From S2P Require Import FramesOk.
From S2P Require Import Grow.
From S2P Require Import Kload.
From S2P Require Import KloadSpace.

(** ** Addresses of one page *)

Lemma index_page va va' l :
  0 <= l <= 3 -> va / CO_ARCH_PAGE_SIZE = va' / CO_ARCH_PAGE_SIZE ->
  co_space_index va l = co_space_index va' l.
Proof.
  intros Hl Heq. rewrite !co_space_index_eq by done.
  replace (39 - 9 * l) with (12 + (27 - 9 * l)) by lia.
  rewrite !Z.pow_add_r, <- !Z.div_div by lia. change (2 ^ 12) with CO_ARCH_PAGE_SIZE.
  by rewrite Heq.
Qed.

Lemma canonical_same_page va va' :
  va / CO_ARCH_PAGE_SIZE = va' / CO_ARCH_PAGE_SIZE ->
  CO_ARCH_VA_CANONICAL va = CO_ARCH_VA_CANONICAL va'.
Proof.
  intros Heq. unfold CO_ARCH_VA_CANONICAL. rewrite !Z.shiftr_div_pow2 by lia.
  replace (2 ^ 47) with (CO_ARCH_PAGE_SIZE * 2 ^ 35) by done.
  rewrite <- !Z.div_div by done. by rewrite Heq.
Qed.

Section access.
Context {OS : Type} `{HostLaws OS}.
Implicit Types (o : OS) (k : kload_statics) (w : world OS).

Lemma translate_page (n : nat) w p va va' :
  (n <= 3)%nat -> va / CO_ARCH_PAGE_SIZE = va' / CO_ARCH_PAGE_SIZE ->
  translate n w p va = translate n w p va'.
Proof using.
  intros Hn Heq. revert p. induction n as [|n IH]; intros p; cbn [translate];
    rewrite (index_page va va') by (try done; lia); [done|].
  destruct (entry_at w p _) as [e|]; cbn; [|done].
  destruct (entry_present e), (entry_pse e); try done. apply IH. lia.
Qed.

(** The host address of a guest byte, or the code the access fails with. *)
Definition guest_ptr w root va : Z + co_rc_value_t :=
  if negb (CO_ARCH_VA_CANONICAL va) then inr CO_RC_NOT_FOUND else
  match translate 3 w root va with
  | None => inr CO_RC_NOT_FOUND
  | Some pa =>
      if pa =? 0 then inr CO_RC_NOT_FOUND else
      match frame_at w (Z.shiftr pa CO_ARCH_PAGE_SHIFT) with
      | None => inr CO_RC_ERROR
      | Some a => inl (a + va mod CO_ARCH_PAGE_SIZE)
      end
  end.

Lemma guest_ptr_page w root va va' p :
  va / CO_ARCH_PAGE_SIZE = va' / CO_ARCH_PAGE_SIZE ->
  guest_ptr w root va = inl p -> guest_ptr w root va' = inl (p + (va' - va)).
Proof using.
  intros Heq. unfold guest_ptr. rewrite (canonical_same_page va va' Heq).
  rewrite (translate_page 3 w root va va') by (done || lia).
  destruct (CO_ARCH_VA_CANONICAL va'); cbn [negb]; [|done].
  destruct (translate 3 w root va') as [pa|]; [|done].
  destruct (pa =? 0); [done|]. destruct (frame_at w _) as [a|]; [|done].
  intros [= <-]. f_equal. change CO_ARCH_PAGE_SIZE with 4096 in *.
  Z.div_mod_to_equations; lia.
Qed.

(** *** The pieces of the loop *)

Lemma wp_frame_at w mfn (Q : option Z -> world OS -> Prop) E :
  frames_ok (w_os w) (w_kl w) ->
  (forall w', hit_moved w w' -> Q (frame_at w mfn) w') -> wp (co_kload_frame_va mfn) Q E w.
Proof using.
  intros Hok HQ. pose proof (wp_frame_va w mfn (fun _ _ => False) Hok) as Hwp.
  unfold wp in *. unfold frame_at in HQ.
  destruct (co_kload_frame_va mfn w) as [[r|rc|] w']; [|done..]. apply HQ, Hwp.
Qed.

Lemma frame_at_hit w w' mfn :
  frames_ok (w_os w) (w_kl w) -> hit_moved w w' -> frame_at w' mfn = frame_at w mfn.
Proof using.
  intros Hok Hm. pose proof (hit_moved_ok _ _ Hok Hm) as Hok'.
  destruct Hm as (h & _ & ->). unfold frame_at.
  pose proof (wp_frame_va w mfn (fun _ _ => False) Hok) as H1.
  pose proof (wp_frame_va _ mfn (fun _ _ => False) Hok') as H2. unfold wp in H1, H2.
  destruct (co_kload_frame_va mfn w) as [[[a|]|rc|] w1]; [..|done|done];
  destruct (co_kload_frame_va mfn (upd_kl _ w)) as [[[b|]|rc|] w2]; try done.
  - destruct H1 as (_ & q & Hq & Hmq & Ha), H2 as (_ & q' & Hq' & Hm' & Hb).
    change (p2m_at (w_kl w) q' = mfn) in Hm'. change (page_va (w_kl w) q' b) in Hb.
    change (0 <= q' < kload_backed_pages (w_kl w)) in Hq'.
    assert (q = q') as -> by (apply (p2m_inj _ _ _ _ Hok); congruence).
    f_equal. exact (page_va_fun _ _ _ _ _ Hok Hb Ha).
  - destruct H1 as (_ & q & Hq & Hmq & Ha), H2 as (_ & Hno). by destruct (Hno q Hq).
  - destruct H2 as (_ & q & Hq & Hmq & Ha), H1 as (_ & Hno). by destruct (Hno q Hq).
Qed.

(** A walk that looked at nothing but tables answers as before. *)
Lemma guest_ptr_hit w w' root va T :
  kload_inv w -> tree w root T -> hit_moved w w' ->
  guest_ptr w' root va = guest_ptr w root va.
Proof using.
  intros Hi HT Hm. unfold guest_ptr. destruct (negb _); [done|].
  assert (translate 3 w' root va = translate 3 w root va) as ->.
  { apply (translate_miss w w' root T 3 root va 0 (-1)); try done;
      [|exact (tree_root _ _ _ HT)|intros Hh%hits_index; lia].
    intros p l i Hp _ _. apply entry_same; [by apply hit_moved_same|].
    by destruct (tree_used _ _ _ HT p l Hp). }
  destruct (translate 3 w root va) as [pa|]; [|done]. destruct (pa =? 0); [done|].
  by rewrite (frame_at_hit w w') by (done || apply Hi).
Qed.

Lemma hit_moved_tree w w' root T :
  kload_inv w -> tree w root T -> hit_moved w w' -> tree w' root T.
Proof using.
  intros Hi HT Hm. pose proof (hit_moved_same _ _ Hi Hm) as Hs.
  eapply tree_agree; [done| |].
  - intros p l i Hp _ _. apply entry_same; [done|]. by destruct (tree_used _ _ _ HT p l Hp).
  - intros p. destruct Hs as (_ & _ & Hu & _). apply Hu.
Qed.

(** The lookups the readers use: any that walk from [root]. *)
Definition looks_from (root : Z) (lookup : Z -> M (world OS) (co_rc_value_t * Z)) w : Prop :=
  forall va w', hit_moved w w' ->
    wp (lookup va) (fun r w'' => exists r0 w1, r = r0.1 /\ w'' = w1 /\ hit_moved w' w1 /\
          co_arch_guest_lookup_root root va w' = (Ret r0, w1)) (fun _ _ => False) w'.

Lemma wp_page_ptr w root T lookup va w' :
  kload_inv w -> tree w root T -> looks_from root lookup w -> hit_moved w w' ->
  wp (page_ptr lookup va)
    (fun p w'' => hit_moved w w'' /\
       guest_ptr w root va = inl (p + va mod CO_ARCH_PAGE_SIZE))
    (fun rc w'' => hit_moved w w'' /\ guest_ptr w root va = inr rc) w'.
Proof using.
  intros Hi HT Hl Hm. pose proof (hit_moved_inv _ _ Hi Hm) as Hi'.
  pose proof (hit_moved_tree _ _ _ _ Hi HT Hm) as HT'.
  rewrite <- (guest_ptr_hit w w' root va T) by done.
  unfold page_ptr. wp_step. eapply wp_mono; [by apply Hl| |done].
  intros r w2 (r0 & w1 & -> & -> & Hmv & Hrun). unfold guest_ptr.
  destruct (CO_ARCH_VA_CANONICAL va) eqn:Hcan; cbn [negb].
  - pose proof (wp_guest_lookup_root w' root T va Hi' HT' Hcan) as Hwp.
    unfold wp in Hwp. rewrite Hrun in Hwp. destruct Hwp as [Hs Hans].
    assert (hit_moved w w1) as Hm1 by (eapply hit_moved_trans; [done|apply Hs]).
    destruct r0 as [[rc pa] lv]. unfold lookup_answers in Hans.
    destruct (translate 3 w' root va) as [x|]; cbn in Hans |- *; destruct_hyps; subst.
    + wp_step. destruct (x =? 0); [by apply wp_throw|]. apply wp_ret. wp_step.
      apply wp_frame_at; [apply hit_moved_inv in Hm1; [apply Hm1|done]|].
      intros w3 Hm3. assert (hit_moved w w3) as Hm13 by (by eapply hit_moved_trans).
      rewrite (frame_at_hit w' w1); [|apply Hi'|apply Hs].
      destruct (frame_at w' _); [by apply wp_ret|by apply wp_throw].
    + wp_step. by apply wp_throw.
  - unfold co_arch_guest_lookup_root in Hrun. rewrite Hcan in Hrun.
    injection Hrun as <- <-. cbn. wp_step. by apply wp_throw.
Qed.

Lemma lookup_root_runs root T va w' :
  kload_inv w' -> tree w' root T ->
  wp (co_arch_guest_lookup_root root va)
    (fun r0 w1 => hit_moved w' w1 /\ co_arch_guest_lookup_root root va w' = (Ret r0, w1))
    (fun _ _ => False) w'.
Proof using.
  intros Hi HT. unfold wp. destruct (CO_ARCH_VA_CANONICAL va) eqn:Hcan.
  - pose proof (wp_guest_lookup_root w' root T va Hi HT Hcan) as Hwp. unfold wp in Hwp.
    destruct (co_arch_guest_lookup_root root va w') as [[r|rc|] w1]; [|done..].
    split; [apply Hwp|done].
  - unfold co_arch_guest_lookup_root. rewrite Hcan. split; [apply hit_moved_refl, Hi|done].
Qed.

Lemma looks_from_space w s T :
  kload_inv w -> tree w (pml4_pfn s) T -> kload_space (w_kl w) = Some s ->
  looks_from (pml4_pfn s) lookup_space w.
Proof using.
  intros Hi HT Hs va w' Hm. unfold lookup_space, kl. wp_step. apply wp_gets.
  assert (kload_space (w_kl w') = Some s) as -> by (by destruct Hm as (h & _ & ->)).
  wp_step. eapply wp_ret_mono.
  { apply (lookup_root_runs _ T); [by eapply hit_moved_inv|by eapply hit_moved_tree]. }
  intros r0 w1 [Hmv Hrun]. apply wp_ret. by exists r0, w1.
Qed.

Lemma looks_from_cr3 w cr3 T :
  kload_inv w -> tree w (cr3_root cr3) T -> looks_from (cr3_root cr3) (lookup_cr3 cr3) w.
Proof using.
  intros Hi HT va w' Hm. unfold lookup_cr3. wp_step. eapply wp_ret_mono.
  { apply (lookup_root_runs _ T); [by eapply hit_moved_inv|by eapply hit_moved_tree]. }
  intros r0 w1 [Hmv Hrun]. apply wp_ret. by exists r0, w1.
Qed.

(** *** The page loop *)

(** Bytes of the transfer that lie in the page of its byte [d]. *)
Definition part_at (va size d : Z) : Z :=
  let part := CO_ARCH_PAGE_SIZE - (va + d) mod CO_ARCH_PAGE_SIZE in
  if size - d <? part then size - d else part.

Lemma part_at_range va size d :
  0 <= va -> 0 <= d < size -> 0 < part_at va size d <= size - d /\
  forall i, 0 <= i < part_at va size d ->
    (va + d + i) / CO_ARCH_PAGE_SIZE = (va + d) / CO_ARCH_PAGE_SIZE.
Proof using.
  intros Hva Hd. unfold part_at. change CO_ARCH_PAGE_SIZE with 4096.
  case_cond; (split; [|intros i]); Z.div_mod_to_equations; lia.
Qed.

Lemma wp_xfer {R B} (resolve : Z -> M (world OS) R)
    (act : B -> R -> Z -> Z -> M (world OS) B) va size b
    (I : Z -> B -> world OS -> Prop) (Q : B -> world OS -> Prop) E w :
  0 <= va < 2 ^ 64 -> 0 <= size < 2 ^ 32 -> va + size <= 2 ^ 64 ->
  (forall d b w, 0 <= d < size -> I d b w ->
     wp (resolve (va + d)) (fun r => wp (act b r ((va + d) mod CO_ARCH_PAGE_SIZE)
           (part_at va size d)) (fun b' => I (d + part_at va size d) b') E) E w) ->
  I 0 b w -> (forall b w, I size b w -> Q b w) ->
  wp (xfer resolve act va size b) Q E w.
Proof using.
  intros Hva Hsize Hend Hstep Hinit HQ.
  apply (wp_mloop _ (fun st w => exists d, 0 <= d <= size /\ st.1.1 = u64 (va + d) /\
      st.1.2 = size - d /\ I d st.2 w) (fun st _ => st.1.2)).
  - intros [[va' size'] b'] w' (d & Hd & Hva' & Hsize' & HI). cbn [fst snd] in *. subst.
    unfold xfer_step. destruct (Z.eqb_spec (size - d) 0) as [Hz|Hz].
    { apply wp_ret, HQ. by replace size with d by lia. }
    destruct (part_at_range va size d ltac:(lia) ltac:(lia)) as [Hp Hsame].
    rewrite (u64_small (va + d)) by lia. rewrite page_off_eq by lia.
    change (2 ^ 12) with CO_ARCH_PAGE_SIZE.
    assert (ulong ((va + d) mod CO_ARCH_PAGE_SIZE) = (va + d) mod CO_ARCH_PAGE_SIZE) as ->.
    { apply u32_small. change CO_ARCH_PAGE_SIZE with 4096. Z.div_mod_to_equations; lia. }
    cbn zeta. fold (part_at va size d). wp_step.
    eapply wp_ret_mono; [apply Hstep; [lia|done]|]. intros r w2 Hact.
    wp_step. eapply wp_ret_mono; [exact Hact|]. intros b2 w3 HI'. apply wp_ret.
    assert (ulong (size - d - part_at va size d) = size - (d + part_at va size d)) as Hu
      by (unfold ulong; rewrite u32_small by lia; lia).
    rewrite Hu. cbn [fst snd]. split; [|lia]. exists (d + part_at va size d).
    split_and!; [lia|lia| |done|done]. f_equal. lia.
  - exists 0. cbn [fst snd]. split_and!; [lia|lia| |lia|done].
    by rewrite Z.add_0_r, u64_small by lia.
  - cbn [fst snd]. lia.
Qed.

(** *** Reading *)

(** The reference: one byte at a time, stopping at the first that fails. *)
Fixpoint guest_read (n : nat) w root va : list Z + co_rc_value_t :=
  match n with
  | O => inl []
  | S n' =>
      match guest_ptr w root va with
      | inr rc => inr rc
      | inl p =>
          match guest_read n' w root (va + 1) with
          | inr rc => inr rc
          | inl bs => inl (load (w_mem w) p :: bs)
          end
      end
  end.

Lemma guest_read_app n m w root va :
  guest_read (n + m) w root va =
    match guest_read n w root va with
    | inr rc => inr rc
    | inl a => match guest_read m w root (va + Z.of_nat n) with
               | inr rc => inr rc
               | inl b => inl (a ++ b)
               end
    end.
Proof using.
  revert va. induction n as [|n IH]; intros va.
  - cbn [Nat.add guest_read]. rewrite Z.add_0_r.
    by destruct (guest_read m w root va).
  - cbn [Nat.add guest_read]. destruct (guest_ptr w root va) as [p|rc]; [|done].
    rewrite IH. destruct (guest_read n w root (va + 1)) as [a|rc]; [|done].
    replace (va + Z.of_nat (S n)) with (va + 1 + Z.of_nat n) by lia.
    by destruct (guest_read m w root _).
Qed.

(** A run of bytes inside one page is a run of host memory. *)
Lemma guest_read_part n w root va p :
  (forall i, 0 <= i < Z.of_nat n -> (va + i) / CO_ARCH_PAGE_SIZE = va / CO_ARCH_PAGE_SIZE) ->
  guest_ptr w root va = inl p ->
  guest_read n w root va = inl (load_bytes (w_mem w) p (Z.of_nat n)).
Proof using.
  revert va p. induction n as [|n IH]; intros va p Hpage Hp; [done|].
  cbn [guest_read]. rewrite Hp. destruct (decide (n = O)) as [->|Hn]; [done|].
  rewrite (IH (va + 1) (p + 1)).
  - f_equal. replace (Z.of_nat (S n)) with (1 + Z.of_nat n) by lia.
    rewrite load_bytes_app by lia. done.
  - intros i Hi. rewrite (Hpage 1) by lia. rewrite <- (Hpage (1 + i)) by lia.
    f_equal. lia.
  - rewrite (guest_ptr_page w root va (va + 1) p); [f_equal; lia| |done].
    symmetry. apply Hpage. lia.
Qed.

Lemma guest_read_step w root va size d p bs :
  0 <= va -> 0 <= d < size -> guest_ptr w root (va + d) = inl p ->
  guest_read (Z.to_nat d) w root va = inl bs ->
  guest_read (Z.to_nat (d + part_at va size d)) w root va =
    inl (bs ++ load_bytes (w_mem w) p (part_at va size d)).
Proof using.
  intros Hva Hd Hp Hbs. destruct (part_at_range va size d Hva Hd) as [Hr Hpage].
  rewrite Z2Nat.inj_add, guest_read_app, Hbs, Z2Nat.id by lia.
  rewrite (guest_read_part _ _ _ _ p); rewrite ?Z2Nat.id by lia; [done|apply Hpage|done].
Qed.

Lemma guest_read_fail w root va size d bs rc :
  0 <= d < size -> guest_ptr w root (va + d) = inr rc ->
  guest_read (Z.to_nat d) w root va = inl bs ->
  guest_read (Z.to_nat size) w root va = inr rc.
Proof using.
  intros Hd Hp Hbs. replace (Z.to_nat size) with (Z.to_nat d + S (Z.to_nat (size - d - 1)))%nat
    by lia.
  rewrite guest_read_app, Hbs, Z2Nat.id by lia. cbn [guest_read]. by rewrite Hp.
Qed.

(** The read loop against the reference, from any root. *)
Lemma wp_read_loop w root T lookup va size :
  kload_inv w -> tree w root T -> looks_from root lookup w ->
  0 <= va < 2 ^ 64 -> 0 <= size < 2 ^ 32 -> va + size <= 2 ^ 64 ->
  wp (xfer (page_ptr lookup) act_read va size [])
    (fun bs w' => hit_moved w w' /\ guest_read (Z.to_nat size) w root va = inl bs)
    (fun rc w' => hit_moved w w' /\ guest_read (Z.to_nat size) w root va = inr rc) w.
Proof using.
  intros Hi HT Hl Hva Hsize Hend.
  apply (wp_xfer _ _ _ _ _ (fun d bs w' => hit_moved w w' /\
           guest_read (Z.to_nat d) w root va = inl bs)); try done.
  - intros d bs w' Hd [Hm Hbs]. eapply wp_mono; [exact (wp_page_ptr w root T lookup _ _ Hi HT Hl Hm)|..].
    + intros p w2 [Hm2 Hp]. unfold act_read. wp_step. apply wp_gets, wp_ret.
      split; [done|]. rewrite (guest_read_step _ _ _ _ _ _ _ (proj1 Hva) Hd Hp Hbs).
      by destruct Hm2 as (h & _ & ->).
    + intros rc w2 [Hm2 Hp]. split; [done|]. by eapply guest_read_fail.
  - split; [by apply hit_moved_refl, Hi|done].
Qed.

(** The checksum loop computes the FNV-1a sum of what the reader reads. *)
Lemma wp_sum_loop w root T lookup va size :
  kload_inv w -> tree w root T -> looks_from root lookup w ->
  0 <= va < 2 ^ 64 -> 0 <= size < 2 ^ 32 -> va + size <= 2 ^ 64 ->
  wp (xfer (page_ptr lookup) act_sum va size fnv_offset_basis)
    (fun sum w' => hit_moved w w' /\ exists bs, guest_read (Z.to_nat size) w root va = inl bs /\
                     sum = fold_left fnv_step bs fnv_offset_basis)
    (fun rc w' => hit_moved w w' /\ guest_read (Z.to_nat size) w root va = inr rc) w.
Proof using.
  intros Hi HT Hl Hva Hsize Hend.
  apply (wp_xfer _ _ _ _ _ (fun d sum w' => hit_moved w w' /\ exists bs,
           guest_read (Z.to_nat d) w root va = inl bs /\
           sum = fold_left fnv_step bs fnv_offset_basis)); try done.
  - intros d sum w' Hd (Hm & bs & Hbs & ->). eapply wp_mono; [exact (wp_page_ptr w root T lookup _ _ Hi HT Hl Hm)|..].
    + intros p w2 [Hm2 Hp]. apply wp_gets. split; [done|].
      eexists. split; [exact (guest_read_step _ _ _ _ _ _ _ (proj1 Hva) Hd Hp Hbs)|].
      rewrite fold_left_app. by destruct Hm2 as (h & _ & ->).
    + intros rc w2 [Hm2 Hp]. split; [done|]. by eapply guest_read_fail.
  - split; [by apply hit_moved_refl, Hi|]. by exists [].
Qed.

(** *** Writing *)

(** The page lies outside the tables in use. *)
Definition data_byte w x : Prop :=
  exists q a, page_va (w_kl w) q a /\ ~ table_page (w_kl w) (kload_table_top (w_kl w)) q /\
              a <= x < a + CO_ARCH_PAGE_SIZE.

(** Only data pages and the cache differ. *)
Definition data_moved w w' : Prop :=
  hit_moved w (set_mem (w_mem w) w') /\
  forall p a x, page_va (w_kl w) p a -> table_page (w_kl w) (kload_table_top (w_kl w)) p ->
    a <= x < a + CO_ARCH_PAGE_SIZE -> w_mem w' x = w_mem w x.

Lemma data_moved_refl w : kload_inv w -> data_moved w w.
Proof using. intros Hi. split; [|done]. destruct w. apply hit_moved_refl, Hi. Qed.

Lemma data_moved_hit w w1 w2 : data_moved w w1 -> hit_moved w1 w2 -> data_moved w w2.
Proof using.
  intros [(h & Hh & He) Hm] (h2 & Hh2 & ->). split; [|done].
  exists h2. split; [done|].
  change (set_mem (w_mem w) (upd_kl (set_last_hit h2) w1)) with
    (upd_kl (set_last_hit h2) (set_mem (w_mem w) w1)). by rewrite He.
Qed.

Lemma data_moved_split w w' :
  data_moved w w' -> exists w1, hit_moved w w1 /\ w' = set_mem (w_mem w') w1.
Proof using.
  intros [Hm _]. exists (set_mem (w_mem w) w'). split; [done|]. by destruct w'.
Qed.

Lemma data_moved_inv w w' : kload_inv w -> data_moved w w' -> kload_inv w'.
Proof using.
  intros Hi Hd. destruct (data_moved_split _ _ Hd) as (w1 & Hm & ->).
  pose proof (hit_moved_inv _ _ Hi Hm) as (Ho & Ht & Hh). done.
Qed.

Lemma data_moved_entry w w' mfn i :
  kload_inv w -> data_moved w w' -> table_used w mfn -> 0 <= i < 512 ->
  entry_at w' mfn i = entry_at w mfn i.
Proof using.
  intros Hi Hd Hu Hir. destruct (table_used_page _ _ Hi Hu) as (p & a & Hp & Hlo & <- & Ha).
  destruct (data_moved_split _ _ Hd) as (w1 & Hm & He).
  pose proof (hit_moved_inv _ _ Hi Hm) as Hi1. pose proof (data_moved_inv _ _ Hi Hd) as Hi'.
  unfold entry_at. cbn.
  assert (frame_at w' (p2m_at (w_kl w) p) = Some a) as ->.
  { rewrite <- (frame_at_page w p a) by (done || apply Hi).
    rewrite <- (frame_at_hit w w1) by (done || apply Hi).
    apply frame_at_kl; [apply Hi1|apply Hi'|by rewrite He]. }
  rewrite (frame_at_page w p a) by (done || apply Hi). cbn. f_equal.
  apply load_u64_ext. intros x Hx. unfold load. f_equal.
  apply (proj2 Hd p a); [done| |change CO_ARCH_PAGE_SIZE with 4096; lia].
  split.
  - destruct Hi as (_ & [_ _ _ Hal _] & _). change CO_ARCH_PAGE_SIZE with 4096 in *.
    Z.div_mod_to_equations; lia.
  - destruct Hu as (q & Hq1 & Hq2 & Hq).
    assert (q = p) as ->; [|done]. destruct Hi as (Hok & [_ Hst _ _ Hend] & _).
    apply (p2m_inj _ _ _ _ Hok); [|done|done].
    change CO_ARCH_PAGE_SIZE with 4096 in *. Z.div_mod_to_equations; lia.
Qed.

Lemma data_moved_tree w w' root T :
  kload_inv w -> tree w root T -> data_moved w w' -> tree w' root T.
Proof using.
  intros Hi HT Hd. eapply tree_agree; [done| |].
  - intros p l i Hp _ Hir. apply data_moved_entry; try done.
    by destruct (tree_used _ _ _ HT p l Hp).
  - intros p. destruct (data_moved_split _ _ Hd) as (w1 & (h & _ & ->) & ->). done.
Qed.

Lemma data_moved_ptr w w' root T va :
  kload_inv w -> tree w root T -> data_moved w w' ->
  guest_ptr w' root va = guest_ptr w root va.
Proof using.
  intros Hi HT Hd. unfold guest_ptr. destruct (negb _); [done|].
  assert (translate 3 w' root va = translate 3 w root va) as ->.
  { apply (translate_miss w w' root T 3 root va 0 (-1)); try done;
      [|exact (tree_root _ _ _ HT)|intros Hh%hits_index; lia].
    intros p l i Hp Hir _. apply data_moved_entry; try done.
    by destruct (tree_used _ _ _ HT p l Hp). }
  destruct (translate 3 w root va) as [pa|]; [|done]. destruct (pa =? 0); [done|].
  destruct (data_moved_split _ _ Hd) as (w1 & Hm & He).
  pose proof (hit_moved_inv _ _ Hi Hm) as Hi1. pose proof (data_moved_inv _ _ Hi Hd) as Hi'.
  rewrite <- (frame_at_hit w w1) by (done || apply Hi).
  rewrite (frame_at_kl w1 w'); [done|apply Hi1|apply Hi'|by rewrite He].
Qed.

(** A guest range the writer may touch: data pages, no byte twice. *)
Record writable w root va size : Prop := {
  wr_data i p : 0 <= i < size -> guest_ptr w root (va + i) = inl p -> data_byte w p;
  wr_inj i j p : 0 <= i < size -> 0 <= j < size ->
    guest_ptr w root (va + i) = inl p -> guest_ptr w root (va + j) = inl p -> i = j;
}.

(** The first [d] bytes of [data] are in place and nothing else changed. *)
Record wrote w root va (data : list Z) d w' : Prop := {
  wt_moved : data_moved w w';
  wt_bytes i : 0 <= i < d -> exists p b, guest_ptr w root (va + i) = inl p /\
    data !! Z.to_nat i = Some b /\ load (w_mem w') p = b;
  wt_rest x : (forall i, 0 <= i < d -> guest_ptr w root (va + i) <> inl x) ->
    w_mem w' x = w_mem w x;
}.

Lemma store_in_data w w' x bs :
  kload_inv w -> data_moved w w' ->
  (forall i, 0 <= i < Z.of_nat (length bs) -> data_byte w (x + i)) ->
  data_moved w (set_mem (store_bytes (w_mem w') x bs) w').
Proof using.
  intros Hi [Hm Ht] Hx. split; [by destruct w'|].
  intros p a y Hp Htp Hy. cbn. rewrite <- (Ht p a y) by done.
  unfold store_bytes. rewrite decide_False; [done|]. intros Hin.
  destruct (Hx (y - x) ltac:(lia)) as (q & b & Hq & Hnt & Hb).
  replace (x + (y - x)) with y in Hb by lia.
  destruct (decide (p = q)) as [->|Hne]; [done|].
  destruct Hi as (Hok & _). destruct (pages_apart _ _ _ _ _ _ Hok Hp Hq Hne); lia.
Qed.

Lemma wrote_step w root va size data d w' p part :
  kload_inv w -> writable w root va size -> Forall is_byte data ->
  Z.of_nat (length data) = size -> 0 <= d < size -> 0 < part <= size - d ->
  (forall i, 0 <= i < part -> guest_ptr w root (va + d + i) = inl (p + i)) ->
  wrote w root va data d w' ->
  wrote w root va data (d + part)
    (set_mem (store_bytes (w_mem w') p (take (Z.to_nat part) (drop (Z.to_nat d) data))) w').
Proof using.
  intros Hi [Hdata Hinj] Hby Hlen Hd Hpart Hptr [Hmv Hbs Hrest].
  set (bs := take _ _).
  assert (Z.of_nat (length bs) = part) as Hl
    by (unfold bs; rewrite length_take, length_drop; lia).
  assert (Forall is_byte bs) as Hbb by (by apply Forall_take, Forall_drop).
  assert (forall i, 0 <= i < part -> bs !! Z.to_nat i = data !! Z.to_nat (d + i)) as Hbl.
  { intros i Hir. unfold bs. rewrite lookup_take_lt by lia. rewrite lookup_drop.
    f_equal. lia. }
  split.
  - apply store_in_data; [done..|]. intros i Hir. rewrite Hl in Hir.
    apply (Hdata (d + i)); [lia|]. rewrite <- (Hptr i Hir). f_equal. lia.
  - intros i Hir. cbn. destruct (decide (i < d)) as [Hlt|Hge].
    + destruct (Hbs i ltac:(lia)) as (x & b & Hx & Hb & Hld). exists x, b.
      split_and!; [done|done|]. rewrite load_store by done. rewrite decide_False; [done|].
      rewrite Hl. intros Hin. assert (i = d + (x - p)); [|lia].
      apply (Hinj _ _ x); [lia|lia|done|]. rewrite Z.add_assoc, Hptr by lia. f_equal. lia.
    + exists (p + (i - d)). destruct (lookup_lt_is_Some_2 data (Z.to_nat i)) as [b Hb];
        [lia|]. exists b. split_and!; [|done|].
      * rewrite <- Hptr by lia. f_equal. lia.
      * rewrite load_store by done. rewrite decide_True by lia.
        replace (p + (i - d) - p) with (i - d) by lia. rewrite Hbl by lia.
        replace (d + (i - d)) with i by lia. by rewrite Hb.
  - intros x Hx. cbn. unfold store_bytes. rewrite decide_False.
    + apply Hrest. intros i Hir. apply Hx. lia.
    + rewrite Hl. intros Hin. apply (Hx (d + (x - p))); [lia|].
      rewrite Z.add_assoc, Hptr by lia. f_equal. lia.
Qed.

Lemma wrote_0 w root va data : kload_inv w -> wrote w root va data 0 w.
Proof using. intros Hi. split; [by apply data_moved_refl|intros; lia|done]. Qed.

Lemma wrote_hit w root va data d w1 w2 :
  wrote w root va data d w1 -> hit_moved w1 w2 -> wrote w root va data d w2.
Proof using.
  intros [Hd Hb Hr] Hm. split; [by eapply data_moved_hit|..];
    by destruct Hm as (h & _ & ->).
Qed.

(** The write loop: all the data at the addresses the walk names, or the
    bytes before the first page that fails. *)
Lemma wp_write_loop w root T lookup va size data :
  kload_inv w -> tree w root T ->
  (forall w', data_moved w w' -> looks_from root lookup w') ->
  writable w root va size -> Forall is_byte data -> Z.of_nat (length data) = size ->
  0 <= va < 2 ^ 64 -> 0 <= size < 2 ^ 32 -> va + size <= 2 ^ 64 ->
  wp (xfer (page_ptr lookup) act_write va size data)
    (fun _ => wrote w root va data size)
    (fun rc w' => exists d, 0 <= d < size /\ guest_ptr w root (va + d) = inr rc /\
                    wrote w root va data d w') w.
Proof using.
  intros Hi HT Hl Hwr Hby Hlen Hva Hsize Hend.
  apply (wp_xfer _ _ _ _ _ (fun d rest w' => rest = drop (Z.to_nat d) data /\
           wrote w root va data d w')); try done.
  - intros d rest w' Hd (-> & Hw). pose proof (wt_moved _ _ _ _ _ _ Hw) as Hmv.
    pose proof (data_moved_inv _ _ Hi Hmv) as Hi'.
    pose proof (data_moved_tree _ _ _ _ Hi HT Hmv) as HT'.
    destruct (part_at_range va size d (proj1 Hva) Hd) as [Hpart Hpage].
    eapply wp_mono; [exact (wp_page_ptr w' root T lookup _ _ Hi' HT' (Hl _ Hmv)
                              (hit_moved_refl _ (proj1 Hi')))|..].
    + intros p w2 [Hm2 Hp]. rewrite (data_moved_ptr w w' root T) in Hp by done.
      unfold act_write. wp_step. apply wp_in_bounds.
      { apply Z.leb_le. rewrite length_drop. lia. }
      wp_step. apply wp_modify, wp_ret. split.
      { rewrite drop_drop. f_equal. lia. }
      apply (wrote_step w root va size); try done.
      * intros i Hir. rewrite (guest_ptr_page w root (va + d) _ _) with (2 := Hp);
          [f_equal; lia|]. symmetry. by apply Hpage.
      * by eapply wrote_hit.
    + intros rc w2 [Hm2 Hp]. rewrite (data_moved_ptr w w' root T) in Hp by done.
      exists d. split_and!; [lia|lia|done|by eapply wrote_hit].
  - split; [done|]. by apply wrote_0.
  - by intros rest w' [_ Hw].
Qed.

(** Reading back a range that was written. *)
Lemma guest_read_wrote (n : nat) w w' root T va data i :
  kload_inv w -> tree w root T -> wrote w root va data (Z.of_nat (length data)) w' ->
  (i + n = length data)%nat ->
  guest_read n w' root (va + Z.of_nat i) = inl (drop i data).
Proof using.
  intros Hi HT Hw. revert i. induction n as [|n IH]; intros i Hin.
  - rewrite drop_ge by lia. done.
  - assert (0 <= Z.of_nat i < Z.of_nat (length data)) as Hir by lia.
    destruct (wt_bytes _ _ _ _ _ _ Hw (Z.of_nat i) Hir) as (p & b & Hp & Hb & Hld).
    cbn [guest_read]. rewrite (data_moved_ptr w w' root T) by (try done; apply Hw).
    rewrite Hp. replace (va + Z.of_nat i + 1) with (va + Z.of_nat (S i)) by lia.
    rewrite IH by lia. rewrite Nat2Z.id in Hb.
    by rewrite (drop_S _ _ _ Hb), Hld.
Qed.

(** *** One address, one word *)

Lemma wp_host_ptr w s T va (E : co_rc_value_t -> world OS -> Prop) :
  kload_inv w -> tree w (pml4_pfn s) T -> kload_space (w_kl w) = Some s ->
  0 <= va < 2 ^ 64 ->
  wp (co_kload_host_ptr va)
    (fun r w' => hit_moved w w' /\
       match r with
       | Some p => guest_ptr w (pml4_pfn s) va = inl p
       | None => exists rc, guest_ptr w (pml4_pfn s) va = inr rc
       end) E w.
Proof using.
  intros Hi HT Hs Hva. pose proof (looks_from_space _ _ _ Hi HT Hs) as Hl.
  unfold co_kload_host_ptr, kl. wp_step. apply wp_gets. rewrite Hs.
  rewrite bool_decide_eq_false_2 by done.
  assert (ulong (page_off va) = va mod CO_ARCH_PAGE_SIZE) as ->.
  { rewrite page_off_eq by done. apply u32_small. change CO_ARCH_PAGE_SIZE with 4096.
    change (2 ^ 12) with 4096. Z.div_mod_to_equations; lia. }
  pose proof (wp_page_ptr w (pml4_pfn s) T lookup_space va w Hi HT Hl
                (hit_moved_refl _ (proj1 Hi))) as Hwp.
  pose proof (Hl va w (hit_moved_refl _ (proj1 Hi))) as Hlv.
  unfold wp, page_ptr, mbind, M_bind in *.
  destruct (lookup_space va w) as [[[rc pa]|rc|] w1]; [|done..].
  destruct Hlv as (r0 & w1' & _ & <- & Hm1 & _).
  pose proof (hit_moved_ok _ _ (proj1 Hi) Hm1) as Hok1.
  pose proof (wp_frame_va w1 (Z.shiftr pa CO_ARCH_PAGE_SHIFT) (fun _ _ => False) Hok1) as Hf.
  unfold wp in Hf.
  cbn [fst snd] in *. destruct (negb (CO_OK rc) || (pa =? 0))%bool; cbn in *.
  - destruct Hwp as [Hm Hp]. split; [done|]. by eexists.
  - destruct (co_kload_frame_va _ w1) as [[[p|]|rc'|] w2]; cbn in *; try done.
    + destruct Hwp as [Hm Hp]. split; [done|]. by eexists.
Qed.

(** *** The readers *)

Lemma wp_need_space w s (Q : unit -> world OS -> Prop) E :
  kload_space (w_kl w) = Some s -> Q tt w -> wp need_space Q E w.
Proof using.
  intros Hs HQ. unfold need_space, kl. wp_step. apply wp_gets.
  rewrite Hs, bool_decide_eq_false_2 by done. by apply wp_ret.
Qed.

Lemma wp_kload_read w s T va size :
  kload_inv w -> tree w (pml4_pfn s) T -> kload_space (w_kl w) = Some s ->
  0 <= va < 2 ^ 64 -> 0 <= size < 2 ^ 32 -> va + size <= 2 ^ 64 ->
  wp (co_kload_read va size)
    (fun bs w' => hit_moved w w' /\ guest_read (Z.to_nat size) w (pml4_pfn s) va = inl bs)
    (fun rc w' => hit_moved w w' /\ guest_read (Z.to_nat size) w (pml4_pfn s) va = inr rc) w.
Proof using.
  intros Hi HT Hs Hva Hsize Hend. unfold co_kload_read. wp_step.
  eapply wp_need_space; [exact Hs|].
  exact (wp_read_loop w _ T lookup_space va size Hi HT
           (looks_from_space _ _ _ Hi HT Hs) Hva Hsize Hend).
Qed.

Lemma wp_kload_verify w s T va size :
  kload_inv w -> tree w (pml4_pfn s) T -> kload_space (w_kl w) = Some s ->
  0 <= va < 2 ^ 64 -> 0 <= size < 2 ^ 32 -> va + size <= 2 ^ 64 ->
  wp (co_kload_verify va size)
    (fun sum w' => hit_moved w w' /\ exists bs,
       guest_read (Z.to_nat size) w (pml4_pfn s) va = inl bs /\
       sum = fold_left fnv_step bs fnv_offset_basis)
    (fun rc w' => hit_moved w w' /\ guest_read (Z.to_nat size) w (pml4_pfn s) va = inr rc) w.
Proof using.
  intros Hi HT Hs Hva Hsize Hend. unfold co_kload_verify. wp_step.
  eapply wp_need_space; [exact Hs|].
  exact (wp_sum_loop w _ T lookup_space va size Hi HT
           (looks_from_space _ _ _ Hi HT Hs) Hva Hsize Hend).
Qed.

Lemma wp_kload_write w s T va data :
  kload_inv w -> tree w (pml4_pfn s) T -> kload_space (w_kl w) = Some s ->
  let size := Z.of_nat (length data) in
  writable w (pml4_pfn s) va size -> Forall is_byte data ->
  0 <= va < 2 ^ 64 -> size < 2 ^ 32 -> va + size <= 2 ^ 64 ->
  wp (co_kload_write va data size)
    (fun _ => wrote w (pml4_pfn s) va data size)
    (fun rc w' => exists d, 0 <= d < size /\ guest_ptr w (pml4_pfn s) (va + d) = inr rc /\
                    wrote w (pml4_pfn s) va data d w') w.
Proof using.
  intros Hi HT Hs size Hwr Hby Hva Hsize Hend. unfold co_kload_write.
  wp_step. eapply wp_need_space; [exact Hs|]. wp_step. eapply wp_ret_mono.
  - apply (wp_write_loop w _ T); try done; [|lia]. intros w' Hd.
    pose proof (data_moved_inv _ _ Hi Hd) as Hi'.
    apply (looks_from_space w' s T); [done|exact (data_moved_tree _ _ _ _ Hi HT Hd)|].
    destruct (data_moved_split _ _ Hd) as (w1 & (h & _ & ->) & ->). done.
  - intros rest w' Hw. by apply wp_ret.
Qed.

(** *** Properties *)

(** C9: the reader is the walk, byte by byte. [co_kload_read] returns exactly
    the bytes the reference reads one address at a time through the page
    tables and the two maps, or fails with the code of the first address
    that cannot be read; nothing but the lookup cache changes. *)
Theorem kload_read_refines_walk w s T va size :
  kload_inv w -> tree w (pml4_pfn s) T -> kload_space (w_kl w) = Some s ->
  0 <= va < 2 ^ 64 -> 0 <= size < 2 ^ 32 -> va + size <= 2 ^ 64 ->
  exists w', hit_moved w w' /\
    co_kload_read va size w =
      (match guest_read (Z.to_nat size) w (pml4_pfn s) va with
       | inl bs => Ret bs | inr rc => Fail rc end, w').
Proof using.
  intros Hi HT Hs Hva Hsize Hend.
  destruct (wp_cases _ _ _ _ (wp_kload_read w s T va size Hi HT Hs Hva Hsize Hend))
    as [(bs & w' & Hrun & Hm & ->)|(rc & w' & Hrun & Hm & ->)]; by exists w'.
Qed.

(** The checksum is of what the guest would read. [co_kload_verify]
    returns the FNV-1a sum of the very bytes [co_kload_read] returns for the
    range, and fails, with the same code, exactly when the read fails. *)
Theorem kload_verify_sums_read w s T va size :
  kload_inv w -> tree w (pml4_pfn s) T -> kload_space (w_kl w) = Some s ->
  0 <= va < 2 ^ 64 -> 0 <= size < 2 ^ 32 -> va + size <= 2 ^ 64 ->
  match (co_kload_read va size w).1, (co_kload_verify va size w).1 with
  | Ret bs, Ret sum => sum = fold_left fnv_step bs fnv_offset_basis
  | Fail rc, Fail rc' => rc = rc'
  | _, _ => False
  end.
Proof using.
  intros Hi HT Hs Hva Hsize Hend.
  destruct (wp_cases _ _ _ _ (wp_kload_read w s T va size Hi HT Hs Hva Hsize Hend))
    as [(bs & w1 & -> & _ & Hr)|(rc & w1 & -> & _ & Hr)];
  destruct (wp_cases _ _ _ _ (wp_kload_verify w s T va size Hi HT Hs Hva Hsize Hend))
    as [(sum & w2 & -> & _ & Hv)|(rc' & w2 & -> & _ & Hv)]; cbn [fst];
  rewrite Hr in Hv; destruct_hyps; simplify_eq; done.
Qed.

(** C34: what is written is read back. When the range lies in data pages, no
    byte of it twice, a [co_kload_write] that succeeds makes
    [co_kload_read] of the range return the data, leaves every byte of host
    memory outside the range alone, and keeps the address space intact; one
    that fails stops at an address that does not resolve and has changed
    only bytes of the range below it. *)
Theorem kload_write_then_read w s T va data :
  kload_inv w -> tree w (pml4_pfn s) T -> kload_space (w_kl w) = Some s ->
  writable w (pml4_pfn s) va (Z.of_nat (length data)) -> Forall is_byte data ->
  0 <= va < 2 ^ 64 -> Z.of_nat (length data) < 2 ^ 32 ->
  va + Z.of_nat (length data) <= 2 ^ 64 ->
  let size := Z.of_nat (length data) in
  let touched d x := exists i, 0 <= i < d /\ guest_ptr w (pml4_pfn s) (va + i) = inl x in
  match co_kload_write va data size w with
  | (Ret _, w') =>
      (exists w'', co_kload_read va size w' = (Ret data, w'')) /\
      (forall x, ~ touched size x -> w_mem w' x = w_mem w x) /\
      kload_inv w' /\ tree w' (pml4_pfn s) T
  | (Fail rc, w') =>
      (exists d, 0 <= d < size /\ guest_ptr w (pml4_pfn s) (va + d) = inr rc /\
         forall x, ~ touched d x -> w_mem w' x = w_mem w x) /\
      kload_inv w' /\ tree w' (pml4_pfn s) T
  | (Fault, _) => False
  end.
Proof using.
  intros Hi HT Hs Hwr Hby Hva Hsize Hend size touched.
  pose proof (wp_kload_write w s T va data Hi HT Hs Hwr Hby Hva Hsize Hend) as Hwp.
  cbn zeta in Hwp. fold size in Hwp.
  destruct (wp_cases _ _ _ _ Hwp) as [(r & w' & -> & Hw)|(rc & w' & -> & d & Hdr & Hp & Hw)];
  pose proof (wt_moved _ _ _ _ _ _ Hw) as Hd;
  pose proof (data_moved_inv _ _ Hi Hd) as Hi';
  pose proof (data_moved_tree _ _ _ _ Hi HT Hd) as HT'.
  - assert (kload_space (w_kl w') = Some s) as Hs'
      by (destruct (data_moved_split _ _ Hd) as (w1 & (h & _ & ->) & ->); done).
    split; [|split; [|done]].
    + pose proof (guest_read_wrote (length data) w w' _ T va data 0 Hi HT Hw eq_refl) as Hrd.
      rewrite Z.add_0_r, drop_0 in Hrd.
      destruct (wp_cases _ _ _ _ (wp_kload_read w' s T va size Hi' HT' Hs' Hva ltac:(lia) Hend))
        as [(bs & w'' & Hrun & _ & Hr)|(rc & w'' & _ & _ & Hr)];
        unfold size in Hr; rewrite Nat2Z.id, Hrd in Hr; simplify_eq. by exists w''.
    + intros x Hx. apply (wt_rest _ _ _ _ _ _ Hw). intros i Hir He. apply Hx. by exists i.
  - split; [|done]. exists d. split_and!; [lia|lia|done|].
    intros x Hx. apply (wt_rest _ _ _ _ _ _ Hw). intros i Hir He. apply Hx. by exists i.
Qed.
End access.
