(* ===== verification/KloadWindow.v ===== *)
(** The loader as the devices see it: [co_kload_read] and its kin implement
    the interface of [GuestMem] on every range of data pages. *)
From S2P Require Import Prelude.
From S2P Require Import Rc.
From S2P Require Import Mem.
From S2P Require Import GuestMem.
From S2P Require Import Mmu.
From S2P Require Import Space.
From S2P Require Import Host.
From S2P Require Import Frames.
From S2P Require Import FramesOk.
From S2P Require Import Grow.
From S2P Require Import Kload.
From S2P Require Import KloadSpace.
From S2P Require Import GuestAccess.

Section window.
Context {OS : Type} `{HostLaws OS}.
Implicit Types (w : world OS) (m : mem).

#[export] Instance kload_guest_mem : GuestMem (world OS) := {|
  gm_read := co_kload_read;
  gm_write := co_kload_write;
  gm_read_u32 := co_kload_read_u32;
  gm_write_u32 := co_kload_write_u32;
|}.

(** The window is a range of data pages of the running guest's space. *)
Record in_space w base size m (s : co_arch_guest_space) (T : gmap Z Z) : Prop := {
  is_inv : kload_inv w;
  is_tree : tree w (pml4_pfn s) T;
  is_space : kload_space (w_kl w) = Some s;
  is_base : 0 <= base /\ base mod 4 = 0;
  is_size : 0 <= size < 2 ^ 32 /\ base + size <= 2 ^ 64;
  is_writable : writable w (pml4_pfn s) base size;
  is_bytes i : 0 <= i < size ->
    exists p, guest_ptr w (pml4_pfn s) (base + i) = inl p /\ load (w_mem w) p = load m i;
}.

Definition kload_window w base size m : Prop := exists s T, in_space w base size m s T.

Definition kload_only w base size w' : Prop :=
  data_moved w w' /\
  forall s, kload_space (w_kl w) = Some s -> forall x,
    (forall i, 0 <= i < size -> guest_ptr w (pml4_pfn s) (base + i) <> inl x) ->
    w_mem w' x = w_mem w x.

Lemma data_moved_trans w w1 w2 : data_moved w w1 -> data_moved w1 w2 -> data_moved w w2.
Proof using.
  intros [Hm1 Ht1] [Hm2 Ht2]. split.
  - destruct Hm1 as (h1 & _ & E1), Hm2 as (h2 & Hh2 & E2). exists h2. split; [done|].
    change (set_mem (w_mem w) w2) with (set_mem (w_mem w) (set_mem (w_mem w1) w2)).
    rewrite E2. change (set_mem (w_mem w) (upd_kl (set_last_hit h2) w1)) with
      (upd_kl (set_last_hit h2) (set_mem (w_mem w) w1)). by rewrite E1.
  - assert (exists h, w_kl w1 = set_last_hit h (w_kl w)) as [h E].
    { destruct Hm1 as (h & _ & E). exists h.
      change (w_kl w1) with (w_kl (set_mem (w_mem w) w1)). by rewrite E. }
    intros p a x Hp Htp Hx. rewrite (Ht2 p a x); [by apply (Ht1 p a x)| | |done]; by rewrite E.
Qed.

(** A write through the walk is a write to the window. *)
Lemma in_space_wrote w base size m s T off bs w' :
  in_space w base size m s T -> 0 <= off -> off + Z.of_nat (length bs) <= size ->
  Forall is_byte bs -> wrote w (pml4_pfn s) (base + off) bs (Z.of_nat (length bs)) w' ->
  in_space w' base size (store_bytes m off bs) s T /\ kload_only w base size w'.
Proof using.
  intros [Hi HT Hs Hb Hz Hw Hby] Hoff Hlen Hbs [Hmv Hput Hrest].
  pose proof (data_moved_inv _ _ Hi Hmv) as Hi'.
  pose proof (data_moved_tree _ _ _ _ Hi HT Hmv) as HT'.
  assert (forall va, guest_ptr w' (pml4_pfn s) va = guest_ptr w (pml4_pfn s) va) as Hp
    by (intros va; exact (data_moved_ptr _ _ _ _ va Hi HT Hmv)).
  assert (forall x, (forall i, 0 <= i < size -> guest_ptr w (pml4_pfn s) (base + i) <> inl x) ->
            w_mem w' x = w_mem w x) as Hout.
  { intros x Hx. apply Hrest. intros i Hir. rewrite <- Z.add_assoc. apply Hx. lia. }
  split; [|split; [done|intros s' Hs'; simplify_eq; done]].
  destruct (data_moved_split _ _ Hmv) as (w1 & Hm & Ew).
  assert (exists h, w_kl w' = set_last_hit h (w_kl w)) as [h Ek]
    by (destruct Hm as (h & _ & ->); exists h; by rewrite Ew).
  split; [done|done|by rewrite Ek|done|done| |].
  - destruct Hw as [Hd Hj]. split.
    + intros i p Hir. rewrite Hp. intros Hpi. destruct (Hd i p Hir Hpi) as (q & a & Hq & Htp & Ha).
      exists q, a. by rewrite Ek.
    + intros i j p. rewrite !Hp. by apply Hj.
  - intros i Hir. rewrite Hp. destruct (Hby i Hir) as (p & Hpi & Hld). exists p. split; [done|].
    rewrite load_store by done.
    destruct (decide (off <= i < off + Z.of_nat (length bs))) as [Hin|Hno].
    + destruct (Hput (i - off) ltac:(lia)) as (p' & b & Hp' & -> & <-).
      replace (base + off + (i - off)) with (base + i) in Hp' by lia. assert (p = p') as <- by congruence. done.
    + rewrite <- Hld. unfold load. f_equal. apply Hrest. intros j Hj E.
      rewrite <- Z.add_assoc in E. assert (i = off + j) by (apply (wr_inj _ _ _ _ Hw i (off + j) p); [lia|lia|done|done]). lia.
Qed.

Lemma window_ext w base size m m' s T :
  in_space w base size m s T -> (forall i, 0 <= i < size -> load m i = load m' i) ->
  in_space w base size m' s T.
Proof using.
  intros [Hi HT Hs Hb Hz Hw Hby] Hx. split; [done..|]. intros i Hir.
  destruct (Hby i Hir) as (p & Hp & Hl). exists p. split; [done|]. rewrite Hl. by apply Hx.
Qed.

Lemma in_space_hit w base size m s T w' :
  in_space w base size m s T -> hit_moved w w' ->
  in_space w' base size m s T /\ kload_only w base size w'.
Proof using.
  intros Hin Hm. destruct (in_space_wrote w base size m s T 0 [] w') as [Hi Ho];
    [done|lia|cbn; apply (is_size _ _ _ _ _ _ Hin)|constructor| |].
  - eapply wrote_hit; [apply wrote_0, Hin|done].
  - split; [|done]. eapply window_ext; [exact Hi|]. intros i _. unfold load, store_bytes.
    by rewrite decide_False by (cbn; lia).
Qed.

Lemma sub_writable w root base size off n :
  0 <= off -> off + n <= size -> writable w root base size -> writable w root (base + off) n.
Proof using.
  intros Ho Hn [Hd Hj]. split.
  - intros i p Hir Hp. rewrite <- Z.add_assoc in Hp. apply (Hd (off + i)); [lia|done].
  - intros i j p Hi Hir. rewrite <- !Z.add_assoc. intros H1 H2.
    assert (off + i = off + j) by (apply (Hj _ _ p); [lia|lia|done|done]). lia.
Qed.

(** ** The four calls *)

Lemma base_range w base size m s T off :
  in_space w base size m s T -> 0 <= off <= size -> 0 <= base + off <= 2 ^ 64.
Proof using. intros [_ _ _ Hb Hz _ _]. lia. Qed.

Lemma read_law w base size m s T off n :
  in_space w base size m s T -> 0 <= off -> 0 <= n -> off + n <= size -> base + off < 2 ^ 64 ->
  exists w', co_kload_read (base + off) n w = (Ret (load_bytes m off n), w') /\
    in_space w' base size m s T /\ kload_only w base size w'.
Proof using.
  intros Hin Ho Hn Hs Hlt. pose proof Hin as [Hi HT Hsp Hb Hz Hw Hby].
  assert (guest_read (Z.to_nat n) w (pml4_pfn s) (base + off) = inl (load_bytes m off n)) as Hrd.
  { replace (load_bytes m off n) with (load_bytes m off (Z.of_nat (Z.to_nat n)))
      by (f_equal; lia).
    assert (off + Z.of_nat (Z.to_nat n) <= size) as Hs' by lia. clear Hs Hn Hlt. revert off Ho Hs'.
    induction (Z.to_nat n) as [|k IH]; intros off Ho Hs'; [done|]. cbn [guest_read].
    destruct (Hby off ltac:(lia)) as (p & Hp & Hl). rewrite Hp, Hl.
    replace (base + off + 1) with (base + (off + 1)) by lia. rewrite IH by lia.
    replace (Z.of_nat (S k)) with (1 + Z.of_nat k) by lia. by rewrite load_bytes_app by lia. }
  destruct (wp_cases _ _ _ _ (wp_kload_read w s T (base + off) n Hi HT Hsp ltac:(lia)
    ltac:(lia) ltac:(lia))) as [(bs & w' & Hrun & Hm & E)|(rc & w' & _ & _ & E)];
    rewrite Hrd in E; [|done]. simplify_eq. exists w'. split; [done|]. by eapply in_space_hit.
Qed.

Lemma write_law w base size m s T off bs :
  in_space w base size m s T -> 0 <= off -> off + Z.of_nat (length bs) <= size ->
  base + off < 2 ^ 64 -> Forall is_byte bs ->
  exists w', co_kload_write (base + off) bs (Z.of_nat (length bs)) w = (Ret tt, w') /\
    in_space w' base size (store_bytes m off bs) s T /\ kload_only w base size w'.
Proof using.
  intros Hin Ho Hs Hlt Hbs. pose proof Hin as [Hi HT Hsp Hb Hz Hw Hby].
  pose proof (wp_kload_write w s T (base + off) bs Hi HT Hsp) as Hwp. cbn zeta in Hwp.
  specialize (Hwp (sub_writable _ _ _ _ _ _ Ho Hs Hw) Hbs ltac:(lia) ltac:(lia) ltac:(lia)).
  destruct (wp_cases _ _ _ _ Hwp) as [([] & w' & Hrun & Hwr)|(rc & w' & _ & d & Hd & Hp & _)].
  - exists w'. split; [done|]. by eapply in_space_wrote.
  - destruct (Hby (off + d) ltac:(lia)) as (p & Hp' & _). rewrite Z.add_assoc in Hp'. congruence.
Qed.

(** An aligned word lies on one page. *)
Lemma word_ptr w base size m s T off p :
  in_space w base size m s T -> 0 <= off -> off mod 4 = 0 -> off + 4 <= size ->
  guest_ptr w (pml4_pfn s) (base + off) = inl p ->
  Z.land (base + off) 3 = 0 /\ load_u32 (w_mem w) p = load_u32 m off /\
  forall i, 0 <= i < 4 -> guest_ptr w (pml4_pfn s) (base + off + i) = inl (p + i).
Proof using.
  intros [Hi HT Hsp [Hb Hal] Hz Hw Hby] Ho Hoa Hs Hp.
  assert ((base + off) mod 4 = 0) as Ha by (Z.div_mod_to_equations; lia).
  assert (forall i, 0 <= i < 4 -> guest_ptr w (pml4_pfn s) (base + off + i) = inl (p + i)) as Hpi.
  { intros i Hir. rewrite (guest_ptr_page w (pml4_pfn s) (base + off) _ p); [f_equal; lia| |done].
    change CO_ARCH_PAGE_SIZE with 4096. Z.div_mod_to_equations. lia. }
  split; [change 3 with (2 ^ 2 - 1); by rewrite land_mask by done|]. split; [|done].
  assert (load_bytes (w_mem w) p 4 = load_bytes m off 4) as E; [|unfold load_u32; by rewrite E].
  unfold load_bytes. apply list_eq. intros i.
  rewrite !list_lookup_fmap. destruct (decide (i < 4)%nat) as [Hlt|Hge].
  - rewrite !lookup_seqZ_lt by lia. cbn.
    destruct (Hby (off + Z.of_nat i) ltac:(lia)) as (q & Hq & Hl).
    rewrite Z.add_assoc, Hpi in Hq by lia. simplify_eq. f_equal. exact Hl.
  - by rewrite !lookup_seqZ_ge by lia.
Qed.

Lemma read_u32_law w base size m s T off :
  in_space w base size m s T -> 0 <= off -> off mod 4 = 0 -> off + 4 <= size ->
  exists w', co_kload_read_u32 (base + off) w = (Ret (load_u32 m off), w') /\
    in_space w' base size m s T /\ kload_only w base size w'.
Proof using.
  intros Hin Ho Ha Hs. pose proof Hin as [Hi HT Hsp [Hb _] Hz Hw Hby].
  destruct (Hby off ltac:(lia)) as (p & Hp & _).
  destruct (word_ptr _ _ _ _ _ _ _ _ Hin Ho Ha Hs Hp) as (Hal & Hld & _).
  unfold co_kload_read_u32. rewrite Hal. rewrite (run_bind _ _ w tt w) by done.
  destruct (wp_cases _ _ _ _ (wp_host_ptr w s T (base + off) (fun _ _ => False) Hi HT Hsp
    ltac:(lia))) as [(r & w' & Hrun & Hm & Hr)|(? & ? & _ & [])].
  rewrite (run_bind _ _ _ _ _ Hrun). rewrite Hp in Hr. destruct r as [p'|]; [|by destruct Hr].
  simplify_eq. exists w'. split.
  - unfold gets. f_equal. rewrite <- Hld. by destruct Hm as (h & _ & ->).
  - by eapply in_space_hit.
Qed.

Lemma write_u32_law w base size m s T off v :
  in_space w base size m s T -> 0 <= off -> off mod 4 = 0 -> off + 4 <= size ->
  exists w', co_kload_write_u32 (base + off) v w = (Ret tt, w') /\
    in_space w' base size (store_u32 m off v) s T /\ kload_only w base size w'.
Proof using.
  intros Hin Ho Ha Hs. pose proof Hin as [Hi HT Hsp [Hb _] Hz Hw Hby].
  destruct (Hby off ltac:(lia)) as (p & Hp & _).
  destruct (word_ptr _ _ _ _ _ _ _ _ Hin Ho Ha Hs Hp) as (Hal & Hld & Hpi).
  unfold co_kload_write_u32. rewrite Hal. rewrite (run_bind _ _ w tt w) by done.
  destruct (wp_cases _ _ _ _ (wp_host_ptr w s T (base + off) (fun _ _ => False) Hi HT Hsp
    ltac:(lia))) as [(r & w' & Hrun & Hm & Hr)|(? & ? & _ & [])].
  rewrite (run_bind _ _ _ _ _ Hrun). rewrite Hp in Hr. destruct r as [p'|]; [|by destruct Hr].
  simplify_eq. eexists. split; [reflexivity|].
  pose proof (wrote_step w (pml4_pfn s) (base + off) 4 (le_bytes 4 v) 0 w' p' 4 Hi
    (sub_writable _ _ _ _ _ _ Ho Hs Hw) (le_bytes_bytes _ _) eq_refl ltac:(lia) ltac:(lia)) as Hst.
  rewrite Z.add_0_r in Hst. specialize (Hst Hpi (wrote_hit _ _ _ _ _ _ _ (wrote_0 _ _ _ _ Hi) Hm)).
  exact (in_space_wrote w base size m s T off (le_bytes 4 v) _ Hin Ho Hs (le_bytes_bytes _ _) Hst).
Qed.

Lemma kload_only_trans w base size m w1 w2 :
  kload_window w base size m -> kload_only w base size w1 -> kload_only w1 base size w2 ->
  kload_only w base size w2.
Proof using.
  intros (s & T & [Hi HT Hsp Hb Hz Hw Hby]) [Hm1 Hr1] [Hm2 Hr2]. split; [by eapply data_moved_trans|].
  assert (kload_space (w_kl w1) = Some s) as Hs1
    by (destruct (data_moved_split _ _ Hm1) as (w3 & (h & _ & ->) & ->); done).
  intros s' Hs' x Hx. assert (s' = s) as -> by congruence.
  rewrite (Hr2 s Hs1); [by apply (Hr1 s)|].
  intros i Hir. rewrite (data_moved_ptr w w1 _ T) by done. by apply Hx.
Qed.

#[export] Program Instance kload_guest_window : GuestWindow (world OS) := {|
  gm_window := kload_window;
  gm_only := kload_only;
|}.
Next Obligation. intros w base size m (s & T & []). lia. Qed.
Next Obligation.
  intros w base size m (s & T & []). split; [by apply data_moved_refl|done].
Qed.
Next Obligation. intros w base size m w1 w2. apply kload_only_trans. Qed.
Next Obligation.
  intros w base size m off n (s & T & Hin) Ho Hn Hs.
  destruct (read_law w base size m s T off n) as (w' & Hrun & Hin' & Honly);
    [done|done|lia|done|apply is_size in Hin; lia|].
  exists w'. split; [exact Hrun|]. split; [by exists s, T|exact Honly].
Qed.
Next Obligation.
  intros w base size m off bs (s & T & Hin) Ho Hn Hs Hbs.
  destruct (write_law w base size m s T off bs) as (w' & Hrun & Hin' & Honly);
    [done|done|done|apply is_size in Hin; lia|done|].
  exists w'. split; [exact Hrun|]. split; [by exists s, T|exact Honly].
Qed.
Next Obligation.
  intros w base size m off (s & T & Hin) Ho Ha Hs.
  destruct (read_u32_law w base size m s T off) as (w' & Hrun & Hin' & Honly); [done..|].
  exists w'. split; [exact Hrun|]. split; [by exists s, T|exact Honly].
Qed.
Next Obligation.
  intros w base size m off v (s & T & Hin) Ho Ha Hs.
  destruct (write_u32_law w base size m s T off v) as (w' & Hrun & Hin' & Honly); [done..|].
  exists w'. split; [exact Hrun|]. split; [by exists s, T|exact Honly].
Qed.

(** The calls leave every static but the loader's cache alone. *)
Lemma kload_only_statics w base size w' :
  kload_only w base size w' ->
  net_io_va w' = net_io_va w /\ console_io_va w' = console_io_va w /\
  vgpu_io_va w' = vgpu_io_va w /\ w_locks w' = w_locks w.
Proof using.
  intros [Hm _]. destruct (data_moved_split _ _ Hm) as (w1 & (h & _ & ->) & ->). done.
Qed.

(** ** Where windows come from: distinct data pages, one after the other *)
Lemma window_of_pages w s T base n size (q a : Z -> Z) :
  kload_inv w -> tree w (pml4_pfn s) T -> kload_space (w_kl w) = Some s ->
  0 <= base -> base mod CO_ARCH_PAGE_SIZE = 0 ->
  n * CO_ARCH_PAGE_SIZE < 2 ^ 32 -> base + n * CO_ARCH_PAGE_SIZE <= 2 ^ 64 ->
  0 <= size <= n * CO_ARCH_PAGE_SIZE ->
  (forall j, 0 <= j < n ->
     guest_ptr w (pml4_pfn s) (base + j * CO_ARCH_PAGE_SIZE) = inl (a j) /\
     page_va (w_kl w) (q j) (a j) /\ ~ table_page (w_kl w) (kload_table_top (w_kl w)) (q j)) ->
  (forall i j, 0 <= i < n -> 0 <= j < n -> q i = q j -> i = j) ->
  kload_window w base size (fun i => w_mem w (a (i / CO_ARCH_PAGE_SIZE) + i mod CO_ARCH_PAGE_SIZE)).
Proof using.
  intros Hi HT Hs Hb Hal Hn Hend Hsz Hpg Hinj. change CO_ARCH_PAGE_SIZE with 4096 in *.
  assert (forall i, 0 <= i < size -> 0 <= i / 4096 < n) as Hj
    by (intros i Hir; split; [apply Z.div_pos; lia|apply Z.div_lt_upper_bound; lia]).
  assert (forall i, 0 <= i < size ->
    guest_ptr w (pml4_pfn s) (base + i) = inl (a (i / 4096) + i mod 4096)) as Hptr.
  { intros i Hir. destruct (Hpg _ (Hj i Hir)) as (Hp & _).
    rewrite (guest_ptr_page w (pml4_pfn s) (base + i / 4096 * 4096) _ _ ) with (2 := Hp).
    - f_equal. pose proof (Z.div_mod i 4096). lia.
    - change CO_ARCH_PAGE_SIZE with 4096. Z.div_mod_to_equations. lia. }
  exists s, T. split; [done..|split; [done|Z.div_mod_to_equations; lia]|lia| |].
  - split.
    + intros i p Hir Hp. rewrite Hptr in Hp by done. simplify_eq.
      destruct (Hpg _ (Hj i Hir)) as (_ & Hva & Ht). eexists _, _. split; [exact Hva|].
      split; [exact Ht|]. pose proof (Z.mod_pos_bound i 4096). change CO_ARCH_PAGE_SIZE with 4096. lia.
    + intros i j p Hir Hjr Hp1 Hp2. rewrite Hptr in Hp1, Hp2 by done.
      assert (a (i / 4096) + i mod 4096 = a (j / 4096) + j mod 4096) as Ea by congruence.
      pose proof (Z.mod_pos_bound i 4096). pose proof (Z.mod_pos_bound j 4096).
      destruct (decide (i / 4096 = j / 4096)) as [E|Hne].
      { rewrite E in Ea. pose proof (Z.div_mod i 4096). pose proof (Z.div_mod j 4096). lia. }
      destruct (Hpg _ (Hj i Hir)) as (_ & Hva1 & _). destruct (Hpg _ (Hj j Hjr)) as (_ & Hva2 & _).
      assert (q (i / 4096) <> q (j / 4096)) as Hq by (intros E; apply Hne, Hinj; auto).
      destruct (pages_apart _ _ _ _ _ _ (proj1 Hi) Hva1 Hva2 Hq) as [?|?];
        change CO_ARCH_PAGE_SIZE with 4096 in *; lia.
  - intros i Hir. eexists. split; [by apply Hptr|done].
Qed.
End window.

(** ** By a CR3

    The loader as the crossing loop sees it: [co_kload_read_cr3] and
    [co_kload_write_cr3] implement [GuestView] for every root the loader built
    and every set of data bytes of guest RAM reached through it. *)

Section loader.
Context {OS : Type} `{HostLaws OS}.
Implicit Types (w : world OS) (m : mem) (P : Z -> Prop).

#[export] Instance kload_cr3_mem : Cr3Mem (world OS) := {|
  cr3_read := co_kload_read_cr3;
  cr3_write := co_kload_write_cr3;
|}.

Record kview_at w cr3 P m (T : gmap Z Z) : Prop := {
  kv_inv : kload_inv w;
  kv_tree : tree w (cr3_root cr3) T;
  kv_root : cr3 <> 0;
  kv_data va p : P va -> guest_ptr w (cr3_root cr3) va = inl p -> data_byte w p;
  kv_inj va va' p : P va -> P va' -> guest_ptr w (cr3_root cr3) va = inl p ->
    guest_ptr w (cr3_root cr3) va' = inl p -> va = va';
  kv_bytes va : P va ->
    exists p, guest_ptr w (cr3_root cr3) va = inl p /\ load (w_mem w) p = load m va;
}.

Definition kload_view w cr3 P m : Prop := exists T, kview_at w cr3 P m T.

Lemma kview_writable w cr3 P m T va n :
  kview_at w cr3 P m T -> covers P va n -> writable w (cr3_root cr3) va n.
Proof using.
  intros [_ _ _ Hd Hj _] (_ & _ & _ & HP). split.
  - intros i p Hi Hp. apply (Hd (va + i)); [apply HP; lia|done].
  - intros i j p Hi Hir Hp Hp'.
    assert (va + i = va + j) by (apply (Hj _ _ p); [apply HP; lia|apply HP; lia|done|done]). lia.
Qed.

(** A write of the loader's is a write to the view. *)
Lemma kview_wrote w cr3 P m T va bs w' :
  kview_at w cr3 P m T -> covers P va (Z.of_nat (length bs)) -> Forall is_byte bs ->
  wrote w (cr3_root cr3) va bs (Z.of_nat (length bs)) w' ->
  kview_at w' cr3 P (store_bytes m va bs) T.
Proof using.
  intros Hv Hc Hbs [Hmv Hput Hrest]. pose proof Hc as (_ & _ & _ & HP).
  destruct Hv as [Hi HT Hz Hd Hj Hby].
  assert (forall x, guest_ptr w' (cr3_root cr3) x = guest_ptr w (cr3_root cr3) x) as Hp
    by (intros x; exact (data_moved_ptr _ _ _ _ x Hi HT Hmv)).
  destruct (data_moved_split _ _ Hmv) as (w1 & (h & _ & Eh) & Ew).
  assert (w_kl w' = set_last_hit h (w_kl w)) as Ek by (rewrite Ew, Eh; done).
  split; [by eapply data_moved_inv|by eapply data_moved_tree|done|..].
  - intros x p Hx. rewrite Hp. intros Hpx. destruct (Hd x p Hx Hpx) as (q & a & Hq & Ht & Ha).
    exists q, a. by rewrite Ek.
  - intros x y p. rewrite !Hp. apply Hj.
  - intros x Hx. rewrite Hp. destruct (Hby x Hx) as (p & Hpx & Hld). exists p. split; [done|].
    rewrite load_store by done.
    destruct (decide (va <= x < va + Z.of_nat (length bs))) as [Hin|Hno].
    + destruct (Hput (x - va) ltac:(lia)) as (p' & b & Hp' & -> & <-).
      replace (va + (x - va)) with x in Hp' by lia. assert (p = p') as <- by congruence. done.
    + rewrite <- Hld. unfold load. f_equal. apply Hrest. intros i Hi' E.
      assert (x = va + i); [|lia]. apply (Hj _ _ p); [done|apply HP; lia|done|done].
Qed.

Lemma kview_hit w cr3 P m T w' :
  kview_at w cr3 P m T -> hit_moved w w' -> kview_at w' cr3 P m T.
Proof using.
  intros [Hi HT Hz Hd Hj Hby] Hm.
  assert (forall x, guest_ptr w' (cr3_root cr3) x = guest_ptr w (cr3_root cr3) x) as Hp
    by (intros x; by eapply guest_ptr_hit).
  pose proof Hm as (h & _ & Ew).
  split; [by eapply hit_moved_inv|by eapply hit_moved_tree|done|..].
  - intros x p Hx. rewrite Hp. intros Hpx. destruct (Hd x p Hx Hpx) as (q & a & Hq & Ht & Ha).
    exists q, a. by rewrite Ew.
  - intros x y p. rewrite !Hp. apply Hj.
  - intros x Hx. rewrite Hp. destruct (Hby x Hx) as (p & Hpx & Hld). exists p. by rewrite Ew.
Qed.

(** The reference reader on a view. *)
Lemma kview_read w cr3 P m T va n :
  kview_at w cr3 P m T -> covers P va n ->
  guest_read (Z.to_nat n) w (cr3_root cr3) va = inl (load_bytes m va n).
Proof using.
  intros [_ _ _ _ _ Hby] (_ & Hn & _ & HP).
  replace (load_bytes m va n) with (load_bytes m va (Z.of_nat (Z.to_nat n))) by (f_equal; lia).
  assert (forall x, va <= x < va + Z.of_nat (Z.to_nat n) -> P x) as HP' by (intros; apply HP; lia).
  clear Hn HP. revert va HP'. induction (Z.to_nat n) as [|k IH]; intros va HP; [done|].
  cbn [guest_read]. destruct (Hby va ltac:(apply HP; lia)) as (p & -> & ->).
  rewrite IH by (intros; apply HP; lia).
  replace (Z.of_nat (S k)) with (1 + Z.of_nat k) by lia. by rewrite load_bytes_app by lia.
Qed.

#[export] Program Instance kload_guest_view : GuestView (world OS) := {| gv_view := kload_view |}.
Next Obligation.
  intros w cr3 P m va n (T & Hv) Hc. pose proof Hv as [Hi HT Hz _ _ _].
  pose proof Hc as (Hva & Hn & Hend & _).
  cbn [cr3_read kload_cr3_mem]. unfold co_kload_read_cr3.
  rewrite (run_bind _ _ _ tt w) by (unfold fail_if; by rewrite (proj2 (Z.eqb_neq _ _) Hz)).
  destruct (wp_cases _ _ _ _ (wp_read_loop w _ T (lookup_cr3 cr3) va n Hi HT
    (looks_from_cr3 _ _ _ Hi HT) ltac:(lia) ltac:(lia) Hend)) as [(bs & w' & Hrun & Hm & E)|
    (rc & w' & _ & _ & E)]; rewrite (kview_read _ _ _ _ _ _ _ Hv Hc) in E; simplify_eq.
  exists w'. split; [done|]. exists T. by eapply kview_hit.
Qed.
Next Obligation.
  intros w cr3 P m va bs (T & Hv) Hc Hbs. pose proof Hv as [Hi HT Hz _ _ Hby].
  pose proof Hc as (Hva & Hn & Hend & HP).
  cbn [cr3_write kload_cr3_mem]. unfold co_kload_write_cr3.
  rewrite (run_bind _ _ _ tt w) by (unfold fail_if; by rewrite (proj2 (Z.eqb_neq _ _) Hz)).
  destruct (wp_cases _ _ _ _ (wp_write_loop w _ T (lookup_cr3 cr3) va _ bs Hi HT
    ltac:(intros w' Hd; apply (looks_from_cr3 _ _ T); [by eapply data_moved_inv|by eapply data_moved_tree])
    (kview_writable _ _ _ _ _ _ _ Hv Hc) Hbs eq_refl ltac:(lia) ltac:(lia) Hend))
    as [(r & w' & Hrun & Hw)|(rc & w' & _ & d & Hd & Hp & _)].
  - rewrite (run_bind _ _ _ _ _ Hrun). exists w'. split; [done|]. exists T. by eapply kview_wrote.
  - destruct (Hby (va + d) ltac:(apply HP; lia)) as (p & Hp' & _). congruence.
Qed.

End loader.
