(* ===== verification/Loaded.v ===== *)
(** A loaded address space: the loader's state with its page tables.

    The statics split into the core that says where guest RAM and its tables
    are, and bookkeeping beside it. [loaded] is the invariant of a run whose
    space exists; [load_step] what the loading operations may change. *)
From S2P Require Import Prelude.
From S2P Require Import Rc.
From S2P Require Import Mem.
From S2P Require Import Mmu.
From S2P Require Import Space.
From S2P Require Import Host.
From S2P Require Import Frames.
From S2P Require Import FramesOk.
From S2P Require Import Grow.
From S2P Require Import Kload.
From S2P Require Import KloadSpace.
From S2P Require Import GuestAccess.

(** The statics the invariants read. *)
Definition core (k : kload_statics) :=
  (kload_block k, kload_block_count k, kload_last_hit k, kload_p2m k, kload_m2p k,
   kload_p2m_alloc_pages k, kload_m2p_alloc_pages k, kload_p2m_capacity k,
   kload_backed_pages k, kload_m2p_slots k, kload_m2p_mask_value k,
   kload_table_start k, kload_table_end k, kload_table_top k).

(** An assignment to bookkeeping only. *)
Definition neutral (f : kload_statics -> kload_statics) : Prop := forall k, core (f k) = core k.

Section loaded.
Context {OS : Type} `{HostLaws OS}.
Implicit Types (o : OS) (k : kload_statics) (w : world OS).

Lemma frames_ok_core o k k' : core k' = core k -> frames_ok o k -> frames_ok o k'.
Proof using.
  destruct k, k'. unfold core. cbn. intros He. simplify_eq.
  intros [? Ht ? ? ? Hti ? ?]. split; cbn in *; try done; [by destruct Ht; split|].
  by destruct Hti; split.
Qed.

Lemma kload_inv_core w w' :
  w_os w' = w_os w -> w_hooks w' = w_hooks w -> core (w_kl w') = core (w_kl w) ->
  kload_inv w -> kload_inv w'.
Proof using.
  intros Ho Hh Hc (Hok & Htr & Hhk). split_and!; [|destruct Htr|congruence].
  - rewrite Ho. by eapply frames_ok_core.
  - destruct (w_kl w), (w_kl w'). unfold core in Hc. cbn in *. simplify_eq. by split.
Qed.

Lemma page_va_core k k' p a : core k' = core k -> page_va k p a -> page_va k' p a.
Proof using. destruct k, k'. unfold core. cbn. intros He. by simplify_eq. Qed.

Lemma p2m_at_core k k' p : core k' = core k -> p2m_at k' p = p2m_at k p.
Proof using. destruct k, k'. unfold core. cbn. intros He. by simplify_eq. Qed.

(** Frames are shown alike by states with the same pages and maps. *)
Lemma frame_at_agree w w' mfn :
  frames_ok (w_os w) (w_kl w) -> frames_ok (w_os w') (w_kl w') ->
  kload_backed_pages (w_kl w') = kload_backed_pages (w_kl w) ->
  (forall q, p2m_at (w_kl w') q = p2m_at (w_kl w) q) ->
  (forall q a, page_va (w_kl w) q a -> page_va (w_kl w') q a) ->
  frame_at w' mfn = frame_at w mfn.
Proof using.
  intros Hok Hok' Hb Hp Hva.
  destruct (frame_at w mfn) as [a|] eqn:Ha.
  - unfold frame_at in Ha.
    pose proof (wp_frame_va w mfn (fun _ _ => False) Hok) as H1. unfold wp in H1.
    destruct (co_kload_frame_va mfn w) as [[[b|]|rc|] w1]; [|done..]. simplify_eq.
    destruct H1 as (_ & q & Hq & <- & Hqa). rewrite <- Hp.
    by apply frame_at_page, Hva.
  - destruct (frame_at w' mfn) as [b|] eqn:Hb'; [|done]. exfalso. unfold frame_at in Hb'.
    pose proof (wp_frame_va w' mfn (fun _ _ => False) Hok') as H1. unfold wp in H1.
    destruct (co_kload_frame_va mfn w') as [[[c|]|rc|] w1]; [|done..].
    destruct H1 as (_ & q & Hq & <- & _). rewrite Hb in Hq.
    destruct (page_va_exists _ _ q Hok Hq) as [d Hd]. rewrite Hp in Ha.
    by rewrite (frame_at_page _ _ _ Hok Hd) in Ha.
Qed.

Lemma entry_at_agree w w' mfn i :
  frame_at w' mfn = frame_at w mfn -> w_mem w' = w_mem w ->
  entry_at w' mfn i = entry_at w mfn i.
Proof using. intros Hf Hm. unfold entry_at. cbn. by rewrite Hf, Hm. Qed.

(** *** The invariant of a run *)

Record loaded w s T : Prop := {
  ld_ok : space_ok w s T;
  ld_space : kload_space (w_kl w) = Some s;
}.

Lemma loaded_inv w s T : loaded w s T -> kload_inv w /\ tree w (pml4_pfn s) T.
Proof using. intros [(Hi & HT & _) _]. done. Qed.

(** Same tables, same core, same memory: the same translations. *)
Record bookkept w w' : Prop := {
  bk_mem : w_mem w' = w_mem w;
  bk_os : w_os w' = w_os w;
  bk_hooks : w_hooks w' = w_hooks w;
  bk_core : core (w_kl w') = core (w_kl w);
}.

Lemma bookkept_frame w w' mfn :
  kload_inv w -> bookkept w w' -> frame_at w' mfn = frame_at w mfn.
Proof using.
  intros Hi [Hm Ho Hh Hc]. pose proof (kload_inv_core _ _ Ho Hh Hc Hi) as Hi'.
  apply frame_at_agree; [apply Hi|apply Hi'| | |].
  - destruct (w_kl w), (w_kl w'). unfold core in Hc. cbn in *. by simplify_eq.
  - intros q. by apply p2m_at_core.
  - intros q a. by apply page_va_core.
Qed.

Lemma bookkept_entry w w' mfn i :
  kload_inv w -> bookkept w w' -> entry_at w' mfn i = entry_at w mfn i.
Proof using.
  intros Hi Hb. apply entry_at_agree; [by apply bookkept_frame|apply Hb].
Qed.

Lemma bookkept_translate (n : nat) w w' p va :
  kload_inv w -> bookkept w w' -> translate n w' p va = translate n w p va.
Proof using.
  intros Hi Hb. revert p. induction n as [|n IH]; intros p; cbn [translate];
    rewrite (bookkept_entry w w') by done; [done|].
  destruct (entry_at w p _) as [e|]; cbn; [|done].
  destruct (entry_present e), (entry_pse e); done || apply IH.
Qed.

Lemma bookkept_tree w w' root T : kload_inv w -> bookkept w w' -> tree w root T -> tree w' root T.
Proof using.
  intros Hi Hb HT. eapply tree_agree; [done| |].
  - intros p l i _ _ _. by apply bookkept_entry.
  - intros p (q & Hq1 & Hq2 & Hq3). exists q. pose proof (bk_core _ _ Hb) as Hcr.
    rewrite (p2m_at_core _ _ _ Hcr). destruct (w_kl w), (w_kl w'). unfold core in Hcr.
    cbn in *. simplify_eq. done.
Qed.

Lemma bookkept_ok w w' s T : bookkept w w' -> space_ok w s T -> space_ok w' s T.
Proof using.
  intros Hb (Hi & HT & Hc). cbn in Hi.
  pose proof (kload_inv_core _ _ (bk_os _ _ Hb) (bk_hooks _ _ Hb) (bk_core _ _ Hb) Hi) as Hi'.
  split_and!; [done|exact (bookkept_tree w w' _ T Hi Hb HT)|done].
Qed.

Lemma bookkept_upd w f : neutral f -> bookkept w (upd_kl f w).
Proof using. intros Hf. split; [done|done|done|apply Hf]. Qed.

(** *** What a mapping changes *)

(** The core without the cache and the top of the table range. *)
Definition layout k :=
  (kload_block k, kload_block_count k, kload_p2m k, kload_m2p k,
   kload_p2m_alloc_pages k, kload_m2p_alloc_pages k, kload_p2m_capacity k,
   kload_backed_pages k, kload_m2p_slots k, kload_m2p_mask_value k,
   kload_table_start k, kload_table_end k).

Record map_step w w' : Prop := {
  ms_os : w_os w' = w_os w;
  ms_layout : layout (w_kl w') = layout (w_kl w);
  ms_top : kload_table_top (w_kl w') <= kload_table_top (w_kl w);
  ms_mem p a x : page_va (w_kl w) p a ->
    ~ table_page (w_kl w) (kload_table_top (w_kl w')) p ->
    a <= x < a + CO_ARCH_PAGE_SIZE -> w_mem w' x = w_mem w x;
}.

Lemma layout_fields k k' :
  layout k' = layout k ->
  (forall p, p2m_at k' p = p2m_at k p) /\ (forall p a, page_va k p a <-> page_va k' p a) /\
  kload_backed_pages k' = kload_backed_pages k /\
  kload_table_end k' = kload_table_end k /\ kload_table_start k' = kload_table_start k /\
  kload_block_count k' = kload_block_count k /\
  kload_p2m_capacity k' = kload_p2m_capacity k.
Proof using. destruct k, k'. unfold layout. cbn. intros He. by simplify_eq. Qed.

Lemma core_layout k k' :
  core k' = core k -> layout k' = layout k /\ kload_table_top k' = kload_table_top k.
Proof using.
  destruct k, k'. unfold core, layout. cbn. intros He. injection He. intros. subst. done.
Qed.

Lemma map_step_refl w : map_step w w.
Proof using. by split. Qed.

Lemma map_step_trans w w1 w2 : map_step w w1 -> map_step w1 w2 -> map_step w w2.
Proof using.
  intros [Ho1 Hl1 Ht1 Hm1] [Ho2 Hl2 Ht2 Hm2].
  destruct (layout_fields _ _ Hl1) as (_ & Hva & _ & He & _).
  split; [congruence|congruence|lia|]. intros p a x Hp Hn Hx.
  rewrite (Hm2 p a x); [| |by unfold table_page in *; rewrite He|done]; [|by apply Hva].
  apply (Hm1 p a x Hp); [|done]. unfold table_page in *. lia.
Qed.

Lemma table_map_step w w' : table_step w w' -> map_step w w'.
Proof using.
  intros (h & t & _ & Ht & He & Hm).
  assert (w_kl w' = set_last_hit h (set_table_top t (w_kl w))) as Hk by (by rewrite He).
  split; [by rewrite He|by rewrite Hk|by rewrite Hk|]. by rewrite Hk.
Qed.

Lemma bookkept_map_step w w' : bookkept w w' -> map_step w w'.
Proof using.
  intros [Hm Ho Hh Hc]. destruct (core_layout _ _ Hc) as [Hl Ht].
  split; [exact Ho|exact Hl|rewrite Ht; lia|intros; by rewrite Hm].
Qed.

(** Same root, and what is seen from it. *)
Definition remapped w s w' (seen : (Z -> option Z) -> Prop) : Prop :=
  map_step w w' /\
  (exists s h t, w_kl w' = set_space s (set_last_hit h (set_table_top t (w_kl w)))) /\
  exists s' T', loaded w' s' T' /\ pml4_pfn s' = pml4_pfn s /\
    seen (translate 3 w' (pml4_pfn s)).

Lemma wp_on_space_map w s T va pa flags :
  loaded w s T -> 0 <= va < 2 ^ 64 -> 0 <= pa < 2 ^ 63 -> leaf_flags flags ->
  wp (on_space (co_arch_guest_map va pa flags))
    (fun _ w' => remapped w s w' (fun tr =>
       tr va = Some (pa - pa mod CO_ARCH_PAGE_SIZE) /\
       forall va', 0 <= va' < 2 ^ 64 -> CO_ARCH_VA_CANONICAL va' = true ->
         va' / CO_ARCH_PAGE_SIZE <> va / CO_ARCH_PAGE_SIZE ->
         tr va' = translate 3 w (pml4_pfn s) va'))
    (fun _ w' => remapped w s w' (fun tr =>
       forall va', tr va' = translate 3 w (pml4_pfn s) va')) w.
Proof using.
  intros [Hok Hs] Hva Hpa Hfl. unfold on_space, wp. rewrite Hs.
  pose proof (wp_guest_map w s T va pa flags Hok Hva Hpa Hfl) as Hwp. unfold wp in Hwp.
  assert (forall w1 s1, table_step w w1 ->
            (exists T1, space_ok w1 s1 T1 /\ pml4_pfn s1 = pml4_pfn s) ->
            map_step w (upd_kl (set_space (Some s1)) w1) /\
            (exists s h t, w_kl (upd_kl (set_space (Some s1)) w1)
               = set_space s (set_last_hit h (set_table_top t (w_kl w)))) /\
            exists T1, loaded (upd_kl (set_space (Some s1)) w1) s1 T1 /\
              pml4_pfn s1 = pml4_pfn s /\ forall va', translate 3
                (upd_kl (set_space (Some s1)) w1) (pml4_pfn s) va'
                = translate 3 w1 (pml4_pfn s) va') as Hpub.
  { intros w1 s1 Hst (T1 & Hok1 & Hr).
    pose proof (bookkept_upd w1 (set_space (Some s1)) (fun k => eq_refl)) as Hb.
    split; [exact (map_step_trans _ _ _ (table_map_step _ _ Hst) (bookkept_map_step _ _ Hb))|].
    split.
    { destruct Hst as (h & t & _ & _ & He & _). exists (Some s1), h, t.
      cbn. by rewrite He. }
    exists T1. split_and!; [split; [exact (bookkept_ok _ _ _ _ Hb Hok1)|reflexivity]|exact Hr|].
    intros va'. exact (bookkept_translate 3 _ _ _ _ (proj1 Hok1) Hb). }
  destruct (co_arch_guest_map va pa flags (w, s)) as [[[]|rc|] [w1 s1]]; cbn in Hwp; [..|done].
  - destruct Hwp as (Hst & T1 & Hok1 & Hr & Htr & Hoth).
    destruct (Hpub w1 s1 Hst (ex_intro _ T1 (conj Hok1 Hr))) as (Hm & Hk & T2 & Hld & _ & Hsame).
    split; [exact Hm|split; [exact Hk|]]. exists s1, T2.
    split; [exact Hld|split; [exact Hr|split]]; [rewrite Hsame; exact Htr|].
    intros va' Hr1 Hr2 Hr3. rewrite Hsame. exact (Hoth va' Hr1 Hr2 Hr3).
  - destruct Hwp as (Hst & T1 & Hok1 & Hr & Htr).
    destruct (Hpub w1 s1 Hst (ex_intro _ T1 (conj Hok1 Hr))) as (Hm & Hk & T2 & Hld & _ & Hsame).
    split; [exact Hm|split; [exact Hk|]]. exists s1, T2.
    split; [exact Hld|split; [exact Hr|]]. intros va'. rewrite Hsame. exact (Htr va').
Qed.
End loaded.
