(* ===== verification/Devices.v ===== *)
(** The devices on the loader: their statics in the driver's state, their
    locks, and the GPU's kick counters ([kernel/vgpu.c]). With the instances
    of this file the theorems of [Net], [ConetRing] and [Console] are about
    the driver's memory. *)
From S2P Require Import Prelude.
From S2P Require Import Rc.
From S2P Require Import Mem.
From S2P Require Import GuestMem.
From S2P Require Import Net.
From S2P Require Import Console.
From S2P Require Import Mmu.
From S2P Require Import Space.
From S2P Require Import Host.
From S2P Require Import Frames.
From S2P Require Import FramesOk.
From S2P Require Import Kload.
From S2P Require Import KloadSpace.
From S2P Require Import GuestAccess.
From S2P Require Import KloadWindow.
From S2P Require Import Loaded.

Section devices.
Context {OS : Type} `{HostOS OS}.

Abbreviation D := (M (world OS)).

#[export] Instance net_static : Statics (world OS) net_statics :=
  fun w => NetStatics (net_io_va w) (net_lock (w_locks w)).
#[export] Instance console_static : Statics (world OS) console_statics :=
  fun w => ConsoleStatics (console_io_va w) (console_lock (w_locks w)).

(** [sizeof (struct co_os_mutex)] is the host's business: the lock exists when
    its allocation succeeded. *)
Definition co_os_mutex_create (bytes : Z) : D bool := host (host_malloc bytes).

Section locks.
Variable mutex_bytes : Z.

Definition create_lock (have : bool -> dev_locks -> dev_locks) : D unit :=
  ok ← co_os_mutex_create mutex_bytes;
  modify (fun w => set_locks (have ok (w_locks w)) w) ;;
  fail_if (negb ok) CO_RC_OUT_OF_MEMORY.

Definition drop_lock (have : bool -> dev_locks -> dev_locks) : D unit :=
  modify (fun w => set_locks (have false (w_locks w)) w).

Definition have_net b l := Locks (console_lock l) b (vgpu_lock l).
Definition have_console b l := Locks b (net_lock l) (vgpu_lock l).
Definition have_vgpu b l := Locks (console_lock l) (net_lock l) b.

Definition co_net_init : D unit := create_lock have_net.
Definition co_net_free : D unit := drop_lock have_net.
Definition co_console_init : D unit := create_lock have_console.
Definition co_console_free : D unit := drop_lock have_console.
Definition co_vgpu_init : D unit := create_lock have_vgpu.
Definition co_vgpu_free : D unit := drop_lock have_vgpu.
End locks.

Definition co_console_get_address : D Z := gets console_io_va.
Definition co_vgpu_address : D Z := gets vgpu_io_va.

(** [static unsigned int last_seen[]] is the state besides the driver's; the
    body of the loop over the queues. *)
Definition kick_step (w : world OS) (st : bool * gmap Z Z) (i : Z) : bool * gmap Z Z :=
  match vgpu_kick_frame w !! i with
  | None => st
  | Some p =>
      let now := load_u32 (w_mem w) p in
      if now =? arr_get st.2 i then st else (true, arr_set st.2 i now)
  end.

Definition co_vgpu_kick_pending (w : world OS) (last_seen : gmap Z Z) : bool * gmap Z Z :=
  fold_left (kick_step w) (seqZ 0 CO_VGPU_NUM_VQS) (false, last_seen).
End devices.

Section device_laws.
Context {OS : Type} `{HostLaws OS}.
Implicit Types (w : world OS).

#[export] Instance net_static_kept : StaticsKept (world OS) net_statics.
Proof using.
  intros w base size w' Ho. destruct (kload_only_statics w base size w' Ho) as (E1 & _ & _ & E4).
  unfold static, net_static. by rewrite E1, E4.
Qed.

#[export] Instance console_static_kept : StaticsKept (world OS) console_statics.
Proof using.
  intros w base size w' Ho. destruct (kload_only_statics _ _ _ _ Ho) as (_ & E1 & _ & E4).
  unfold static, console_static. by rewrite E1, E4.
Qed.

(** ** Kicks *)

(** The counter of a queue, where it could be resolved. *)
Definition kick_now w i : option Z := load_u32 (w_mem w) <$> vgpu_kick_frame w !! i.

Lemma kick_step_seen w b seen i j :
  arr_get (kick_step w (b, seen) i).2 j =
    if decide (i = j) then default (arr_get seen j) (kick_now w i) else arr_get seen j.
Proof using.
  unfold kick_step, kick_now. destruct (vgpu_kick_frame w !! i) as [p|] eqn:E; cbn.
  - destruct (Z.eqb_spec (load_u32 (w_mem w) p) (arr_get seen i)) as [Heq|Hne]; cbn.
    + destruct (decide (i = j)) as [<-|]; congruence.
    + by rewrite arr_get_set.
  - by destruct (decide (i = j)).
Qed.

Lemma kick_step_moved w b seen i :
  (kick_step w (b, seen) i).1 = true <->
    b = true \/ exists v, kick_now w i = Some v /\ v <> arr_get seen i.
Proof using.
  unfold kick_step, kick_now. destruct (vgpu_kick_frame w !! i) as [p|]; cbn; [|naive_solver].
  destruct (Z.eqb_spec (load_u32 (w_mem w) p) (arr_get seen i)); cbn; naive_solver.
Qed.

(** A kick is reported once. [co_vgpu_kick_pending] answers yes exactly
    when the counter of a resolved queue differs from the one it saw last, it
    remembers what it saw, and asked again at once it answers no: the caller
    that got the answer is the only one that will. *)
Theorem vgpu_kick_reported_once w seen :
  let r := co_vgpu_kick_pending w seen in
  (r.1 = true <-> exists i v, 0 <= i < CO_VGPU_NUM_VQS /\ kick_now w i = Some v /\
                    v <> arr_get seen i) /\
  (forall i, 0 <= i < CO_VGPU_NUM_VQS ->
     arr_get r.2 i = default (arr_get seen i) (kick_now w i)) /\
  (co_vgpu_kick_pending w r.2).1 = false.
Proof using.
  assert (forall seen, let r := co_vgpu_kick_pending w seen in
    (r.1 = true <-> exists i v, 0 <= i < CO_VGPU_NUM_VQS /\ kick_now w i = Some v /\
                      v <> arr_get seen i) /\
    (forall i, 0 <= i < CO_VGPU_NUM_VQS ->
       arr_get r.2 i = default (arr_get seen i) (kick_now w i))) as Hspec.
  { intros sn. unfold co_vgpu_kick_pending, CO_VGPU_NUM_VQS. change (seqZ 0 2) with [0; 1].
    cbn [fold_left]. pose proof (kick_step_seen w false sn 0) as S0.
    pose proof (kick_step_moved w false sn 0) as M0.
    destruct (kick_step w (false, sn) 0) as [b0 s0]. cbn [fst snd] in S0, M0.
    pose proof (kick_step_seen w b0 s0 1) as S1. pose proof (kick_step_moved w b0 s0 1) as M1.
    destruct (kick_step w (b0, s0) 1) as [b1 s1]. cbn [fst snd] in S1, M1 |- *.
    rewrite (S0 1), decide_False in M1 by done. split.
    - rewrite M1, M0. split.
      + intros [[?|(v & Hv & Hne)]|(v & Hv & Hne)]; [done|exists 0, v|exists 1, v]; done.
      + intros (i & v & Hi & Hv & Hne). assert (i = 0 \/ i = 1) as [->| ->] by lia; eauto 6.
    - intros i Hi. assert (i = 0 \/ i = 1) as [->| ->] by lia.
      + rewrite S1, decide_False, S0, decide_True by done. done.
      + rewrite S1, decide_True, S0, decide_False by done. done. }
  intros r. destruct (Hspec seen) as [Hm Hs]. fold r in Hm, Hs. split; [done|]. split; [done|].
  destruct (Hspec r.2) as [Hm2 _]. cbn zeta in Hm2.
  destruct (co_vgpu_kick_pending w r.2).1; [|done].
  destruct (proj1 Hm2 eq_refl) as (i & v & Hi & Hv & Hne). rewrite Hs, Hv in Hne by done. done.
Qed.

(** ** The counters are words of the guest *)

Definition with_vgpu (va : Z) (frames : gmap Z Z) w : world OS :=
  World (w_mem w) (w_os w) (w_kl w) (w_hooks w) (console_io_va w) (net_io_va w) va frames (w_locks w).

Lemma with_vgpu_ptr va frames w root T :
  kload_inv w -> tree w root T ->
  kload_inv (with_vgpu va frames w) /\ tree (with_vgpu va frames w) root T /\
  forall a, guest_ptr (with_vgpu va frames w) root a = guest_ptr w root a.
Proof using.
  intros Hi HT. assert (bookkept w (with_vgpu va frames w)) as Hb by (split; done).
  pose proof (kload_inv_core _ _ (bk_os _ _ Hb) (bk_hooks _ _ Hb) (bk_core _ _ Hb) Hi) as Hi'.
  split; [done|]. split; [exact (bookkept_tree _ _ root T Hi Hb HT)|]. intros a. unfold guest_ptr.
  rewrite (bookkept_translate 3 _ _ _ _ Hi Hb). destruct (negb _); [done|].
  destruct (translate 3 w root a) as [pa|]; [|done]. destruct (pa =? 0); [done|].
  by rewrite (bookkept_frame w (with_vgpu va frames w)).
Qed.

(** Publishing the GPU area resolves its kick counters to the bytes the
    guest sees at them. Each counter whose address is mapped is watched at the
    very host address the page tables give, the others are not watched, and
    only the loader's lookup cache changes besides. *)
Theorem vgpu_set_address_resolves w s T va :
  kload_inv w -> tree w (pml4_pfn s) T -> kload_space (w_kl w) = Some s ->
  0 < va -> va + 120 <= 2 ^ 64 ->
  exists w' h frames, co_vgpu_set_address va w = (Ret tt, w') /\
    w' = upd_kl (set_last_hit h) (with_vgpu va frames w) /\
    forall i, 0 <= i < CO_VGPU_NUM_VQS ->
      frames !! i = match guest_ptr w (pml4_pfn s) (va + vgpu_kick_offset i) with
                    | inl p => Some p | inr _ => None end.
Proof using.
  intros Hi HT Hs Hva Hend.
  assert (wp (co_vgpu_set_address va) (fun _ w' => exists h frames, 0 <= h < CO_KLOAD_MAX_BLOCKS /\
    w' = upd_kl (set_last_hit h) (with_vgpu va frames w) /\
    forall i, 0 <= i < CO_VGPU_NUM_VQS ->
      frames !! i = match guest_ptr w (pml4_pfn s) (va + vgpu_kick_offset i) with
                    | inl p => Some p | inr _ => None end) (fun _ _ => False) w) as Hwp.
  { unfold co_vgpu_set_address, set_vgpu. wp_step. wp_step.
    rewrite (proj2 (Z.eqb_neq va 0)) by lia.
    apply (wp_mfor _ (fun i w1 => exists h frames, 0 <= h < CO_KLOAD_MAX_BLOCKS /\
      w1 = upd_kl (set_last_hit h) (with_vgpu va frames w) /\
      forall j, 0 <= j < i ->
        frames !! j = match guest_ptr w (pml4_pfn s) (va + vgpu_kick_offset j) with
                      | inl p => Some p | inr _ => None end)).
    - intros i w1 Hir (h & frames & Hh & -> & Hf). change (Z.of_nat (Z.to_nat CO_VGPU_NUM_VQS)) with 2 in Hir.
      destruct (with_vgpu_ptr va frames w (pml4_pfn s) T Hi HT) as (Hi0 & HT0 & Hp0).
      set (w0 := with_vgpu va frames w) in *.
      assert (hit_moved w0 (upd_kl (set_last_hit h) w0)) as Hm by (by exists h).
      rewrite u64_small by (unfold vgpu_kick_offset; lia). wp_step.
      eapply wp_ret_mono; [apply (wp_host_ptr _ s T); [by eapply hit_moved_inv|by eapply hit_moved_tree|
        exact Hs|unfold vgpu_kick_offset; lia]|].
      intros r w2 [(h2 & Hh2 & ->) Hr]. rewrite (guest_ptr_hit w0 _ _ _ T) in Hr by done.
      rewrite Hp0 in Hr. wp_step. wp_step. wp_step.
      exists h2, (match r with Some p => <[i:=p]> frames | None => delete i frames end).
      split; [done|]. split; [by destruct r|]. intros j Hj.
      destruct (decide (j = i)) as [->|Hne].
      + destruct r as [p|]; [by rewrite Hr, lookup_insert_eq|].
        destruct Hr as [rc Hr]. by rewrite Hr, lookup_delete_eq.
      + rewrite <- Hf by lia. destruct r; [by rewrite lookup_insert_ne|by rewrite lookup_delete_ne].
    - exists (kload_last_hit (w_kl w)), ∅. split; [apply Hi|]. split; [|lia].
      destruct w as [m o k]; by destruct k.
    - intros w1 (h & frames & Hh & -> & Hf). exists h, frames. split; [done|]. split; [done|]. intros i Hir. by apply Hf. }
  destruct (wp_total _ _ _ Hwp) as ([] & w' & Hrun & h & frames & _ & -> & Hf).
  by eexists _, h, frames.
Qed.
End device_laws.
