(* ===== verification/Teardown.v ===== *)
(** Teardown of a run ([co_kload_free], [co_kload_user_map_try_get] and
    [_put], [kload_release_pages], the wait in [co_kload_begin]).

    Three threads may ask for a teardown and a user process may hold a window
    onto guest RAM meanwhile. The theorems say what is given back to the host
    and when: everything exactly once, and nothing while a window is open. *)
From stdpp Require Import relations.
From S2P Require Import Prelude.
From S2P Require Import Rc.
From S2P Require Import Mem.
From S2P Require Import Mmu.
From S2P Require Import Space.
From S2P Require Import Host.
From S2P Require Import Frames.
From S2P Require Import FramesOk.
From S2P Require Import Grow.
From S2P Require Import Translation.
From S2P Require Import Kload.
From S2P Require Import Loaded.

Section teardown.
Context {OS : Type} `{HostLaws OS}.
Implicit Types (o : OS) (k : kload_statics) (w : world OS).

(** ** Walking the tables to destroy them *)

(** Only the lookup cache moved and the host mapped pages for a while. *)
Definition looked w w' : Prop := exists h o,
  0 <= h < CO_KLOAD_MAX_BLOCKS /\ os_ok o /\ os_frames o = os_frames (w_os w) /\
  w' = set_os o (upd_kl (set_last_hit h) w).

Lemma looked_refl w : frames_ok (w_os w) (w_kl w) -> looked w w.
Proof using.
  intros Hok. exists (kload_last_hit (w_kl w)), (w_os w).
  split_and!; [apply (fo_hit _ _ Hok)..|apply Hok|done|]. by destruct w as [? ? []].
Qed.

Lemma looked_trans w w1 w2 : looked w w1 -> looked w1 w2 -> looked w w2.
Proof using.
  intros (h1 & o1 & Hh1 & Ho1 & Hf1 & ->) (h2 & o2 & Hh2 & Ho2 & Hf2 & ->).
  exists h2, o2. split_and!; [lia..|done|cbn in *; congruence|]. by destruct w as [? ? []].
Qed.

Lemma looked_ok w w' :
  frames_ok (w_os w) (w_kl w) -> looked w w' -> frames_ok (w_os w') (w_kl w').
Proof using.
  intros Hok (h & o & Hh & Ho & Hf & ->). cbn.
  eapply frames_ok_os; [by apply frames_ok_hit|done|done].
Qed.

Lemma looked_host w a o :
  frames_ok (w_os w) (w_kl w) -> os_ok o -> os_frames o = os_frames (w_os w) ->
  looked w a -> looked w (set_os o a).
Proof using.
  intros Hok Ho Hf (h & o' & Hh & _ & _ & ->). exists h, o. split_and!; [lia..|done|done|done].
Qed.
Lemma looked_hit w w' :
  frames_ok (w_os w) (w_kl w) -> hit_moved w w' -> looked w w'.
Proof using.
  intros Hok (h & Hh & ->). exists h, (w_os w). split_and!; [lia..|apply Hok|done|]. by destruct w.
Qed.

Lemma looked_hooks w w' : looked w w' -> w_hooks w' = w_hooks w.
Proof using. by intros (h & o & _ & _ & _ & ->). Qed.

Lemma wp_kload_map w pfn (E : co_rc_value_t -> world OS -> Prop) :
  frames_ok (w_os w) (w_kl w) -> w_hooks w = true ->
  wp (co_space_map pfn) (fun _ w' => looked w w') E w.
Proof using.
  intros Hok Hh. unfold co_space_map. do 2 wp_step. cbn. rewrite Hh. wp_step.
  eapply wp_ret_mono; [by apply wp_frame_va|]. intros [a|] w1 [Hm _].
  - apply wp_ret. by apply looked_hit.
  - apply wp_host. intros a o He. pose proof (looked_hit _ _ Hok Hm) as Hl.
    pose proof (looked_ok _ _ Hok Hl) as Hok1. destruct Hm as (h & _ & ->).
    destruct (law_host_map (w_os w) pfn (fo_os _ _ Hok)) as [Ho Hf].
    cbn in He. rewrite He in Ho, Hf. by apply looked_host.
Qed.

Lemma wp_kload_unmap w p pfn (E : co_rc_value_t -> world OS -> Prop) :
  frames_ok (w_os w) (w_kl w) -> w_hooks w = true ->
  wp (co_space_unmap p pfn) (fun _ w' => looked w w') E w.
Proof using.
  intros Hok Hh. unfold co_space_unmap. do 2 wp_step. cbn. rewrite Hh. wp_step.
  eapply wp_ret_mono; [by apply wp_frame_va|]. intros [a|] w1 [Hm _].
  - apply wp_ret. by apply looked_hit.
  - apply wp_modify. pose proof (looked_hit _ _ Hok Hm) as Hl. destruct Hm as (h & _ & ->).
    destruct (law_host_unmap (w_os w) p pfn (fo_os _ _ Hok)) as [Ho Hf].
    by apply looked_host.
Qed.

(** Destroying the tables gives nothing back: they are guest RAM. *)
Lemma wp_free_table n pfn w c (E : co_rc_value_t -> world OS * Z -> Prop) :
  frames_ok (w_os w) (w_kl w) -> w_hooks w = true ->
  wp (co_space_free_table n pfn) (fun _ ws => looked w ws.1) E (w, c).
Proof using.
  revert pfn w c. induction n as [|n IH]; intros pfn w c Hok Hh; cbn [co_space_free_table].
  all: assert (forall ws : world OS * Z, looked w ws.1 ->
         wp (source ← gets (fun ws => co_space_frame_source ws.1);
             match source with
             | None => lift (co_os_put_page pfn)
             | Some _ => mret tt
             end ;;
             modify (fun ws => (ws.1, ulong (ws.2 + 1))))
           (fun _ ws' => looked w ws'.1) E ws) as Hlast.
  1, 3: intros ws Hl; do 2 wp_step; cbn; rewrite (looked_hooks _ _ Hl), Hh;
    do 3 wp_step; exact Hl.
  - wp_step. apply wp_ret. apply Hlast. by apply looked_refl.
  - wp_step.
    apply (wp_ret_mono _ (fun _ ws => looked w ws.1)); [|intros _ ws; apply Hlast].
    wp_step. apply wp_lift. eapply wp_ret_mono; [by apply wp_kload_map|].
    intros [table|] w1 Hl; [|by apply wp_ret]. wp_step.
    apply (wp_mfor _ (fun _ ws => looked w ws.1)); [|done|].
    + intros i [w2 c2] _ Hl2. cbn [fst] in Hl2. wp_step. apply wp_lift. apply wp_gets. wp_step; [by apply wp_ret|].
      wp_step; [by apply wp_ret|].
      apply (wp_ret_mono _ (fun _ ws => looked w2 ws.1)).
      * apply IH; [by eapply looked_ok|by rewrite (looked_hooks _ _ Hl2)].
      * intros _ ws Hl3. by eapply looked_trans.
    + intros [w2 c2] Hl2. cbn [fst] in Hl2. apply wp_lift.
      eapply wp_ret_mono; [apply wp_kload_unmap;
        [by eapply looked_ok|by rewrite (looked_hooks _ _ Hl2)]|].
      intros [] w3 Hl3. cbn. by eapply looked_trans.
Qed.

Lemma wp_space_destroy s w (E : co_rc_value_t -> world OS -> Prop) :
  frames_ok (w_os w) (w_kl w) -> w_hooks w = true ->
  wp (co_arch_guest_space_destroy s) (fun _ w' => looked w w') E w.
Proof using.
  intros Hok Hh. unfold co_arch_guest_space_destroy, wp.
  pose proof (wp_free_table 3 (pml4_pfn s) w 0 (fun _ _ => False) Hok Hh) as Hwp. unfold wp in Hwp.
  by destruct (co_space_free_table 3 (pml4_pfn s) (w, 0)) as [[[]|rc|] [w' c]].
Qed.
(** ** Giving the pages back *)

Definition block_returned (b : co_kload_block_t) o : OS :=
  if block_va b =? 0 then o
  else if negb (block_mdl b =? 0) then co_os_user_block_unmap (block_va b) (block_mdl b) o
  else co_os_free_cached_pages (block_va b) (u32 (pages_of (block_bytes b))) o.

(** The blocks [0 .. n) handed back, in order, each once. *)
Definition blocks_returned k (n : nat) o : OS :=
  foldl (fun o i => block_returned (block_at k i) o) o (seqZ 0 (Z.of_nat n)).

Definition array_returned (a : option pool_array) (pages : Z) o : OS :=
  match a with Some a => co_os_free_cached_pages (array_va a) pages o | None => o end.

Definition all_returned k o : OS :=
  array_returned (kload_m2p k) (kload_m2p_alloc_pages k)
    (array_returned (kload_p2m k) (kload_p2m_alloc_pages k)
      (blocks_returned k (Z.to_nat (kload_block_count k)) o)).

Lemma blocks_returned_S k n o :
  blocks_returned k (S n) o = block_returned (block_at k (Z.of_nat n)) (blocks_returned k n o).
Proof using.
  unfold blocks_returned. rewrite Nat2Z.inj_succ. unfold Z.succ.
  rewrite seqZ_app by lia. rewrite foldl_app. done.
Qed.

(** No run: nothing of the host's is held. *)
Record idle k : Prop := {
  id_space : kload_space k = None;
  id_p2m : kload_p2m k = None;
  id_m2p : kload_m2p k = None;
  id_ram : no_ram k;
}.

(** What [kload_release_pages] leaves, the block slots apart. *)
Definition statics_released k : kload_statics :=
  set_user_ram_bytes 0 (set_user_ram_va 0
  (set_table_top 0 (set_table_end 0 (set_table_start 0 (set_phys_base 0
  (set_ram_ready false (set_m2p_mask_value 0 (set_m2p_slots 0
  (set_window_base_pages 0 (set_window_next 0 (set_backed_pages 0
  (set_p2m_capacity 0 (set_m2p_alloc_pages 0 (set_p2m_alloc_pages 0
  (set_m2p None (set_p2m None (set_last_hit 0 (set_block_count 0 k)))))))))))))))))).

Definition released w w' : Prop := exists b,
  w' = set_os (all_returned (w_kl w) (w_os w))
         (set_kl (set_block b (statics_released (w_kl w))) w) /\
  forall i, 0 <= i < kload_block_count (w_kl w) -> block_va (default null_block (b !! i)) = 0.

Lemma os_ok_returned k o n : os_ok o -> os_ok (blocks_returned k n o).
Proof using.
  intros Ho. induction n as [|n IH]; [done|]. rewrite blocks_returned_S.
  unfold block_returned. destruct (_ =? _); [done|].
  destruct (negb _); [by apply law_block_unmap|by apply law_free_cached].
Qed.

Lemma os_ok_all_returned k o : os_ok o -> os_ok (all_returned k o).
Proof using.
  intros Ho. unfold all_returned, array_returned.
  destruct (kload_m2p k), (kload_p2m k); repeat apply law_free_cached; by apply os_ok_returned.
Qed.

Lemma wp_release_block w k o i b :
  w_kl w = set_block b k -> w_os w = o -> 0 <= i < CO_KLOAD_MAX_BLOCKS ->
  wp (release_block i) (fun _ w' => exists b',
      w' = set_os (block_returned (default null_block (b !! i)) o) (set_kl (set_block b' k) w) /\
      block_va (default null_block (b' !! i)) = 0 /\ forall j, j <> i -> b' !! j = b !! j)
    (fun _ _ => False) w.
Proof using.
  intros Hk Ho Hi. unfold release_block. wp_step. apply wp_block_get; [done|].
  assert (block_at (w_kl w) i = default null_block (b !! i)) as -> by (rewrite Hk; done).
  unfold block_returned.
  set (c := default null_block (b !! i)). wp_step.
  { apply wp_ret. exists b. split_and!; [|done|done]. destruct w; cbn in *; by subst. }
  wp_step. unfold block_set, kset. wp_step. apply wp_in_bounds.
  { apply andb_true_iff. rewrite Z.leb_le, Z.ltb_lt. lia. }
  apply wp_modify.
  assert (forall f, wp (host_do f) (fun _ w' => exists b',
      w' = set_os (f o) (set_kl (set_block b' k) w) /\
      block_va (default null_block (b' !! i)) = 0 /\ forall j, j <> i -> b' !! j = b !! j)
    (fun _ _ => False) (upd_kl (fun k => set_block (<[i := null_block]> (kload_block k)) k) w))
    as Hdo.
  { intros f. unfold host_do. apply wp_modify. exists (<[i := null_block]> b).
    split_and!; [|by rewrite lookup_insert_eq|intros j Hj; by rewrite lookup_insert_ne].
    unfold upd_kl. rewrite Hk. destruct w; cbn in *; by subst. }
  destruct (negb (block_mdl c =? 0)); apply Hdo.
Qed.

Lemma wp_free_array a pages w (E : co_rc_value_t -> world OS -> Prop) :
  wp (free_array a pages) (fun _ w' => w' = set_os (array_returned a pages (w_os w)) w) E w.
Proof using. destruct a; [by apply wp_modify|by apply wp_ret; destruct w]. Qed.

Lemma wp_release_pages w (E : co_rc_value_t -> world OS -> Prop) :
  0 <= kload_block_count (w_kl w) <= CO_KLOAD_MAX_BLOCKS ->
  wp kload_release_pages (fun _ w' => released w w') E w.
Proof using.
  intros Hc. unfold kload_release_pages, kl, kset.
  do 3 (wp_step; first [apply wp_gets|apply wp_modify]).
  set (count := kload_block_count (w_kl w)) in *.
  set (k1 := set_last_hit 0 (set_block_count 0 (w_kl w))).
  set (w1 := upd_kl (set_last_hit 0) (upd_kl (set_block_count 0) w)).
  wp_step. apply (wp_mfor _ (fun i w' => exists b,
    w' = set_os (blocks_returned (w_kl w) (Z.to_nat i) (w_os w)) (set_kl (set_block b k1) w) /\
    forall j, 0 <= j -> if decide (j < i) then block_va (default null_block (b !! j)) = 0
                        else b !! j = kload_block (w_kl w) !! j)).
  - intros i w' Hi (b & -> & Hb).
    pose proof (wp_release_block (set_os (blocks_returned (w_kl w) (Z.to_nat i) (w_os w))
      (set_kl (set_block b k1) w)) k1 _ i b eq_refl eq_refl) as Hr.
    eapply wp_mono; [apply Hr; change CO_KLOAD_MAX_BLOCKS with 16384 in *; lia| |done].
    intros [] w2 (b' & -> & Hv & Hj). exists b'. split.
    + replace (Z.to_nat (i + 1)) with (S (Z.to_nat i)) by lia. rewrite blocks_returned_S.
      rewrite Z2Nat.id by lia. specialize (Hb i ltac:(lia)). rewrite decide_False in Hb by lia.
      unfold block_at. by rewrite Hb.
    + intros j Hj0. specialize (Hb j Hj0). destruct (decide (j = i)) as [->|Hne].
      * by rewrite decide_True by lia.
      * rewrite (Hj j Hne). destruct (decide (j < i)); [by rewrite decide_True by lia|].
        by rewrite decide_False by lia.
  - exists (kload_block (w_kl w)). split.
    + cbn. unfold w1, k1. destruct w as [? ? []]; done.
    + intros j Hj. by rewrite decide_False by lia.
  - intros w2 (b & -> & Hb). rewrite Z2Nat.id by lia. rewrite Z.add_0_l in *.
    do 2 (wp_step; apply wp_gets). wp_step.
    eapply wp_ret_mono; [apply wp_free_array|]. intros [] w3 ->.
    do 2 (wp_step; apply wp_gets). wp_step.
    eapply wp_ret_mono; [apply wp_free_array|]. intros [] w4 ->. apply wp_modify.
    exists b. split; [|intros i Hi; specialize (Hb i ltac:(lia)); by rewrite decide_True in Hb by lia].
    unfold all_returned. fold count. done.
Qed.
(** ** The invariant of the loader between operations *)

Record run_inv w : Prop := {
  rv_os : os_ok (w_os w);
  rv_maps : 0 <= kload_user_maps (w_kl w);
  rv_state : idle (w_kl w) \/ frames_ok (w_os w) (w_kl w);
  rv_held : 0 < kload_user_maps (w_kl w) -> frames_ok (w_os w) (w_kl w);
  rv_hooks : kload_space (w_kl w) <> None -> w_hooks w = true;
  rv_pending : kload_pending_free (w_kl w) = true ->
    0 < kload_user_maps (w_kl w) /\ kload_space (w_kl w) = None;
}.

(** The readers retired, the space gone, the RAM still there. *)
Definition retired w w' : Prop := exists h o,
  os_ok o /\ os_frames o = os_frames (w_os w) /\ 0 <= h < CO_KLOAD_MAX_BLOCKS /\
  w' = World (w_mem w) o
         (set_space None (set_ram_ready false (set_last_hit h (w_kl w)))) false 0 0 0 ∅ (w_locks w).

(** The four outcomes of a teardown: nothing to do, deferred, done. *)
Definition torn_down w w' : Prop :=
  (idle (w_kl w) /\ w' = upd_kl (set_ram_ready false) w) \/
  (0 < kload_user_maps (w_kl w) /\ exists w1, retired w w1 /\
     w' = upd_kl (set_pending_free true) w1) \/
  (kload_user_maps (w_kl w) = 0 /\ exists w1 w2, retired w w1 /\ released w1 w2 /\
     w' = upd_kl (fun k => set_ram_pages 0 (set_ram_bytes 0 (set_chunks 0 (set_pages 0 k)))) w2).

Lemma idle_checked w :
  run_inv w ->
  (bool_decide (kload_space (w_kl w) = None) && (kload_block_count (w_kl w) =? 0)
   && bool_decide (kload_p2m (w_kl w) = None) && bool_decide (kload_m2p (w_kl w) = None))%bool
  = true -> idle (w_kl w).
Proof using.
  intros Hi Hc. repeat (apply andb_true_iff in Hc; destruct Hc as [Hc ?]).
  destruct (rv_state _ Hi) as [Hid|Hok]; [done|].
  destruct (to_p2m _ (fo_tables _ _ Hok)) as [a Ha].
  exfalso. match goal with H : bool_decide (kload_p2m _ = None) = true |- _ =>
    apply bool_decide_eq_true in H; congruence end.
Qed.

Lemma idle_unchecked w :
  run_inv w ->
  (bool_decide (kload_space (w_kl w) = None) && (kload_block_count (w_kl w) =? 0)
   && bool_decide (kload_p2m (w_kl w) = None) && bool_decide (kload_m2p (w_kl w) = None))%bool
  = false -> frames_ok (w_os w) (w_kl w).
Proof using.
  intros Hi Hc. destruct (rv_state _ Hi) as [[Hs Hp Hm [Hn _ _]]|Hok]; [|done].
  rewrite Hs, Hp, Hm, Hn in Hc. by rewrite !bool_decide_true in Hc by done.
Qed.

Lemma wp_kload_free w (E : co_rc_value_t -> world OS -> Prop) :
  run_inv w -> wp co_kload_free (fun _ w' => torn_down w w') E w.
Proof using.
  intros Hi. unfold co_kload_free, kl, kset, clear_counts.
  wp_step. apply wp_modify. do 4 (wp_step; apply wp_gets).
  cbn [w_kl upd_kl set_kl kload_space set_ram_ready kload_block_count kload_p2m kload_m2p].
  set (w0 := upd_kl (set_ram_ready false) w).
  destruct (_ && _)%bool eqn:Hidle.
  { apply wp_ret. left. split; [exact (idle_checked _ Hi Hidle)|reflexivity]. }
  pose proof (idle_unchecked _ Hi Hidle) as Hok. clear Hidle.
  unfold co_console_set_address, co_net_set_address, co_vgpu_set_address, set_vgpu.
  do 2 (wp_step; apply wp_modify). wp_step. wp_step. apply wp_modify. wp_step; [|done].
  apply wp_ret. wp_step. apply wp_modify.
  match goal with |- wp _ _ _ ?w => set (w1 := w) end.
  assert (frames_ok (w_os w1) (w_kl w1)) as Hok1.
  { destruct Hok as [? Ht ? ? ? Hti ? ?]. split; try done; [by destruct Ht; split|].
    by destruct Hti; split. }
  assert (wp match kload_space (w_kl w) with
             | Some s => freed ← co_arch_guest_space_destroy s; mret tt
             | None => mret tt
             end (fun _ w' => looked w1 w') E w1) as Hdestroy.
  { destruct (kload_space (w_kl w)) as [s|] eqn:Hs.
    - wp_step. eapply wp_ret_mono; [apply wp_space_destroy; [done|]|].
      + cbn. apply (rv_hooks _ Hi). by rewrite Hs.
      + intros freed w2 Hl. by apply wp_ret.
    - apply wp_ret. by apply looked_refl. }
  wp_step. eapply wp_ret_mono; [exact Hdestroy|]. intros [] w2 Hl.
  unfold co_arch_guest_space_set_frame_source. wp_step. apply wp_modify.
  assert (retired w (set_hooks false w2)) as Hret.
  { destruct Hl as (h & o & Hh & Ho & Hf & ->). exists h, o.
    split_and!; [done|done|lia|lia|]. subst w1. destruct w as [? ? []]. done. }
  assert (kload_user_maps (w_kl (set_hooks false w2)) = kload_user_maps (w_kl w)) as Hmaps
    by (destruct Hret as (h & o & _ & _ & _ & ->); done).
  wp_step. apply wp_gets. rewrite Hmaps. wp_step.
  { apply wp_modify. right; left. pose proof (rv_maps _ Hi). split; [lia|]. eauto. }
  wp_step. eapply wp_ret_mono; [apply wp_release_pages|].
  - destruct Hret as (h & o & _ & _ & _ & ->). apply (fo_count _ _ Hok).
  - intros [] w3 Hrel. apply wp_modify. right; right. eauto 6.
Qed.
(** *** What the outcomes mean *)

(** Guest RAM as it was: blocks, tables and the host's pages under them. *)
Record ram_held w w' : Prop := {
  rh_block : kload_block (w_kl w') = kload_block (w_kl w);
  rh_count : kload_block_count (w_kl w') = kload_block_count (w_kl w);
  rh_p2m : kload_p2m (w_kl w') = kload_p2m (w_kl w);
  rh_m2p : kload_m2p (w_kl w') = kload_m2p (w_kl w);
  rh_frames : os_frames (w_os w') = os_frames (w_os w);
  rh_mem : w_mem w' = w_mem w;
}.

Lemma ram_held_refl w : ram_held w w.
Proof using. by split. Qed.

Lemma ram_held_trans w w1 w2 : ram_held w w1 -> ram_held w1 w2 -> ram_held w w2.
Proof using. intros [] []. split; congruence. Qed.

(** A change that keeps [frames_ok]: all of its fields are the same. *)
Lemma frames_ok_keep o o' k k' :
  frames_ok o k -> os_ok o' -> os_frames o' = os_frames o ->
  (exists h, 0 <= h < CO_KLOAD_MAX_BLOCKS /\ core k' = core (set_last_hit h k)) ->
  frames_ok o' k'.
Proof using.
  intros Hok Ho Hf (h & Hh & Hc).
  apply (frames_ok_core _ (set_last_hit h k)); [exact Hc|].
  apply (frames_ok_os o); [by apply frames_ok_hit|done|done].
Qed.

Lemma retired_ok w w' :
  frames_ok (w_os w) (w_kl w) -> retired w w' -> frames_ok (w_os w') (w_kl w').
Proof using.
  intros Hok (h & o & Ho & Hf & Hh & ->). cbn.
  apply (frames_ok_keep (w_os w) o (w_kl w)); [done|done|done|]. by exists h.
Qed.

Lemma retired_held w w' : retired w w' -> ram_held w w'.
Proof using. intros (h & o & _ & Hf & _ & ->). by split. Qed.

Lemma released_idle w w' :
  kload_space (w_kl w) = None -> released w w' -> idle (w_kl w').
Proof using.
  intros Hs (b & -> & _). split; [done..|]. by split.
Qed.

Lemma idle_ready k v : idle k -> idle (set_ram_ready v k).
Proof using. intros [? ? ? []]. by split. Qed.

Lemma idle_counts k a b c d :
  idle k -> idle (set_ram_pages a (set_ram_bytes b (set_chunks c (set_pages d k)))).
Proof using. intros [? ? ? []]. by split. Qed.

Lemma torn_down_inv w w' : run_inv w -> torn_down w w' -> run_inv w'.
Proof using.
  intros Hi [[Hid ->]|[(Hm & w1 & Hr & ->)|(Hm & w1 & w2 & Hr & Hrel & ->)]].
  - destruct Hi as [Ho Hmp Hst Hheld Hh Hp]. split; try done.
    + left. by apply idle_ready.
    + intros Hpos. apply (frames_ok_core _ (w_kl w)); [done|by apply Hheld].
  - assert (frames_ok (w_os w1) (w_kl w1)) as Hok
      by (apply (retired_ok w); [by apply (rv_held _ Hi)|done]).
    assert (frames_ok (w_os w1) (set_pending_free true (w_kl w1))) as Hok'
      by (by apply (frames_ok_core _ (w_kl w1))).
    destruct Hr as (h & o & Ho & Hf & Hh & ->).
    split; cbn in *; [done|lia|by right|done|done|done].
  - pose proof (rv_pending _ Hi) as Hp.
    destruct Hrel as (b & -> & Hb). destruct Hr as (h & o & Ho & Hf & Hh & ->). cbn in *.
    split; cbn; [by apply os_ok_all_returned|lia|left; by split|lia|done|].
    intros Hpd. destruct (Hp Hpd). lia.
Qed.
(** ** The life of a mapping *)

(** One locked operation on the lifetime of guest RAM, by any thread. *)
Inductive life_step w w' : Prop :=
  | life_free : co_kload_free w = (Ret tt, w') -> life_step w w'
  | life_get b : co_kload_user_map_try_get w = (Ret b, w') -> life_step w w'
  | life_put : co_kload_user_map_put w = (Ret tt, w') -> life_step w w'.

(** The same, leaving at least one mapping open. *)
Definition held_step w w' : Prop := life_step w w' /\ 0 < kload_user_maps (w_kl w').

Lemma run_inv_maps w n :
  run_inv w -> 0 <= n -> (0 < n -> frames_ok (w_os w) (w_kl w)) ->
  (kload_pending_free (w_kl w) = true -> 0 < n) ->
  run_inv (upd_kl (set_user_maps n) w).
Proof using.
  intros [Ho Hm Hst Hh Hhk Hp] Hn Hok Hpn.
  assert (forall o, frames_ok o (w_kl w) -> frames_ok o (set_user_maps n (w_kl w))) as Hf
    by (intros o; by apply frames_ok_core).
  split; cbn; [done|done| |auto|done|].
  - destruct Hst as [Hid|Hst]; [left|right; auto]. destruct Hid as [? ? ? []]. by split.
  - intros Hpd. destruct (Hp Hpd). auto.
Qed.

Lemma wp_map_try_get w (E : co_rc_value_t -> world OS -> Prop) :
  run_inv w ->
  wp co_kload_user_map_try_get (fun b w' => run_inv w' /\
    w' = if b : bool then upd_kl (set_user_maps (kload_user_maps (w_kl w) + 1)) w else w) E w.
Proof using.
  intros Hi. unfold co_kload_user_map_try_get, kl, kset. wp_step. apply wp_gets.
  destruct (kload_ram_ready (w_kl w) && negb (kload_pending_free (w_kl w))
            && negb (kload_block_count (w_kl w) =? 0))%bool eqn:Hready.
  - wp_step. apply wp_modify, wp_ret. split; [|done].
    repeat (apply andb_true_iff in Hready; destruct Hready as [Hready ?]). zbool.
    pose proof (rv_maps _ Hi).
    destruct (rv_state _ Hi) as [[_ _ _ [Hn _ _]]|Hok]; [lia|].
    apply (run_inv_maps w (kload_user_maps (w_kl w) + 1)); [done|lia|done|lia].
  - wp_step. by apply wp_ret, wp_ret.
Qed.

(** The last mapping of a pending teardown releases; any other only counts. *)
Definition map_put_done w w' : Prop :=
  let n := Z.max 0 (kload_user_maps (w_kl w) - 1) in
  if (n =? 0) && kload_pending_free (w_kl w) then
    idle (w_kl w') /\ w_os w' = all_returned (w_kl w) (w_os w) /\
    kload_user_maps (w_kl w') = 0 /\ kload_pending_free (w_kl w') = false
  else w' = upd_kl (set_user_maps n) w.

Lemma wp_map_put w (E : co_rc_value_t -> world OS -> Prop) :
  run_inv w -> wp co_kload_user_map_put (fun _ w' => run_inv w' /\ map_put_done w w') E w.
Proof using.
  intros Hi. unfold co_kload_user_map_put, kl, kset, clear_counts, map_put_done.
  set (n := Z.max 0 (kload_user_maps (w_kl w) - 1)).
  pose proof (rv_maps _ Hi) as Hm.
  wp_step. apply wp_modify.
  assert (upd_kl (fun k => if 0 <? kload_user_maps k
            then set_user_maps (kload_user_maps k - 1) k else k) w
          = upd_kl (set_user_maps n) w) as ->.
  { unfold upd_kl. f_equal. destruct (Z.ltb_spec 0 (kload_user_maps (w_kl w))) as [Hlt|Hge].
    - f_equal. lia.
    - assert (n = kload_user_maps (w_kl w)) as -> by lia. by destruct (w_kl w). }
  do 2 (wp_step; apply wp_gets).
  cbn [w_kl upd_kl set_kl kload_user_maps set_user_maps kload_pending_free].
  destruct ((n =? 0) && kload_pending_free (w_kl w))%bool eqn:Hlast.
  - apply andb_true_iff in Hlast. destruct Hlast as [Hn Hp]. apply Z.eqb_eq in Hn.
    destruct (rv_pending _ Hi Hp) as [Hpos Hs]. pose proof (rv_held _ Hi Hpos) as Hok.
    wp_step. eapply wp_ret_mono; [apply wp_release_pages; apply (fo_count _ _ Hok)|].
    intros [] w1 (b & -> & _). wp_step. apply wp_modify, wp_modify.
    split; [|cbn; split_and!; [by split|done|lia|done]].
    split; cbn; [apply os_ok_all_returned, Hok|lia|left; by split|lia|by rewrite Hs|done].
  - apply wp_ret. split; [|done]. apply run_inv_maps; [done|lia| |].
    + intros Hpos. apply (rv_held _ Hi). lia.
    + intros Hp. rewrite Hp, andb_true_r in Hlast. apply Z.eqb_neq in Hlast. lia.
Qed.

Lemma life_step_inv w w' : run_inv w -> life_step w w' -> run_inv w'.
Proof using.
  intros Hi [Hrun|b Hrun|Hrun].
  - pose proof (wp_kload_free w (fun _ _ => False) Hi) as H1. unfold wp in H1. rewrite Hrun in H1.
    by eapply torn_down_inv.
  - pose proof (wp_map_try_get w (fun _ _ => False) Hi) as H1. unfold wp in H1.
    rewrite Hrun in H1. apply H1.
  - pose proof (wp_map_put w (fun _ _ => False) Hi) as H1. unfold wp in H1.
    rewrite Hrun in H1. apply H1.
Qed.

(** While a mapping stays open a step keeps the RAM, and a pending teardown
    stays pending. *)
Lemma held_step_ram w w' :
  run_inv w -> 0 < kload_user_maps (w_kl w) -> held_step w w' ->
  run_inv w' /\ ram_held w w' /\
  (kload_pending_free (w_kl w) = true -> kload_pending_free (w_kl w') = true).
Proof using.
  intros Hi Hpos [Hstep Hpos']. split; [by eapply life_step_inv|].
  destruct Hstep as [Hrun|b Hrun|Hrun].
  - pose proof (wp_kload_free w (fun _ _ => False) Hi) as H1. unfold wp in H1. rewrite Hrun in H1.
    destruct H1 as [[Hid ->]|[(_ & w1 & Hr & ->)|(Hm & _)]]; [|..|lia].
    + by split.
    + split; [|done]. pose proof (retired_held _ _ Hr) as []. by split.
  - pose proof (wp_map_try_get w (fun _ _ => False) Hi) as H1. unfold wp in H1.
    rewrite Hrun in H1. destruct H1 as [_ ->]. by destruct b; split.
  - pose proof (wp_map_put w (fun _ _ => False) Hi) as H1. unfold wp in H1.
    rewrite Hrun in H1. destruct H1 as [_ H1]. unfold map_put_done in H1.
    destruct (_ && _)%bool in H1; [destruct H1 as (_ & _ & H1 & _); lia|]. by subst w'.
Qed.
Lemma held_steps_ram w w' :
  run_inv w -> 0 < kload_user_maps (w_kl w) -> rtc held_step w w' ->
  run_inv w' /\ ram_held w w' /\ 0 < kload_user_maps (w_kl w') /\
  (kload_pending_free (w_kl w) = true -> kload_pending_free (w_kl w') = true).
Proof using.
  intros Hi Hpos Hrtc. revert Hi Hpos. induction Hrtc as [w|w w1 w' Hstep _ IH]; intros Hi Hpos.
  - split_and!; [done|apply ram_held_refl|done|done].
  - destruct (held_step_ram _ _ Hi Hpos Hstep) as (Hi1 & Hh1 & Hp1).
    destruct (IH Hi1 (proj2 Hstep)) as (Hi2 & Hh2 & Hm2 & Hp2).
    split_and!; [done|by eapply ram_held_trans|done|auto].
Qed.

(** Other threads run while [co_kload_begin] sleeps; they keep a mapping
    open. *)
Definition sleep_keeps_maps (co_os_msleep : Z -> M (world OS) unit) : Prop :=
  forall ms w, run_inv w -> 0 < kload_user_maps (w_kl w) ->
    exists w', co_os_msleep ms w = (Ret tt, w') /\ rtc held_step w w'.

Lemma wp_wait_times_out sleep w (E : co_rc_value_t -> world OS -> Prop) :
  sleep_keeps_maps sleep -> run_inv w -> kload_pending_free (w_kl w) = true ->
  wp (kload_wait_for_deferred_free sleep)
    (fun ok w' => ok = false /\ run_inv w' /\ ram_held w w') E w.
Proof using.
  intros Hsl Hi Hp. unfold kload_wait_for_deferred_free.
  apply (wp_mloop _ (fun waited w' => 0 <= waited <= 10000 /\ waited mod 50 = 0 /\ run_inv w' /\
    ram_held w w' /\ kload_pending_free (w_kl w') = true) (fun waited _ => 10000 - waited)).
  - intros waited w' (Hw & Hm & Hi' & Hh & Hp'). unfold wait_step. wp_step.
    { by apply wp_ret. }
    wp_step. apply wp_gets. rewrite Hp'. cbn [negb]. wp_step.
    destruct (Hsl 50 w' Hi' (proj1 (rv_pending _ Hi' Hp'))) as (w2 & Hrun & Hrtc).
    destruct (held_steps_ram _ _ Hi' (proj1 (rv_pending _ Hi' Hp')) Hrtc) as (Hi2 & Hh2 & _ & Hp2).
    assert (waited + 50 <= 10000 /\ (waited + 50) mod 50 = 0) as [Hle Hm']
      by (Z.div_mod_to_equations; lia).
    unfold wp. rewrite Hrun. split; [|lia].
    split_and!; [lia|lia|done|done|by eapply ram_held_trans|auto].
  - split_and!; [lia..|done|done|apply ram_held_refl|done].
  - lia.
Qed.

Lemma ready_off w : kload_ram_ready (w_kl w) = false -> upd_kl (set_ram_ready false) w = w.
Proof using. destruct w as [m o [] h c n v f l]. cbn. by intros ->. Qed.

Lemma idle_torn w :
  idle (w_kl w) -> co_kload_free w = (Ret tt, upd_kl (set_ram_ready false) w).
Proof using.
  intros [Hs Hp Hm [Hn _ _]]. unfold co_kload_free, kl, kset, gets, modify, mbind, M_bind.
  cbn. by rewrite Hs, Hp, Hm, Hn.
Qed.

Lemma vgpu_retired m o k h c n v f l :
  co_vgpu_set_address 0 (@World OS m o k h c n v f l) = (Ret tt, World m o k h c n 0 ∅ l).
Proof using. reflexivity. Qed.

Lemma retired_again w w1 :
  retired w w1 -> frames_ok (w_os w1) (w_kl w1) -> 0 < kload_user_maps (w_kl w1) ->
  co_kload_free (upd_kl (set_pending_free true) w1)
    = (Ret tt, upd_kl (set_pending_free true) w1).
Proof using.
  intros (h & o & _ & _ & _ & ->) Hok Hm. cbn in Hm, Hok.
  destruct (to_p2m _ (fo_tables _ _ Hok)) as [a Ha]. cbn in Ha.
  unfold co_kload_free, kl, kset, gets, modify, mbind, M_bind. cbn. rewrite Ha.
  rewrite (bool_decide_false (Some a = None)) by done. rewrite andb_false_r.
  cbn. rewrite vgpu_retired. cbn. rewrite (proj2 (Z.eqb_neq _ 0)) by lia. by destruct (w_kl w).
Qed.

(** ** Properties *)

(** C11: a teardown gives everything back exactly once. With no mapping open,
    [co_kload_free] returns each block of guest RAM to the host once, in
    order, through the call that matches how it was obtained, and the two
    translation tables after them; it retires the published addresses and the
    table hooks and leaves the loader idle. Asking again changes nothing. *)
Theorem teardown_returns_all_once w :
  run_inv w -> kload_user_maps (w_kl w) = 0 -> ~ idle (w_kl w) ->
  exists o w1, os_ok o /\ os_frames o = os_frames (w_os w) /\
    co_kload_free w = (Ret tt, w1) /\ w_os w1 = all_returned (w_kl w) o /\
    idle (w_kl w1) /\ w_hooks w1 = false /\ w_mem w1 = w_mem w /\
    console_io_va w1 = 0 /\ net_io_va w1 = 0 /\ vgpu_io_va w1 = 0 /\
    co_kload_free w1 = (Ret tt, w1).
Proof using.
  intros Hi Hm Hn.
  destruct (wp_total _ _ _ (wp_kload_free w (fun _ _ => False) Hi)) as ([] & w' & Hrun & Ht).
  destruct Ht as [[Hid _]|[(Hpos & _)|(_ & w1 & w2 & Hr & Hrel & ->)]]; [done|lia|].
  destruct Hr as (h & o & Ho & Hf & Hh & ->). destruct Hrel as (b & -> & Hb).
  match type of Hrun with _ = (_, ?x) => set (w1 := x) in * end.
  assert (idle (w_kl w1)) as Hid by (by split).
  pose proof (idle_torn w1 Hid) as Hagain. rewrite (ready_off w1 eq_refl) in Hagain.
  exists o, w1. split; [exact Ho|split; [exact Hf|split; [exact Hrun|]]].
  split; [reflexivity|split; [exact Hid|]]. do 5 (split; [reflexivity|]). exact Hagain.
Qed.

(** A window onto guest RAM pins it. From any consistent state with a
    mapping open, whatever sequence of teardowns, new mappings and closes
    other threads run, as long as one mapping stays open the blocks, the
    translation tables and the host's pages under them stay what they were. *)
Theorem user_map_pins_ram w w' :
  run_inv w -> 0 < kload_user_maps (w_kl w) -> rtc held_step w w' -> ram_held w w'.
Proof using. intros Hi Hpos Hrtc. by destruct (held_steps_ram w w' Hi Hpos Hrtc) as (_ & ? & _). Qed.

(** A deferred teardown completes, and at the last close. When a free
    found one mapping open, closing it releases every block and table once,
    clears the pending flag and leaves the loader idle; the free itself
    released nothing and turned away new mappings. *)
Theorem last_close_releases w :
  run_inv w -> kload_user_maps (w_kl w) = 1 ->
  exists w1 w2, co_kload_free w = (Ret tt, w1) /\ ram_held w w1 /\
    co_kload_user_map_try_get w1 = (Ret false, w1) /\
    co_kload_user_map_put w1 = (Ret tt, w2) /\
    idle (w_kl w2) /\ w_os w2 = all_returned (w_kl w) (w_os w1) /\
    kload_user_maps (w_kl w2) = 0 /\ kload_pending_free (w_kl w2) = false.
Proof using.
  intros Hi Hm.
  destruct (wp_total _ _ _ (wp_kload_free w (fun _ _ => False) Hi)) as ([] & w1 & Hrun & Ht).
  pose proof (torn_down_inv _ _ Hi Ht) as Hi1.
  destruct Ht as [[Hid _]|[(_ & w0 & Hr & ->)|(Hz & _)]]; [|..|lia].
  { pose proof (rv_held _ Hi ltac:(lia)) as Hok.
    destruct (to_p2m _ (fo_tables _ _ Hok)) as [a Ha]. rewrite (id_p2m _ Hid) in Ha. done. }
  destruct (wp_total _ _ _ (wp_map_put _ (fun _ _ => False) Hi1)) as ([] & w2 & Hput & _ & Hdone).
  pose proof (retired_held _ _ Hr) as Hheld.
  destruct Hr as (h & o & Ho & Hf & Hh & ->). unfold map_put_done in Hdone. cbn in Hdone.
  rewrite Hm in Hdone. cbn in Hdone. destruct Hdone as (Hid & Hos & Hmaps & Hp).
  eexists _, w2. split_and!; [exact Hrun|by destruct Hheld; split|reflexivity|exact Hput|done..].
Qed.

(** A new run waits for the windows of the last one. While a mapping
    stays open, whatever else happens during its sleeps, [co_kload_begin]
    gives up after ten seconds with an error, and the RAM under the mapping
    is untouched. *)
Theorem begin_waits_for_user_maps sleep alloc min_va max_va ram_bytes user_va user_bytes w :
  run_inv w -> 0 < kload_user_maps (w_kl w) -> sleep_keeps_maps sleep ->
  exists w', co_kload_begin sleep alloc min_va max_va ram_bytes user_va user_bytes w
               = (Fail CO_RC_ERROR, w') /\ run_inv w' /\ ram_held w w'.
Proof using.
  intros Hi Hpos Hsl.
  destruct (wp_total _ _ _ (wp_kload_free w (fun _ _ => False) Hi)) as ([] & w1 & Hrun & Ht).
  pose proof (torn_down_inv _ _ Hi Ht) as Hi1.
  assert (ram_held w w1 /\ kload_pending_free (w_kl w1) = true) as [Hh1 Hp1].
  { destruct Ht as [[Hid _]|[(_ & w0 & Hr & ->)|(Hz & _)]]; [|..|lia].
    - pose proof (rv_held _ Hi Hpos) as Hok.
      destruct (to_p2m _ (fo_tables _ _ Hok)) as [a Ha]. by rewrite (id_p2m _ Hid) in Ha.
    - split; [|done]. by destruct (retired_held _ _ Hr); split. }
  destruct (wp_total _ _ _ (wp_wait_times_out sleep w1 (fun _ _ => False) Hsl Hi1 Hp1))
    as (ok & w2 & Hwait & -> & Hi2 & Hh2).
  exists w2. split_and!; [|done|by eapply ram_held_trans].
  unfold co_kload_begin. rewrite (run_bind _ _ _ _ _ Hrun), (run_bind _ _ _ _ _ Hwait). done.
Qed.

(** A refused run leaves its view of the section behind. When
    [co_kload_begin] rejects its addresses after a caller offered a view for
    guest RAM, the view stays recorded although no run exists, and a teardown
    does not clear it: guest RAM of the next run would be carved from it. *)
Theorem refused_begin_keeps_view sleep alloc min_va max_va ram_bytes user_va user_bytes w :
  idle (w_kl w) -> kload_pending_free (w_kl w) = false ->
  user_va <> 0 -> user_bytes <> 0 -> page_off user_va = 0 ->
  begin_refuses min_va max_va ram_bytes = true ->
  exists w', co_kload_begin sleep alloc min_va max_va ram_bytes user_va user_bytes w
               = (Fail CO_RC_INVALID_PARAMETER, w') /\
    idle (w_kl w') /\ kload_user_ram_va (w_kl w') = user_va /\
    co_kload_user_backed w' = (Ret true, w') /\
    co_kload_free w' = (Ret tt, w').
Proof using.
  intros Hid Hp Hv Hb Ho Href.
  set (w0 := upd_kl (set_ram_ready false) w).
  set (w1 := upd_kl (fun k => set_user_ram_bytes (Z.land user_bytes CO_ARCH_PAGE_MASK)
                                (set_user_ram_va user_va k)) w0).
  assert (idle (w_kl w1)) as Hid1 by (destruct Hid as [? ? ? []]; by split).
  pose proof (idle_torn w1 Hid1) as Hagain. rewrite (ready_off w1 eq_refl) in Hagain.
  exists w1. split; [|split; [exact Hid1|split; [reflexivity|split; [|exact Hagain]]]].
  - unfold co_kload_begin. rewrite (run_bind _ _ _ _ _ (idle_torn w Hid)). fold w0.
    assert (kload_wait_for_deferred_free sleep w0 = (Ret true, w0)) as Hwait.
    { apply mloop_leaves. unfold wait_step, kl, gets, mbind, M_bind. cbn. by rewrite Hp. }
    rewrite (run_bind _ _ _ _ _ Hwait), (run_bind _ _ w0 tt w0) by done.
    rewrite (proj2 (Z.eqb_neq user_va 0)), (proj2 (Z.eqb_neq user_bytes 0)) by done.
    rewrite Ho. rewrite (run_bind _ _ w0 tt w1) by done.
    unfold fail_if. by rewrite Href.
  - unfold co_kload_user_backed, kl, gets. cbn.
    by rewrite (proj2 (Z.eqb_neq user_va 0)).
Qed.
End teardown.
