(* ===== verification/Loading.v ===== *)
(** Loading a guest: [co_kload_build_ram] and [co_kload_chunk] on a loaded
    address space.

    Growth and stores into data pages leave the tables alone; the direct map
    and the image range are then followed page by page. *)
From S2P Require Import Prelude.
From S2P Require Import Rc.
From S2P Require Import Mem.
From S2P Require Import Mmu.
From S2P Require Import Space.
From S2P Require Import Host.
From S2P Require Import Frames.
From S2P Require Import FramesOk.
From S2P Require Import Grow.
From S2P Require Import Kload.
From S2P Require Import KloadSpace.
From S2P Require Import GuestAccess.
From S2P Require Import Loaded.

Section loading.
Context {OS : Type} `{HostLaws OS}.
Implicit Types (o : OS) (k : kload_statics) (w : world OS).

(** ** Growth under a loaded space *)

Lemma grown_fields w w' : grown w w' ->
  kload_table_start (w_kl w') = kload_table_start (w_kl w) /\
  kload_table_end (w_kl w') = kload_table_end (w_kl w) /\
  kload_table_top (w_kl w') = kload_table_top (w_kl w) /\
  kload_space (w_kl w') = kload_space (w_kl w) /\
  kload_p2m_capacity (w_kl w') = kload_p2m_capacity (w_kl w) /\
  kload_ram_ready (w_kl w') = kload_ram_ready (w_kl w) /\ w_hooks w' = w_hooks w.
Proof using. intros Hg. rewrite (gr_frame _ _ Hg). by destruct w as [? ? []]. Qed.

Lemma blocks_exist o k :
  frames_ok o k -> 0 < kload_backed_pages k <-> 0 < kload_block_count k.
Proof using.
  intros Hok. pose proof (fo_count _ _ Hok). pose proof (ti_top _ _ _ (fo_tiles _ _ Hok)) as Ht.
  change CO_ARCH_PAGE_SIZE with 4096 in Ht.
  destruct (decide (kload_block_count k = 0)) as [He|Hne]; [lia|].
  destruct (ti_ok _ _ _ (fo_tiles _ _ Hok) (kload_block_count k - 1) ltac:(lia))
    as [_ [_ Hb] [_ [Hz _]]]. lia.
Qed.

Lemma grown_inv w w' : kload_inv w -> grown w w' -> kload_inv w'.
Proof using.
  intros (Hok & [Hc Hs Ht Ha He] & Hh) Hg.
  destruct (grown_fields _ _ Hg) as (E1 & E2 & E3 & _ & _ & _ & E4).
  split; [apply (gr_ok _ _ Hg)|]. split; [|congruence]. pose proof (gr_le _ _ Hg).
  split; rewrite ?E1, ?E2, ?E3; try done.
  - apply (blocks_exist _ _ (gr_ok _ _ Hg)). apply (blocks_exist _ _ Hok) in Hc. lia.
  - change CO_ARCH_PAGE_SIZE with 4096 in *. lia.
Qed.

Lemma grown_entry w w' mfn i :
  kload_inv w -> grown w w' -> table_used w mfn -> 0 <= i < 512 ->
  entry_at w' mfn i = entry_at w mfn i.
Proof using.
  intros Hi Hg Hu Hir. destruct (table_used_page _ _ Hi Hu) as (p & a & Hp & _ & <- & Ha).
  pose proof (proj1 Hi) as Hok. pose proof (page_va_backed _ _ _ _ Hok Ha) as Hb.
  unfold entry_at. cbn. rewrite (frame_at_page w p a) by done.
  rewrite <- (gr_keep _ _ Hg p) by lia.
  rewrite (frame_at_page w' p a (gr_ok _ _ Hg) (gr_va _ _ Hg _ _ Ha)). cbn. f_equal.
  apply load_u64_ext. intros x Hx. unfold load. f_equal.
  apply (gr_old _ _ Hg p a); [done|]. change CO_ARCH_PAGE_SIZE with 4096. lia.
Qed.

Lemma grown_used w w' mfn : kload_inv w -> grown w w' -> table_used w mfn -> table_used w' mfn.
Proof using.
  intros (Hok & [_ _ _ _ He] & _) Hg (q & Hq1 & Hq2 & Hq3).
  destruct (grown_fields _ _ Hg) as (_ & E2 & E3 & _).
  exists q. rewrite E2, E3. split_and!; [done|done|]. rewrite <- Hq3.
  apply (gr_keep _ _ Hg). left. change CO_ARCH_PAGE_SIZE with 4096 in *. lia.
Qed.

(** Growing RAM keeps the space and every translation. *)
Lemma grown_loaded w w' s T :
  loaded w s T -> grown w w' ->
  loaded w' s T /\ forall va, translate 3 w' (pml4_pfn s) va = translate 3 w (pml4_pfn s) va.
Proof using.
  intros [(Hi & HT & Hc) Hs] Hg. cbn in Hi.
  assert (forall p l i, T !! p = Some l -> 0 <= i < 512 -> entry_at w' p i = entry_at w p i)
    as Hent.
  { intros p l i Hp Hir. apply grown_entry; try done. apply (tree_used _ _ _ HT p l Hp). }
  split.
  - split; [|by rewrite (proj1 (proj2 (proj2 (proj2 (grown_fields _ _ Hg)))))].
    split_and!; [by eapply grown_inv| |done]. eapply tree_agree; [done| |].
    + intros p l i Hp _ Hir. by eapply Hent.
    + intros p. by apply grown_used.
  - intros va. apply (translate_miss w w' (pml4_pfn s) T 3 (pml4_pfn s) va 0 (-1));
      [done| |lia|exact (tree_root _ _ _ HT)|intros Hh%hits_index; lia].
    intros p l i Hp Hir _. by eapply Hent.
Qed.
(** ** Bookkeeping on a loaded space *)

Lemma loaded_neutral w s T f :
  neutral f -> (forall k, kload_space (f k) = kload_space k) -> loaded w s T ->
  loaded (upd_kl f w) s T /\
  forall va, translate 3 (upd_kl f w) (pml4_pfn s) va = translate 3 w (pml4_pfn s) va.
Proof using.
  intros Hf Hsp [Hok Hs]. pose proof (bookkept_upd w f Hf) as Hb. split.
  - split; [exact (bookkept_ok _ _ _ _ Hb Hok)|]. cbn. by rewrite Hsp.
  - intros va. exact (bookkept_translate 3 _ _ _ _ (proj1 Hok) Hb).
Qed.

Lemma loaded_frames w s T : loaded w s T -> frames_ok (w_os w) (w_kl w).
Proof using. intros Hl. apply (loaded_inv _ _ _ Hl). Qed.

(** ** The direct map *)

Definition direct_va (p : Z) : Z := CO_ARCH_DIRECT_MAP + p * CO_ARCH_PAGE_SIZE.

Lemma direct_va_range p : 0 <= p < 2 ^ 31 ->
  0 <= direct_va p < 2 ^ 64 /\ direct_va p / CO_ARCH_PAGE_SIZE = 0xffff888000000 + p /\
  CO_ARCH_VA_CANONICAL (direct_va p) = true.
Proof using.
  intros Hp. unfold direct_va, CO_ARCH_VA_CANONICAL, CO_ARCH_DIRECT_MAP.
  change CO_ARCH_PAGE_SIZE with 4096. rewrite !Z.shiftr_div_pow2 by lia.
  split_and!; [lia|lia|Z.div_mod_to_equations; lia|].
  rewrite (proj2 (Z.eqb_eq _ 0x1ffff)); [by rewrite orb_true_r|].
  Z.div_mod_to_equations; lia.
Qed.

(** Not one of the first [n] pages of the direct map. *)
Definition off_direct (n : Z) (va : Z) : Prop :=
  forall p, 0 <= p < n -> va / CO_ARCH_PAGE_SIZE <> direct_va p / CO_ARCH_PAGE_SIZE.

(** The first [i] pages of RAM are in the direct map, seen from [root]. *)
Record direct_upto w0 (root i : Z) w s T : Prop := {
  du_loaded : loaded w s T;
  du_root : pml4_pfn s = root;
  du_step : map_step w0 w;
  du_pages : kload_ram_pages (w_kl w) = i;
  du_ready : kload_ram_ready (w_kl w) = false;
  du_in p : 0 <= p < i ->
    translate 3 w root (direct_va p) = Some (p2m_at (w_kl w) p * CO_ARCH_PAGE_SIZE);
  du_out va : 0 <= va < 2 ^ 64 -> CO_ARCH_VA_CANONICAL va = true -> off_direct i va ->
    translate 3 w root va = translate 3 w0 root va;
}.

(** Where a build stops: the space is there, the RAM not offered. *)
Definition build_stopped (root : Z) w : Prop :=
  kload_ram_ready (w_kl w) = false /\ exists s T, loaded w s T /\ pml4_pfn s = root.

Lemma wp_direct_map_page w0 root i w s T :
  direct_upto w0 root i w s T -> 0 <= i < kload_backed_pages (w_kl w0) ->
  wp (direct_map_page i) (fun _ w' => exists s' T', direct_upto w0 root (i + 1) w' s' T')
    (fun _ => build_stopped root) w.
Proof using.
  intros [Hl Hr Hst Hp Hrd Hin Hout] Hi. pose proof (loaded_frames _ _ _ Hl) as Hok.
  destruct (layout_fields _ _ (ms_layout _ _ Hst)) as (_ & _ & Eb & _ & _ & _ & Ec).
  pose proof (slots_bound _ (fo_tables _ _ Hok)) as [Hcap _].
  pose proof (fo_backed _ _ Hok) as Hbk. pose proof (to_cap _ (fo_tables _ _ Hok)) as Hcells.
  rewrite <- Eb in Hi. destruct (direct_va_range i ltac:(lia)) as (Hva & Hpg & Hcan).
  pose proof (p2m_range _ _ i Hok Hi) as Hm.
  unfold direct_map_page, kset. wp_step.
  apply (wp_p2m_get (w_kl w)); [done|apply Hok|lia|].
  rewrite (bytes_of_small i) by lia. fold (direct_va i). rewrite (u64_small (direct_va i)) by lia.
  assert (bytes_of (p2m_at (w_kl w) i) = p2m_at (w_kl w) i * CO_ARCH_PAGE_SIZE) as ->.
  { unfold bytes_of. rewrite Z.shiftl_mul_pow2 by done. apply u64_small.
    change CO_ARCH_PAGE_SIZE with 4096. lia. }
  wp_step. eapply wp_mono; [apply (wp_on_space_map w s T); [done|lia| |apply direct_leaf_flags]|..].
  - change CO_ARCH_PAGE_SIZE with 4096. lia.
  - intros [] w1 (Hst1 & (s0 & h & t & Hk) & s1 & T1 & Hl1 & Hr1 & Htr & Hoth).
    apply wp_modify.
    assert (neutral (fun k => set_ram_pages (ulong (kload_ram_pages k + 1)) k)) as Hne by done.
    destruct (loaded_neutral w1 s1 T1 _ Hne (fun k => eq_refl) Hl1) as [Hl2 Htr2].
    assert (forall p, p2m_at (w_kl w1) p = p2m_at (w_kl w) p) as Hp2m
      by (by apply layout_fields, Hst1).
    rewrite Hr in *. exists s1, T1. split; [done|congruence| | | | |].
    + eapply map_step_trans; [exact Hst|]. eapply map_step_trans; [exact Hst1|].
      exact (bookkept_map_step _ _ (bookkept_upd w1 _ Hne)).
    + cbn. rewrite Hk. cbn. rewrite Hp. apply u32_small. lia.
    + cbn. by rewrite Hk.
    + intros p Hpi. rewrite Hr1 in Htr2. rewrite Htr2. cbn [w_kl upd_kl set_kl].
      rewrite (p2m_at_core _ _ p (Hne (w_kl w1))), Hp2m.
      destruct (decide (p = i)) as [->|Hne'].
      * rewrite Htr. f_equal. rewrite Z.mod_mul by done. lia.
      * destruct (direct_va_range p ltac:(lia)) as (Hva' & Hpg' & Hcan').
        rewrite Hoth by (done || lia). apply Hin. lia.
    + intros va Hvr Hvc Hoff. rewrite Hr1 in Htr2. rewrite Htr2, Hoth; [|done|done|].
      * apply Hout; [done|done|]. intros p Hpi. apply Hoff. lia.
      * apply Hoff. lia.
  - intros rc w1 (Hst1 & (s0 & h & t & Hk) & s1 & T1 & Hl1 & Hr1 & _).
    split; [by rewrite Hk|]. exists s1, T1. split; [done|congruence].
Qed.
(** What a build achieves over the state it started from. *)
Record built w0 (root : Z) w : Prop := {
  bu_ready : kload_ram_ready (w_kl w) = true;
  bu_pages : kload_ram_pages (w_kl w) = kload_backed_pages (w_kl w);
  bu_le : kload_backed_pages (w_kl w0) <= kload_backed_pages (w_kl w);
  bu_loaded : exists s T, loaded w s T /\ pml4_pfn s = root;
  bu_in p : 0 <= p < kload_backed_pages (w_kl w) ->
    translate 3 w root (direct_va p) = Some (p2m_at (w_kl w) p * CO_ARCH_PAGE_SIZE);
  bu_out va : 0 <= va < 2 ^ 64 -> CO_ARCH_VA_CANONICAL va = true ->
    off_direct (kload_backed_pages (w_kl w)) va ->
    translate 3 w root va = translate 3 w0 root va;
  bu_mem p a x : page_va (w_kl w0) p a -> p * CO_ARCH_PAGE_SIZE < kload_table_start (w_kl w0) ->
    a <= x < a + CO_ARCH_PAGE_SIZE -> w_mem w x = w_mem w0 x;
}.

Lemma neutral_kva f w : neutral f -> (forall k, kload_space (f k) = kload_space k) ->
  (forall k, kload_ram_ready (f k) = false) -> forall s T, loaded w s T ->
  build_stopped (pml4_pfn s) (upd_kl f w).
Proof using.
  intros Hf Hs Hr s T Hl. split; [apply Hr|].
  exists s, T. split; [by apply loaded_neutral|done].
Qed.

Lemma wp_direct_map w0 root w s T :
  direct_upto w0 root 0 w s T ->
  wp (mfor (Z.to_nat (kload_backed_pages (w_kl w0))) 0 direct_map_page)
    (fun _ w' => exists s' T', direct_upto w0 root (kload_backed_pages (w_kl w0)) w' s' T')
    (fun _ => build_stopped root) w.
Proof using.
  intros Hd. pose proof (loaded_frames _ _ _ (du_loaded _ _ _ _ _ _ Hd)) as Hok.
  pose proof (layout_fields _ _ (ms_layout _ _ (du_step _ _ _ _ _ _ Hd))) as (_ & _ & Eb & _).
  pose proof (fo_backed _ _ Hok) as Hb. rewrite Eb in Hb.
  apply (wp_mfor _ (fun i w' => exists s' T', direct_upto w0 root i w' s' T')).
  - intros i w' Hi (s' & T' & Hd'). eapply wp_direct_map_page; [exact Hd'|lia].
  - by exists s, T.
  - intros w' Hw'. by rewrite Z2Nat.id in Hw' by lia.
Qed.

Lemma built_from w0 root wg w s T :
  kload_inv w0 -> grown w0 wg ->
  (forall va, translate 3 wg root va = translate 3 w0 root va) ->
  direct_upto wg root (kload_backed_pages (w_kl wg)) w s T ->
  built w0 root (upd_kl (set_ram_ready true) w).
Proof using.
  intros (Hok0 & [Hc0 Hst0 Ht0 Ha0 He0] & _) Hg Htrg [Hl Hr Hst Hp Hrd Hin Hout].
  assert (neutral (set_ram_ready true)) as Hne by done.
  destruct (loaded_neutral w s T _ Hne (fun k => eq_refl) Hl) as [Hl' Htr].
  rewrite Hr in Htr.
  destruct (layout_fields _ _ (ms_layout _ _ Hst)) as (Hp2m & Hva & Eb & Ee & Es & _).
  destruct (grown_fields _ _ Hg) as (E1 & E2 & E3 & _).
  split.
  - done.
  - cbn. by rewrite Hp, Eb.
  - cbn. rewrite Eb. apply (gr_le _ _ Hg).
  - by exists s, T.
  - intros p Hpr. cbn in Hpr. rewrite Htr. cbn [w_kl upd_kl set_kl].
    rewrite (p2m_at_core _ _ p (Hne (w_kl w))). apply Hin. by rewrite <- Eb.
  - intros va H1 H2 H3. cbn in H3. rewrite Htr, <- Htrg. apply Hout; [done|done|].
    by rewrite <- Eb.
  - intros p a x Hpa Hlt Hx. cbn. rewrite <- (gr_old _ _ Hg p a x Hpa Hx).
    apply (ms_mem _ _ Hst p a x); [by apply (gr_va _ _ Hg)| |done].
    unfold table_page. rewrite E2. intros [Hge _].
    destruct (loaded_inv _ _ _ Hl) as [(_ & [_ Hs' _ _ _] & _) _]. rewrite Es, E1 in Hs'. lia.
Qed.
Lemma wp_build_ram w s T ram_bytes text_va end_va :
  loaded w s T -> 0 <= ram_bytes < 2 ^ 64 ->
  wp (co_kload_build_ram ram_bytes text_va end_va)
    (fun _ => built w (pml4_pfn s)) (fun _ => build_stopped (pml4_pfn s)) w.
Proof using.
  intros Hl Hram. unfold co_kload_build_ram, kset, kl.
  assert (neutral (set_ram_ready false)) as Hne by done.
  destruct (loaded_neutral w s T _ Hne (fun k => eq_refl) Hl) as [Hl0 Htr0].
  wp_step. apply wp_modify. set (w0 := upd_kl (set_ram_ready false) w) in *.
  assert (build_stopped (pml4_pfn s) w0) as Hstop by (split; [done|by exists s, T]).
  do 2 (wp_step; apply wp_gets). do 2 (wp_step; wp_step; [done|]).
  unfold kload_kva_pa, kl. do 2 (wp_step; apply wp_gets).
  do 2 (wp_step; apply wp_gets). wp_step. wp_step; [done|].
  wp_step. apply wp_modify.
  match goal with |- wp _ _ _ (upd_kl ?f w0) => set (w1 := upd_kl f w0);
    assert (neutral f) as Hne1 by done;
    destruct (loaded_neutral w0 s T f Hne1 (fun k => eq_refl) Hl0) as [Hl1 Htr1] end.
  fold w1 in Hl1, Htr1.
  assert (build_stopped (pml4_pfn s) w1) as Hstop1 by (split; [done|by exists s, T]).
  wp_step. apply wp_gets. wp_step. wp_step; [done|].
  wp_step. eapply wp_ret_mono; [apply wp_grow_to|].
  - by eapply loaded_frames.
  - unfold ram_target. destruct (_ <? _); [apply u64_range|].
    change (kload_table_end (w_kl w0)) with (kload_table_end (w_kl w1)).
    pose proof (loaded_frames _ _ _ Hl1) as Hok1. pose proof (fo_backed _ _ Hok1).
    pose proof (slots_bound _ (fo_tables _ _ Hok1)) as [Hcap _].
    destruct (loaded_inv _ _ _ Hl1) as [(_ & [_ ? ? _ He] & _) _].
    change CO_ARCH_PAGE_SIZE with 4096 in He. lia.
  - intros ok wg (Hg & _ & _). destruct (grown_loaded _ _ _ _ Hl1 Hg) as [Hlg Htrg].
    destruct (grown_fields _ _ Hg) as (_ & _ & _ & _ & _ & Hrg & _).
    wp_step. apply wp_modify.
    assert (neutral (set_ram_pages 0)) as Hne2 by done.
    destruct (loaded_neutral wg s T _ Hne2 (fun k => eq_refl) Hlg) as [Hl2 Htr2].
    set (w2 := upd_kl (set_ram_pages 0) wg) in *.
    wp_step. apply wp_gets. wp_step.
    change (kload_backed_pages (w_kl w2)) with (kload_backed_pages (w_kl wg)).
    eapply wp_mono; [apply (wp_direct_map wg (pml4_pfn s) w2 s T)|..].
    + split; [done|done|exact (bookkept_map_step _ _ (bookkept_upd wg _ Hne2))|done| |lia|].
      * exact Hrg.
      * intros va _ _ _. apply Htr2.
    + intros [] w3 (s' & T' & Hd). apply wp_modify.
      assert (built w1 (pml4_pfn s) (upd_kl (set_ram_ready true) w3)) as Hb
        by (eapply built_from; [apply (loaded_inv _ _ _ Hl1)|exact Hg|exact Htrg|exact Hd]).
      destruct Hb as [B1 B2 B3 B4 B5 B6 B7]. split; [exact B1|exact B2|exact B3|exact B4|exact B5| |].
      * intros va Hv1 Hv2 Hv3. rewrite (B6 va Hv1 Hv2 Hv3), Htr1. apply Htr0.
      * intros p a x Hp. apply (B7 p a x). exact Hp.
    + done.
Qed.

(** Building RAM gives the guest a linear map of all of it. When
    [co_kload_build_ram] succeeds, every byte of every backed page [p] is seen
    from the space's root at [CO_ARCH_DIRECT_MAP + p * 4096], at the kernel
    address of that very page; every other canonical address translates as
    before, the bytes of the loaded image are untouched, and only now is the
    RAM offered to user mappings. A build that fails leaves a consistent
    space with the RAM withdrawn. *)
Theorem build_ram_direct_map w s T ram_bytes text_va end_va :
  loaded w s T -> 0 <= ram_bytes < 2 ^ 64 ->
  match co_kload_build_ram ram_bytes text_va end_va w with
  | (Ret _, w') =>
      kload_ram_ready (w_kl w') = true /\
      kload_ram_pages (w_kl w') = kload_backed_pages (w_kl w') /\
      (exists s' T', loaded w' s' T' /\ pml4_pfn s' = pml4_pfn s) /\
      (forall p off, 0 <= p < kload_backed_pages (w_kl w') -> 0 <= off < CO_ARCH_PAGE_SIZE ->
         exists a, page_va (w_kl w') p a /\
           guest_ptr w' (pml4_pfn s) (direct_va p + off) = inl (a + off)) /\
      (forall va, 0 <= va < 2 ^ 64 -> CO_ARCH_VA_CANONICAL va = true ->
         off_direct (kload_backed_pages (w_kl w')) va ->
         translate 3 w' (pml4_pfn s) va = translate 3 w (pml4_pfn s) va) /\
      (forall p a x, page_va (w_kl w) p a ->
         p * CO_ARCH_PAGE_SIZE < kload_table_start (w_kl w) ->
         a <= x < a + CO_ARCH_PAGE_SIZE -> w_mem w' x = w_mem w x)
  | (Fail _, w') =>
      kload_ram_ready (w_kl w') = false /\
      exists s' T', loaded w' s' T' /\ pml4_pfn s' = pml4_pfn s
  | (Fault, _) => False
  end.
Proof using.
  intros Hl Hram. pose proof (wp_build_ram w s T ram_bytes text_va end_va Hl Hram) as Hwp.
  unfold wp in Hwp. destruct (co_kload_build_ram ram_bytes text_va end_va w) as [[[]|rc|] w'];
    [|exact Hwp|exact Hwp].
  destruct Hwp as [B1 B2 B3 (s' & T' & Hl' & Hr') B5 B6 B7].
  split; [exact B1|split; [exact B2|split; [by exists s', T'|split; [|split; [exact B6|exact B7]]]]].
  intros p off Hp Hoff. pose proof (loaded_frames _ _ _ Hl') as Hok.
  pose proof (slots_bound _ (fo_tables _ _ Hok)) as [Hcap _]. pose proof (fo_backed _ _ Hok).
  destruct (page_va_exists _ _ p Hok Hp) as [a Ha]. exists a. split; [exact Ha|].
  destruct (direct_va_range p ltac:(lia)) as (Hva & Hpg & Hcan).
  assert (direct_va p / CO_ARCH_PAGE_SIZE = (direct_va p + off) / CO_ARCH_PAGE_SIZE) as Hsame.
  { rewrite Hpg. unfold direct_va, CO_ARCH_DIRECT_MAP. change CO_ARCH_PAGE_SIZE with 4096 in *.
    Z.div_mod_to_equations; lia. }
  replace (a + off) with (a + (direct_va p + off - direct_va p)) by lia.
  apply (guest_ptr_page w' (pml4_pfn s) (direct_va p)); [exact Hsame|].
  unfold guest_ptr. rewrite Hcan, (B5 p Hp). cbn [negb].
  pose proof (p2m_range _ _ p Hok Hp). rewrite (proj2 (Z.eqb_neq _ 0))
    by (change CO_ARCH_PAGE_SIZE with 4096; lia).
  rewrite Z.shiftr_div_pow2 by done. change (2 ^ CO_ARCH_PAGE_SHIFT) with CO_ARCH_PAGE_SIZE.
  rewrite Z.div_mul by done. rewrite (frame_at_page w' p a Hok Ha). f_equal.
  unfold direct_va, CO_ARCH_DIRECT_MAP. change CO_ARCH_PAGE_SIZE with 4096.
  Z.div_mod_to_equations; lia.
Qed.
End loading.
