(* ===== verification/LoadChunk.v ===== *)
(** Loading the kernel image: [co_kload_chunk].

    The image range is a partial map from kernel addresses to bytes. A chunk
    is a total function on that map ([chunk_image]); the theorem says that the
    walk, the allocation on first touch and the copy implement it. *)
From S2P Require Import Prelude.
From S2P Require Import Rc.
From S2P Require Import Mem.
From S2P Require Import Mmu.
From S2P Require Import Space.
From S2P Require Import Host.
From S2P Require Import Frames.
From S2P Require Import FramesOk.
From S2P Require Import Grow.
From S2P Require Import Kload.
From S2P Require Import KloadSpace.
From S2P Require Import GuestAccess.
From S2P Require Import Loaded.
From S2P Require Import Loading.

Section chunk.
Context {OS : Type} `{HostLaws OS}.
Implicit Types (o : OS) (k : kload_statics) (w : world OS).

(** ** Stores into data pages *)

Lemma loaded_data w w' s T :
  loaded w s T -> data_moved w w' ->
  loaded w' s T /\ forall va, translate 3 w' (pml4_pfn s) va = translate 3 w (pml4_pfn s) va.
Proof using.
  intros [(Hi & HT & Hc) Hs] Hd. cbn in Hi. split.
  - split; [split_and!; [by eapply data_moved_inv|by eapply data_moved_tree|done]|].
    destruct Hd as [(h & _ & He) _]. rewrite <- Hs.
    change (w_kl w') with (w_kl (set_mem (w_mem w) w')). by rewrite He.
  - intros va. apply (translate_miss w w' (pml4_pfn s) T 3 (pml4_pfn s) va 0 (-1));
      [done| |lia|exact (tree_root _ _ _ HT)|intros Hh%hits_index; lia].
    intros p l i Hp Hir _. apply data_moved_entry; try done. apply (tree_used _ _ _ HT p l Hp).
Qed.

Lemma hit_data w w' : hit_moved w w' -> data_moved w w'.
Proof using.
  intros (h & Hh & ->). split; [|done]. exists h. split; [done|]. by destruct w.
Qed.

(** The walk of the loader, by its answer. *)
Lemma wp_lookup_space w s T va (Q : co_rc_value_t * Z -> world OS -> Prop) E :
  loaded w s T -> CO_ARCH_VA_CANONICAL va = true ->
  (forall w', hit_moved w w' ->
     Q (match translate 3 w (pml4_pfn s) va with
        | Some pa => (CO_RC_OK, pa) | None => (CO_RC_NOT_FOUND, 0) end) w') ->
  wp (lookup_space va) Q E w.
Proof using.
  intros Hl Hcan HQ. destruct (loaded_inv _ _ _ Hl) as [Hi HT].
  pose proof (wp_guest_lookup_root w (pml4_pfn s) T va Hi HT Hcan) as Hwp.
  unfold wp, lookup_space, kl, gets, mbind, M_bind, co_arch_guest_lookup in *. cbn.
  rewrite (ld_space _ _ _ Hl).
  destruct (co_arch_guest_lookup_root (pml4_pfn s) va w) as [[[[rc pa] lv]|rc|] w'];
    [|done..].
  destruct Hwp as [Hsame Hans]. cbn.
  assert (hit_moved w w') as Hm by apply Hsame.
  unfold lookup_answers in Hans. specialize (HQ w' Hm).
  destruct (translate 3 w (pml4_pfn s) va); cbn in Hans; destruct_hyps; by subst.
Qed.

(** ** The image range *)

Definition kernel_va (q : Z) : Z := CO_ARCH_KERNEL_MAP + q * CO_ARCH_PAGE_SIZE.

(** Page [q] lies below the page tables. *)
Definition image_page k q : Prop :=
  0 <= q /\ (q + 1) * CO_ARCH_PAGE_SIZE <= kload_table_start k.

(** Every page of the image range is unmapped, or mapped to the pseudo page
    its address implies. *)
Record image_ok w (root : Z) : Prop := {
  im_phys : kload_phys_base (w_kl w) = 0;
  im_bound : kload_table_start (w_kl w) <= 2 ^ 31;
  im_pages q : image_page (w_kl w) q ->
    translate 3 w root (kernel_va q) = None \/
    translate 3 w root (kernel_va q) = Some (p2m_at (w_kl w) q * CO_ARCH_PAGE_SIZE);
}.

Lemma kernel_va_range q off :
  0 <= q -> (q + 1) * CO_ARCH_PAGE_SIZE <= 2 ^ 31 -> 0 <= off < CO_ARCH_PAGE_SIZE ->
  0 <= kernel_va q + off < 2 ^ 64 /\
  (kernel_va q + off) / CO_ARCH_PAGE_SIZE = 0xffffffff80000 + q /\
  (kernel_va q + off) mod CO_ARCH_PAGE_SIZE = off /\
  CO_ARCH_VA_CANONICAL (kernel_va q + off) = true.
Proof using.
  unfold kernel_va, CO_ARCH_VA_CANONICAL, CO_ARCH_KERNEL_MAP.
  change CO_ARCH_PAGE_SIZE with 4096. rewrite !Z.shiftr_div_pow2 by lia. intros Hq Hb Ho.
  split_and!; [lia|lia|Z.div_mod_to_equations; lia|Z.div_mod_to_equations; lia|].
  rewrite (proj2 (Z.eqb_eq _ 0x1ffff)); [by rewrite orb_true_r|].
  Z.div_mod_to_equations; lia.
Qed.

(** An image page is RAM, and no table. *)
Lemma image_page_data w q :
  kload_inv w -> image_page (w_kl w) q ->
  0 <= q < kload_backed_pages (w_kl w) /\
  forall t, kload_table_start (w_kl w) <= t -> ~ table_page (w_kl w) t q.
Proof using.
  intros (Hok & [_ Hs Ht _ He] & _) [Hq Hqs]. unfold table_page.
  change CO_ARCH_PAGE_SIZE with 4096 in *. split; [lia|]. intros t Htt. lia.
Qed.

(** The byte the guest sees at an address, if the page is there. *)
Definition image_byte w root va : option Z :=
  match guest_ptr w root va with inl p => Some (load (w_mem w) p) | inr _ => None end.

Lemma image_ptr w root q a off :
  kload_inv w -> image_ok w root -> image_page (w_kl w) q -> page_va (w_kl w) q a ->
  0 <= off < CO_ARCH_PAGE_SIZE ->
  guest_ptr w root (kernel_va q + off) =
    match translate 3 w root (kernel_va q) with
    | Some _ => inl (a + off) | None => inr CO_RC_NOT_FOUND end.
Proof using.
  intros Hi Him Hq Ha Hoff. pose proof (im_bound _ _ Him).
  destruct (kernel_va_range q off) as (_ & Hpg & Hm & Hc); [apply Hq|destruct Hq; lia|done|].
  destruct (kernel_va_range q 0) as (_ & Hpg0 & _); [apply Hq|destruct Hq; lia|done|].
  unfold guest_ptr. rewrite Hc. cbn [negb].
  rewrite (translate_page 3 w root (kernel_va q + off) (kernel_va q)) by
    (lia || (rewrite Z.add_0_r in Hpg0; lia)).
  pose proof (p2m_range _ _ q (proj1 Hi) (proj1 (image_page_data w q Hi Hq))) as Hr.
  destruct (im_pages _ _ Him q Hq) as [->|Heq]; [done|]. rewrite Heq.
  rewrite (proj2 (Z.eqb_neq _ 0)) by (change CO_ARCH_PAGE_SIZE with 4096; lia).
  rewrite Z.shiftr_div_pow2 by done. change (2 ^ CO_ARCH_PAGE_SHIFT) with CO_ARCH_PAGE_SIZE.
  rewrite Z.div_mul by done. rewrite (frame_at_page w q a (proj1 Hi) Ha). by rewrite Hm.
Qed.
(** ** The page of an address *)

(** A consistent space whose image range is what it should be. *)
Definition image_loaded (root : Z) w : Prop :=
  image_ok w root /\ exists s T, loaded w s T /\ pml4_pfn s = root.

(** Page [q] is there now; whatever was mapped is untouched. *)
Record touched w (root q : Z) w' : Prop := {
  to_image : image_loaded root w';
  to_layout : layout (w_kl w') = layout (w_kl w);
  to_map : translate 3 w' root (kernel_va q) = Some (p2m_at (w_kl w) q * CO_ARCH_PAGE_SIZE);
  to_other q' : image_page (w_kl w) q' -> q' <> q ->
    translate 3 w' root (kernel_va q') = translate 3 w root (kernel_va q');
  to_mem q' a x : image_page (w_kl w) q' -> page_va (w_kl w) q' a ->
    a <= x < a + CO_ARCH_PAGE_SIZE ->
    w_mem w' x = if decide (q' = q /\ translate 3 w root (kernel_va q) = None)
                 then 0 else w_mem w x;
}.

Lemma layout_image_page k k' q : layout k' = layout k -> image_page k' q <-> image_page k q.
Proof using.
  intros Hl. destruct (layout_fields _ _ Hl) as (_ & _ & _ & _ & Es & _).
  unfold image_page. by rewrite Es.
Qed.

Lemma image_ok_keep w w' root :
  layout (w_kl w') = layout (w_kl w) -> kload_phys_base (w_kl w') = kload_phys_base (w_kl w) ->
  image_ok w root ->
  (forall q, image_page (w_kl w) q ->
     translate 3 w' root (kernel_va q) = translate 3 w root (kernel_va q) \/
     translate 3 w' root (kernel_va q) = Some (p2m_at (w_kl w) q * CO_ARCH_PAGE_SIZE)) ->
  image_ok w' root.
Proof using.
  intros Hl Hph [Hp Hb Hq] Htr.
  destruct (layout_fields _ _ Hl) as (Hp2m & _ & _ & _ & Es & _).
  split; [congruence|by rewrite Es|]. intros q Hi. apply (layout_image_page _ _ _ Hl) in Hi.
  rewrite Hp2m. destruct (Htr q Hi) as [->| ->]; [by apply Hq|by right].
Qed.

Lemma data_layout w w' :
  data_moved w w' -> layout (w_kl w') = layout (w_kl w) /\
    kload_phys_base (w_kl w') = kload_phys_base (w_kl w) /\
    kload_table_start (w_kl w') = kload_table_start (w_kl w).
Proof using.
  intros [(h & _ & He) _]. change (w_kl w') with (w_kl (set_mem (w_mem w) w')). rewrite He. done.
Qed.

Lemma image_loaded_data root w w' :
  image_loaded root w -> data_moved w w' -> image_loaded root w'.
Proof using.
  intros (Him & s & T & Hl & <-) Hd. destruct (loaded_data _ _ _ _ Hl Hd) as [Hl' Htr].
  destruct (data_layout _ _ Hd) as (Hly & Hph & _).
  split; [|by exists s, T]. apply (image_ok_keep w); try done. intros q _. left. apply Htr.
Qed.

(** Zeroing an image page touches no table. *)
Lemma memset_data w q a :
  kload_inv w -> image_page (w_kl w) q -> page_va (w_kl w) q a ->
  data_moved w (upd_mem (fun m => co_memset m a 0 CO_ARCH_PAGE_SIZE) w).
Proof using.
  intros Hi Hq Ha. split.
  { destruct w as [m o k]. apply (hit_moved_refl (World m o k _ _ _ _ _ _)). apply Hi. }
  intros p b x Hp Ht Hx. cbn. unfold co_memset. rewrite decide_False; [done|]. intros Hin.
  destruct (image_page_data w q Hi Hq) as [_ Hnt]. destruct Hi as (Hok & [_ Hs _ _ _] & _).
  assert (p <> q) as Hne by (intros ->; by apply (Hnt _ (proj2 Hs))).
  destruct (pages_apart _ _ _ _ _ _ Hok Hp Ha Hne); lia.
Qed.
Lemma touched_hit w root q w' :
  image_loaded root w -> image_page (w_kl w) q -> hit_moved w w' ->
  translate 3 w root (kernel_va q) = Some (p2m_at (w_kl w) q * CO_ARCH_PAGE_SIZE) ->
  touched w root q w'.
Proof using.
  intros Hl Hq Hm Htr. pose proof (hit_data _ _ Hm) as Hd.
  destruct Hl as (Him & s & T & Hl & <-). destruct (loaded_data _ _ _ _ Hl Hd) as [Hl' Htr'].
  split; [by apply (image_loaded_data _ w); [split; [done|by exists s, T]|]
         |by apply data_layout|by rewrite Htr'|intros; apply Htr'|].
  intros q' a x _ _ _. rewrite Htr, decide_False by (by intros [_ ?]).
  by destruct Hm as (h & _ & ->).
Qed.

(** What the first touch of a page does once its frame is known. *)
Lemma wp_first_touch w s T q a :
  loaded w s T -> image_ok w (pml4_pfn s) -> image_page (w_kl w) q -> page_va (w_kl w) q a ->
  translate 3 w (pml4_pfn s) (kernel_va q) = None ->
  wp (modify (upd_mem (fun m => co_memset m a 0 CO_ARCH_PAGE_SIZE)) ;;
      on_space (co_arch_guest_map (kernel_va q) (bytes_of (p2m_at (w_kl w) q)) KERNPG_TABLE) ;;
      kset (fun k => set_pages (ulong (kload_pages k + 1)) k) ;;
      mret (p2m_at (w_kl w) q))
    (fun mfn w' => mfn = p2m_at (w_kl w) q /\ touched w (pml4_pfn s) q w')
    (fun _ => image_loaded (pml4_pfn s)) w.
Proof using.
  intros Hl Him Hq Ha Hnone. destruct (loaded_inv _ _ _ Hl) as [Hi _].
  pose proof (memset_data _ _ _ Hi Hq Ha) as Hd.
  destruct (loaded_data _ _ _ _ Hl Hd) as [Hl1 Htr1].
  wp_step. apply wp_modify. set (w1 := upd_mem _ w) in *.
  pose proof (im_bound _ _ Him) as Hb.
  destruct (kernel_va_range q 0) as (Hr & Hpg & _ & Hcan); [apply Hq|destruct Hq; lia|done|].
  rewrite Z.add_0_r in Hr, Hpg, Hcan.
  pose proof (p2m_range _ _ q (proj1 Hi) (proj1 (image_page_data w q Hi Hq))) as Hm.
  assert (bytes_of (p2m_at (w_kl w) q) = p2m_at (w_kl w) q * CO_ARCH_PAGE_SIZE) as ->.
  { unfold bytes_of. rewrite Z.shiftl_mul_pow2 by done. apply u64_small.
    change CO_ARCH_PAGE_SIZE with 4096. lia. }
  assert (forall w', image_loaded (pml4_pfn s) w' -> image_loaded (pml4_pfn s)
            (upd_kl (fun k => set_pages (ulong (kload_pages k + 1)) k) w')) as Hcount.
  { intros w' (Him' & s' & T' & Hl' & Hr').
    destruct (loaded_neutral w' s' T' (fun k => set_pages (ulong (kload_pages k + 1)) k)
                (fun k => eq_refl) (fun k => eq_refl) Hl') as [Hl2 Htr2]. rewrite Hr' in Htr2.
    split; [|by exists s', T']. apply (image_ok_keep w'); [done|done|done|].
    intros p _. left. apply Htr2. }
  assert (forall w' tr, remapped w1 s w' (fun f => tr f) ->
            (forall p, image_page (w_kl w1) p -> tr (translate 3 w' (pml4_pfn s)) ->
               translate 3 w' (pml4_pfn s) (kernel_va p) = translate 3 w1 (pml4_pfn s) (kernel_va p) \/
               translate 3 w' (pml4_pfn s) (kernel_va p)
                 = Some (p2m_at (w_kl w1) p * CO_ARCH_PAGE_SIZE)) ->
            image_loaded (pml4_pfn s) w') as Hmapped.
  { intros w' tr (Hst & (s0 & h & t & Hk) & s' & T' & Hl' & Hr' & Htr) Hp.
    split; [|by exists s', T']. apply (image_ok_keep w1); [apply (ms_layout _ _ Hst)|by rewrite Hk| |].
    - by apply (image_loaded_data (pml4_pfn s) w w1); [split; [done|by exists s, T]|].
    - intros p Hpi. by apply Hp. }
  wp_step. eapply wp_mono; [apply (wp_on_space_map w1 s T _ _ _ Hl1 Hr)|..].
  - change CO_ARCH_PAGE_SIZE with 4096. lia.
  - apply kernpg_leaf_flags.
  - intros [] w2 Hre. wp_step. apply wp_modify, wp_ret. split; [done|].
    rewrite Z.mod_mul, Z.sub_0_r in Hre by done.
    assert (image_loaded (pml4_pfn s) w2) as Hil2.
    { apply (Hmapped w2 _ Hre). intros p Hp [Htr Hoth].
      destruct (decide (p = q)) as [->|Hne]; [by right|left].
      destruct (kernel_va_range p 0) as (Hrp & Hpgp & _ & Hcp);
        [apply Hp|change (image_page (w_kl w) p) in Hp; destruct Hp; lia|done|].
      rewrite Z.add_0_r in Hrp, Hpgp, Hcp. apply Hoth; [done|done|lia]. }
    destruct Hre as (Hst & _ & s' & T' & Hl' & Hr' & Htr & Hoth).
    destruct (loaded_neutral w2 s' T' (fun k => set_pages (ulong (kload_pages k + 1)) k)
                (fun k => eq_refl) (fun k => eq_refl) Hl') as [Hl3 Htr3]. rewrite Hr' in Htr3.
    split; [by apply Hcount|apply (ms_layout _ _ Hst)|by rewrite Htr3| |].
    + intros p Hp Hne.
      destruct (kernel_va_range p 0) as (Hrp & Hpgp & _ & Hcp); [apply Hp|destruct Hp; lia|done|].
      rewrite Z.add_0_r in Hrp, Hpgp, Hcp. rewrite Htr3, Hoth by (done || lia). apply Htr1.
    + intros p b x Hp Hb' Hx. cbn.
      destruct (image_page_data w p Hi Hp) as [_ Hnt].
      rewrite (ms_mem _ _ Hst p b x Hb'); [| |done].
      * cbn. unfold co_memset. destruct (decide (p = q)) as [->|Hne].
        -- rewrite (page_va_fun _ _ _ _ _ (proj1 Hi) Hb' Ha) in Hx.
           by rewrite !decide_True by done.
        -- rewrite (decide_False (P := p = q /\ _)) by (by intros [? _]).
           destruct (pages_apart _ _ _ _ _ _ (proj1 Hi) Hb' Ha Hne);
             by rewrite decide_False by lia.
      * apply Hnt. destruct (loaded_inv _ _ _ Hl') as [(_ & [_ Hs2 _ _ _] & _) _].
        destruct (layout_fields _ _ (ms_layout _ _ Hst)) as (_ & _ & _ & _ & Es & _).
        rewrite Es in Hs2. apply Hs2.
  - intros rc w2 Hre. apply (Hmapped w2 _ Hre). intros p Hp Htr. by left.
Qed.
Lemma page_start q off :
  0 <= q -> (q + 1) * CO_ARCH_PAGE_SIZE <= 2 ^ 31 -> 0 <= off < CO_ARCH_PAGE_SIZE ->
  Z.land (kernel_va q + off) CO_ARCH_PAGE_MASK = kernel_va q.
Proof using.
  intros Hq Hb Ho. destruct (kernel_va_range q off Hq Hb Ho) as (Hr & _ & Hm & _).
  rewrite land_page_mask by done. change (2 ^ 12) with CO_ARCH_PAGE_SIZE. lia.
Qed.

Lemma wp_page_for w root q off :
  image_loaded root w -> image_page (w_kl w) q -> 0 <= off < CO_ARCH_PAGE_SIZE ->
  wp (kload_page_for (kernel_va q + off))
    (fun mfn w' => mfn = p2m_at (w_kl w) q /\ touched w root q w')
    (fun _ => image_loaded root) w.
Proof using.
  intros Hil Hq Hoff. pose proof Hil as (Him & s & T & Hl & <-).
  destruct (loaded_inv _ _ _ Hl) as [Hi _]. pose proof (im_bound _ _ Him) as Hb.
  assert ((q + 1) * CO_ARCH_PAGE_SIZE <= 2 ^ 31) as Hqb by (destruct Hq; lia).
  destruct (kernel_va_range q 0 (proj1 Hq) Hqb) as (_ & _ & _ & Hcan); [done|].
  rewrite Z.add_0_r in Hcan. destruct (image_page_data w q Hi Hq) as [Hbk _].
  pose proof (p2m_range _ _ q (proj1 Hi) Hbk) as Hm.
  unfold kload_page_for. rewrite page_start by (done || apply Hq). wp_step.
  apply (wp_lookup_space w s T); [done|done|]. intros w1 Hm1.
  pose proof (image_loaded_data _ _ _ Hil (hit_data _ _ Hm1)) as Hil1.
  destruct (im_pages _ _ Him q Hq) as [Hnone|Hsome].
  2: { rewrite Hsome. cbn [fst snd]. rewrite (proj2 (Z.eqb_neq _ 0))
         by (change CO_ARCH_PAGE_SIZE with 4096; lia).
       apply wp_ret. rewrite Z.shiftr_div_pow2 by done.
       change (2 ^ CO_ARCH_PAGE_SHIFT) with CO_ARCH_PAGE_SIZE. rewrite Z.div_mul by done.
       split; [done|]. by apply touched_hit. }
  rewrite Hnone. cbn [fst snd].
  change (CO_OK CO_RC_NOT_FOUND && negb (0 =? 0))%bool with false. cbn beta iota.
  wp_step. wp_step; [done|].
  destruct Hil1 as (Him1 & s1 & T1 & Hl1 & Hr1).
  unfold kload_kva_pa, kl. do 3 (wp_step; apply wp_gets). rewrite (im_phys _ _ Him1).
  assert (kload_table_start (w_kl w1) = kload_table_start (w_kl w)) as Es
    by (by destruct Hm1 as (h & _ & ->)).
  assert (u64 (kernel_va q - CO_ARCH_KERNEL_MAP + 0) = q * CO_ARCH_PAGE_SIZE) as ->.
  { unfold kernel_va. rewrite u64_small; [lia|]. change CO_ARCH_PAGE_SIZE with 4096 in *.
    destruct Hq. lia. }
  wp_step. wp_step; [by split; [|exists s1, T1]|].
  rewrite Z.shiftr_div_pow2 by done. change (2 ^ CO_ARCH_PAGE_SHIFT) with CO_ARCH_PAGE_SIZE.
  rewrite Z.div_mul by done. destruct (loaded_inv _ _ _ Hl1) as [Hi1 _].
  assert (hit_moved w w1) as Hmm by done.
  assert (image_page (w_kl w1) q) as Hq1 by (by destruct Hm1 as (h & _ & ->)).
  assert (forall p, p2m_at (w_kl w1) p = p2m_at (w_kl w) p) as Hp2m
    by (by destruct Hm1 as (h & _ & ->)).
  assert (kload_backed_pages (w_kl w1) = kload_backed_pages (w_kl w)) as Eb
    by (by destruct Hm1 as (h & _ & ->)).
  wp_step. eapply wp_ret_mono; [apply wp_pseudo_to_machine; [apply Hi1|lia]|].
  intros r w2 [-> ->]. rewrite Eb, Hp2m. pose proof (fo_backed _ _ (proj1 Hi1)).
  rewrite (proj2 (Z.ltb_lt q _)) by lia. rewrite (proj2 (Z.leb_gt _ q)) by lia. cbn [andb negb].
  wp_step. eapply wp_ret_mono; [apply wp_pseudo_frame_va; [apply Hi1|lia]|].
  intros [a|] w2 [Hans Hm2]; cbn in Hans; [|lia]. destruct Hans as [_ Ha].
  assert (hit_moved w w2) as Hm02 by (by eapply hit_moved_trans).
  destruct (loaded_data _ _ _ _ Hl (hit_data _ _ Hm02)) as [Hl2 Htr2].
  pose proof (image_loaded_data _ _ _ Hil (hit_data _ _ Hm02)) as [Him2 _].
  assert (image_page (w_kl w2) q /\ page_va (w_kl w2) q a /\
          p2m_at (w_kl w2) q = p2m_at (w_kl w) q) as (Hq2 & Ha2 & Hp2)
    by (destruct Hm2 as (h & _ & ->); cbn; by rewrite <- Hp2m).
  pose proof (wp_first_touch w2 s T q a Hl2 Him2 Hq2 Ha2) as Hft.
  rewrite Htr2, Hp2 in Hft. eapply wp_ret_mono; [by apply Hft|].
  intros mfn w3 [-> Ht]. split; [done|].
  destruct Ht as [Ht1 Ht2 Ht3 Ht4 Ht5]. destruct Hm02 as (h & _ & ->).
  split; [exact Ht1|exact Ht2|exact Ht3| |].
  - intros q' Hq' Hne. rewrite (Ht4 q' Hq' Hne). apply Htr2.
  - intros q' b x Hq' Hb' Hx. rewrite (Ht5 q' b x Hq' Hb' Hx). by rewrite Htr2.
Qed.
(** ** The chunk as a function on the image *)

(** [va]'s page is one of those of the first [d] bytes at [va0]. *)
Definition page_touched (va0 d va : Z) : Prop :=
  0 < d /\ va0 / CO_ARCH_PAGE_SIZE <= va / CO_ARCH_PAGE_SIZE
           <= (va0 + d - 1) / CO_ARCH_PAGE_SIZE.

#[export] Instance page_touched_dec va0 d va : Decision (page_touched va0 d va).
Proof. unfold page_touched. apply _. Defined.

(** A chunk of [d] bytes at [va0]: its pages come into being zeroed where they
    were not there, and a chunk with data overwrites its range. *)
Definition chunk_image (zero : bool) (va0 d : Z) (data : list Z) (img : Z -> option Z) (va : Z) :
    option Z :=
  if decide (page_touched va0 d va) then
    if decide (zero = false /\ va0 <= va < va0 + d) then data !! Z.to_nat (va - va0)
    else Some (default 0 (img va))
  else img va.

Lemma image_byte_touched w root q w' q' off :
  image_loaded root w -> image_page (w_kl w) q -> image_page (w_kl w) q' ->
  0 <= off < CO_ARCH_PAGE_SIZE -> touched w root q w' ->
  image_byte w' root (kernel_va q' + off) =
    if decide (q' = q) then Some (default 0 (image_byte w root (kernel_va q' + off)))
    else image_byte w root (kernel_va q' + off).
Proof using.
  intros (Him & s & T & Hl & Hr) Hq Hq' Ho [(Him' & s' & T' & Hl' & _) Hly Hmap Hoth Hmem].
  destruct (loaded_inv _ _ _ Hl) as [Hi _]. destruct (loaded_inv _ _ _ Hl') as [Hi' _].
  destruct (image_page_data w q' Hi Hq') as [Hb _].
  destruct (page_va_exists _ _ q' (proj1 Hi) Hb) as [a Ha].
  destruct (layout_fields _ _ Hly) as (_ & Hva & _).
  unfold image_byte. rewrite (image_ptr w root q' a) by done.
  rewrite (image_ptr w' root q' a) by
    (done || by apply (layout_image_page _ _ _ Hly) || by apply Hva).
  assert (a <= a + off < a + CO_ARCH_PAGE_SIZE) as Hx by lia.
  pose proof (Hmem q' a (a + off) Hq' Ha Hx) as Hm. unfold load.
  destruct (decide (q' = q)) as [->|Hne].
  - rewrite Hmap. rewrite Hm. destruct (translate 3 w root (kernel_va q)); cbn.
    + by rewrite decide_False by (by intros [_ ?]).
    + by rewrite decide_True by done.
  - rewrite (Hoth q' Hq' Hne). rewrite decide_False in Hm by (by intros [? _]).
    destruct (translate 3 w root (kernel_va q')); [|done]. by rewrite Hm.
Qed.

Lemma image_byte_store w root q a at0 bs q' off :
  image_loaded root w -> image_page (w_kl w) q -> page_va (w_kl w) q a ->
  is_Some (translate 3 w root (kernel_va q)) -> Forall is_byte bs ->
  0 <= at0 -> at0 + Z.of_nat (length bs) <= CO_ARCH_PAGE_SIZE ->
  image_page (w_kl w) q' -> 0 <= off < CO_ARCH_PAGE_SIZE ->
  let w' := set_mem (store_bytes (w_mem w) (a + at0) bs) w in
  data_moved w w' /\
  image_byte w' root (kernel_va q' + off) =
    if decide (q' = q /\ at0 <= off < at0 + Z.of_nat (length bs)) then bs !! Z.to_nat (off - at0)
    else image_byte w root (kernel_va q' + off).
Proof using.
  intros Hil Hq Ha [pa Htr] Hbs Ho Hlen Hq' Hoff w'. pose proof Hil as (Him & s & T & Hl & Hr).
  destruct (loaded_inv _ _ _ Hl) as [Hi _].
  assert (data_moved w w') as Hd.
  { apply store_in_data; [done|by apply data_moved_refl|]. intros i Hir.
    exists q, a. split; [done|]. split; [|lia].
    apply (image_page_data w q Hi Hq). apply (proj1 (proj2 Hi)). }
  split; [done|]. pose proof (image_loaded_data _ _ _ Hil Hd) as (Him' & s' & T' & Hl' & _).
  destruct (loaded_inv _ _ _ Hl') as [Hi' _].
  destruct (image_page_data w q' Hi Hq') as [Hb _].
  destruct (page_va_exists _ _ q' (proj1 Hi) Hb) as [b Hb'].
  unfold image_byte. rewrite (image_ptr w root q' b) by done.
  rewrite (image_ptr w' root q' b) by done.
  destruct (loaded_data _ _ _ _ Hl Hd) as [_ Htr']. rewrite Hr in Htr'. rewrite Htr'.
  destruct (decide (q' = q)) as [->|Hne].
  - rewrite Htr. rewrite (page_va_fun _ _ _ _ _ (proj1 Hi) Hb' Ha).
    cbn. rewrite load_store by done.
    destruct (decide (at0 <= off < at0 + Z.of_nat (length bs))) as [Hin|Hout].
    + rewrite !decide_True by (done || lia). replace (a + off - (a + at0)) with (off - at0) by lia.
      destruct (lookup_lt_is_Some_2 bs (Z.to_nat (off - at0))) as [c Hc]; [lia|]. by rewrite Hc.
    + rewrite (decide_False (P := q = q /\ _)) by (by intros [_ ?]).
      by rewrite decide_False by lia.
  - rewrite (decide_False (P := q' = q /\ _)) by (by intros [? _]).
    destruct (translate 3 w root (kernel_va q')); [|done]. cbn. rewrite load_store by done.
    destruct (pages_apart _ _ _ _ _ _ (proj1 Hi) Hb' Ha Hne); by rewrite decide_False by lia.
Qed.

Lemma image_byte_hit w w' root q off :
  image_loaded root w -> hit_moved w w' -> image_page (w_kl w) q ->
  0 <= off < CO_ARCH_PAGE_SIZE ->
  image_byte w' root (kernel_va q + off) = image_byte w root (kernel_va q + off).
Proof using.
  intros (Him & s & T & Hl & <-) Hm Hq Hoff. destruct (loaded_inv _ _ _ Hl) as [Hi HT].
  unfold image_byte. rewrite (guest_ptr_hit w w' (pml4_pfn s) _ T) by done.
  by destruct Hm as (h & _ & ->).
Qed.

(** ** One page's part of a chunk *)

(** What the part [off .. off+part) of page [q] does to the image. *)
Definition part_image (zero : bool) (q off part : Z) (rest : list Z)
    (img : Z -> Z -> option Z) (q' off' : Z) : option Z :=
  if decide (q' = q) then
    if decide (zero = false /\ off <= off' < off + part) then rest !! Z.to_nat (off' - off)
    else Some (default 0 (img q' off'))
  else img q' off'.

(** [w'] is [w] with the image [img'], and still a consistent space. *)
Record imaged w root (img' : Z -> Z -> option Z) w' : Prop := {
  ig_loaded : image_loaded root w';
  ig_layout : layout (w_kl w') = layout (w_kl w);
  ig_bytes q off : image_page (w_kl w) q -> 0 <= off < CO_ARCH_PAGE_SIZE ->
    image_byte w' root (kernel_va q + off) = img' q off;
}.

Lemma imaged_touched w root q w' off part rest :
  image_loaded root w -> image_page (w_kl w) q -> touched w root q w' ->
  imaged w root (part_image true q off part rest (fun q' x => image_byte w root (kernel_va q' + x))) w'.
Proof using.
  intros Hil Hq Ht. split; [apply Ht|apply Ht|]. intros q' x Hq' Hx.
  rewrite (image_byte_touched w root q w' q' x) by done.
  unfold part_image. destruct (decide (q' = q)); [|done].
  by rewrite decide_False by (by intros [? _]).
Qed.

Lemma wp_chunk_part w root q off part zero rest :
  image_loaded root w -> image_page (w_kl w) q -> 0 <= off -> 0 < part ->
  off + part <= CO_ARCH_PAGE_SIZE -> Forall is_byte rest ->
  (zero = false -> part <= Z.of_nat (length rest)) ->
  wp (kload_page_for (kernel_va q + off))
    (fun mfn => wp (act_chunk zero rest mfn off part) (fun rest' w' =>
        rest' = (if zero then rest else drop (Z.to_nat part) rest) /\
        imaged w root (part_image zero q off part rest
                         (fun q' x => image_byte w root (kernel_va q' + x))) w')
      (fun _ => image_loaded root))
    (fun _ => image_loaded root) w.
Proof using.
  intros Hil Hq Hoff Hpart Hfit Hby Hlen.
  eapply wp_ret_mono; [apply wp_page_for; [done|done|lia]|]. intros mfn w1 [-> Ht].
  unfold act_chunk. destruct zero.
  { apply wp_ret. split; [done|]. by apply imaged_touched. }
  destruct Hil as (Him & s & T & Hl & Hr). destruct (loaded_inv _ _ _ Hl) as [Hi HT].
  pose proof (to_image _ _ _ _ Ht) as Hil1. pose proof Hil1 as (_ & s1 & T1 & Hl1 & _).
  destruct (loaded_inv _ _ _ Hl1) as [Hi1 _].
  destruct (layout_fields _ _ (to_layout _ _ _ _ Ht)) as (Hp2m & _).
  assert (image_page (w_kl w1) q) as Hq1 by (by apply (layout_image_page _ _ _ (to_layout _ _ _ _ Ht))).
  wp_step. eapply wp_ret_mono; [apply wp_frame_va, Hi1|].
  rewrite <- Hp2m. intros [a|] w2 [Hm Hans];
    [|by destruct (Hans q (proj1 (image_page_data w1 q Hi1 Hq1)))].
  destruct Hans as (q2 & Hq2 & Heq & Ha).
  assert (q2 = q) as ->
    by (apply (p2m_inj _ _ _ _ (proj1 Hi1)); [done|apply (image_page_data w1 q Hi1 Hq1)|done]).
  unfold act_write. wp_step. apply wp_in_bounds; [apply Z.leb_le; auto|].
  wp_step. apply wp_modify, wp_ret. split; [done|].
  pose proof (to_map _ _ _ _ Ht) as Hmap.
  assert (image_loaded root w2) as Hil2
    by (apply (image_loaded_data _ _ _ Hil1 (hit_data _ _ Hm))).
  assert (is_Some (translate 3 w2 root (kernel_va q))) as Hs2.
  { destruct Hil1 as (_ & s1' & T1' & Hl1' & <-).
    destruct (loaded_data _ _ _ _ Hl1' (hit_data _ _ Hm)) as [_ ->]. by rewrite Hmap. }
  assert (layout (w_kl w2) = layout (w_kl w1)) as Hly2 by (by apply data_layout, hit_data).
  assert (image_page (w_kl w2) q) as Hq2' by (by apply (layout_image_page _ _ _ Hly2)).
  assert (page_va (w_kl w2) q a) as Ha2 by (by destruct Hm as (h & _ & ->)).
  set (bs := take (Z.to_nat part) rest).
  assert (length bs = Z.to_nat part) as Hbs
    by (unfold bs; rewrite length_take; specialize (Hlen eq_refl); lia).
  assert (Forall is_byte bs) as Hbb by (by apply Forall_take).
  pose proof (fun q' x Hq' Hx => image_byte_store w2 root q a off bs q' x Hil2 Hq2' Ha2 Hs2 Hbb
                ltac:(lia) ltac:(lia) Hq' Hx) as Hst. cbn zeta in Hst.
  split.
  - destruct (Hst q 0 Hq2' ltac:(split; done)) as [Hd _]. by apply (image_loaded_data _ _ _ Hil2 Hd).
  - destruct (Hst q 0 Hq2' ltac:(split; done)) as [Hd _].
    exact (eq_trans (proj1 (data_layout _ _ Hd)) (eq_trans Hly2 (to_layout _ _ _ _ Ht))).
  - intros q' x Hq' Hx.
    assert (image_page (w_kl w1) q') as Hq1'
      by (by apply (layout_image_page _ _ _ (to_layout _ _ _ _ Ht))).
    destruct (Hst q' x) as [_ Eb]; [by apply (layout_image_page _ _ _ Hly2)|done|].
    etransitivity; [exact Eb|].
    rewrite (image_byte_hit w1 w2) by done.
    rewrite (ig_bytes _ _ _ _ (imaged_touched w root q w1 off part rest
               ltac:(split; [done|by exists s, T]) Hq Ht)) by done.
    unfold part_image. rewrite Hbs. destruct (decide (q' = q)) as [->|Hne].
    + rewrite (decide_False (P := true = false /\ _)) by (by intros [? _]).
      destruct (decide (off <= x < off + Z.of_nat (Z.to_nat part))) as [Hin|Hout].
      * rewrite !decide_True by (split; done || lia). unfold bs. apply lookup_take_lt. lia.
      * rewrite !decide_False by (intros [_ ?]; lia). done.
    + by rewrite decide_False by (by intros [? _]).
Qed.

(** ** The walk over the chunk *)

(** The page of an address of the image range. *)
Definition image_pfn (va : Z) : Z := (va - CO_ARCH_KERNEL_MAP) / CO_ARCH_PAGE_SIZE.

Lemma kernel_va_of va :
  va = kernel_va (image_pfn va) + va mod CO_ARCH_PAGE_SIZE.
Proof using.
  unfold kernel_va, image_pfn, CO_ARCH_KERNEL_MAP. change CO_ARCH_PAGE_SIZE with 4096.
  Z.div_mod_to_equations; lia.
Qed.

Lemma kernel_va_page q x :
  0 <= x < CO_ARCH_PAGE_SIZE ->
  (kernel_va q + x) / CO_ARCH_PAGE_SIZE = CO_ARCH_KERNEL_MAP / CO_ARCH_PAGE_SIZE + q.
Proof using.
  unfold kernel_va, CO_ARCH_KERNEL_MAP. change CO_ARCH_PAGE_SIZE with 4096. intros Hx.
  Z.div_mod_to_equations; lia.
Qed.

Lemma page_succ a :
  a / CO_ARCH_PAGE_SIZE <= (a + 1) / CO_ARCH_PAGE_SIZE <= a / CO_ARCH_PAGE_SIZE + 1.
Proof using. change CO_ARCH_PAGE_SIZE with 4096. Z.div_mod_to_equations; lia. Qed.

Lemma page_mono a b : a <= b -> a / CO_ARCH_PAGE_SIZE <= b / CO_ARCH_PAGE_SIZE.
Proof using. intros. by apply Z.div_le_mono. Qed.

(** The pages of [d] bytes and of [part] more on one page. *)
Lemma page_touched_part va0 d part va :
  0 <= d -> 0 < part ->
  (forall i, 0 <= i < part ->
     (va0 + d + i) / CO_ARCH_PAGE_SIZE = (va0 + d) / CO_ARCH_PAGE_SIZE) ->
  page_touched va0 (d + part) va <->
  page_touched va0 d va \/ va / CO_ARCH_PAGE_SIZE = (va0 + d) / CO_ARCH_PAGE_SIZE.
Proof using.
  intros Hd Hpart Hsame. unfold page_touched.
  replace (va0 + (d + part) - 1) with (va0 + d + (part - 1)) by lia.
  rewrite (Hsame (part - 1)) by lia. pose proof (page_succ (va0 + d - 1)) as Hs.
  replace (va0 + d - 1 + 1) with (va0 + d) in Hs by lia.
  pose proof (page_mono va0 (va0 + d) ltac:(lia)) as Hm.
  destruct (Z.eq_dec d 0) as [->|Hne].
  - rewrite Z.add_0_r in *. lia.
  - pose proof (page_mono va0 (va0 + d - 1) ltac:(lia)). lia.
Qed.

(** One more part on one page is the chunk that much longer. *)
Lemma chunk_image_part zero va0 d part data img q x :
  0 <= d -> 0 < part -> 0 <= x < CO_ARCH_PAGE_SIZE ->
  (zero = false -> d + part <= Z.of_nat (length data)) ->
  (forall i, 0 <= i < part ->
     (va0 + d + i) / CO_ARCH_PAGE_SIZE = (va0 + d) / CO_ARCH_PAGE_SIZE) ->
  part_image zero (image_pfn (va0 + d)) ((va0 + d) mod CO_ARCH_PAGE_SIZE) part
    (if zero then data else drop (Z.to_nat d) data)
    (fun q' y => chunk_image zero va0 d data img (kernel_va q' + y)) q x =
  chunk_image zero va0 (d + part) data img (kernel_va q + x).
Proof using.
  intros Hd Hpart Hx Hlen Hsame.
  pose proof (page_touched_part va0 d part (kernel_va q + x) Hd Hpart Hsame) as Ht.
  pose proof (kernel_va_of (va0 + d)) as Hva.
  pose proof (Z.mod_pos_bound (va0 + d) CO_ARCH_PAGE_SIZE ltac:(done)) as Hm.
  pose proof (kernel_va_page (image_pfn (va0 + d)) _ Hm) as Hp. rewrite <- Hva in Hp.
  rewrite (kernel_va_page q x Hx), Hp in Ht. unfold part_image, chunk_image.
  set (off := (va0 + d) mod CO_ARCH_PAGE_SIZE) in *. set (q0 := image_pfn (va0 + d)) in *.
  remember (CO_ARCH_KERNEL_MAP / CO_ARCH_PAGE_SIZE) as K eqn:EK.
  pose proof (page_mono (kernel_va q + x) (va0 + d - 1)) as Hb.
  pose proof (page_mono va0 (kernel_va q + x)) as Ha.
  rewrite (kernel_va_page q x Hx), <- EK in Ha, Hb.
  destruct (decide (q = q0)) as [->|Hne].
  - rewrite (decide_True (P := page_touched va0 (d + part) _)) by (apply Ht; lia).
    destruct (decide (zero = false /\ off <= x < off + part)) as [[-> Hr]|Hout].
    { rewrite decide_True by lia. rewrite lookup_drop. f_equal. lia. }
    destruct (decide (zero = false /\ va0 <= kernel_va q0 + x < va0 + (d + part)))
      as [[-> Hr]|Hno].
    + assert (kernel_va q0 + x < va0 + d) as Hlt
        by (apply Z.nle_gt; intros Hge; apply Hout; split; [done|lia]).
      rewrite (decide_True (P := page_touched va0 d _))
        by (unfold page_touched; rewrite (kernel_va_page q0 x Hx), <- EK; lia).
      rewrite decide_True by lia.
      destruct (lookup_lt_is_Some_2 data (Z.to_nat (kernel_va q0 + x - va0))) as [c Hc];
        [specialize (Hlen eq_refl); lia|]. by rewrite Hc.
    + destruct (decide (page_touched va0 d _)); [|done].
      rewrite decide_False; [done|]. intros [? ?]. apply Hno. split; [done|lia].
  - assert (page_touched va0 (d + part) (kernel_va q + x) <->
            page_touched va0 d (kernel_va q + x)) as Ht'
      by (split; [intros [?|?]%Ht; [done|exfalso; lia]|intros ?; apply Ht; by left]).
    destruct (decide (page_touched va0 d _)) as [Hy|Hn].
    + rewrite (decide_True (P := page_touched va0 (d + part) _)) by (by apply Ht').
      destruct (decide (zero = false /\ va0 <= kernel_va q + x < va0 + d)) as [Hr|Hr];
        [by rewrite decide_True by (split; [apply Hr|lia])|].
      rewrite decide_False; [done|]. intros [Hz Hr2]. apply Hne.
      assert (kernel_va q + x = kernel_va q0 + (off + (kernel_va q + x - (va0 + d)))) as E by lia.
      pose proof (Hsame (kernel_va q + x - (va0 + d)) ltac:(split; [apply Z.nlt_ge; intros ?; apply Hr; split; [done|]|]; lia)) as Hs.
      replace (va0 + d + (kernel_va q + x - (va0 + d))) with (kernel_va q + x) in Hs by lia.
      rewrite (kernel_va_page q x Hx), <- EK in Hs. lia.
    + by rewrite decide_False by (by rewrite Ht').
Qed.

(** The pages of the image range hold the range of a chunk. *)
Lemma image_page_of k va :
  CO_ARCH_KERNEL_MAP <= va -> va < CO_ARCH_KERNEL_MAP + kload_table_start k ->
  kload_table_start k mod CO_ARCH_PAGE_SIZE = 0 -> image_page k (image_pfn va).
Proof using.
  unfold image_page, image_pfn. change CO_ARCH_PAGE_SIZE with 4096.
  generalize (kload_table_start k). intros t Hlo Hhi Ht.
  split; [apply Z.div_pos; lia|]. Z.div_mod_to_equations. lia.
Qed.

Lemma imaged_trans w root img w1 img' w2 :
  imaged w root img w1 ->
  imaged w1 root (img' (fun q x => image_byte w1 root (kernel_va q + x))) w2 ->
  (forall f g q x, (f q x = g q x) -> img' f q x = img' g q x) ->
  imaged w root (img' img) w2.
Proof using.
  intros [Hl Hy Hb] [Hl2 Hy2 Hb2] Hext. split; [done|congruence|]. intros q x Hq Hx.
  rewrite Hb2 by (done || by apply (layout_image_page _ _ _ Hy)). apply Hext. by apply Hb.
Qed.

Lemma part_image_ext zero q0 off part rest f g q x :
  f q x = g q x -> part_image zero q0 off part rest f q x = part_image zero q0 off part rest g q x.
Proof using. unfold part_image. by intros ->. Qed.

Lemma chunk_walk w root va data size zero :
  image_loaded root w -> CO_ARCH_KERNEL_MAP <= va < 2 ^ 64 -> 0 <= size < 2 ^ 32 ->
  va + size <= CO_ARCH_KERNEL_MAP + kload_table_start (w_kl w) ->
  kload_table_start (w_kl w) mod CO_ARCH_PAGE_SIZE = 0 ->
  Forall is_byte data -> (zero = false -> Z.of_nat (length data) = size) ->
  wp (xfer kload_page_for (act_chunk zero) va size data)
    (fun _ => imaged w root (fun q x => chunk_image zero va size data
                                          (image_byte w root) (kernel_va q + x)))
    (fun _ => image_loaded root) w.
Proof using.
  intros Hil Hlo Hsize Hhi Hal Hby Hlen. pose proof (im_bound _ _ (proj1 Hil)) as Hmax.
  unfold CO_ARCH_KERNEL_MAP in Hlo.
  apply (wp_xfer _ _ _ _ _ (fun d rest w' =>
    rest = (if zero then data else drop (Z.to_nat d) data) /\
    imaged w root (fun q x => chunk_image zero va d data (image_byte w root) (kernel_va q + x)) w'));
    [lia|done|unfold CO_ARCH_KERNEL_MAP in Hhi; lia| | |].
  - intros d rest w' Hd [-> Him]. destruct (part_at_range va size d ltac:(lia) Hd) as [Hp Hsame].
    pose proof (Z.mod_pos_bound (va + d) CO_ARCH_PAGE_SIZE ltac:(done)) as Hm.
    assert (image_page (w_kl w) (image_pfn (va + d))) as Hq
      by (apply image_page_of; [unfold CO_ARCH_KERNEL_MAP; lia|lia|done]).
    rewrite (kernel_va_of (va + d)) at 1.
    eapply wp_ret_mono.
    + apply (wp_chunk_part w' root _ _ (part_at va size d)
               zero (if zero then data else drop (Z.to_nat d) data)).
      * apply (ig_loaded _ _ _ _ Him).
      * apply (layout_image_page _ _ _ (ig_layout _ _ _ _ Him)), Hq.
      * apply Hm.
      * lia.
      * unfold part_at. change CO_ARCH_PAGE_SIZE with 4096 in *.
        destruct (Z.ltb_spec (size - d) (4096 - (va + d) mod 4096)); lia.
      * destruct zero; [done|by apply Forall_drop].
      * intros ->. rewrite length_drop. specialize (Hlen eq_refl). lia.
    + intros mfn w1 Hact. eapply wp_ret_mono; [exact Hact|]. intros rest' w2 [-> Him2]. split.
      * destruct zero; [done|]. rewrite drop_drop. f_equal. lia.
      * pose proof (imaged_trans w root _ w' (part_image zero (image_pfn (va + d)) _ _ _) w2 Him Him2
                      (part_image_ext _ _ _ _ _)) as [Hl2 Hy2 Hb2].
        split; [done|done|]. intros q x Hq' Hx. rewrite Hb2 by done.
        apply chunk_image_part; [lia|lia|done| |done].
        intros Hz. specialize (Hlen Hz). lia.
  - split; [by destruct zero|]. split; [done|done|]. intros q x _ _.
    unfold chunk_image. rewrite decide_False; [done|]. unfold page_touched. lia.
  - intros b w' [_ Him]. exact Him.
Qed.

(** Counters leave the image alone. *)
Lemma image_neutral root w f :
  neutral f -> (forall k, kload_space (f k) = kload_space k) ->
  (forall k, layout (f k) = layout k /\ kload_phys_base (f k) = kload_phys_base k) ->
  image_loaded root w ->
  imaged w root (fun q x => image_byte w root (kernel_va q + x)) (upd_kl f w).
Proof using.
  intros Hf Hsp Hk (Him & s & T & Hl & Hr). pose proof (Hk (w_kl w)) as [Hly Hph].
  destruct (loaded_neutral w s T f Hf Hsp Hl) as [Hl' Htr]. rewrite Hr in Htr.
  destruct (loaded_inv _ _ _ Hl) as [Hi _]. destruct (loaded_inv _ _ _ Hl') as [Hi' _].
  assert (image_ok (upd_kl f w) root) as Him'
    by (apply (image_ok_keep w); [done..|]; intros q _; left; apply Htr).
  split; [|exact Hly|].
  - split; [exact Him'|]. by exists s, T.
  - intros q x Hq Hx. destruct (image_page_data w q Hi Hq) as [Hb _].
    destruct (page_va_exists _ _ q (proj1 Hi) Hb) as [a Ha].
    destruct (layout_fields _ _ Hly) as (_ & Hva & _). unfold image_byte.
    rewrite (image_ptr (upd_kl f w) root q a) by
      (done || by apply (layout_image_page _ _ _ Hly) || by apply Hva).
    rewrite (image_ptr w root q a) by done. by rewrite Htr.
Qed.

(** A range whose bytes are there reads as those bytes. *)
Lemma guest_read_image w root bs va :
  (forall i b, bs !! i = Some b -> image_byte w root (va + Z.of_nat i) = Some b) ->
  guest_read (length bs) w root va = inl bs.
Proof using.
  revert va. induction bs as [|b bs IH]; intros va Hbs; [done|]. cbn [length guest_read].
  pose proof (Hbs 0%nat b eq_refl) as Hb. rewrite Z.add_0_r in Hb. unfold image_byte in Hb.
  destruct (guest_ptr w root va) as [p|]; [|done]. simplify_eq. rewrite IH; [done|].
  intros i c Hc. specialize (Hbs (S i) c Hc). rewrite <- Hbs. f_equal. lia.
Qed.

Lemma wp_chunk w root va data size zero :
  image_loaded root w -> kload_table_start (w_kl w) mod CO_ARCH_PAGE_SIZE = 0 ->
  CO_ARCH_KERNEL_MAP <= kload_min_va (w_kl w) ->
  kload_max_va (w_kl w) <= CO_ARCH_KERNEL_MAP + kload_table_start (w_kl w) ->
  0 <= va < 2 ^ 64 -> 0 <= size < 2 ^ 32 -> va + size < 2 ^ 64 ->
  Forall is_byte data -> (zero = false -> Z.of_nat (length data) = size) ->
  wp (co_kload_chunk va data size zero)
    (fun _ w' => kload_min_va (w_kl w) <= va /\ va + size <= kload_max_va (w_kl w) /\
       imaged w root (fun q x => chunk_image zero va size data
                                   (image_byte w root) (kernel_va q + x)) w')
    (fun _ => image_loaded root) w.
Proof using.
  intros Hil Hal Hmin Hmax Hva Hsize Hend Hby Hlen. unfold co_kload_chunk, need_space, kl, kset.
  do 2 wp_step. wp_step. wp_step; [done|]. do 4 wp_step. wp_step. wp_step; [done|].
  rewrite u64_small in * by lia.
  wp_step. eapply wp_ret_mono; [apply chunk_walk; (done || lia)|].
  intros b w' Him. apply wp_modify. split_and!; [lia|lia|].
  pose proof (imaged_trans w root _ w' (fun f => f) _ Him
    (image_neutral root w' (fun k => set_chunks (ulong (kload_chunks k + 1)) k) (fun _ => eq_refl)
       (fun _ => eq_refl) (fun _ => conj eq_refl eq_refl) (ig_loaded _ _ _ _ Him))
    (fun f g q x E => E)) as Ht. exact Ht.
Qed.
End chunk.

Section chunk_theorem.
Context {OS : Type} `{HostLaws OS}.
Implicit Types (w : world OS).

(** C35: the loader implements the chunk function. A chunk inside the kernel's
    range leaves the image exactly as [chunk_image] says - its pages there,
    zeroed where they were not, its bytes stored, every other byte of the
    image as it was - and reads back as the bytes that were sent; a refused
    one leaves a consistent address space, and one outside the range nothing
    changed at all. *)
Theorem chunk_loads_image w root va data size zero :
  image_loaded root w -> kload_table_start (w_kl w) mod CO_ARCH_PAGE_SIZE = 0 ->
  CO_ARCH_KERNEL_MAP <= kload_min_va (w_kl w) ->
  kload_max_va (w_kl w) <= CO_ARCH_KERNEL_MAP + kload_table_start (w_kl w) ->
  0 <= va < 2 ^ 64 -> 0 <= size < 2 ^ 32 -> va + size < 2 ^ 64 ->
  Forall is_byte data -> (zero = false -> Z.of_nat (length data) = size) ->
  match co_kload_chunk va data size zero w with
  | (Ret _, w') =>
      image_loaded root w' /\ kload_min_va (w_kl w) <= va /\ va + size <= kload_max_va (w_kl w) /\
      (forall a, CO_ARCH_KERNEL_MAP <= a < CO_ARCH_KERNEL_MAP + kload_table_start (w_kl w) ->
         image_byte w' root a = chunk_image zero va size data (image_byte w root) a) /\
      (zero = false -> exists w'', co_kload_read va size w' = (Ret data, w''))
  | (Fail rc, w') =>
      image_loaded root w' /\
      (va < kload_min_va (w_kl w) \/ kload_max_va (w_kl w) < va + size ->
         rc = CO_RC_INVALID_PARAMETER /\ w' = w)
  | (Fault, _) => False
  end.
Proof using.
  intros Hil Hal Hmin Hmax Hva Hsize Hend Hby Hlen.
  pose proof Hil as (_ & s0 & T0 & Hl0 & _).
  destruct (wp_cases _ _ _ _ (wp_chunk w root va data size zero Hil Hal Hmin Hmax Hva Hsize Hend
    Hby Hlen)) as [([] & w' & Hrun & Hlo & Hhi & Him)|(rc & w' & Hrun & Hil')].
  - rewrite Hrun. pose proof (ig_loaded _ _ _ _ Him) as Hil'. split; [exact Hil'|].
    split; [exact Hlo|]. split; [exact Hhi|].
    assert (forall a, CO_ARCH_KERNEL_MAP <= a < CO_ARCH_KERNEL_MAP + kload_table_start (w_kl w) ->
         image_byte w' root a = chunk_image zero va size data (image_byte w root) a) as Hbytes.
    { intros a Ha. rewrite (kernel_va_of a). apply (ig_bytes _ _ _ _ Him).
      - apply image_page_of; [lia|lia|done].
      - by apply Z.mod_pos_bound. }
    split; [exact Hbytes|]. intros Hz. specialize (Hlen Hz). subst zero.
    destruct Hil' as (Him' & s & T & Hl & <-). destruct (loaded_inv _ _ _ Hl) as [Hi HT].
    pose proof (wp_kload_read w' s T va size Hi HT (ld_space _ _ _ Hl) Hva Hsize ltac:(lia)) as Hwp.
    assert (guest_read (Z.to_nat size) w' (pml4_pfn s) va = inl data) as Hrd.
    { rewrite <- Hlen, Nat2Z.id. apply guest_read_image. intros i b Hb.
      pose proof (lookup_lt_Some _ _ _ Hb) as Hi'. rewrite Hbytes by lia.
      unfold chunk_image. rewrite decide_True.
      - rewrite decide_True by (split; [done|lia]). rewrite <- Hb. f_equal. lia.
      - unfold page_touched. split; [lia|]. split; apply page_mono; lia. }
    destruct (wp_cases _ _ _ _ Hwp) as [(bs & w'' & Hr & _ & E)|(rc & w'' & _ & _ & E)];
      rewrite Hrd in E; [|done]. exists w''. congruence.
  - rewrite Hrun. split; [exact Hil'|]. intros Hout.
    assert (co_kload_chunk va data size zero w = (Fail CO_RC_INVALID_PARAMETER, w)) as E.
    { unfold co_kload_chunk, need_space, kl, fail_if, throw, mret, M_ret, mbind, M_bind, gets.
      cbn beta iota. rewrite (ld_space _ _ _ Hl0), u64_small by lia.
      rewrite bool_decide_eq_false_2 by done.
      replace ((va <? kload_min_va (w_kl w)) || (kload_max_va (w_kl w) <? va + size))%bool with true;
        [done|]. symmetry. apply orb_true_iff. rewrite !Z.ltb_lt. exact Hout. }
    rewrite E in Hrun. by simplify_eq.
Qed.
End chunk_theorem.
