(* ===== verification/RunGate.v ===== *)
(** The lifecycle of a run ([arch/x86_64/switch.c]): who may enter a guest.

    One word, [co_run_gate], says whether a boot or a number of test lanes own
    the world switch; the slots of [co_vcpu] say which processors are taken.
    Threads meet over them with compare-and-swap only. A thread is a program: a
    tree of the atomic accesses it makes, each going on with what it answered,
    so a C function is a function on programs that takes the rest of the
    caller. [rstep] interleaves any number of such threads. *)
From S2P Require Import Prelude.

Definition CO_VCPU_FREE : Z := 0.
Definition CO_VCPU_CLAIMING : Z := 1.
Definition CO_VCPU_ACTIVE : Z := 2.
Definition CO_VCPU_STOPPING : Z := 3.

Definition CO_RUN_IDLE : Z := 0.
Definition CO_RUN_STARTING : Z := 1.
Definition CO_RUN_RUNNING : Z := 2.
Definition CO_RUN_STOPPING : Z := 3.
Definition CO_RUN_TEST_STARTING : Z := 4.
Definition CO_RUN_TESTING : Z := 5.
Definition CO_RUN_TEST_STOPPING : Z := 6.

Definition CO_RUN_STATE_MASK : Z := 7.
Definition CO_RUN_REF_SHIFT : Z := 3.
Definition CO_RUN_REF_ONE : Z := Z.shiftl 1 CO_RUN_REF_SHIFT.
Definition CO_MAX_VCPUS : Z := 4.

(** The statics. [live] is which passage pages are allocated; a pointer is a
    number, the null pointer zero. *)
Record gate := Gate {
  co_run_gate : Z;
  vcpu_abort_all : Z;
  co_vcpu_claim_lock : Z;
  active : Z -> Z;
  diagnostic : Z -> Z;
  ap_passage : Z -> Z;
  live : gset Z;
}.

(** [f] with [f v] replaced. *)
Definition put (f : Z -> Z) (v x : Z) : Z -> Z := fun u => if decide (u = v) then x else f u.

Definition set_gate (x : Z) (g : gate) : gate :=
  Gate x (vcpu_abort_all g) (co_vcpu_claim_lock g) (active g) (diagnostic g) (ap_passage g) (live g).
Definition set_abort (x : Z) (g : gate) : gate :=
  Gate (co_run_gate g) x (co_vcpu_claim_lock g) (active g) (diagnostic g) (ap_passage g) (live g).
Definition set_claim_lock (x : Z) (g : gate) : gate :=
  Gate (co_run_gate g) (vcpu_abort_all g) x (active g) (diagnostic g) (ap_passage g) (live g).
Definition set_active (v x : Z) (g : gate) : gate :=
  Gate (co_run_gate g) (vcpu_abort_all g) (co_vcpu_claim_lock g) (put (active g) v x) (diagnostic g)
    (ap_passage g) (live g).
Definition set_diagnostic (v x : Z) (g : gate) : gate :=
  Gate (co_run_gate g) (vcpu_abort_all g) (co_vcpu_claim_lock g) (active g) (put (diagnostic g) v x)
    (ap_passage g) (live g).
Definition set_passage (v x : Z) (g : gate) : gate :=
  Gate (co_run_gate g) (vcpu_abort_all g) (co_vcpu_claim_lock g) (active g) (diagnostic g)
    (put (ap_passage g) v x) (live g).
Definition set_live (s : gset Z) (g : gate) : gate :=
  Gate (co_run_gate g) (vcpu_abort_all g) (co_vcpu_claim_lock g) (active g) (diagnostic g)
    (ap_passage g) s.

(** ** Programs *)

(** One atomic access. [Cross p] is a use of the pages at [p]: they are built, or
    the guest is entered through them. [Choose] is an answer of the surroundings: the guest, the
    host's calls, a number of turns of a loop. *)
Inductive op :=
  | CasGate (old new : Z)
  | ReadAbort
  | WriteAbort (x : Z)
  | TakeLock
  | DropLock
  | CasActive (v old new : Z)
  | StoreActive (v x : Z)
  | ReadDiagnostic (v : Z)
  | WriteDiagnostic (v x : Z)
  | ReadPassage (v : Z)
  | WritePassage (v p : Z)
  | AllocPages
  | FreePages (p : Z)
  | Cross (p : Z)
  | Choose.

(** [Blocked] is a thread that goes round a loop and is not followed further. *)
Inductive prog :=
  | Done
  | Blocked
  | Op (o : op) (k : Z -> prog).

(** [run_op g o x g']: on [g] the access answers [x] and leaves [g']. *)
Inductive run_op (g : gate) : op -> Z -> gate -> Prop :=
  | run_cas old new :
      run_op g (CasGate old new) (co_run_gate g)
        (if co_run_gate g =? old then set_gate new g else g)
  | run_read_abort : run_op g ReadAbort (vcpu_abort_all g) g
  | run_write_abort x : run_op g (WriteAbort x) 0 (set_abort x g)
  | run_take_lock : co_vcpu_claim_lock g = 0 -> run_op g TakeLock 0 (set_claim_lock 1 g)
  | run_drop_lock : run_op g DropLock 0 (set_claim_lock 0 g)
  | run_cas_active v old new :
      run_op g (CasActive v old new) (active g v)
        (if active g v =? old then set_active v new g else g)
  | run_store_active v x : run_op g (StoreActive v x) 0 (set_active v x g)
  | run_read_diagnostic v : run_op g (ReadDiagnostic v) (diagnostic g v) g
  | run_write_diagnostic v x : run_op g (WriteDiagnostic v x) 0 (set_diagnostic v x g)
  | run_read_passage v : run_op g (ReadPassage v) (ap_passage g v) g
  | run_write_passage v p : run_op g (WritePassage v p) 0 (set_passage v p g)
  | run_alloc p : p <> 0 -> p ∉ live g -> run_op g AllocPages p (set_live ({[p]} ∪ live g) g)
  | run_alloc_fails : run_op g AllocPages 0 g
  | run_free p : run_op g (FreePages p) 0 (set_live (live g ∖ {[p]}) g)
  | run_cross p : run_op g (Cross p) 0 g
  | run_choose x : run_op g Choose x g.

(** An access to a passage page that has been freed, or to none. *)
Definition bad_access (g : gate) (o : op) : Prop :=
  match o with
  | Cross p | FreePages p => p ∉ live g
  | _ => False
  end.

(** [for (;;)]: some number of turns. *)
Fixpoint turns (n : nat) (body : prog -> prog) : prog :=
  match n with
  | O => Blocked
  | S n' => body (turns n' body)
  end.
Definition forever (body : prog -> prog) : prog := Op Choose (fun n => turns (Z.to_nat n) body).

(** A condition of the surroundings: a call that fails, what the guest asks. *)
Definition ask (k : bool -> prog) : prog := Op Choose (fun x => k (negb (x =? 0))).

(** ** The gate *)

(** [co_atomic_read]: [cmpxchg(value, 0, 0)]. *)
Definition read_gate (k : Z -> prog) : prog := Op (CasGate 0 0) k.
Definition read_active (v : Z) (k : Z -> prog) : prog := Op (CasActive v 0 0) k.
Definition gate_state (old : Z) : Z := Z.land old CO_RUN_STATE_MASK.
Definition gate_refs (old : Z) : Z := Z.shiftr old CO_RUN_REF_SHIFT.
Definition co_run_state (k : Z -> prog) : prog := read_gate (fun old => k (gate_state old)).

Definition co_run_finish (k : prog) : prog :=
  forever (fun again =>
    read_gate (fun old =>
      if gate_state old =? CO_RUN_IDLE then k else
      if negb (gate_state old =? CO_RUN_STOPPING) then k else
      Op (CasGate old CO_RUN_IDLE) (fun r => if r =? old then k else again))).

Definition co_run_begin (k : bool -> prog) : prog :=
  Op (CasGate CO_RUN_IDLE CO_RUN_STARTING) (fun r =>
    if negb (r =? CO_RUN_IDLE) then k false else
    Op (WriteAbort 0) (fun _ =>
    co_run_state (fun state =>
      if negb (state =? CO_RUN_STARTING) then
        Op (WriteAbort 1) (fun _ => co_run_finish (k false))
      else k true))).

Definition co_run_publish (k : bool -> prog) : prog :=
  Op (CasGate CO_RUN_STARTING CO_RUN_RUNNING) (fun r => k (r =? CO_RUN_STARTING)).

Definition co_run_test_leave (k : prog) : prog :=
  forever (fun again =>
    read_gate (fun old =>
      let state := gate_state old in
      let refs := gate_refs old in
      if (negb (state =? CO_RUN_TESTING) && negb (state =? CO_RUN_TEST_STOPPING) &&
          negb (state =? CO_RUN_TEST_STARTING) || (refs <=? 0))%bool then k else
      let next := if refs =? 1 then CO_RUN_IDLE else old - CO_RUN_REF_ONE in
      Op (CasGate old next) (fun r => if r =? old then k else again))).

Definition co_run_test_enter (k : bool -> prog) : prog :=
  forever (fun again =>
    read_gate (fun old =>
      let state := gate_state old in
      if state =? CO_RUN_IDLE then
        let starting := Z.lor CO_RUN_TEST_STARTING CO_RUN_REF_ONE in
        Op (CasGate old starting) (fun r =>
          if negb (r =? old) then again else
          Op (WriteAbort 0) (fun _ =>
          read_gate (fun old =>
            if negb (old =? starting) then
              Op (WriteAbort 1) (fun _ => co_run_test_leave (k false))
            else
            Op (CasGate starting (Z.lor CO_RUN_TESTING CO_RUN_REF_ONE)) (fun r =>
              if r =? starting then k true else
              Op (WriteAbort 1) (fun _ => co_run_test_leave (k false))))))
      else if state =? CO_RUN_TEST_STARTING then again
      else if negb (state =? CO_RUN_TESTING) then k false
      else Op (CasGate old (old + CO_RUN_REF_ONE)) (fun r => if r =? old then k true else again))).

(** [next] of [co_arch_boot_abort]. *)
Definition stopped_gate (old : Z) : Z :=
  let state := gate_state old in
  let clear := Z.ldiff old CO_RUN_STATE_MASK in
  if ((state =? CO_RUN_STARTING) || (state =? CO_RUN_RUNNING))%bool then Z.lor clear CO_RUN_STOPPING
  else if ((state =? CO_RUN_TEST_STARTING) || (state =? CO_RUN_TESTING))%bool then
    Z.lor clear CO_RUN_TEST_STOPPING
  else old.

Definition co_arch_boot_abort (k : prog) : prog :=
  Op TakeLock (fun _ =>
  forever (fun again =>
    read_gate (fun old =>
      let next := stopped_gate old in
      let out := Op DropLock (fun _ => Op (WriteAbort 1) (fun _ => k)) in
      if next =? old then out else
      Op (CasGate old next) (fun r => if r =? old then out else again)))).

Definition co_arch_boot_running (k : bool -> prog) : prog :=
  co_run_state (fun state => k (negb (state =? CO_RUN_IDLE))).

(** ** The slots *)

(** [false] is the null pointer. *)
Definition co_vcpu_claim (index diag : Z) (k : bool -> prog) : prog :=
  if ((index <? 0) || (CO_MAX_VCPUS <=? index))%bool then k false else
  Op (CasActive index CO_VCPU_FREE CO_VCPU_CLAIMING) (fun r =>
    if negb (r =? CO_VCPU_FREE) then k false else
    Op (WriteDiagnostic index diag) (fun _ =>
    ask (fun kick_bind =>
      if negb kick_bind then Op (StoreActive index CO_VCPU_FREE) (fun _ => k false)
      else Op (StoreActive index CO_VCPU_ACTIVE) (fun _ => k true)))).

Definition co_vcpu_release (index : Z) (k : prog) : prog :=
  Op (CasActive index CO_VCPU_ACTIVE CO_VCPU_STOPPING) (fun r =>
    if negb (r =? CO_VCPU_ACTIVE) then k else
    Op (ReadDiagnostic index) (fun diag =>
    Op (WriteDiagnostic index 0) (fun _ =>
    Op (StoreActive index CO_VCPU_FREE) (fun _ =>
      if negb (diag =? 0) then co_run_test_leave k else k)))).

Definition co_arch_vcpu_active (index : Z) (k : bool -> prog) : prog :=
  if ((index <? 0) || (CO_MAX_VCPUS <=? index))%bool then k false else
  read_active index (fun a => k (a =? CO_VCPU_ACTIVE)).

(** Whether the slot's [host_cpu] is the processor asked for is not followed. *)
Fixpoint core_taken_from (n : nat) (i : Z) (k : bool -> prog) : prog :=
  match n with
  | O => k false
  | S n' =>
      read_active i (fun a =>
        if negb (a =? CO_VCPU_FREE) then
          ask (fun same_cpu => if same_cpu : bool then k true else core_taken_from n' (i + 1) k)
        else core_taken_from n' (i + 1) k)
  end.
Definition co_arch_vcpu_core_taken (k : bool -> prog) : prog :=
  core_taken_from (Z.to_nat CO_MAX_VCPUS) 0 k.

(** ** A processor in the guest *)

(** The monitor loop: it looks at the abort flag and crosses, until the guest
    ends the run, which it tells the others, or something else ends the loop. *)
Definition co_arch_vcpu_run (pp : Z) (k : prog) : prog :=
  forever (fun again =>
    Op ReadAbort (fun abort =>
      if negb (abort =? 0) then k else
      ask (fun limit => if limit : bool then k else
      Op (Cross pp) (fun _ =>
      ask (fun terminate => if terminate : bool then co_arch_boot_abort k else
      ask (fun stop => if stop : bool then k else again)))))).

(** [co_run_state() != CO_RUN_RUNNING || vcpu_abort_all] *)
Definition not_running (k : bool -> prog) : prog :=
  co_run_state (fun state =>
    if negb (state =? CO_RUN_RUNNING) then k true else
    Op ReadAbort (fun abort => k (negb (abort =? 0)))).

(** [|| !ap_start_pending[lane]] *)
Definition not_wanted (k : bool -> prog) : prog :=
  not_running (fun no => if no : bool then k true else ask (fun pending => k (negb pending))).

(** A secondary processor, from the page made for it at boot to its last
    crossing. *)
Definition join_lane (lane : Z) (k : prog) : prog :=
  Op (ReadPassage lane) (fun first =>
    let die := co_arch_boot_abort (co_vcpu_release lane k) in
    if first =? 0 then die else
    Op (ReadPassage lane) (fun pp =>
    ask (fun pending =>
    if negb pending then
      Op (ReadPassage lane) (fun now =>
        if negb (pp =? now) then Op (FreePages pp) (fun _ => co_vcpu_release lane k)
        else co_vcpu_release lane k)
    else
    Op (Cross pp) (fun _ =>
    ask (fun built => if negb built then die else
    ask (fun cr3_matches => if negb cr3_matches then die else
    ask (fun published => if negb published then die else
    ask (fun preflight => if negb preflight then die else
    co_arch_vcpu_run pp (
    not_running (fun no =>
      if no : bool then co_vcpu_release lane k
      else co_arch_boot_abort (co_vcpu_release lane k))))))))))).

(** The private loop of TEST_SMP. *)
Definition test_lane (lane : Z) (k : prog) : prog :=
  Op AllocPages (fun pp =>
    if pp =? 0 then co_vcpu_release lane k else
    ask (fun preflight =>
    if negb preflight then Op (FreePages pp) (fun _ => co_vcpu_release lane k) else
    forever (fun again =>
      let out :=
        Op (ReadPassage lane) (fun now =>
          if negb (pp =? now) then Op (FreePages pp) (fun _ => co_vcpu_release lane k)
          else co_vcpu_release lane k) in
      ask (fun more => if negb more then out else
      Op ReadAbort (fun abort =>
        if negb (abort =? 0) then out else
        Op (Cross pp) (fun _ => ask (fun stop => if stop : bool then out else again))))))).

Definition co_arch_test_smp_lane (lane iterations : Z) (join_guest : bool) (k : prog) : prog :=
  if ((lane <? 0) || (CO_MAX_VCPUS <=? lane))%bool then k else
  if (join_guest && negb (iterations =? 0))%bool then k else
  (fun go : bool -> prog => if join_guest then not_wanted go else go false) (fun no =>
  if no : bool then k else
  ask (fun allowed =>
  if negb allowed then (if join_guest then co_arch_boot_abort k else k) else
  (fun go : bool -> prog => if join_guest then go true else co_run_test_enter go) (fun entered =>
  if negb entered then k else
  Op TakeLock (fun _ =>
  let unlock := fun k => Op DropLock (fun _ => k) in
  if join_guest then
    not_wanted (fun no => if no : bool then unlock k else
    co_arch_vcpu_core_taken (fun taken => if taken : bool then unlock k else
    co_vcpu_claim lane 0 (fun vcpu => unlock (
    if negb vcpu then k else
    not_running (fun no => if no : bool then co_vcpu_release lane k else join_lane lane k)))))
  else
    co_run_state (fun state =>
    if negb (state =? CO_RUN_TESTING) then unlock (co_run_test_leave k) else
    co_vcpu_claim lane 1 (fun vcpu => unlock (
    if negb vcpu then co_run_test_leave k else test_lane lane k))))))).

(** ** Booting *)

Fixpoint clear_passages (n : nat) (v : Z) (k : prog) : prog :=
  match n with
  | O => k
  | S n' => Op (WritePassage v 0) (fun _ => clear_passages n' (v + 1) k)
  end.

(** [for (v = 1; v < CO_MAX_VCPUS; v++)] of [co_arch_boot_prepare]. *)
Fixpoint make_passages (n : nat) (v : Z) (k : prog) : prog :=
  match n with
  | O => k
  | S n' =>
      Op AllocPages (fun app =>
        if app =? 0 then k else
        ask (fun mapped =>
        if negb mapped then
          Op (FreePages app) (fun _ => Op (WritePassage v 0) (fun _ => make_passages n' (v + 1) k))
        else Op (WritePassage v app) (fun _ => make_passages n' (v + 1) k)))
  end.

(** The pages of [co_arch_boot_prepare]; the answer is whether it succeeded,
    with [ctx.pp] as it leaves it. The rest of it is an answer. *)
Definition co_arch_boot_prepare (k : bool -> Z -> prog) : prog :=
  ask (fun allowed =>
  if negb allowed then k false 0 else
  Op AllocPages (fun pp =>
  if pp =? 0 then k false 0 else
  ask (fun mapped =>
  if negb mapped then k false pp else
  clear_passages 4 0 (
  make_passages 3 1 (
  ask (fun ok => k ok pp)))))).

(** One scan of the secondaries' slots, [true] when all were free. *)
Fixpoint scan_lanes (n : nat) (v : Z) (none : bool) (k : bool -> prog) : prog :=
  match n with
  | O => k none
  | S n' =>
      read_active v (fun a => scan_lanes n' (v + 1) (none && (a =? CO_VCPU_FREE))%bool k)
  end.
Definition join_lanes (k : prog) : prog :=
  forever (fun again => scan_lanes 3 1 true (fun none => if none : bool then k else again)).

Fixpoint free_passages (n : nat) (v : Z) (k : prog) : prog :=
  match n with
  | O => k
  | S n' =>
      Op (ReadPassage v) (fun p =>
        if p =? 0 then free_passages n' (v + 1) k else
        Op (FreePages p) (fun _ => Op (WritePassage v 0) (fun _ => free_passages n' (v + 1) k)))
  end.

(** [cleanup:], with [vcpu] still claimed or not. *)
Definition boot_cleanup (pp : Z) (vcpu : bool) (k : prog) : prog :=
  co_arch_boot_abort (
  (fun go : prog => if vcpu then co_vcpu_release 0 go else go) (
  free_passages 3 1 (
  (fun go : prog => if pp =? 0 then go else Op (FreePages pp) (fun _ => go)) (
  co_run_finish k)))).

Definition co_arch_boot_loaded (k : prog) : prog :=
  co_run_begin (fun owned =>
  if negb owned then k else
  co_arch_boot_prepare (fun ok pp =>
  if negb ok then boot_cleanup pp false k else
  Op TakeLock (fun _ =>
  co_vcpu_claim 0 0 (fun vcpu =>
  Op DropLock (fun _ =>
  if negb vcpu then boot_cleanup pp false k else
  co_run_publish (fun published =>
  if negb published then boot_cleanup pp true k else
  co_arch_vcpu_run pp (
  co_arch_boot_abort (
  join_lanes (
  co_vcpu_release 0 (
  boot_cleanup pp false k)))))))))).

(** ** Everybody *)

(** What a thread of the driver may be asked to do. *)
Inductive entry : prog -> Prop :=
  | enter_boot : entry (co_arch_boot_loaded Done)
  | enter_lane lane iterations join_guest :
      entry (co_arch_test_smp_lane lane iterations join_guest Done)
  | enter_stop : entry (co_arch_boot_running (fun running =>
      if running : bool then co_arch_boot_abort Done else Done)).

Record rsys := RSys { r_gate : gate; r_threads : list prog }.

Inductive rstep : rsys -> rsys -> Prop :=
  | step_op g g' ps t o x k :
      ps !! t = Some (Op o k) -> run_op g o x g' ->
      rstep (RSys g ps) (RSys g' (<[t := k x]> ps))
  | step_enter g ps t p :
      ps !! t = Some Done -> entry p -> rstep (RSys g ps) (RSys g (<[t := p]> ps)).

(** A driver just loaded, its threads yet to be used. *)
Definition idle_gate : gate := Gate 0 0 0 (fun _ => 0) (fun _ => 0) (fun _ => 0) ∅.
Definition loaded_driver (n : nat) : rsys := RSys idle_gate (replicate n Done).
