(* ===== verification/RunGateOk.v ===== *)
(** The protocol of [RunGate], thread by thread.

    What a thread has at a point of its program is its [role]: tokens for the
    run, the test references, the lock, a slot and pages. [run_ok] ties the
    statics to the roles of all threads. [safe p r] says that program [p], by a
    thread of role [r], keeps [run_ok] at each access whatever the others hold,
    and touches no freed page; each function of [RunGate] has a rule for it. *)
From S2P Require Import Prelude.
From S2P Require Import RunGate.

(** ** Roles *)

Inductive slot_kind := BootSlot | LaneSlot | TestSlot.
Definition slot_kind_diag (k : slot_kind) : Z := match k with TestSlot => 1 | _ => 0 end.

(** A slot a thread has taken: its [active] word, its [diagnostic] and (of a
    secondary) its passage if known. *)
Record slot := Slot {
  s_index : Z; s_kind : slot_kind; s_active : Z; s_diag : option Z; s_pass : option Z;
}.

(** How far the thread that owns the run has come: the passages from [lo] on
    are null; the run may be entered; the slots known to be free; the passages
    still to be freed and those already cleared. *)
Inductive phase :=
  | Preparing (lo : Z)
  | Running
  | Stopping (freed : list Z)
  | Joined (counted cleared : Z).

Record role := Role {
  r_phase : option phase;
  r_ref : bool;
  r_lock : bool;
  r_seen : bool;
  r_slot : option slot;
  r_pages : list Z;
  r_owes : bool;
}.
Definition nobody : role := Role None false false false None [] false.

Definition with_phase (p : option phase) (r : role) : role :=
  Role p (r_ref r) (r_lock r) (r_seen r) (r_slot r) (r_pages r) (r_owes r).
Definition with_ref (b : bool) (r : role) : role :=
  Role (r_phase r) b (r_lock r) (r_seen r) (r_slot r) (r_pages r) (r_owes r).
Definition with_lock (b s : bool) (r : role) : role :=
  Role (r_phase r) (r_ref r) b s (r_slot r) (r_pages r) (r_owes r).
Definition with_slot (s : option slot) (r : role) : role :=
  Role (r_phase r) (r_ref r) (r_lock r) (r_seen r) s (r_pages r) (r_owes r).
Definition with_pages (l : list Z) (r : role) : role :=
  Role (r_phase r) (r_ref r) (r_lock r) (r_seen r) (r_slot r) l (r_owes r).
Definition with_owes (b : bool) (r : role) : role :=
  Role (r_phase r) (r_ref r) (r_lock r) (r_seen r) (r_slot r) (r_pages r) b.

(** ** The invariant *)

Definition b2n (b : bool) : nat := if b then 1 else 0.
Definition count (f : role -> bool) (R : list role) : nat := sum_list_with (fun r => b2n (f r)) R.

(** The word of the gate, by who owns the run and how many tests there are. *)
Definition gate_word (own : option phase) (tests : nat) (word : Z) : Prop :=
  match own with
  | None =>
      word = CO_RUN_IDLE /\ tests = 0%nat \/
      (0 < tests)%nat /\ exists st,
        (st = CO_RUN_TEST_STARTING /\ tests = 1%nat \/ st = CO_RUN_TESTING \/ st = CO_RUN_TEST_STOPPING) /\
        word = st + 8 * Z.of_nat tests
  | Some ph =>
      tests = 0%nat /\
      match ph with
      | Preparing _ => word = CO_RUN_STARTING \/ word = CO_RUN_STOPPING
      | Running => word = CO_RUN_RUNNING \/ word = CO_RUN_STOPPING
      | Stopping _ | Joined _ _ => word = CO_RUN_STOPPING
      end
  end.

Definition stop_asked (word : Z) : Prop :=
  gate_state word = CO_RUN_STOPPING \/ gate_state word = CO_RUN_TEST_STOPPING.

(** A secondary of slot [v] may be under way. *)
Definition lane_allowed (own : option phase) (v : Z) : Prop :=
  match own with
  | Some Running => True
  | Some (Stopping freed) => v ∉ freed
  | _ => False
  end.

(** The passages that are accounted for, and those that must be null. *)
Definition counted_from (own : option phase) : Z :=
  match own with Some (Joined c _) => c | _ => 1 end.
Definition counted (own : option phase) (pass : Z -> Z) : list Z :=
  filter (fun p => p <> 0) (pass <$> filter (fun v => counted_from own <= v) [1; 2; 3]).
Definition null_ok (own : option phase) (pass : Z -> Z) : Prop :=
  match own with
  | None => forall v, pass v = 0
  | Some (Preparing lo) => lo <= 4 /\ forall v, v <= 0 \/ lo <= v -> pass v = 0
  | Some (Joined _ z) => forall v, v < z \/ 4 <= v -> pass v = 0
  | _ => forall v, v <= 0 \/ 4 <= v -> pass v = 0
  end.

(** What a role alone must satisfy. *)
Definition slot_static (r : role) (s : slot) : Prop :=
  0 <= s_index s < CO_MAX_VCPUS /\ s_active s <> CO_VCPU_FREE /\
  match s_kind s with
  | BootSlot => s_index s = 0 /\ r_phase r <> None
  | LaneSlot => 1 <= s_index s
  | TestSlot => r_ref r = true
  end.
Definition role_static (r : role) : Prop :=
  (forall s, r_slot r = Some s -> slot_static r s) /\
  (r_phase r = Some Running -> exists s, r_slot r = Some s /\ s_kind s = BootSlot) /\
  (r_seen r = true -> r_lock r = true).

(** What the statics say of a role. *)
Definition slot_live (g : gate) (own : option phase) (s : slot) : Prop :=
  active g (s_index s) = s_active s /\
  (forall d, s_diag s = Some d -> diagnostic g (s_index s) = d) /\
  (s_kind s = LaneSlot -> lane_allowed own (s_index s)) /\
  (forall p, s_pass s = Some p -> s_kind s = LaneSlot /\ ap_passage g (s_index s) = p).
Definition role_live (g : gate) (own : option phase) (r : role) : Prop :=
  (forall s, r_slot r = Some s -> slot_live g own s) /\
  (r_seen r = true -> co_run_gate g = CO_RUN_RUNNING).

#[local] Arguments slot_static : simpl never.
#[local] Arguments role_static : simpl never.
#[local] Arguments role_live : simpl never.

Record run_ok_by (own : option phase) (g : gate) (R : list role) : Prop := {
  ok_own : omap r_phase R = option_list own;
  ok_gate : gate_word own (count r_ref R) (co_run_gate g);
  ok_lock : co_vcpu_claim_lock g = Z.of_nat (count r_lock R) /\ (count r_lock R <= 1)%nat;
  ok_slots : NoDup (omap (fun r => s_index <$> r_slot r) R);
  ok_free v : 0 <= v < CO_MAX_VCPUS -> active g v <> CO_VCPU_FREE ->
    v ∈ omap (fun r => s_index <$> r_slot r) R;
  ok_pages : (R ≫= r_pages) ++ counted own (ap_passage g) ≡ₚ elements (live g);
  ok_null : null_ok own (ap_passage g);
  ok_static : Forall role_static R;
  ok_live : Forall (role_live g own) R;
  ok_stop : stop_asked (co_run_gate g) -> vcpu_abort_all g = 1 \/ (0 < count r_owes R)%nat;
  ok_nonzero : 0 ∉ live g;
}.
Definition run_ok (g : gate) (R : list role) : Prop := exists own, run_ok_by own g R.

Lemma count_perm f R R' : R ≡ₚ R' -> count f R = count f R'.
Proof. unfold count. induction 1; simpl; lia. Qed.

Lemma run_ok_by_perm own g R R' : R ≡ₚ R' -> run_ok_by own g R -> run_ok_by own g R'.
Proof.
  intros Hp [Io Ig Il Is If Ip In Ist Ili Iso Inz].
  assert (omap r_phase R' ≡ₚ option_list own) as Ho by by rewrite <- Hp, Io.
  split; try done.
  - destruct own; simpl in *; [by apply Permutation_singleton_r|by apply Permutation_nil_r].
  - by rewrite <- (count_perm _ _ _ Hp).
  - by rewrite <- (count_perm _ _ _ Hp).
  - by rewrite <- Hp.
  - intros v Hv Ha. rewrite <- Hp. by apply If.
  - by rewrite <- Hp.
  - by rewrite <- Hp.
  - by rewrite <- Hp.
  - intros Hs. rewrite <- (count_perm _ _ _ Hp). by apply Iso.
Qed.

Lemma run_ok_perm g R R' : R ≡ₚ R' -> run_ok g R -> run_ok g R'.
Proof. intros Hp [own Hok]. exists own. by eapply run_ok_by_perm. Qed.

(** ** Programs that keep it *)

(** A change of tokens that needs no access. *)
Definition shift (r r' : role) : Prop :=
  r_slot r' = r_slot r /\ r_pages r' = r_pages r /\
  forall g R, run_ok g (r :: R) -> run_ok g (r' :: R).

(** The thread may use a page: it is its own, or its passage. *)
Definition holds (r : role) (p : Z) : Prop :=
  p ∈ r_pages r \/
  exists s, r_slot r = Some s /\ s_kind s = LaneSlot /\ s_pass s = Some p /\ p <> 0.
Definition may (r : role) (o : op) : Prop :=
  match o with
  | Cross p => holds r p
  | FreePages p => p ∈ r_pages r
  | _ => True
  end.

Fixpoint safe (p : prog) (r : role) : Prop :=
  match p with
  | Done => shift r nobody
  | Blocked => True
  | Op o k => forall g R, run_ok g (r :: R) ->
      may r o /\
      forall x g', run_op g o x g' -> exists r', run_ok g' (r' :: R) /\ safe (k x) r'
  end.

Lemma safe_shift p r r' : shift r r' -> safe p r' -> safe p r.
Proof.
  intros (Es & Ep & Hs) Hp. destruct p as [| |o k]; simpl in *; [|done|].
  - destruct Hp as (Es' & Ep' & Hp). split_and!; [congruence|congruence|auto].
  - intros g R Hok. destruct (Hp g R (Hs g R Hok)) as [Hm Hgo]. split; [|done].
    destruct o; simpl in *; try done; unfold holds in *; by rewrite <- Es, <- Ep || rewrite <- Ep.
Qed.

(** The loop rule: what holds of one turn, the next assumed. *)
Lemma safe_forever body r : (forall p, safe p r -> safe (body p) r) -> safe (forever body) r.
Proof.
  intros Hb g R Hok. split; [done|]. intros x g' Hrun. inversion Hrun; subst.
  exists r. split; [done|]. generalize (Z.to_nat x) as n.
  induction n as [|n IH]; [done|]. by apply Hb.
Qed.

Lemma safe_choose k r : (forall x, safe (k x) r) -> safe (Op Choose k) r.
Proof.
  intros Hk g R Hok. split; [done|]. intros x g' Hrun. inversion Hrun; subst. by exists r.
Qed.

Lemma safe_ask k r : (forall b, safe (k b) r) -> safe (ask k) r.
Proof. intros Hk. by apply safe_choose. Qed.

(** All threads at once. *)
Definition protocol (s : rsys) : Prop :=
  exists R, run_ok (r_gate s) R /\ Forall2 safe (r_threads s) R.

Lemma insert_front {A} (l : list A) i x :
  l !! i = Some x -> exists l', l ≡ₚ x :: l' /\ forall y, <[i := y]> l ≡ₚ y :: l'.
Proof.
  intros Hi. exists (take i l ++ drop (S i) l). split.
  - rewrite <- (take_drop_middle l i x Hi) at 1. by rewrite Permutation_middle.
  - intros y. rewrite insert_take_drop by (by eapply lookup_lt_Some). by rewrite Permutation_middle.
Qed.

Lemma protocol_step s s' :
  (forall p, entry p -> safe p nobody) -> protocol s -> rstep s s' -> protocol s'.
Proof.
  intros Hentry (R & Hok & Hsafe) Hs.
  destruct Hs as [g g' ps t o x k Ht Hrun|g ps t p Ht He]; simpl in *;
    destruct (Forall2_lookup_l _ _ _ _ _ Hsafe Ht) as (r & Hr & Hp);
    destruct (insert_front _ _ _ Hr) as (R' & Hperm & Hins).
  - destruct (Hp g R' (run_ok_perm _ _ _ Hperm Hok)) as [_ Hgo].
    destruct (Hgo x g' Hrun) as (r' & Hok' & Hp').
    exists (<[t := r']> R). split; [eapply run_ok_perm; [by rewrite Hins|done]|by apply Forall2_insert].
  - exists (<[t := nobody]> R). split; [|by apply Forall2_insert; auto].
    eapply run_ok_perm; [by rewrite Hins|]. destruct Hp as (_ & _ & Hp).
    by apply Hp, (run_ok_perm _ _ _ Hperm).
Qed.

Lemma protocol_may s t o k :
  protocol s -> r_threads s !! t = Some (Op o k) ->
  exists r R, run_ok (r_gate s) (r :: R) /\ may r o.
Proof.
  intros (R & Hok & Hsafe) Ht.
  destruct (Forall2_lookup_l _ _ _ _ _ Hsafe Ht) as (r & Hr & Hp).
  destruct (insert_front _ _ _ Hr) as (R' & Hperm & _).
  pose proof (run_ok_perm _ _ _ Hperm Hok) as Hok'. exists r, R'. split; [done|].
  by destruct (Hp _ _ Hok').
Qed.

Lemma protocol_may_two s t1 t2 o1 k1 o2 k2 :
  protocol s -> t1 <> t2 ->
  r_threads s !! t1 = Some (Op o1 k1) -> r_threads s !! t2 = Some (Op o2 k2) ->
  exists r1 r2 R, run_ok (r_gate s) (r1 :: r2 :: R) /\ may r1 o1 /\ may r2 o2.
Proof.
  intros (R & Hok & Hsafe) Hne Ht1 Ht2.
  destruct (Forall2_lookup_l _ _ _ _ _ Hsafe Ht1) as (r1 & Hr1 & Hp1).
  destruct (Forall2_lookup_l _ _ _ _ _ Hsafe Ht2) as (r2 & Hr2 & Hp2).
  assert (exists R', R ≡ₚ r1 :: r2 :: R') as [R' Hperm].
  { assert (exists t, delete t1 R !! t = Some r2) as [t Ht].
    { destruct (decide (t2 < t1)%nat).
      - exists t2. by rewrite list_lookup_delete_lt.
      - exists (pred t2). rewrite list_lookup_delete_ge by lia. by replace (S (pred t2)) with t2 by lia. }
    exists (delete t (delete t1 R)).
    by rewrite <- (delete_Permutation (delete t1 R) t r2), <- (delete_Permutation R t1 r1). }
  pose proof (run_ok_perm _ _ _ Hperm Hok) as Hok'. exists r1, r2, R'. split; [done|].
  split; [by destruct (Hp1 _ _ Hok')|]. destruct (Hp2 (r_gate s) (r1 :: R')); [|done].
  eapply run_ok_perm; [|done]. constructor.
Qed.

(** ** Rules for the accesses *)

(** The invariant's clauses, those on roles split into the thread's and the
    others'. *)
Ltac open_ok Hok :=
  destruct Hok as [Io Ig Il Is If Ip In Ist Ili Iso Inz];
  apply Forall_cons in Ist as [Hst HstR]; apply Forall_cons in Ili as [Hlv HlvR].
(** And re-established. *)
Ltac close_ok :=
  split; simpl in *; try done; try (apply Forall_cons; split; [|try done]);
  try (match goal with H : role_static _ |- role_static _ => exact H end);
  try (match goal with H : role_live ?g ?own _ |- role_live _ ?own _ => exact H end).

Lemma owner_front own g r R ph :
  run_ok_by own g (r :: R) -> r_phase r = Some ph -> own = Some ph /\ omap r_phase R = [].
Proof.
  intros Hok Hr. pose proof (ok_own _ _ _ Hok) as Ho. simpl in Ho. rewrite Hr in Ho.
  by destruct own; simplify_eq/=.
Qed.

(** A role keeps its truth when its slot's words stay and the gate does. *)
Lemma role_live_mono g own g' own' r :
  role_live g own r ->
  (r_seen r = true -> co_run_gate g' = co_run_gate g) ->
  (forall s, r_slot r = Some s ->
     active g' (s_index s) = active g (s_index s) /\
     diagnostic g' (s_index s) = diagnostic g (s_index s) /\
     (s_kind s = LaneSlot -> lane_allowed own (s_index s) ->
        lane_allowed own' (s_index s) /\ ap_passage g' (s_index s) = ap_passage g (s_index s))) ->
  role_live g' own' r.
Proof.
  intros [Hs Hg] Hgate Hslot. split.
  - intros s Hr. destruct (Hs s Hr) as (Ha & Hd & Hl & Hp), (Hslot s Hr) as (Ea & Ed & El).
    split_and!.
    + congruence.
    + intros d Hd'. rewrite Ed. by apply Hd.
    + intros Hk. apply El; auto.
    + intros p Hp'. destruct (Hp p Hp') as [Hk Hp'']. split; [done|].
      destruct (El Hk (Hl Hk)) as [_ ->]. done.
  - intros Hseen. rewrite Hgate by done. auto.
Qed.

(** The statics change only in words no slot's role depends on, the gate among
    them only if nobody has seen it under the lock. *)
Lemma roles_live_same g own g' own' R :
  Forall (role_live g own) R ->
  (co_run_gate g' = co_run_gate g \/ Forall (fun r => r_seen r = false) R) ->
  active g' = active g -> diagnostic g' = diagnostic g ->
  (forall r s, r ∈ R -> r_slot r = Some s -> s_kind s = LaneSlot -> lane_allowed own (s_index s) ->
     lane_allowed own' (s_index s) /\ ap_passage g' (s_index s) = ap_passage g (s_index s)) ->
  Forall (role_live g' own') R.
Proof.
  intros HR Hgate Ha Hd Hl. rewrite Forall_forall in *. intros r Hr.
  eapply role_live_mono; [by apply HR|..].
  - destruct Hgate as [?|Hns]; [done|]. intros Hs. by rewrite (Hns r Hr) in Hs.
  - intros s Hs. rewrite Ha, Hd. split_and!; [done|done|]. by apply (Hl r).
Qed.

Lemma front_live own g r R : run_ok_by own g (r :: R) -> role_live g own r /\ Forall (role_live g own) R.
Proof. intros Hok. by apply Forall_cons, ok_live. Qed.
Lemma front_static own g r R : run_ok_by own g (r :: R) -> role_static r /\ Forall role_static R.
Proof. intros Hok. by eapply Forall_cons, ok_static. Qed.

Lemma safe_read_abort k r : (forall x, safe (k x) r) -> safe (Op ReadAbort k) r.
Proof.
  intros Hk g R Hok. split; [done|]. intros x g' Hrun. inversion Hrun; subst. by exists r.
Qed.

Lemma put_eq f v x : put f v x v = x.
Proof. unfold put. by rewrite decide_True. Qed.
Lemma put_ne f v x u : u <> v -> put f v x u = f u.
Proof. intros. unfold put. by rewrite decide_False. Qed.
Lemma put_same f v x u : f v = x -> put f v x u = f u.
Proof. intros <-. unfold put. by case_decide; subst. Qed.

Lemma safe_read_active v k r : (forall x, safe (k x) r) -> safe (read_active v k) r.
Proof.
  intros Hk g R Hok. split; [done|]. intros x g' Hrun. inversion Hrun; subst. exists r.
  split; [|done]. destruct (Z.eqb_spec (active g v) 0) as [E|]; [|done].
  destruct Hok as [own Hok]. exists own. destruct Hok; split; simpl; try done.
  - intros u Hu. rewrite put_same by done. auto.
  - eapply Forall_impl; [done|]. intros r' Hr'.
    eapply role_live_mono; [done|done|]. intros s Hs. simpl. by rewrite put_same.
Qed.

Lemma safe_write_abort k r : safe (k 0) (with_owes false r) -> safe (Op (WriteAbort 1) k) r.
Proof.
  intros Hk g R [own Hok]. split; [done|]. intros x g' Hrun. inversion Hrun; subst.
  exists (with_owes false r). split; [|done]. exists own. open_ok Hok; close_ok. by left.
Qed.

Lemma safe_take_lock k r :
  (r_lock r = false -> r_seen r = false -> safe (k 0) (with_lock true false r)) -> safe (Op TakeLock k) r.
Proof.
  intros Hk g R [own Hok]. split; [done|].
  intros x g' Hrun. inversion Hrun as [| | |Hz| | | | | | | | | | | |]; subst.
  assert (r_lock r = false) as Hl.
  { pose proof (ok_lock _ _ _ Hok) as Il. rewrite Hz in Il. unfold count in Il. simpl in Il.
    destruct (r_lock r); [simpl in *; lia|done]. }
  assert (r_seen r = false) as Hs.
  { destruct (front_static _ _ _ _ Hok) as [(_ & _ & Hseen) _]. destruct (r_seen r); [|done].
    by rewrite Hseen in Hl. }
  exists (with_lock true false r). split; [|by apply Hk]. exists own. open_ok Hok; close_ok.
  - unfold count in *. simpl in *. rewrite Hl in Il. simpl in Il. lia.
  - by destruct Hst as (? & ? & ?).
  - by destruct Hlv.
Qed.

Lemma safe_drop_lock k r :
  r_lock r = true -> safe (k 0) (with_lock false false r) -> safe (Op DropLock k) r.
Proof.
  intros Hl Hk g R [own Hok]. split; [done|]. intros x g' Hrun. inversion Hrun; subst.
  exists (with_lock false false r). split; [|done]. exists own. open_ok Hok; close_ok.
  - unfold count in *. simpl in *. rewrite Hl in Il. simpl in Il. lia.
  - by destruct Hst as (? & ? & ?).
  - by destruct Hlv.
Qed.

(** *** Slots *)

Definition indexes (R : list role) : list Z := omap (fun r => s_index <$> r_slot r) R.

Lemma slot_index_fresh own g r R s :
  run_ok_by own g (r :: R) -> r_slot r = Some s -> s_index s ∉ indexes R.
Proof.
  intros Hok Hs. pose proof (ok_slots _ _ _ Hok) as Hd. simpl in Hd. rewrite Hs in Hd.
  by apply NoDup_cons in Hd as [? _].
Qed.

Lemma slot_other (r' : role) R s v :
  v ∉ indexes R -> r' ∈ R -> r_slot r' = Some s -> s_index s <> v.
Proof.
  intros Hv Hin Hs <-. apply Hv, list_elem_of_omap. exists r'. split; [done|]. by rewrite Hs.
Qed.

(** The others do not see a thread's change of its own slot. *)
Lemma roles_live_slot g g' own v R :
  Forall (role_live g own) R -> v ∉ indexes R ->
  co_run_gate g' = co_run_gate g -> ap_passage g' = ap_passage g ->
  (forall u, u <> v -> active g' u = active g u /\ diagnostic g' u = diagnostic g u) ->
  Forall (role_live g' own) R.
Proof.
  intros HR Hv Hg Hp Hu. rewrite Forall_forall in *. intros r Hr.
  eapply role_live_mono; [by apply HR|done|]. intros s Hs.
  destruct (Hu (s_index s)) as [-> ->]; [by eapply slot_other|]. by rewrite Hp.
Qed.

Definition known_diag (d : Z) (s : slot) : slot :=
  Slot (s_index s) (s_kind s) (s_active s) (Some d) (s_pass s).
Definition with_active (a : Z) (s : slot) : slot :=
  Slot (s_index s) (s_kind s) a (s_diag s) (s_pass s).
Definition known_pass (p : Z) (s : slot) : slot :=
  Slot (s_index s) (s_kind s) (s_active s) (s_diag s) (Some p).

Lemma safe_read_diagnostic v k r s d :
  r_slot r = Some s -> s_index s = v -> s_diag s = Some d ->
  safe (k d) r -> safe (Op (ReadDiagnostic v) k) r.
Proof.
  intros Hs Hv Hd Hk g R Hok. split; [done|]. intros x g' Hrun. inversion Hrun; subst.
  exists r. split; [done|]. destruct Hok as [own Hok].
  destruct (front_live _ _ _ _ Hok) as [[Hsl _] _].
  destruct (Hsl s Hs) as (_ & Hdd & _). by rewrite (Hdd d Hd).
Qed.

(** A thread's role with its slot described anew. *)
Lemma static_slot r s s' :
  role_static r -> r_slot r = Some s -> s_index s' = s_index s -> s_kind s' = s_kind s ->
  s_active s' <> CO_VCPU_FREE -> role_static (with_slot (Some s') r).
Proof.
  intros (Hst & Hrun' & Hseen) Hs Hi Hk Ha. split_and!; [|..|done].
  - intros s'' [= <-]. destruct (Hst s Hs) as (? & ? & ?). unfold slot_static. rewrite Hi, Hk.
    split; [done|]. split; [done|by destruct (s_kind s)].
  - intros Hr. destruct (Hrun' Hr) as (s'' & Hs'' & Hk'). exists s'. simplify_eq. split; [done|congruence].
Qed.

Lemma safe_write_diagnostic v x k r s :
  r_slot r = Some s -> s_index s = v ->
  safe (k 0) (with_slot (Some (known_diag x s)) r) -> safe (Op (WriteDiagnostic v x) k) r.
Proof.
  intros Hs Hv Hk g R [own Hok]. split; [done|]. intros y g' Hrun. inversion Hrun; subst.
  exists (with_slot (Some (known_diag x s)) r). split; [|done]. exists own.
  pose proof (slot_index_fresh _ _ _ _ _ Hok Hs) as Hfresh. open_ok Hok; close_ok.
  - by rewrite Hs in Is.
  - by rewrite Hs in If.
  - eapply static_slot; try done. by destruct (proj1 Hst s Hs) as (_ & ? & _).
  - destruct Hlv as [Hsl Hg]. split; [|done]. intros s' [= <-].
    destruct (Hsl s Hs) as (? & ? & ? & ?). split_and!; try done. simpl. intros d [= <-]. apply put_eq.
  - eapply (roles_live_slot _ _ _ (s_index s)); [done|done|done|done|].
    intros u Hu. split; [done|]. by apply put_ne.
Qed.

Lemma safe_store_active v a k r s :
  r_slot r = Some s -> s_index s = v -> a <> CO_VCPU_FREE ->
  safe (k 0) (with_slot (Some (with_active a s)) r) -> safe (Op (StoreActive v a) k) r.
Proof.
  intros Hs Hv Ha Hk g R [own Hok]. split; [done|]. intros y g' Hrun. inversion Hrun; subst.
  exists (with_slot (Some (with_active a s)) r). split; [|done]. exists own.
  pose proof (slot_index_fresh _ _ _ _ _ Hok Hs) as Hfresh. open_ok Hok; close_ok.
  - by rewrite Hs in Is.
  - rewrite Hs in If. intros u Hu Hau. simpl. destruct (decide (u = s_index s)) as [->|].
    + left.
    + rewrite put_ne in Hau by done. by apply If.
  - by eapply static_slot.
  - destruct Hlv as [Hsl Hg]. split; [|done]. intros s' [= <-].
    destruct (Hsl s Hs) as (? & ? & ? & ?). split_and!; try done. simpl. apply put_eq.
  - eapply (roles_live_slot _ _ _ (s_index s)); [done|done|done|done|].
    intros u Hu. split; [|done]. by apply put_ne.
Qed.

(** Giving a slot up. *)
Lemma safe_free_slot v k r s :
  r_slot r = Some s -> s_index s = v -> r_phase r <> Some Running ->
  safe (k 0) (with_slot None r) -> safe (Op (StoreActive v CO_VCPU_FREE) k) r.
Proof.
  intros Hs Hv Hnr Hk g R [own Hok]. split; [done|]. intros y g' Hrun. inversion Hrun; subst.
  exists (with_slot None r). split; [|done]. exists own.
  pose proof (slot_index_fresh _ _ _ _ _ Hok Hs) as Hfresh. open_ok Hok; close_ok.
  - rewrite Hs in Is. by apply NoDup_cons in Is as [_ ?].
  - rewrite Hs in If. intros u Hu Hau. destruct (decide (u = s_index s)) as [->|].
    + by rewrite put_eq in Hau.
    + rewrite put_ne in Hau by done. by destruct (proj1 (elem_of_cons _ _ _) (If u Hu Hau)).
  - by destruct Hst as (? & ? & ?).
  - by destruct Hlv.
  - eapply (roles_live_slot _ _ _ (s_index s)); [done|done|done|done|].
    intros u Hu. split; [|done]. by apply put_ne.
Qed.

(** A compare-and-swap on one's own slot succeeds. *)
Lemma safe_swap_active v old new k r s :
  r_slot r = Some s -> s_index s = v -> s_active s = old -> new <> CO_VCPU_FREE ->
  safe (k old) (with_slot (Some (with_active new s)) r) -> safe (Op (CasActive v old new) k) r.
Proof.
  intros Hs Hv Ho Hn Hk g R Hok. split; [done|]. intros y g' Hrun. inversion Hrun; subst.
  assert (active g (s_index s) = s_active s) as Ea.
  { destruct Hok as [own Hok]. destruct (front_live _ _ _ _ Hok) as [[Hsl _] _].
    by destruct (Hsl s Hs). }
  rewrite Ea, Z.eqb_refl.
  assert (safe (Op (StoreActive (s_index s) new) (fun _ => k (s_active s))) r) as Hstore
    by by eapply safe_store_active.
  destruct (Hstore g R Hok) as [_ Hgo]. apply (Hgo 0). constructor.
Qed.

(** *** Taking a slot *)

Lemma in_indexes v R : v ∈ indexes R -> exists r s, r ∈ R /\ r_slot r = Some s /\ s_index s = v.
Proof.
  intros Hin. apply list_elem_of_omap in Hin as (r & Hr & Hidx).
  destruct (r_slot r) as [s|] eqn:Hs; [|done]. simplify_eq/=. eauto.
Qed.

Lemma free_index own g r R v :
  run_ok_by own g (r :: R) -> active g v = CO_VCPU_FREE -> v ∉ indexes R.
Proof.
  intros Hok Ha (r' & s & Hr' & Hs & <-)%in_indexes.
  destruct (front_live _ _ _ _ Hok) as [_ HL], (front_static _ _ _ _ Hok) as [_ HS].
  rewrite Forall_forall in HL, HS. destruct (HL r' Hr') as [Hsl _], (HS r' Hr') as [Hss _].
  destruct (Hsl s Hs) as (Ea & _), (Hss s Hs) as (_ & Hna & _). congruence.
Qed.

Ltac gate_consts :=
  change CO_RUN_REF_ONE with 8 in *;
  unfold CO_RUN_RUNNING, CO_RUN_STARTING, CO_RUN_STOPPING, CO_RUN_IDLE, CO_RUN_TESTING,
    CO_RUN_TEST_STARTING, CO_RUN_TEST_STOPPING in *.

(** Only a run that is open has this word. *)
Lemma word_running own n : gate_word own n CO_RUN_RUNNING -> own = Some Running.
Proof.
  unfold gate_word. gate_consts. destruct own as [[]|]; try (intros; exfalso; lia); [done|].
  intros [?|(? & st & ? & ?)]; lia.
Qed.

(** While the run is open the boot processor's slot is taken. *)
Lemma running_slot g r R : run_ok_by (Some Running) g (r :: R) -> active g 0 <> CO_VCPU_FREE.
Proof.
  intros Hok Ha. pose proof (free_index _ _ _ _ _ Hok Ha) as Hfresh.
  assert (exists r', r' ∈ r :: R /\ r_phase r' = Some Running) as (r' & Hr' & Hph).
  { apply list_elem_of_omap. rewrite (ok_own _ _ _ Hok). left. }
  pose proof (ok_static _ _ _ Hok) as HS. pose proof (ok_live _ _ _ Hok) as HL.
  rewrite Forall_forall in HS, HL. destruct (HS r' Hr') as (Hss & Hrun & _).
  destruct (Hrun Hph) as (s & Hs & Hk). destruct (Hss s Hs) as (_ & Hna & Hb). rewrite Hk in Hb.
  destruct Hb as [Hi _]. destruct (HL r' Hr') as [Hsl _]. destruct (Hsl s Hs) as (Ea & _). congruence.
Qed.

(** Taking a free slot: a secondary only under the lock, having seen the run
    open there. *)
Lemma safe_claim v k r kind :
  0 <= v < CO_MAX_VCPUS -> r_slot r = None -> r_phase r <> Some Running ->
  match kind with
  | BootSlot => v = 0 /\ r_phase r <> None
  | LaneSlot => r_seen r = true
  | TestSlot => r_ref r = true
  end ->
  (forall x, x <> CO_VCPU_FREE -> safe (k x) r) ->
  safe (k CO_VCPU_FREE) (with_slot (Some (Slot v kind CO_VCPU_CLAIMING None None)) r) ->
  safe (Op (CasActive v CO_VCPU_FREE CO_VCPU_CLAIMING) k) r.
Proof.
  intros Hv Hs Hnr Hkind Hkf Hk g R Hok. split; [done|]. intros x g' Hrun. inversion Hrun; subst.
  destruct (Z.eqb_spec (active g v) CO_VCPU_FREE) as [Ea|Ea]; [|exists r; auto].
  rewrite Ea. set (s := Slot v kind CO_VCPU_CLAIMING None None) in *.
  exists (with_slot (Some s) r). split; [|done]. destruct Hok as [own Hok]. exists own.
  pose proof (free_index _ _ _ _ _ Hok Ea) as Hfresh.
  assert (kind = LaneSlot -> own = Some Running /\ v <> 0) as Hlane.
  { intros ->. destruct (front_live _ _ _ _ Hok) as [[_ Hseen] _].
    pose proof (ok_gate _ _ _ Hok) as Hg. rewrite (Hseen Hkind) in Hg. apply word_running in Hg as ->.
    split; [done|]. intros ->. by apply (running_slot _ _ _ Hok). }
  open_ok Hok; close_ok.
  - rewrite Hs in Is. by apply NoDup_cons.
  - rewrite Hs in If. intros u Hu Hau. destruct (decide (u = v)) as [->|]; [left|right].
    rewrite put_ne in Hau by done. by apply If.
  - destruct Hst as (_ & _ & Hseen). split_and!; [|done|done].
    intros s' [= <-]. split; [done|]. split; [done|]. unfold s. simpl. destruct kind; [done| |done].
    destruct Hlane; [done|lia].
  - destruct Hlv as [_ Hg]. split; [|done]. intros s' [= <-]. unfold s. split_and!; simpl; try done.
    + apply put_eq.
    + intros ->. by destruct Hlane as [-> _].
  - eapply (roles_live_slot _ _ _ v); [done|done|done|done|].
    intros u Hu. split; [|done]. by apply put_ne.
Qed.

(** *** Pages *)

Lemma safe_alloc k r :
  safe (k 0) r -> (forall p, p <> 0 -> safe (k p) (with_pages (p :: r_pages r) r)) ->
  safe (Op AllocPages k) r.
Proof.
  intros Hk0 Hk g R [own Hok]. split; [done|]. intros x g' Hrun.
  inversion Hrun as [| | | | | | | | | | |p Hp Hfresh| | | |]; subst; [|by exists r; split; [exists own|]].
  exists (with_pages (x :: r_pages r) r). split; [|by apply Hk]. exists own. open_ok Hok; close_ok.
  - rewrite elements_union_singleton by done. by rewrite Ip.
  - set_solver.
Qed.

Lemma safe_free_pages p k r l :
  r_pages r = p :: l -> safe (k 0) (with_pages l r) -> safe (Op (FreePages p) k) r.
Proof.
  intros Hl Hk g R [own Hok].
  assert (p ∈ live g /\ elements (live g ∖ {[p]}) ≡ₚ
            (l ++ (R ≫= r_pages)) ++ counted own (ap_passage g)) as [Hp He].
  { pose proof (ok_pages _ _ _ Hok) as Ip. simpl in Ip. rewrite Hl in Ip. simpl in Ip.
    assert (p ∈ live g) as Hp by (apply elem_of_elements; rewrite <- Ip; left).
    split; [done|]. apply (Permutation_cons_inv (a := p)). rewrite Ip.
    rewrite <- elements_union_singleton by set_solver. f_equiv.
    intros y. destruct (decide (y = p)); set_solver. }
  split; [simpl; rewrite Hl; left|]. intros x g' Hrun. inversion Hrun; subst.
  exists (with_pages l r). split; [|done]. exists own. open_ok Hok; close_ok; set_solver.
Qed.

Lemma safe_cross_own p k r : p ∈ r_pages r -> safe (k 0) r -> safe (Op (Cross p) k) r.
Proof.
  intros Hp Hk g R Hok. split; [by left|]. intros x g' Hrun. inversion Hrun; subst. by exists r.
Qed.

Definition nonzero (p : Z) : list Z := if decide (p = 0) then [] else [p].

Lemma counted_eq own f :
  counted own f =
  (if decide (counted_from own <= 1) then nonzero (f 1) else []) ++
  (if decide (counted_from own <= 2) then nonzero (f 2) else []) ++
  (if decide (counted_from own <= 3) then nonzero (f 3) else []).
Proof.
  unfold counted, nonzero. set (c := counted_from own).
  assert (forall v l, c <= v \/ ~ c <= v ->
    filter (fun p => p <> 0) (f <$> filter (fun u => c <= u) (v :: l)) =
    (if decide (c <= v) then (if decide (f v = 0) then [] else [f v]) else []) ++
    filter (fun p => p <> 0) (f <$> filter (fun u => c <= u) l)) as Hc.
  { intros v l _. rewrite filter_cons. case_decide; [|done]. rewrite fmap_cons, filter_cons.
    repeat case_decide; try done; tauto. }
  rewrite !Hc by lia. by rewrite filter_nil, app_nil_r.
Qed.

(** The passage of a secondary under way. *)
Lemma lane_page own g r R s p :
  run_ok_by own g (r :: R) -> r_slot r = Some s -> s_kind s = LaneSlot -> s_pass s = Some p ->
  counted_from own = 1 /\ 1 <= s_index s <= 3 /\ ap_passage g (s_index s) = p.
Proof.
  intros Hok Hs Hk Hpass.
  destruct (front_live _ _ _ _ Hok) as [[Hsl _] _], (front_static _ _ _ _ Hok) as [[Hss _] _].
  destruct (Hsl s Hs) as (_ & _ & Hl & Hpp). destruct (Hpp p Hpass) as [_ Hap].
  specialize (Hl Hk). destruct (Hss s Hs) as (Hi & _ & Hi1). rewrite Hk in Hi1.
  unfold CO_MAX_VCPUS in Hi. split; [|lia || (split; [lia|done])]. by destruct own as [[]|].
Qed.

Lemma counted_in own f v :
  counted_from own <= v -> 1 <= v <= 3 -> f v <> 0 -> f v ∈ counted own f.
Proof.
  intros Hc Hv Hf. unfold counted. apply list_elem_of_filter. split; [done|].
  apply list_elem_of_fmap. exists v. split; [done|]. apply list_elem_of_filter. split; [done|].
  assert (v = 1 \/ v = 2 \/ v = 3) as [->|[->| ->]] by lia; set_solver.
Qed.

Lemma counted_once own f v u :
  NoDup (counted own f) -> counted_from own = 1 -> 1 <= v <= 3 -> 1 <= u <= 3 -> v <> u ->
  f v = f u -> f v <> 0 -> False.
Proof.
  intros Hd Hc Hv Hu Hne E Hf. rewrite counted_eq, Hc in Hd. unfold nonzero in Hd.
  assert (v = 1 \/ v = 2 \/ v = 3) as Hv' by lia. assert (u = 1 \/ u = 2 \/ u = 3) as Hu' by lia.
  destruct Hv' as [->|[->| ->]], Hu' as [->|[->| ->]]; try lia;
    repeat (case_decide; try lia); simpl in Hd; rewrite ?E in Hd;
    repeat (apply NoDup_cons in Hd as [? Hd]); set_solver.
Qed.

Lemma held_live g r R p : run_ok g (r :: R) -> holds r p -> p ∈ live g.
Proof.
  intros [own Hok] Hp. apply elem_of_elements. rewrite <- (ok_pages _ _ _ Hok). apply elem_of_app.
  destruct Hp as [Hp|(s & Hs & Hk & Hpass & Hp)]; [left; simpl; set_solver|right].
  destruct (lane_page _ _ _ _ _ _ Hok Hs Hk Hpass) as (Hc & Hi & <-). apply counted_in; lia.
Qed.

(** No page is two threads'. *)
Lemma held_once g r1 r2 R p :
  run_ok g (r1 :: r2 :: R) -> holds r1 p -> holds r2 p -> False.
Proof.
  intros [own Hok] Hp1 Hp2.
  assert (NoDup (((r1 :: r2 :: R) ≫= r_pages) ++ counted own (ap_passage g))) as Hd.
  { rewrite (ok_pages _ _ _ Hok). apply NoDup_elements. }
  assert (run_ok_by own g (r2 :: r1 :: R)) as Hok2 by (by eapply run_ok_by_perm; [constructor|]).
  apply NoDup_app in Hd as (Hd & Hdisj & Hc). cbn [mbind list_bind] in Hd.
  destruct Hp1 as [Hp1|(s1 & Hs1 & Hk1 & Hpass1 & Hp)], Hp2 as [Hp2|(s2 & Hs2 & Hk2 & Hpass2 & Hp')].
  - apply NoDup_app in Hd as (_ & Hd & _). apply (Hd p Hp1). simpl. set_solver.
  - destruct (lane_page _ _ _ _ _ _ Hok2 Hs2 Hk2 Hpass2) as (Hc2 & Hi & E). apply (Hdisj p).
    + simpl. set_solver.
    + rewrite <- E. apply counted_in; lia.
  - destruct (lane_page _ _ _ _ _ _ Hok Hs1 Hk1 Hpass1) as (Hc1 & Hi & E). apply (Hdisj p).
    + simpl. set_solver.
    + rewrite <- E. apply counted_in; lia.
  - destruct (lane_page _ _ _ _ _ _ Hok Hs1 Hk1 Hpass1) as (Hc1 & Hi1 & E1).
    destruct (lane_page _ _ _ _ _ _ Hok2 Hs2 Hk2 Hpass2) as (_ & Hi2 & E2).
    apply (counted_once own (ap_passage g) (s_index s1) (s_index s2)); try done; [|congruence|congruence].
    pose proof (slot_index_fresh _ _ _ _ _ Hok Hs1) as Hf. intros E. apply Hf. rewrite E.
    unfold indexes. simpl. rewrite Hs2. left.
Qed.

(** A secondary crosses through the page made for it, which is kept while its
    slot is taken. *)
Lemma safe_cross_lane p k r s :
  r_slot r = Some s -> s_pass s = Some p -> p <> 0 -> safe (k 0) r -> safe (Op (Cross p) k) r.
Proof.
  intros Hs Hpass Hp Hk g R Hok. split.
  - destruct Hok as [own Hok]. destruct (front_live _ _ _ _ Hok) as [[Hsl _] _].
    destruct (Hsl s Hs) as (_ & _ & _ & Hpp). right. exists s. destruct (Hpp p Hpass). auto.
  - intros x g' Hrun. inversion Hrun; subst. by exists r.
Qed.

Lemma safe_read_passage_lane v k r s :
  r_slot r = Some s -> s_index s = v -> s_kind s = LaneSlot ->
  (forall p, safe (k p) (with_slot (Some (known_pass p s)) r)) -> safe (Op (ReadPassage v) k) r.
Proof.
  intros Hs Hv Hkind Hk g R [own Hok]. split; [done|]. intros x g' Hrun. inversion Hrun; subst.
  eexists. split; [|apply Hk]. exists own. open_ok Hok; close_ok.
  - by rewrite Hs in Is.
  - by rewrite Hs in If.
  - eapply static_slot; try done. by destruct (proj1 Hst s Hs) as (_ & ? & _).
  - destruct Hlv as [Hsl Hg]. split; [|done]. intros s' [= <-].
    destruct (Hsl s Hs) as (? & ? & ? & ?). split_and!; try done. simpl. by intros p [= <-].
Qed.

Lemma safe_reread_passage v k r s p :
  r_slot r = Some s -> s_index s = v -> s_pass s = Some p ->
  safe (k p) r -> safe (Op (ReadPassage v) k) r.
Proof.
  intros Hs Hv Hp Hk g R Hok. split; [done|]. intros x g' Hrun. inversion Hrun; subst.
  exists r. split; [done|]. destruct Hok as [own Hok]. destruct (front_live _ _ _ _ Hok) as [[Hsl _] _].
  destruct (Hsl s Hs) as (_ & _ & _ & Hpp). by destruct (Hpp p Hp) as [_ ->].
Qed.

(** A test lane never finds a passage: no boot is under way. *)
Lemma ref_no_owner own g r R : run_ok_by own g (r :: R) -> r_ref r = true -> own = None.
Proof.
  intros Hok Hr. pose proof (ok_gate _ _ _ Hok) as Hg. unfold count in Hg. simpl in Hg.
  rewrite Hr in Hg. destruct own; [|done]. by destruct Hg.
Qed.

Lemma safe_read_passage_test v k r :
  r_ref r = true -> safe (k 0) r -> safe (Op (ReadPassage v) k) r.
Proof.
  intros Hr Hk g R Hok. split; [done|]. intros x g' Hrun. inversion Hrun; subst.
  exists r. split; [done|]. destruct Hok as [own Hok]. pose proof (ref_no_owner _ _ _ _ Hok Hr) as ->.
  pose proof (ok_null _ _ _ Hok) as In. simpl in In. by rewrite In.
Qed.

(** *** The owner of the run *)

(** The owner goes on to another phase, and what it did to the passages. *)
Lemma rephase ph ph' l g g' r R :
  run_ok_by (Some ph) g (r :: R) -> r_phase r = Some ph ->
  co_run_gate g' = co_run_gate g -> vcpu_abort_all g' = vcpu_abort_all g ->
  co_vcpu_claim_lock g' = co_vcpu_claim_lock g -> active g' = active g -> diagnostic g' = diagnostic g ->
  gate_word (Some ph') 0 (co_run_gate g) -> ph' <> Running ->
  (forall v, 1 <= v < CO_MAX_VCPUS -> active g v <> CO_VCPU_FREE -> lane_allowed (Some ph) v ->
     lane_allowed (Some ph') v /\ ap_passage g' v = ap_passage g v) ->
  (l ++ (R ≫= r_pages)) ++ counted (Some ph') (ap_passage g') ≡ₚ elements (live g') ->
  null_ok (Some ph') (ap_passage g') -> 0 ∉ live g' ->
  run_ok_by (Some ph') g' (with_phase (Some ph') (with_pages l r) :: R).
Proof.
  intros Hok Hr Eg Ea El Eact Ed Hword Hph Hlanes Hp Hnull Hnz.
  assert (count r_ref R = 0%nat /\ r_ref r = false) as [Hc0 Hr0].
  { pose proof (ok_gate _ _ _ Hok) as [Hc _]. unfold count in *. simpl in Hc.
    destruct (r_ref r); simpl in Hc; split; [lia..|lia|done]. }
  destruct (owner_front _ _ _ _ _ Hok Hr) as [_ HoR].
  assert (forall r0 s, r0 ∈ r :: R -> r_slot r0 = Some s -> s_kind s = LaneSlot ->
    lane_allowed (Some ph) (s_index s) ->
    lane_allowed (Some ph') (s_index s) /\ ap_passage g' (s_index s) = ap_passage g (s_index s)) as Hl.
  { intros r0 s Hin Hs Hk Hal. pose proof (ok_static _ _ _ Hok) as HS. pose proof (ok_live _ _ _ Hok) as HL.
    rewrite Forall_forall in HS, HL. destruct (HS r0 Hin) as (Hss & _), (HL r0 Hin) as (Hsl & _).
    destruct (Hss s Hs) as (Hi & Hna & Hk'), (Hsl s Hs) as (Eact' & _). rewrite Hk' in Hk || rewrite Hk in Hk'.
    apply Hlanes; [unfold CO_MAX_VCPUS in *; lia|congruence|done]. }
  pose proof (ok_own _ _ _ Hok) as Io0. open_ok Hok; close_ok.
  - by f_equal.
  - rewrite Eg, Hr0, Hc0. exact Hword.
  - by rewrite El.
  - by rewrite Eact.
  - destruct Hst as (Hss & _ & Hseen). split_and!; [|simpl; congruence|done].
    intros s Hs. destruct (Hss s Hs) as (? & ? & Hk). split; [done|]. split; [done|].
    destruct (s_kind s); [|done..]. by destruct Hk.
  - eapply role_live_mono; [exact Hlv|done|]. intros s Hs. rewrite Eact, Ed. split_and!; [done..|].
    intros Hk Hal. by apply (Hl r s); [left|..].
  - eapply roles_live_same; [done|by left|done|done|]. intros r0 s Hin. apply Hl. by right.
  - by rewrite Eg, Ea.
Qed.

(** Reading the gate as the owner: past a stop there is no going back. *)
Definition stop_phase (p : phase) : phase :=
  match p with
  | Preparing _ => Joined 1 1
  | Running => Stopping []
  | p => p
  end.
Definition stopped_role (r : role) : role := with_phase (stop_phase <$> r_phase r) r.

Lemma with_phase_same r : with_phase (r_phase r) r = r.
Proof. by destruct r. Qed.
Lemma with_pages_same r : with_pages (r_pages r) r = r.
Proof. by destruct r. Qed.

Lemma stop_seen own g r R :
  run_ok_by own g (r :: R) -> r_phase r <> None -> co_run_gate g = CO_RUN_STOPPING ->
  run_ok g (stopped_role r :: R).
Proof.
  intros Hok Hr Hg. destruct (r_phase r) as [ph|] eqn:Hph; [|done].
  destruct (owner_front _ _ _ _ _ Hok Hph) as [-> HoR]. unfold stopped_role. rewrite Hph. simpl.
  destruct ph as [lo| |freed|c z]; simpl.
  3,4: (rewrite <- Hph, with_phase_same; eexists; exact Hok).
  - exists (Some (Joined 1 1)). rewrite <- (with_pages_same r) at 1.
    pose proof (ok_null _ _ _ Hok) as [Hlo Hn]. eapply rephase; try done; [..|by eapply ok_nonzero].
    + apply (ok_pages _ _ _ Hok).
    + simpl. intros v Hv. apply Hn. lia.
  - exists (Some (Stopping [])). rewrite <- (with_pages_same r) at 1.
    eapply rephase; try done; [..|by eapply ok_nonzero].
    + intros v Hv Ha Hal. split; [|done]. by apply not_elem_of_nil.
    + apply (ok_pages _ _ _ Hok).
    + apply (ok_null _ _ _ Hok).
Qed.

Lemma counted_ext own own' f f' :
  counted_from own = counted_from own' ->
  (forall v, 1 <= v <= 3 -> counted_from own <= v -> f v = f' v) ->
  counted own f = counted own' f'.
Proof.
  intros Hc Hf. unfold counted. rewrite Hc. f_equal. apply list_fmap_ext. intros i v Hi.
  apply list_elem_of_lookup_2, list_elem_of_filter in Hi as [Hv Hin]. apply Hf; [|congruence].
  set_unfold in Hin. lia.
Qed.

(** The passages below [counted_from] do not count. *)
Lemma counted_drop c z z' f :
  c = 1 \/ c = 2 \/ c = 3 ->
  counted (Some (Joined c z)) f = nonzero (f c) ++ counted (Some (Joined (c + 1) z')) f.
Proof.
  intros [->|[->| ->]]; rewrite !counted_eq; simpl; repeat case_decide; try lia; simpl;
    by rewrite ?app_nil_r.
Qed.

Lemma counted_add lo v f p :
  v = 1 \/ v = 2 \/ v = 3 -> f v = 0 -> p <> 0 ->
  counted (Some (Preparing lo)) (put f v p) ≡ₚ p :: counted (Some (Preparing lo)) f.
Proof.
  intros Hv Hf Hp. rewrite !counted_eq. simpl.
  assert (nonzero (f v) = [] /\ nonzero (put f v p v) = [p]) as [E1 E2].
  { unfold nonzero. rewrite put_eq. split; [by rewrite Hf, decide_True|by rewrite decide_False]. }
  destruct Hv as [->|[->| ->]]; rewrite E1, E2; rewrite ?put_ne by lia;
    repeat case_decide; try lia; simpl; rewrite ?app_nil_r; solve_Permutation.
Qed.

Lemma safe_clear_passage v k r lo lo' :
  r_phase r = Some (Preparing lo) -> v <= 0 \/ lo <= v -> lo <= lo' <= 4 ->
  safe (k 0) (with_phase (Some (Preparing lo')) r) -> safe (Op (WritePassage v 0) k) r.
Proof.
  intros Hr Hv Hlo Hk g R [own Hok]. split; [done|]. intros x g' Hrun. inversion Hrun; subst.
  eexists. split; [|exact Hk]. destruct (owner_front _ _ _ _ _ Hok Hr) as [-> HoR].
  exists (Some (Preparing lo')). pose proof (ok_null _ _ _ Hok) as [Hlo4 Hn].
  assert (forall u, put (ap_passage g) v 0 u = ap_passage g u) as Hput
    by (intros u; apply put_same; auto).
  rewrite <- (with_pages_same r) at 1. eapply rephase; try done; simpl.
  - destruct (ok_gate _ _ _ Hok) as [_ Hg]. by split.
  - rewrite (counted_ext _ (Some (Preparing lo)) _ (ap_passage g)) by done. apply (ok_pages _ _ _ Hok).
  - split; [lia|]. intros u Hu. rewrite Hput. apply Hn. lia.
  - by eapply ok_nonzero.
Qed.

Lemma safe_new_passage v p k r l :
  r_phase r = Some (Preparing v) -> v = 1 \/ v = 2 \/ v = 3 -> p <> 0 -> r_pages r = p :: l ->
  safe (k 0) (with_phase (Some (Preparing (v + 1))) (with_pages l r)) ->
  safe (Op (WritePassage v p) k) r.
Proof.
  intros Hr Hv Hp Hl Hk g R [own Hok]. split; [done|]. intros x g' Hrun. inversion Hrun; subst.
  eexists. split; [|exact Hk]. destruct (owner_front _ _ _ _ _ Hok Hr) as [-> HoR].
  exists (Some (Preparing (v + 1))). pose proof (ok_null _ _ _ Hok) as [Hlo4 Hn].
  eapply rephase; try done; simpl.
  - destruct (ok_gate _ _ _ Hok) as [_ Hg]. by split.
  - rewrite <- (ok_pages _ _ _ Hok). simpl. rewrite Hl.
    change (counted (Some (Preparing (v + 1)))) with (counted (Some (Preparing v))).
    rewrite counted_add by (done || (apply Hn; lia)). solve_Permutation.
  - split; [lia|]. intros u Hu. rewrite put_ne by lia. apply Hn. lia.
  - by eapply ok_nonzero.
Qed.

Lemma safe_scan v k r freed :
  r_phase r = Some (Stopping freed) -> (forall x, x <> 0 -> safe (k x) r) ->
  safe (k 0) (with_phase (Some (Stopping (v :: freed))) r) -> safe (read_active v k) r.
Proof.
  intros Hr Hkn Hk0 g R Hok. split; [done|]. intros x g' Hrun.
  destruct (decide (x = 0)) as [->|Hx].
  2:{ assert (safe (read_active v (fun y => if decide (y = x) then k y else Blocked)) r) as Hs.
      { apply safe_read_active. intros y. case_decide; [subst; auto|done]. }
      destruct (Hs g R Hok) as [_ Hgo]. destruct (Hgo x g' Hrun) as (r' & Hok' & Hsafe').
      case_decide; [|done]. by exists r'. }
  assert (active g v = 0 /\ g' = set_active v 0 g) as [Hz ->].
  { inversion Hrun; subst. by rewrite Z.eqb_refl. }
  exists (with_phase (Some (Stopping (v :: freed))) r). split; [|done].
  destruct Hok as [own Hok]. destruct (owner_front _ _ _ _ _ Hok Hr) as [-> HoR].
  exists (Some (Stopping (v :: freed))).
  rewrite <- (with_pages_same r) at 1.
  assert (run_ok_by (Some (Stopping (v :: freed))) g
            (with_phase (Some (Stopping (v :: freed))) (with_pages (r_pages r) r) :: R)) as Hok1.
  { eapply rephase; try done.
    - destruct (ok_gate _ _ _ Hok) as [_ Hg]. by split.
    - intros u Hu Hau Hal. split; [|done]. simpl in *. apply not_elem_of_cons. split; [|done].
      intros ->. by apply Hau.
    - apply (ok_pages _ _ _ Hok).
    - apply (ok_null _ _ _ Hok).
    - by eapply ok_nonzero. }
  destruct Hok1; split; simpl; try done.
  - intros u Hu. rewrite put_same by done. auto.
  - eapply Forall_impl; [done|]. intros r' Hr'.
    eapply role_live_mono; [done|done|]. intros s Hs. simpl. by rewrite put_same.
Qed.

Lemma shift_joined r freed :
  r_phase r = Some (Stopping freed) -> 1 ∈ freed -> 2 ∈ freed -> 3 ∈ freed ->
  shift r (with_phase (Some (Joined 1 1)) r).
Proof.
  intros Hr H1' H2' H3'. split; [done|]. split; [done|]. intros g R [own Hok]. destruct (owner_front _ _ _ _ _ Hok Hr) as [-> HoR].
  exists (Some (Joined 1 1)). rewrite <- (with_pages_same r) at 1. eapply rephase; try done.
  - destruct (ok_gate _ _ _ Hok) as [_ Hg]. by split.
  - intros v Hv _ Hal. exfalso. unfold CO_MAX_VCPUS in Hv. simpl in Hal.
    assert (v = 1 \/ v = 2 \/ v = 3) as [->|[->| ->]] by lia; done.
  - apply (ok_pages _ _ _ Hok).
  - simpl. intros v Hv. apply (ok_null _ _ _ Hok). lia.
  - by eapply ok_nonzero.
Qed.

Lemma safe_read_passage_owner v k r :
  r_phase r = Some (Joined v v) -> v = 1 \/ v = 2 \/ v = 3 ->
  safe (k 0) (with_phase (Some (Joined (v + 1) (v + 1))) r) ->
  (forall p, p <> 0 -> safe (k p) (with_phase (Some (Joined (v + 1) v)) (with_pages (p :: r_pages r) r))) ->
  safe (Op (ReadPassage v) k) r.
Proof.
  intros Hr Hv Hk0 Hk g R [own Hok]. split; [done|]. intros x g' Hrun. inversion Hrun; subst.
  destruct (owner_front _ _ _ _ _ Hok Hr) as [-> HoR].
  pose proof (ok_pages _ _ _ Hok) as Ip. rewrite (counted_drop v v v) in Ip by done. unfold nonzero in Ip.
  pose proof (ok_null _ _ _ Hok) as In. simpl in In.
  destruct (ok_gate _ _ _ Hok) as [_ Hg].
  destruct (decide (ap_passage g' v = 0)) as [E|E].
  - rewrite E. eexists. split; [|exact Hk0]. exists (Some (Joined (v + 1) (v + 1))).
    rewrite <- (with_pages_same r) at 1. eapply rephase; try done.
    + simpl. intros u Hu. destruct (decide (u = v)) as [->|]; [done|]. apply In. lia.
    + by eapply ok_nonzero.
  - eexists. split; [|by apply Hk]. exists (Some (Joined (v + 1) v)). eapply rephase; try done.
    + rewrite <- Ip. simpl. by rewrite <- Permutation_middle.
    + by eapply ok_nonzero.
Qed.

Lemma safe_null_passage v k r c :
  r_phase r = Some (Joined c v) -> v < c -> v < 4 ->
  safe (k 0) (with_phase (Some (Joined c (v + 1))) r) -> safe (Op (WritePassage v 0) k) r.
Proof.
  intros Hr Hc Hv Hk g R [own Hok]. split; [done|]. intros x g' Hrun. inversion Hrun; subst.
  eexists. split; [|exact Hk]. destruct (owner_front _ _ _ _ _ Hok Hr) as [-> HoR].
  exists (Some (Joined c (v + 1))). rewrite <- (with_pages_same r) at 1. eapply rephase; try done; simpl.
  - destruct (ok_gate _ _ _ Hok) as [_ Hg]. by split.
  - rewrite (counted_ext _ (Some (Joined c v)) _ (ap_passage g)); [apply (ok_pages _ _ _ Hok)|done|].
    simpl. intros u Hu Hcu. apply put_ne. lia.
  - intros u Hu. destruct (decide (u = v)) as [->|]; [by rewrite put_eq|].
    rewrite put_ne by done. apply (ok_null _ _ _ Hok). lia.
  - by eapply ok_nonzero.
Qed.
