(* ===== verification/RunGateCas.v ===== *)
(** The rules of [RunGateOk] for the gate itself, and what its operations do to
    the role of the thread that calls them. *)
From S2P Require Import Prelude.
From S2P Require Import RunGate.
From S2P Require Import RunGateOk.

(** ** The word *)

Lemma gate_state_at st n : 0 <= st < 8 -> gate_state (st + 8 * n) = st.
Proof.
  intros Hst. unfold gate_state, CO_RUN_STATE_MASK. change 7 with (Z.ones 3).
  rewrite Z.land_ones by lia. change (2 ^ 3) with 8. Z.to_euclidean_division_equations. lia.
Qed.

Lemma gate_refs_at st n : 0 <= st < 8 -> gate_refs (st + 8 * n) = n.
Proof.
  intros Hst. unfold gate_refs, CO_RUN_REF_SHIFT. rewrite Z.shiftr_div_pow2 by lia.
  change (2 ^ 3) with 8. Z.to_euclidean_division_equations. lia.
Qed.

Lemma gate_keep_refs st st' n :
  0 <= st < 8 -> 0 <= st' < 8 -> Z.lor (Z.ldiff (st + 8 * n) CO_RUN_STATE_MASK) st' = st' + 8 * n.
Proof.
  intros Hst Hst'.
  assert (Z.ldiff (st + 8 * n) CO_RUN_STATE_MASK = Z.shiftl n 3) as ->.
  { change CO_RUN_STATE_MASK with (Z.ones 3). rewrite Z.ldiff_ones_r by lia.
    f_equal. by apply gate_refs_at. }
  assert (Z.land (Z.shiftl n 3) st' = 0) as Hd.
  { apply Z.bits_inj'. intros i Hi. rewrite Z.land_spec, Z.bits_0.
    destruct (Z.ltb_spec i 3).
    - by rewrite Z.shiftl_spec_low.
    - rewrite <- (Z.mod_small st' (2 ^ 3)) by lia. rewrite Z.mod_pow2_bits_high by lia.
      apply andb_false_r. }
  rewrite <- Z.lxor_lor, <- Z.add_nocarry_lxor by done. rewrite Z.shiftl_mul_pow2 by lia. lia.
Qed.

(** What the invariant lets the word be. *)
Lemma gate_word_none n word :
  gate_word None n word ->
  exists st, word = st + 8 * Z.of_nat n /\ 0 <= st < 8 /\ gate_state word = st /\
    gate_refs word = Z.of_nat n /\
    (st = CO_RUN_IDLE /\ n = 0%nat \/ (0 < n)%nat /\
      (st = CO_RUN_TEST_STARTING /\ n = 1%nat \/ st = CO_RUN_TESTING \/ st = CO_RUN_TEST_STOPPING)).
Proof.
  intros [[-> ->]|(Hn & st & Hst & ->)]; [exists CO_RUN_IDLE|exists st].
  - split_and!; (done || by left).
  - assert (0 <= st < 8) by (gate_consts; lia). rewrite gate_state_at, gate_refs_at by done.
    split_and!; (done || lia || by right).
Qed.

Lemma gate_word_some ph n word :
  gate_word (Some ph) n word ->
  n = 0%nat /\ gate_state word = word /\ gate_refs word = 0 /\
  match ph with
  | Preparing _ => word = CO_RUN_STARTING \/ word = CO_RUN_STOPPING
  | Running => word = CO_RUN_RUNNING \/ word = CO_RUN_STOPPING
  | _ => word = CO_RUN_STOPPING
  end.
Proof.
  intros [-> Hw]. split; [done|].
  assert (0 <= word < 8) by (gate_consts; destruct ph; lia).
  pose proof (gate_state_at word 0) as Hs. pose proof (gate_refs_at word 0) as Hr.
  rewrite Z.mul_0_r, Z.add_0_r in Hs, Hr. auto.
Qed.

(** ** Access rules *)

Lemma safe_gate old new k r :
  (forall own g R, run_ok_by own g (r :: R) -> exists r',
     run_ok (if co_run_gate g =? old then set_gate new g else g) (r' :: R) /\
     safe (k (co_run_gate g)) r') ->
  safe (Op (CasGate old new) k) r.
Proof.
  intros Hk g R [own Hok]. split; [done|]. intros x g' Hrun. inversion Hrun; subst.
  by eapply Hk.
Qed.

Lemma safe_read_gate k r :
  (forall own g R, run_ok_by own g (r :: R) -> exists r',
     run_ok g (r' :: R) /\ safe (k (co_run_gate g)) r') ->
  safe (read_gate k) r.
Proof.
  intros Hk. apply safe_gate. intros own g R Hok. destruct (Hk own g R Hok) as (r' & Hok' & Hs).
  exists r'. split; [|done]. destruct (Z.eqb_spec (co_run_gate g) 0) as [E|]; [|done].
  rewrite <- E. by destruct g.
Qed.

Lemma safe_read_gate_any k r : (forall x, safe (k x) r) -> safe (read_gate k) r.
Proof. intros Hk. apply safe_read_gate. intros own g R Hok. exists r. split; [by exists own|done]. Qed.

Lemma safe_state_any k r : (forall x, safe (k x) r) -> safe (co_run_state k) r.
Proof. intros Hk. by apply safe_read_gate_any. Qed.

(** Nobody has seen the run open when it is not, or when the lock is the
    thread's own. *)
Lemma unseen own g R :
  run_ok_by own g R -> own <> Some Running -> Forall (fun r => r_seen r = false) R.
Proof.
  intros Hok Hown. eapply Forall_impl; [by eapply ok_live|]. intros r [_ Hs].
  destruct (r_seen r); [|done]. exfalso. apply Hown, (word_running _ (count r_ref R)).
  rewrite <- (Hs eq_refl). apply (ok_gate _ _ _ Hok).
Qed.

Lemma unseen_locked own g r R :
  run_ok_by own g (r :: R) -> r_lock r = true -> Forall (fun r => r_seen r = false) R.
Proof.
  intros Hok Hl. destruct (front_static _ _ _ _ Hok) as [_ HS].
  assert (count r_lock R = 0%nat) as Hc.
  { pose proof (ok_lock _ _ _ Hok) as [_ Hc]. unfold count in *. simpl in Hc. rewrite Hl in Hc.
    simpl in Hc. lia. }
  clear Hok Hl. induction HS as [|r' R' Hr' _ IH]; [done|]. unfold count in *. simpl in Hc.
  destruct Hr' as (_ & _ & Hs). constructor; [|apply IH; lia].
  destruct (r_seen r'); [|done]. rewrite Hs in Hc by done. done.
Qed.

(** The gate changes, and with it the tokens of the thread that changed it. *)
Lemma regate own own' word g r r' R :
  run_ok_by own g (r :: R) ->
  Forall (fun r => r_seen r = false) R ->
  r_slot r' = r_slot r -> r_pages r' = r_pages r -> r_lock r' = r_lock r -> r_seen r' = false ->
  omap r_phase (r' :: R) = option_list own' ->
  gate_word own' (count r_ref (r' :: R)) word ->
  (forall v, lane_allowed own v -> lane_allowed own' v) ->
  counted own' (ap_passage g) = counted own (ap_passage g) ->
  null_ok own' (ap_passage g) ->
  role_static r' ->
  (stop_asked word -> vcpu_abort_all g = 1 \/ (0 < count r_owes (r' :: R))%nat) ->
  run_ok_by own' (set_gate word g) (r' :: R).
Proof.
  intros Hok Huns Es Ep El Eseen Ho Hw Hlanes Hc Hn Hst' Hstop.
  assert (indexes (r' :: R) = indexes (r :: R)) as Hi by (unfold indexes; simpl; by rewrite Es).
  assert (forall f, f r' = f r -> count f (r' :: R) = count f (r :: R)) as Hcount
    by (intros f E; unfold count; simpl; by rewrite E).
  unfold indexes in Hi. open_ok Hok; split; simpl in *; try done.
  - rewrite Hcount by done. done.
  - by rewrite Hi.
  - intros v Hv Ha. rewrite Hi. by apply If.
  - by rewrite Ep, Hc.
  - by constructor.
  - constructor.
    + split; [|congruence]. rewrite Es. intros s Hs. destruct (proj1 Hlv s Hs) as (? & ? & Hl & ?).
      split_and!; auto.
    + eapply roles_live_same; [done|by right|done|done|]. intros r0 s _ _ _ Hl. auto.
Qed.

(** ** A boot *)

Lemma counted_nulls own f : (forall v, f v = 0) -> counted own f = [].
Proof.
  intros Hf. unfold counted. induction (filter _ [1; 2; 3]) as [|v l IH]; [done|].
  rewrite fmap_cons, filter_cons. by rewrite Hf, decide_False by tauto.
Qed.

(** A thread that owns the run and has nothing. *)
Definition owner (ph : phase) : role := with_phase (Some ph) nobody.

(** A step of the owner that frees the word. *)
Lemma finish_step own g r R :
  run_ok_by own g (r :: R) -> r_phase r = Some (Joined 4 4) -> r_slot r = None -> r_seen r = false ->
  run_ok (set_gate CO_RUN_IDLE g) (with_phase None r :: R).
Proof.
  intros Hok Hr Hs Hseen. destruct (owner_front _ _ _ _ _ Hok Hr) as [-> HoR].
  exists None. eapply regate; try done.
  - by eapply Forall_inv_tail, unseen.
  - left. split; [done|]. by destruct (ok_gate _ _ _ Hok).
  - pose proof (ok_null _ _ _ Hok) as Hn. simpl in Hn.
    rewrite !counted_nulls; [done|..]; intros v; apply Hn; lia.
  - pose proof (ok_null _ _ _ Hok) as Hn. simpl in Hn. intros v. apply Hn. lia.
  - destruct (front_static _ _ _ _ Hok) as [(Hss & _ & Hl) _]. split_and!; simpl; [|done|done].
    by rewrite Hs.
  - intros [Hst|Hst]; by vm_compute in Hst.
Qed.

Lemma safe_finish k r :
  r_phase r = Some (Joined 4 4) -> r_slot r = None -> r_seen r = false ->
  safe k (with_phase None r) -> safe (co_run_finish k) r.
Proof.
  intros Hr Hs Hseen Hk. apply safe_forever. intros again _.
  assert (forall own g R, run_ok_by own g (r :: R) -> co_run_gate g = CO_RUN_STOPPING) as Hw.
  { intros own g R Hok. destruct (owner_front _ _ _ _ _ Hok Hr) as [-> _].
    by destruct (ok_gate _ _ _ Hok). }
  apply safe_read_gate. intros own g R Hok. exists r. split; [by exists own|].
  rewrite (Hw _ _ _ Hok). simpl. apply safe_gate. intros own' g' R' Hok'.
  exists (with_phase None r). rewrite (Hw _ _ _ Hok'). split; [by eapply finish_step|done].
Qed.

Lemma safe_begin k :
  safe (k false) nobody -> safe (k true) (owner (Preparing 1)) -> safe (co_run_begin k) nobody.
Proof.
  intros Hkf Hkt. apply safe_gate. intros own g R Hok.
  destruct (Z.eqb_spec (co_run_gate g) CO_RUN_IDLE) as [E|]; [|exists nobody; split; [by exists own|done]].
  pose proof (ok_gate _ _ _ Hok) as Hw. rewrite E in Hw.
  destruct own as [ph|].
  { apply gate_word_some in Hw as (_ & _ & _ & Hw). exfalso. gate_consts. destruct ph; lia. }
  apply gate_word_none in Hw as (st & Est & Hst & _ & _ & Hcase).
  assert (count r_ref (nobody :: R) = 0%nat) as Hc by (gate_consts; lia).
  exists (with_owes true (owner (Preparing 1))). split.
  { exists (Some (Preparing 1)). pose proof (ok_null _ _ _ Hok) as Hn. simpl in Hn.
    eapply regate; try done.
    - by eapply Forall_inv_tail, unseen.
    - pose proof (ok_own _ _ _ Hok) as Ho. simpl in *. by rewrite Ho.
    - split; [done|by left].
    - intros [Hs|Hs]; by vm_compute in Hs. }
  clear g R Hok E Hc st Est Hst Hcase.
  intros g R [own Hok]. split; [done|]. intros x g' Hrun. inversion Hrun; subst.
  exists (with_owes true (owner (Preparing 1))). split.
  { exists own. open_ok Hok; close_ok. right. unfold count. simpl. lia. }
  clear g R Hok own Hrun. apply safe_read_gate. intros own g R Hok.
  destruct (owner_front _ _ _ _ _ Hok eq_refl) as [-> HoR].
  pose proof (ok_gate _ _ _ Hok) as (_ & -> & _ & Hw)%gate_word_some.
  destruct (Z.eqb_spec (co_run_gate g) CO_RUN_STARTING) as [E|]; cbn [negb].
  - exists (owner (Preparing 1)). split; [|done]. exists (Some (Preparing 1)).
    open_ok Hok; close_ok. rewrite E. intros [Hs|Hs]; by vm_compute in Hs.
  - exists (with_owes true (owner (Joined 4 4))). split.
    + exists (Some (Joined 4 4)).
      assert (run_ok_by (Some (Joined 4 4)) g (with_phase (Some (Joined 4 4))
        (with_pages [] (with_owes true (owner (Preparing 1)))) :: R)) as Hok'; [|done].
      pose proof (ok_null _ _ _ Hok) as [_ Hn].
      assert (forall v, ap_passage g v = 0) as Hn' by (intros v; apply Hn; lia).
      eapply rephase; try done.
      * destruct Hw as [?|Hw]; [done|]. by split.
      * pose proof (ok_pages _ _ _ Hok) as Ip. rewrite counted_nulls in * by done. done.
      * simpl. auto.
      * exact (ok_nonzero _ _ _ Hok).
    + apply safe_write_abort. by apply safe_finish.
Qed.

(** Opening the run, from the boot processor's slot. *)
Lemma safe_publish k r s lo :
  r_phase r = Some (Preparing lo) -> r_slot r = Some s -> s_kind s = BootSlot -> r_seen r = false ->
  safe (k true) (with_phase (Some Running) r) -> safe (k false) r -> safe (co_run_publish k) r.
Proof.
  intros Hr Hs Hkind Hseen Hkt Hkf. apply safe_gate. intros own g R Hok.
  destruct (owner_front _ _ _ _ _ Hok Hr) as [-> HoR].
  destruct (Z.eqb_spec (co_run_gate g) CO_RUN_STARTING) as [E|];
    [|exists r; split; [by exists (Some (Preparing lo))|done]].
  exists (with_phase (Some Running) r). split; [|done]. exists (Some Running).
  pose proof (ok_null _ _ _ Hok) as [_ Hn]. eapply regate; try done.
  - by eapply Forall_inv_tail, unseen.
  - simpl. by f_equal.
  - destruct (ok_gate _ _ _ Hok) as [Hc _]. split; [done|by left].
  - simpl. intros v Hv. apply Hn. destruct (ok_null _ _ _ Hok). lia.
  - destruct (front_static _ _ _ _ Hok) as [(Hss & _ & Hl) _]. split_and!; simpl; [|by exists s|done].
    intros s' Hs'. simplify_eq. destruct (Hss s Hs) as (? & ? & Hk). split; [done|]. split; [done|].
    rewrite Hkind in *. by destruct Hk.
  - intros [Hst|Hst]; by vm_compute in Hst.
Qed.

(** ** Stopping a run *)

Lemma stopped_word own n word : gate_word own n word -> gate_word own n (stopped_gate word).
Proof.
  intros Hw. unfold stopped_gate. destruct own as [ph|].
  - apply gate_word_some in Hw as (-> & -> & _ & Hw).
    destruct ph; simpl; repeat match goal with H : _ \/ _ |- _ => destruct H end; subst; simpl; auto.
  - apply gate_word_none in Hw as (st & -> & Hst & -> & _ & Hcase).
    destruct Hcase as [[-> ->]|(Hn & Hcase)]; simpl; [by left|]. right. split; [done|].
    rewrite !gate_keep_refs by (done || (gate_consts; lia)).
    destruct Hcase as [[-> _]|[->| ->]]; simpl; eauto 7.
Qed.

Lemma stopped_owner ph n word : gate_word (Some ph) n word -> stopped_gate word = CO_RUN_STOPPING.
Proof.
  intros (_ & Hs & _ & Hw)%gate_word_some. unfold stopped_gate. rewrite Hs.
  destruct ph; repeat match goal with H : _ \/ _ |- _ => destruct H end; by subst.
Qed.

Lemma stop_gate own g r R :
  run_ok_by own g (r :: R) -> r_lock r = true -> r_seen r = false ->
  run_ok (set_gate (stopped_gate (co_run_gate g)) g) (with_owes true (stopped_role r) :: R).
Proof.
  intros Hok Hl Hseen. pose proof (ok_gate _ _ _ Hok) as Hw.
  assert (run_ok_by own (set_gate (stopped_gate (co_run_gate g)) g) (with_owes true r :: R)) as Hok'.
  { eapply regate; try done.
    - by eapply unseen_locked.
    - apply (ok_own _ _ _ Hok).
    - by apply stopped_word.
    - apply (ok_null _ _ _ Hok).
    - apply (front_static _ _ _ _ Hok).
    - intros _. right. unfold count. simpl. lia. }
  destruct (r_phase r) as [ph|] eqn:Hph.
  - assert (with_owes true (stopped_role r) = stopped_role (with_owes true r)) as -> by done.
    eapply stop_seen; [exact Hok'|simpl; congruence|].
    destruct (owner_front _ _ _ _ _ Hok Hph) as [-> _]. by eapply stopped_owner.
  - assert (stopped_role r = r) as ->; [|by exists own].
    unfold stopped_role. rewrite Hph. simpl. rewrite <- Hph. apply with_phase_same.
Qed.

Lemma stop_stopped own g r R :
  run_ok_by own g (r :: R) -> stopped_gate (co_run_gate g) = co_run_gate g ->
  run_ok g (stopped_role r :: R).
Proof.
  intros Hok E. destruct (r_phase r) as [ph|] eqn:Hph.
  - eapply stop_seen; [exact Hok|congruence|]. rewrite <- E.
    destruct (owner_front _ _ _ _ _ Hok Hph) as [-> _]. eapply stopped_owner, (ok_gate _ _ _ Hok).
  - assert (stopped_role r = r) as ->; [|by exists own].
    unfold stopped_role. rewrite Hph. simpl. rewrite <- Hph. apply with_phase_same.
Qed.

Lemma safe_boot_abort k r :
  r_owes r = false -> safe k (stopped_role r) -> safe (co_arch_boot_abort k) r.
Proof.
  intros Howes Hk. apply safe_take_lock. intros Hl Hseen.
  set (out := Op DropLock (fun _ => Op (WriteAbort 1) (fun _ => k))).
  assert (forall b, safe out (with_owes b (stopped_role (with_lock true false r)))) as Hout.
  { intros b. apply safe_drop_lock; [done|]. apply safe_write_abort.
    destruct r; simpl in *; by subst. }
  apply safe_forever. intros again Hagain. apply safe_read_gate. intros own g R Hok.
  cbv beta zeta.
  destruct (Z.eqb_spec (stopped_gate (co_run_gate g)) (co_run_gate g)) as [E|].
  - eexists. split; [by eapply stop_stopped|]. specialize (Hout false). destruct r; cbn in Howes; subst. exact Hout.
  - eexists. split; [by exists own|]. apply safe_gate. intros own' g' R' Hok'.
    destruct (Z.eqb_spec (co_run_gate g') (co_run_gate g)) as [E|].
    + eexists. split; [rewrite <- E; by eapply stop_gate|]. apply Hout.
    + eexists. split; [by exists own'|done].
Qed.

(** ** Test lanes *)

(** The gate as a thread with a reference finds it. *)
Lemma ref_word own g r R :
  run_ok_by own g (r :: R) -> r_ref r = true ->
  own = None /\ exists st,
    co_run_gate g = st + 8 * Z.of_nat (S (count r_ref R)) /\ gate_state (co_run_gate g) = st /\
    gate_refs (co_run_gate g) = Z.of_nat (S (count r_ref R)) /\
    (st = CO_RUN_TEST_STARTING /\ count r_ref R = 0%nat \/ st = CO_RUN_TESTING \/
     st = CO_RUN_TEST_STOPPING).
Proof.
  intros Hok Hr. pose proof (ref_no_owner _ _ _ _ Hok Hr) as ->. split; [done|].
  pose proof (ok_gate _ _ _ Hok) as (st & Ew & Hst & Es & En & Hcase)%gate_word_none.
  assert (count r_ref (r :: R) = S (count r_ref R)) as Ec by (unfold count; simpl; by rewrite Hr).
  rewrite Ec in *. exists st. split_and!; try done. lia.
Qed.

(** The tokens of a change of references. *)
Lemma reref b o own g r R word :
  run_ok_by own g (r :: R) -> own = None -> r_phase r = None -> r_seen r = false ->
  (b = false -> r_slot r = None) ->
  gate_word None (b2n b + count r_ref R) word ->
  (stop_asked word -> vcpu_abort_all g = 1 \/ (0 < b2n o + count r_owes R)%nat) ->
  run_ok (set_gate word g) (with_owes o (with_ref b r) :: R).
Proof.
  intros Hok -> Hr Hseen Hslot Hw Hstop. exists None. eapply regate; try done.
  - by eapply Forall_inv_tail, unseen.
  - pose proof (ok_own _ _ _ Hok) as Ho. simpl in *. by rewrite Hr in *.
  - apply (ok_null _ _ _ Hok).
  - destruct (front_static _ _ _ _ Hok) as [(Hss & Hrun & Hl) _]. split_and!; simpl; [|done|done].
    intros s Hs. destruct b; [|by rewrite Hslot in Hs]. destruct (Hss s Hs) as (? & ? & Hk).
    split; [done|]. split; [done|]. by destruct (s_kind s).
Qed.

Lemma safe_test_leave k r :
  r_ref r = true -> r_phase r = None -> r_slot r = None -> r_seen r = false -> r_owes r = false ->
  safe k (with_ref false r) -> safe (co_run_test_leave k) r.
Proof.
  intros Href Hph Hslot Hseen Howes Hk. apply safe_forever. intros again Hagain.
  apply safe_read_gate. intros own g R Hok. exists r. split; [by exists own|]. cbv beta zeta.
  destruct (ref_word _ _ _ _ Hok Href) as (-> & st & Ew & Es & En & Hst).
  rewrite Es, En.
  assert ((negb (st =? CO_RUN_TESTING) && negb (st =? CO_RUN_TEST_STOPPING) &&
           negb (st =? CO_RUN_TEST_STARTING) || (Z.of_nat (S (count r_ref R)) <=? 0))%bool = false) as ->.
  { apply orb_false_iff. split; [|apply Z.leb_gt; lia]. by destruct Hst as [[-> _]|[->| ->]]. }
  apply safe_gate. intros own' g' R' Hok'. destruct (Z.eqb_spec (co_run_gate g') (co_run_gate g)) as [E|];
    [|exists r; split; [by exists own'|done]].
  exists (with_owes false (with_ref false r)). split; [|by destruct r; simpl in *; subst].
  destruct (ref_word _ _ _ _ Hok' Href) as (-> & st' & Ew' & Es' & En' & Hst').
  rewrite E, Es in Es'. rewrite E, En in En'. subst st'.
  assert (count r_ref R' = count r_ref R) as Ec by lia.
  eapply reref; try done.
  - rewrite Ec. cbn [b2n Nat.add]. destruct (Z.eqb_spec (Z.of_nat (S (count r_ref R))) 1) as [E1|E1].
    + left. split; [done|lia].
    + right. split; [lia|]. exists st. split; [|rewrite Ew; gate_consts; lia].
      destruct Hst as [[_ Hz]|Hst]; [lia|]. by right.
  - intros Hs. pose proof (ok_stop _ _ _ Hok') as Hstop. unfold count in Hstop at 1. simpl in Hstop.
    rewrite Howes in Hstop. cbn [b2n Nat.add] in *. apply Hstop. rewrite E.
    destruct (Z.eqb_spec (Z.of_nat (S (count r_ref R))) 1) as [E1|E1].
    + destruct Hs as [Hs|Hs]; by vm_compute in Hs.
    + unfold stop_asked in *. rewrite Es. rewrite Ew in Hs.
      replace (st + 8 * Z.of_nat (S (count r_ref R)) - CO_RUN_REF_ONE)
        with (st + 8 * Z.of_nat (count r_ref R)) in Hs by (gate_consts; lia).
      rewrite gate_state_at in Hs by (gate_consts; lia). done.
Qed.

(** The last step of [co_run_test_enter]'s failures. *)
Lemma safe_test_back_out k :
  safe k nobody ->
  safe (Op (WriteAbort 1) (fun _ => co_run_test_leave k)) (with_owes true (with_ref true nobody)).
Proof. intros Hk. apply safe_write_abort. by apply safe_test_leave. Qed.

(** The word a thread has read in the states the entry acts on. *)
Lemma idle_word own g R :
  run_ok_by own g R -> gate_state (co_run_gate g) = CO_RUN_IDLE ->
  own = None /\ co_run_gate g = CO_RUN_IDLE /\ count r_ref R = 0%nat.
Proof.
  intros Hok Ei. pose proof (ok_gate _ _ _ Hok) as Hw. destruct own as [ph|].
  - apply gate_word_some in Hw as (_ & Es & _ & Hw). exfalso. gate_consts. destruct ph; lia.
  - apply gate_word_none in Hw as (st & Ew & _ & Es & _ & Hcase). rewrite Ei in Es. subst st.
    destruct Hcase as [[_ Hn]|[_ Hcase]]; [|gate_consts; lia]. by rewrite Hn in *.
Qed.

Lemma testing_word own g R :
  run_ok_by own g R -> gate_state (co_run_gate g) = CO_RUN_TESTING ->
  own = None /\ co_run_gate g = CO_RUN_TESTING + 8 * Z.of_nat (count r_ref R).
Proof.
  intros Hok Et. pose proof (ok_gate _ _ _ Hok) as Hw. destruct own as [ph|].
  - apply gate_word_some in Hw as (_ & Es & _ & Hw). exfalso. gate_consts. destruct ph; lia.
  - apply gate_word_none in Hw as (st & Ew & _ & Es & _ & _). rewrite Et in Es. by subst st.
Qed.

(** The first lane of a test: the flag is cleared before the gate opens. *)
Definition starting_test : role := with_owes true (with_ref true nobody).

Lemma safe_test_start k again :
  safe again nobody -> safe (k false) nobody -> safe (k true) (with_ref true nobody) ->
  let starting := Z.lor CO_RUN_TEST_STARTING CO_RUN_REF_ONE in
  safe (Op (CasGate CO_RUN_IDLE starting) (fun r =>
    if negb (r =? CO_RUN_IDLE) then again else
    Op (WriteAbort 0) (fun _ =>
    read_gate (fun old =>
      if negb (old =? starting) then
        Op (WriteAbort 1) (fun _ => co_run_test_leave (k false))
      else
      Op (CasGate starting (Z.lor CO_RUN_TESTING CO_RUN_REF_ONE)) (fun r =>
        if r =? starting then k true else
        Op (WriteAbort 1) (fun _ => co_run_test_leave (k false))))))) nobody.
Proof.
  intros Hagain Hkf Hkt starting. apply safe_gate. intros own g R Hok.
  destruct (Z.eqb_spec (co_run_gate g) CO_RUN_IDLE) as [E|]; cbn [negb];
    [|exists nobody; split; [by exists own|done]].
  destruct (idle_word _ _ _ Hok) as (-> & _ & Hc); [by rewrite E|].
  exists starting_test. split.
  { apply (reref true true None g _ _ _ Hok); try done.
    - right. split; [simpl; lia|]. exists CO_RUN_TEST_STARTING.
      assert (count r_ref R = 0%nat) as -> by done. split; [by left|done].
    - intros _. right. simpl. lia. }
  clear g R Hok E Hc. intros g R [own Hok]. split; [done|]. intros x g' Hrun.
  inversion Hrun; subst. exists starting_test. split.
  { exists own. open_ok Hok; close_ok. right. unfold count. simpl. lia. }
  clear g R Hok own Hrun. apply safe_read_gate_any. intros old.
  case_match; [by apply safe_test_back_out|]. apply safe_gate. intros own g R Hok.
  destruct (Z.eqb_spec (co_run_gate g) starting) as [E|];
    [|exists starting_test; split; [by exists own|by apply safe_test_back_out]].
  exists (with_ref true nobody). split; [|done].
  destruct (ref_word _ _ _ _ Hok eq_refl) as (-> & st & Ew & _ & _ & Hst). rewrite E in Ew.
  assert (count r_ref R = 0%nat) as Hc by (change starting with 12 in Ew; gate_consts; lia).
  apply (reref true false None g _ _ _ Hok); try done.
  - right. rewrite Hc. split; [simpl; lia|]. exists CO_RUN_TESTING. split; [by right; left|done].
  - intros [Hs|Hs]; by vm_compute in Hs.
Qed.

(** A further lane. *)
Lemma safe_test_join k again n :
  safe again nobody -> safe (k true) (with_ref true nobody) ->
  let old := CO_RUN_TESTING + 8 * Z.of_nat n in
  safe (Op (CasGate old (old + CO_RUN_REF_ONE)) (fun r => if r =? old then k true else again)) nobody.
Proof.
  intros Hagain Hkt old. apply safe_gate. intros own g R Hok.
  destruct (Z.eqb_spec (co_run_gate g) old) as [E|]; [|exists nobody; split; [by exists own|done]].
  exists (with_ref true nobody). split; [|done].
  destruct (testing_word _ _ _ Hok) as [-> Ew]; [rewrite E; by apply gate_state_at|].
  assert (count r_ref R = n) as Hc
    by (change (count r_ref (nobody :: R)) with (count r_ref R) in Ew; unfold old in E; lia).
  apply (reref true false None g _ _ _ Hok); try done.
  - right. rewrite Hc. split; [simpl; lia|]. exists CO_RUN_TESTING. split; [by right; left|].
    unfold old. gate_consts. simpl. lia.
  - intros Hs. exfalso. unfold stop_asked in Hs.
    replace (old + CO_RUN_REF_ONE) with (CO_RUN_TESTING + 8 * Z.of_nat (S n)) in Hs
      by (unfold old; gate_consts; lia).
    rewrite gate_state_at in Hs by done. by destruct Hs.
Qed.

Lemma safe_test_enter k :
  safe (k false) nobody -> safe (k true) (with_ref true nobody) -> safe (co_run_test_enter k) nobody.
Proof.
  intros Hkf Hkt. apply safe_forever. intros again Hagain.
  apply safe_read_gate. intros own g R Hok. exists nobody. split; [by exists own|]. cbv beta zeta.
  destruct (Z.eqb_spec (gate_state (co_run_gate g)) CO_RUN_IDLE) as [Ei|].
  - destruct (idle_word _ _ _ Hok Ei) as (_ & -> & _). by apply safe_test_start.
  - case_match; [done|].
    destruct (Z.eqb_spec (gate_state (co_run_gate g)) CO_RUN_TESTING) as [Et|]; cbn [negb]; [|done].
    destruct (testing_word _ _ _ Hok Et) as [_ ->]. by apply safe_test_join.
Qed.
