(* ===== verification/RunGateRun.v ===== *)
(** Every thread keeps the protocol of [RunGateOk]: the rules for the functions
    of [RunGate] and what follows for all that the driver can reach. *)
From stdpp Require Import relations.
From S2P Require Import Prelude.
From S2P Require Import RunGate.
From S2P Require Import RunGateOk.
From S2P Require Import RunGateCas.
#[local] Open Scope Z_scope.

(** The same role, described otherwise. *)
Ltac as_role r := match goal with |- safe ?p _ => change (safe p r) end.

(** ** Slots *)

Definition taken (v : Z) (kind : slot_kind) (pass : option Z) : slot :=
  Slot v kind CO_VCPU_ACTIVE (Some (slot_kind_diag kind)) pass.

Lemma safe_vcpu_claim v kind k r :
  0 <= v -> r_slot r = None -> r_phase r <> Some Running ->
  match kind with
  | BootSlot => v = 0 /\ r_phase r <> None
  | LaneSlot => r_seen r = true
  | TestSlot => r_ref r = true
  end ->
  safe (k false) r -> safe (k true) (with_slot (Some (taken v kind None)) r) ->
  safe (co_vcpu_claim v (slot_kind_diag kind) k) r.
Proof.
  intros Hv Hs Hr Hkind Hkf Hkt. unfold co_vcpu_claim.
  destruct ((v <? 0) || (CO_MAX_VCPUS <=? v))%bool eqn:Hb; [done|]. zbool.
  eapply safe_claim; [done..|by intros x Hx; rewrite (proj2 (Z.eqb_neq _ _) Hx)|].
  rewrite Z.eqb_refl. cbn [negb]. eapply safe_write_diagnostic; [done..|]. apply safe_ask. intros bind.
  destruct bind; cbn [negb].
  - eapply safe_store_active; try done.
  - eapply safe_free_slot; try done. by destruct r; simpl in *; subst.
Qed.

Lemma safe_vcpu_release v kind pass k r :
  r_slot r = Some (taken v kind pass) -> r_phase r <> Some Running ->
  (kind = TestSlot -> r_ref r = true /\ r_phase r = None /\ r_seen r = false /\ r_owes r = false) ->
  safe k (with_slot None (match kind with TestSlot => with_ref false r | _ => r end)) ->
  safe (co_vcpu_release v k) r.
Proof.
  intros Hs Hr Hkind Hk. unfold co_vcpu_release.
  eapply safe_swap_active; try done. rewrite Z.eqb_refl. cbn [negb].
  eapply safe_read_diagnostic; [done..|]. eapply safe_write_diagnostic; [done..|].
  eapply safe_free_slot; [done..|].
  destruct kind; simpl; [by destruct r..|].
  destruct Hkind as (? & ? & ? & ?); [done|]. by apply safe_test_leave; destruct r.
Qed.

(** ** Looking at the run *)

Lemma safe_not_running k r : (forall b, safe (k b) r) -> safe (not_running k) r.
Proof. intros Hk. apply safe_state_any. intros x. case_match; [done|]. by apply safe_read_abort. Qed.

(** Seen open under the lock, it stays open while the lock is held. *)
Lemma safe_not_running_locked k r :
  r_lock r = true -> r_seen r = false ->
  safe (k true) r -> (forall b, safe (k b) (with_lock true true r)) -> safe (not_running k) r.
Proof.
  intros Hl Hseen Hk Hks. apply safe_read_gate. intros own g R Hok.
  pose proof (ok_gate _ _ _ Hok) as Hw.
  destruct (Z.eqb_spec (gate_state (co_run_gate g)) CO_RUN_RUNNING) as [E|]; cbn [negb];
    [|exists r; split; [by exists own|done]].
  exists (with_lock true true r). split; [|by apply safe_read_abort]. exists own.
  assert (co_run_gate g = CO_RUN_RUNNING) as Eg.
  { destruct own as [ph|].
    - apply gate_word_some in Hw as (_ & Es & _ & _). congruence.
    - apply gate_word_none in Hw as (st & Ew & _ & Es & _ & Hcase). exfalso. gate_consts. lia. }
  open_ok Hok; close_ok.
  - unfold count in *. simpl in *. by rewrite Hl in Il.
  - by destruct Hst as (? & ? & ?).
  - by destruct Hlv as [? _].
Qed.

Lemma safe_core_taken k r : (forall b, safe (k b) r) -> safe (co_arch_vcpu_core_taken k) r.
Proof.
  intros Hk. unfold co_arch_vcpu_core_taken. generalize (Z.to_nat CO_MAX_VCPUS) as n, 0 as v.
  induction n as [|n IH]; intros v; simpl; [done|]. apply safe_read_active. intros x.
  case_match; [|done]. apply safe_ask. by intros [].
Qed.

(** ** In the guest *)

Lemma stopped_twice r : stopped_role (stopped_role r) = stopped_role r.
Proof. destruct r as [[[]|] ? ? ? ? ? ?]; done. Qed.

Lemma stopped_none r : r_phase r = None -> stopped_role r = r.
Proof. by destruct r; simpl; intros ->. Qed.

Lemma safe_vcpu_run pp k r :
  r_owes r = false ->
  (forall k', safe k' r -> safe (Op (Cross pp) (fun _ => k')) r) ->
  safe k r -> safe k (stopped_role r) -> safe (co_arch_vcpu_run pp k) r.
Proof.
  intros Ho Hcross Hk Hks. apply safe_forever. intros again Hagain. apply safe_read_abort. intros x.
  case_match; [done|]. apply safe_ask. intros []; [done|].
  apply Hcross, safe_ask. intros []; [by apply safe_boot_abort|].
  apply safe_ask. by intros [].
Qed.

(** A secondary in its slot. *)
Definition lane (v : Z) (pass : option Z) : role := with_slot (Some (taken v LaneSlot pass)) nobody.

Lemma safe_lane_release v pass k : safe k nobody -> safe (co_vcpu_release v k) (lane v pass).
Proof. intros Hk. by eapply safe_vcpu_release. Qed.

Lemma safe_lane_die v pass k :
  safe k nobody -> safe (co_arch_boot_abort (co_vcpu_release v k)) (lane v pass).
Proof. intros Hk. apply safe_boot_abort; [done|]. by apply safe_lane_release. Qed.

Lemma safe_join_lane v k : safe k nobody -> safe (join_lane v k) (lane v None).
Proof.
  intros Hk. unfold join_lane. eapply safe_read_passage_lane; [done..|]. intros pp.
  as_role (lane v (Some pp)).
  case_match; zbool; [by apply safe_lane_die|]. eapply safe_reread_passage; [done..|].
  apply safe_ask. intros []; cbn [negb].
  2:{ eapply safe_reread_passage; [done..|]. rewrite Z.eqb_refl. by apply safe_lane_release. }
  assert (forall k', safe k' (lane v (Some pp)) -> safe (Op (Cross pp) (fun _ => k')) (lane v (Some pp)))
    as Hcross by (intros k' Hk'; by eapply safe_cross_lane).
  apply Hcross.
  do 4 (apply safe_ask; intros []; cbn [negb]; [|by apply safe_lane_die]).
  assert (safe (not_running (fun no => if no : bool then co_vcpu_release v k
    else co_arch_boot_abort (co_vcpu_release v k))) (lane v (Some pp))) as Hend.
  { apply safe_not_running. intros []; [by apply safe_lane_release|by apply safe_lane_die]. }
  by apply safe_vcpu_run.
Qed.

(** A test lane in its slot. *)
Definition tester (v : Z) (pages : list Z) : role :=
  with_pages pages (with_slot (Some (taken v TestSlot None)) (with_ref true nobody)).

Lemma safe_tester_release v k : safe k nobody -> safe (co_vcpu_release v k) (tester v []).
Proof. intros Hk. by eapply safe_vcpu_release. Qed.

Lemma safe_test_lane v k : safe k nobody -> safe (test_lane v k) (tester v []).
Proof.
  intros Hk. apply safe_alloc; [by apply safe_tester_release|]. intros pp Hpp.
  as_role (tester v [pp]). rewrite (proj2 (Z.eqb_neq _ _) Hpp).
  assert (safe (Op (FreePages pp) (fun _ => co_vcpu_release v k)) (tester v [pp])) as Hfree.
  { eapply safe_free_pages; [done|]. by apply safe_tester_release. }
  apply safe_ask. intros []; cbn [negb]; [|done]. apply safe_forever. intros again Hagain.
  assert (safe (Op (ReadPassage v) (fun now =>
    if negb (pp =? now) then Op (FreePages pp) (fun _ => co_vcpu_release v k)
    else co_vcpu_release v k)) (tester v [pp])) as Hout.
  { apply safe_read_passage_test; [done|]. by rewrite (proj2 (Z.eqb_neq _ _) Hpp). }
  apply safe_ask. intros []; [|done]. apply safe_read_abort. intros x. case_match; [done|].
  apply safe_cross_own; [by left|]. apply safe_ask. by intros [].
Qed.

(** ** The two entries of a lane *)

Lemma safe_guest_lane v k :
  0 <= v -> safe k nobody ->
  let unlock := fun k => Op DropLock (fun _ => k) in
  safe (Op TakeLock (fun _ =>
    not_wanted (fun no => if no : bool then unlock k else
    co_arch_vcpu_core_taken (fun taken => if taken : bool then unlock k else
    co_vcpu_claim v 0 (fun vcpu => unlock (
    if negb vcpu then k else
    not_running (fun no => if no : bool then co_vcpu_release v k else join_lane v k))))))) nobody.
Proof.
  intros Hv Hk unlock. apply safe_take_lock. intros _ _.
  assert (forall seen, safe (unlock k) (with_lock true seen nobody)) as Hunlock
    by (intros seen; by apply safe_drop_lock).
  apply safe_not_running_locked; [done..|apply (Hunlock false)|]. intros [].
  { apply (Hunlock true). }
  apply safe_ask. intros []; cbn [negb]; [|apply (Hunlock true)].
  apply safe_core_taken. intros []; [apply (Hunlock true)|].
  apply (safe_vcpu_claim v LaneSlot); try done; [by apply safe_drop_lock|].
  apply safe_drop_lock; [done|]. as_role (lane v None).
  apply safe_not_running. intros []; [by apply safe_lane_release|by apply safe_join_lane].
Qed.

Lemma safe_private_lane v k :
  0 <= v -> safe k nobody ->
  let unlock := fun k => Op DropLock (fun _ => k) in
  safe (Op TakeLock (fun _ =>
    co_run_state (fun state =>
    if negb (state =? CO_RUN_TESTING) then unlock (co_run_test_leave k) else
    co_vcpu_claim v 1 (fun vcpu => unlock (
    if negb vcpu then co_run_test_leave k else test_lane v k))))) (with_ref true nobody).
Proof.
  intros Hv Hk unlock. apply safe_take_lock. intros _ _.
  assert (safe (co_run_test_leave k) (with_ref true nobody)) as Hleave by by apply safe_test_leave.
  apply safe_state_any. intros x. case_match; [by apply safe_drop_lock|].
  apply (safe_vcpu_claim v TestSlot); try done; [by apply safe_drop_lock|].
  apply safe_drop_lock; [done|]. by apply safe_test_lane.
Qed.

Lemma safe_lane v iterations join_guest k :
  safe k nobody -> safe (co_arch_test_smp_lane v iterations join_guest k) nobody.
Proof.
  intros Hk. unfold co_arch_test_smp_lane.
  destruct ((v <? 0) || (CO_MAX_VCPUS <=? v))%bool eqn:Hb; [done|]. zbool.
  case_match; [done|]. destruct join_guest.
  - apply safe_not_running. intros []; [done|]. apply safe_ask. intros []; cbn [negb]; [|done].
    apply safe_ask. intros []; cbn [negb]; [|by apply safe_boot_abort]. by apply safe_guest_lane.
  - apply safe_ask. intros []; cbn [negb]; [|done]. apply safe_test_enter; [done|].
    by apply safe_private_lane.
Qed.

(** ** Booting *)

(** The owner of the run. *)
Definition booter (ph : phase) (s : option slot) (pages : list Z) : role :=
  with_pages pages (with_slot s (owner ph)).
Definition boot_slot : option slot := Some (taken 0 BootSlot None).

Lemma shift_preparing lo lo' s l :
  lo <= lo' <= 4 -> shift (booter (Preparing lo) s l) (booter (Preparing lo') s l).
Proof.
  intros Hlo. split; [done|]. split; [done|]. intros g R [own Hok]. destruct (owner_front _ _ _ _ _ Hok eq_refl) as [-> _].
  exists (Some (Preparing lo')). destruct (ok_null _ _ _ Hok) as [_ Hn].
  assert (run_ok_by (Some (Preparing lo')) g (with_phase (Some (Preparing lo'))
    (with_pages l (booter (Preparing lo) s l)) :: R)) as Hok'; [|done].
  eapply rephase; try done.
  - by destruct (ok_gate _ _ _ Hok).
  - apply (ok_pages _ _ _ Hok).
  - split; [lia|]. intros v Hv. apply Hn. lia.
  - exact (ok_nonzero _ _ _ Hok).
Qed.

Lemma shift_stopping freed s l : shift (booter (Stopping freed) s l) (booter (Stopping []) s l).
Proof.
  split; [done|]. split; [done|]. intros g R [own Hok].
  destruct (owner_front _ _ _ _ _ Hok eq_refl) as [-> _]. exists (Some (Stopping [])).
  assert (run_ok_by (Some (Stopping [])) g (with_phase (Some (Stopping []))
    (with_pages l (booter (Stopping freed) s l)) :: R)) as Hok'; [|done].
  eapply rephase; try done.
  - by destruct (ok_gate _ _ _ Hok).
  - intros v _ _ _. split; [apply not_elem_of_nil|done].
  - apply (ok_pages _ _ _ Hok).
  - apply (ok_null _ _ _ Hok).
  - exact (ok_nonzero _ _ _ Hok).
Qed.

Lemma safe_clear_passages n v s l k :
  0 <= v -> v + Z.of_nat n <= 4 -> safe k (booter (Preparing 1) s l) ->
  safe (clear_passages n v k) (booter (Preparing 1) s l).
Proof.
  intros Hv Hn Hk. revert v Hv Hn. induction n as [|n IH]; intros v Hv Hn; cbn [clear_passages]; [done|].
  eapply (safe_clear_passage _ _ _ 1 1); [done|lia|lia|]. as_role (booter (Preparing 1) s l).
  apply IH; lia.
Qed.

Lemma safe_make_passages n v s l k :
  1 <= v -> v + Z.of_nat n = 4 -> safe k (booter (Preparing 4) s l) ->
  safe (make_passages n v k) (booter (Preparing v) s l).
Proof.
  intros Hv Hn Hk. revert v Hv Hn. induction n as [|n IH]; intros v Hv Hn; cbn [make_passages].
  { by replace v with 4 by lia. }
  apply safe_alloc. { eapply safe_shift; [apply (shift_preparing _ 4); lia|done]. }
  intros p Hp. rewrite (proj2 (Z.eqb_neq _ _) Hp). as_role (booter (Preparing v) s (p :: l)).
  apply safe_ask. intros []; cbn [negb].
  - eapply (safe_new_passage _ _ _ _ l); [done|lia|done|done|].
    as_role (booter (Preparing (v + 1)) s l). apply IH; lia.
  - eapply safe_free_pages; [done|]. eapply (safe_clear_passage _ _ _ v (v + 1)); [done|lia|lia|].
    as_role (booter (Preparing (v + 1)) s l). apply IH; lia.
Qed.

(** [ctx.pp] may be null. *)
Definition made (pp : Z) : list Z := nonzero pp.

Lemma made_null : made 0 = [].
Proof. done. Qed.
Lemma made_page pp : pp <> 0 -> made pp = [pp].
Proof. intros Hp. unfold made, nonzero. by rewrite decide_False. Qed.

Lemma safe_prepare k :
  (forall ok pp, (ok = true -> pp <> 0) -> safe (k ok pp) (booter (Preparing 4) None (made pp))) ->
  safe (co_arch_boot_prepare k) (booter (Preparing 1) None []).
Proof.
  intros Hk. assert (forall pp, safe (k false pp) (booter (Preparing 1) None (made pp))) as Hfail.
  { intros pp. eapply safe_shift; [apply (shift_preparing _ 4); lia|by apply Hk]. }
  apply safe_ask. intros []; cbn [negb]; [|apply (Hfail 0)].
  apply safe_alloc; [apply (Hfail 0)|]. intros pp Hpp. rewrite (proj2 (Z.eqb_neq _ _) Hpp).
  as_role (booter (Preparing 1) None [pp]). specialize (Hfail pp). specialize (Hk true pp) as Hok.
  specialize (Hk false pp). rewrite made_page in * by done.
  apply safe_ask. intros []; cbn [negb]; [|done].
  apply safe_clear_passages; [done..|]. apply safe_make_passages; [done..|].
  apply safe_ask. intros []; auto.
Qed.

(** Waiting for the secondaries. *)
Lemma safe_scan_lost n v r k :
  safe (k false) r -> safe (scan_lanes n v false k) r.
Proof.
  intros Hk. revert v. induction n as [|n IH]; intros v; cbn [scan_lanes]; [done|].
  apply safe_read_active. intros x. apply IH.
Qed.

Lemma safe_scan_lanes n v freed s l k :
  1 <= v -> v + Z.of_nat n = 4 -> (forall u, 1 <= u < v -> u ∈ freed) ->
  safe (k false) (booter (Stopping []) s l) -> safe (k true) (booter (Joined 1 1) s l) ->
  safe (scan_lanes n v true k) (booter (Stopping freed) s l).
Proof.
  intros Hv Hn Hfreed Hkf Hkt. revert v freed Hv Hn Hfreed.
  induction n as [|n IH]; intros v freed Hv Hn Hfreed; cbn [scan_lanes].
  - eapply safe_shift; [apply shift_joined with (freed := freed)|done]; [done|apply Hfreed; lia..].
  - eapply safe_scan; [done|..].
    + intros x Hx. rewrite (proj2 (Z.eqb_neq x CO_VCPU_FREE) Hx). apply safe_scan_lost.
      eapply safe_shift; [apply shift_stopping|done].
    + as_role (booter (Stopping (v :: freed)) s l).
      apply IH; [lia|lia|]. intros u Hu. destruct (decide (u = v)) as [->|]; [left|].
      right. apply Hfreed. lia.
Qed.

Lemma safe_join_lanes s l k :
  safe k (booter (Joined 1 1) s l) -> safe (join_lanes k) (booter (Stopping []) s l).
Proof.
  intros Hk. apply safe_forever. intros again Hagain. apply safe_scan_lanes; try done.
  intros u Hu. lia.
Qed.

Lemma safe_free_passages n v s l k :
  1 <= v -> v + Z.of_nat n = 4 -> safe k (booter (Joined 4 4) s l) ->
  safe (free_passages n v k) (booter (Joined v v) s l).
Proof.
  intros Hv Hn Hk. revert v Hv Hn. induction n as [|n IH]; intros v Hv Hn; cbn [free_passages].
  { by replace v with 4 by lia. }
  eapply safe_read_passage_owner; [done|lia|..].
  - as_role (booter (Joined (v + 1) (v + 1)) s l). apply IH; lia.
  - intros p Hp. rewrite (proj2 (Z.eqb_neq _ _) Hp). eapply safe_free_pages; [done|].
    eapply safe_null_passage; [done|lia|lia|]. as_role (booter (Joined (v + 1) (v + 1)) s l).
    apply IH; lia.
Qed.

Lemma safe_cleanup_stopped pp k :
  safe k nobody ->
  safe (free_passages 3 1 (
    (fun go : prog => if pp =? 0 then go else Op (FreePages pp) (fun _ => go)) (co_run_finish k)))
    (booter (Joined 1 1) None (made pp)).
Proof.
  intros Hk. apply safe_free_passages; [lia..|].
  assert (safe (co_run_finish k) (booter (Joined 4 4) None [])) as Hfin by by apply safe_finish.
  destruct (Z.eqb_spec pp 0) as [->|Hpp]; [done|]. rewrite made_page by done.
  by eapply safe_free_pages.
Qed.

(** The end of a boot that never opened the run, and of one that did. *)
Lemma safe_cleanup pp vcpu k :
  safe k nobody ->
  safe (boot_cleanup pp vcpu k)
    (booter (Preparing 4) (if vcpu : bool then boot_slot else None) (made pp)).
Proof.
  intros Hk. apply safe_boot_abort; [done|]. destruct vcpu.
  - eapply (safe_vcpu_release _ BootSlot); [done..|]. by apply safe_cleanup_stopped.
  - by apply safe_cleanup_stopped.
Qed.

Lemma safe_cleanup_joined pp k :
  safe k nobody -> safe (boot_cleanup pp false k) (booter (Joined 1 1) None (made pp)).
Proof. intros Hk. apply safe_boot_abort; [done|]. by apply safe_cleanup_stopped. Qed.

(** An open run, to its end. *)
Lemma safe_boot_run pp k :
  pp <> 0 -> safe k nobody ->
  safe (co_arch_vcpu_run pp (co_arch_boot_abort (join_lanes (co_vcpu_release 0 (
    boot_cleanup pp false k))))) (booter Running boot_slot (made pp)).
Proof.
  intros Hpp Hk. set (rest := join_lanes _).
  assert (safe rest (booter (Stopping []) boot_slot (made pp))) as Hrest.
  { apply safe_join_lanes. eapply (safe_vcpu_release _ BootSlot); [done..|].
    by apply safe_cleanup_joined. }
  apply safe_vcpu_run; [done|..].
  - intros k' Hk'. apply safe_cross_own; [|done]. rewrite made_page by done. by left.
  - by apply safe_boot_abort.
  - apply safe_boot_abort; [done|]. by rewrite stopped_twice.
Qed.

Lemma safe_boot k : safe k nobody -> safe (co_arch_boot_loaded k) nobody.
Proof.
  intros Hk. apply safe_begin; [done|]. cbn [negb]. as_role (booter (Preparing 1) None []).
  apply safe_prepare. intros ok pp Hok. destruct ok; cbn [negb]; [|by apply (safe_cleanup pp false)].
  specialize (Hok eq_refl). apply safe_take_lock. intros _ _.
  apply (safe_vcpu_claim 0 BootSlot); try done.
  - apply safe_drop_lock; [done|]. by apply (safe_cleanup pp false).
  - apply safe_drop_lock; [done|]. as_role (booter (Preparing 4) boot_slot (made pp)).
    eapply safe_publish; [done..|by apply safe_boot_run|by apply (safe_cleanup pp true)].
Qed.

Lemma safe_entry p : entry p -> safe p nobody.
Proof.
  assert (safe Done nobody) as Hdone by done.
  intros [|v n join_guest|]; [by apply safe_boot|by apply safe_lane|].
  apply safe_state_any. intros x. case_match; [by apply safe_boot_abort|done].
Qed.

(** Threads without tokens. *)
Lemma nobodies n :
  omap r_phase (replicate n nobody) = [] /\ count r_ref (replicate n nobody) = 0%nat /\
  count r_lock (replicate n nobody) = 0%nat /\
  omap (fun r => s_index <$> r_slot r) (replicate n nobody) = [] /\
  replicate n nobody ≫= r_pages = [].
Proof. induction n as [|n IH]; [done|exact IH]. Qed.

Lemma protocol_init n : protocol (loaded_driver n).
Proof.
  destruct (nobodies n) as (Eo & Er & El & Ei & Ep).
  exists (replicate n nobody). split; [|by apply Forall2_replicate].
  exists None. split; rewrite ?Eo, ?Er, ?El, ?Ei, ?Ep; try done.
  - by left.
  - split; [done|lia].
  - constructor.
  - apply Forall_replicate. done.
  - apply Forall_replicate. done.
  - intros [Hs|Hs]; by vm_compute in Hs.
Qed.

Lemma protocol_reachable n s : rtc rstep (loaded_driver n) s -> protocol s.
Proof.
  intros Hs. pose proof (protocol_init n) as Hp. revert Hp.
  induction Hs as [|x y z Hxy _ IH]; [done|]. intros Hp. apply IH.
  by eapply protocol_step; [apply safe_entry|..].
Qed.

(** ** What every reachable state has *)

Lemma rstep_length s s' : rstep s s' -> length (r_threads s') = length (r_threads s).
Proof. intros []; apply length_insert. Qed.

Lemma reachable_length n s : rtc rstep (loaded_driver n) s -> length (r_threads s) = n.
Proof.
  intros Hs. rewrite <- (length_replicate n Done).
  change (replicate n Done) with (r_threads (loaded_driver n)).
  induction Hs as [|x y z Hxy _ IH]; [done|]. by rewrite IH, (rstep_length x y).
Qed.

Lemma count_le f R : (count f R <= length R)%nat.
Proof. induction R as [|r R IH]; [done|]. unfold count in *. simpl. destruct (f r); simpl; lia. Qed.

(** Threads that are back have nothing. *)
Lemma all_done g R : Forall2 safe (replicate (length R) Done) R -> run_ok g R ->
  run_ok g (replicate (length R) nobody).
Proof.
  intros HR Hok. rewrite <- (app_nil_r (replicate _ nobody)). rewrite <- (app_nil_r R) in Hok.
  revert HR Hok. generalize (@nil role) as L. induction R as [|r R IH]; intros L HR Hok; [done|].
  simpl in *. apply Forall2_cons in HR as [(_ & _ & Hr) HR].
  apply (run_ok_perm _ (replicate (length R) nobody ++ nobody :: L)); [by rewrite Permutation_middle|].
  apply IH; [done|]. apply (run_ok_perm _ (nobody :: R ++ L)); [by rewrite Permutation_middle|].
  by apply Hr.
Qed.

(** An access to a passage page. *)
Definition touches (o : op) (p : Z) : Prop := o = Cross p \/ o = FreePages p.

Lemma touches_holds r o p : may r o -> touches o p -> holds r p.
Proof. intros Hm [->| ->]; [done|by left]. Qed.

(** C1: whatever the threads of the driver do and however their accesses
    interleave, a boot, its secondaries, test lanes and stops, a thread that is
    about to enter the guest through a passage page, or to free one, finds the
    page allocated, and no other thread is about to use or free that page. So
    no processor runs on a page the teardown has freed, none is freed twice and
    no two processors share one. *)
Theorem run_pages n s t o k p :
  rtc rstep (loaded_driver n) s -> r_threads s !! t = Some (Op o k) -> touches o p ->
  p ∈ live (r_gate s) /\
  forall t' o' k', t' <> t -> r_threads s !! t' = Some (Op o' k') -> ~ touches o' p.
Proof.
  intros Hs%protocol_reachable Ht Hp. split.
  - destruct (protocol_may _ _ _ _ Hs Ht) as (r & R & Hok & Hm).
    by eapply held_live, touches_holds.
  - intros t' o' k' Hne Ht' Hp'.
    destruct (protocol_may_two _ _ _ _ _ _ _ Hs Hne Ht' Ht) as (r' & r & R & Hok & Hm' & Hm).
    by eapply held_once; [exact Hok|eapply touches_holds..].
Qed.

(** C13: when every thread has come back, whatever happened in between, nothing
    is left behind: the gate is idle without references, the lock is free, all
    slots are free, no passage is recorded and no passage page is allocated, so
    the next boot finds what the first one did. *)
Theorem run_quiet n s :
  rtc rstep (loaded_driver n) s -> (forall t p, r_threads s !! t = Some p -> p = Done) ->
  co_run_gate (r_gate s) = CO_RUN_IDLE /\ co_vcpu_claim_lock (r_gate s) = 0 /\
  (forall v, 0 <= v < CO_MAX_VCPUS -> active (r_gate s) v = CO_VCPU_FREE) /\
  (forall v, ap_passage (r_gate s) v = 0) /\ live (r_gate s) = ∅.
Proof.
  intros Hs Hdone. destruct (protocol_reachable _ _ Hs) as (R & Hok & Hsafe).
  assert (r_threads s = replicate (length R) Done) as E.
  { symmetry. apply replicate_as_elem_of. split; [by eapply Forall2_length|].
    intros p [t Ht]%list_elem_of_lookup. by eapply Hdone. }
  rewrite E in Hsafe. destruct (all_done _ _ Hsafe Hok) as [own Hok']. clear Hok Hsafe E.
  revert Hok'. generalize (length R) as m. intros m [Io Ig Il Is If Ip In Ist Ili Iso Inz].
  destruct (nobodies m) as (Eo & Er & El & Ei & Ep).
  rewrite Eo in Io. destruct own; [done|]. rewrite Er in Ig. rewrite El in Il. rewrite Ep in Ip.
  simpl in In. split_and!; [|by destruct Il| |done|].
  - destruct Ig as [[? _]|[? _]]; [done|lia].
  - intros v Hv. destruct (decide (active (r_gate s) v = CO_VCPU_FREE)) as [|Hne]; [done|].
    exfalso. specialize (If v Hv Hne). rewrite Ei in If. by apply elem_of_nil in If.
  - rewrite counted_nulls in Ip by done. symmetry in Ip. apply Permutation_nil_r in Ip.
    by apply elements_empty_iff, leibniz_equiv in Ip.
Qed.

(** The words the threads meet over stay small: with [n] threads the gate
    is at most six and eight times [n], so that its references cannot run into
    the sign of the [int] before there are two to the twenty-eighth threads; it
    never counts more references than there are threads; the lock is zero or one. *)
Theorem run_gate_bounds n s :
  rtc rstep (loaded_driver n) s ->
  0 <= co_run_gate (r_gate s) <= 6 + 8 * Z.of_nat n /\
  0 <= gate_refs (co_run_gate (r_gate s)) <= Z.of_nat n /\
  0 <= co_vcpu_claim_lock (r_gate s) <= 1.
Proof.
  intros Hs. pose proof (reachable_length _ _ Hs) as Hlen.
  destruct (protocol_reachable _ _ Hs) as (R & [own Hok] & Hsafe).
  apply Forall2_length in Hsafe. pose proof (count_le r_ref R) as Hc.
  pose proof (ok_gate _ _ _ Hok) as Hw. pose proof (ok_lock _ _ _ Hok) as [Hl Hl1].
  destruct own as [ph|].
  - apply gate_word_some in Hw as (_ & _ & -> & Hw). gate_consts.
    assert (0 <= co_run_gate (r_gate s) <= 3) by (destruct ph; lia). lia.
  - apply gate_word_none in Hw as (st & -> & Hst & _ & -> & Hcase). gate_consts. lia.
Qed.

(** What the gate says is so: while it is open the boot processor's slot
    is taken; only the three test states carry references; and while it is idle
    or a test's, no boot is under way: no passage is recorded. *)
Theorem run_gate_meaning n s :
  rtc rstep (loaded_driver n) s ->
  let word := co_run_gate (r_gate s) in
  (gate_state word = CO_RUN_RUNNING -> active (r_gate s) 0 <> CO_VCPU_FREE) /\
  (gate_refs word <> 0 <-> gate_state word ∈ [CO_RUN_TEST_STARTING; CO_RUN_TESTING; CO_RUN_TEST_STOPPING]) /\
  (gate_state word ∉ [CO_RUN_STARTING; CO_RUN_RUNNING; CO_RUN_STOPPING] ->
   forall v, ap_passage (r_gate s) v = 0).
Proof.
  intros Hs word. destruct (protocol_reachable _ _ Hs) as (R & [own Hok] & _).
  pose proof (ok_gate _ _ _ Hok) as Hw. fold word in Hw. destruct own as [ph|].
  - apply gate_word_some in Hw as (Hc & Es & -> & Hw). rewrite Es. split_and!.
    + intros Er. pose proof (ok_gate _ _ _ Hok) as Hw'. fold word in Hw'. rewrite Er in Hw'.
      apply word_running in Hw' as [= ->]. destruct R as [|r R]; [|by eapply running_slot].
      by pose proof (ok_own _ _ _ Hok).
    + split; [done|]. gate_consts. intros Hin. exfalso. destruct ph; set_unfold in Hin; lia.
    + intros Hin. exfalso. apply Hin. gate_consts.
      assert (word = 1 \/ word = 2 \/ word = 3) as [->|[->| ->]] by (destruct ph; lia); set_solver.
  - apply gate_word_none in Hw as (st & Ew & Hst & -> & -> & Hcase). split_and!.
    + intros ->. exfalso. gate_consts. lia.
    + gate_consts. set_unfold. lia.
    + intros _. apply (ok_null _ _ _ Hok).
Qed.
