(* ===== verification/Partial.v ===== *)
(** Partial correctness for [M], and threads of sections.

    [wlp] is [wp] of [Rc] but says nothing of a run that faults: what is left
    is what an operation does when it comes back. [keeps f m] is its main use,
    the parts of the state an operation leaves alone. [thread] is the
    sections a thread goes through, each one step. *)
From S2P Require Import Prelude.
From S2P Require Import Rc.

Definition wlp {W A} (m : M W A) (Q : A -> W -> Prop)
    (E : co_rc_value_t -> W -> Prop) (w : W) : Prop :=
  match m w with
  | (Ret a, w') => Q a w'
  | (Fail rc, w') => E rc w'
  | (Fault, _) => True
  end.

Section wlp_rules.
Context {W : Type}.
Implicit Types (w : W).

Lemma wlp_ret {A} (a : A) Q E w : Q a w -> wlp (mret a) Q E w.
Proof. done. Qed.

Lemma wlp_throw {A} rc (Q : A -> W -> Prop) (E : co_rc_value_t -> W -> Prop) w :
  E rc w -> wlp (throw rc) Q E w.
Proof. done. Qed.

Lemma wlp_fault {A} (Q : A -> W -> Prop) E w : wlp fault Q E w.
Proof. done. Qed.

Lemma wlp_bind {A B} (m : M W A) (k : A -> M W B) Q E w :
  wlp m (fun a => wlp (k a) Q E) E w -> wlp (m ≫= k) Q E w.
Proof. unfold wlp, mbind, M_bind. by destruct (m w) as [[a|rc|] w']. Qed.

Lemma wlp_gets {A} (f : W -> A) Q E w : Q (f w) w -> wlp (gets f) Q E w.
Proof. done. Qed.

Lemma wlp_modify (f : W -> W) Q E w : Q tt (f w) -> wlp (modify f) Q E w.
Proof. done. Qed.

Lemma wlp_fail_if b rc (Q : unit -> W -> Prop) (E : co_rc_value_t -> W -> Prop) w :
  (b = true -> E rc w) -> (b = false -> Q tt w) -> wlp (fail_if b rc) Q E w.
Proof. unfold wlp, fail_if. destruct b; simpl; auto. Qed.

Lemma wlp_in_bounds b Q E w : (b = true -> Q tt w) -> wlp (in_bounds b) Q E w.
Proof. intros HQ. unfold wlp, in_bounds. destruct b; simpl; auto. Qed.

Lemma wlp_attempt {A} (m : M W A) Q E w :
  wlp m (fun a => Q (inl a)) (fun rc => Q (inr rc)) w -> wlp (attempt m) Q E w.
Proof. unfold wlp, attempt. by destruct (m w) as [[a|rc|] w']. Qed.

Lemma wlp_mono {A} (m : M W A) (Q Q' : A -> W -> Prop)
    (E E' : co_rc_value_t -> W -> Prop) w :
  wlp m Q E w -> (forall a w', Q a w' -> Q' a w') ->
  (forall rc w', E rc w' -> E' rc w') -> wlp m Q' E' w.
Proof. unfold wlp. destruct (m w) as [[a|rc|] w']; auto. Qed.

(** The while rule: an invariant. *)
Lemma wlp_mloop {A B} (body : A -> M W (A + B)) (I : A -> W -> Prop) a
    (Q : B -> W -> Prop) (E : co_rc_value_t -> W -> Prop) w :
  (forall a' w', I a' w' ->
     wlp (body a') (fun r w'' => match r with inl a'' => I a'' w'' | inr b => Q b w'' end) E w') ->
  I a w -> wlp (mloop body a) Q E w.
Proof.
  intros Hbody HI. unfold wlp, mloop.
  assert (match loop 64 (mloop_step body) (a, w) with
          | inl s => I s.1 s.2
          | inr r => match r with (Ret b, w') => Q b w' | (Fail rc, w') => E rc w'
                     | (Fault, _) => True end
          end) as Hl.
  { generalize 64%nat as n. intros n. set (s := (a, w)). assert (I s.1 s.2) as Hs by done.
    clearbody s. clear a w HI. revert s Hs.
    induction n as [|n IH]; intros s Hs; cbn [loop].
    - specialize (Hbody _ _ Hs). unfold wlp in Hbody. unfold mloop_step.
      by destruct (body s.1 s.2) as [[[a''|b]|rc|] w''].
    - specialize (IH s Hs) as IH1. destruct (loop n _ s) as [s1|r]; [|done]. by apply IH. }
  by destruct (loop 64 (mloop_step body) (a, w)) as [s|[[b|rc|] w']].
Qed.

Lemma wlp_mfor (body : Z -> M W unit) (I : W -> Prop) n lo (Q : unit -> W -> Prop) E w :
  (forall i w', I w' -> wlp (body i) (fun _ => I) E w') ->
  I w -> (forall w', I w' -> Q tt w') -> wlp (mfor n lo body) Q E w.
Proof.
  intros Hbody. revert lo w. induction n as [|n IH]; intros lo w HI HQ; cbn [mfor].
  - by apply wlp_ret, HQ.
  - apply wlp_bind. eapply wlp_mono; [by apply Hbody| |done]. intros [] w' HI'. by apply IH.
Qed.
End wlp_rules.

Ltac wlp_step :=
  lazymatch goal with
  | |- wlp (mret _) _ _ _ => apply wlp_ret
  | |- wlp (throw _) _ _ _ => apply wlp_throw
  | |- wlp fault _ _ _ => apply wlp_fault
  | |- wlp (_ ≫= _) _ _ _ => apply wlp_bind
  | |- wlp (gets _) _ _ _ => apply wlp_gets
  | |- wlp (modify _) _ _ _ => apply wlp_modify
  | |- wlp (fail_if _ _) _ _ _ => apply wlp_fail_if; intros ?; zbool; cbv beta
  | |- wlp (in_bounds _) _ _ _ => apply wlp_in_bounds; intros ?; zbool; cbv beta
  | |- wlp (attempt _) _ _ _ => apply wlp_attempt
  | |- wlp (if ?b then _ else _) _ _ _ => destruct b eqn:?; zbool
  end.

(** ** What an operation leaves alone *)

Create HintDb keeps.

Definition keeps {W X A} (f : W -> X) (m : M W A) : Prop :=
  forall w, wlp m (fun _ w' => f w' = f w) (fun _ w' => f w' = f w) w.

Section keeps_rules.
Context {W X : Type} (f : W -> X).

Lemma keeps_ret {A} (a : A) : keeps f (mret a).
Proof. done. Qed.
Lemma keeps_throw {A} rc : keeps f (throw (A := A) rc).
Proof. done. Qed.
Lemma keeps_gets {A} (h : W -> A) : keeps f (gets h).
Proof. done. Qed.
Lemma keeps_modify h : (forall w, f (h w) = f w) -> keeps f (modify h).
Proof. intros Hh w. apply Hh. Qed.
Lemma keeps_fail_if b rc : keeps f (fail_if b rc).
Proof. by destruct b. Qed.
Lemma keeps_in_bounds b : keeps f (in_bounds b).
Proof. by destruct b. Qed.

Lemma keeps_bind {A B} (m : M W A) (k : A -> M W B) :
  keeps f m -> (forall a, keeps f (k a)) -> keeps f (m ≫= k).
Proof.
  intros Hm Hk w. apply wlp_bind. eapply wlp_mono; [apply Hm| |done]. intros a w' E.
  eapply wlp_mono; [apply Hk|..]; simpl; congruence.
Qed.

Lemma keeps_attempt {A} (m : M W A) : keeps f m -> keeps f (attempt m).
Proof. intros Hm w. apply wlp_attempt, Hm. Qed.

Lemma keeps_mloop {A B} (body : A -> M W (A + B)) a :
  (forall a', keeps f (body a')) -> keeps f (mloop body a).
Proof.
  intros Hb w. apply (wlp_mloop _ (fun _ w' => f w' = f w)); [|done]. intros a' w' E.
  eapply wlp_mono; [apply Hb|..]; cbn; [intros [a''|b] w'' E'; congruence|congruence].
Qed.

Lemma keeps_mfor (body : Z -> M W unit) n lo :
  (forall i, keeps f (body i)) -> keeps f (mfor n lo body).
Proof.
  intros Hb. revert lo. induction n as [|n IH]; intros lo; cbn [mfor]; [apply keeps_ret|].
  by apply keeps_bind.
Qed.

Lemma keeps_if {A} (b : bool) (m1 m2 : M W A) :
  keeps f m1 -> keeps f m2 -> keeps f (if b then m1 else m2).
Proof. by destruct b. Qed.
End keeps_rules.

#[export] Hint Resolve keeps_ret keeps_throw keeps_gets keeps_fail_if keeps_in_bounds
  keeps_bind keeps_attempt keeps_mloop keeps_mfor keeps_if : keeps.

(** ** Threads *)

(** A thread: [Back], or a section and what it goes on to with its answer. A
    section of the code between a lock and its release, or a call that is atomic
    by itself, is one step; a section that faults ends the world there. *)
Inductive thread (S : Type) : Type :=
  | Back
  | Sect (A : Type) (m : M S A) (k : A -> thread S).
Arguments Back {S}.
Arguments Sect {S A} m k.
