(* ===== verification/Crossing.v ===== *)
(** The crossing loop ([arch/x86_64/switch.c], [co_arch_vcpu_run] with
    [co_arch_inject_tick] and [co_arch_forward_host_interrupt]).

    One thread of the host carries one processor of the guest. It enters the
    guest through the passage page, and when the guest comes back it looks why:
    the guest asked for something, took a fault, or a device of the host
    interrupted it. [iteration] is one turn of the loop; what the loop finds
    around it, the guest included, is the class [CrossHost]. *)
From S2P Require Import Prelude.
From S2P Require Import Rc.
From S2P Require Import Mem.
From S2P Require Import GuestMem.
From S2P Require Import Extable.
From S2P Require Import HostCheck.

(** ** Constants *)

(** The first two are enumerators of the guest's [linux/cooperative.h]. *)
Definition CO_OPERATION_IDLE : Z := 2.
Definition CO_OPERATION_TERMINATE : Z := 3.
Definition CO_OPERATION_YIELD : Z := 16.
Definition CO_OPERATION_BLOCK_PROBE : Z := 17.
Definition CO_OPERATION_BLOCK_IO : Z := 18.
Definition CO_OPERATION_START_VCPU : Z := 19.
Definition CO_OPERATION_KICK_VCPU : Z := 20.
Definition CO_PP_AP_VCPU : Z := 74.
Definition CO_PP_AP_RIP : Z := 75.
Definition CO_PP_AP_RSP : Z := 76.
Definition CO_PP_AP_CR3 : Z := 77.
Definition CO_PP_AP_GS_BASE : Z := 78.
Definition CO_MAX_VCPUS : Z := 4.

Definition CO_GUEST_HZ : Z := 1000.
Definition CO_GUEST_TICK_100NS : Z := 10000000 / CO_GUEST_HZ.
Definition CO_GUEST_PREEMPT_HZ : Z := 100.
Definition CO_GUEST_PREEMPT_MS : Z := 1000 / CO_GUEST_PREEMPT_HZ.
Definition CO_GUEST_PREEMPT_100NS : Z := 10000000 / CO_GUEST_PREEMPT_HZ.
Definition co_periodic_tick_injection_enabled : bool := true.

(** ** Data *)

(** The part of [linuxvm_state] the loop reads or writes. *)
Record linuxvm_state := LinuxVm {
  lx_cr3 : Z; lx_return_rip : Z; lx_rsp : Z; lx_cs : Z; lx_ss : Z; lx_xcr0 : Z; lx_cr4 : Z;
}.

(** The passage page: what the two sides tell each other. *)
Record passage := Passage { params : gmap Z Z; pp_operation : Z; linuxvm : linuxvm_state }.

Definition param (p : passage) (i : Z) : Z := arr_get (params p) i.
Definition set_param (i v : Z) (p : passage) : passage :=
  Passage (arr_set (params p) i v) (pp_operation p) (linuxvm p).
Definition set_operation (v : Z) (p : passage) : passage := Passage (params p) v (linuxvm p).
Definition set_return (rip rsp : Z) (p : passage) : passage :=
  let s := linuxvm p in
  Passage (params p) (pp_operation p)
    (LinuxVm (lx_cr3 s) rip rsp (lx_cs s) (lx_ss s) (lx_xcr0 s) (lx_cr4 s)).

(** [co_vcpu_ctl_t] *)
Record co_vcpu_ctl_t := Ctl {
  max_switches : Z; ctl_step : bool; ctl_batch : Z; deadline_secs : Z;
  tick_entry_va : Z; virtual_if_va : Z; ipi_pending_va : Z; timer_deadline_va : Z;
  async_cobd : bool; cobd_io_va : Z; idle_stop_after : Z;
}.

(** The fields of [co_arch_boot_result_t] the loop writes; the report is a
    value for each, a flag being zero or one. *)
Inductive field :=
  | o_faulted | o_returned_voluntarily | o_hit_limit | o_hit_deadline | o_unforwardable
  | o_reached_idle | o_terminated | o_guest_switches | o_switches | o_interrupts
  | o_ticks_injected | o_steps | o_vector | o_fault_rip | o_error_code | o_cr2
  | o_fault_rdi | o_fault_rax | o_stop_regs (i : Z) | o_warnings | o_warning_rip (i : Z)
  | o_fixups | o_fixup_rip (i : Z) | o_fixup_type (i : Z) | o_fault_extype
  | o_run_yields | o_idle_yields | o_block_requests | o_block_errors
  | o_terminate_reason | o_stop_operation
  | o_host_corrupt_field | o_host_corrupt_step | o_host_corrupt_expected | o_host_corrupt_actual
  (* the exported counters of the idle wait, [co_arch_tdl_*] *)
  | o_tdl_loop_ptr | o_tdl_branch_taken | o_tdl_spins | o_tdl_path_tick | o_tdl_path_mid
  | o_tdl_path_due.

#[export] Instance field_eq_dec : EqDecision field.
Proof. solve_decision. Defined.

(** What the loop keeps from one turn to the next. *)
Record lstate := LState {
  pp : passage;
  out : field -> Z;
  guest_crossings : Z;
  idle_run : Z;
  tick_due : Z;
  tick_last : Z;
  deadline : Z;
}.

Definition upd_pp (f : passage -> passage) (s : lstate) : lstate :=
  LState (f (pp s)) (out s) (guest_crossings s) (idle_run s) (tick_due s) (tick_last s) (deadline s).
Definition set_out (f : field) (v : Z) (s : lstate) : lstate :=
  LState (pp s) (fun g => if decide (g = f) then v else out s g) (guest_crossings s) (idle_run s)
    (tick_due s) (tick_last s) (deadline s).
Definition set_crossings (v : Z) (s : lstate) : lstate :=
  LState (pp s) (out s) v (idle_run s) (tick_due s) (tick_last s) (deadline s).
Definition set_idle_run (v : Z) (s : lstate) : lstate :=
  LState (pp s) (out s) (guest_crossings s) v (tick_due s) (tick_last s) (deadline s).
Definition set_tick_due (v : Z) (s : lstate) : lstate :=
  LState (pp s) (out s) (guest_crossings s) (idle_run s) v (tick_last s) (deadline s).
Definition set_tick_last (v : Z) (s : lstate) : lstate :=
  LState (pp s) (out s) (guest_crossings s) (idle_run s) (tick_due s) v (deadline s).
Definition set_deadline (v : Z) (s : lstate) : lstate :=
  LState (pp s) (out s) (guest_crossings s) (idle_run s) (tick_due s) (tick_last s) v.

(** The start request of a secondary, word by word, in the order stored. *)
Inductive ap_word := AP_RIP | AP_RSP | AP_CR3 | AP_GS | AP_XCR0 | AP_CR4 | AP_PENDING.

(** Go round again, or leave the loop. *)
Inductive next := Again | Stop.

(** ** The surroundings *)

Class CrossHost (W : Type) := {
  (* [fn(&pp->host_state, &pp->linuxvm_state, ..)]: the guest, until it is back *)
  ch_switch : passage -> M W passage;
  (* the registers of the host's processor *)
  ch_cpu : M W cpu;
  ch_write_reg : co_host_field_t -> Z -> M W unit;
  (* [co_os_monotonic_100ns], [co_os_get_time] *)
  ch_now : M W Z;
  ch_time : M W Z;
  (* [vcpu_abort_all], which any thread may set; [co_arch_boot_abort] *)
  ch_abort : M W bool;
  ch_boot_abort : M W unit;
  (* [co_console_get_address] *)
  ch_console : M W Z;
  (* the doorbells: [co_os_idle_wait], which answers whether it was woken,
     [co_os_idle_wait_until], [co_os_idle_wake], [co_os_vcpu_kick] *)
  ch_idle_wait : Z -> Z -> M W bool;
  ch_idle_wait_until : Z -> Z -> M W bool;
  ch_idle_wake : Z -> M W unit;
  ch_vcpu_kick : Z -> M W unit;
  (* [co_arch_vcpu_active] *)
  ch_vcpu_active : Z -> M W bool;
  (* [co_os_vcpu_preempt_start] on the index, [.._stop] *)
  ch_preempt_start : Z -> Z -> M W unit;
  ch_preempt_stop : Z -> M W unit;
  (* the block devices: [co_cobd_async_submit], [co_cobd_request_sg] (unit,
     offset, list, count, write, tag), [co_cobd_present], [co_cobd_size] *)
  ch_async_submit : Z -> Z -> Z -> Z -> bool -> Z -> M W bool;
  ch_request_sg : Z -> Z -> Z -> Z -> bool -> M W unit;
  ch_present : Z -> M W bool;
  ch_size : Z -> M W Z;
  (* [ap_start_rip[target] = v] and so on *)
  ch_store_ap : ap_word -> Z -> Z -> M W unit;
  (* [sidt] and the gate's flags: none when there is no table *)
  ch_gate_flags : Z -> M W (option Z);
  (* [int vector] through the live table *)
  ch_replay : Z -> M W unit;
  #[global] ch_mem :: Cr3Mem W;
}.

Section crossing.
Context {W : Type} `{CrossHost W}.

Abbreviation C := (M (W * lstate)).

Definition ask {A} (m : M W A) : C A := fun '(w, s) => let '(r, w') := m w in (r, (w', s)).
Definition look {A} (f : lstate -> A) : C A := gets (fun s => f s.2).
Definition change (f : lstate -> lstate) : C unit := modify (fun s => (s.1, f s.2)).

Definition put (f : field) (v : Z) : C unit := change (set_out f v).
(** [out->f++] on an [unsigned long] *)
Definition bump (f : field) : C unit := change (fun s => set_out f (ulong (out s f + 1)) s).
(** [co_arch_tdl_f++] on an [unsigned long long] *)
Definition bump64 (f : field) : C unit := change (fun s => set_out f (u64 (out s f + 1)) s).
Definition when (b : bool) (m : C unit) : C unit := if b then m else mret tt.

Context (tbl : extable) (ctl : co_vcpu_ctl_t) (index resume_rip ist_top : Z).

(** The code that sends the guest back where its frame says. *)
Definition back_in : C unit :=
  change (upd_pp (set_return resume_rip (u64 (ist_top - 0x200)))).

(** *** The frame

    [frame_buf]: twenty-two words at [pp->params[28]]. *)
Definition frame_bytes : Z := 0xb0.

Definition words (n : nat) (bs : list Z) : list Z :=
  (fun i => le_join (take 8 (drop (8 * i) bs))) <$> seq 0 n.
Definition unwords (f : list Z) : list Z := f ≫= le_bytes 8.

Definition read_frame : C (option (list Z)) :=
  p ← look pp;
  if param p 28 =? 0 then mret None else
  r ← attempt (ask (cr3_read (lx_cr3 (linuxvm p)) (param p 28) frame_bytes));
  match r with inl bs => mret (Some (words 22 bs)) | inr _ => mret None end.

Definition write_frame (f : list Z) : C unit :=
  p ← look pp;
  attempt (ask (cr3_write (lx_cr3 (linuxvm p)) (param p 28) (unwords f) frame_bytes)) ;;
  mret tt.

(** TF on and IF off. *)
Definition step_flags (f : list Z) : list Z :=
  set_word 0x98 (Z.ldiff (Z.lor (word f 0x98) 0x100) 0x200) f.
(** Past a fault: as above when stepping; otherwise TF off, IF the guest's. *)
Definition resume_flags (f : list Z) : list Z :=
  if ctl_step ctl then step_flags f else set_word 0x98 (Z.ldiff (word f 0x98) 0x100) f.

Definition report_frame (f : list Z) : C unit :=
  put o_fault_rdi (word f 0x48) ;;
  put o_fault_rax (word f 0x70) ;;
  change (fun s => fold_left (fun s r => set_out (o_stop_regs (Z.of_nat r)) (f !!! r) s) (seq 0 15) s).

(** ** Faults *)

Definition single_step (frame : option (list Z)) : C next :=
  bump o_steps ;;
  match frame with None => mret tt | Some f => write_frame (step_flags f) end ;;
  back_in ;;
  mret Again.

Definition ud2 : list Z := [0x0f; 0x0b].
Definition warninsn : list Z := [0x67; 0x48; 0x0f; 0xb9; 0x3a].

(** What five bytes at the trap are: the cooperative halt, or the length of a
    warning trap, zero for anything else. *)
Definition trap_kind (op : list Z) : bool * Z :=
  if bool_decide (take 4 op = ud2 ++ ud2) then (true, 0)
  else if bool_decide (take 2 op = ud2) then (false, 2)
  else if bool_decide (take 5 op = warninsn) then (false, 5)
  else (false, 0).

(** [None]: a warning without a frame falls through to the fault. *)
Definition undefined_instruction (frame : option (list Z)) : C (option next) :=
  p ← look pp;
  rip ← look (fun s => out s o_fault_rip);
  r ← attempt (ask (cr3_read (lx_cr3 (linuxvm p)) rip 5));
  let '(is_halt, warn_len) := match r with inl op => trap_kind op | inr _ => (false, 0) end in
  if (is_halt : bool) then put o_reached_idle 1 ;; mret (Some Stop)
  else if warn_len =? 0 then put o_faulted 1 ;; mret (Some Stop)
  else match frame with
  | None => mret None
  | Some f =>
      n ← look (fun s => out s o_warnings);
      when (n <? 8) (put (o_warning_rip n) rip) ;;
      bump o_warnings ;;
      let f := set_word 0x88 (u64 (word f 0x88 + warn_len)) f in
      write_frame (resume_flags f) ;;
      back_in ;;
      mret (Some Again)
  end.

Definition kernel_fault (frame : option (list Z)) : C next :=
  vector ← look (fun s => out s o_vector);
  rip ← look (fun s => out s o_fault_rip);
  let '(extype, fixed) := co_arch_extable_fixup tbl frame vector in
  match fixed with
  | Some f =>
      n ← look (fun s => out s o_fixups);
      when (n <? 8) (put (o_fixup_rip n) rip ;; put (o_fixup_type n) extype) ;;
      bump o_fixups ;;
      write_frame (resume_flags f) ;;
      back_in ;;
      mret Again
  | None =>
      put o_faulted 1 ;;
      put o_fault_extype extype ;;
      mret Stop
  end.

(** ** Interrupts of the host *)

(** [co_arch_forward_host_interrupt] *)
Definition co_arch_forward_host_interrupt (vector : Z) : C bool :=
  if ((vector <? 32) || (255 <? vector))%bool then mret false
  else if ((0x20 <=? vector) && (vector <=? 0x2f))%bool then mret false
  else
    flags ← ask (ch_gate_flags vector);
    match flags with
    | None => mret false
    | Some flags =>
        if Z.land flags 0x8000 =? 0 then mret false
        else ask (ch_replay vector) ;; mret true
    end.

(** [co_arch_guest_ipi_pending]: any of the four words of the processor. *)
Definition co_arch_guest_ipi_pending (cr3 base : Z) : C bool :=
  if base =? 0 then mret false else
  r ← attempt (ask (cr3_read cr3 (u64 (base + index * 32)) 32));
  match r with
  | inr _ => mret false
  | inl bs => mret (existsb (fun v => negb (v =? 0)) (words 4 bs))
  end.

(** Is a tick due: a posted interrupt at once, otherwise every period. *)
Definition tick_wanted (ipi_pending : bool) (now : Z) : C bool :=
  if ipi_pending then mret true
  else if negb co_periodic_tick_injection_enabled then mret false
  else
    last ← look tick_last;
    if last =? 0 then change (set_tick_last now) ;; mret false
    else mret (negb (u64 (now - last) <? CO_GUEST_PREEMPT_100NS)).

(** The five words the processor pushed: RIP, CS, RFLAGS, RSP, SS. *)
Definition iret_bytes : Z := 40.
Definition IF : Z := 0x200.

(** What the guest is made to see instead: the entry's frame. *)
Definition entry_frame (p : passage) (f : list Z) (newsp : Z) : list Z :=
  [tick_entry_va ctl; lx_cs (linuxvm p); Z.ldiff (f !!! 2%nat) IF; newsp; lx_ss (linuxvm p)].

(** [co_arch_inject_tick]; it returns at the first thing that is not as it
    should be. *)
Definition co_arch_inject_tick : C unit :=
  p ← look pp;
  let cr3 := lx_cr3 (linuxvm p) in
  if ((tick_entry_va ctl =? 0) || (virtual_if_va ctl =? 0))%bool then mret tt else
  idles ← look (fun s => out s o_idle_yields);
  if idles =? 0 then mret tt else
  let frame_va := param p 28 in
  if frame_va =? 0 then mret tt else
  ipi_pending ← co_arch_guest_ipi_pending cr3 (ipi_pending_va ctl);
  now ← ask ch_now;
  wanted ← tick_wanted ipi_pending now;
  if negb wanted then mret tt else
  vif ← attempt (ask (cr3_read cr3 (u64 (virtual_if_va ctl + index * 8)) 8));
  match vif with
  | inr _ => mret tt
  | inl vif =>
    if Z.land (le_join vif) IF =? 0 then mret tt else
    r ← attempt (ask (cr3_read cr3 (u64 (frame_va + 0x88)) iret_bytes));
    match r with
    | inr _ => mret tt
    | inl bs =>
      let f := words 5 bs in
      if Z.land (f !!! 2%nat) IF =? 0 then mret tt else
      if negb (Z.land (f !!! 1%nat) 3 =? 3) then mret tt else
      let newsp := Z.ldiff (u64 (frame_va - 0x40)) 0xf in
      r ← attempt (ask (cr3_write cr3 newsp (unwords f) iret_bytes));
      match r with
      | inr _ => mret tt
      | inl _ =>
        r ← attempt (ask (cr3_write cr3 (u64 (frame_va + 0x88)) (unwords (entry_frame p f newsp))
                            iret_bytes));
        match r with
        | inr _ => mret tt
        | inl _ => change (set_tick_last now) ;; bump o_ticks_injected
        end
      end
    end
  end.

Definition host_interrupt : C next :=
  vector ← look (fun s => out s o_vector);
  forwarded ← co_arch_forward_host_interrupt vector;
  if negb forwarded then put o_unforwardable 1 ;; mret Stop else
  bump o_interrupts ;;
  co_arch_inject_tick ;;
  back_in ;;
  mret Again.

(** The guest did not come back by itself. *)
Definition involuntary : C next :=
  p ← look pp;
  let vector := param p 16 in
  put o_vector vector ;;
  put o_fault_rip (param p 5) ;;
  put o_error_code (param p 17) ;;
  put o_cr2 (param p 18) ;;
  when (vector <? 32) (change (fun s => set_crossings (ulong (guest_crossings s + 1)) s)) ;;
  frame ← read_frame;
  match frame with None => mret tt | Some f => report_frame f end ;;
  if (ctl_step ctl && (vector =? 1))%bool then single_step frame else
  r ← (if vector =? 6 then undefined_instruction frame else mret None);
  match r with
  | Some n => mret n
  | None => if vector <? 32 then kernel_fault frame else host_interrupt
  end.

(** ** The idle wait *)

(** How to wait for [bound], which is [gd] when the guest named a deadline. *)
Inductive wait := NoWait | Millis (ms : Z) | Until (t : Z).

Definition wait_ms (bound now : Z) : Z :=
  let ms := u32 (u64 (u64 (bound - now) + 9999) / 10000) in
  if ms =? 0 then 1 else ms.

Definition wait_plan (now gd bound : Z) : wait :=
  if bound =? 0 then NoWait
  else if ((bound =? gd) && (9000 <=? u64 (bound - now)))%bool then Millis (wait_ms bound now)
  else if bound =? gd then Until bound
  else Millis (wait_ms bound now).

(** The guest's own next event outranks the tick; one that has passed is no
    wait at all. Answers [gd] and [bound]. *)
Definition idle_bound (now due : Z) : C (Z * Z) :=
  p ← look pp;
  let cr3 := lx_cr3 (linuxvm p) in
  if ((timer_deadline_va ctl =? 0) || (cr3 =? 0))%bool then mret (0, due) else
  r ← attempt (ask (cr3_read cr3 (u64 (timer_deadline_va ctl + index * 8)) 8));
  match r with
  | inr _ => mret (0, due)
  | inl bs =>
      let gd := le_join bs in
      put o_tdl_loop_ptr gd ;;
      if gd =? 0 then mret (0, due)
      else if now <? gd then mret (gd, gd)
      else bump64 o_tdl_path_due ;; mret (gd, 0)
  end.

(** The processor waits; a wait that timed out is banked for the guest. *)
Definition idle_wait (w : wait) : C unit :=
  match w with
  | NoWait => mret tt
  | Millis ms =>
      change (fun s => set_idle_run (ulong (idle_run s + 1)) s) ;;
      woken ← ask (ch_idle_wait index ms);
      when (negb woken) (change (upd_pp (fun p => set_param 48 (u64 (param p 48 + 1)) p)))
  | Until t =>
      bump64 o_tdl_path_mid ;;
      bump64 o_tdl_branch_taken ;;
      change (fun s => set_idle_run (ulong (idle_run s + 1)) s) ;;
      woken ← ask (ch_idle_wait_until index t);
      when (negb woken) (change (upd_pp (fun p => set_param 48 (u64 (param p 48 + 1)) p)))
  end.

(** The last quarter of a millisecond before a deadline is spun. *)
Definition spin_window : Z := 2500.
Definition spin_near (now gd : Z) : bool := (now <? gd) && (u64 (gd - now) <? spin_window).

Definition spin_step (gd now : Z) : C (Z + unit) :=
  if spin_near now gd then
    abort ← ask ch_abort;
    if (abort : bool) then mret (inr tt) else
    now ← ask ch_now;
    mret (inl now)
  else mret (inr tt).

Definition spin (gd : Z) : C unit :=
  now ← ask ch_now;
  when (spin_near now gd) (bump64 o_tdl_spins) ;;
  mloop (spin_step gd) now.

(** [CO_OPERATION_IDLE] *)
Definition idle : C next :=
  bump o_idle_yields ;;
  idles ← look (fun s => out s o_idle_yields);
  when (idles =? 1) (put o_reached_idle 1) ;;
  now ← ask ch_now;
  due ← look tick_due;
  when (due <=? now) (change (set_tick_due (u64 (now + CO_GUEST_TICK_100NS)))) ;;
  due ← look tick_due;
  b ← idle_bound now due;
  let '(gd, bound) := b in
  when (gd =? 0) (bump64 o_tdl_path_tick) ;;
  let plan := wait_plan now gd bound in
  idle_wait plan ;;
  when (negb (gd =? 0) && (bound =? gd) && match plan with Millis _ => false | _ => true end)
    (spin gd) ;;
  if ((index =? 0) && negb (idle_stop_after ctl =? 0))%bool then
    console ← ask ch_console;
    idles ← look (fun s => out s o_idle_yields);
    if ((console =? 0) && (idle_stop_after ctl <=? idles))%bool then mret Stop else mret Again
  else mret Again.

(** ** What the guest asks for *)

(** [params[51..57]]: unit, offset, number of descriptors, their address, write, -, tag. *)
Definition block_io : C next :=
  p ← look pp;
  let unit := s32 (param p 51) in
  let write := negb (param p 55 =? 0) in
  if (async_cobd ctl && negb (cobd_io_va ctl =? 0))%bool then
    ok ← ask (ch_async_submit unit (param p 52) (param p 54) (u32 (param p 53)) write
                (u32 (param p 57)));
    change (upd_pp (set_param 56 (if ok : bool then 0 else 1))) ;;
    bump o_block_requests ;;
    mret Again
  else
    r ← attempt (ask (ch_request_sg unit (param p 52) (param p 54) (u32 (param p 53)) write));
    let ok := match r with inl _ => true | inr _ => false end in
    change (upd_pp (set_param 56 (if ok then 0 else 1))) ;;
    bump o_block_requests ;;
    when (negb ok) (bump o_block_errors) ;;
    mret Again.

Definition block_probe : C next :=
  p ← look pp;
  let unit := s32 (param p 51) in
  present ← ask (ch_present unit);
  size ← (if (present : bool) then ask (ch_size unit) else mret 0);
  change (upd_pp (fun p => set_param 56 0 (set_param 52 size p))) ;;
  mret Again.

Definition kick_vcpu : C next :=
  p ← look pp;
  let target := s32 (param p CO_PP_AP_VCPU) in
  when ((0 <=? target) && (target <? CO_MAX_VCPUS))%bool
    (active ← ask (ch_vcpu_active target);
     if (active : bool) then ask (ch_vcpu_kick target) else ask (ch_idle_wake target)) ;;
  mret Again.

Definition start_vcpu : C next :=
  p ← look pp;
  let target := s32 (param p CO_PP_AP_VCPU) in
  when ((0 <? target) && (target <? CO_MAX_VCPUS))%bool
    (ask (ch_store_ap AP_RIP target (param p CO_PP_AP_RIP)) ;;
     ask (ch_store_ap AP_RSP target (param p CO_PP_AP_RSP)) ;;
     ask (ch_store_ap AP_CR3 target (param p CO_PP_AP_CR3)) ;;
     ask (ch_store_ap AP_GS target (param p CO_PP_AP_GS_BASE)) ;;
     ask (ch_store_ap AP_XCR0 target (lx_xcr0 (linuxvm p))) ;;
     ask (ch_store_ap AP_CR4 target (lx_cr4 (linuxvm p))) ;;
     ask (ch_store_ap AP_PENDING target 1) ;;
     ask (ch_idle_wake target)) ;;
  mret Again.

Definition terminate : C next :=
  p ← look pp;
  put o_terminated 1 ;;
  put o_terminate_reason (param p 0) ;;
  ask ch_boot_abort ;;
  mret Stop.

Definition unhandled (op : Z) : C next :=
  put o_returned_voluntarily 1 ;;
  put o_stop_operation op ;;
  mret Stop.

(** The guest called the switch itself: [pp->operation] says why. *)
Definition voluntary : C next :=
  p ← look pp;
  let op := pp_operation p in
  when (negb (op =? CO_OPERATION_IDLE))
    (change (fun s => set_crossings (ulong (guest_crossings s + 1)) s)) ;;
  change (upd_pp (set_operation 0)) ;;
  when (negb (op =? CO_OPERATION_IDLE)) (change (set_idle_run 0)) ;;
  if op =? CO_OPERATION_BLOCK_IO then block_io
  else if op =? CO_OPERATION_BLOCK_PROBE then block_probe
  else if op =? CO_OPERATION_IDLE then idle
  else if op =? CO_OPERATION_KICK_VCPU then kick_vcpu
  else if op =? CO_OPERATION_START_VCPU then start_vcpu
  else if op =? CO_OPERATION_YIELD then bump o_run_yields ;; mret Again
  else if op =? CO_OPERATION_TERMINATE then terminate
  else unhandled op.

(** ** One turn *)

(** [pushfq; cli] *)
Definition mask_interrupts : C Z :=
  r ← ask ch_cpu;
  let flags := r CO_HOST_FIELD_RFLAGS in
  ask (ch_write_reg CO_HOST_FIELD_RFLAGS (Z.ldiff flags IF)) ;;
  mret flags.

Fixpoint write_all (l : list (co_host_field_t * Z)) : C unit :=
  match l with
  | [] => mret tt
  | (f, v) :: l => ask (ch_write_reg f v) ;; write_all l
  end.

(** The value of an enumerator of [co_host_field_t]: the fields follow [NONE]
    in the order they are checked in. *)
Definition field_value (f : co_host_field_t) : Z :=
  match list_find (eq f) (CO_HOST_FIELD_NONE :: check_order) with Some (i, _) => Z.of_nat i | None => -1 end.

(** Did the host survive? [false] ends the run. *)
Definition host_survived (host_was : co_host_snapshot_t) (flags : Z) : C bool :=
  r ← ask ch_cpu;
  let '(bad, values) := co_host_verify host_was r in
  match values with
  | None =>
      ask (ch_write_reg CO_HOST_FIELD_RFLAGS flags) ;; mret true
  | Some (expected, actual) =>
      put o_host_corrupt_expected expected ;;
      put o_host_corrupt_actual actual ;;
      first ← look (fun s => out s o_host_corrupt_field);
      steps ← look (fun s => out s o_steps);
      when (first =? 0) (put o_host_corrupt_field (field_value bad) ;; put o_host_corrupt_step steps) ;;
      write_all (co_host_repair host_was bad) ;;
      ask (ch_write_reg CO_HOST_FIELD_RFLAGS flags) ;;
      mret (repairable bad)
  end.

(** What ends a run before the guest is entered. *)
Definition over_budget : C bool :=
  n ← look guest_crossings;
  mret (((index =? 0) || ctl_step ctl) && negb (max_switches ctl =? 0)
        && (max_switches ctl <=? n))%bool.

Definition past_deadline : C bool :=
  d ← look deadline;
  console ← (if d =? 0 then mret 0 else ask ch_console);
  when (negb (d =? 0) && negb (console =? 0)) (change (set_deadline 0)) ;;
  d ← look deadline;
  now ← look (fun s => param (pp s) 49);
  mret (negb (d =? 0) && (d <=? now))%bool.

(** [fn(..)] between the two pictures of the host. *)
Definition cross (batch : Z) : C bool :=
  flags ← mask_interrupts;
  r ← ask ch_cpu;
  let host_was := co_host_snapshot r in
  p ← look pp;
  p' ← ask (ch_switch p);
  change (upd_pp (fun _ => p')) ;;
  bump o_switches ;;
  when (negb (batch =? 0))
    (change (fun s => set_out o_steps (ulong (out s o_steps + u64 (batch - param (pp s) 30))) s)) ;;
  host_survived host_was flags.

Definition iteration : C next :=
  abort ← ask ch_abort;
  if (abort : bool) then put o_hit_deadline 1 ;; mret Stop else
  spent ← over_budget;
  if (spent : bool) then put o_hit_limit 1 ;; mret Stop else
  let batch := if (ctl_step ctl && (0 <? ctl_batch ctl))%bool then ctl_batch ctl else 0 in
  change (upd_pp (set_param 4 0)) ;;
  change (upd_pp (set_param 30 batch)) ;;
  now ← ask ch_now;
  change (upd_pp (set_param 49 now)) ;;
  time ← ask ch_time;
  change (upd_pp (set_param 50 time)) ;;
  late ← past_deadline;
  if (late : bool) then put o_hit_deadline 1 ;; mret Stop else
  survived ← cross batch;
  if negb survived then mret Stop else
  p ← look pp;
  if param p 4 =? 0 then voluntary else involuntary.

(** [for (i = 0; ; i++)], followed for [n] turns: [true] when it was left. *)
Fixpoint turns (n : nat) : C bool :=
  match n with
  | O => mret false
  | S n =>
      r ← iteration;
      match r with Stop => mret true | Again => turns n end
  end.

Definition co_arch_vcpu_run (n : nat) : C bool :=
  ask (ch_preempt_start index CO_GUEST_PREEMPT_MS) ;;
  now ← (if deadline_secs ctl =? 0 then mret 0 else ask ch_now);
  change (set_deadline (if deadline_secs ctl =? 0 then 0
                        else u64 (now + u64 (deadline_secs ctl * 10000000)))) ;;
  left ← turns n;
  if negb left then mret false else
  change (fun s => set_out o_guest_switches (guest_crossings s) s) ;;
  ask (ch_preempt_stop index) ;;
  mret true.

End crossing.

(** The loop's variables as a run begins, before the deadline is set. *)
Definition lstart (p : passage) (o : field -> Z) : lstate := LState p o 0 0 0 0 0.
