(* ===== verification/CrossingOk.v ===== *)
(** What the crossing loop counts and when it stops: rules for one turn, and
    the theorems about every run of turns. *)
From S2P Require Import Prelude.
From S2P Require Import Rc.
From S2P Require Import Mem.
From S2P Require Import GuestMem.
From S2P Require Import Extable.
From S2P Require Import HostCheck.
From S2P Require Import Partial.
From S2P Require Import Crossing.

Section crossing.
Context {W : Type} `{CrossHost W}.
Implicit Types (w : W) (s : lstate) (x : W * lstate).

(** ** Rules *)

Lemma wlp_ask {A} (m : M W A) (Q : A -> W * lstate -> Prop) E w s :
  (forall a w', Q a (w', s)) -> (forall rc w', E rc (w', s)) -> wlp (ask m) Q E (w, s).
Proof using. intros HQ HE. unfold wlp, ask. destruct (m w) as [[a|rc|] w']; auto. Qed.

Lemma wlp_look {A} (f : lstate -> A) Q E x : Q (f x.2) x -> wlp (look f) Q E x.
Proof using. done. Qed.

Lemma wlp_change f Q E x : Q tt (x.1, f x.2) -> wlp (change (W := W) f) Q E x.
Proof using. done. Qed.

Lemma wlp_when b (m : M (W * lstate) unit) Q E x :
  (b = true -> wlp m Q E x) -> (b = false -> Q tt x) -> wlp (when b m) Q E x.
Proof using. unfold when. destruct b; intros H1 H2; [by apply H1|by apply wlp_ret, H2]. Qed.

(** What only depends on the loop's state, and what leaves it alone. *)
Definition of_state {X} (f : lstate -> X) (x : W * lstate) : X := f x.2.

Lemma keeps_ask {A X} (f : lstate -> X) (m : M W A) : keeps (of_state f) (ask m).
Proof using. intros [w s]. by apply wlp_ask. Qed.
Lemma keeps_look {A X} (f : lstate -> X) (g : lstate -> A) : keeps (W := W * lstate) (of_state f) (look g).
Proof using. done. Qed.
Lemma keeps_change {X} (f : lstate -> X) g :
  (forall s, f (g s) = f s) -> keeps (W := W * lstate) (of_state f) (change g).
Proof using. intros Hg x. apply Hg. Qed.
Lemma keeps_when {X} (f : W * lstate -> X) b m : keeps f m -> keeps f (when b m).
Proof using. by destruct b. Qed.
End crossing.

#[export] Hint Resolve keeps_ask keeps_look keeps_when : keeps.

(** Follow an operation that leaves [f] alone. *)
Ltac keeps_step :=
  lazymatch goal with
  | |- keeps _ (mret _) => apply keeps_ret
  | |- keeps _ (ask _) => apply keeps_ask
  | |- keeps _ (look _) => apply keeps_look
  | |- keeps _ (change _) => apply keeps_change; intros; reflexivity
  | |- keeps _ (put _ _) => apply keeps_change; intros; reflexivity
  | |- keeps _ (bump _) => apply keeps_change; intros; reflexivity
  | |- keeps _ (bump64 _) => apply keeps_change; intros; reflexivity
  | |- keeps _ (when _ _) => apply keeps_when
  | |- keeps _ (attempt _) => apply keeps_attempt
  | |- keeps _ (mloop _ _) => apply keeps_mloop; intros
  | |- keeps _ (_ ≫= _) => apply keeps_bind; [|intros]
  | |- keeps _ (match _ with _ => _ end) => case_match
  | |- _ => solve [auto with keeps]
  end.
Ltac keeps_tac := repeat keeps_step.

Ltac cwlp_step :=
  lazymatch goal with
  | |- wlp (ask _) _ _ (_, _) => apply wlp_ask; [intros ? ?|intros ? ?; try done]
  | |- wlp (look _) _ _ _ => apply wlp_look; cbn [snd]
  | |- wlp (change _) _ _ _ => apply wlp_change; cbn [fst snd]
  | |- wlp (put _ _) _ _ _ => apply wlp_change; cbn [fst snd]
  | |- wlp (bump _) _ _ _ => apply wlp_change; cbn [fst snd]
  | |- wlp (when _ _) _ _ _ => apply wlp_when; intros ?; zbool
  | |- _ => wlp_step
  end.

Section counts.
Context {W : Type} `{CrossHost W}.
Context (tbl : extable) (ctl : co_vcpu_ctl_t) (index resume_rip ist_top : Z).

(** ** The books *)

(** What the turns count: crossings, and what each of them is charged to. *)
Definition counts (s : lstate) : Z * Z * Z * Z :=
  (out s o_switches, guest_crossings s, out s o_idle_yields, out s o_interrupts).

(** The books, and when the next tick is due. *)
Definition kept (s : lstate) : Z * Z * Z * Z * Z := (counts s, tick_due s).

Abbreviation Kc := (keeps (of_state (W := W) kept)).

Lemma report_frame_counts f : Kc (report_frame f).
Proof using. unfold report_frame. keeps_tac. Qed.

Lemma write_frame_counts f : Kc (write_frame f).
Proof using. unfold write_frame. keeps_tac. Qed.
Lemma read_frame_counts : Kc read_frame.
Proof using. unfold read_frame. keeps_tac. Qed.
Lemma back_in_counts : Kc (back_in resume_rip ist_top).
Proof using. unfold back_in. keeps_tac. Qed.
Hint Resolve write_frame_counts read_frame_counts back_in_counts report_frame_counts : keeps.

Lemma single_step_counts frame : Kc (single_step resume_rip ist_top frame).
Proof using. unfold single_step. keeps_tac. Qed.
Lemma undefined_instruction_counts frame : Kc (undefined_instruction ctl resume_rip ist_top frame).
Proof using. unfold undefined_instruction. keeps_tac. Qed.
Lemma kernel_fault_counts frame : Kc (kernel_fault tbl ctl resume_rip ist_top frame).
Proof using. unfold kernel_fault. keeps_tac. Qed.
Lemma forward_counts vector : Kc (co_arch_forward_host_interrupt vector).
Proof using. unfold co_arch_forward_host_interrupt. keeps_tac. Qed.
Lemma inject_tick_counts : Kc (co_arch_inject_tick ctl index).
Proof using.
  unfold co_arch_inject_tick, co_arch_guest_ipi_pending, tick_wanted. keeps_tac.
Qed.
Lemma idle_bound_counts now due : Kc (idle_bound ctl index now due).
Proof using. unfold idle_bound. keeps_tac. Qed.
Lemma idle_wait_counts w : Kc (idle_wait index w).
Proof using. unfold idle_wait. keeps_tac. Qed.
Lemma spin_counts gd : Kc (spin gd).
Proof using. unfold spin, spin_step. keeps_tac. Qed.
Lemma block_io_counts : Kc (block_io ctl).
Proof using. unfold block_io. keeps_tac. Qed.
Lemma block_probe_counts : Kc block_probe.
Proof using. unfold block_probe. keeps_tac. Qed.
Lemma kick_vcpu_counts : Kc kick_vcpu.
Proof using. unfold kick_vcpu. keeps_tac. Qed.
Lemma start_vcpu_counts : Kc start_vcpu.
Proof using. unfold start_vcpu. keeps_tac. Qed.
Lemma terminate_counts : Kc terminate.
Proof using. unfold terminate. keeps_tac. Qed.
Lemma unhandled_counts op : Kc (unhandled op).
Proof using. unfold unhandled. keeps_tac. Qed.
Lemma write_all_counts l : Kc (write_all l).
Proof using. induction l as [|[f v] l IH]; cbn [write_all]; keeps_tac. Qed.
Hint Resolve write_all_counts : keeps.
Lemma host_survived_counts was flags : Kc (host_survived was flags).
Proof using. unfold host_survived. keeps_tac. Qed.
Lemma past_deadline_counts : Kc past_deadline.
Proof using. unfold past_deadline. keeps_tac. Qed.
Lemma over_budget_counts : Kc (over_budget ctl index).
Proof using. unfold over_budget. keeps_tac. Qed.
Lemma mask_interrupts_counts : Kc mask_interrupts.
Proof using. unfold mask_interrupts. keeps_tac. Qed.
Definition charged (c : Z * Z * Z * Z) := let '(a, g, i, n) := c in (a, ulong (g + 1), i, n).
Definition idled (c : Z * Z * Z * Z) := let '(a, g, i, n) := c in (a, g, ulong (i + 1), n).
Definition interrupted (c : Z * Z * Z * Z) := let '(a, g, i, n) := c in (a, g, i, ulong (n + 1)).
Definition crossed (c : Z * Z * Z * Z) := let '(a, g, i, n) := c in (ulong (a + 1), g, i, n).

(** [m] leaves the counts as it found them, then [Q] is about them. *)
Lemma wlp_counts {A} (m : M (W * lstate) A) (Q : A -> W * lstate -> Prop) x :
  Kc m -> (forall a x', counts x'.2 = counts x.2 -> Q a x') -> wlp m Q (fun _ _ => True) x.
Proof using.
  intros Hm HQ. eapply wlp_mono; [apply Hm| |done]. intros a x' E. apply HQ.
  unfold of_state, kept in E. congruence.
Qed.

Hint Resolve idle_bound_counts idle_wait_counts spin_counts block_io_counts block_probe_counts
  kick_vcpu_counts start_vcpu_counts terminate_counts unhandled_counts single_step_counts
  undefined_instruction_counts kernel_fault_counts forward_counts inject_tick_counts
  host_survived_counts past_deadline_counts over_budget_counts mask_interrupts_counts : keeps.

Lemma wlp_kept {A} (m : M (W * lstate) A) (Q : A -> W * lstate -> Prop) x :
  Kc m -> (forall a x', kept x'.2 = kept x.2 -> Q a x') -> wlp m Q (fun _ _ => True) x.
Proof using. intros Hm HQ. eapply wlp_mono; [apply Hm| |done]. intros a x' E. by apply HQ. Qed.

(** When the next tick is due is moved only once it has come, to one period
    from then. *)
Definition tick_moved (s s' : lstate) : Prop :=
  tick_due s' = tick_due s \/
  exists now, tick_due s <= now /\ tick_due s' = u64 (now + CO_GUEST_TICK_100NS).

Lemma idle_kept x :
  wlp (idle ctl index)
    (fun _ x' => counts x'.2 = idled (counts x.2) /\ tick_moved x.2 x'.2) (fun _ _ => True) x.
Proof using.
  unfold idle, tick_moved. apply wlp_bind, wlp_change. set (x1 := (_, _)).
  assert (counts x1.2 = idled (counts x.2) /\ tick_due x1.2 = tick_due x.2) as [<- <-] by done.
  clearbody x1. clear x.
  apply wlp_bind, wlp_look, wlp_bind, wlp_kept; [keeps_tac|]. intros [] x2 E2.
  apply wlp_bind, wlp_kept; [keeps_tac|]. intros now x3 E3. rewrite E2 in E3. clear E2 x2.
  apply wlp_bind, wlp_look, wlp_bind.
  unfold kept in E3. assert (counts x3.2 = counts x1.2) as Ec by congruence.
  assert (tick_due x3.2 = tick_due x1.2) as Ed by congruence. clear E3.
  apply wlp_when; intros Hd; zbool.
  - apply wlp_change. apply wlp_kept; [keeps_tac|]. intros r x' E. unfold kept in E.
    split; [exact (eq_trans (f_equal fst E) Ec)|]. right. exists now. rewrite <- Ed.
    split; [done|exact (f_equal snd E)].
  - apply wlp_kept; [keeps_tac|]. intros r x' E. unfold kept in E.
    split; [congruence|]. left. congruence.
Qed.


(** A request is charged to the guest, an idle crossing to nobody. *)
Lemma voluntary_counts x :
  wlp (voluntary ctl index)
    (fun _ x' => (counts x'.2 = charged (counts x.2) \/ counts x'.2 = idled (counts x.2)) /\
       tick_moved x.2 x'.2) (fun _ _ => True) x.
Proof using.
  unfold voluntary. apply wlp_bind, wlp_look, wlp_bind, wlp_when; intros Hop; zbool;
    repeat (apply wlp_bind || apply wlp_change || apply wlp_when; intros; zbool); try done.
  - rewrite (proj2 (Z.eqb_neq _ _) Hop).
    apply wlp_kept; [keeps_tac|]. intros r x' E. unfold kept in E.
    split; [left; exact (f_equal fst E)|left; exact (f_equal snd E)].
  - rewrite Hop. cbn [CO_OPERATION_IDLE Z.eqb]. eapply wlp_mono; [apply idle_kept| |done].
    intros r x' [E Ht]. split; [right; exact E|exact Ht].
Qed.

(** A fault is charged to the guest, an interrupt of the host's is counted as
    one, if it could be handed on. *)
Lemma involuntary_counts x :
  wlp (involuntary tbl ctl index resume_rip ist_top)
    (fun r x' => counts x'.2 = charged (counts x.2) \/
       match r with
       | Again => counts x'.2 = interrupted (counts x.2)
       | Stop => counts x'.2 = counts x.2
       end) (fun _ _ => True) x.
Proof using.
  unfold involuntary. apply wlp_bind, wlp_look. do 4 apply wlp_bind, wlp_change.
  set (vector := param (pp x.2) 16). apply wlp_bind, wlp_when; intros Hv; zbool.
  - apply wlp_change. rewrite (proj2 (Z.ltb_lt _ _) Hv).
    apply wlp_counts; [keeps_tac|]. intros r x' ->. by left.
  - rewrite (proj2 (Z.ltb_ge vector 32)), (proj2 (Z.eqb_neq vector 1)),
      (proj2 (Z.eqb_neq vector 6)), andb_false_r by lia.
    apply wlp_bind. apply wlp_counts; [keeps_tac|]. intros f x1 E1.
    apply wlp_bind. apply wlp_counts; [keeps_tac|]. intros [] x2 E2.
    apply wlp_bind, wlp_ret. unfold host_interrupt. apply wlp_bind, wlp_look, wlp_bind.
    apply wlp_counts; [keeps_tac|]. intros fw x3 E3. rewrite E1, E2 in *.
    destruct fw; cbn [negb].
    + apply wlp_bind, wlp_change, wlp_bind. apply wlp_counts; [keeps_tac|]. intros [] x4 E4.
      apply wlp_bind. apply wlp_counts; [keeps_tac|]. intros [] x5 E5. apply wlp_ret.
      right. rewrite E5, E4. cbn [snd]. change (interrupted (counts x3.2) = interrupted (counts x.2)).
      by rewrite E3.
    + apply wlp_bind, wlp_change, wlp_ret. right. exact E3.
Qed.

(** What a turn does to the books. *)
Definition turn_counts (r : next) (c c' : Z * Z * Z * Z) : Prop :=
  let d := crossed c in
  match r with
  | Again => c' = charged d \/ c' = idled d \/ c' = interrupted d
  | Stop => c' = c \/ c' = d \/ c' = charged d \/ c' = idled d
  end.

Definition limited : bool := ((index =? 0) || ctl_step ctl) && negb (max_switches ctl =? 0).

Lemma cross_counts batch x :
  wlp (cross batch) (fun _ x' => counts x'.2 = crossed (counts x.2)) (fun _ _ => True) x.
Proof using.
  unfold cross. apply wlp_bind, wlp_counts; [keeps_tac|]. intros flags x1 E1. rewrite <- E1.
  do 3 (apply wlp_bind, wlp_counts; [keeps_tac|]; intros ? ? <-).
  apply wlp_bind, wlp_counts; [keeps_tac|]. intros [] x2 <-.
  apply wlp_bind, wlp_change. apply wlp_counts; [keeps_tac|]. by intros r x3 ->.
Qed.

Lemma iteration_counts x :
  wlp (iteration tbl ctl index resume_rip ist_top)
    (fun r x' => turn_counts r (counts x.2) (counts x'.2) /\
       (limited = true -> max_switches ctl <= guest_crossings x.2 -> counts x'.2 = counts x.2))
    (fun _ _ => True) x.
Proof using.
  unfold iteration. apply wlp_bind, wlp_counts; [keeps_tac|]. intros abort x1 E1.
  destruct abort.
  { apply wlp_bind, wlp_change, wlp_ret. split; [left; exact E1|intros _ _; exact E1]. }
  apply wlp_bind. unfold over_budget. apply wlp_bind, wlp_look, wlp_ret. fold limited.
  assert (guest_crossings x1.2 = guest_crossings x.2) as Eg by (unfold counts in E1; congruence).
  rewrite Eg. destruct (limited && (max_switches ctl <=? guest_crossings x.2))%bool eqn:El.
  { apply wlp_bind, wlp_change, wlp_ret. split; [left; exact E1|intros _ _; exact E1]. }
  eapply wlp_mono with (Q := fun r x' => turn_counts r (counts x.2) (counts x'.2)) (E := fun _ _ => True);
    [|intros r x' Ht; split; [done|]; intros Hl Hm; apply Z.leb_le in Hm; by rewrite Hl, Hm in El|done].
  rewrite <- E1. clear E1 Eg El. do 2 (apply wlp_bind, wlp_change).
  apply wlp_bind, wlp_counts; [keeps_tac|]. intros now x2 E2. apply wlp_bind, wlp_change.
  apply wlp_bind, wlp_counts; [keeps_tac|]. intros time x3 E3. apply wlp_bind, wlp_change.
  apply wlp_bind, wlp_counts; [keeps_tac|]. intros late x4 E4.
  assert (counts x4.2 = counts x1.2) as <- by (rewrite E4; exact (eq_trans E3 E2)). clear E2 E3 E4.
  destruct late; [apply wlp_bind, wlp_change, wlp_ret; by left|].
  apply wlp_bind. eapply wlp_mono; [apply cross_counts| |done]. intros survived x5 E5.
  destruct survived; cbn [negb]; [|apply wlp_ret; right; by left].
  apply wlp_bind, wlp_look. unfold turn_counts. rewrite <- E5. case_match.
  - eapply wlp_mono; [apply voluntary_counts| |done]. intros [] x6 [[E|E] _]; rewrite E; tauto.
  - eapply wlp_mono; [apply involuntary_counts| |done]. intros [] x6 [E|E]; rewrite E; tauto.
Qed.
(** *** The tick *)

Abbreviation Kt := (keeps (of_state (W := W) tick_due)).

Lemma kept_tick {A} (m : M (W * lstate) A) : Kc m -> Kt m.
Proof using.
  intros Hm x. eapply wlp_mono; [apply Hm|..]; intros ? x' E; exact (f_equal snd E).
Qed.
Hint Resolve kept_tick : keeps.

Lemma involuntary_tick : Kt (involuntary tbl ctl index resume_rip ist_top).
Proof using. unfold involuntary, host_interrupt. keeps_tac. Qed.
Lemma cross_tick batch : Kt (cross batch).
Proof using. unfold cross. keeps_tac. Qed.

Lemma wlp_tick {A} (m : M (W * lstate) A) (Q : A -> W * lstate -> Prop) x :
  Kt m -> (forall a x', tick_due x'.2 = tick_due x.2 -> Q a x') -> wlp m Q (fun _ _ => True) x.
Proof using. intros Hm HQ. eapply wlp_mono; [apply Hm| |done]. intros a x' E. by apply HQ. Qed.

Lemma iteration_tick x :
  wlp (iteration tbl ctl index resume_rip ist_top) (fun _ x' => tick_moved x.2 x'.2)
    (fun _ _ => True) x.
Proof using.
  unfold iteration, tick_moved. apply wlp_bind, wlp_tick; [keeps_tac|]. intros abort x1 <-.
  destruct abort; [apply wlp_tick; [keeps_tac|]; intros r x' ->; by left|].
  apply wlp_bind, wlp_tick; [keeps_tac|]. intros spent x2 <-.
  destruct spent; [apply wlp_tick; [keeps_tac|]; intros r x' ->; by left|].
  do 7 (apply wlp_bind, wlp_tick; [keeps_tac|]; intros ? ? <-).
  case_match; [apply wlp_tick; [keeps_tac|]; intros r x9 ->; by left|].
  apply wlp_bind, wlp_tick; [apply cross_tick|]. intros survived x3 <-.
  destruct survived; cbn [negb]; [|apply wlp_ret; by left].
  apply wlp_bind, wlp_look. case_match.
  - eapply wlp_mono; [apply voluntary_counts| |done]. intros r x9 [_ Ht]. exact Ht.
  - apply wlp_tick; [apply involuntary_tick|]. intros r x9 ->. by left.
Qed.

Lemma wait_ms_exact bound now :
  0 <= now < bound -> bound < 2 ^ 64 -> bound - now <= 10000 * (2 ^ 32 - 1) ->
  exists ms, wait_ms bound now = ms /\ 1 <= ms /\ bound <= now + ms * 10000 < bound + 10000.
Proof using.
  intros Hn Hb Hd. exists ((bound - now + 9999) / 10000).
  assert (u64 (bound - now) = bound - now) as E1 by (apply u64_small; lia).
  assert (u64 (bound - now + 9999) = bound - now + 9999) as E2 by (apply u64_small; lia).
  assert (u32 ((bound - now + 9999) / 10000) = (bound - now + 9999) / 10000) as E3
    by (apply u32_small; Z.div_mod_to_equations; lia).
  unfold wait_ms. rewrite E1, E2, E3.
  assert (1 <= (bound - now + 9999) / 10000) by (Z.div_mod_to_equations; lia).
  rewrite (proj2 (Z.eqb_neq _ _)) by lia. split; [done|]. split; [done|].
  Z.div_mod_to_equations; lia.
Qed.

(** The wait for an event of the guest's own is as long as it asks, however
    much longer than a tick. *)
Lemma deadline_outranks_tick :
  wait_plan 0 (10000 * 3600000) (10000 * 3600000) = Millis 3600000.
Proof using. reflexivity. Qed.

(** *** A run of turns *)

(** Every crossing is the guest's, idle, or an interrupt of the host's. *)
Definition balance (c : Z * Z * Z * Z) : Z := let '(a, g, i, n) := c in ulong (a - (g + i + n)).
Definition within (c : Z * Z * Z * Z) : Prop :=
  limited = true -> let '(_, g, _, _) := c in g <= max_switches ctl.

Lemma turn_balance r c c' :
  turn_counts r c c' -> balance c = 0 ->
  balance c' = 0 \/ (r = Stop /\ balance c' = 1).
Proof using.
  destruct c as [[[a g] i] n]. unfold turn_counts, crossed, charged, idled, interrupted, balance.
  intros Ht Hb. destruct r; destruct_hyps; repeat destruct Ht as [Ht|Ht]; subst;
    first [zwrap|right; split; [done|zwrap]].
Qed.

Lemma turn_within r c c' :
  turn_counts r c c' -> within c ->
  (limited = true -> let '(_, g, _, _) := c in max_switches ctl <= g -> c' = c) ->
  max_switches ctl < 2 ^ 32 -> (let '(_, g, _, _) := c in 0 <= g) ->
  within c' /\ let '(_, g, _, _) := c' in 0 <= g.
Proof using.
  destruct c as [[[a g] i] n]. unfold turn_counts, crossed, charged, idled, interrupted, within.
  intros Ht Hw Hstop Hm Hg.
  assert (c' = (a, g, i, n) \/ (limited = true -> g < max_switches ctl)) as Hc.
  { destruct limited; [|by right]. destruct (decide (max_switches ctl <= g)); [left; auto|right; lia]. }
  pose proof (u32_range (g + 1)).
  destruct Hc as [->|Hlt]; [done|].
  assert (limited = true -> ulong (g + 1) = g + 1) as Hu.
  { intros Hl. specialize (Hlt Hl). unfold ulong. rewrite u32_small; lia. }
  unfold ulong in *. destruct r; repeat destruct Ht as [Ht|Ht]; subst; split; try done; try lia;
    intros Hl; specialize (Hlt Hl); rewrite ?Hu by done; lia.
Qed.

Lemma turns_counts k x :
  max_switches ctl < 2 ^ 32 -> balance (counts x.2) = 0 -> within (counts x.2) ->
  0 <= guest_crossings x.2 ->
  wlp (turns tbl ctl index resume_rip ist_top k)
    (fun left x' => (balance (counts x'.2) = 0 \/ (left = true /\ balance (counts x'.2) = 1)) /\
       within (counts x'.2)) (fun _ _ => True) x.
Proof using.
  intros Hm. revert x. induction k as [|k IH]; intros x Hb Hw Hg; cbn [turns].
  { apply wlp_ret. split; [by left|done]. }
  apply wlp_bind. eapply wlp_mono; [apply iteration_counts| |done]. intros r x' [Ht Hs].
  pose proof (turn_balance _ _ _ Ht Hb) as Hb'.
  destruct (turn_within _ _ _ Ht Hw Hs Hm Hg) as [Hw' Hg'].
  destruct r; [|apply wlp_ret; split; [tauto|done]].
  destruct Hb' as [Hb'|[? _]]; [|done]. by apply IH.
Qed.

(** C3: the books of a run. However long a run of any guest goes on, every
    crossing it counted is one the guest is charged for, one in which it had
    nothing to do, or an interrupt of the host's that was handed on; at most the
    last one, if it ended the run, is none of these. The guest is never charged
    more than its budget where it has one, and the budget spent is what the
    report says. *)
Theorem crossings_accounted k w p o :
  o o_switches = 0 -> o o_idle_yields = 0 -> o o_interrupts = 0 ->
  0 <= max_switches ctl < 2 ^ 32 ->
  match co_arch_vcpu_run tbl ctl index resume_rip ist_top k (w, lstart p o) with
  | (Ret ended, (_, s)) =>
      let rest := ulong (out s o_switches
                         - (guest_crossings s + out s o_idle_yields + out s o_interrupts)) in
      (rest = 0 \/ (ended = true /\ rest = 1)) /\
      (limited = true -> guest_crossings s <= max_switches ctl) /\
      (ended = true -> out s o_guest_switches = guest_crossings s)
  | _ => True
  end.
Proof using.
  intros Hs Hi Hn Hm. 
  assert (wlp (co_arch_vcpu_run tbl ctl index resume_rip ist_top k)
    (fun left x' => (balance (counts x'.2) = 0 \/ (left = true /\ balance (counts x'.2) = 1)) /\
       within (counts x'.2) /\ (left = true -> out x'.2 o_guest_switches = guest_crossings x'.2))
    (fun _ _ => True) (w, lstart p o)) as Hrun.
  - unfold co_arch_vcpu_run. apply wlp_bind, wlp_counts; [keeps_tac|]. intros [] x1 E1.
    apply wlp_bind, wlp_counts; [keeps_tac|]. intros now x2 E2. apply wlp_bind, wlp_change.
    assert (counts x2.2 = (0, 0, 0, 0)) as E by (rewrite E2, E1; unfold counts; cbn; congruence).
    apply wlp_bind. eapply wlp_mono; [apply turns_counts; [lia|..]| |done]; cbn [snd].
    + change (balance (counts x2.2) = 0). by rewrite E.
    + change (within (counts x2.2)). rewrite E. intros _. lia.
    + change (0 <= guest_crossings x2.2). unfold counts in E. simplify_eq. lia.
    + intros left x3 [Hb Hw]. destruct left; cbn [negb]; [|by apply wlp_ret].
      apply wlp_bind, wlp_change, wlp_bind. destruct x3 as [w3 s3].
      apply wlp_ask; [intros [] w4|done]. by apply wlp_ret.
  - unfold wlp in Hrun. destruct (co_arch_vcpu_run _ _ _ _ _ _ _) as [[ended|rc|] [w' s]]; [|done..].
    exact Hrun.
Qed.
(** ** Why a processor leaves the loop *)

(** What the report says of it. *)
Definition stop_cause (s : lstate) : Prop :=
  out s o_hit_deadline = 1 \/ out s o_faulted = 1 \/ out s o_unforwardable = 1 \/
  out s o_terminated = 1 \/ out s o_returned_voluntarily = 1 \/
  out s o_host_corrupt_expected <> out s o_host_corrupt_actual \/
  (out s o_reached_idle = 1 /\ out s o_vector = 6).

Definition stops_for (r : next) (x : W * lstate) : Prop := r = Stop -> stop_cause x.2.

Lemma wlp_any {A} (m : M (W * lstate) A) (Q : A -> W * lstate -> Prop) x :
  (forall a x', Q a x') -> wlp m Q (fun _ _ => True) x.
Proof using. intros HQ. unfold wlp. by destruct (m x) as [[a|rc|] x']. Qed.

(** Whatever an operation does, go on behind it. *)
Ltac past := apply wlp_bind, wlp_any; intros ? ?.
Ltac goes_on := repeat first [past | case_match]; try (by apply wlp_ret).

Lemma idle_goes_on x :
  index <> 0 -> wlp (idle ctl index) (fun r _ => r = Again) (fun _ _ => True) x.
Proof using.
  intros Hi. unfold idle. rewrite (proj2 (Z.eqb_neq _ _) Hi). cbn [andb]. goes_on.
Qed.

Lemma voluntary_stops x :
  index <> 0 -> wlp (voluntary ctl index) stops_for (fun _ _ => True) x.
Proof using.
  intros Hi. unfold voluntary. do 4 past. unfold stops_for.
  repeat match goal with |- wlp (if ?b then _ else _) _ _ _ => destruct b end.
  - unfold block_io. goes_on.
  - unfold block_probe. goes_on.
  - eapply wlp_mono; [by apply idle_goes_on|by intros r x9 ->|done].
  - unfold kick_vcpu. goes_on.
  - unfold start_vcpu. goes_on.
  - goes_on.
  - unfold terminate. past. apply wlp_bind, wlp_change, wlp_bind, wlp_change, wlp_bind.
    apply wlp_ask; [|done]. intros ? ?. apply wlp_ret. intros _.
    unfold stop_cause. cbn. tauto.
  - unfold unhandled. apply wlp_bind, wlp_change, wlp_bind, wlp_change, wlp_ret. intros _.
    unfold stop_cause. cbn. tauto.
Qed.

Lemma kernel_fault_stops frame x :
  wlp (kernel_fault tbl ctl resume_rip ist_top frame) stops_for (fun _ _ => True) x.
Proof using.
  unfold kernel_fault. do 2 past. destruct (co_arch_extable_fixup _ _ _) as [extype [f|]].
  - goes_on.
  - apply wlp_bind, wlp_change, wlp_bind, wlp_change, wlp_ret. intros _. unfold stop_cause. cbn. tauto.
Qed.

Lemma undefined_instruction_stops frame x :
  out x.2 o_vector = 6 ->
  wlp (undefined_instruction ctl resume_rip ist_top frame)
    (fun r x' => match r with Some r => stops_for r x' | None => True end) (fun _ _ => True) x.
Proof using.
  intros Hv. unfold undefined_instruction. apply wlp_bind, wlp_look, wlp_bind, wlp_look, wlp_bind.
  destruct x as [w s]. apply wlp_attempt, wlp_ask; intros a w'; lazy beta iota.
  - destruct (trap_kind a) as [is_halt len]. destruct is_halt.
    { apply wlp_bind, wlp_change, wlp_ret; intros _; unfold stop_cause; cbn in *; tauto. }
    case_match.
    { apply wlp_bind, wlp_change, wlp_ret; intros _; unfold stop_cause; cbn; tauto. }
    destruct frame; [|by apply wlp_ret]; goes_on.
  - rewrite Z.eqb_refl. apply wlp_bind, wlp_change, wlp_ret; intros _; unfold stop_cause; cbn; tauto.
Qed.

Abbreviation Kv := (keeps (of_state (W := W) (fun s => out s o_vector))).
Lemma read_frame_vector : Kv read_frame.
Proof using. unfold read_frame. keeps_tac. Qed.
Lemma report_frame_vector f : Kv (report_frame f).
Proof using. unfold report_frame. keeps_tac. Qed.

Lemma wlp_vector {A} (m : M (W * lstate) A) (Q : A -> W * lstate -> Prop) x :
  Kv m -> (forall a x', out x'.2 o_vector = out x.2 o_vector -> Q a x') -> wlp m Q (fun _ _ => True) x.
Proof using. intros Hm HQ. eapply wlp_mono; [apply Hm| |done]. intros a x' E. by apply HQ. Qed.

Lemma involuntary_stops x :
  wlp (involuntary tbl ctl index resume_rip ist_top) stops_for (fun _ _ => True) x.
Proof using.
  unfold involuntary. past. set (vector := param a 16).
  apply wlp_bind, wlp_change. do 3 apply wlp_bind, wlp_change.
  set (x1 := (_, _)). assert (out x1.2 o_vector = vector) as Hv by done. clearbody x1.
  apply wlp_bind, wlp_vector; [keeps_tac|]. intros [] x2 E2.
  apply wlp_bind, wlp_vector; [apply read_frame_vector|]. intros frame x3 E3.
  apply wlp_bind, wlp_vector; [destruct frame; [apply report_frame_vector|apply keeps_ret]|].
  intros [] x4 E4. assert (out x4.2 o_vector = vector) as Hv4 by congruence.
  case_match; [unfold single_step; goes_on|].
  destruct (Z.eqb_spec vector 6) as [E6|_].
  - apply wlp_bind. eapply wlp_mono; [apply undefined_instruction_stops; congruence| |done].
    intros [r|] x5 Hr; [by apply wlp_ret|]. rewrite E6. apply kernel_fault_stops.
  - apply wlp_bind, wlp_ret. case_match; [apply kernel_fault_stops|]. unfold host_interrupt. past.
    past. case_match; [|goes_on]. apply wlp_bind, wlp_change, wlp_ret. intros _. unfold stop_cause. cbn. tauto.
Qed.

(** A verdict on the host names a field by two values that differ. *)
Lemma verify_differs was r bad e a :
  co_host_verify was r = (bad, Some (e, a)) -> e <> a.
Proof using.
  unfold co_host_verify. induction check_order as [|f l IH]; cbn; [done|].
  case_match; [done|]. zbool. intros ?. simplify_eq. congruence.
Qed.

Abbreviation Kh := (keeps (of_state (W := W) (fun s =>
  (out s o_host_corrupt_expected, out s o_host_corrupt_actual)))).
Lemma write_all_host l : Kh (write_all l).
Proof using. induction l as [|[f v] l IH]; cbn [write_all]; keeps_tac. Qed.

Lemma host_survived_stops was flags x :
  wlp (host_survived was flags) (fun b x' => b = false -> stop_cause x'.2) (fun _ _ => True) x.
Proof using.
  unfold host_survived. past. destruct (co_host_verify was a) as [bad [[e g]|]] eqn:Ev.
  - pose proof (verify_differs _ _ _ _ _ Ev) as Hne.
    apply wlp_bind, wlp_change, wlp_bind, wlp_change. set (x1 := (_, _)).
    assert (out x1.2 o_host_corrupt_expected = e /\ out x1.2 o_host_corrupt_actual = g) as [He Hg] by done.
    clearbody x1. apply wlp_bind, wlp_look, wlp_bind, wlp_look.
    assert (Kh (when (out x1.2 o_host_corrupt_field =? 0)
      (put o_host_corrupt_field (field_value bad) ;; put o_host_corrupt_step (out x1.2 o_steps)) ;;
      write_all (co_host_repair was bad) ;;
      ask (ch_write_reg CO_HOST_FIELD_RFLAGS flags) ;; mret (repairable bad))) as Hk.
    { keeps_tac. apply write_all_host. }
    eapply wlp_mono; [apply Hk| |done]. intros b x2 E _. unfold of_state in E. unfold stop_cause.
    simplify_eq. right. right. right. right. right. left. congruence.
  - past. by apply wlp_ret.
Qed.

(** C21: a secondary processor is never stopped by counting. Whatever the guest
    does, a processor other than the first that runs freely leaves the loop only
    because the run is being shut down or its time is over, the guest ended it
    or asked for something unknown, a fault could not be recovered or the guest
    halted at one, an interrupt could not be handed to the host, or the host's
    registers did not come back: never for its budget of crossings and never for
    being idle. *)
Theorem secondary_stops_for_cause x :
  index <> 0 -> ctl_step ctl = false ->
  match iteration tbl ctl index resume_rip ist_top x with
  | (Ret Stop, x') => stop_cause x'.2
  | _ => True
  end.
Proof using.
  intros Hi Hs.
  assert (wlp (iteration tbl ctl index resume_rip ist_top) stops_for (fun _ _ => True) x) as Hw.
  2: { unfold wlp in Hw. destruct (iteration _ _ _ _ _ x) as [[[]|rc|] x']; [done|by apply Hw|done..]. }
  unfold iteration. past. destruct a.
  { apply wlp_bind, wlp_change, wlp_ret. intros _. unfold stop_cause. cbn. tauto. }
  unfold over_budget. rewrite Hs, (proj2 (Z.eqb_neq _ _) Hi). cbn [orb andb].
  apply wlp_bind. past. apply wlp_ret. do 7 past. case_match.
  { apply wlp_bind, wlp_change, wlp_ret. intros _. unfold stop_cause. cbn. tauto. }
  apply wlp_bind. unfold cross. do 6 past.
  eapply wlp_mono; [apply host_survived_stops| |done]. intros survived x1 Hsv.
  destruct survived; cbn [negb]; [|apply wlp_ret; intros _; by apply Hsv].
  past. case_match; [by apply voluntary_stops|apply involuntary_stops].
Qed.
End counts.
