(* ===== verification/CrossingMem.v ===== *)
(** What the crossing loop does to the guest's memory: the recovery of a fault
    and the delivery of a tick, over [GuestView]. *)
From S2P Require Import Prelude.
From S2P Require Import Rc.
From S2P Require Import Mem.
From S2P Require Import GuestMem.
From S2P Require Import Extable.
From S2P Require Import HostCheck.
From S2P Require Import Partial.
From S2P Require Import Crossing.

(** ** Frames as memory *)

Lemma length_unwords f : length (unwords f) = (8 * length f)%nat.
Proof.
  unfold unwords. induction f as [|v f IH]; [done|]. cbn [mbind list_bind].
  rewrite length_app, length_le_bytes, IH. cbn [length]. lia.
Qed.

Lemma unwords_bytes f : Forall is_byte (unwords f).
Proof.
  unfold unwords. induction f as [|v f IH]; [constructor|]. cbn [mbind list_bind].
  apply Forall_app. split; [apply le_bytes_bytes|exact IH].
Qed.

Lemma unwords_part f i :
  (i < length f)%nat -> take 8 (drop (8 * i) (unwords f)) = le_bytes 8 (f !!! i).
Proof.
  unfold unwords. revert i. induction f as [|v f IH]; intros i Hi; [cbn in Hi; lia|].
  cbn [mbind list_bind]. destruct i as [|i].
  - rewrite Nat.mul_0_r, drop_0, take_app_length' by (by rewrite length_le_bytes). done.
  - replace (8 * S i)%nat with (8 + 8 * i)%nat by lia. rewrite <- drop_drop.
    rewrite drop_app_length' by (by rewrite length_le_bytes). apply IH. cbn in Hi. lia.
Qed.

(** Part of what was loaded is what would have been loaded. *)
Lemma load_part m a n o k :
  0 <= o -> 0 <= k -> o + k <= n ->
  take (Z.to_nat k) (drop (Z.to_nat o) (load_bytes m a n)) = load_bytes m (a + o) k.
Proof.
  intros Ho Hk Hn. replace n with (o + (k + (n - o - k))) by lia.
  rewrite !load_bytes_app by lia.
  rewrite drop_app_length' by (rewrite length_load_bytes; lia).
  by rewrite take_app_length' by (rewrite length_load_bytes; lia).
Qed.

Lemma words_load m a n i :
  (i < n)%nat -> words n (load_bytes m a (8 * Z.of_nat n)) !!! i = load_u64 m (a + 8 * Z.of_nat i).
Proof.
  intros Hi. unfold words. apply list_lookup_total_correct. rewrite list_lookup_fmap, lookup_seq_lt by done.
  cbn [fmap option_fmap option_map]. f_equal. unfold load_u64. f_equal.
  rewrite <- (load_part m a (8 * Z.of_nat n) (8 * Z.of_nat i) 8) by lia.
  replace (Z.to_nat (8 * Z.of_nat i)) with (8 * i)%nat by lia. done.
Qed.

Lemma load_unwords m a f i :
  (i < length f)%nat -> load_u64 (store_bytes m a (unwords f)) (a + 8 * Z.of_nat i) = u64 (f !!! i).
Proof.
  intros Hi. unfold load_u64.
  rewrite <- (load_part _ a (Z.of_nat (length (unwords f))) (8 * Z.of_nat i) 8)
    by (rewrite ?length_unwords; lia).
  rewrite load_bytes_store_eq by apply unwords_bytes.
  replace (Z.to_nat (8 * Z.of_nat i)) with (8 * i)%nat by lia.
  change (Z.to_nat 8) with 8%nat. rewrite unwords_part by done. by rewrite le_join_bytes.
Qed.

(** Outside the frame nothing changes. *)
Lemma store_outside m a bs x : ~ (a <= x < a + Z.of_nat (length bs)) -> store_bytes m a bs x = m x.
Proof. intros Hx. unfold store_bytes. by rewrite decide_False. Qed.

Lemma fixup_length t f vector type f' :
  co_arch_extable_fixup t (Some f) vector = (type, Some f') -> length f' = length f.
Proof.
  unfold co_arch_extable_fixup. case_match; [done|]. set (d := ex_data _).
  destruct (ex_handle _ _ _ _ f) as [f1|] eqn:Eh; cbn [fmap option_fmap option_map]; [|done].
  intros [= _ <-]. rewrite length_set_word.
  assert (length f1 = length f) as <-.
  { revert Eh. unfold ex_handle. repeat case_match; intros; simplify_eq; by rewrite ?length_set_word. }
  unfold ex_clear. repeat case_match; by rewrite ?length_set_word.
Qed.

Lemma resume_flags_length ctl f : length (resume_flags ctl f) = length f.
Proof. unfold resume_flags, step_flags. by destruct (ctl_step ctl); rewrite length_set_word. Qed.

(** A run that ends well, with what it ends in. *)
Lemma wp_result {W A} (m : M (W * lstate) A) (Q : A -> W -> lstate -> Prop) w s :
  wp m (fun a x => Q a x.1 x.2) (fun _ _ => False) (w, s) ->
  exists a w' s', m (w, s) = (Ret a, (w', s')) /\ Q a w' s'.
Proof. unfold wp. destruct (m (w, s)) as [[a|rc|] [w' s']]; [|done..]. intros HQ. by exists a, w', s'. Qed.

Section view.
Context {W : Type} `{CrossHost W} `{!GuestView W}.
Context (tbl : extable) (ctl : co_vcpu_ctl_t) (index resume_rip ist_top : Z).
Implicit Types (w : W) (s : lstate) (m : mem) (P : Z -> Prop).

Lemma wp_ask {A} (c : M W A) (Q : A -> W * lstate -> Prop) E w s a w' :
  c w = (Ret a, w') -> Q a (w', s) -> wp (ask c) Q E (w, s).
Proof using. intros Hc HQ. unfold wp, ask. by rewrite Hc. Qed.
Lemma wp_look {A} (f : lstate -> A) (Q : A -> W * lstate -> Prop) E w s :
  Q (f s) (w, s) -> wp (look f) Q E (w, s).
Proof using. done. Qed.
Lemma wp_change f (Q : unit -> W * lstate -> Prop) E w s :
  Q tt (w, f s) -> wp (change f) Q E (w, s).
Proof using. done. Qed.

(** The whole frame, read and written through the guest's tables. *)
Lemma wp_read_frame (Q : option (list Z) -> W * lstate -> Prop) E w s m P :
  let p := pp s in
  param p 28 <> 0 -> gv_view w (lx_cr3 (linuxvm p)) P m -> covers P (param p 28) frame_bytes ->
  (forall w', gv_view w' (lx_cr3 (linuxvm p)) P m ->
     Q (Some (words 22 (load_bytes m (param p 28) frame_bytes))) (w', s)) ->
  wp read_frame Q E (w, s).
Proof using.
  intros p Hz Hv Hc HQ. unfold read_frame. apply wp_bind, wp_look. fold p.
  rewrite (proj2 (Z.eqb_neq _ _) Hz).
  destruct (gv_read_law _ _ _ _ _ _ Hv Hc) as (w' & Hr & Hv').
  apply wp_bind, wp_attempt. eapply wp_ask; [exact Hr|]. apply wp_ret. by apply HQ.
Qed.

Lemma wp_write_frame f (Q : unit -> W * lstate -> Prop) E w s m P :
  let p := pp s in
  length f = 22%nat -> gv_view w (lx_cr3 (linuxvm p)) P m -> covers P (param p 28) frame_bytes ->
  (forall w', gv_view w' (lx_cr3 (linuxvm p)) P (store_bytes m (param p 28) (unwords f)) ->
     Q tt (w', s)) ->
  wp (write_frame f) Q E (w, s).
Proof using.
  intros p Hl Hv Hc HQ. unfold write_frame. apply wp_bind, wp_look. fold p.
  assert (Z.of_nat (length (unwords f)) = frame_bytes) as El by (by rewrite length_unwords, Hl).
  rewrite <- El in Hc. destruct (gv_write_law _ _ _ _ _ _ Hv Hc (unwords_bytes f)) as (w' & Hr & Hv').
  rewrite El in Hr. apply wp_bind, wp_attempt. eapply wp_ask; [exact Hr|]. apply wp_ret. by apply HQ.
Qed.

(** The report takes the registers; it says nothing else. *)
Lemma wp_report_frame f (Q : unit -> W * lstate -> Prop) E w s :
  (forall s', pp s' = pp s ->
     (forall fld, fld <> o_fault_rdi -> fld <> o_fault_rax -> (forall i, fld <> o_stop_regs i) ->
        out s' fld = out s fld) -> Q tt (w, s')) ->
  wp (report_frame f) Q E (w, s).
Proof using.
  intros HQ. unfold report_frame. do 2 apply wp_bind, wp_change. apply wp_change. apply HQ.
  - generalize (seq 0 15). intros l.
    enough (forall s, pp (fold_left (fun s r => set_out (o_stop_regs (Z.of_nat r)) (f !!! r) s) l s) = pp s)
      as -> by done.
    induction l as [|r l IH]; intros s'; [done|]. cbn [fold_left]. by rewrite IH.
  - intros fld H1 H2 H3. generalize (seq 0 15). intros l.
    enough (forall s, out (fold_left (fun s r => set_out (o_stop_regs (Z.of_nat r)) (f !!! r) s) l s) fld
                      = out s fld) as -> by (cbn; by rewrite !decide_False by done).
    induction l as [|r l IH]; intros s'; [done|]. cbn [fold_left]. rewrite IH. cbn.
    by rewrite decide_False by apply H3.
Qed.

(** C5: a fault is recovered in the guest's own frame, or the run stops. A fault
    the guest took, with the frame the stub saved for it readable through the
    guest's tables, either has an entry that is applied: then the twenty-two
    words in the guest's memory become exactly what the entry asks for, with the
    trap flags of the run, no other byte of the guest's memory changes, and the
    guest is sent back to where its frame says; or the run stops with the fault
    reported, and neither the guest's memory nor the passage page was touched. *)
Theorem fault_recovered_in_place w s m P :
  let p := pp s in
  let cr3 := lx_cr3 (linuxvm p) in
  let va := param p 28 in
  let vector := param p 16 in
  vector < 32 -> vector <> 6 -> (ctl_step ctl && (vector =? 1))%bool = false -> va <> 0 ->
  gv_view w cr3 P m -> covers P va frame_bytes ->
  let f := words 22 (load_bytes m va frame_bytes) in
  exists r w' s', involuntary tbl ctl index resume_rip ist_top (w, s) = (Ret r, (w', s')) /\
    out s' o_vector = vector /\ out s' o_fault_rip = param p 5 /\
    match co_arch_extable_fixup tbl (Some f) vector with
    | (type, Some f') =>
        r = Again /\
        (exists m', gv_view w' cr3 P m' /\
           (forall i, (i < 22)%nat ->
              load_u64 m' (va + 8 * Z.of_nat i) = u64 (resume_flags ctl f' !!! i)) /\
           (forall x, ~ (va <= x < va + frame_bytes) -> m' x = m x)) /\
        pp s' = set_return resume_rip (u64 (ist_top - 0x200)) p /\
        out s' o_fixups = ulong (out s o_fixups + 1)
    | (type, None) =>
        r = Stop /\ gv_view w' cr3 P m /\ pp s' = p /\
        out s' o_faulted = 1 /\ out s' o_fault_extype = type
    end.
Proof using.
  intros p cr3 va vector Hv32 Hv6 Hstep Hz Hv Hc f. apply wp_result.
  unfold involuntary. apply wp_bind, wp_look. fold p vector.
  do 4 apply wp_bind, wp_change. unfold when. rewrite (proj2 (Z.ltb_lt _ _) Hv32).
  apply wp_bind, wp_change. set (s1 := set_crossings _ _).
  assert (pp s1 = p /\ out s1 o_vector = vector /\ out s1 o_fault_rip = param p 5 /\
    out s1 o_fixups = out s o_fixups) as (Hp1 & Hv1 & Hr1 & Hf1) by done. clearbody s1.
  apply wp_bind. eapply wp_read_frame; [rewrite Hp1; exact Hz|rewrite Hp1; exact Hv|
    rewrite Hp1; exact Hc|]. rewrite Hp1. fold cr3 va f. intros w1 Hw1.
  apply wp_bind, wp_report_frame. intros s2 Hp2 Ho. rewrite Hp1 in Hp2.
  rewrite Hstep, (proj2 (Z.eqb_neq _ _) Hv6). apply wp_bind, wp_ret.
  unfold kernel_fault. do 2 apply wp_bind, wp_look. rewrite !Ho by done. rewrite Hv1, Hr1.
  rewrite <- (Ho o_fixups) in Hf1 by done. rewrite <- (Ho o_vector) in Hv1 by done.
  rewrite <- (Ho o_fault_rip) in Hr1 by done. clear Ho Hp1 s1.
  destruct (co_arch_extable_fixup tbl (Some f) vector) as [type [f'|]] eqn:Ef.
  - assert (length (resume_flags ctl f') = 22%nat) as Hl
      by (rewrite resume_flags_length; exact (fixup_length _ _ _ _ _ Ef)).
    apply wp_bind, wp_look, wp_bind. eapply wp_ret_mono with (Q := fun _ x => exists s3, x = (w1, s3) /\
      pp s3 = p /\ out s3 o_vector = vector /\ out s3 o_fault_rip = param p 5 /\
      out s3 o_fixups = out s o_fixups).
    { unfold when. case_match; [apply wp_bind, wp_change, wp_change|apply wp_ret];
        (eexists; split; [reflexivity|]; by split_and!). }
    intros [] ? (s3 & -> & Hp3 & Hv3 & Hr3 & Hf3). clear s2 Hp2 Hv1 Hr1 Hf1.
    apply wp_bind, wp_change. set (s4 := set_out _ _ _).
    assert (pp s4 = p) as Hp4 by done.
    apply wp_bind. eapply wp_write_frame; [exact Hl| | |];
      rewrite ?Hp4; [exact Hw1|exact Hc|]. intros w2 Hw2.
    apply wp_bind, wp_change, wp_ret. split; [exact Hv3|]. split; [exact Hr3|]. split; [done|].
    split; [|split; [cbn; by rewrite Hp3|cbn; by rewrite Hf3]].
    exists (store_bytes m va (unwords (resume_flags ctl f'))). split; [exact Hw2|]. split.
    + intros i Hi. apply load_unwords. by rewrite Hl.
    + intros x Hx. apply store_outside. by rewrite length_unwords, Hl.
  - apply wp_bind, wp_change, wp_bind, wp_change, wp_ret. by split_and!.
Qed.

(** ** The tick *)

(** Reading the clock is nothing to the guest. *)
Class CrossView := cv_now w : exists t w', ch_now w = (Ret t, w') /\
  forall cr3 P m, gv_view w cr3 P m -> gv_view w' cr3 P m.
Context `{Hclock : !CrossView}.

(** The [i]th of the words the processor pushed for the frame at [va]. *)
Definition iret (m : mem) (va : Z) (i : nat) : Z := load_u64 m (va + 0x88 + 8 * Z.of_nat i).
Definition vif_slot : Z := virtual_if_va ctl + index * 8.
Definition ipi_slot : Z := ipi_pending_va ctl + index * 32.
Definition ipi_posted (m : mem) : Prop :=
  ipi_pending_va ctl <> 0 /\ exists i, (i < 4)%nat /\ load_u64 m (ipi_slot + 8 * Z.of_nat i) <> 0.
Definition below (va : Z) : Z := (va - 0x40) - (va - 0x40) mod 16.

(** The guest is interrupted by its timer entry, as a gate would do it. *)
Record ticked (s s' : lstate) (m m' : mem) : Prop := {
  tk_up : out s o_idle_yields <> 0;
  tk_due : ipi_posted m \/
    (tick_last s <> 0 /\ CO_GUEST_PREEMPT_100NS <= u64 (tick_last s' - tick_last s));
  tk_virtual_if : Z.land (load_u64 m vif_slot) IF <> 0;
  tk_if : Z.land (iret m (param (pp s) 28) 2) IF <> 0;
  tk_user : Z.land (iret m (param (pp s) 28) 1) 3 = 3;
  tk_saved i : (i < 5)%nat ->
    load_u64 m' (below (param (pp s) 28) + 8 * Z.of_nat i) = iret m (param (pp s) 28) i;
  tk_entry i : (i < 5)%nat ->
    iret m' (param (pp s) 28) i =
      u64 ([tick_entry_va ctl; lx_cs (linuxvm (pp s)); Z.ldiff (iret m (param (pp s) 28) 2) IF;
            below (param (pp s) 28); lx_ss (linuxvm (pp s))] !!! i);
  tk_rest x : ~ (below (param (pp s) 28) <= x < below (param (pp s) 28) + 40) ->
    ~ (param (pp s) 28 + 0x88 <= x < param (pp s) 28 + 0xb0) -> m' x = m x;
}.

Lemma covers_sub P va n va' n' :
  covers P va n -> va <= va' -> 0 < n' -> va' + n' <= va + n -> covers P va' n'.
Proof using.
  intros (H1 & H2 & H3 & HP) ???. split; [lia|]. split; [lia|]. split; [lia|]. intros. apply HP. lia.
Qed.

Lemma wp_read w s cr3 P m va n (Q : list Z + co_rc_value_t -> W * lstate -> Prop) E :
  gv_view w cr3 P m -> covers P va n ->
  (forall w', gv_view w' cr3 P m -> Q (inl (load_bytes m va n)) (w', s)) ->
  wp (attempt (ask (cr3_read cr3 va n))) Q E (w, s).
Proof using.
  intros Hv Hc HQ. destruct (gv_read_law _ _ _ _ _ _ Hv Hc) as (w' & Hr & Hv').
  apply wp_attempt. eapply wp_ask; [exact Hr|]. by apply HQ.
Qed.

Lemma wp_write w s cr3 P m va f n (Q : unit + co_rc_value_t -> W * lstate -> Prop) E :
  gv_view w cr3 P m -> n = 8 * Z.of_nat (length f) -> covers P va n ->
  (forall w', gv_view w' cr3 P (store_bytes m va (unwords f)) -> Q (inl tt) (w', s)) ->
  wp (attempt (ask (cr3_write cr3 va (unwords f) n))) Q E (w, s).
Proof using.
  intros Hv Hn Hc HQ. assert (n = Z.of_nat (length (unwords f))) as -> by (rewrite length_unwords; lia).
  destruct (gv_write_law _ _ _ _ _ _ Hv Hc (unwords_bytes f)) as (w' & Hr & Hv').
  apply wp_attempt. eapply wp_ask; [exact Hr|]. by apply HQ.
Qed.

(** Is an interrupt posted: yes exactly when one is. *)
Lemma wp_ipi_pending w s cr3 P m (Q : bool -> W * lstate -> Prop) E :
  gv_view w cr3 P m -> (ipi_pending_va ctl = 0 \/ covers P ipi_slot 32) ->
  (forall b w', gv_view w' cr3 P m -> (b = true -> ipi_posted m) -> Q b (w', s)) ->
  wp (co_arch_guest_ipi_pending index cr3 (ipi_pending_va ctl)) Q E (w, s).
Proof using.
  intros Hv Hc HQ. unfold co_arch_guest_ipi_pending. case_cond; [by apply wp_ret, HQ|].
  destruct Hc as [?|Hc]; [done|]. pose proof Hc as (H1 & _ & H3 & _).
  unfold ipi_slot in *. rewrite (u64_small (_ + _)) by lia.
  apply wp_bind. eapply wp_read; [exact Hv|exact Hc|]. intros w' Hv'. apply wp_ret.
  apply HQ; [done|]. intros He. split; [done|]. apply existsb_exists in He as (v & Hin & Hnz).
  apply list_elem_of_In, list_elem_of_lookup in Hin as [i Hi].
  assert (i < 4)%nat as Hlt by (apply lookup_lt_Some in Hi; exact Hi). exists i. split; [done|].
  pose proof (words_load m (ipi_pending_va ctl + index * 32) 4 i Hlt) as Hw.
  change (8 * Z.of_nat 4) with 32 in Hw.
  rewrite (list_lookup_total_correct _ _ _ Hi) in Hw. unfold ipi_slot. rewrite <- Hw. zbool. done.
Qed.

Lemma wp_tick_wanted b now (Q : bool -> W * lstate -> Prop) E w s :
  (forall r s', pp s' = pp s -> out s' = out s ->
     (r = true -> tick_last s' = tick_last s /\
        (b = true \/ (tick_last s <> 0 /\ CO_GUEST_PREEMPT_100NS <= u64 (now - tick_last s)))) ->
     Q r (w, s')) ->
  wp (tick_wanted b now) Q E (w, s).
Proof using.
  intros HQ. unfold tick_wanted. destruct b; [apply wp_ret, HQ; auto|].
  cbn [negb co_periodic_tick_injection_enabled]. apply wp_bind, wp_look. case_cond.
  - apply wp_bind, wp_change, wp_ret, HQ; done.
  - apply wp_ret, HQ; [done..|]. intros Hr. zbool. auto.
Qed.

Lemma below_spec va : 0x50 <= va < 2 ^ 64 ->
  Z.ldiff (u64 (va - 0x40)) 0xf = below va /\ below va mod 16 = 0 /\ va - 0x50 < below va <= va - 0x40.
Proof using.
  intros Hva. unfold below. rewrite u64_small by lia. change 0xf with (2 ^ 4 - 1).
  rewrite ldiff_mask by lia. change (2 ^ 4) with 16. split; [done|].
  split; Z.div_mod_to_equations; lia.
Qed.

Lemma iret_words m va i : (i < 5)%nat ->
  words 5 (load_bytes m (va + 0x88) iret_bytes) !!! i = iret m va i.
Proof using. intros Hi. change iret_bytes with (8 * Z.of_nat 5). by rewrite words_load. Qed.

(** Words apart from what was stored. *)
Lemma load_u64_apart m a bs x :
  x + 8 <= a \/ a + Z.of_nat (length bs) <= x -> load_u64 (store_bytes m a bs) x = load_u64 m x.
Proof using. intros Hx. unfold load_u64. by rewrite load_bytes_store_ne by lia. Qed.

(** C4: a tick arrives as an interrupt would, or not at all. With the guest's
    stack readable through its own tables, the injection either changes nothing
    of the guest's memory, or all of this holds: the guest has been idle before,
    its virtual and its saved interrupt flag are set and it was in user mode; an
    interrupt is posted for this processor or a period has passed since the last
    tick; the five words to return with lie, sixteen-byte aligned, below the saved
    frame; the frame now enters the timer with the kernel's selectors, interrupts
    off and the stack at these words; and no other byte changed. *)
Theorem tick_injected_as_interrupt w s m P :
  let p := pp s in
  let cr3 := lx_cr3 (linuxvm p) in
  let va := param p 28 in
  0x50 <= va -> gv_view w cr3 P m -> covers P (va - 0x50) (0x50 + 0xb0) ->
  covers P vif_slot 8 -> (ipi_pending_va ctl = 0 \/ covers P ipi_slot 32) ->
  exists w' s' m', co_arch_inject_tick ctl index (w, s) = (Ret tt, (w', s')) /\
    gv_view w' cr3 P m' /\ pp s' = p /\
    ((out s' = out s /\ m' = m) \/
     (out s' o_ticks_injected = ulong (out s o_ticks_injected + 1) /\ ticked s s' m m')).
Proof using Hclock.
  intros p cr3 va Hva Hv Hst Hvif Hipi.
  enough (exists r w' s', co_arch_inject_tick ctl index (w, s) = (Ret r, (w', s')) /\
    exists m', gv_view w' cr3 P m' /\ pp s' = p /\
    ((out s' = out s /\ m' = m) \/
     (out s' o_ticks_injected = ulong (out s o_ticks_injected + 1) /\ ticked s s' m m'))) as Hx.
  { destruct Hx as ([] & w' & s' & Hr & m' & Hm). by exists w', s', m'. }
  apply wp_result. cbn beta.
  (* every early return leaves things as they were *)
  assert (forall w1 s1, gv_view w1 cr3 P m -> pp s1 = p -> out s1 = out s ->
    exists m', gv_view (w1, s1).1 cr3 P m' /\ pp (w1, s1).2 = p /\
    ((out (w1, s1).2 = out s /\ m' = m) \/
     (out (w1, s1).2 o_ticks_injected = ulong (out s o_ticks_injected + 1) /\
      ticked s (w1, s1).2 m m'))) as Hsame by (intros; exists m; auto).
  pose proof Hst as (_ & _ & Hend & _).
  unfold co_arch_inject_tick. apply wp_bind, wp_look. fold p cr3 va.
  case_cond; [by apply wp_ret, Hsame|].
  apply wp_bind, wp_look. case_cond; [by apply wp_ret, Hsame|].
  rewrite (proj2 (Z.eqb_neq va 0)) by lia.
  apply wp_bind. eapply wp_ipi_pending; [exact Hv|exact Hipi|]. intros ipi w1 Hv1 Hposted.
  destruct (cv_now w1) as (now & w2 & Hnow & Hk).
  apply wp_bind. eapply wp_ask; [exact Hnow|].
  apply wp_bind, wp_tick_wanted. intros wanted s2 Hp2 Ho2 Hwant.
  destruct wanted; cbn [negb]; [|by apply wp_ret, Hsame; auto].
  destruct (Hwant eq_refl) as [Hlast Hdue]. clear Hwant.
  pose proof Hvif as (? & _ & ? & _). unfold vif_slot in *. rewrite (u64_small (_ + index * 8)) by lia.
  apply wp_bind. eapply wp_read; [by apply Hk|exact Hvif|]. intros w3 Hv3. fold vif_slot in *.
  case_cond; [by apply wp_ret, Hsame|].
  rewrite (u64_small (va + 0x88)) by lia.
  apply wp_bind. eapply wp_read; [exact Hv3|unfold iret_bytes; eapply covers_sub; [exact Hst|lia..]|].
  intros w4 Hv4. pose proof (iret_words m va) as Hf. set (f := words 5 _) in *.
  rewrite (Hf 2%nat), (Hf 1%nat) by lia.
  case_cond; [by apply wp_ret, Hsame|]. case_cond; [by apply wp_ret, Hsame|].
  destruct (below_spec va) as (-> & Hal & Hb); [lia|].
  apply wp_bind. eapply wp_write; [exact Hv4|done|unfold iret_bytes; eapply covers_sub; [exact Hst|lia..]|].
  intros w5 Hv5.
  apply wp_bind. eapply wp_write; [exact Hv5|done|unfold iret_bytes; eapply covers_sub; [exact Hst|lia..]|].
  intros w6 Hv6. apply wp_bind, wp_change, wp_change.
  eexists. split; [exact Hv6|]. split; [exact Hp2|]. right.
  split; [cbn; by rewrite Ho2|]. zbool.
  assert (length f = 5%nat) as Hl by done.
  pose proof (length_unwords f) as Hlu. rewrite Hl in Hlu.
  split; fold p va; try done.
  - destruct Hdue as [->|[Hne Hper]]; [left; by apply Hposted|right]. split; [done|].
    cbn. exact Hper.
  - intros i Hi. rewrite load_u64_apart by lia. rewrite load_unwords by lia.
    rewrite Hf by done. apply u64_small, load_u64_range.
  - intros i Hi. unfold iret at 1. rewrite load_unwords by done.
    unfold entry_frame. by rewrite (Hf 2%nat) by lia.
  - intros x Hx1 Hx2. rewrite store_outside by (rewrite length_unwords; cbn; lia).
    apply store_outside. rewrite Hlu. lia.
Qed.
End view.
