(* ===== verification/CrossingTime.v ===== *)
(** The crossing loop and the clock: a run without a console gives its thread
    back when its time is over, whatever the guest does, and an idle processor
    waits for its tick or for the event its guest names. *)
From S2P Require Import Prelude.
From S2P Require Import Rc.
From S2P Require Import Mem.
From S2P Require Import GuestMem.
From S2P Require Import Extable.
From S2P Require Import HostCheck.
From S2P Require Import Partial.
From S2P Require Import Crossing.
From S2P Require Import CrossingOk.
From S2P Require Import CrossingMem.

(** ** Time

    [co_os_monotonic_100ns] is a processor counter divided by its rate: the
    counter goes up with every look at it, its hundred nanoseconds need not. It
    is a 64-bit count of 100 ns, which lasts longer than any run. The other
    calls come back, some with a failure, and take some time. *)
Definition comes_back {W A} (time : W -> Z) (m : M W A) : Prop :=
  forall w, exists r w', m w = (r, w') /\ r <> Fault /\ time w <= time w'.
Definition returns {W A} (time : W -> Z) (m : M W A) : Prop :=
  forall w, exists a w', m w = (Ret a, w') /\ time w <= time w'.

Class CrossClock (W : Type) `{CrossHost W} := {
  cycles : W -> Z;
  per : Z;
  per_range : 0 < per < 2 ^ 32;
  cycles_pos w : 0 <= cycles w;
  cc_now w : exists w', ch_now w = (Ret (cycles w / per), w') /\ cycles w < cycles w';
  cc_read cr3 va n : comes_back cycles (cr3_read cr3 va n);
  cc_read_length cr3 va n w bs w' : cr3_read cr3 va n w = (Ret bs, w') -> length bs = Z.to_nat n;
  cc_write cr3 va bs n : comes_back cycles (cr3_write cr3 va bs n);
  cc_switch p : returns cycles (ch_switch p);
  cc_cpu : returns cycles ch_cpu;
  cc_write_reg f v : returns cycles (ch_write_reg f v);
  cc_time : returns cycles ch_time;
  cc_abort : returns cycles ch_abort;
  cc_boot_abort : returns cycles ch_boot_abort;
  cc_console : returns cycles ch_console;
  cc_idle_wait v ms : returns cycles (ch_idle_wait v ms);
  cc_idle_wait_until v t : returns cycles (ch_idle_wait_until v t);
  cc_idle_wake v : returns cycles (ch_idle_wake v);
  cc_vcpu_kick v : returns cycles (ch_vcpu_kick v);
  cc_vcpu_active v : returns cycles (ch_vcpu_active v);
  cc_preempt_start v ms : returns cycles (ch_preempt_start v ms);
  cc_preempt_stop v : returns cycles (ch_preempt_stop v);
  cc_async_submit u o a n b t : returns cycles (ch_async_submit u o a n b t);
  cc_request_sg u o a n b : comes_back cycles (ch_request_sg u o a n b);
  cc_present u : returns cycles (ch_present u);
  cc_size u : returns cycles (ch_size u);
  cc_store_ap f v x : returns cycles (ch_store_ap f v x);
  cc_gate_flags v : returns cycles (ch_gate_flags v);
  cc_replay v : returns cycles (ch_replay v);
}.

Section time.
Context {W : Type} `{CrossHost W} `{!CrossClock W}.
Context (tbl : extable) (ctl : co_vcpu_ctl_t) (index resume_rip ist_top : Z).
Implicit Types (w : W) (s : lstate) (x : W * lstate).

(** ** Operations that come back

    [fine m]: [m] comes back with an answer; time has not gone backwards, the
    end of the run is where it was, and the next tick is at most a period
    ahead of the clock if it was before. *)
Definition due_soon x : Prop := tick_due x.2 <= cycles x.1 / per + CO_GUEST_TICK_100NS.
Definition after x x' : Prop :=
  cycles x.1 <= cycles x'.1 /\ deadline x'.2 = deadline x.2 /\ (due_soon x -> due_soon x').
Definition fine {A} (m : M (W * lstate) A) : Prop :=
  forall x, wp m (fun _ x' => after x x') (fun _ _ => False) x.
(** The same of an operation whose failure is looked at. *)
Definition soft {A} (m : M (W * lstate) A) : Prop :=
  forall x, wp m (fun _ x' => after x x') (fun _ x' => after x x') x.

Lemma after_trans x1 x2 x3 : after x1 x2 -> after x2 x3 -> after x1 x3.
Proof using. unfold after. intros (? & ? & ?) (? & ? & ?). split; [lia|]. split; [congruence|auto]. Qed.

Lemma after_same w s w' s' :
  cycles w <= cycles w' -> deadline s' = deadline s -> tick_due s' = tick_due s -> after (w, s) (w', s').
Proof using.
  intros Ht Hd Hu. split; [done|]. split; [done|]. unfold due_soon. cbn [fst snd]. rewrite Hu.
  pose proof per_range. assert (cycles w / per <= cycles w' / per) by (apply Z.div_le_mono; lia). lia.
Qed.

Lemma fine_ret {A} (a : A) : fine (mret a).
Proof using. intros x. by split. Qed.
Lemma fine_look {A} (f : lstate -> A) : fine (look f).
Proof using. intros x. by split. Qed.
Lemma fine_change f : (forall s, (deadline (f s), tick_due (f s)) = (deadline s, tick_due s)) -> fine (change f).
Proof using. intros Hf [w s]. specialize (Hf s). injection Hf as Hd Hu. by apply after_same. Qed.
Lemma fine_ask {A} (m : M W A) : returns cycles m -> fine (ask m).
Proof using.
  intros Hm [w s]. destruct (Hm w) as (a & w' & Hr & Ht). eapply wp_ask; [exact Hr|]. by apply after_same.
Qed.
Lemma soft_ask {A} (m : M W A) : comes_back cycles m -> soft (ask m).
Proof using.
  intros Hm [w s]. destruct (Hm w) as (r & w' & Hr & Hf & Ht). unfold wp, ask. rewrite Hr.
  by destruct r; [apply after_same..|].
Qed.
Lemma fine_attempt {A} (m : M (W * lstate) A) : soft m -> fine (attempt m).
Proof using. intros Hm x. by apply wp_attempt, Hm. Qed.
Lemma fine_bind {A B} (m : M (W * lstate) A) (k : A -> M (W * lstate) B) :
  fine m -> (forall a, fine (k a)) -> fine (m ≫= k).
Proof using.
  intros Hm Hk x. apply wp_bind. eapply wp_ret_mono; [apply Hm|]. intros a x' Ha.
  eapply wp_ret_mono; [apply Hk|]. intros b x''. by apply after_trans.
Qed.
Lemma fine_when b m : fine m -> fine (when b m).
Proof using. intros Hm. destruct b; [exact Hm|apply fine_ret]. Qed.
Lemma fine_now : fine (ask ch_now).
Proof using.
  intros [w s]. destruct (cc_now w) as (w' & Hr & Ht). eapply wp_ask; [exact Hr|]. apply after_same; [lia|done..].
Qed.
End time.

Create HintDb fine.
#[export] Hint Resolve cc_read cc_write cc_switch cc_cpu cc_write_reg cc_time cc_abort cc_boot_abort
  cc_console cc_idle_wait cc_idle_wait_until cc_idle_wake cc_vcpu_kick cc_vcpu_active
  cc_preempt_start cc_preempt_stop cc_async_submit cc_request_sg cc_present cc_size cc_store_ap
  cc_gate_flags cc_replay fine_now : fine.

Ltac fine_step :=
  lazymatch goal with
  | |- fine (mret _) => apply fine_ret
  | |- fine (ask ch_now) => apply fine_now
  | |- fine (ask _) => apply fine_ask; solve [auto with fine]
  | |- fine (look _) => apply fine_look
  | |- fine (change _) => apply fine_change; intros; reflexivity
  | |- fine (put _ _) => apply fine_change; intros; reflexivity
  | |- fine (bump _) => apply fine_change; intros; reflexivity
  | |- fine (bump64 _) => apply fine_change; intros; reflexivity
  | |- fine (when _ _) => apply fine_when
  | |- fine (attempt (ask _)) => apply fine_attempt, soft_ask; solve [auto with fine]
  | |- fine (_ ≫= _) => apply fine_bind; [|intros]
  | |- fine (match _ with _ => _ end) => case_match
  | |- _ => solve [auto with fine]
  end.
Ltac fine_tac := repeat fine_step.

Section ends.
Context {W : Type} `{CrossHost W} `{!CrossClock W}.
Context (tbl : extable) (ctl : co_vcpu_ctl_t) (index resume_rip ist_top : Z).
Implicit Types (w : W) (s : lstate) (x : W * lstate).

Lemma read_frame_fine : fine read_frame.
Proof using All. unfold read_frame. fine_tac. Qed.
Lemma write_frame_fine f : fine (write_frame f).
Proof using All. unfold write_frame. fine_tac. Qed.
Lemma report_frame_fine f : fine (report_frame f).
Proof using All. unfold report_frame. fine_tac. Qed.
Lemma back_in_fine : fine (back_in resume_rip ist_top).
Proof using All. unfold back_in. fine_tac. Qed.
Hint Resolve read_frame_fine write_frame_fine report_frame_fine back_in_fine : fine.

Lemma involuntary_fine : fine (involuntary tbl ctl index resume_rip ist_top).
Proof using All.
  unfold involuntary, single_step, undefined_instruction, kernel_fault, host_interrupt,
    co_arch_forward_host_interrupt, co_arch_inject_tick, co_arch_guest_ipi_pending, tick_wanted.
  fine_tac.
Qed.

(** The spin is over when the deadline is: every look at the clock brings it
    nearer, and it begins a quarter of a millisecond away at most. *)
Definition spin_left (gd now : Z) x : Z :=
  2 * Z.max 0 (gd * per - cycles x.1) + (if spin_near now gd then 1 else 0).

Lemma spin_fine gd : 0 <= gd < 2 ^ 64 -> fine (spin gd).
Proof using All.
  intros Hg [w s]. unfold spin. destruct (cc_now w) as (w1 & Hnow & Ht).
  apply wp_bind. eapply wp_ask; [exact Hnow|]. set (now := cycles w / per).
  pose proof per_range as Hp. pose proof (cycles_pos w) as Hc.
  assert (0 <= now /\ now * per <= cycles w) as [Hn0 Hnp]
    by (unfold now; split; [apply Z.div_pos; lia|rewrite Z.mul_comm; apply Z.mul_div_le; lia]).
  apply wp_bind. eapply wp_ret_mono; [apply (fine_when (spin_near now gd) (bump64 o_tdl_spins))|].
  { apply fine_change. intros; reflexivity. }
  intros [] x1 Hx1. pose proof (proj1 Hx1) as Hc1. cbn [fst] in Hc1.
  destruct (spin_near now gd) eqn:Enear.
  2: { unfold wp. rewrite (mloop_leaves _ _ tt x1 x1); [eapply after_trans; [|exact Hx1]; apply after_same; (lia || done)|].
       unfold spin_step. by rewrite Enear. }
  apply (wp_mloop _ (fun now' x => 0 <= now' /\ after (w, s) x) (spin_left gd)).
  - intros now' [w' s'] [Hn' Ha]. unfold spin_step, spin_left. destruct (spin_near now' gd) eqn:En.
    2: { apply wp_ret. exact Ha. }
    destruct (cc_abort w') as (b & w2 & Hab & Htb).
    apply wp_bind. eapply wp_ask; [exact Hab|].
    assert (after (w, s) (w2, s')) as Ha2 by (eapply after_trans; [exact Ha|by apply after_same]).
    destruct b; [by apply wp_ret|].
    destruct (cc_now w2) as (w3 & Hnow3 & Ht3). apply wp_bind. eapply wp_ask; [exact Hnow3|].
    apply wp_ret. cbn [fst].
    pose proof (cycles_pos w2). split; [split; [apply Z.div_pos; lia|]|].
    + eapply after_trans; [exact Ha2|]. apply after_same; [lia|done..].
    + destruct (spin_near (cycles w2 / per) gd) eqn:En2; [|lia].
      unfold spin_near in En2. apply andb_true_iff in En2 as [Hlt _]. apply Z.ltb_lt in Hlt.
      assert (cycles w2 < per * Z.succ (cycles w2 / per)) by (apply Z.mul_succ_div_gt; lia).
      assert (per * Z.succ (cycles w2 / per) <= per * gd) by (apply Z.mul_le_mono_nonneg_l; lia).
      rewrite (Z.mul_comm gd per). lia.
  - split; [done|]. eapply after_trans; [|exact Hx1]. apply after_same; (lia || done).
  - unfold spin_left. rewrite Enear. unfold spin_near in Enear. apply andb_true_iff in Enear as [Hlt Hw].
    apply Z.ltb_lt in Hlt, Hw. rewrite u64_small in Hw by lia. unfold spin_window in Hw.
    assert ((gd - now) * per <= 2500 * per) by (apply Z.mul_le_mono_nonneg_r; lia).
    rewrite Z.mul_sub_distr_r in *. lia.
Qed.

(** The event the guest names is a 64-bit word. *)
Lemma idle_bound_fine now due x :
  wp (idle_bound ctl index now due) (fun b x' => after x x' /\ 0 <= b.1 < 2 ^ 64)
    (fun _ _ => False) x.
Proof using All.
  destruct x as [w s]. unfold idle_bound. apply wp_bind, wp_look. case_cond; [apply wp_ret; split; [by apply after_same|done]|].
  apply wp_bind, wp_attempt. unfold wp at 1, ask.
  destruct (cc_read (lx_cr3 (linuxvm (pp s))) (u64 (timer_deadline_va ctl + index * 8)) 8 w)
    as (r & w' & Hr & Hf & Ht). rewrite Hr. assert (forall s', deadline s' = deadline s -> tick_due s' = tick_due s -> after (w, s) (w', s')) as Haft by (intros; by apply after_same).
  destruct r as [bs|rc|]; [|apply wp_ret; split; [by apply Haft|done]|done].
  apply cc_read_length in Hr. pose proof (le_join_range bs) as Hg. rewrite Hr in Hg.
  change (8 * Z.of_nat (Z.to_nat 8)) with 64 in Hg.
  apply wp_bind, wp_change. case_cond; [apply wp_ret; split; [by apply Haft|cbn; lia]|].
  case_cond; [apply wp_ret; split; [by apply Haft|done]|].
  apply wp_bind, wp_change, wp_ret. split; [by apply Haft|done].
Qed.

(** Setting the next tick, from a reading of the clock. *)
Lemma set_tick_fine now w s :
  0 <= now <= cycles w / per ->
  wp (when (tick_due s <=? now) (change (set_tick_due (u64 (now + CO_GUEST_TICK_100NS)))))
    (fun _ x' => after (w, s) x') (fun _ _ => False) (w, s).
Proof using All.
  intros Hn. destruct (_ <=? now); cbn [when]; [|by apply wp_ret, after_same].
  apply wp_change. split; [done|]. split; [done|]. intros _. unfold due_soon. cbn [fst snd tick_due set_tick_due].
  change CO_GUEST_TICK_100NS with 10000. pose proof (Z.mod_le (now + 10000) (2 ^ 64) ltac:(lia) ltac:(lia)).
  unfold u64. lia.
Qed.

Lemma idle_fine : fine (idle ctl index).
Proof using All.
  unfold idle. do 3 (apply fine_bind; [fine_tac|intros]). intros [w s]. apply wp_bind.
  destruct (cc_now w) as (w1 & Hnow & Ht). eapply wp_ask; [exact Hnow|]. set (now := cycles w / per).
  assert (after (w, s) (w1, s)) as H1 by (apply after_same; [lia|done..]).
  assert (0 <= now <= cycles w1 / per) as Hn.
  { pose proof per_range. pose proof (cycles_pos w). split; [apply Z.div_pos; lia|apply Z.div_le_mono; lia]. }
  apply wp_bind, wp_look, wp_bind. cbn [snd].
  eapply wp_ret_mono; [by apply set_tick_fine|]. intros [] x2 H2. apply wp_bind. unfold look at 1. apply wp_gets, wp_bind.
  eapply wp_ret_mono; [apply idle_bound_fine|]. intros [gd bound] x3 [H3 Hg]. cbn [fst] in Hg.
  eapply wp_ret_mono; [|intros r x4 H4; eapply after_trans; [exact H1|]; eapply after_trans; [exact H2|]; eapply after_trans; [exact H3|exact H4]].
  generalize x3. clear H3 x3.
  match goal with |- forall x, wp ?m _ _ x => change (fine m) end.
  apply fine_bind; [fine_tac|intros _].
  apply fine_bind; [unfold idle_wait; fine_tac|intros _].
  apply fine_bind; [apply fine_when, spin_fine; exact Hg|intros _]. fine_tac.
Qed.
Hint Resolve idle_fine involuntary_fine : fine.

Lemma voluntary_fine : fine (voluntary ctl index).
Proof using All.
  unfold voluntary, block_io, block_probe, kick_vcpu, start_vcpu, terminate, unhandled. fine_tac.
Qed.

Lemma write_all_fine l : fine (write_all l).
Proof using All. induction l as [|[f v] l IH]; cbn [write_all]; fine_tac. Qed.
Hint Resolve write_all_fine voluntary_fine : fine.

Lemma cross_fine batch : fine (cross batch).
Proof using All. unfold cross, mask_interrupts, host_survived. fine_tac. Qed.

(** Nobody attaches a console. *)
Definition headless : Prop := forall w, exists w', ch_console w = (Ret 0, w') /\ cycles w <= cycles w'.

Lemma past_deadline_headless x :
  headless -> deadline x.2 <> 0 ->
  wp past_deadline (fun b x' => after x x' /\ b = (deadline x.2 <=? param (pp x.2) 49))
    (fun _ _ => False) x.
Proof using All.
  intros Hh Hd. destruct x as [w s]. cbn [snd] in *. unfold past_deadline. apply wp_bind, wp_look.
  rewrite (proj2 (Z.eqb_neq _ _) Hd). destruct (Hh w) as (w' & Hc & Ht).
  apply wp_bind. eapply wp_ask; [exact Hc|]. cbn [negb Z.eqb andb when].
  apply wp_bind, wp_ret, wp_bind, wp_look, wp_bind, wp_look, wp_ret.
  rewrite (proj2 (Z.eqb_neq _ _) Hd). split; [by apply after_same|done].
Qed.

(** A turn that goes on has spent time of the run's. *)
Lemma iteration_spends x :
  headless -> deadline x.2 <> 0 ->
  wp (iteration tbl ctl index resume_rip ist_top)
    (fun r x' => r = Again -> cycles x.1 < cycles x'.1 /\ deadline x'.2 = deadline x.2 /\
                              cycles x.1 < deadline x.2 * per) (fun _ _ => False) x.
Proof using All.
  intros Hh Hd. destruct x as [w s]. cbn [fst snd] in *. unfold iteration.
  destruct (cc_abort w) as (b & w1 & Hab & Ht1). apply wp_bind. eapply wp_ask; [exact Hab|].
  destruct b; [by apply wp_bind, wp_change, wp_ret|].
  unfold over_budget. apply wp_bind, wp_bind, wp_look, wp_ret. case_cond; [by apply wp_bind, wp_change, wp_ret|].
  do 2 apply wp_bind, wp_change.
  destruct (cc_now w1) as (w2 & Hnow & Ht2). apply wp_bind. eapply wp_ask; [exact Hnow|].
  set (now := cycles w1 / per). apply wp_bind, wp_change.
  destruct (cc_time w2) as (t & w3 & Htm & Ht3). apply wp_bind. eapply wp_ask; [exact Htm|].
  apply wp_bind, wp_change. set (s1 := upd_pp _ _).
  assert (deadline s1 = deadline s /\ param (pp s1) 49 = now) as [Hd1 Hn1].
  { split; [done|]. unfold s1, param, set_param. cbn [upd_pp pp params].
    rewrite arr_get_set_ne by done. apply arr_get_set_eq. }
  clearbody s1. apply wp_bind.
  eapply wp_ret_mono; [apply past_deadline_headless; [done|cbn; congruence]|].
  intros late x4 [(Ht4 & Hd4 & _) ->]. cbn [fst snd] in *. rewrite Hd1, Hn1.
  destruct (Z.leb_spec (deadline s) now) as [|Hlt]; [by apply wp_bind, wp_change, wp_ret|].
  assert (cycles w < deadline s * per) as Htime.
  { pose proof per_range. assert (cycles w1 < per * Z.succ now) by (apply Z.mul_succ_div_gt; lia).
    assert (per * Z.succ now <= per * deadline s) by (apply Z.mul_le_mono_nonneg_l; lia).
    rewrite (Z.mul_comm (deadline s)). lia. }
  apply wp_bind. eapply wp_ret_mono; [apply cross_fine|]. intros survived x5 (Ht5 & Hd5 & _).
  destruct survived; cbn [negb]; [|by apply wp_ret].
  destruct x5 as [w5 s5]. cbn [fst snd] in *. apply wp_bind, wp_look.
  assert (forall m : M (W * lstate) next, fine m ->
    wp m (fun r x' => r = Again -> cycles w < cycles x'.1 /\ deadline x'.2 = deadline s /\
                                   cycles w < deadline s * per) (fun _ _ => False) (w5, s5)) as Hend.
  { intros m Hm. eapply wp_ret_mono; [apply Hm|]. intros r x6 (Ht6 & Hd6 & _) _. cbn [fst snd] in *.
    split; [lia|]. split; [congruence|done]. }
  case_match; apply Hend; [apply voluntary_fine|apply involuntary_fine].
Qed.

(** The next tick stays within a period of the clock, whatever a turn does. *)
Definition sooner x x' : Prop := cycles x.1 <= cycles x'.1 /\ (due_soon x -> due_soon x').

Lemma sooner_trans x1 x2 x3 : sooner x1 x2 -> sooner x2 x3 -> sooner x1 x3.
Proof using. unfold sooner. intros [] []. split; [lia|auto]. Qed.
Lemma fine_sooner {A} (m : M (W * lstate) A) x : fine m -> wp m (fun _ => sooner x) (fun _ _ => False) x.
Proof using. intros Hm. eapply wp_ret_mono; [apply Hm|]. by intros a x' (? & _ & ?). Qed.
Lemma wp_sooner {A B} (m : M (W * lstate) A) (k : A -> M (W * lstate) B) x :
  wp m (fun _ => sooner x) (fun _ _ => False) x ->
  (forall a x', wp (k a) (fun _ => sooner x') (fun _ _ => False) x') ->
  wp (m ≫= k) (fun _ => sooner x) (fun _ _ => False) x.
Proof using.
  intros Hm Hk. apply wp_bind. eapply wp_ret_mono; [exact Hm|]. intros a x1 H1.
  eapply wp_ret_mono; [apply Hk|]. intros b x2. by apply sooner_trans.
Qed.

Lemma past_deadline_sooner x : wp past_deadline (fun _ => sooner x) (fun _ _ => False) x.
Proof using All.
  unfold past_deadline. apply wp_sooner; [apply fine_sooner; fine_tac|intros d x1].
  apply wp_sooner; [apply fine_sooner; fine_tac|intros console [w1 s1]].
  apply wp_sooner; [|intros _ x2; apply fine_sooner; fine_tac].
  destruct (_ && _)%bool; cbn [when]; [apply wp_change|apply wp_ret]; by split.
Qed.

Lemma iteration_sooner x :
  wp (iteration tbl ctl index resume_rip ist_top) (fun _ => sooner x) (fun _ _ => False) x.
Proof using All.
  unfold iteration. apply wp_sooner; [apply fine_sooner; fine_tac|intros abort x1].
  destruct abort; [apply fine_sooner; fine_tac|].
  apply wp_sooner; [apply fine_sooner; unfold over_budget; fine_tac|intros spent x2].
  destruct spent; [apply fine_sooner; fine_tac|]. cbv zeta.
  do 6 (apply wp_sooner; [apply fine_sooner; fine_tac|intros ? ?]).
  apply wp_sooner; [apply past_deadline_sooner|intros late x3].
  destruct late; [apply fine_sooner; fine_tac|].
  apply fine_sooner. apply fine_bind; [apply cross_fine|intros survived]. fine_tac.
Qed.

Lemma turns_end k x :
  headless -> deadline x.2 <> 0 -> Z.max 0 (deadline x.2 * per - cycles x.1) < Z.of_nat k ->
  wp (turns tbl ctl index resume_rip ist_top k) (fun b _ => b = true) (fun _ _ => False) x.
Proof using All.
  intros Hh. revert x. induction k as [|k IH]; intros x Hd Hk; [lia|]. cbn [turns].
  apply wp_bind. eapply wp_ret_mono; [by apply iteration_spends|].
  intros [|] x' Hr; [|by apply wp_ret]. destruct (Hr eq_refl) as (Ht & Hd' & Hlt).
  apply IH; [congruence|]. rewrite Hd'. lia.
Qed.

(** C16: a run without a console gives its thread back. When the run has a time
    limit and nobody attaches a console, the loop is left after finitely many
    turns and the call returns, whatever the guest does: it may go on crossing,
    stay idle, fault or never name an event that comes. *)
Theorem run_ends_by_deadline w s :
  headless -> 0 < deadline_secs ctl < 2 ^ 32 ->
  (forall w', cycles w <= cycles w' -> (ch_preempt_start index CO_GUEST_PREEMPT_MS w).2 = w' ->
     cycles w' / per + deadline_secs ctl * 10000000 < 2 ^ 64) ->
  exists n, forall k, (n <= k)%nat ->
    exists w' s', co_arch_vcpu_run tbl ctl index resume_rip ist_top k (w, s) = (Ret true, (w', s')).
Proof using All.
  intros Hh Hs Hnowrap. pose proof per_range as Hp.
  destruct (cc_preempt_start index CO_GUEST_PREEMPT_MS w) as (u & w1 & Hpre & Ht1).
  specialize (Hnowrap w1 Ht1 ltac:(by rewrite Hpre)).
  destruct (cc_now w1) as (w2 & Hnow & Ht2).
  set (d := cycles w1 / per + deadline_secs ctl * 10000000) in *.
  assert (0 <= cycles w1 / per) by (apply Z.div_pos; [apply cycles_pos|lia]).
  assert (0 < d) as Hd0 by lia.
  exists (Z.to_nat (d * per + 1)). intros k Hk.
  enough (wp (co_arch_vcpu_run tbl ctl index resume_rip ist_top k) (fun b _ => b = true)
            (fun _ _ => False) (w, s)) as Hwp.
  { unfold wp in Hwp. destruct (co_arch_vcpu_run _ _ _ _ _ _ (w, s)) as [[b|rc|] [w' s']]; [|done..].
    subst. by exists w', s'. }
  unfold co_arch_vcpu_run. apply wp_bind. eapply wp_ask; [exact Hpre|].
  rewrite (proj2 (Z.eqb_neq _ 0)) by lia.
  apply wp_bind. eapply wp_ask; [exact Hnow|]. apply wp_bind, wp_change.
  rewrite (u64_small (deadline_secs ctl * 10000000)) by lia.
  assert (u64 (cycles w1 / per + deadline_secs ctl * 10000000) = d) as -> by (apply u64_small; unfold d in *; lia).
  apply wp_bind. eapply wp_ret_mono.
  { apply turns_end; [done|cbn; lia|]. cbn [fst snd deadline set_deadline].
    pose proof (cycles_pos w2). assert (0 < d * per) by (apply Z.mul_pos_pos; lia). lia. }
  intros b [w3 s3] ->. cbn [negb]. apply wp_bind, wp_change.
  destruct (cc_preempt_stop index w3) as (u' & w4 & Hst & _).
  apply wp_bind. eapply wp_ask; [exact Hst|]. by apply wp_ret.
Qed.
End ends.

(** ** The waits

    What a processor waited for, in order: its index and the wait. The two
    doorbell calls are the waits; the clock, the guest's memory, the flag and the
    console are none. *)
Class WaitLog (W : Type) `{CrossHost W} := {
  waited : W -> list (Z * wait);
  wl_wait v ms w : waited (ch_idle_wait v ms w).2 = waited w ++ [(v, Millis ms)];
  wl_until v t w : waited (ch_idle_wait_until v t w).2 = waited w ++ [(v, Until t)];
  wl_now w : waited (ch_now w).2 = waited w;
  wl_read cr3 va n w : waited (cr3_read cr3 va n w).2 = waited w;
  wl_abort w : waited (ch_abort w).2 = waited w;
  wl_console w : waited (ch_console w).2 = waited w;
}.

Section waits.
Context {W : Type} `{CrossHost W} `{!GuestView W} `{!CrossClock W} `{!WaitLog W}.
Context (tbl : extable) (ctl : co_vcpu_ctl_t) (index resume_rip ist_top : Z).
Implicit Types (w : W) (s : lstate) (x : W * lstate).

(** The log, and when the next tick is due. *)
Definition logged x : list (Z * wait) * Z := (waited x.1, tick_due x.2).

Lemma keeps_ask_log {A} (m : M W A) : (forall w, waited (m w).2 = waited w) -> keeps logged (ask m).
Proof using.
  intros Hm [w s]. specialize (Hm w). unfold wlp, ask, logged. destruct (m w) as [[a|rc|] w']; cbn in *; by rewrite ?Hm.
Qed.
Lemma keeps_look_log {A} (g : lstate -> A) : keeps logged (look g).
Proof using. done. Qed.
Lemma keeps_change_log g : (forall s, tick_due (g s) = tick_due s) -> keeps logged (change g).
Proof using. intros Hg [w s]. unfold wlp, change, modify, logged. cbn. by rewrite Hg. Qed.
End waits.

Create HintDb log.
#[export] Hint Resolve wl_now wl_read wl_abort wl_console : log.

Ltac log_step :=
  lazymatch goal with
  | |- keeps _ (mret _) => apply keeps_ret
  | |- keeps _ (ask _) => apply keeps_ask_log; solve [auto with log]
  | |- keeps _ (look _) => apply keeps_look_log
  | |- keeps _ (change _) => apply keeps_change_log; intros; reflexivity
  | |- keeps _ (put _ _) => apply keeps_change_log; intros; reflexivity
  | |- keeps _ (bump _) => apply keeps_change_log; intros; reflexivity
  | |- keeps _ (bump64 _) => apply keeps_change_log; intros; reflexivity
  | |- keeps _ (when _ _) => apply keeps_when
  | |- keeps _ (attempt _) => apply keeps_attempt
  | |- keeps _ (mloop _ _) => apply keeps_mloop; intros
  | |- keeps _ (_ ≫= _) => apply keeps_bind; [|intros]
  | |- keeps _ (match _ with _ => _ end) => case_match
  | |- _ => solve [auto with keeps]
  end.
Ltac log_tac := repeat log_step.

Section idle_waits.
Context {W : Type} `{CrossHost W} `{!GuestView W} `{!CrossClock W} `{!WaitLog W}.
Context (tbl : extable) (ctl : co_vcpu_ctl_t) (index resume_rip ist_top : Z).
Implicit Types (w : W) (s : lstate) (x : W * lstate).

(** The event the guest names: the word of the processor in its table of
    deadlines, read through the page tables in force; zero, none, without a
    table or when it cannot be read. *)
Definition event_slot : Z := u64 (timer_deadline_va ctl + index * 8).
Inductive names w (cr3 : Z) : Z -> Prop :=
  | names_none : timer_deadline_va ctl = 0 \/ cr3 = 0 -> names w cr3 0
  | names_unreadable rc w' : cr3_read cr3 event_slot 8 w = (Fail rc, w') -> names w cr3 0
  | names_word m P :
      timer_deadline_va ctl <> 0 -> cr3 <> 0 -> gv_view w cr3 P m -> covers P event_slot 8 ->
      names w cr3 (load_u64 m event_slot).

(** What the processor should wait for at [now] when the guest names [gd]. *)
Definition waits_for (now gd : Z) (l : list (Z * wait)) : Prop :=
  (gd = 0 -> l = [(index, Millis 1)]) /\
  (0 < gd <= now -> l = []) /\
  (now < gd < now + 9000 -> l = [(index, Until gd)]) /\
  (now + 9000 <= gd <= now + 10000 * (2 ^ 32 - 1) ->
   exists ms, l = [(index, Millis ms)] /\ gd <= now + ms * 10000 < gd + 10000).

Definition bound_of (now due gd : Z) : Z := if gd =? 0 then due else if now <? gd then gd else 0.
Definition plan_log (plan : wait) : list (Z * wait) := match plan with NoWait => [] | _ => [(index, plan)] end.

Lemma names_range w cr3 gd : names w cr3 gd -> 0 <= gd < 2 ^ 64.
Proof using. intros [|rc w' _|m P _ _ _ _]; [done..|apply load_u64_range]. Qed.

Lemma plan_right now due gd :
  0 <= now -> now < due <= now + CO_GUEST_TICK_100NS -> due < 2 ^ 64 -> 0 <= gd < 2 ^ 64 ->
  waits_for now gd (plan_log (wait_plan now gd (bound_of now due gd))).
Proof using.
  intros Hn Hd Hw Hg. change CO_GUEST_TICK_100NS with 10000 in *. unfold bound_of, waits_for. split_and!.
  - intros ->. cbn [Z.eqb]. unfold wait_plan. rewrite !(proj2 (Z.eqb_neq due 0)) by lia. cbn [andb].
    destruct (wait_ms_exact due now) as (ms & -> & Hms & Hb); [lia..|]. cbn [plan_log]. do 3 f_equal. lia.
  - intros Hle. rewrite (proj2 (Z.eqb_neq gd 0)), (proj2 (Z.ltb_ge now gd)) by lia. done.
  - intros Hin. rewrite (proj2 (Z.eqb_neq gd 0)), (proj2 (Z.ltb_lt now gd)) by lia. unfold wait_plan.
    rewrite (proj2 (Z.eqb_neq gd 0)), Z.eqb_refl by lia. rewrite u64_small by lia. cbn [andb].
    by rewrite (proj2 (Z.leb_gt _ _)) by lia.
  - intros Hin. rewrite (proj2 (Z.eqb_neq gd 0)), (proj2 (Z.ltb_lt now gd)) by lia. unfold wait_plan.
    rewrite (proj2 (Z.eqb_neq gd 0)), Z.eqb_refl by lia. rewrite u64_small by lia. cbn [andb].
    rewrite (proj2 (Z.leb_le _ _)) by lia.
    destruct (wait_ms_exact gd now) as (ms & -> & Hms & Hb); [lia..|]. by exists ms.
Qed.


Lemma idle_bound_names now due w s gd :
  names w (lx_cr3 (linuxvm (pp s))) gd ->
  exists x', idle_bound ctl index now due (w, s) = (Ret (gd, bound_of now due gd), x') /\
    logged x' = logged (w, s).
Proof using All.
  intros Hn. assert (keeps logged (idle_bound ctl index now due)) as Hk by (unfold idle_bound; log_tac).
  specialize (Hk (w, s)). unfold wlp in Hk.
  enough ((idle_bound ctl index now due (w, s)).1 = Ret (gd, bound_of now due gd)) as Hr.
  { rewrite (run_ret _ _ _ Hr) in Hk |- *. by eexists. }
  clear Hk. unfold idle_bound, look, gets, mbind, M_bind. cbn [snd].
  set (cr3 := lx_cr3 (linuxvm (pp s))) in *. destruct Hn as [Hz|rc w' Hrd|m P Hva Hcr3 Hv Hc].
  - assert (((timer_deadline_va ctl =? 0) || (cr3 =? 0))%bool = true) as ->
      by (apply orb_true_iff; rewrite !Z.eqb_eq; tauto). done.
  - destruct (_ || _)%bool; [done|]. unfold attempt, ask. fold event_slot. by rewrite Hrd.
  - rewrite (proj2 (Z.eqb_neq _ _) Hva), (proj2 (Z.eqb_neq _ _) Hcr3). cbn [orb].
    destruct (gv_read_law _ _ _ _ _ _ Hv Hc) as (w' & Hrd & _). unfold attempt, ask. fold event_slot. rewrite Hrd.
    fold (load_u64 m event_slot). unfold bound_of, put, bump64, change, modify.
    destruct (Z.eqb_spec (load_u64 m event_slot) 0) as [Ez|]; [cbn; by rewrite Ez|]. by destruct (now <? _).
Qed.

Lemma idle_wait_logged plan x :
  wlp (idle_wait index plan) (fun _ x' => logged x' = (waited x.1 ++ plan_log plan, tick_due x.2)) (fun _ _ => True) x.
Proof using All.
  destruct x as [w s]. destruct plan as [|ms|t]; cbn [idle_wait plan_log].
  - apply wlp_ret. by rewrite app_nil_r.
  - apply wlp_bind, wlp_change, wlp_bind. cbn [fst snd]. unfold wlp at 1, ask.
    pose proof (wl_wait index ms w) as Hl. destruct (ch_idle_wait index ms w) as [[b|rc|] w']; [|done..].
    destruct b; cbn [negb when]; [apply wlp_ret|apply wlp_change]; unfold logged; cbn in *; by rewrite Hl.
  - do 3 apply wlp_bind, wlp_change. apply wlp_bind. cbn [fst snd]. unfold wlp at 1, ask.
    pose proof (wl_until index t w) as Hl. destruct (ch_idle_wait_until index t w) as [[b|rc|] w']; [|done..].
    destruct b; cbn [negb when]; [apply wlp_ret|apply wlp_change]; unfold logged; cbn in *; by rewrite Hl.
Qed.

(** When the next tick is due once the idle crossing has looked at the clock. *)
Definition due_at (now due : Z) : Z := if due <=? now then u64 (now + CO_GUEST_TICK_100NS) else due.

Lemma wlp_asked {A} (c : M W A) (Q : A -> W * lstate -> Prop) E w s a w' :
  c w = (Ret a, w') -> Q a (w', s) -> wlp (ask c) Q E (w, s).
Proof using. intros Hc HQ. unfold wlp, ask. by rewrite Hc. Qed.

(** A note in the report. *)
Lemma wlp_note b f v (Q : unit -> W * lstate -> Prop) E w s :
  (forall s', pp s' = pp s -> tick_due s' = tick_due s -> Q tt (w, s')) -> wlp (when b (put f v)) Q E (w, s).
Proof using. intros HQ. destruct b; [apply wlp_change|apply wlp_ret]; by apply HQ. Qed.

(** What [m] leaves of the log is what [Q] asks for. *)
Lemma wlp_logged {A} (m : M (W * lstate) A) (Q : A -> W * lstate -> Prop) x :
  keeps logged m -> (forall a x', logged x' = logged x -> Q a x') -> wlp m Q (fun _ _ => True) x.
Proof using. intros Hm HQ. eapply wlp_mono; [apply Hm| |done]. intros a x'. apply HQ. Qed.

Lemma idle_logged w s gd :
  let now := cycles w / per in
  names (ch_now w).2 (lx_cr3 (linuxvm (pp s))) gd ->
  wlp (idle ctl index)
    (fun _ x' => logged x' = (waited w ++ plan_log (wait_plan now gd (bound_of now (due_at now (tick_due s)) gd)),
                              due_at now (tick_due s))) (fun _ _ => True) (w, s).
Proof using All.
  intros now Hn. unfold idle. apply wlp_bind, wlp_change, wlp_bind, wlp_look, wlp_bind. cbn [fst snd].
  apply wlp_note. intros s1 Hp1 Hd1. cbn in Hp1, Hd1. apply wlp_bind.
  destruct (cc_now w) as (w1 & Hnow & _). pose proof (wl_now w) as Hl. rewrite Hnow in Hn, Hl. cbn [fst snd] in *.
  eapply wlp_asked; [exact Hnow|]. fold now.
  apply wlp_bind, wlp_look, wlp_bind. cbn [fst snd]. rewrite Hd1.
  assert (forall (Q : unit -> W * lstate -> Prop) E, (forall s2, pp s2 = pp s -> tick_due s2 = due_at now (tick_due s) -> Q tt (w1, s2)) ->
    wlp (when (tick_due s <=? now) (change (set_tick_due (u64 (now + CO_GUEST_TICK_100NS))))) Q E (w1, s1)) as Hset.
  { intros Q E HQ. unfold due_at in HQ. destruct (_ <=? now); [apply wlp_change|apply wlp_ret]; apply HQ; (done || congruence). }
  apply Hset. intros s2 Hp2 Hd2. apply wlp_bind, wlp_look, wlp_bind. cbn [snd]. rewrite Hd2. clear Hset.
  rewrite <- Hp2 in Hn. destruct (idle_bound_names now (due_at now (tick_due s)) w1 s2 gd Hn) as (x3 & Hb & Hx3).
  unfold wlp at 1. rewrite Hb. cbv beta iota zeta. set (plan := wait_plan _ _ _).
  apply wlp_bind, wlp_logged; [log_tac|]. intros _ x4 Hx4. apply wlp_bind.
  eapply wlp_mono; [apply idle_wait_logged| |done]. intros [] x5 Hx5.
  apply wlp_bind, wlp_logged; [unfold spin, spin_step; log_tac|]. intros _ x6 Hx6.
  assert (logged x6 = (waited w ++ plan_log plan, due_at now (tick_due s))) as Hx.
  { rewrite Hx6, Hx5. rewrite Hx3 in Hx4. unfold logged in Hx4. cbn [fst snd] in Hx4. injection Hx4 as -> ->. by rewrite Hl, Hd2. }
  apply wlp_logged; [log_tac|]. intros r x7 E7. by rewrite E7.
Qed.

End idle_waits.
