(* ===== verification/Handles.v ===== *)
(** Open handles and what they hold ([kernel/manager.c]).

    A process that opens the driver gets a descriptor. Through it the process
    maps slices of guest RAM into itself ([KMAP], [KMAP_RANGE]) and publishes
    its own memory to the guest ([KWINDOW]); both are recorded in the descriptor
    and undone when the handle is let go. A descriptor with a reservation pins
    guest RAM in the loader. Each function is a thread of sections, those under
    [opened->lock] as well as the calls that lock for themselves. *)
From S2P Require Import Prelude.
From S2P Require Import Rc.
From S2P Require Import Mem.
From S2P Require Import Mmu.
From S2P Require Import Space.
From S2P Require Import Host.
From S2P Require Import Frames.
From S2P Require Import FramesOk.
From S2P Require Import Kload.
From S2P Require Import Partial.

Definition CO_KMAP_SLICE_BYTES : Z := Z.shiftl 12 20.
Definition CO_KMAP_MAX_RANGES : Z := 256.
Definition CO_MANAGER_OPEN_MAGIC : Z := 0x4f50454e444f4353.

(** The host's mappings into user processes and its locks on user pages. The
    answer of [co_os_userspace_map] is the address and the handle, that of
    [co_os_user_lock_pages] the handle and the frames. *)
Class UserMem (UM : Type) := {
  co_os_userspace_map : Z -> Z -> UM -> option (Z * Z) * UM;
  co_os_userspace_unmap : Z -> Z -> Z -> UM -> UM;
  co_os_user_lock_pages : Z -> Z -> UM -> (Z * list Z + co_rc_value_t) * UM;
  co_os_user_unlock_pages : Z -> UM -> UM;
}.

Record co_manager_kmap_slice_t := Slice {
  sl_handle : Z; sl_user_va : Z; sl_pages : Z; sl_pa : Z; sl_bytes : Z;
}.
Record co_manager_window_t := Window { wn_handle : Z; wn_pages : Z; wn_pseudo_pa : Z }.

(** The lists are kept newest first, as the code links them. *)
Record co_manager_open_desc := Desc {
  magic : Z;
  desc_active : bool;
  ref_count : Z;
  kmap_slice : list co_manager_kmap_slice_t;
  kmap_slices : Z;
  kmap_reserved : bool;
  window : list co_manager_window_t;
  windows : Z;
}.

Definition with_slices l n (d : co_manager_open_desc) : co_manager_open_desc :=
  Desc (magic d) (desc_active d) (ref_count d) l n (kmap_reserved d) (window d) (windows d).
Definition with_reserved b (d : co_manager_open_desc) : co_manager_open_desc :=
  Desc (magic d) (desc_active d) (ref_count d) (kmap_slice d) (kmap_slices d) b (window d) (windows d).
Definition with_windows l n (d : co_manager_open_desc) : co_manager_open_desc :=
  Desc (magic d) (desc_active d) (ref_count d) (kmap_slice d) (kmap_slices d) (kmap_reserved d) l n.
Definition with_life m a c (d : co_manager_open_desc) : co_manager_open_desc :=
  Desc m a c (kmap_slice d) (kmap_slices d) (kmap_reserved d) (window d) (windows d).

Section handles.
Context {OS : Type} `{HostOS OS} {UM : Type} `{UserMem UM}.

(** The loader's world, the host's user mappings, the live descriptors by
    address and [manager->opens] with its count. *)
Record sys := Sys {
  s_world : world OS;
  s_um : UM;
  s_desc : gmap Z co_manager_open_desc;
  manager_opens : list Z;
  num_opens : Z;
}.

Abbreviation HM := (M sys).

Definition loader {A} (m : M (world OS) A) : HM A := fun s =>
  let '(r, w) := m (s_world s) in
  (r, Sys w (s_um s) (s_desc s) (manager_opens s) (num_opens s)).
Definition user {A} (f : UM -> A * UM) : HM A := fun s =>
  let '(a, u) := f (s_um s) in
  (Ret a, Sys (s_world s) u (s_desc s) (manager_opens s) (num_opens s)).
Definition user_do (f : UM -> UM) : HM unit := user (fun u => (tt, f u)).

(** A descriptor is a pointer; one that has been freed faults. *)
Definition the (opened : Z) : HM co_manager_open_desc := fun s =>
  match s_desc s !! opened with Some d => (Ret d, s) | None => (Fault, s) end.
Definition put_desc (opened : Z) (d : co_manager_open_desc) (s : sys) : sys :=
  Sys (s_world s) (s_um s) (<[opened := d]> (s_desc s)) (manager_opens s) (num_opens s).
Definition upd (opened : Z) (f : co_manager_open_desc -> co_manager_open_desc) : HM unit :=
  d ← the opened; modify (put_desc opened (f d)).

Definition co_os_malloc (bytes : Z) : HM bool := loader (host (host_malloc bytes)).

(** ** Slices of guest RAM *)

Fixpoint kmap_find_in (l : list co_manager_kmap_slice_t) (pa : Z) : option co_manager_kmap_slice_t :=
  match l with
  | [] => None
  | s :: l => if ((sl_pa s <=? pa) && (pa - sl_pa s <? sl_bytes s))%bool then Some s
              else kmap_find_in l pa
  end.
Definition co_manager_kmap_find (d : co_manager_open_desc) (pa : Z) : option co_manager_kmap_slice_t :=
  kmap_find_in (kmap_slice d) pa.

Definition co_manager_kmap_add_locked (opened kernel_va pa bytes : Z) : HM co_manager_kmap_slice_t :=
  let pages := ulong (Z.shiftr bytes CO_ARCH_PAGE_SHIFT) in
  fail_if ((pages =? 0) || negb (page_off bytes =? 0))%bool CO_RC_INVALID_PARAMETER ;;
  node ← co_os_malloc 48;
  fail_if (negb node) CO_RC_OUT_OF_MEMORY ;;
  r ← user (co_os_userspace_map kernel_va pages);
  match r with
  | None => throw CO_RC_ERROR
  | Some (user_va, handle) =>
      let slice := Slice handle user_va pages pa bytes in
      upd opened (fun d => with_slices (slice :: kmap_slice d) (kmap_slices d + 1) d) ;;
      mret slice
  end.

(** [co_manager_kmap_unmap_list]: outside the lock, a mapping at a time. *)
Fixpoint co_manager_kmap_unmap_list (l : list co_manager_kmap_slice_t) (k : thread sys) : thread sys :=
  match l with
  | [] => k
  | s :: l =>
      Sect (if negb (sl_handle s =? 0)
            then user_do (co_os_userspace_unmap (sl_user_va s) (sl_handle s) (sl_pages s))
            else mret tt)
        (fun _ => co_manager_kmap_unmap_list l k)
  end.

Definition put_reservation (put : bool) (k : thread sys) : thread sys :=
  if put then Sect (loader co_kload_user_map_put) (fun _ => k) else k.

(** *** Everything at once *)

Definition kmap_slice_bytes (max_slice : Z) : Z :=
  let b := if max_slice =? 0 then CO_KMAP_SLICE_BYTES else max_slice in
  let b := if ((b <? CO_ARCH_PAGE_SIZE) || (CO_KMAP_SLICE_BYTES <? b))%bool
           then CO_KMAP_SLICE_BYTES else b in
  Z.land b CO_ARCH_PAGE_MASK.

(** [for (off = 0; off < bytes; off += slice_bytes)], [got] the ranges so far. *)
Definition kmap_off_step (opened slice_bytes va pa bytes : Z)
    (st : Z * list co_manager_kmap_slice_t) :
    HM ((Z * list co_manager_kmap_slice_t) + list co_manager_kmap_slice_t) :=
  let '(off, got) := st in
  if negb (off <? bytes) then mret (inr got) else
  let this := bytes - off in
  let this := if slice_bytes <? this then slice_bytes else this in
  fail_if (CO_KMAP_MAX_RANGES <=? Z.of_nat (length got)) CO_RC_ERROR ;;
  s ← co_manager_kmap_add_locked opened (va + off) (pa + off) this;
  mret (inl (off + slice_bytes, got ++ [s])).

Definition kmap_block_step (opened slice_bytes blocks : Z)
    (st : Z * list co_manager_kmap_slice_t) :
    HM ((Z * list co_manager_kmap_slice_t) + list co_manager_kmap_slice_t) :=
  let '(i, got) := st in
  if negb (i <? blocks) then mret (inr got) else
  b ← attempt (loader (co_kload_block i));
  match b with
  | inr _ => mret (inl (i + 1, got))
  | inl (va, pa, bytes) =>
      got ← mloop (kmap_off_step opened slice_bytes va pa bytes) (0, got);
      mret (inl (i + 1, got))
  end.

Definition kmap_fill (opened slice_bytes : Z) : HM (list co_manager_kmap_slice_t) :=
  ok ← loader co_kload_user_map_try_get;
  fail_if (negb ok) CO_RC_ERROR ;;
  upd opened (with_reserved true) ;;
  blocks ← loader co_kload_block_count;
  got ← mloop (kmap_block_step opened slice_bytes blocks) (0, []);
  fail_if (Z.of_nat (length got) =? 0) CO_RC_ERROR ;;
  mret got.

(** The locked section: refused, filled, or failed with what is to be undone. *)
Inductive kmap_outcome :=
  | KmapRefused
  | KmapFilled (got : list co_manager_kmap_slice_t)
  | KmapFailed (failed : list co_manager_kmap_slice_t) (put : bool).

Definition kmap_locked (opened slice_bytes : Z) : HM kmap_outcome :=
  d ← the opened;
  if (kmap_reserved d || negb (kmap_slices d =? 0))%bool then mret KmapRefused else
  r ← attempt (kmap_fill opened slice_bytes);
  match r with
  | inl got => mret (KmapFilled got)
  | inr _ =>
      d ← the opened;
      upd opened (fun d => with_reserved false (with_slices [] 0 d)) ;;
      mret (KmapFailed (kmap_slice d) (kmap_reserved d))
  end.

(** The answer is the code and the ranges; what [max_slice] carries back about
    the last mapping is left out. *)
Definition co_manager_kmap (opened max_slice : Z)
    (k : co_rc_value_t * list co_manager_kmap_slice_t -> thread sys) : thread sys :=
  if opened =? 0 then k (CO_RC_INVALID_PARAMETER, []) else
  Sect (loader co_kload_user_backed) (fun backed =>
  if backed : bool then k (CO_RC_ERROR, []) else
  Sect (kmap_locked opened (kmap_slice_bytes max_slice)) (fun r =>
  match r with
  | KmapRefused => k (CO_RC_ERROR, [])
  | KmapFilled got => k (CO_RC_OK, got)
  | KmapFailed failed put =>
      co_manager_kmap_unmap_list failed (put_reservation put (k (CO_RC_ERROR, [])))
  end)).

(** *** One slice *)

(** [rc], the slice, [reused]. *)
Record range_answer := RangeAnswer {
  range_rc : co_rc_value_t; range_slice : option co_manager_kmap_slice_t; range_reused : bool;
}.

Definition kmap_range_fill (opened pa : Z) : HM co_manager_kmap_slice_t :=
  b ← loader (co_kload_block_for_pa pa);
  let '(block_va, block_pa, block_bytes) := b in
  let block_off := pa - block_pa in
  let slice_off := block_off / CO_KMAP_SLICE_BYTES * CO_KMAP_SLICE_BYTES in
  let bytes := block_bytes - slice_off in
  let bytes := if CO_KMAP_SLICE_BYTES <? bytes then CO_KMAP_SLICE_BYTES else bytes in
  co_manager_kmap_add_locked opened (block_va + slice_off) (block_pa + slice_off) bytes.

(** The locked section; the flag is whether the reservation is to be dropped. *)
Definition kmap_range_locked (opened pa : Z) : HM (bool * range_answer) :=
  d ← the opened;
  took ← (if kmap_reserved d then mret (Some false) else
          ok ← loader co_kload_user_map_try_get;
          if ok : bool then upd opened (with_reserved true) ;; mret (Some true) else mret None);
  match took with
  | None => mret (false, RangeAnswer CO_RC_ERROR None false)
  | Some took =>
      match co_manager_kmap_find d pa with
      | Some s => mret (false, RangeAnswer CO_RC_OK (Some s) true)
      | None =>
          r ← attempt (kmap_range_fill opened pa);
          match r with
          | inl s => mret (false, RangeAnswer CO_RC_OK (Some s) false)
          | inr rc =>
              d ← the opened;
              if (took && (kmap_slices d =? 0))%bool
              then upd opened (with_reserved false) ;; mret (true, RangeAnswer rc None false)
              else mret (false, RangeAnswer rc None false)
          end
      end
  end.

Definition co_manager_kmap_range (opened pa : Z) (k : range_answer -> thread sys) : thread sys :=
  if opened =? 0 then k (RangeAnswer CO_RC_INVALID_PARAMETER None false) else
  Sect (loader co_kload_user_backed) (fun backed =>
  if backed : bool then k (RangeAnswer CO_RC_ERROR None false) else
  Sect (kmap_range_locked opened pa) (fun r => put_reservation r.1 (k r.2))).

(** The loop over [link] that takes the first node passing [test] out of a
    list: the node, and the list without it. *)
Fixpoint unlink {A} (test : A -> bool) (l : list A) : option (A * list A) :=
  match l with
  | [] => None
  | x :: l =>
      if test x then Some (x, l)
      else match unlink test l with Some (y, l') => Some (y, x :: l') | None => None end
  end.

Definition unmap_range_locked (opened pa : Z) : HM (option co_manager_kmap_slice_t) :=
  d ← the opened;
  match unlink (fun s => sl_pa s =? pa) (kmap_slice d) with
  | None => mret None
  | Some (s, l) =>
      upd opened (with_slices l (kmap_slices d - 1)) ;; mret (Some s)
  end.

Definition co_manager_kmap_unmap_range (opened pa : Z) (k : co_rc_value_t * Z -> thread sys) : thread sys :=
  if opened =? 0 then k (CO_RC_INVALID_PARAMETER, 0) else
  Sect (unmap_range_locked opened pa) (fun r =>
  match r with
  | None => k (CO_RC_NOT_FOUND, 0)
  | Some s => co_manager_kmap_unmap_list [s] (k (CO_RC_OK, sl_bytes s))
  end).

(** ** Host memory shown to the guest *)

(** [co_kload_window_unmap] and the unlock that must come after it. *)
Definition undo_window (w : co_manager_window_t) (k : thread sys) : thread sys :=
  Sect (loader (co_kload_window_unmap (wn_pseudo_pa w) (wn_pages w))) (fun _ =>
  Sect (user_do (co_os_user_unlock_pages (wn_handle w))) (fun _ => k)).

Definition co_manager_window_track (opened : Z) (w : co_manager_window_t) (k : thread sys) : thread sys :=
  if opened =? 0 then k else
  Sect (co_os_malloc 32) (fun node =>
  if negb node then undo_window w k else
  Sect (upd opened (fun d => with_windows (w :: window d) (windows d + 1) d)) (fun _ => k)).

Definition window_unlink (opened pseudo_pa pages : Z) : HM (option co_manager_window_t) :=
  d ← the opened;
  match unlink (fun w => (wn_pseudo_pa w =? pseudo_pa) && (wn_pages w =? pages))%bool (window d) with
  | None => mret None
  | Some (w, l) => upd opened (with_windows l (windows d - 1)) ;; mret (Some w)
  end.

Definition co_manager_window_release (opened pseudo_pa pages : Z) (k : co_rc_value_t -> thread sys) : thread sys :=
  if opened =? 0 then k CO_RC_INVALID_PARAMETER else
  Sect (window_unlink opened pseudo_pa pages) (fun r =>
  match r with
  | None => k CO_RC_NOT_FOUND
  | Some w => undo_window w (k CO_RC_OK)
  end).

Fixpoint undo_windows (l : list co_manager_window_t) (k : thread sys) : thread sys :=
  match l with
  | [] => k
  | w :: l => undo_window w (undo_windows l k)
  end.

Definition take_windows (opened : Z) : HM (list co_manager_window_t) :=
  d ← the opened; upd opened (with_windows [] 0) ;; mret (window d).

Definition co_manager_window_release_all (opened : Z) (k : thread sys) : thread sys :=
  if opened =? 0 then k else
  Sect (take_windows opened) (fun l => undo_windows l k).

Definition take_slices (opened : Z) : HM (list co_manager_kmap_slice_t * bool) :=
  d ← the opened;
  upd opened (fun d => with_reserved false (with_slices [] 0 d)) ;;
  mret (kmap_slice d, kmap_reserved d).

Definition co_manager_kmap_release (opened : Z) (k : thread sys) : thread sys :=
  if opened =? 0 then k else
  co_manager_window_release_all opened (
  Sect (take_slices opened) (fun r =>
  co_manager_kmap_unmap_list r.1 (put_reservation r.2 k))).

(** [KWINDOW] and [KWINDOW_AT]: lock, publish, record. [place] is the call into
    the loader; the answer is [params->rc] and [params->pseudo_pa]. *)
Definition kwindow (opened va bytes : Z) (place : list Z -> Z -> M (world OS) Z)
    (k : co_rc_value_t * Z -> thread sys) : thread sys :=
  Sect (user (co_os_user_lock_pages va bytes)) (fun r =>
  match r with
  | inr rc => k (rc, 0)
  | inl (handle, pfns) =>
      let count := Z.of_nat (length pfns) in
      Sect (attempt (loader (place pfns count))) (fun r =>
      match r with
      | inr rc => Sect (user_do (co_os_user_unlock_pages handle)) (fun _ => k (rc, 0))
      | inl pseudo => co_manager_window_track opened (Window handle count pseudo) (k (CO_RC_OK, pseudo))
      end)
  end).

Definition ioctl_kwindow (opened va bytes : Z) : (co_rc_value_t * Z -> thread sys) -> thread sys :=
  kwindow opened va (ulong bytes) (fun pfns count => co_kload_window_map (Some pfns) count).
Definition ioctl_kwindow_at (opened va bytes pseudo_pa : Z) : (co_rc_value_t * Z -> thread sys) -> thread sys :=
  kwindow opened va (ulong bytes) (fun pfns count =>
    co_kload_window_map_at (Some pfns) count pseudo_pa ;; mret pseudo_pa).
Definition ioctl_kunwindow (opened pseudo_pa bytes : Z) (k : co_rc_value_t -> thread sys) : thread sys :=
  co_manager_window_release opened pseudo_pa (ulong (Z.shiftr bytes CO_ARCH_PAGE_SHIFT)) k.
(** [released] is read before the lock is taken. *)
Definition ioctl_kunmap (opened : Z) (k : Z -> thread sys) : thread sys :=
  if opened =? 0 then k 0 else
  Sect (the opened) (fun d => co_manager_kmap_release opened (k (kmap_slices d))).

(** ** Descriptors *)

(** [rc] and the descriptor. [fresh] is the address the allocator gives, [lock]
    and [os] whether the mutex and the system's half come up. *)
Definition co_manager_open (fresh : Z) (lock os : bool) : HM Z :=
  node ← co_os_malloc 256;
  fail_if (negb node) CO_RC_OUT_OF_MEMORY ;;
  s ← gets s_desc;
  in_bounds (bool_decide (s !! fresh = None /\ fresh <> 0)) ;;
  fail_if (negb lock) CO_RC_OUT_OF_MEMORY ;;
  fail_if (negb os) CO_RC_ERROR ;;
  modify (fun s => Sys (s_world s) (s_um s)
    (<[fresh := Desc CO_MANAGER_OPEN_MAGIC true 1 [] 0 false [] 0]> (s_desc s))
    (fresh :: manager_opens s) (num_opens s + 1)) ;;
  mret fresh.

Definition co_manager_open_alive (opened : Z) : HM bool :=
  if opened =? 0 then mret false else
  d ← the opened; mret (magic d =? CO_MANAGER_OPEN_MAGIC).

(** The monitor and debug sections of the 2.6 guest are left out. *)
Definition co_manager_close_ (opened : Z) : HM unit :=
  alive ← co_manager_open_alive opened;
  fail_if (negb alive) CO_RC_ERROR ;;
  upd opened (fun d => with_life 0 (desc_active d) (ref_count d) d) ;;
  modify (fun s => Sys (s_world s) (s_um s) (delete opened (s_desc s))
    (filter (fun o => o <> opened) (manager_opens s)) (num_opens s - 1)).

Definition co_manager_open_ref (opened : Z) : HM unit :=
  d ← the opened;
  fail_if (ref_count d =? 0) CO_RC_ERROR ;;
  upd opened (fun d => with_life (magic d) (desc_active d) (ref_count d + 1) d).

Definition co_manager_close (opened : Z) : HM unit :=
  alive ← co_manager_open_alive opened;
  fail_if (negb alive) CO_RC_ERROR ;;
  upd opened (fun d => with_life (magic d) (desc_active d) (ref_count d - 1) d) ;;
  d ← the opened;
  if ref_count d =? 0 then co_manager_close_ opened else mret tt.

Definition co_manager_open_desc_deactive_and_close (opened : Z) (k : thread sys) : thread sys :=
  Sect (co_manager_open_alive opened) (fun alive =>
  if negb alive then k else
  co_manager_kmap_release opened (
  Sect (upd opened (fun d => with_life (magic d) false (ref_count d) d)) (fun _ =>
  Sect (attempt (co_manager_close opened)) (fun _ => k)))).

(** ** Everybody *)

(** What a process may ask the driver to do through the handle [o]. A window is
    always made through a descriptor. *)
Inductive handle_request (o : Z) : thread sys -> Prop :=
  | req_kmap max : handle_request o (co_manager_kmap o max (fun _ => Back))
  | req_kmap_range pa : handle_request o (co_manager_kmap_range o pa (fun _ => Back))
  | req_unmap_range pa : handle_request o (co_manager_kmap_unmap_range o pa (fun _ => Back))
  | req_kunmap : handle_request o (ioctl_kunmap o (fun _ => Back))
  | req_kwindow va bytes : o <> 0 -> handle_request o (ioctl_kwindow o va bytes (fun _ => Back))
  | req_kwindow_at va bytes pa :
      o <> 0 -> handle_request o (ioctl_kwindow_at o va bytes pa (fun _ => Back))
  | req_kunwindow pa bytes : handle_request o (ioctl_kunwindow o pa bytes (fun _ => Back)).

(** And what else comes from outside: opening, the cleanup of a handle that is
    let go of ([IRP_MJ_CLEANUP]), and a reference another module takes. *)
Inductive request : thread sys -> Prop :=
  | req_handle o p : handle_request o p -> request p
  | req_open fresh lock os : request (Sect (attempt (co_manager_open fresh lock os)) (fun _ => Back))
  | req_cleanup o : request (co_manager_open_desc_deactive_and_close o Back)
  | req_ref o : request (Sect (attempt (co_manager_open_ref o)) (fun _ => Back)).

Definition let_go (d : co_manager_open_desc) : Prop :=
  kmap_slice d = [] /\ kmap_reserved d = false /\ window d = [].

(** The fields of a block are unsigned. *)
Definition blocks_unsigned (k : kload_statics) : Prop := forall i, 0 <= i < kload_block_count k ->
  0 <= pseudo_base (block_at k i) /\ 0 <= block_bytes (block_at k i).

(** What else may happen to the loader: anything that leaves the number of
    reservations, and while there are some the blocks of guest RAM. *)
Definition loader_step (w w' : world OS) : Prop :=
  kload_user_maps (w_kl w') = kload_user_maps (w_kl w) /\ blocks_unsigned (w_kl w') /\
  (0 < kload_user_maps (w_kl w) ->
   kload_block (w_kl w') = kload_block (w_kl w) /\
   kload_block_count (w_kl w') = kload_block_count (w_kl w)).

(** Everything that can happen, in any order: a section of a thread, a new
    request, a reference dropped by another module, the loader's work. *)
Record driver := Driver { dr_sys : sys; dr_threads : list (thread sys) }.

Inductive dstep : driver -> driver -> Prop :=
  | step_sect s s' ts t A (m : M sys A) k a :
      ts !! t = Some (Sect m k) -> m s = (Ret a, s') ->
      dstep (Driver s ts) (Driver s' (<[t := k a]> ts))
  | step_request s ts t p :
      ts !! t = Some Back -> request p -> dstep (Driver s ts) (Driver s (<[t := p]> ts))
  | step_close s s' ts o r :
      co_manager_close o s = (r, s') -> r <> Fault -> dstep (Driver s ts) (Driver s' ts)
  | step_loader s w' ts :
      loader_step (s_world s) w' ->
      dstep (Driver s ts)
        (Driver (Sys w' (s_um s) (s_desc s) (manager_opens s) (num_opens s)) ts).

(** *** In good order

    The same, where a handle is cleaned up as a process that has finished with
    it does: its cleanup begins when no request on it is under way, nothing is
    asked of it afterwards, and modules drop only references they took. Beside the
    driver there is what each thread works on, the handles whose cleanup has
    begun, and the references taken on each. *)
Inductive work := Idle | Busy (o : Z) | Cleaning (o : Z).
#[global] Instance work_eq_dec : EqDecision work.
Proof using. solve_decision. Defined.

Definition settle (p : thread sys) (w : work) : work := match p with Back => Idle | Sect _ _ => w end.

Record orderly := Orderly {
  or_driver : driver; or_work : list work; or_cleaned : gset Z; or_refs : Z -> Z;
}.

Definition refs_set (o v : Z) (rf : Z -> Z) : Z -> Z := fun o' => if decide (o' = o) then v else rf o'.

Inductive ostep : orderly -> orderly -> Prop :=
  | ostep_sect s s' ts g C rf t A (m : M sys A) k a w :
      ts !! t = Some (Sect m k) -> g !! t = Some w -> m s = (Ret a, s') ->
      ostep (Orderly (Driver s ts) g C rf)
        (Orderly (Driver s' (<[t := k a]> ts)) (<[t := settle (k a) w]> g) C rf)
  | ostep_request s ts g C rf t o p :
      ts !! t = Some Back -> handle_request o p -> o ∉ C ->
      ostep (Orderly (Driver s ts) g C rf) (Orderly (Driver s (<[t := p]> ts)) (<[t := settle p (Busy o)]> g) C rf)
  | ostep_cleanup s ts g C rf t o d :
      ts !! t = Some Back -> o <> 0 -> s_desc s !! o = Some d -> o ∉ C -> Busy o ∉ g ->
      ostep (Orderly (Driver s ts) g C rf)
        (Orderly (Driver s (<[t := co_manager_open_desc_deactive_and_close o Back]> ts))
           (<[t := Cleaning o]> g) ({[o]} ∪ C) rf)
  | ostep_open s s' ts g C rf t fresh lock os a :
      ts !! t = Some Back -> attempt (co_manager_open fresh lock os) s = (Ret a, s') ->
      ostep (Orderly (Driver s ts) g C rf)
        (Orderly (Driver s' ts) g (match a with inl _ => C ∖ {[fresh]} | inr _ => C end) rf)
  | ostep_ref s s' ts g C rf t o a :
      ts !! t = Some Back -> attempt (co_manager_open_ref o) s = (Ret a, s') ->
      ostep (Orderly (Driver s ts) g C rf)
        (Orderly (Driver s' ts) g C (match a with inl _ => refs_set o (rf o + 1) rf | inr _ => rf end))
  | ostep_drop s s' ts g C rf o r :
      0 < rf o -> co_manager_close o s = (r, s') -> r <> Fault ->
      ostep (Orderly (Driver s ts) g C rf) (Orderly (Driver s' ts) g C (refs_set o (rf o - 1) rf))
  | ostep_loader s w' ts g C rf :
      loader_step (s_world s) w' ->
      ostep (Orderly (Driver s ts) g C rf)
        (Orderly (Driver (Sys w' (s_um s) (s_desc s) (manager_opens s) (num_opens s)) ts) g C rf).
End handles.
