(* ===== verification/HandlesOk.v ===== *)
(** What open handles pin, whoever else is at work.

    [held s R] ties the descriptors, what the threads have in hand ([hold], one
    each) and the host's mappings together: every mapping of guest RAM belongs
    to one descriptor or one thread, the loader counts the reservations, and a
    slice in a descriptor lies in a block of guest RAM that is still there.
    [hsafe p r] says that thread [p], with [r] in hand, keeps this at each
    section. *)
From S2P Require Import Prelude.
From S2P Require Import Rc.
From S2P Require Import Mem.
From S2P Require Import Mmu.
From S2P Require Import Space.
From S2P Require Import Host.
From S2P Require Import Frames.
From S2P Require Import FramesOk.
From S2P Require Import Kload.
From S2P Require Import Partial.
From S2P Require Import Handles.

(** Documented behaviour of the memory manager: a mapping and a lock have a
    handle of their own until they are undone. *)
Class UserMemLaws (UM : Type) `{UserMem UM} := {
  (** Handle to user address, kernel address and pages. *)
  um_maps : UM -> gmap Z (Z * Z * Z);
  um_locks : UM -> gmap Z (list Z);
  law_userspace_map kva pages u :
    match co_os_userspace_map kva pages u with
    | (Some (uva, h), u') => h <> 0 /\ um_maps u !! h = None /\
        um_maps u' = <[h := (uva, kva, pages)]> (um_maps u) /\ um_locks u' = um_locks u
    | (None, u') => um_maps u' = um_maps u /\ um_locks u' = um_locks u
    end;
  law_userspace_unmap uva h pages u :
    um_maps (co_os_userspace_unmap uva h pages u) = delete h (um_maps u) /\
    um_locks (co_os_userspace_unmap uva h pages u) = um_locks u;
  law_lock_pages va bytes u :
    match co_os_user_lock_pages va bytes u with
    | (inl (h, pfns), u') => um_locks u !! h = None /\
        um_locks u' = <[h := pfns]> (um_locks u) /\ um_maps u' = um_maps u
    | (inr _, u') => um_maps u' = um_maps u /\ um_locks u' = um_locks u
    end;
  law_unlock_pages h u :
    um_locks (co_os_user_unlock_pages h u) = delete h (um_locks u) /\
    um_maps (co_os_user_unlock_pages h u) = um_maps u;
}.

(** What a thread has taken out of descriptors and not undone yet: slices it
    unmaps with the reservation still standing, that reservation, slices it
    evicts, and locked pages. *)
Record hold := Hold {
  h_slices : list co_manager_kmap_slice_t;
  h_put : bool;
  h_evicted : list co_manager_kmap_slice_t;
  h_locked : list Z;
}.
Definition nothing : hold := Hold [] false [] [].

Definition cnt {A} (f : A -> bool) (l : list A) : nat := length (filter (fun a => f a = true) l).

Lemma cnt_cons {A} (f : A -> bool) a l : cnt f (a :: l) = ((if f a then 1 else 0) + cnt f l)%nat.
Proof. unfold cnt. rewrite filter_cons. by destruct (f a). Qed.

Lemma cnt_perm {A} (f : A -> bool) l l' : l ≡ₚ l' -> cnt f l = cnt f l'.
Proof. intros E. unfold cnt. by rewrite E. Qed.

Section held.
Context {OS : Type} `{HostLaws OS} {UM : Type} `{UserMemLaws UM}.
Implicit Types (k : kload_statics) (u : UM) (s : @sys OS UM) (sl : co_manager_kmap_slice_t).

(** A slice shows a part of a block of guest RAM that the loader has. *)
Definition pinned k u sl : Prop := exists i,
  let b := block_at k i in
  0 <= i < kload_block_count k /\ block_va b <> 0 /\
  pseudo_base b <= sl_pa sl /\ sl_pa sl + sl_bytes sl <= pseudo_base b + block_bytes b /\
  sl_bytes sl = sl_pages sl * CO_ARCH_PAGE_SIZE /\ 0 < sl_pages sl /\
  um_maps u !! sl_handle sl = Some (sl_user_va sl, block_va b + (sl_pa sl - pseudo_base b), sl_pages sl).

Record desc_ok (d : co_manager_open_desc) : Prop := {
  do_slices : kmap_slices d = Z.of_nat (length (kmap_slice d));
  do_windows : windows d = Z.of_nat (length (window d));
  do_reserved : kmap_reserved d = false -> kmap_slice d = [];
}.

Lemma blocks_unsigned_eq k k' :
  kload_block k' = kload_block k -> kload_block_count k' = kload_block_count k ->
  blocks_unsigned k -> blocks_unsigned k'.
Proof using. intros Eb Ec Hk i. unfold block_at. rewrite Eb, Ec. apply Hk. Qed.

Definition recorded (D : list co_manager_open_desc) (R : list hold) : list co_manager_kmap_slice_t :=
  (D ≫= kmap_slice) ++ (R ≫= h_slices).

Record held_by k u (D : list co_manager_open_desc) (R : list hold) : Prop := {
  he_maps : kload_user_maps k = Z.of_nat (cnt kmap_reserved D + cnt h_put R);
  he_handles : sl_handle <$> (recorded D R ++ (R ≫= h_evicted)) ≡ₚ (map_to_list (um_maps u)).*1;
  he_nonzero : um_maps u !! 0 = None;
  he_blocks : blocks_unsigned k;
  he_pinned : Forall (pinned k u) (recorded D R);
  he_desc : Forall desc_ok D;
  he_put : Forall (fun r => h_slices r <> [] -> h_put r = true) R;
  he_locks : (wn_handle <$> (D ≫= window)) ++ (R ≫= h_locked) ≡ₚ (map_to_list (um_locks u)).*1;
}.

Definition descs s : list co_manager_open_desc := (map_to_list (s_desc s)).*2.
Definition held s (R : list hold) : Prop := held_by (w_kl (s_world s)) (s_um s) (descs s) R.

Lemma held_by_perm k u D D' R R' : D ≡ₚ D' -> R ≡ₚ R' -> held_by k u D R -> held_by k u D' R'.
Proof using.
  intros ED ER [Im Ih In Ib Ip Id Iu Il].
  assert (recorded D R ≡ₚ recorded D' R') as Er by (unfold recorded; by rewrite ED, ER).
  split; try done.
  - by rewrite Im, (cnt_perm _ _ _ ED), (cnt_perm _ _ _ ER).
  - by rewrite <- Er, <- ER.
  - by rewrite <- Er.
  - by rewrite <- ED.
  - by rewrite <- ER.
  - by rewrite <- ED, <- ER.
Qed.

(** The others' part stays true as long as the blocks and mappings do. *)
Lemma pinned_mono k u k' u' sl :
  pinned k u sl ->
  kload_block k' = kload_block k -> kload_block_count k' = kload_block_count k ->
  um_maps u' !! sl_handle sl = um_maps u !! sl_handle sl -> pinned k' u' sl.
Proof using.
  intros (i & Hi) Eb Ec Em. exists i. unfold block_at in *. rewrite Eb, Ec, Em. exact Hi.
Qed.

Lemma handles_nodup k u D R :
  held_by k u D R -> NoDup (sl_handle <$> (recorded D R ++ (R ≫= h_evicted))).
Proof using. intros Hh. rewrite (he_handles _ _ _ _ Hh). apply NoDup_fst_map_to_list. Qed.

(** ** One descriptor at a time *)

Definition others s (o : Z) : list co_manager_open_desc := (map_to_list (delete o (s_desc s))).*2.

Lemma descs_split s o d : s_desc s !! o = Some d -> descs s ≡ₚ d :: others s o.
Proof using.
  intros Hd. unfold descs, others. rewrite <- (insert_delete_id (s_desc s) o d) at 1 by done.
  rewrite map_to_list_insert by apply lookup_delete_eq. done.
Qed.

Lemma descs_set s o d : descs (put_desc o d s) ≡ₚ d :: others s o.
Proof using.
  rewrite (descs_split (put_desc o d s) o d) by apply lookup_insert_eq.
  unfold others, put_desc. simpl. by rewrite delete_insert_eq.
Qed.

(** The state as the section of descriptor [o] sees it. *)
Definition local (o : Z) (D : list co_manager_open_desc)
    (P : kload_statics -> UM -> co_manager_open_desc -> Prop) s : Prop :=
  exists d, s_desc s !! o = Some d /\ others s o = D /\ P (w_kl (s_world s)) (s_um s) d.

Lemma local_held s o d R :
  s_desc s !! o = Some d ->
  held s R -> local o (others s o) (fun k u d => held_by k u (d :: others s o) R) s.
Proof using.
  intros Hd Hh. exists d. split; [done|]. split; [done|].
  eapply held_by_perm; [by apply descs_split|done|done].
Qed.

Lemma held_local o D P s R :
  local o D P s -> (forall k u d, P k u d -> held_by k u (d :: D) R) -> held s R.
Proof using.
  intros (d & Hd & <- & HP) Himp. eapply held_by_perm; [symmetry; by apply descs_split|done|]. by apply Himp.
Qed.

Lemma local_mono o D (P P' : kload_statics -> UM -> co_manager_open_desc -> Prop) s :
  local o D P s -> (forall k u d, P k u d -> P' k u d) -> local o D P' s.
Proof using. intros (d & Hd & HD & HP) Himp. exists d. auto. Qed.

Lemma wlp_the o (Q : co_manager_open_desc -> sys -> Prop) E s :
  (forall d, s_desc s !! o = Some d -> Q d s) -> wlp (the o) Q E s.
Proof using. intros HQ. unfold wlp, the. destruct (s_desc s !! o) as [d|]; [by apply HQ|done]. Qed.

Lemma wlp_the_local o D P (Q : co_manager_open_desc -> sys -> Prop) E s :
  local o D P s ->
  (forall d, local o D (fun k u d' => d' = d /\ P k u d) s -> Q d s) -> wlp (the o) Q E s.
Proof using.
  intros (d & Hd & HD & HP) HQ. apply wlp_the. intros d' Hd'. rewrite Hd in Hd'. injection Hd' as <-.
  apply HQ. by exists d.
Qed.

Lemma wlp_upd o D P P' f (Q : unit -> sys -> Prop) E s :
  local o D P s -> (forall k u d, P k u d -> P' k u (f d)) ->
  (forall s', local o D P' s' -> Q tt s') -> wlp (upd o f) Q E s.
Proof using.
  intros (d & Hd & HD & HP) Hf HQ. unfold upd. apply wlp_bind, wlp_the. intros d' Hd'.
  rewrite Hd in Hd'. injection Hd' as <-. apply wlp_modify, HQ. exists (f d). split; [apply lookup_insert_eq|]. split; [|by apply Hf].
  unfold others, put_desc. simpl. by rewrite delete_insert_eq.
Qed.

(** A loader call that leaves reservations and blocks alone. *)
Definition counts (w : world OS) : Z * gmap Z co_kload_block_t * Z :=
  (kload_user_maps (w_kl w), kload_block (w_kl w), kload_block_count (w_kl w)).

Lemma wlp_loader {A} (m : M (world OS) A) (Q : A -> sys -> Prop) (E : co_rc_value_t -> sys -> Prop) s :
  wlp m (fun a w => Q a (Sys w (s_um s) (s_desc s) (manager_opens s) (num_opens s)))
    (fun rc w => E rc (Sys w (s_um s) (s_desc s) (manager_opens s) (num_opens s))) (s_world s) ->
  wlp (loader m) Q E s.
Proof using. unfold wlp, loader. by destruct (m (s_world s)) as [[a|rc|] w]. Qed.

Lemma wlp_user {A} (f : UM -> A * UM) (Q : A -> sys -> Prop) E s :
  (forall a u, f (s_um s) = (a, u) ->
     Q a (Sys (s_world s) u (s_desc s) (manager_opens s) (num_opens s))) ->
  wlp (user f) Q E s.
Proof using. intros HQ. unfold wlp, user. destruct (f (s_um s)) as [a u]. by apply HQ. Qed.

Lemma held_by_core k k' u D R :
  kload_user_maps k' = kload_user_maps k ->
  kload_block k' = kload_block k -> kload_block_count k' = kload_block_count k ->
  held_by k u D R -> held_by k' u D R.
Proof using.
  intros Em Eb Ec [Im Ih In Ib Ip Id Iu Il]. split; try done; [congruence|by eapply blocks_unsigned_eq|].
  eapply Forall_impl; [exact Ip|]. intros sl Hsl. by eapply pinned_mono.
Qed.

(** ** The loader's side *)

Lemma keeps_kl {X A} (f : world OS -> X) (g : kload_statics -> A) : keeps f (kl g).
Proof using. apply keeps_gets. Qed.
Lemma keeps_host {A} (f : OS -> A * OS) : keeps counts (host f).
Proof using. intros w. unfold wlp, host. by destruct (f (w_os w)). Qed.
Ltac keep_step :=
  lazymatch goal with
  | |- keeps _ (mret _) => apply keeps_ret
  | |- keeps _ (throw _) => apply keeps_throw
  | |- keeps _ fault => done
  | |- keeps _ (_ ≫= _) => apply keeps_bind; [|intros ?]
  | |- keeps _ (kl _) => apply keeps_kl
  | |- keeps _ (gets _) => apply keeps_gets
  | |- keeps _ (fail_if _ _) => apply keeps_fail_if
  | |- keeps _ (in_bounds _) => apply keeps_in_bounds
  | |- keeps _ (host _) => apply keeps_host
  | |- keeps _ (host_do _) => apply keeps_modify; intros ?; reflexivity
  | |- keeps _ (mloop _ _) => apply keeps_mloop; intros ?
  | |- keeps _ (mfor _ _ _) => apply keeps_mfor; intros ?
  | |- keeps _ (kset _) => apply keeps_modify; intros ?; reflexivity
  | |- keeps _ (match _ with _ => _ end) => case_match
  end.
Ltac keep := repeat keep_step; auto with keeps.

Lemma keeps_p2m_set i v : keeps counts (p2m_set i v).
Proof using. unfold p2m_set. keep. Qed.
Lemma keeps_p2m_get i : keeps counts (p2m_get i).
Proof using. unfold p2m_get. keep. Qed.
#[local] Hint Resolve keeps_p2m_set keeps_p2m_get : keeps.

Lemma keeps_window_fill mfns first count : keeps counts (window_fill mfns first count).
Proof using. unfold window_fill, window_fill_step, window_rollback_step. keep. Qed.
#[local] Hint Resolve keeps_window_fill : keeps.

Lemma keeps_window_map mfns count : keeps counts (co_kload_window_map mfns count).
Proof using. unfold co_kload_window_map. keep. Qed.

Lemma keeps_window_map_at mfns count pseudo : keeps counts (co_kload_window_map_at mfns count pseudo).
Proof using. unfold co_kload_window_map_at, window_vacant_step. keep. Qed.

Lemma keeps_window_unmap pseudo count : keeps counts (co_kload_window_unmap pseudo count).
Proof using. unfold co_kload_window_unmap, window_clear_step. keep. Qed.

Lemma wlp_release w :
  wlp kload_release_pages (fun _ w' => kload_user_maps (w_kl w') = kload_user_maps (w_kl w) /\
    kload_block_count (w_kl w') = 0) (fun _ _ => True) w.
Proof using.
  unfold kload_release_pages. apply wlp_bind, wlp_gets, wlp_bind, wlp_modify.
  lazymatch goal with |- wlp ?m _ _ _ =>
    assert (keeps (fun w' => (kload_user_maps (w_kl w'), kload_block_count (w_kl w'))) m) as Hk
  end.
  { unfold release_block, free_array, block_get, block_set. keep. }
  eapply wlp_mono; [apply Hk| |done]. intros [] w' E. injection E as E1 E2. by split.
Qed.

Lemma wlp_block_get i (Q : co_kload_block_t -> world OS -> Prop) E w :
  Q (block_at (w_kl w) i) w -> wlp (block_get i) Q E w.
Proof using. intros HQ. unfold block_get, kl. do 3 wlp_step. exact HQ. Qed.

(** The answer is a block, whole. *)
Definition answer_block k (b : Z * Z * Z) : Prop := exists i,
  0 <= i < kload_block_count k /\ block_va (block_at k i) <> 0 /\
  b = (block_va (block_at k i), pseudo_base (block_at k i), block_bytes (block_at k i)).

Lemma wlp_block i w (E : co_rc_value_t -> world OS -> Prop) :
  (forall rc, E rc w) ->
  wlp (co_kload_block i) (fun b w' => w' = w /\ answer_block (w_kl w) b) E w.
Proof using.
  intros HE. unfold co_kload_block, kl. do 2 wlp_step. wlp_step; [|by wlp_step].
  wlp_step. apply wlp_block_get. wlp_step; [|by wlp_step]. wlp_step. split; [done|].
  exists i. split; [lia|]. split; [done|done].
Qed.

Lemma wlp_block_for_pa pa w (E : co_rc_value_t -> world OS -> Prop) :
  (forall rc, E rc w) ->
  wlp (co_kload_block_for_pa pa) (fun b w' => w' = w /\ answer_block (w_kl w) b /\
    b.1.2 <= pa < u64 (b.1.2 + b.2)) E w.
Proof using.
  intros HE. unfold co_kload_block_for_pa, kl. do 2 wlp_step. wlp_step.
  apply (wlp_mloop _ (fun st w' => w' = w /\ 0 <= st.1 /\ st.2 < kload_block_count (w_kl w))).
  - intros [lo hi] w' (-> & Hlo & Hhi). unfold block_for_pa_step. cbn [fst snd] in *.
    wlp_step; [by wlp_step; wlp_step|]. wlp_step. apply wlp_block_get.
    set (mid := lo + Z.quot (hi - lo) 2).
    assert (lo <= mid <= hi) as Hmid by (unfold mid; Z.quot_rem_to_equations; lia).
    wlp_step; [wlp_step; cbn; split_and!; [done|lia|lia]|].
    wlp_step; [wlp_step; cbn; split_and!; [done|lia|lia]|].
    wlp_step; do 2 wlp_step; [|done]. split; [done|]. split; [|cbn; lia].
    exists mid. split; [lia|]. done.
  - cbn. split_and!; [done|lia..].
Qed.

(** Taking and dropping a reservation. *)
Lemma wlp_try_get w (E : co_rc_value_t -> world OS -> Prop) :
  wlp co_kload_user_map_try_get (fun ok w' =>
    kload_user_maps (w_kl w') = kload_user_maps (w_kl w) + (if ok : bool then 1 else 0) /\
    kload_block (w_kl w') = kload_block (w_kl w) /\
    kload_block_count (w_kl w') = kload_block_count (w_kl w)) E w.
Proof using.
  unfold co_kload_user_map_try_get, kl, kset. do 2 wlp_step.
  destruct (_ && _)%bool; do 3 wlp_step; cbn; split_and!; try done; lia.
Qed.

Lemma wlp_put w (E : co_rc_value_t -> world OS -> Prop) :
  (forall rc w, E rc w) -> 0 < kload_user_maps (w_kl w) ->
  wlp co_kload_user_map_put (fun _ w' =>
    kload_user_maps (w_kl w') = kload_user_maps (w_kl w) - 1 /\
    (1 < kload_user_maps (w_kl w) ->
     kload_block (w_kl w') = kload_block (w_kl w) /\
     kload_block_count (w_kl w') = kload_block_count (w_kl w)) /\
    (kload_block (w_kl w') = kload_block (w_kl w) /\
     kload_block_count (w_kl w') = kload_block_count (w_kl w) \/
     kload_block_count (w_kl w') = 0)) E w.
Proof using.
  intros HE Hpos. unfold co_kload_user_map_put, kl, kset.
  do 2 wlp_step. do 4 wlp_step.
  set (w1 := upd_kl _ w).
  assert (w1 = upd_kl (set_user_maps (kload_user_maps (w_kl w) - 1)) w) as ->.
  { unfold w1, upd_kl. by rewrite (proj2 (Z.ltb_lt _ _) Hpos). }
  wlp_step.
  - wlp_step. eapply wlp_mono; [apply wlp_release|intros [] w' [Hw' Hc]; cbn in Hw'|auto].
    unfold clear_counts, kset. do 3 wlp_step. cbn in *. split_and!; [done|lia|auto].
  - wlp_step. cbn. auto.
Qed.

(** ** Threads that keep it *)

(** No descriptor went that still held something. *)
Definition tidy s s' : Prop := forall o d, s_desc s !! o = Some d -> s_desc s' !! o = None -> let_go d.

(** What descriptors that went had held, if there were any, is left over. *)
Fixpoint hsafe (p : thread (@sys OS UM)) (r : hold) : Prop :=
  match p with
  | Back => r = nothing
  | Sect m go => forall s R, held s (r :: R) ->
      wlp m (fun a s' => exists r' L, held s' (r' :: L ++ R) /\ (tidy s s' -> L = []) /\ hsafe (go a) r')
        (fun _ _ => True) s
  end.

(** A section that leaves nothing over. *)
Lemma hsafe_sect {A} (m : M (@sys OS UM) A) (go : A -> thread sys) r :
  (forall s R, held s (r :: R) ->
     wlp m (fun a s' => exists r', held s' (r' :: R) /\ hsafe (go a) r') (fun _ _ => True) s) ->
  hsafe (Sect m go) r.
Proof using.
  intros Hm s R Hok. eapply wlp_mono; [by apply Hm| |done]. intros a s' (r' & Hh & Hgo). by exists r', [].
Qed.

(** A section that sees the loader's counts only. *)
Lemma hsafe_loader {A} (m : M (world OS) A) (go : A -> thread sys) r :
  keeps counts m -> (forall a, hsafe (go a) r) -> hsafe (Sect (loader m) go) r.
Proof using.
  intros Hm Hk. apply hsafe_sect. intros s R Hok. apply wlp_loader. eapply wlp_mono; [apply Hm| |done].
  intros a w E. exists r. split; [|done]. unfold counts in E. simplify_eq.
  by apply (held_by_core (w_kl (s_world s))).
Qed.

(** ** Moves *)

(** What a descriptor, if one is concerned, and a thread hold together. *)
Definition mine (D : list co_manager_open_desc) (r : hold) : list co_manager_kmap_slice_t :=
  (D ≫= kmap_slice) ++ h_slices r ++ h_evicted r.
Definition my_locks (D : list co_manager_open_desc) (r : hold) : list Z :=
  (wn_handle <$> (D ≫= window)) ++ h_locked r.
Definition my_puts (D : list co_manager_open_desc) (r : hold) : Z :=
  Z.of_nat (cnt kmap_reserved D) + (if h_put r then 1 else 0).
Definition keys u : list Z := (map_to_list (um_maps u)).*1.
Definition lock_keys u : list Z := (map_to_list (um_locks u)).*1.

Lemma held_move k u k' u' D0 D0' r r' D R :
  held_by k u (D0 ++ D) (r :: R) ->
  kload_user_maps k' = kload_user_maps k + my_puts D0' r' - my_puts D0 r ->
  kload_block k' = kload_block k -> kload_block_count k' = kload_block_count k ->
  (forall rest, (sl_handle <$> mine D0 r) ++ rest ≡ₚ keys u -> (sl_handle <$> mine D0' r') ++ rest ≡ₚ keys u') ->
  (forall h, h ∉ sl_handle <$> mine D0 r -> um_maps u !! h <> None -> um_maps u' !! h = um_maps u !! h) ->
  um_maps u' !! 0 = None ->
  (Forall (pinned k u) ((D0 ≫= kmap_slice) ++ h_slices r) ->
   Forall (pinned k' u') ((D0' ≫= kmap_slice) ++ h_slices r')) ->
  (Forall desc_ok D0 -> Forall desc_ok D0') ->
  (h_slices r' <> [] -> h_put r' = true) ->
  (forall rest, my_locks D0 r ++ rest ≡ₚ lock_keys u -> my_locks D0' r' ++ rest ≡ₚ lock_keys u') ->
  held_by k' u' (D0' ++ D) (r' :: R).
Proof using.
  intros Hh Hm Hb Hc Hkeys Hother Hz Hpin Hdesc Hput Hlocks.
  pose proof (handles_nodup _ _ _ _ Hh) as Hnd. destruct Hh as [Im Ih In Ib Ip Id Iu Il].
  set (rest := (D ≫= kmap_slice) ++ (R ≫= h_slices) ++ (R ≫= h_evicted)).
  assert (forall X r1, recorded (X ++ D) (r1 :: R) ++ ((r1 :: R) ≫= h_evicted) ≡ₚ mine X r1 ++ rest) as Hsplit.
  { intros X r1. unfold recorded, mine, rest. rewrite bind_app. simpl. solve_Permutation. }
  assert (forall X r1, recorded (X ++ D) (r1 :: R) ≡ₚ
            ((X ≫= kmap_slice) ++ h_slices r1) ++ ((D ≫= kmap_slice) ++ (R ≫= h_slices))) as Hsplit'.
  { intros X r1. unfold recorded. rewrite bind_app. simpl. solve_Permutation. }
  assert (forall X r1, (wn_handle <$> ((X ++ D) ≫= window)) ++ ((r1 :: R) ≫= h_locked) ≡ₚ
            my_locks X r1 ++ ((wn_handle <$> (D ≫= window)) ++ (R ≫= h_locked))) as Hsplit2.
  { intros X r1. unfold my_locks. rewrite bind_app, fmap_app. simpl. solve_Permutation. }
  rewrite Hsplit in Ih, Hnd. rewrite fmap_app in Ih, Hnd. rewrite Hsplit' in Ip. rewrite Hsplit2 in Il.
  apply Forall_app in Ip as [Ip IpR]. apply Forall_app in Id as [Id IdD].
  apply Forall_cons in Iu as [_ IuR]. apply NoDup_app in Hnd as (_ & Hdisj & _).
  split.
  - rewrite Hm, Im. unfold my_puts, cnt. rewrite !filter_app, !length_app.
    fold (cnt kmap_reserved D0) (cnt kmap_reserved D0') (cnt kmap_reserved D).
    fold (cnt h_put (r :: R)) (cnt h_put (r' :: R)). rewrite !cnt_cons.
    destruct (h_put r), (h_put r'); lia.
  - rewrite Hsplit, fmap_app. by apply Hkeys.
  - done.
  - by eapply blocks_unsigned_eq.
  - rewrite Hsplit'. apply Forall_app. split; [by apply Hpin|].
    rewrite Forall_forall in *. intros sl Hin. specialize (IpR sl Hin).
    eapply pinned_mono; [exact IpR|done|done|]. apply Hother.
    + intros Hmine. apply (Hdisj _ Hmine). apply list_elem_of_fmap. exists sl. split; [done|].
      unfold rest. rewrite app_assoc. set_solver.
    + destruct IpR as (i & _ & _ & _ & _ & _ & _ & E). congruence.
  - apply Forall_app. split; [by apply Hdesc|done].
  - by constructor.
  - rewrite Hsplit2. by apply Hlocks.
Qed.

(** A mapping made, or undone. *)
Lemma keys_insert u u' h m :
  um_maps u !! h = None -> um_maps u' = <[h := m]> (um_maps u) -> keys u' ≡ₚ h :: keys u.
Proof using. intros Hn E. unfold keys. by rewrite E, map_to_list_insert. Qed.

Lemma keys_delete u u' h m :
  um_maps u !! h = Some m -> um_maps u' = delete h (um_maps u) -> keys u ≡ₚ h :: keys u'.
Proof using.
  intros Hm E. unfold keys. rewrite E, <- (insert_delete_id (um_maps u) h m) at 1 by done.
  by rewrite map_to_list_insert by apply lookup_delete_eq.
Qed.

Lemma pinned_handle k u sl : pinned k u sl -> is_Some (um_maps u !! sl_handle sl).
Proof using. intros (i & _ & _ & _ & _ & _ & _ & Hm). by eexists. Qed.

Lemma held_handle k u D R sl :
  held_by k u D R -> sl ∈ recorded D R ++ (R ≫= h_evicted) -> is_Some (um_maps u !! sl_handle sl).
Proof using.
  intros Hh Hin. assert (sl_handle sl ∈ keys u) as Hk.
  { unfold keys. rewrite <- (he_handles _ _ _ _ Hh). apply list_elem_of_fmap. by exists sl. }
  apply list_elem_of_fmap in Hk as ([h m] & Eh & Hin'). apply elem_of_map_to_list in Hin'.
  simpl in Eh. rewrite Eh. by eexists.
Qed.

Lemma held_add k u u' d D r R sl m :
  held_by k u (d :: D) (r :: R) -> kmap_reserved d = true -> sl_handle sl <> 0 ->
  um_maps u !! sl_handle sl = None -> um_maps u' = <[sl_handle sl := m]> (um_maps u) ->
  um_locks u' = um_locks u -> pinned k u' sl ->
  held_by k u' (with_slices (sl :: kmap_slice d) (kmap_slices d + 1) d :: D) (r :: R).
Proof using.
  intros Hh Hr Hnz Hn Em El Hp.
  apply (held_move k u k u' [d] [with_slices (sl :: kmap_slice d) (kmap_slices d + 1) d] r r D R Hh).
  - unfold my_puts. rewrite !cnt_cons. simpl. rewrite Hr. lia.
  - done.
  - done.
  - intros rest E. rewrite (keys_insert u u' _ m Hn Em), <- E. unfold mine. simpl. done.
  - intros h _ Hsome. rewrite Em, lookup_insert_ne; [done|]. intros <-. by rewrite Hn in Hsome.
  - rewrite Em, lookup_insert_ne by done. apply (he_nonzero _ _ _ _ Hh).
  - simpl. intros HF. constructor; [done|]. eapply Forall_impl; [exact HF|]. intros sl' Hsl'.
    eapply pinned_mono; [exact Hsl'|done|done|]. rewrite Em, lookup_insert_ne; [done|].
    intros E. destruct (pinned_handle _ _ _ Hsl') as [m' Hm']. rewrite <- E in Hm'. congruence.
  - intros [[Hl Hw Hres] _]%Forall_cons. constructor; [|done].
    split; simpl; [rewrite Hl; lia|done|congruence].
  - intros Hne. pose proof (he_put _ _ _ _ Hh) as [Hput _]%Forall_cons. by apply Hput.
  - unfold lock_keys. by rewrite El.
Qed.

(** Tokens change hands; no mapping does. *)
Lemma held_tokens k k' u d d' D r r' R :
  held_by k u (d :: D) (r :: R) ->
  kload_user_maps k' = kload_user_maps k + my_puts [d'] r' - my_puts [d] r ->
  kload_block k' = kload_block k -> kload_block_count k' = kload_block_count k ->
  sl_handle <$> mine [d'] r' ≡ₚ sl_handle <$> mine [d] r ->
  (Forall (pinned k u) (kmap_slice d ++ h_slices r) -> Forall (pinned k u) (kmap_slice d' ++ h_slices r')) ->
  (desc_ok d -> desc_ok d') -> (h_slices r' <> [] -> h_put r' = true) ->
  my_locks [d'] r' ≡ₚ my_locks [d] r ->
  held_by k' u (d' :: D) (r' :: R).
Proof using.
  intros Hh Hm Hb Hc Hkeys Hpin Hdesc Hput Hl.
  apply (held_move k u k' u [d] [d'] r r' D R Hh); try done.
  - intros rest E. by rewrite Hkeys.
  - apply (he_nonzero _ _ _ _ Hh).
  - intros HF. simpl in *. rewrite app_nil_r in *. eapply Forall_impl; [by apply Hpin|].
    intros sl Hsl. by eapply pinned_mono.
  - rewrite !Forall_singleton. done.
  - intros rest E. by rewrite Hl.
Qed.

Lemma held_take k u d D R :
  held_by k u (d :: D) (nothing :: R) ->
  held_by k u (with_reserved false (with_slices [] 0 d) :: D)
    (Hold (kmap_slice d) (kmap_reserved d) [] [] :: R).
Proof using.
  intros Hh. eapply held_tokens; [exact Hh|..]; try done.
  - unfold my_puts. rewrite !cnt_cons. simpl. destruct (kmap_reserved d); simpl; lia.
  - unfold mine. simpl. by rewrite !app_nil_r.
  - simpl. by rewrite !app_nil_r.
  - intros [Hl Hw Hr]. by split.
  - simpl. intros Hne. pose proof (he_desc _ _ _ _ Hh) as [[_ _ Hr] _]%Forall_cons.
    destruct (kmap_reserved d); [done|]. by rewrite Hr in Hne.
Qed.

Lemma unlink_perm {A} (test : A -> bool) l x l' :
  unlink test l = Some (x, l') -> l ≡ₚ x :: l' /\ test x = true.
Proof using.
  revert l'. induction l as [|y l IH]; intros l'; simpl; [done|].
  destruct (test y) eqn:Ht; [by intros [= <- <-]|].
  destruct (unlink test l) as [[z l'']|]; [|done]. intros [= <- <-].
  destruct (IH l'' eq_refl) as [-> Hz]. split; [constructor|done].
Qed.

Lemma held_evict k u d D R sl l n :
  held_by k u (d :: D) (nothing :: R) -> kmap_slice d ≡ₚ sl :: l -> n = kmap_slices d - 1 ->
  held_by k u (with_slices l n d :: D) (Hold [] false [sl] [] :: R).
Proof using.
  intros Hh Hl ->. eapply held_tokens; [exact Hh|..]; try done.
  - unfold my_puts. rewrite !cnt_cons. simpl. lia.
  - unfold mine. simpl. rewrite !app_nil_r, Hl, fmap_app. simpl. solve_Permutation.
  - simpl. rewrite !app_nil_r, Hl. by intros [_ ?]%Forall_cons.
  - intros [Hn Hw Hr]. split; simpl; [rewrite Hn, Hl; simpl; lia|done|].
    intros Hf. rewrite (Hr Hf) in Hl. by apply Permutation_nil_cons in Hl.
Qed.

(** The end of a mapping. *)
Lemma held_unmap k u u' D R sl r r' :
  held_by k u D (r :: R) -> um_maps u' = delete (sl_handle sl) (um_maps u) ->
  um_locks u' = um_locks u -> h_slices r ++ h_evicted r ≡ₚ sl :: h_slices r' ++ h_evicted r' ->
  (Forall (pinned k u) (h_slices r) -> Forall (pinned k u) (h_slices r')) ->
  h_put r' = h_put r -> (h_slices r' <> [] -> h_put r' = true) -> h_locked r' = h_locked r ->
  held_by k u' D (r' :: R).
Proof using.
  intros Hh Em El Hs Hp Hput Hput' Hlk.
  destruct (held_handle _ _ _ _ sl Hh) as [m Hm].
  { unfold recorded. simpl. assert (sl ∈ h_slices r ++ h_evicted r) by (rewrite Hs; left). set_solver. }
  pose proof (handles_nodup _ _ _ _ Hh) as Hnd.
  assert (forall sl', sl' ∈ h_slices r' -> sl_handle sl' <> sl_handle sl) as Hne.
  { assert (NoDup (sl_handle <$> (h_slices r ++ h_evicted r))) as Hnd'.
    { assert (recorded D (r :: R) ++ ((r :: R) ≫= h_evicted) ≡ₚ (h_slices r ++ h_evicted r) ++
        ((D ≫= kmap_slice) ++ (R ≫= h_slices) ++ (R ≫= h_evicted))) as E
        by (unfold recorded; simpl; solve_Permutation).
      rewrite E, fmap_app in Hnd. by apply NoDup_app in Hnd as [? _]. }
    rewrite Hs in Hnd'. simpl in Hnd'. apply NoDup_cons in Hnd' as [Hni _].
    intros sl' Hin E. apply Hni. rewrite <- E. apply list_elem_of_fmap. exists sl'. set_solver. }
  apply (held_move k u k u' [] [] r r' D R Hh); try done.
  - unfold my_puts. rewrite Hput. lia.
  - intros rest E. unfold mine in *. simpl in *. rewrite Hs in E. simpl in E.
    rewrite (keys_delete u u' _ m Hm Em) in E. by apply Permutation_cons_inv in E.
  - intros h Hni _. rewrite Em, lookup_delete_ne; [done|]. intros <-. apply Hni.
    unfold mine. simpl. rewrite Hs. left.
  - rewrite Em. apply lookup_delete_None. right. apply (he_nonzero _ _ _ _ Hh).
  - simpl. intros HF. specialize (Hp HF). rewrite Forall_forall in *. intros sl' Hin.
    eapply pinned_mono; [by apply Hp|done|done|]. rewrite Em, lookup_delete_ne; [done|].
    intros E. by apply (Hne sl' Hin).
  - unfold my_locks, lock_keys. by rewrite Hlk, El.
Qed.

Lemma cnt_zero {A} (f : A -> bool) l : cnt f l = 0%nat -> Forall (fun a => f a = false) l.
Proof using.
  induction l as [|a l IH]; [constructor|]. rewrite cnt_cons. destruct (f a) eqn:Hf; [done|].
  intros Hc. constructor; [done|by apply IH].
Qed.

Lemma bind_nil {A B} (f : A -> list B) l : Forall (fun a => f a = []) l -> l ≫= f = [].
Proof using. induction 1 as [|a l Ha _ IH]; [done|]. cbn [mbind list_bind]. by rewrite Ha. Qed.

(** Without a reservation nothing is recorded. *)
Lemma unreserved_nothing D R :
  Forall desc_ok D -> Forall (fun r => h_slices r <> [] -> h_put r = true) R ->
  cnt kmap_reserved D = 0%nat -> cnt h_put R = 0%nat -> recorded D R = [].
Proof using.
  intros Hd Hp HD%cnt_zero HR%cnt_zero. unfold recorded. rewrite !bind_nil; [done|..].
  - rewrite Forall_forall in *. intros r Hr. specialize (Hp r Hr). rewrite (HR r Hr) in Hp.
    destruct (h_slices r); [done|]. by specialize (Hp ltac:(done)).
  - rewrite Forall_forall in *. intros d Hin. apply (do_reserved _ (Hd d Hin)), HD, Hin.
Qed.

Lemma held_put k k' u D r R :
  held_by k u D (r :: R) -> h_put r = true -> h_slices r = [] ->
  kload_user_maps k' = kload_user_maps k - 1 ->
  (1 < kload_user_maps k ->
   kload_block k' = kload_block k /\ kload_block_count k' = kload_block_count k) ->
  (kload_block k' = kload_block k /\ kload_block_count k' = kload_block_count k \/
   kload_block_count k' = 0) ->
  held_by k' u D (Hold [] false (h_evicted r) (h_locked r) :: R).
Proof using.
  intros Hh Hp Hs Hm Hb Hb0. pose proof (he_maps _ _ _ _ Hh) as Hn. rewrite cnt_cons, Hp in Hn.
  destruct (decide (1 < kload_user_maps k)) as [Hlt|Hge].
  - destruct (Hb Hlt) as [Eb Ec]. apply (held_move k u k' u [] [] r _ D R Hh); try done.
    + unfold my_puts. simpl. rewrite Hp. lia.
    + unfold mine. simpl. by rewrite Hs.
    + apply (he_nonzero _ _ _ _ Hh).
  - set (r' := Hold [] false (h_evicted r) (h_locked r)).
    assert (recorded D (r :: R) = recorded D (r' :: R)) as Er by (unfold recorded; simpl; by rewrite Hs).
    destruct Hh as [Im Ih In Ib Ip Id Iu Il]. apply Forall_cons in Iu as [_ Iu].
    assert (recorded D (r' :: R) = []) as E0.
    { apply unreserved_nothing; [done|by constructor|lia|]. rewrite cnt_cons. simpl. lia. }
    split.
    + rewrite cnt_cons. simpl. lia.
    + rewrite <- Ih. rewrite Er. done.
    + done.
    + destruct Hb0 as [[Eb Ec]|Ec]; [by eapply blocks_unsigned_eq|]. intros i. lia.
    + rewrite E0. constructor.
    + done.
    + by constructor.
    + done.
Qed.

Lemma held_reserve k k' u d D r R :
  held_by k u (d :: D) (r :: R) -> kmap_reserved d = false ->
  kload_user_maps k' = kload_user_maps k + 1 ->
  kload_block k' = kload_block k -> kload_block_count k' = kload_block_count k ->
  held_by k' u (with_reserved true d :: D) (r :: R).
Proof using.
  intros Hh Hr Hm Hb Hc. eapply held_tokens; [exact Hh|..]; try done.
  - unfold my_puts. rewrite !cnt_cons, Hr. simpl. lia.
  - intros [Hl Hw Hs]. split; [done|done|done].
  - pose proof (he_put _ _ _ _ Hh) as [Hput _]%Forall_cons. done.
Qed.

(** A reservation without slices goes to the thread that is to drop it. *)
Lemma held_unreserve k u d D R :
  held_by k u (d :: D) (nothing :: R) -> kmap_reserved d = true -> kmap_slices d = 0 ->
  held_by k u (with_reserved false d :: D) (Hold [] true [] [] :: R).
Proof using.
  intros Hh Hr Hn. pose proof (he_desc _ _ _ _ Hh) as [[Hl _ _] _]%Forall_cons.
  assert (kmap_slice d = []) as Hs by (apply nil_length_inv; lia).
  eapply held_tokens; [exact Hh|..]; try done.
  - unfold my_puts. rewrite !cnt_cons, Hr. simpl. lia.
  - intros [? ? ?]. split; done.
Qed.

(** *** Locked pages *)

Lemma held_lock k u u' D R h pfns :
  held_by k u D (nothing :: R) -> um_locks u !! h = None ->
  um_locks u' = <[h := pfns]> (um_locks u) -> um_maps u' = um_maps u ->
  held_by k u' D (Hold [] false [] [h] :: R).
Proof using.
  intros Hh Hn El Em. apply (held_move k u k u' [] [] nothing _ D R Hh); try done.
  - unfold my_puts. simpl. lia.
  - intros rest. unfold mine, keys. by rewrite Em.
  - intros h' _ _. by rewrite Em.
  - rewrite Em. apply (he_nonzero _ _ _ _ Hh).
  - intros rest E. unfold my_locks, lock_keys in *. simpl in *. rewrite El, map_to_list_insert by done.
    simpl. by rewrite E.
Qed.

Lemma held_unlock k u u' D R h l :
  held_by k u D (Hold [] false [] (h :: l) :: R) ->
  um_locks u' = delete h (um_locks u) -> um_maps u' = um_maps u ->
  held_by k u' D (Hold [] false [] l :: R).
Proof using.
  intros Hh El Em.
  assert (is_Some (um_locks u !! h)) as [m Hm].
  { assert (h ∈ lock_keys u) as Hk.
    { unfold lock_keys. rewrite <- (he_locks _ _ _ _ Hh). simpl. set_solver. }
    apply list_elem_of_fmap in Hk as ([h' m] & Eh & Hin'). apply elem_of_map_to_list in Hin'.
    simpl in Eh. rewrite Eh. by eexists. }
  apply (held_move k u k u' [] [] (Hold [] false [] (h :: l)) _ D R Hh); try done.
  - unfold my_puts. simpl. lia.
  - intros rest. unfold mine, keys. by rewrite Em.
  - intros h' _ _. by rewrite Em.
  - rewrite Em. apply (he_nonzero _ _ _ _ Hh).
  - intros rest E. unfold my_locks, lock_keys in *. simpl in *.
    rewrite <- (insert_delete_id (um_locks u) h m), map_to_list_insert in E
      by (done || apply lookup_delete_eq).
    rewrite El. simpl in E. by apply Permutation_cons_inv in E.
Qed.

(** Windows move between a descriptor and a thread. *)
Lemma held_windows k u d D R l l' n ws :
  held_by k u (d :: D) (Hold [] false [] l :: R) ->
  (wn_handle <$> ws) ++ l' ≡ₚ (wn_handle <$> window d) ++ l -> n = Z.of_nat (length ws) ->
  held_by k u (with_windows ws n d :: D) (Hold [] false [] l' :: R).
Proof using.
  intros Hh Hw Hn. eapply held_tokens; [exact Hh|..]; try done.
  - unfold my_puts. rewrite !cnt_cons. simpl. lia.
  - intros [? ? ?]. by split.
  - unfold my_locks. simpl. by rewrite !app_nil_r.
Qed.
End held.
