(* ===== verification/HandlesRun.v ===== *)
(** Every request keeps [held], and what follows for all that the driver can
    reach. *)
From stdpp Require Import relations.
From S2P Require Import Prelude.
From S2P Require Import Rc.
From S2P Require Import Mem.
From S2P Require Import Mmu.
From S2P Require Import Space.
From S2P Require Import Host.
From S2P Require Import Frames.
From S2P Require Import FramesOk.
From S2P Require Import Kload.
From S2P Require Import Partial.
From S2P Require Import Handles.
From S2P Require Import HandlesOk.
#[local] Open Scope Z_scope.

Section requests.
Context {OS : Type} `{HostLaws OS} {UM : Type} `{UserMemLaws UM}.
Implicit Types (s : @sys OS UM) (go : thread (@sys OS UM)) (sl : co_manager_kmap_slice_t).

(** ** Undoing *)

Lemma hsafe_unmap sl (l : list co_manager_kmap_slice_t) go r r' :
  hsafe (co_manager_kmap_unmap_list l go) r' ->
  h_slices r ++ h_evicted r ≡ₚ sl :: h_slices r' ++ h_evicted r' ->
  (forall P : co_manager_kmap_slice_t -> Prop, Forall P (h_slices r) -> Forall P (h_slices r')) ->
  h_put r' = h_put r -> (h_slices r' <> [] -> h_slices r <> []) -> h_locked r' = h_locked r ->
  hsafe (co_manager_kmap_unmap_list (sl :: l) go) r.
Proof using.
  intros Hgo Hs HP Hput Hne Hlk. apply hsafe_sect. intros s R Hok. pose proof Hok as Hh. unfold held in Hh.
  assert (sl_handle sl <> 0) as Hnz.
  { intros E. destruct (held_handle _ _ _ _ sl Hh) as [m Hm].
    - unfold recorded. simpl. assert (sl ∈ h_slices r ++ h_evicted r) by (rewrite Hs; left). set_solver.
    - rewrite E, (he_nonzero _ _ _ _ Hh) in Hm. done. }
  rewrite (proj2 (Z.eqb_neq _ _) Hnz). cbn [negb]. apply wlp_user. intros [] u [= <-].
  exists r'. split; [|done].
  destruct (law_userspace_unmap (sl_user_va sl) (sl_handle sl) (sl_pages sl) (s_um s)) as [Em El].
  eapply (held_unmap _ (s_um s)); [exact Hh|exact Em|exact El|exact Hs|apply HP|done| |done].
  intros Hr'. rewrite Hput. pose proof (he_put _ _ _ _ Hh) as [Hp _]%Forall_cons. auto.
Qed.

Lemma hsafe_unmap_list l put go :
  hsafe go (Hold [] put [] []) -> hsafe (co_manager_kmap_unmap_list l go) (Hold l put [] []).
Proof using.
  intros Hgo. induction l as [|sl l IH]; [done|].
  eapply hsafe_unmap; [exact IH|..]; simpl; try done. intros P. by intros [_ ?]%Forall_cons.
Qed.

Lemma hsafe_put put go :
  hsafe go nothing -> hsafe (put_reservation put go) (Hold [] put [] []).
Proof using.
  intros Hgo. destruct put; [|done]. apply hsafe_sect. intros s R Hok. apply wlp_loader.
  pose proof (he_maps _ _ _ _ Hok) as Hm. rewrite cnt_cons in Hm. simpl in Hm.
  eapply wlp_mono; [apply (wlp_put (s_world s) (fun _ _ => True)); [done|lia]| |done].
  intros [] w (Em & Eb & Eb0). exists nothing. split; [|done]. by apply (held_put (w_kl (s_world s)) _ _ _ _ _ Hok).
Qed.

Lemma hsafe_undo_window w l go :
  hsafe go (Hold [] false [] l) -> hsafe (undo_window w go) (Hold [] false [] (wn_handle w :: l)).
Proof using.
  intros Hgo. apply hsafe_loader; [apply keeps_window_unmap|]. intros _. apply hsafe_sect. intros s R Hok.
  apply wlp_user. intros [] u [= <-]. exists (Hold [] false [] l). split; [|done].
  destruct (law_unlock_pages (wn_handle w) (s_um s)) as [El Em]. by eapply held_unlock.
Qed.

Lemma hsafe_undo_windows l go :
  hsafe go nothing -> hsafe (undo_windows l go) (Hold [] false [] (wn_handle <$> l)).
Proof using. intros Hgo. induction l as [|w l IH]; [done|]. by apply hsafe_undo_window. Qed.

(** ** Sections on a descriptor *)

Lemma hsafe_local {A} opened (m : M (@sys OS UM) A) (go : A -> thread (@sys OS UM)) r :
  (forall s D R, local opened D (fun k u d => held_by k u (d :: D) (r :: R)) s ->
     wlp m (fun a s' => exists r', local opened D (fun k u d => held_by k u (d :: D) (r' :: R)) s' /\
                                   hsafe (go a) r') (fun _ _ => True) s) ->
  (forall s, s_desc s !! opened = None -> (m s).1 = Fault) ->
  hsafe (Sect m go) r.
Proof using.
  intros Hm Hf. apply hsafe_sect. intros s R Hok. destruct (s_desc s !! opened) as [d|] eqn:Hd.
  - pose proof (local_held s opened d (r :: R) Hd Hok) as Hl.
    eapply wlp_mono; [by apply Hm| |done]. intros a s' (r' & Hl' & Hgo). exists r'. split; [|done].
    by eapply held_local.
  - unfold wlp. specialize (Hf s Hd). destruct (m s) as [[?|?|] ?]; done.
Qed.

Lemma the_fault {A} opened (k : co_manager_open_desc -> M (@sys OS UM) A) s :
  s_desc s !! opened = None -> ((the opened ≫= k) s).1 = Fault.
Proof using. intros Hn. unfold mbind, M_bind, the. by rewrite Hn. Qed.

Lemma hsafe_take opened (go : list co_manager_kmap_slice_t * bool -> thread (@sys OS UM)) :
  (forall l put, hsafe (go (l, put)) (Hold l put [] [])) ->
  hsafe (Sect (take_slices opened) go) nothing.
Proof using.
  intros Hgo. apply (hsafe_local opened); [|intros s; apply the_fault]. intros s D R Hl.
  unfold take_slices. wlp_step. eapply wlp_the_local; [exact Hl|]. intros d Hl'. wlp_step.
  eapply (wlp_upd _ _ _ (fun k u d' => held_by k u (d' :: D) (Hold (kmap_slice d) (kmap_reserved d) [] [] :: R)));
    [exact Hl'| |].
  - intros k u d' [-> Hh]. by apply held_take.
  - intros s' Hs'. wlp_step. eexists. split; [exact Hs'|apply Hgo].
Qed.

Lemma hsafe_release_all opened go : hsafe go nothing -> hsafe (co_manager_window_release_all opened go) nothing.
Proof using.
  intros Hgo. unfold co_manager_window_release_all. case_match; [done|].
  apply (hsafe_local opened); [|intros s; apply the_fault]. intros s D R Hl.
  unfold take_windows. wlp_step. eapply wlp_the_local; [exact Hl|]. intros d Hl'. wlp_step.
  eapply (wlp_upd _ _ _ (fun k u d' => held_by k u (d' :: D) (Hold [] false [] (wn_handle <$> window d) :: R)));
    [exact Hl'| |].
  - intros k u d' [-> Hh]. eapply held_windows; [exact Hh| |done]. simpl. by rewrite app_nil_r.
  - intros s' Hs'. wlp_step. eexists. split; [exact Hs'|by apply hsafe_undo_windows].
Qed.

Lemma hsafe_release opened go : hsafe go nothing -> hsafe (co_manager_kmap_release opened go) nothing.
Proof using.
  intros Hgo. unfold co_manager_kmap_release. case_match; [done|]. apply hsafe_release_all.
  apply hsafe_take. intros l put. simpl. by apply hsafe_unmap_list, hsafe_put.
Qed.

Lemma hsafe_unmap_range opened pa (go : co_rc_value_t * Z -> thread (@sys OS UM)) :
  (forall x, hsafe (go x) nothing) -> hsafe (co_manager_kmap_unmap_range opened pa go) nothing.
Proof using.
  intros Hgo. unfold co_manager_kmap_unmap_range. case_match; [done|].
  apply (hsafe_local opened); [|intros s; apply the_fault]. intros s D R Hl.
  unfold unmap_range_locked. wlp_step. eapply wlp_the_local; [exact Hl|]. intros d Hl'.
  destruct (unlink _ (kmap_slice d)) as [[sl l]|] eqn:Hu.
  - apply unlink_perm in Hu as [Hperm _]. wlp_step.
    eapply (wlp_upd _ _ _ (fun k u d' => held_by k u (d' :: D) (Hold [] false [sl] [] :: R)));
      [exact Hl'| |].
    + intros k u d' [-> Hh]. by eapply held_evict.
    + intros s' Hs'. wlp_step. eexists. split; [exact Hs'|].
      eapply hsafe_unmap; [apply Hgo|..]; try done.
  - wlp_step. exists nothing. split; [|done]. eapply local_mono; [exact Hl'|]. by intros k u d' [-> ?].
Qed.

Lemma hsafe_window_release opened pa pages (go : co_rc_value_t -> thread (@sys OS UM)) :
  (forall x, hsafe (go x) nothing) -> hsafe (co_manager_window_release opened pa pages go) nothing.
Proof using.
  intros Hgo. unfold co_manager_window_release. case_match; [done|].
  apply (hsafe_local opened); [|intros s; apply the_fault]. intros s D R Hl.
  unfold window_unlink. wlp_step. eapply wlp_the_local; [exact Hl|]. intros d Hl'.
  destruct (unlink _ (window d)) as [[w l]|] eqn:Hu.
  - apply unlink_perm in Hu as [Hperm _]. wlp_step.
    eapply (wlp_upd _ _ _ (fun k u d' => held_by k u (d' :: D) (Hold [] false [] [wn_handle w] :: R)));
      [exact Hl'| |].
    + intros k u d' [-> Hh].
      pose proof (he_desc _ _ _ _ Hh) as [[_ Hw _] _]%Forall_cons.
      eapply held_windows; [exact Hh| |].
      * rewrite Hperm. simpl. rewrite app_nil_r. symmetry. apply Permutation_cons_append.
      * rewrite Hw, Hperm. simpl. lia.
    + intros s' Hs'. wlp_step. eexists. split; [exact Hs'|]. by apply hsafe_undo_window.
  - wlp_step. exists nothing. split; [|done]. eapply local_mono; [exact Hl'|]. by intros k u d' [-> ?].
Qed.

(** ** Windows made *)

Lemma hsafe_malloc bytes (go : bool -> thread (@sys OS UM)) r :
  (forall b, hsafe (go b) r) -> hsafe (Sect (co_os_malloc bytes) go) r.
Proof using. intros Hgo. by apply hsafe_loader; [apply keeps_host|]. Qed.

Lemma hsafe_track opened w go :
  opened <> 0 -> hsafe go nothing ->
  hsafe (co_manager_window_track opened w go) (Hold [] false [] [wn_handle w]).
Proof using.
  intros Ho Hgo. unfold co_manager_window_track. rewrite (proj2 (Z.eqb_neq _ _) Ho).
  apply hsafe_malloc. intros []; cbn [negb]; [|by apply hsafe_undo_window].
  apply (hsafe_local opened); [|intros s; apply the_fault]. intros s D R Hl.
  eapply (wlp_upd _ _ _ (fun k u d' => held_by k u (d' :: D) (nothing :: R))); [exact Hl| |].
  - intros k u d Hh. pose proof (he_desc _ _ _ _ Hh) as [[_ Hw _] _]%Forall_cons.
    eapply held_windows; [exact Hh| |simpl; lia]. simpl. rewrite app_nil_r. apply Permutation_cons_append.
  - intros s' Hs'. by exists nothing.
Qed.

Lemma hsafe_unlock h go : hsafe go nothing ->
  hsafe (Sect (user_do (co_os_user_unlock_pages h)) (fun _ => go)) (Hold [] false [] [h]).
Proof using.
  intros Hgo. apply hsafe_sect. intros s R Hok. apply wlp_user. intros [] u [= <-]. exists nothing. split; [|done].
  destruct (law_unlock_pages h (s_um s)) as [El Em]. by eapply held_unlock.
Qed.

Lemma hsafe_kwindow opened va bytes place (go : co_rc_value_t * Z -> thread (@sys OS UM)) :
  opened <> 0 -> (forall pfns count, keeps counts (place pfns count)) ->
  (forall x, hsafe (go x) nothing) -> hsafe (kwindow opened va bytes place go) nothing.
Proof using.
  intros Ho Hplace Hgo. apply hsafe_sect. intros s R Hok. apply wlp_user. intros a u Ha.
  pose proof (law_lock_pages va bytes (s_um s)) as Hlaw. rewrite Ha in Hlaw.
  destruct a as [[h pfns]|rc].
  - destruct Hlaw as (Hn & El & Em). exists (Hold [] false [] [h]). split; [by eapply held_lock|].
    apply hsafe_sect. intros s' R' Hok'. apply wlp_attempt, wlp_loader. eapply wlp_mono; [apply Hplace|..].
    + intros pseudo w E. eexists. split; [|by apply (hsafe_track opened (Window h (Z.of_nat (length pfns)) pseudo))].
      unfold counts in E. simplify_eq. by eapply (held_by_core (w_kl (s_world s'))).
    + intros rc w E. eexists. split; [|by apply hsafe_unlock].
      unfold counts in E. simplify_eq. by eapply (held_by_core (w_kl (s_world s'))).
  - destruct Hlaw as [Em El]. exists nothing. split; [|done].
    destruct Hok as [Im Ih In Ib Ip Id Iu Il]. split; simpl; rewrite ?Em, ?El; try done.
    eapply Forall_impl; [exact Ip|]. intros sl Hsl. eapply pinned_mono; [exact Hsl|done|done|by rewrite Em].
Qed.

(** ** Slices made *)

(** A descriptor with a reservation, and blocks that stay as they were. *)
Definition reserving opened D R (c : Z * gmap Z co_kload_block_t * Z) : @sys OS UM -> Prop :=
  fun s => local opened D (fun k u d => held_by k u (d :: D) (nothing :: R) /\ kmap_reserved d = true) s /\
           counts (s_world s) = c.

Lemma answer_block_counts (w w' : world OS) b :
  counts w' = counts w -> answer_block (w_kl w) b -> answer_block (w_kl w') b.
Proof using.
  unfold counts. intros E (i & Hi & Hv & Hb). injection E as _ Eb Ec.
  exists i. unfold block_at in *. rewrite Eb, Ec. auto.
Qed.

Lemma pages_exact bytes :
  0 < bytes <= CO_KMAP_SLICE_BYTES -> page_off bytes = 0 ->
  bytes = ulong (Z.shiftr bytes CO_ARCH_PAGE_SHIFT) * CO_ARCH_PAGE_SIZE /\
  0 < ulong (Z.shiftr bytes CO_ARCH_PAGE_SHIFT).
Proof using.
  change CO_KMAP_SLICE_BYTES with 12582912. intros Hb Hoff. rewrite page_off_eq in Hoff by lia.
  change CO_ARCH_PAGE_SHIFT with 12. change CO_ARCH_PAGE_SIZE with (2 ^ 12).
  rewrite Z.shiftr_div_pow2 by done. change (2 ^ 12) with 4096 in *.
  unfold ulong, u32. rewrite Z.mod_small; Z.div_mod_to_equations; lia.
Qed.

Lemma wlp_malloc bytes (Q : bool -> @sys OS UM -> Prop) E s :
  (forall b w, counts w = counts (s_world s) ->
     Q b (Sys w (s_um s) (s_desc s) (manager_opens s) (num_opens s))) ->
  wlp (co_os_malloc bytes) Q E s.
Proof using.
  intros HQ. unfold co_os_malloc. apply wlp_loader. unfold host, wlp.
  destruct (host_malloc bytes (w_os (s_world s))) as [b os]. by apply HQ.
Qed.

Lemma wlp_add opened D R c bva bpa bbytes off bytes s :
  reserving opened D R c s -> answer_block (w_kl (s_world s)) (bva, bpa, bbytes) ->
  0 <= off -> 0 < bytes <= CO_KMAP_SLICE_BYTES -> off + bytes <= bbytes ->
  wlp (co_manager_kmap_add_locked opened (bva + off) (bpa + off) bytes)
    (fun _ => reserving opened D R c) (fun _ => reserving opened D R c) s.
Proof using.
  intros Hs Hblock Hoff Hbytes Hfit. unfold co_manager_kmap_add_locked. wlp_step. wlp_step; [done|].
  destruct (pages_exact bytes Hbytes ltac:(done)) as [Hpages Hpos].
  wlp_step. apply wlp_malloc. intros node w Ew.
  assert (reserving opened D R c (Sys w (s_um s) (s_desc s) (manager_opens s) (num_opens s))) as Hs1.
  { destruct Hs as [(d & Hd & HD & Hh & Hr) Hc]. split; [|by cbn; rewrite Ew]. exists d.
    split_and!; [done|done| |done]. unfold counts in Ew. simplify_eq. by eapply (held_by_core (w_kl (s_world s))). }
  apply (answer_block_counts _ w) in Hblock; [|done]. clear Hs Ew.
  wlp_step. wlp_step; [done|]. wlp_step. apply wlp_user. cbn [s_um s_world s_desc manager_opens num_opens].
  intros a u Ha. pose proof (law_userspace_map (bva + off) (ulong (Z.shiftr bytes CO_ARCH_PAGE_SHIFT)) (s_um s)) as Hlaw.
  rewrite Ha in Hlaw. destruct Hs1 as [(d & Hd & HD & Hh & Hr) Hc]. destruct a as [[uva h]|].
  - destruct Hlaw as (Hnz & Hn & Em & El). set (sl := Slice h uva _ (bpa + off) bytes).
    wlp_step. unfold upd. wlp_step. apply wlp_the. intros d' Hd'. cbn in Hd, Hd'. rewrite Hd in Hd'. injection Hd' as <-.
    wlp_step. wlp_step. split; [|done]. eexists. split; [apply lookup_insert_eq|].
    split; [rewrite <- HD; unfold others; cbn; by rewrite delete_insert_eq|]. cbn.
    split; [|done]. cbn in Hh.
    eapply (held_add _ _ _ _ _ _ _ sl); [exact Hh|exact Hr|exact Hnz|exact Hn|exact Em|exact El|].
    destruct Hblock as (i & Hi & Hv & Hb). exists i. cbn zeta. injection Hb as -> -> ->.
    unfold sl; cbn [sl_handle sl_user_va sl_pages sl_pa sl_bytes].
    split_and!; try done; try lia. rewrite Em, lookup_insert_eq. repeat f_equal. lia.
  - destruct Hlaw as [Em El]. wlp_step. split; [|done]. exists d. cbn in *. split_and!; try done.
    destruct Hh as [Im Ih In Ib Ip Id Iu Il]. split; rewrite ?Em, ?El; try done.
    eapply Forall_impl; [exact Ip|]. intros x Hx. eapply pinned_mono; [exact Hx|done|done|by rewrite Em].
Qed.

Lemma reserving_local opened D R c s :
  reserving opened D R c s -> local opened D (fun k u d => held_by k u (d :: D) (nothing :: R)) s.
Proof using. intros [Hl _]. eapply local_mono; [exact Hl|]. by intros k u d [? _]. Qed.

Lemma wlp_range_fill opened D R c pa s :
  reserving opened D R c s ->
  wlp (kmap_range_fill opened pa) (fun _ => reserving opened D R c) (fun _ => reserving opened D R c) s.
Proof using.
  intros Hs. unfold kmap_range_fill. wlp_step. apply wlp_loader.
  assert (blocks_unsigned (w_kl (s_world s))) as Hu.
  { destruct Hs as [(d & _ & _ & Hh & _) _]. apply (he_blocks _ _ _ _ Hh). }
  assert (Sys (s_world s) (s_um s) (s_desc s) (manager_opens s) (num_opens s) = s) as Eta by (by destruct s).
  eapply wlp_mono; [apply (wlp_block_for_pa _ _ (fun _ w => w = s_world s)); done| |].
  - intros [[bva bpa] bbytes] w (-> & Hb & Hlo & Hhi). cbn [fst snd] in *. rewrite Eta.
    destruct Hb as (i & Hi & Hv & Eb). destruct (Hu i Hi) as [Hu1 Hu2]. injection Eb as -> -> ->.
    change CO_KMAP_SLICE_BYTES with 12582912 in *.
    assert (u64 (pseudo_base (block_at (w_kl (s_world s)) i) + block_bytes (block_at (w_kl (s_world s)) i)) <=
      pseudo_base (block_at (w_kl (s_world s)) i) + block_bytes (block_at (w_kl (s_world s)) i)).
    { unfold u64. apply Z.mod_le; lia. }
    apply (wlp_add _ _ _ _ _ _ (block_bytes (block_at (w_kl (s_world s)) i)));
      [done|by exists i|Z.div_mod_to_equations; lia|..];
      change CO_KMAP_SLICE_BYTES with 12582912; case_match; zbool; Z.div_mod_to_equations; lia.
  - intros rc w ->. by rewrite Eta.
Qed.

Lemma wlp_reserve opened D R s :
  local opened D (fun k u d => held_by k u (d :: D) (nothing :: R) /\ kmap_reserved d = false) s ->
  wlp (loader co_kload_user_map_try_get) (fun ok s' => if ok : bool
      then wlp (upd opened (with_reserved true)) (fun _ s'' => exists c, reserving opened D R c s'')
             (fun _ _ => False) s'
      else local opened D (fun k u d => held_by k u (d :: D) (nothing :: R)) s')
    (fun _ _ => False) s.
Proof using.
  intros (d & Hd & HD & Hh & Hr). apply wlp_loader.
  unfold co_kload_user_map_try_get, kl, kset. do 2 wlp_step.
  destruct (_ && _)%bool; do 3 wlp_step.
  - unfold upd. wlp_step. apply wlp_the. intros d' Hd'. cbn in Hd'. rewrite Hd in Hd'. injection Hd' as <-.
    wlp_step. eexists. split; [|reflexivity]. exists (with_reserved true d).
    split; [apply lookup_insert_eq|]. split; [rewrite <- HD; unfold others; cbn; by rewrite delete_insert_eq|].
    split; [|done]. by eapply held_reserve.
  - by exists d.
Qed.

Lemma hsafe_kmap_range opened pa (go : range_answer -> thread (@sys OS UM)) :
  (forall x, hsafe (go x) nothing) -> hsafe (co_manager_kmap_range opened pa go) nothing.
Proof using.
  intros Hgo. unfold co_manager_kmap_range. case_match; [done|].
  apply hsafe_loader; [apply keeps_kl|]. intros []; [done|].
  apply (hsafe_local opened); [|intros s; apply the_fault]. intros s D R Hl. unfold kmap_range_locked.
  wlp_step. eapply wlp_the_local; [exact Hl|]. intros d Hd. wlp_step.
  apply (wlp_mono _ (fun took s' => match took with
    | None => local opened D (fun k u d => held_by k u (d :: D) (nothing :: R)) s'
    | Some _ => exists c, reserving opened D R c s' end) _ (fun _ _ => False)); [| |done].
  - destruct (kmap_reserved d) eqn:Hr.
    + wlp_step. eexists. split; [|done]. eapply local_mono; [exact Hd|]. intros k u d' [-> ?]. done.
    + wlp_step. eapply wlp_mono; [apply wlp_reserve; eapply local_mono; [exact Hd|]|..]; [by intros k u d' [-> ?]| |done].
      intros [] s'; [|done]. intros Hs'. wlp_step. eapply wlp_mono; [exact Hs'| |done]. intros [] s'' Hs''. done.
  - intros [took|] s' Hs'; [|wlp_step; exists nothing; split; [exact Hs'|apply Hgo]]. destruct Hs' as [c Hs'].
    destruct (co_manager_kmap_find d pa); [wlp_step; exists nothing; split; [by eapply reserving_local|apply Hgo]|].
    wlp_step. wlp_step. eapply wlp_mono; [by apply wlp_range_fill|..].
    + intros sl s'' Hs''. wlp_step. exists nothing. split; [eapply reserving_local, Hs''|apply Hgo].
    + intros rc s'' [Hs'' _]. wlp_step. eapply wlp_the_local; [exact Hs''|]. intros d2 Hd2.
      wlp_step.
      * wlp_step. eapply (wlp_upd _ _ _ (fun k u d' => held_by k u (d' :: D) (Hold [] true [] [] :: R))); [exact Hd2| |].
        { intros k u d' [-> [Hh Hr]]. by apply held_unreserve. }
        intros s3 Hs3. wlp_step. eexists. split; [exact Hs3|]. by apply (hsafe_put true).
      * wlp_step. exists nothing. split; [|apply Hgo]. eapply local_mono; [exact Hd2|]. by intros k u d' [-> [? _]].
Qed.

Lemma slice_bytes_range max : 0 < kmap_slice_bytes max <= CO_KMAP_SLICE_BYTES.
Proof using.
  unfold kmap_slice_bytes. set (b := if _ || _ then _ else _).
  assert (4096 <= b <= CO_KMAP_SLICE_BYTES) as Hb.
  { change CO_KMAP_SLICE_BYTES with 12582912 in *. change CO_ARCH_PAGE_SIZE with 4096 in *.
    unfold b. repeat case_match; zbool; lia. }
  change CO_KMAP_SLICE_BYTES with 12582912 in *.
  rewrite land_page_mask by lia. Z.div_mod_to_equations. lia.
Qed.

Lemma wlp_off_loop opened D R (w0 : world OS) slice_bytes bva bpa bbytes got s :
  reserving opened D R (counts w0) s -> answer_block (w_kl w0) (bva, bpa, bbytes) ->
  0 < slice_bytes <= CO_KMAP_SLICE_BYTES ->
  wlp (mloop (kmap_off_step opened slice_bytes bva bpa bbytes) (0, got))
    (fun _ => reserving opened D R (counts w0)) (fun _ => reserving opened D R (counts w0)) s.
Proof using.
  intros Hs Hb Hsl. apply (wlp_mloop _ (fun st s' => reserving opened D R (counts w0) s' /\ 0 <= st.1)).
  - intros [off got'] s' [Hs' Hoff]. cbn [fst] in *. unfold kmap_off_step.
    wlp_step; [by wlp_step|]. wlp_step. wlp_step; [done|]. wlp_step.
    eapply wlp_mono; [eapply (wlp_add _ _ _ _ _ _ bbytes)|..].
    + exact Hs'.
    + eapply answer_block_counts; [apply Hs'|done].
    + done.
    + case_match; zbool; lia.
    + case_match; zbool; lia.
    + intros sl s'' Hs''. wlp_step. split; [exact Hs''|cbn; lia].
    + done.
  - done.
Qed.

Lemma wlp_block_loop opened D R c slice_bytes blocks s :
  reserving opened D R c s -> 0 < slice_bytes <= CO_KMAP_SLICE_BYTES ->
  wlp (mloop (kmap_block_step opened slice_bytes blocks) (0, []))
    (fun _ => reserving opened D R c) (fun _ => reserving opened D R c) s.
Proof using.
  intros Hs Hsl. apply (wlp_mloop _ (fun _ => reserving opened D R c)); [|done].
  clear Hs s. intros [i got] s Hs. unfold kmap_block_step. wlp_step; [by wlp_step|].
  assert (Sys (s_world s) (s_um s) (s_desc s) (manager_opens s) (num_opens s) = s) as Eta by (by destruct s).
  wlp_step. wlp_step. apply wlp_loader.
  eapply wlp_mono; [apply (wlp_block _ _ (fun _ w => w = s_world s)); done| |].
  - intros [[bva bpa] bbytes] w [-> Hb]. rewrite Eta. wlp_step.
    destruct Hs as [Hs <-]. eapply wlp_mono; [by apply wlp_off_loop| |done].
    intros got' s' Hs'. by wlp_step.
  - intros rc w ->. rewrite Eta. by wlp_step.
Qed.

Lemma hsafe_kmap opened max (go : co_rc_value_t * list co_manager_kmap_slice_t -> thread (@sys OS UM)) :
  (forall x, hsafe (go x) nothing) -> hsafe (co_manager_kmap opened max go) nothing.
Proof using.
  intros Hgo. unfold co_manager_kmap. case_match; [done|].
  apply hsafe_loader; [apply keeps_kl|]. intros []; [done|].
  apply (hsafe_local opened); [|intros s; apply the_fault]. intros s D R Hl. unfold kmap_locked.
  wlp_step. eapply wlp_the_local; [exact Hl|]. intros d Hd. wlp_step.
  { wlp_step. exists nothing. split; [exact Hl|apply Hgo]. }
  wlp_step. wlp_step.
  apply (wlp_mono _ (fun _ => local opened D (fun k u d => held_by k u (d :: D) (nothing :: R))) _
           (fun _ => local opened D (fun k u d => held_by k u (d :: D) (nothing :: R)))).
  - unfold kmap_fill. wlp_step. eapply wlp_mono; [apply wlp_reserve; eapply local_mono; [exact Hd|]|..];
      [by intros k u d' [-> ?]| |done].
    intros [] s1 Hs1; wlp_step; wlp_step; [done| |exact Hs1|done].
    wlp_step. eapply wlp_mono; [exact Hs1| |done]. intros [] s2 [c Hs2].
    wlp_step. apply wlp_loader. unfold co_kload_block_count, kl. wlp_step.
    assert (Sys (s_world s2) (s_um s2) (s_desc s2) (manager_opens s2) (num_opens s2) = s2) as -> by (by destruct s2).
    wlp_step. eapply wlp_mono; [apply wlp_block_loop; [exact Hs2|apply slice_bytes_range]|..].
    + intros got s3 Hs3. wlp_step. wlp_step; [eapply reserving_local, Hs3|]. wlp_step. eapply reserving_local, Hs3.
    + intros rc s3 Hs3. eapply reserving_local, Hs3.
  - intros got s1 Hs1. wlp_step. exists nothing. split; [exact Hs1|apply Hgo].
  - intros rc s1 Hs1. wlp_step. eapply wlp_the_local; [exact Hs1|]. intros d1 Hd1. wlp_step.
    eapply (wlp_upd _ _ _ (fun k u d' => held_by k u (d' :: D) (Hold (kmap_slice d1) (kmap_reserved d1) [] [] :: R)));
      [exact Hd1| |].
    + intros k u d' [-> Hh]. by apply held_take.
    + intros s2 Hs2. wlp_step. eexists. split; [exact Hs2|]. by apply hsafe_unmap_list, hsafe_put.
Qed.

(** ** Descriptors come and go *)

Lemma held_nothing k u D R : held_by k u D (nothing :: R) <-> held_by (UM := UM) k u D R.
Proof using.
  split; intros [Im Ih In Ib Ip Id Iu Il]; split; try done.
  - by apply Forall_cons in Iu as [_ ?].
  - by constructor.
Qed.

(** A descriptor that holds nothing may appear and vanish. *)
Lemma held_empty k u d D R :
  let_go d -> desc_ok d -> held_by (UM := UM) k u (d :: D) R <-> held_by k u D R.
Proof using.
  intros (Hs & Hr & Hw) Hd.
  assert (recorded (d :: D) R = recorded D R) as Er by (unfold recorded; cbn; by rewrite Hs).
  assert ((d :: D) ≫= window = D ≫= window) as Ew by (cbn; by rewrite Hw).
  split; intros [Im Ih In Ib Ip Id Iu Il]; split; try done.
  - by rewrite Im, cnt_cons, Hr.
  - by rewrite Er in Ih.
  - by rewrite Er in Ip.
  - by apply Forall_cons in Id as [_ ?].
  - by rewrite Ew in Il.
  - by rewrite Im, cnt_cons, Hr.
  - by rewrite Er.
  - by rewrite Er.
  - by constructor.
  - by rewrite Ew.
Qed.

(** What a descriptor holds does not depend on its life. *)
Lemma held_life k u m a c d D R :
  held_by (UM := UM) k u (d :: D) R -> held_by k u (with_life m a c d :: D) R.
Proof using.
  intros [Im Ih In Ib Ip Id Iu Il]. split; try done.
  - by rewrite Im, !cnt_cons.
  - apply Forall_cons in Id as [[? ? ?] ?]. by constructor.
Qed.

Lemma held_set s o d d' R :
  s_desc s !! o = Some d -> held s R ->
  (held_by (w_kl (s_world s)) (s_um s) (d :: others s o) R ->
   held_by (w_kl (s_world s)) (s_um s) (d' :: others s o) R) -> held (put_desc o d' s) R.
Proof using.
  intros Hd Hh Hstep. unfold held. eapply held_by_perm; [symmetry; apply descs_set|done|].
  apply Hstep. eapply held_by_perm; [by apply descs_split|done|done].
Qed.

Lemma hsafe_open fresh lock os (go : Z + co_rc_value_t -> thread (@sys OS UM)) :
  (forall x, hsafe (go x) nothing) -> hsafe (Sect (attempt (co_manager_open fresh lock os)) go) nothing.
Proof using.
  intros Hgo. apply hsafe_sect. intros s R Hok. unfold co_manager_open. wlp_step. wlp_step. apply wlp_malloc. intros node w Ew.
  set (s1 := Sys w (s_um s) (s_desc s) (manager_opens s) (num_opens s)).
  assert (held s1 (nothing :: R)) as Hok1.
  { unfold counts in Ew. simplify_eq. by apply (held_by_core (w_kl (s_world s))). }
  clearbody s1. clear s w Hok Ew. wlp_step. wlp_step; [by exists nothing|]. do 4 wlp_step.
  match goal with E : bool_decide _ = true |- _ => apply bool_decide_eq_true in E as [Hfresh Hnz] end.
  do 2 wlp_step; [by exists nothing|]. do 2 wlp_step; [by exists nothing|]. do 3 wlp_step.
  exists nothing. split; [|apply Hgo]. unfold held, descs. cbn.
  eapply held_by_perm; [symmetry; rewrite map_to_list_insert by done; reflexivity|done|].
  cbn. by apply held_empty.
Qed.

Lemma hsafe_ref o (go : unit + co_rc_value_t -> thread (@sys OS UM)) :
  (forall x, hsafe (go x) nothing) -> hsafe (Sect (attempt (co_manager_open_ref o)) go) nothing.
Proof using.
  intros Hgo. apply hsafe_sect. intros s R Hok. unfold co_manager_open_ref. wlp_step. wlp_step. apply wlp_the. intros d Hd.
  wlp_step. wlp_step; [by exists nothing|]. unfold upd. wlp_step. apply wlp_the. intros d' Hd'.
  rewrite Hd in Hd'. injection Hd' as <-. wlp_step. exists nothing. split; [|apply Hgo].
  eapply held_set; [exact Hd|exact Hok|apply held_life].
Qed.

(** What a descriptor that goes leaves behind. *)
Lemma held_spill k u d D R :
  held_by (UM := UM) k u (d :: D) R ->
  held_by k u D (Hold (kmap_slice d) (kmap_reserved d) [] (wn_handle <$> window d) :: R).
Proof using.
  intros [Im Ih In Ib Ip Id Iu Il]. apply Forall_cons in Id as [[_ _ Hr] Id].
  set (r1 := Hold _ _ _ _).
  assert (recorded D (r1 :: R) ≡ₚ recorded (d :: D) R) as Er by (unfold recorded; cbn; solve_Permutation). split; try done.
  - rewrite Im, !cnt_cons. cbn. lia.
  - cbn. by rewrite Er.
  - by rewrite Er.
  - constructor; [|done]. cbn. intros Hne. destruct (kmap_reserved d); [done|]. by rewrite Hr in Hne.
  - rewrite <- Il. cbn. rewrite fmap_app. solve_Permutation.
Qed.

(** What [co_manager_close] does: the count goes down; at zero the descriptor
    goes. *)
Definition dropped o d s s' : Prop :=
  s_world s' = s_world s /\ s_um s' = s_um s /\
  s_desc s' = if ref_count d - 1 =? 0 then delete o (s_desc s)
              else <[o := with_life (magic d) (desc_active d) (ref_count d - 1) d]> (s_desc s).

Lemma close_run o d s :
  o <> 0 -> s_desc s !! o = Some d -> magic d = CO_MANAGER_OPEN_MAGIC ->
  exists s', co_manager_close o s = (Ret tt, s') /\ dropped o d s s'.
Proof using.
  intros Ho Hd Hm. unfold dropped.
  enough (wp (co_manager_close o) (fun _ s' => dropped o d s s') (fun _ _ => False) s) as Hw
    by (destruct (wp_total _ _ _ Hw) as ([] & s' & ? & ?); by exists s').
  unfold co_manager_close, co_manager_open_alive. rewrite (proj2 (Z.eqb_neq _ _) Ho).
  unfold wp, upd, the, modify, fail_if, mbind, M_bind, mret, M_ret. rewrite Hd, Hm, Z.eqb_refl. cbn [negb].
  rewrite Hd. cbn [s_desc put_desc]. rewrite lookup_insert_eq. cbn [ref_count with_life].
  unfold dropped. destruct (ref_count d - 1 =? 0) eqn:Hz; [|by rewrite ?Hm].
  unfold co_manager_close_, co_manager_open_alive. rewrite (proj2 (Z.eqb_neq _ _) Ho).
  unfold upd, the, modify, fail_if, mbind, M_bind, mret, M_ret. cbn [s_desc put_desc]. rewrite lookup_insert_eq.
  cbn [magic with_life]. rewrite ?Hm, ?Z.eqb_refl. cbn [negb s_desc put_desc]. rewrite lookup_insert_eq. cbn.
  split; [done|]. split; [done|]. by rewrite !delete_insert_eq.
Qed.

(** Or it is refused. *)
Lemma close_refused o s r s' :
  co_manager_close o s = (r, s') -> r <> Fault ->
  s' = s \/ exists d, o <> 0 /\ s_desc s !! o = Some d /\ r = Ret tt /\ dropped o d s s'.
Proof using.
  intros Hr Hnf. destruct (decide (o = 0)) as [->|Ho].
  { left. unfold co_manager_close, co_manager_open_alive, mbind, M_bind in Hr. cbn in Hr. by injection Hr as _ <-. }
  destruct (s_desc s !! o) as [d|] eqn:Hd.
  2: { unfold co_manager_close, co_manager_open_alive, the, mbind, M_bind in Hr.
       rewrite (proj2 (Z.eqb_neq _ _) Ho), Hd in Hr. by injection Hr as <- _. }
  destruct (decide (magic d = CO_MANAGER_OPEN_MAGIC)) as [Hm|Hm].
  - right. destruct (close_run o d s Ho Hd Hm) as (s1 & Hrun & Hdr). rewrite Hrun in Hr. injection Hr as <- <-. by exists d.
  - left. unfold co_manager_close, co_manager_open_alive, the, mbind, M_bind in Hr.
    rewrite (proj2 (Z.eqb_neq _ _) Ho), Hd, (proj2 (Z.eqb_neq _ _) Hm) in Hr. cbn in Hr. by injection Hr as _ <-.
Qed.

Lemma dropped_held o d s s' R :
  s_desc s !! o = Some d -> dropped o d s s' -> held s R ->
  exists L, held s' (L ++ R) /\ (tidy s s' -> L = []).
Proof using.
  intros Hd (Ew & Eu & Es) Hh.
  assert (held_by (w_kl (s_world s)) (s_um s) (d :: others s o) R) as Hs
    by (eapply held_by_perm; [by apply descs_split|done|done]).
  pose proof (he_desc _ _ _ _ Hs) as [Hdo _]%Forall_cons. destruct (ref_count d - 1 =? 0).
  - assert (descs s' = others s o) as Eo by (unfold descs, others; by rewrite Es).
    assert ((tidy s s' -> let_go d)) as Htd.
    { intros Ht. apply (Ht o d Hd). rewrite Es. apply lookup_delete_eq. }
    destruct (decide (kmap_slice d = [])) as [E1|N1]; [destruct (decide (kmap_reserved d = false)) as [E2|N2];
      [destruct (decide (window d = [])) as [E3|N3]|]|].
    { exists []. split; [|done]. unfold held. rewrite Eo, Ew, Eu. cbn. by apply (held_empty _ _ d). }
    all: eexists [_]; split; [unfold held; rewrite Eo, Ew, Eu; cbn; apply held_spill; exact Hs|];
      intros Ht; destruct (Htd Ht) as (? & ? & ?); congruence.
  - exists []. split; [|done]. cbn. unfold held. rewrite Ew, Eu. eapply held_by_perm; [|done|by apply held_life].
    unfold descs. rewrite Es. symmetry. etransitivity; [apply (descs_set s o)|done].
Qed.

Lemma closed_held o s r s' R :
  co_manager_close o s = (r, s') -> r <> Fault -> held s R ->
  exists L, held s' (L ++ R) /\ (tidy s s' -> L = []).
Proof using.
  intros Hr Hnf Hh. destruct (close_refused o s r s' Hr Hnf) as [->|(d & _ & Hd & _ & Hdr)];
    [by exists []|by eapply dropped_held].
Qed.

Lemma hsafe_cleanup o go : hsafe go nothing -> hsafe (co_manager_open_desc_deactive_and_close o go) nothing.
Proof using.
  intros Hgo. apply hsafe_sect. intros s R Hok.
  assert (hsafe (co_manager_kmap_release o (
    Sect (upd o (fun d => with_life (magic d) false (ref_count d) d)) (fun _ =>
    Sect (attempt (co_manager_close o)) (fun _ => go)))) nothing) as Hrel.
  { apply hsafe_release. apply (hsafe_local o); [|intros s1; apply the_fault]. intros s1 D R1 Hl.
    eapply (wlp_upd _ _ _ (fun k u d => held_by k u (d :: D) (nothing :: R1))); [exact Hl|intros; by apply held_life|].
    intros s2 Hs2. exists nothing. split; [exact Hs2|].
    intros s3 R3 Hok3. unfold wlp, attempt. destruct (co_manager_close o s3) as [r s4] eqn:Hr.
    assert (r <> Fault -> exists L, held s4 (nothing :: L ++ R3) /\ (tidy s3 s4 -> L = [])) as Hcl.
    { intros Hnf. destruct (closed_held o s3 r s4 (nothing :: R3) Hr Hnf Hok3) as (L & HL & Ht). exists L. split; [|done].
      eapply held_by_perm; [done| |exact HL]. by rewrite Permutation_middle. }
    destruct r as [[]|rc|]; [..|done]; (destruct Hcl as (L & HL & Ht); [done|]); by exists nothing, L. }
  unfold co_manager_open_alive. wlp_step; [wlp_step; by exists nothing|]. wlp_step. apply wlp_the. intros d _. wlp_step.
  exists nothing. split; [done|]. by destruct (magic d =? _).
Qed.

(** ** All that can happen *)

Lemma hsafe_handle o p : handle_request o p -> hsafe (OS := OS) (UM := UM) p nothing.
Proof using.
  intros [].
  - by apply hsafe_kmap.
  - by apply hsafe_kmap_range.
  - by apply hsafe_unmap_range.
  - unfold ioctl_kunmap. case_match; [done|]. apply hsafe_sect. intros s R Hok. apply wlp_the. intros d Hd.
    exists nothing. split; [done|]. by apply hsafe_release.
  - apply hsafe_kwindow; [done| |done]. intros. apply keeps_window_map.
  - apply hsafe_kwindow; [done| |done]. intros. apply keeps_bind; [apply keeps_window_map_at|done].
  - by apply hsafe_window_release.
Qed.

Theorem hsafe_request p : request p -> hsafe (OS := OS) (UM := UM) p nothing.
Proof using.
  intros [o q Hq|fresh lock os|o|o].
  - by eapply hsafe_handle.
  - by apply hsafe_open.
  - by apply hsafe_cleanup.
  - by apply hsafe_ref.
Qed.

(** The threads keep what is [held]; [L] is what descriptors that went have left. *)
Definition driver_holds (x : @driver OS UM) (L : list hold) : Prop :=
  exists rs, Forall2 hsafe (dr_threads x) rs /\ held (dr_sys x) (rs ++ L).
Definition driver_ok (x : @driver OS UM) : Prop := exists L, driver_holds x L.

Lemma driver_ok_loader s w' R :
  held s R -> loader_step (s_world s) w' ->
  held (Sys w' (s_um s) (s_desc s) (manager_opens s) (num_opens s)) R.
Proof using.
  intros Hh (Em & Hu & Hb). destruct (decide (0 < kload_user_maps (w_kl (s_world s)))) as [Hlt|Hge].
  - destruct (Hb Hlt). by eapply held_by_core.
  - destruct Hh as [Im Ih In Ib Ip Id Iu Il].
    assert (recorded (descs s) R = []) as E0 by (apply unreserved_nothing; [done|done|lia|lia]).
    unfold held. cbn. split; try done; [by rewrite Em|]. unfold descs in *. cbn. by rewrite E0.
Qed.

Lemma dstep_holds x x' L :
  dstep x x' -> driver_holds x L ->
  exists L', driver_holds x' (L' ++ L) /\ (tidy (dr_sys x) (dr_sys x') -> L' = []).
Proof using.
  intros Hstep (rs & Hts & Hh). destruct Hstep as [s s' ts t A m k a Ht Hm|s ts t p Ht Hp|s s' ts o r Hc Hr|s w' ts Hl];
    cbn [dr_sys dr_threads] in *.
  - destruct (Forall2_lookup_l _ _ _ _ _ Hts Ht) as (r & Hr & Hsafe).
    specialize (Hsafe s (delete t rs ++ L)). unfold wlp in Hsafe. rewrite Hm in Hsafe.
    destruct Hsafe as (r' & L' & Hh' & Htidy & Hk).
    { eapply held_by_perm; [done| |exact Hh]. change (r :: delete t rs ++ L) with ((r :: delete t rs) ++ L).
      by rewrite <- (delete_Permutation rs t r). }
    exists L'. split; [|done]. exists (<[t := r']> rs). split; [by apply Forall2_insert|]. cbn.
    eapply held_by_perm; [done| |exact Hh'].
    rewrite (delete_Permutation (<[t := r']> rs) t r'); [|by eapply list_lookup_insert_eq, lookup_lt_Some].
    rewrite delete_insert_list. cbn. constructor. solve_Permutation.
  - destruct (Forall2_lookup_l _ _ _ _ _ Hts Ht) as (r & Hr & ->).
    exists []. split; [|done]. exists rs. split; [|done]. cbn. rewrite <- (list_insert_id rs t nothing) by done.
    apply Forall2_insert; [done|by apply hsafe_request].
  - destruct (closed_held o s r s' (rs ++ L) Hc Hr Hh) as (L' & HL & Htidy). exists L'. split; [|done].
    exists rs. split; [done|]. eapply held_by_perm; [done| |exact HL]. solve_Permutation.
  - exists []. split; [|done]. exists rs. split; [done|]. by apply driver_ok_loader.
Qed.

Theorem driver_step x x' : dstep x x' -> driver_ok x -> driver_ok x'.
Proof using.
  intros Hs (L & HL). destruct (dstep_holds x x' L Hs HL) as (L' & HL' & _). by exists (L' ++ L).
Qed.
End requests.
