(* ===== verification/HandlesPin.v ===== *)
(** What follows for everything the driver can reach: a slice in a descriptor
    shows guest RAM that is still there; nothing is left over where handles are
    cleaned up in good order; and what [KMAP_RANGE] answers. *)
From stdpp Require Import relations.
From S2P Require Import Prelude.
From S2P Require Import Rc.
From S2P Require Import Mem.
From S2P Require Import Mmu.
From S2P Require Import Space.
From S2P Require Import Host.
From S2P Require Import Frames.
From S2P Require Import FramesOk.
From S2P Require Import Kload.
From S2P Require Import Loaded.
From S2P Require Import Teardown.
From S2P Require Import Partial.
From S2P Require Import Handles.
From S2P Require Import HandlesOk.
From S2P Require Import HandlesRun.

#[local] Open Scope Z_scope.

Section reached.
Context {OS : Type} `{HostLaws OS} {UM : Type} `{UserMemLaws UM}.
Implicit Types (s : @sys OS UM) (x : @driver OS UM).

(** Nothing is open, mapped or locked; any number of threads. *)
Record driver_start x : Prop := {
  ds_desc : s_desc (dr_sys x) = ∅;
  ds_maps : um_maps (s_um (dr_sys x)) = ∅;
  ds_locks : um_locks (s_um (dr_sys x)) = ∅;
  ds_user : kload_user_maps (w_kl (s_world (dr_sys x))) = 0;
  ds_blocks : blocks_unsigned (w_kl (s_world (dr_sys x)));
  ds_threads : Forall (fun t => t = Back) (dr_threads x);
}.

Lemma driver_started x : driver_start x -> driver_holds x [].
Proof using.
  intros [Hd Hm Hl Hu Hb Ht]. exists (map (fun _ => nothing) (dr_threads x)). rewrite app_nil_r. split.
  - induction Ht as [|t ts -> _ IH]; cbn; by constructor.
  - assert (forall X (f : hold -> list X), f nothing = [] ->
      map (fun _ => nothing) (dr_threads x) ≫= f = []) as Hnil.
    { intros X f Hf. apply bind_nil, Forall_map, Forall_true. done. }
    assert (descs (dr_sys x) = []) as Hd0 by (unfold descs; by rewrite Hd, map_to_list_empty).
    unfold held. rewrite Hd0. split; unfold recorded; rewrite ?Hnil; try done.
    + rewrite Hu. clear. induction (dr_threads x) as [|t ts IH]; [done|]. cbn [map]. by rewrite cnt_cons.
    + by rewrite Hm, map_to_list_empty.
    + by rewrite Hm, lookup_empty.
    + apply Forall_map, Forall_true. done.
    + by rewrite Hl, map_to_list_empty.
Qed.

Lemma driver_reached x0 x : driver_start x0 -> rtc dstep x0 x -> driver_ok x.
Proof using.
  intros Hs Hr. apply driver_started in Hs. assert (driver_ok x0) as Hok by (by exists []). clear Hs.
  induction Hr as [|x y z Hxy _ IH]; [done|].
  by eapply IH, driver_step.
Qed.

Lemma desc_in s o d : s_desc s !! o = Some d -> d ∈ descs s.
Proof using. intros Hd. unfold descs. apply list_elem_of_fmap. exists (o, d). split; [done|]. by apply elem_of_map_to_list. Qed.

Lemma cnt_elem {A} (f : A -> bool) a l : a ∈ l -> f a = true -> (0 < cnt f l)%nat.
Proof using.
  induction 1 as [a l|a b l Hin IH]; intros Hf; rewrite cnt_cons; [rewrite Hf; lia|].
  specialize (IH Hf). lia.
Qed.

Lemma held_slice k u D R d sl :
  held_by (UM := UM) k u D R -> d ∈ D -> sl ∈ kmap_slice d ->
  pinned k u sl /\ kmap_reserved d = true /\ 0 < kload_user_maps k.
Proof using.
  intros [Im Ih In Ib Ip Id Iu Il] Hd Hsl. rewrite Forall_forall in Ip. rewrite Forall_forall in Id.
  assert (kmap_reserved d = true) as Hr.
  { destruct (kmap_reserved d) eqn:E; [done|]. rewrite (do_reserved _ (Id d Hd) E) in Hsl. by apply not_elem_of_nil in Hsl. }
  split_and!; [|done|pose proof (cnt_elem kmap_reserved d D Hd Hr); lia].
  apply Ip. unfold recorded. apply elem_of_app. left. apply list_elem_of_bind. eauto.
Qed.

(** A teardown is one of the steps of the loader. *)
Lemma free_loader_step (w w' : world OS) :
  run_inv w -> blocks_unsigned (w_kl w) -> co_kload_free w = (Ret tt, w') -> loader_step w w'.
Proof using.
  intros Hi Hb Hrun. pose proof (wp_kload_free w (fun _ _ => False) Hi) as Ht. unfold wp in Ht.
  rewrite Hrun in Ht. destruct Ht as [[Hid ->]|[(Hp & w1 & (h & o & _ & _ & _ & ->) & ->)|(Hz & w1 & w2 & (h & o & _ & _ & _ & ->) & (b & -> & Hv) & ->)]].
  - by split_and!.
  - by split_and!.
  - split_and!; cbn; [done|intros i; cbn; lia|lia].
Qed.

(** C2: a slice of guest RAM in a process stays good. Whatever any number of
    threads ask the driver for through their handles, and however the loader's
    work falls between, every slice a handle records is a live mapping of a part
    of a block of guest RAM the loader still has, and the loader counts a
    reservation for it; that stays so through a teardown of the run, which
    leaves the blocks where they are. *)
Theorem handles_pin_ram x0 x o d sl :
  driver_start x0 -> rtc dstep x0 x ->
  s_desc (dr_sys x) !! o = Some d -> sl ∈ kmap_slice d ->
  let w := s_world (dr_sys x) in
  pinned (w_kl w) (s_um (dr_sys x)) sl /\ 0 < kload_user_maps (w_kl w) /\
  forall w', run_inv w -> co_kload_free w = (Ret tt, w') -> pinned (w_kl w') (s_um (dr_sys x)) sl.
Proof using.
  intros Hs Hr Hd Hsl w. destruct (driver_reached _ _ Hs Hr) as (L & rs & _ & Hh).
  destruct (held_slice _ _ _ _ d sl Hh (desc_in _ _ _ Hd) Hsl) as (Hp & _ & Hpos).
  split_and!; [done|done|]. intros w' Hi Hf.
  destruct (free_loader_step _ _ Hi (he_blocks _ _ _ _ Hh) Hf) as (_ & _ & Hkeep).
  destruct (Hkeep Hpos). by eapply pinned_mono.
Qed.

End reached.

(** ** Handles cleaned up in good order *)

Section good_order.
Context {OS : Type} `{HostLaws OS} {UM : Type} `{UserMemLaws UM}.
Implicit Types (s : @sys OS UM) (x : @driver OS UM) (ts : list (thread (@sys OS UM))) (g : list work) (C : gset Z) (rf : Z -> Z).

(** *** What a request on a handle touches *)

Definition life (d : co_manager_open_desc) : Z * Z := (magic d, ref_count d).

(** All but what the descriptor of [o] holds. *)
Definition rest (o : Z) s : gmap Z co_manager_open_desc * option (Z * Z) := (delete o (s_desc s), life <$> s_desc s !! o).

Lemma rest_loader {A} o (m : M (world OS) A) : keeps (rest o) (loader (UM := UM) m).
Proof using. intros s. unfold wlp, loader. by destruct (m (s_world s)) as [[a|rc|] w]. Qed.
Lemma rest_user {A} o (f : UM -> A * UM) : keeps (rest o) (user (OS := OS) f).
Proof using. intros s. unfold wlp, user. by destruct (f (s_um s)). Qed.
Lemma rest_the o : keeps (rest o) (the (OS := OS) (UM := UM) o).
Proof using. intros s. unfold wlp, the. by destruct (s_desc s !! o). Qed.
Lemma rest_upd o f : (forall d, life (f d) = life d) -> keeps (rest o) (upd (OS := OS) (UM := UM) o f).
Proof using.
  intros Hf s. unfold upd, the, modify, wlp, mbind, M_bind. destruct (s_desc s !! o) as [d|] eqn:Hd; [|done].
  unfold rest. cbn. rewrite delete_insert_eq, lookup_insert_eq, Hd. cbn. by rewrite Hf.
Qed.
End good_order.

Ltac rest_step :=
  lazymatch goal with
  | |- keeps _ (mret _) => apply keeps_ret
  | |- keeps _ (throw _) => apply keeps_throw
  | |- keeps _ (_ ≫= _) => apply keeps_bind; [|intros ?]
  | |- keeps _ (fail_if _ _) => apply keeps_fail_if
  | |- keeps _ (attempt _) => apply keeps_attempt
  | |- keeps _ (mloop _ _) => apply keeps_mloop; intros ?
  | |- keeps _ (loader _) => apply rest_loader
  | |- keeps _ (co_os_malloc _) => apply rest_loader
  | |- keeps _ (user _) => apply rest_user
  | |- keeps _ (user_do _) => apply rest_user
  | |- keeps _ (the _) => apply rest_the
  | |- keeps _ (upd _ _) => apply rest_upd; intros; reflexivity
  | |- keeps _ (match _ with _ => _ end) => case_match
  end.
Ltac rest_tac := repeat rest_step.

Section orderly_runs.
Context {OS : Type} `{HostLaws OS} {UM : Type} `{UserMemLaws UM}.
Implicit Types (s : @sys OS UM) (x : @driver OS UM) (ts : list (thread (@sys OS UM))) (g : list work) (C : gset Z) (rf : Z -> Z).

Fixpoint local_to (o : Z) (p : thread (@sys OS UM)) : Prop :=
  match p with
  | Back => True
  | Sect m k => keeps (rest o) m /\ forall a, local_to o (k a)
  end.

Lemma local_sect {A} o (m : M (@sys OS UM) A) k : keeps (rest o) m -> (forall a, local_to o (k a)) -> local_to o (Sect m k).
Proof using. done. Qed.
Lemma local_unmap_list o l k : local_to o k -> local_to o (co_manager_kmap_unmap_list l k).
Proof using. intros Hk. induction l as [|sl l IH]; cbn; [done|]. split; [rest_tac|done]. Qed.
Lemma local_put o put k : local_to o k -> local_to o (put_reservation put k).
Proof using. intros Hk. destruct put; [|done]. split; [rest_tac|done]. Qed.
Lemma local_undo o w k : local_to o k -> local_to o (undo_window w k).
Proof using. intros Hk. split; [rest_tac|]. intros _. by split; [rest_tac|]. Qed.
Lemma local_undo_all o l k : local_to o k -> local_to o (undo_windows l k).
Proof using. intros Hk. induction l as [|w l IH]; [done|]. by apply local_undo. Qed.
Lemma local_track o w k : local_to o k -> local_to o (co_manager_window_track o w k).
Proof using.
  intros Hk. unfold co_manager_window_track. case_match; [done|]. split; [rest_tac|]. intros node. case_match; [by apply local_undo|].
  by split; [rest_tac|].
Qed.
Lemma local_release o k : local_to o k -> local_to o (co_manager_kmap_release o k).
Proof using.
  intros Hk. unfold co_manager_kmap_release, co_manager_window_release_all. case_match; [done|].
  apply local_sect; [unfold take_windows; rest_tac|]. intros l. apply local_undo_all.
  apply local_sect; [unfold take_slices; rest_tac|]. intros r. by apply local_unmap_list, local_put.
Qed.
Lemma local_kwindow o va bytes place k :
  (forall r, local_to o (k r)) -> local_to o (kwindow o va bytes place k).
Proof using.
  intros Hk. split; [rest_tac|]. intros [[h pfns]|rc]; [|done]. split; [rest_tac|].
  intros [pseudo|rc]; [by apply local_track|]. by split; [rest_tac|].
Qed.

Lemma handle_local o p : handle_request o p -> local_to o p.
Proof using.
  intros [].
  - unfold co_manager_kmap. case_match; [done|]. split; [rest_tac|]. intros []; [done|].
    apply local_sect; [unfold kmap_locked, kmap_fill, kmap_block_step, kmap_off_step, co_manager_kmap_add_locked; rest_tac|].
    intros [|got|failed put]; [done..|]. by apply local_unmap_list, local_put.
  - unfold co_manager_kmap_range. case_match; [done|]. split; [rest_tac|]. intros []; [done|].
    apply local_sect; [unfold kmap_range_locked, kmap_range_fill, co_manager_kmap_add_locked; rest_tac|].
    intros r. by apply local_put.
  - unfold co_manager_kmap_unmap_range. case_match; [done|]. apply local_sect; [unfold unmap_range_locked; rest_tac|].
    intros [sl|]; [|done]. by apply local_unmap_list.
  - unfold ioctl_kunmap. case_match; [done|]. split; [rest_tac|]. intros d. by apply local_release.
  - by apply local_kwindow.
  - by apply local_kwindow.
  - unfold ioctl_kunwindow, co_manager_window_release. case_match; [done|].
    apply local_sect; [unfold window_unlink; rest_tac|]. intros [w|]; [|done]. by apply local_undo.
Qed.

Lemma keeps_ran {X A} (f : @sys OS UM -> X) (m : M (@sys OS UM) A) s a s' : keeps f m -> m s = (Ret a, s') -> f s' = f s.
Proof using. intros Hm Hr. specialize (Hm s). unfold wlp in Hm. by rewrite Hr in Hm. Qed.

(** *** The cleanup *)

(** Whatever has become of the magic, the flag and the count. *)
Definition steady (K : co_manager_open_desc -> Prop) : Prop := forall m a c d, K d -> K (with_life m a c d).

(** A cleanup that is alone with what the descriptor of [o] holds: between its
    sections that is [K], and at the reference it drops last nothing is held. *)
Fixpoint csafe (o : Z) (p : thread (@sys OS UM)) (K : co_manager_open_desc -> Prop) : Prop :=
  match p with
  | Back => False
  | Sect m k => forall s a s' d,
      s_desc s !! o = Some d -> magic d = CO_MANAGER_OPEN_MAGIC -> K d -> m s = (Ret a, s') ->
      (rest o s' = rest o s /\ exists K', csafe o (k a) K' /\ steady K' /\ (forall d', s_desc s' !! o = Some d' -> K' d')) \/
      (let_go d /\ k a = Back /\ s' = (co_manager_close o s).2)
  end.

(** A section that leaves the descriptors alone. *)
Lemma csafe_quiet {A} o (m : M (@sys OS UM) A) k K :
  keeps s_desc m -> steady K -> (forall a, csafe o (k a) K) -> csafe o (Sect m k) K.
Proof using.
  intros Hm HK Hk s a s' d Hd _ Hkd Hr. pose proof (keeps_ran _ _ _ _ _ Hm Hr) as E. left.
  split; [unfold rest; by rewrite E|]. exists K. split; [done|]. split; [done|]. intros d' Hd'. rewrite E, Hd in Hd'. by simplify_eq.
Qed.

Lemma desc_loader {A} (m : M (world OS) A) : keeps s_desc (loader (UM := UM) m).
Proof using. intros s. unfold wlp, loader. by destruct (m (s_world s)) as [[a|rc|] w]. Qed.
Lemma desc_user {A} (f : UM -> A * UM) : keeps s_desc (user (OS := OS) f).
Proof using. intros s. unfold wlp, user. by destruct (f (s_um s)). Qed.

Lemma csafe_unmap_list o l k K : steady K -> csafe o k K -> csafe o (co_manager_kmap_unmap_list l k) K.
Proof using.
  intros HK Hk. induction l as [|sl l IH]; [done|]. apply csafe_quiet; [|done|done].
  destruct (negb _); [apply desc_user|apply keeps_ret].
Qed.
Lemma csafe_put o put k K : steady K -> csafe o k K -> csafe o (put_reservation put k) K.
Proof using. intros HK Hk. destruct put; [|done]. apply csafe_quiet; [apply desc_loader|done|done]. Qed.
Lemma csafe_undo_windows o l k K : steady K -> csafe o k K -> csafe o (undo_windows l k) K.
Proof using.
  intros HK Hk. induction l as [|w l IH]; [done|]. apply csafe_quiet; [apply desc_loader|done|]. intros _.
  apply csafe_quiet; [apply desc_user|done|done].
Qed.

(** A section that changes what the descriptor holds and nothing else. *)
Lemma csafe_changes {A} o (m : M (@sys OS UM) A) k (K K' : co_manager_open_desc -> Prop) (f : co_manager_open_desc -> co_manager_open_desc) :
  (forall s d, s_desc s !! o = Some d -> exists a, m s = (Ret a, put_desc o (f d) s)) ->
  (forall d, life (f d) = life d) -> (forall d, K d -> K' (f d)) -> steady K' -> (forall a, csafe o (k a) K') ->
  csafe o (Sect m k) K.
Proof using.
  intros Hm Hl HK HK' Hk s a s' d Hd _ Hkd Hr. destruct (Hm s d Hd) as (a' & Hr'). rewrite Hr in Hr'. injection Hr' as <- ->.
  left. split; [unfold rest; cbn; rewrite delete_insert_eq, lookup_insert_eq, Hd; cbn; by rewrite Hl|].
  exists K'. split; [done|]. split; [done|]. intros d' Hd'. cbn in Hd'. rewrite lookup_insert_eq in Hd'. simplify_eq. by apply HK.
Qed.

Lemma steady_let_go : steady let_go.
Proof using. by intros m a c d (? & ? & ?). Qed.

Lemma cleanup_safe o : o <> 0 -> csafe o (co_manager_open_desc_deactive_and_close (OS := OS) (UM := UM) o Back) (fun _ => True).
Proof using.
  intros Ho. intros s a s' d Hd Hm _ Hr. unfold co_manager_open_alive, the, mbind, M_bind in Hr.
  rewrite (proj2 (Z.eqb_neq _ _) Ho), Hd, Hm, Z.eqb_refl in Hr. injection Hr as <- <-. left. split; [done|].
  exists (fun _ => True). split; [|done]. cbn [negb]. unfold co_manager_kmap_release, co_manager_window_release_all.
  rewrite (proj2 (Z.eqb_neq _ _) Ho). clear s d Hd Hm.
  apply (csafe_changes o _ _ _ (fun d => window d = []) (with_windows [] 0)); [|done|done|by intros m a c d|].
  { intros s d Hd. unfold take_windows, upd, the, modify, mbind, M_bind. rewrite !Hd. by eexists. }
  intros l. apply csafe_undo_windows; [by intros m a c d|].
  apply (csafe_changes o _ _ _ let_go (fun d => with_reserved false (with_slices [] 0 d))); [|done| |apply steady_let_go|].
  { intros s d Hd. unfold take_slices, upd, the, modify, mbind, M_bind. rewrite !Hd. by eexists. }
  { intros d Hw. by split_and!. }
  intros r. apply csafe_unmap_list; [apply steady_let_go|]. apply csafe_put; [apply steady_let_go|].
  apply (csafe_changes o _ _ _ let_go (fun d => with_life (magic d) false (ref_count d) d)); [|done| |apply steady_let_go|].
  { intros s d Hd. unfold upd, the, modify, mbind, M_bind. rewrite !Hd. by eexists. }
  { intros d (? & ? & ?). by split_and!. }
  intros _ s a s' d Hd Hm Hg Hr. right. split; [done|]. split; [done|]. unfold attempt in Hr.
  destruct (co_manager_close o s) as [[u|rc|] s1]; by simplify_eq.
Qed.

(** *** What holds in good order *)

Definition cleaners g : list Z := omap (fun w => match w with Cleaning o => Some o | _ => None end) g.

Definition task_ok s C (p : thread (@sys OS UM)) (w : work) : Prop :=
  match w with
  | Idle => p = Back
  | Busy o => (o ∉ C) /\ local_to o p
  | Cleaning o => o <> 0 /\ o ∈ C /\ exists d K, s_desc s !! o = Some d /\ K d /\ steady K /\ csafe o p K
  end.

(** Handles still open count their own reference beside those taken; one that
    has been cleaned up holds nothing. *)
Record oinv s ts g C rf : Prop := {
  oi_work : Forall2 (task_ok s C) ts g;
  oi_once : NoDup (cleaners g);
  oi_null : s_desc s !! 0 = None;
  oi_magic o d : s_desc s !! o = Some d -> magic d = CO_MANAGER_OPEN_MAGIC;
  oi_own o d : s_desc s !! o = Some d -> o ∉ C \/ o ∈ cleaners g -> ref_count d = rf o + 1;
  oi_left o d : s_desc s !! o = Some d -> o ∈ C -> (o ∉ cleaners g) -> ref_count d = rf o /\ 0 < rf o /\ let_go d;
  oi_gone o : s_desc s !! o = None -> rf o = 0;
  oi_refs o : 0 <= rf o;
}.

Definition orderly_ok (X : @orderly OS UM) : Prop :=
  oinv (dr_sys (or_driver X)) (dr_threads (or_driver X)) (or_work X) (or_cleaned X) (or_refs X).

Lemma cleaners_cons w g : cleaners (w :: g) = (match w with Cleaning o => [o] | _ => [] end) ++ cleaners g.
Proof using. by destruct w. Qed.

Lemma cleaners_perm g g' : g ≡ₚ g' -> cleaners g ≡ₚ cleaners g'.
Proof using. intros E. unfold cleaners. by rewrite E. Qed.

Lemma cleaners_set g t w w' :
  g !! t = Some w -> exists r, cleaners g ≡ₚ (match w with Cleaning o => [o] | _ => [] end) ++ r /\
    cleaners (<[t := w']> g) ≡ₚ (match w' with Cleaning o => [o] | _ => [] end) ++ r.
Proof using.
  intros Hg. exists (cleaners (delete t g)). rewrite <- !cleaners_cons. split; apply cleaners_perm.
  - by apply delete_Permutation.
  - rewrite (delete_Permutation (<[t := w']> g) t w') by (by eapply list_lookup_insert_eq, lookup_lt_Some).
    by rewrite delete_insert_list.
Qed.

Lemma in_cleaners g o : o ∈ cleaners g <-> Cleaning o ∈ g.
Proof using.
  unfold cleaners. rewrite list_elem_of_omap. split.
  - intros ([|o'|o'] & Hin & E); simplify_eq. done.
  - intros Hin. by exists (Cleaning o).
Qed.

(** A cleaning task has its handle among those begun. *)
Lemma cleaner_begun s ts g C rf o : oinv s ts g C rf -> o ∈ cleaners g -> o <> 0 /\ o ∈ C /\ is_Some (s_desc s !! o).
Proof using.
  intros Hi Ho%in_cleaners. apply list_elem_of_lookup in Ho as (t & Ht).
  destruct (Forall2_lookup_r _ _ _ _ _ (oi_work _ _ _ _ _ Hi) Ht) as (p & _ & Hnz & Hc & d & _ & Hd & _). by rewrite Hd.
Qed.

(** Where the descriptors move only in what they hold, and only under the task
    at hand, the rest of the books stays. *)
Lemma oinv_keep s s' ts ts' g g' C rf :
  oinv s ts g C rf -> Forall2 (task_ok s' C) ts' g' -> cleaners g' ≡ₚ cleaners g ->
  (forall o, life <$> s_desc s' !! o = life <$> s_desc s !! o) ->
  (forall o d', s_desc s' !! o = Some d' -> o ∈ C -> o ∉ cleaners g -> s_desc s !! o = Some d') ->
  oinv s' ts' g' C rf.
Proof using.
  intros [Hw Ho Hn Hm Hown Hl Hg Hr] Hw' Hcl Hlife Hkeep.
  assert (forall o d', s_desc s' !! o = Some d' -> exists d, s_desc s !! o = Some d /\ magic d = magic d' /\ ref_count d = ref_count d') as Hback.
  { intros o d' Hd'. specialize (Hlife o). rewrite Hd' in Hlife. destruct (s_desc s !! o) as [d|]; [|done]. exists d.
    cbn in Hlife. unfold life in Hlife. by simplify_eq. }
  assert (forall o, s_desc s' !! o = None -> s_desc s !! o = None) as Hnone.
  { intros o Hd'. specialize (Hlife o). rewrite Hd' in Hlife. by destruct (s_desc s !! o). }
  split; try done.
  - by rewrite Hcl.
  - specialize (Hlife 0). rewrite Hn in Hlife. by destruct (s_desc s' !! 0).
  - intros o d' Hd'. destruct (Hback o d' Hd') as (d & Hd & <- & _). by eapply Hm.
  - intros o d' Hd'. destruct (Hback o d' Hd') as (d & Hd & _ & <-). rewrite Hcl. by apply Hown.
  - intros o d' Hd' HC. rewrite Hcl. intros Hni. apply (Hl o d'); [by apply Hkeep|done|done].
  - intros o Hd'. by apply Hg, Hnone.
Qed.

(** A task that is not touched stays. *)
Lemma task_stays s s' C C' p w :
  task_ok s C p w ->
  match w with
  | Idle => True
  | Busy o => o ∉ C'
  | Cleaning o => o ∈ C' /\ forall d, s_desc s !! o = Some d -> exists m a c, s_desc s' !! o = Some (with_life m a c d)
  end -> task_ok s' C' p w.
Proof using.
  destruct w as [|o|o]; cbn; [done|by intros [_ ?]|]. intros (Hnz & _ & d & K & Hd & HK & Hst & Hs) [HC Hd'].
  destruct (Hd' d Hd) as (m & a & c & E). split; [done|]. split; [done|]. exists (with_life m a c d), K. by split_and!; [|apply Hst|..].
Qed.

Lemma with_life_same d : with_life (magic d) (desc_active d) (ref_count d) d = d.
Proof using. by destruct d. Qed.

(** The other threads, when only the descriptor of [o] moves. *)
Lemma tasks_stay s s' ts g C rf t o p w :
  oinv s ts g C rf -> (forall o', o' <> o -> s_desc s' !! o' = s_desc s !! o') ->
  (forall t', t' <> t -> g !! t' <> Some (Cleaning o)) -> task_ok s' C p w ->
  Forall2 (task_ok s' C) (<[t := p]> ts) (<[t := w]> g).
Proof using.
  intros Hi Hs Hno Hp. pose proof (oi_work _ _ _ _ _ Hi) as Hw. apply Forall2_same_length_lookup.
  split; [rewrite !length_insert; by eapply Forall2_length|]. intros t' p' w' Hp' Hw'.
  destruct (decide (t' = t)) as [->|Hne].
  - destruct (decide (t < length ts)%nat) as [Hlt|Hge].
    + rewrite list_lookup_insert_eq in Hp' by done. pose proof (Forall2_length _ _ _ Hw) as El.
      rewrite list_lookup_insert_eq in Hw' by lia. by simplify_eq.
    + rewrite list_insert_ge in Hp' by lia. apply lookup_lt_Some in Hp'. lia.
  - rewrite list_lookup_insert_ne in Hp' by done. rewrite list_lookup_insert_ne in Hw' by done. pose proof (Forall2_lookup_lr _ _ _ _ _ _ Hw Hp' Hw') as Ht.
    eapply task_stays; [exact Ht|]. destruct w' as [|o'|o']; [done|by destruct Ht|]. destruct Ht as (_ & HC & _). split; [done|].
    intros d Hd. exists (magic d), (desc_active d), (ref_count d). rewrite with_life_same. rewrite Hs; [done|].
    intros ->. by eapply Hno.
Qed.

Lemma rest_others o s s' : rest o s' = rest o s ->
  (forall o', o' <> o -> s_desc s' !! o' = s_desc s !! o') /\ (forall o', life <$> s_desc s' !! o' = life <$> s_desc s !! o').
Proof using.
  unfold rest. intros [= Ed El].
  assert (forall o', o' <> o -> s_desc s' !! o' = s_desc s !! o') as Hne.
  { intros o' Hne. rewrite <- (lookup_delete_ne (s_desc s') o o'), <- (lookup_delete_ne (s_desc s) o o') by done. by rewrite Ed. }
  split; [done|]. intros o'. destruct (decide (o' = o)) as [->|]; [done|]. by rewrite Hne.
Qed.

Lemma life_tidy s s' : (forall o, life <$> s_desc s' !! o = life <$> s_desc s !! o) -> tidy s s'.
Proof using. intros Hl o d Hd Hn. specialize (Hl o). by rewrite Hd, Hn in Hl. Qed.

(** *** Each step *)

(** Replacing a task that cleans nothing by another. *)
Lemma cleaners_same g t w w' :
  g !! t = Some w -> (forall o, w <> Cleaning o) -> (forall o, w' <> Cleaning o) -> cleaners (<[t := w']> g) ≡ₚ cleaners g.
Proof using.
  intros Hg Hw Hw'. destruct (cleaners_set g t w w' Hg) as (r & -> & ->).
  destruct w as [|o|o], w' as [|o'|o']; try done; exfalso; first [by apply (Hw o)|by apply (Hw' o')].
Qed.

Lemma settle_not_cleaning (p : thread (@sys OS UM)) w : (forall o, w <> Cleaning o) -> forall o, settle p w <> Cleaning o.
Proof using. intros Hw o. by destruct p. Qed.

Lemma once_cleaning g t t' o :
  NoDup (cleaners g) -> g !! t = Some (Cleaning o) -> g !! t' = Some (Cleaning o) -> t' = t.
Proof using.
  intros Hnd Ht Ht'. destruct (decide (t' = t)) as [|Hne]; [done|]. exfalso.
  destruct (cleaners_set g t (Cleaning o) Idle Ht) as (r & E & E'). cbn in E, E'. rewrite E in Hnd.
  apply NoDup_cons in Hnd as [Hni _]. apply Hni. rewrite <- E'. apply in_cleaners.
  apply list_elem_of_lookup. exists t'. by rewrite list_lookup_insert_ne.
Qed.

Lemma cleaning_at g t o : g !! t = Some (Cleaning o) -> o ∈ cleaners g.
Proof using. intros Ht. apply in_cleaners. by eapply list_elem_of_lookup_2. Qed.

Lemma busy_step s s' ts g C rf t o {A} (m : M (@sys OS UM) A) k a :
  oinv s ts g C rf -> ts !! t = Some (Sect m k) -> g !! t = Some (Busy o) -> m s = (Ret a, s') ->
  oinv s' (<[t := k a]> ts) (<[t := settle (k a) (Busy o)]> g) C rf /\ tidy s s'.
Proof using.
  intros Hi Ht Hg Hr. pose proof (Forall2_lookup_lr _ _ _ _ _ _ (oi_work _ _ _ _ _ Hi) Ht Hg) as (HC & Hm & Hk).
  destruct (rest_others o s s' (keeps_ran _ _ _ _ _ Hm Hr)) as [Hne Hlife]. split; [|by apply life_tidy].
  assert (forall o' : Z, Busy o <> Cleaning o') as Hnc by done.
  eapply oinv_keep; [exact Hi| |by eapply cleaners_same; [exact Hg|exact Hnc|apply settle_not_cleaning]|done|].
  - eapply (tasks_stay s s' ts g C rf t o); [exact Hi|done| |].
    + intros t' _ Hcl. apply cleaning_at in Hcl. by destruct (cleaner_begun _ _ _ _ _ _ Hi Hcl) as (_ & ? & _).
    + specialize (Hk a). by destruct (k a).
  - intros o' d' Hd' Ho' _. rewrite <- Hne; [done|]. by intros ->.
Qed.

Lemma cleaning_step s s' ts g C rf t o {A} (m : M (@sys OS UM) A) k a :
  oinv s ts g C rf -> ts !! t = Some (Sect m k) -> g !! t = Some (Cleaning o) -> m s = (Ret a, s') ->
  oinv s' (<[t := k a]> ts) (<[t := settle (k a) (Cleaning o)]> g) C rf /\ tidy s s'.
Proof using.
  intros Hi Ht Hg Hr. pose proof (Forall2_lookup_lr _ _ _ _ _ _ (oi_work _ _ _ _ _ Hi) Ht Hg) as (Hnz & HC & d & K & Hd & HK & _ & Hs).
  assert (forall t', t' <> t -> g !! t' <> Some (Cleaning o)) as Honce
    by (intros t' Hne Hg'; apply Hne; by eapply once_cleaning; [apply (oi_once _ _ _ _ _ Hi)|..]).
  destruct (Hs s a s' d Hd (oi_magic _ _ _ _ _ Hi o d Hd) HK Hr) as [(Hrest & K' & Hs' & Hst & HK')|(Hlg & Hback & ->)].
  - destruct (rest_others o s s' Hrest) as [Hne Hlife]. split; [|by apply life_tidy].
    assert (settle (k a) (Cleaning o) = Cleaning o) as -> by (by destruct (k a)).
    eapply oinv_keep; [exact Hi| |by rewrite list_insert_id|done|].
    + eapply (tasks_stay s s' ts g C rf t o); [exact Hi|done|done|]. cbn.
      specialize (Hlife o). rewrite Hd in Hlife. destruct (s_desc s' !! o) as [d'|] eqn:Hd'; [|done].
      split; [done|]. split; [done|]. exists d', K'. split; [done|]. split; [by apply HK'|done].
    + intros o' d' Hd' Ho' Hni. rewrite <- Hne; [done|]. intros ->. by apply Hni, (cleaning_at g t).
  - destruct (close_run o d s Hnz Hd (oi_magic _ _ _ _ _ Hi o d Hd)) as (s1 & -> & Ew & Eu & Es). cbn [snd].
    rewrite Hback. cbn [settle]. destruct (cleaners_set g t (Cleaning o) Idle Hg) as (r & E & E'). cbn in E, E'.
    assert (forall o', o' <> o -> s_desc s1 !! o' = s_desc s !! o') as Hne.
    { intros o' Hno. rewrite Es. destruct (_ =? 0); [by rewrite lookup_delete_ne|by rewrite lookup_insert_ne]. }
    assert ((o ∉ r) /\ NoDup r) as [Hnr Hndr].
    { pose proof (oi_once _ _ _ _ _ Hi) as Hnd. rewrite E in Hnd. by apply NoDup_cons in Hnd. }
    assert (forall o', o' <> o -> o' ∈ cleaners (<[t:=Idle]> g) <-> o' ∈ cleaners g) as Hcl.
    { intros o' Hno. rewrite E, E'. set_solver. }
    assert (ref_count d = rf o + 1) as Href by (apply (oi_own _ _ _ _ _ Hi o d Hd); right; by apply (cleaning_at g t)).
    split.
    + split.
      * eapply (tasks_stay s s1 ts g C rf t o); [exact Hi|done|done|done].
      * by rewrite E'.
      * rewrite Hne by done. apply (oi_null _ _ _ _ _ Hi).
      * intros o' d' Hd'. destruct (decide (o' = o)) as [->|Hno]; [|rewrite Hne in Hd' by done; by eapply oi_magic].
        rewrite Es in Hd'. destruct (_ =? 0); [by rewrite lookup_delete_eq in Hd'|].
        rewrite lookup_insert_eq in Hd'. simplify_eq. cbn. by eapply oi_magic.
      * intros o' d' Hd' Hor. destruct (decide (o' = o)) as [->|Hno].
        { destruct Hor as [|Hin]; [done|]. by rewrite E' in Hin. }
        rewrite Hne in Hd' by done. rewrite (Hcl o' Hno) in Hor. by eapply oi_own.
      * intros o' d' Hd' Ho' Hni. destruct (decide (o' = o)) as [->|Hno].
        { rewrite Es in Hd'. destruct (ref_count d - 1 =? 0) eqn:Hz; zbool; [by rewrite lookup_delete_eq in Hd'|].
          rewrite lookup_insert_eq in Hd'. simplify_eq. cbn. pose proof (oi_refs _ _ _ _ _ Hi o).
          split_and!; [lia|lia|apply Hlg..]. }
        rewrite Hne in Hd' by done. rewrite (Hcl o' Hno) in Hni. by eapply oi_left.
      * intros o' Hd'. destruct (decide (o' = o)) as [->|Hno]; [|rewrite Hne in Hd' by done; by eapply oi_gone].
        rewrite Es in Hd'. destruct (ref_count d - 1 =? 0) eqn:Hz; zbool; [lia|]. by rewrite lookup_insert_eq in Hd'.
      * apply (oi_refs _ _ _ _ _ Hi).
    + intros o' d' Hd' Hn. destruct (decide (o' = o)) as [->|Hno]; [by simplify_eq|]. rewrite Hne in Hn by done. congruence.
Qed.

(** A module drops a reference it took: the handle's own is still there, or
    its cleanup is over. *)
Lemma drop_step s s' ts g C rf o r :
  oinv s ts g C rf -> 0 < rf o -> co_manager_close o s = (r, s') -> r <> Fault ->
  oinv s' ts g C (refs_set o (rf o - 1) rf) /\ tidy s s'.
Proof using.
  intros Hi Hpos Hr Hnf. destruct (s_desc s !! o) as [d|] eqn:Hd; [|rewrite (oi_gone _ _ _ _ _ Hi o Hd) in Hpos; lia].
  assert (o <> 0) as Hnz by (intros ->; rewrite (oi_null _ _ _ _ _ Hi) in Hd; done).
  destruct (close_run o d s Hnz Hd (oi_magic _ _ _ _ _ Hi o d Hd)) as (s1 & Hrun & Ew & Eu & Es).
  rewrite Hrun in Hr. injection Hr as _ <-. clear Hnf.
  assert (forall o', o' <> o -> s_desc s1 !! o' = s_desc s !! o') as Hne.
  { intros o' Hno. rewrite Es. destruct (_ =? 0); [by rewrite lookup_delete_ne|by rewrite lookup_insert_ne]. }
  assert (forall o', o' <> o -> refs_set o (rf o - 1) rf o' = rf o') as Hrf by (intros; unfold refs_set; by rewrite decide_False).
  assert (refs_set o (rf o - 1) rf o = rf o - 1) as Hrf0 by (unfold refs_set; by rewrite decide_True).
  assert (ref_count d - 1 = 0 -> o ∈ C /\ (o ∉ cleaners g) /\ let_go d /\ rf o - 1 = 0) as Hlast.
  { intros Hz. destruct (decide (o ∈ C)) as [HC|HC]; [destruct (decide (o ∈ cleaners g)) as [Hcl|Hcl]|].
    - pose proof (oi_own _ _ _ _ _ Hi o d Hd (or_intror Hcl)). lia.
    - destruct (oi_left _ _ _ _ _ Hi o d Hd HC Hcl) as (? & ? & ?). split_and!; [done..|lia].
    - pose proof (oi_own _ _ _ _ _ Hi o d Hd (or_introl HC)). lia. }
  split.
  - split.
    + apply Forall2_same_length_lookup. pose proof (oi_work _ _ _ _ _ Hi) as Hw. split; [by eapply Forall2_length|].
      intros t p w Ht Hg. pose proof (Forall2_lookup_lr _ _ _ _ _ _ Hw Ht Hg) as Hp. eapply task_stays; [exact Hp|].
      destruct w as [|o'|o']; [done|by destruct Hp|]. pose proof (cleaning_at g t o' Hg) as Hin. destruct Hp as (_ & HC & d1 & K & Hd1 & _). split; [done|].
      intros d2 Hd2. destruct (decide (o' = o)) as [->|Hno].
      * rewrite Hd in Hd2. simplify_eq. rewrite Es. destruct (ref_count d2 - 1 =? 0) eqn:Hz; zbool.
        { destruct (Hlast Hz) as (_ & Hni & _). destruct Hni. exact Hin. }
        rewrite lookup_insert_eq. by do 3 eexists.
      * exists (magic d2), (desc_active d2), (ref_count d2). rewrite with_life_same. by rewrite Hne.
    + apply (oi_once _ _ _ _ _ Hi).
    + rewrite Hne by done. apply (oi_null _ _ _ _ _ Hi).
    + intros o' d' Hd'. destruct (decide (o' = o)) as [->|Hno]; [|rewrite Hne in Hd' by done; by eapply oi_magic].
      rewrite Es in Hd'. destruct (_ =? 0); [by rewrite lookup_delete_eq in Hd'|].
      rewrite lookup_insert_eq in Hd'. simplify_eq. cbn. by eapply oi_magic.
    + intros o' d' Hd' Hor. destruct (decide (o' = o)) as [->|Hno].
      * rewrite Hrf0. rewrite Es in Hd'. destruct (_ =? 0); [by rewrite lookup_delete_eq in Hd'|].
        rewrite lookup_insert_eq in Hd'. simplify_eq. cbn. pose proof (oi_own _ _ _ _ _ Hi o d Hd Hor). lia.
      * rewrite Hrf by done. rewrite Hne in Hd' by done. by eapply oi_own.
    + intros o' d' Hd' Ho' Hni. destruct (decide (o' = o)) as [->|Hno].
      * rewrite Hrf0. rewrite Es in Hd'. destruct (ref_count d - 1 =? 0) eqn:Hz; zbool; [by rewrite lookup_delete_eq in Hd'|].
        rewrite lookup_insert_eq in Hd'. simplify_eq. destruct (oi_left _ _ _ _ _ Hi o d Hd Ho' Hni) as (? & ? & Hlg).
        cbn. split_and!; [lia|lia|apply Hlg..].
      * rewrite Hrf by done. rewrite Hne in Hd' by done. by eapply oi_left.
    + intros o' Hd'. destruct (decide (o' = o)) as [->|Hno].
      * rewrite Hrf0. rewrite Es in Hd'. destruct (ref_count d - 1 =? 0) eqn:Hz; zbool; [by apply Hlast|].
        by rewrite lookup_insert_eq in Hd'.
      * rewrite Hrf by done. rewrite Hne in Hd' by done. by eapply oi_gone.
    + intros o'. destruct (decide (o' = o)) as [->|Hno]; [rewrite Hrf0; lia|rewrite Hrf by done; apply (oi_refs _ _ _ _ _ Hi)].
  - intros o' d' Hd' Hn. destruct (decide (o' = o)) as [->|Hno]; [|rewrite Hne in Hn by done; congruence].
    rewrite Hd in Hd'. simplify_eq. rewrite Es in Hn. destruct (ref_count d' - 1 =? 0) eqn:Hz; zbool; [by apply Hlast|].
    by rewrite lookup_insert_eq in Hn.
Qed.

Lemma back_task s C w : task_ok s C Back w -> forall o, w <> Cleaning o.
Proof using. intros Hw o ->. by destruct Hw as (_ & _ & d & K & _ & _ & _ & []). Qed.

(** A thread that is back takes up something else; nothing has moved. *)
Lemma ask_step s ts g C rf t o p :
  oinv s ts g C rf -> ts !! t = Some Back -> handle_request o p -> o ∉ C ->
  oinv s (<[t := p]> ts) (<[t := settle p (Busy o)]> g) C rf.
Proof using.
  intros Hi Ht Hp HC. destruct (Forall2_lookup_l _ _ _ _ _ (oi_work _ _ _ _ _ Hi) Ht) as (w & Hg & Hw).
  eapply oinv_keep; [exact Hi| |eapply cleaners_same; [exact Hg|by eapply back_task|by apply settle_not_cleaning]|done|done].
  apply Forall2_insert; [apply (oi_work _ _ _ _ _ Hi)|]. pose proof (handle_local o p Hp). by destruct p.
Qed.

Lemma cleanup_step s ts g C rf t o d :
  oinv s ts g C rf -> ts !! t = Some Back -> o <> 0 -> s_desc s !! o = Some d -> o ∉ C -> Busy o ∉ g ->
  oinv s (<[t := co_manager_open_desc_deactive_and_close o Back]> ts) (<[t := Cleaning o]> g) ({[o]} ∪ C) rf.
Proof using.
  intros Hi Ht Hnz Hd HC Hbusy. destruct (Forall2_lookup_l _ _ _ _ _ (oi_work _ _ _ _ _ Hi) Ht) as (w & Hg & Hw).
  destruct (cleaners_set g t w (Cleaning o) Hg) as (r & E & E').
  assert (cleaners (<[t := Cleaning o]> g) ≡ₚ o :: cleaners g) as Ec.
  { rewrite E, E'. destruct w as [|o1|o1]; [done..|]. by destruct (back_task _ _ _ Hw o1). }
  assert (o ∉ cleaners g) as Hni by (intros Hin; by destruct (cleaner_begun _ _ _ _ _ _ Hi Hin) as (_ & ? & _)).
  split.
  - apply Forall2_insert.
    + apply Forall2_same_length_lookup. pose proof (oi_work _ _ _ _ _ Hi) as Hwk. split; [by eapply Forall2_length|].
      intros t' p' w' Hp' Hw'. pose proof (Forall2_lookup_lr _ _ _ _ _ _ Hwk Hp' Hw') as Htk. eapply task_stays; [exact Htk|].
      destruct w' as [|o'|o']; [done|..].
      * destruct Htk as [Ho' _]. intros [->%elem_of_singleton|?]%elem_of_union; [|done].
        apply Hbusy. by eapply list_elem_of_lookup_2.
      * destruct Htk as (_ & Ho' & _). split; [set_solver|]. intros d' Hd'.
        exists (magic d'), (desc_active d'), (ref_count d'). by rewrite with_life_same.
    + split; [done|]. split; [set_solver|]. exists d, (fun _ => True). split_and!; [done..|]. by apply cleanup_safe.
  - rewrite Ec. constructor; [done|apply (oi_once _ _ _ _ _ Hi)].
  - apply (oi_null _ _ _ _ _ Hi).
  - apply (oi_magic _ _ _ _ _ Hi).
  - intros o' d' Hd' Hor. rewrite Ec in Hor. apply (oi_own _ _ _ _ _ Hi o' d' Hd'). destruct (decide (o' = o)) as [->|]; [by left|set_solver].
  - intros o' d' Hd' Ho' Hni'. rewrite Ec in Hni'. apply (oi_left _ _ _ _ _ Hi o' d' Hd'); set_solver.
  - apply (oi_gone _ _ _ _ _ Hi).
  - apply (oi_refs _ _ _ _ _ Hi).
Qed.

Lemma open_run fresh lock os s a s' :
  attempt (co_manager_open fresh lock os) s = (Ret a, s') ->
  match a with
  | inl _ => fresh <> 0 /\ s_desc s !! fresh = None /\
      s_desc s' = <[fresh := Desc CO_MANAGER_OPEN_MAGIC true 1 [] 0 false [] 0]> (s_desc s)
  | inr _ => s_desc s' = s_desc s
  end.
Proof using.
  intros Hr. assert (wlp (attempt (co_manager_open fresh lock os)) (fun a s' => match a with
    | inl _ => fresh <> 0 /\ s_desc s !! fresh = None /\
        s_desc s' = <[fresh := Desc CO_MANAGER_OPEN_MAGIC true 1 [] 0 false [] 0]> (s_desc s)
    | inr _ => s_desc s' = s_desc s end) (fun _ _ => True) s) as Hw; [|unfold wlp in Hw; by rewrite Hr in Hw].
  clear Hr. unfold co_manager_open. do 2 wlp_step. unfold co_os_malloc. apply wlp_loader. unfold wlp at 1, host.
  destruct (host_malloc 256 (w_os (s_world s))) as [node os']. wlp_step. wlp_step; [done|]. do 4 wlp_step.
  match goal with E : bool_decide _ = true |- _ => apply bool_decide_eq_true in E as [Hfresh Hnz] end.
  do 2 wlp_step; [done|]. do 2 wlp_step; [done|]. do 3 wlp_step. by split_and!.
Qed.

Lemma ref_run o s a s' :
  attempt (co_manager_open_ref o) s = (Ret a, s') ->
  match a with
  | inl _ => exists d, s_desc s !! o = Some d /\
      s_desc s' = <[o := with_life (magic d) (desc_active d) (ref_count d + 1) d]> (s_desc s)
  | inr _ => s_desc s' = s_desc s
  end.
Proof using.
  unfold attempt, co_manager_open_ref, the, fail_if, throw, upd, modify, mbind, M_bind. destruct (s_desc s !! o) as [d|] eqn:Hd; [|done].
  destruct (ref_count d =? 0); [by intros [= <- <-]|]. cbn. unfold the, mret, M_ret. rewrite Hd. intros [= <- <-]. by exists d.
Qed.

(** A handle opened at an address nobody has. *)
Lemma open_step s s' ts g C rf fresh lock os a :
  oinv s ts g C rf -> attempt (co_manager_open fresh lock os) s = (Ret a, s') ->
  oinv s' ts g (match a with inl _ => C ∖ {[fresh]} | inr _ => C end) rf /\ tidy s s'.
Proof using.
  intros Hi Hr%open_run. destruct a as [r|rc].
  2: { split; [|by apply life_tidy; intros o; rewrite Hr]. eapply oinv_keep; [exact Hi| |done|by intros o; rewrite Hr|intros o d; by rewrite Hr].
       apply Forall2_same_length_lookup. pose proof (oi_work _ _ _ _ _ Hi) as Hw. split; [by eapply Forall2_length|].
       intros t p w Hp Hg. pose proof (Forall2_lookup_lr _ _ _ _ _ _ Hw Hp Hg) as Ht. destruct w; cbn in *; [done..|]. by rewrite Hr. }
  destruct Hr as (Hnz & Hn & Es).
  assert (forall o, o <> fresh -> s_desc s' !! o = s_desc s !! o) as Hne by (intros; by rewrite Es, lookup_insert_ne).
  assert (s_desc s' !! fresh = Some (Desc CO_MANAGER_OPEN_MAGIC true 1 [] 0 false [] 0)) as Hf by (by rewrite Es, lookup_insert_eq).
  assert (fresh ∉ cleaners g) as Hni.
  { intros Hin. destruct (cleaner_begun _ _ _ _ _ _ Hi Hin) as (_ & _ & d & Hd). congruence. }
  split.
  - split.
    + apply Forall2_same_length_lookup. pose proof (oi_work _ _ _ _ _ Hi) as Hw. split; [by eapply Forall2_length|].
      intros t p w Hp Hg. pose proof (Forall2_lookup_lr _ _ _ _ _ _ Hw Hp Hg) as Ht. eapply task_stays; [exact Ht|].
      destruct w as [|o|o]; [done|destruct Ht; set_solver|]. destruct Ht as (_ & HC & _). apply cleaning_at in Hg.
      assert (o <> fresh) as Hno by (by intros ->). split; [set_solver|]. intros d Hd.
      exists (magic d), (desc_active d), (ref_count d). by rewrite with_life_same, Hne.
    + apply (oi_once _ _ _ _ _ Hi).
    + rewrite Hne by done. apply (oi_null _ _ _ _ _ Hi).
    + intros o d Hd. destruct (decide (o = fresh)) as [->|Hno]; [by simplify_eq|]. rewrite Hne in Hd by done. by eapply oi_magic.
    + intros o d Hd Hor. destruct (decide (o = fresh)) as [->|Hno].
      * simplify_eq. cbn. pose proof (oi_gone _ _ _ _ _ Hi fresh Hn). lia.
      * rewrite Hne in Hd by done. apply (oi_own _ _ _ _ _ Hi o d Hd). set_solver.
    + intros o d Hd Ho Hcl. assert (o <> fresh) as Hno by set_solver. rewrite Hne in Hd by done.
      apply (oi_left _ _ _ _ _ Hi o d Hd); set_solver.
    + intros o Hd. destruct (decide (o = fresh)) as [->|Hno]; [congruence|]. rewrite Hne in Hd by done. by eapply oi_gone.
    + apply (oi_refs _ _ _ _ _ Hi).
  - intros o d Hd Hn'. destruct (decide (o = fresh)) as [->|Hno]; [congruence|]. rewrite Hne in Hn' by done. congruence.
Qed.

Lemma ref_step s s' ts g C rf o a :
  oinv s ts g C rf -> attempt (co_manager_open_ref o) s = (Ret a, s') ->
  oinv s' ts g C (match a with inl _ => refs_set o (rf o + 1) rf | inr _ => rf end) /\ tidy s s'.
Proof using.
  intros Hi Hr%ref_run. destruct a as [r|rc].
  2: { split; [|by apply life_tidy; intros o'; rewrite Hr]. eapply oinv_keep; [exact Hi| |done|by intros o'; rewrite Hr|intros o' d; by rewrite Hr].
       apply Forall2_same_length_lookup. pose proof (oi_work _ _ _ _ _ Hi) as Hw. split; [by eapply Forall2_length|].
       intros t p w Hp Hg. pose proof (Forall2_lookup_lr _ _ _ _ _ _ Hw Hp Hg) as Ht. destruct w; cbn in *; [done..|]. by rewrite Hr. }
  destruct Hr as (d & Hd & Es).
  assert (forall o', o' <> o -> s_desc s' !! o' = s_desc s !! o') as Hne by (intros; by rewrite Es, lookup_insert_ne).
  assert (s_desc s' !! o = Some (with_life (magic d) (desc_active d) (ref_count d + 1) d)) as Hf by (by rewrite Es, lookup_insert_eq).
  assert (forall o', o' <> o -> refs_set o (rf o + 1) rf o' = rf o') as Hrf by (intros; unfold refs_set; by rewrite decide_False).
  assert (refs_set o (rf o + 1) rf o = rf o + 1) as Hrf0 by (unfold refs_set; by rewrite decide_True).
  split.
  - split.
    + apply Forall2_same_length_lookup. pose proof (oi_work _ _ _ _ _ Hi) as Hw. split; [by eapply Forall2_length|].
      intros t p w Hp Hg. pose proof (Forall2_lookup_lr _ _ _ _ _ _ Hw Hp Hg) as Ht. eapply task_stays; [exact Ht|].
      destruct w as [|o'|o']; [done|by destruct Ht|]. destruct Ht as (_ & HC & _). split; [done|]. intros d' Hd'.
      destruct (decide (o' = o)) as [->|Hno]; [rewrite Hd in Hd'; simplify_eq; rewrite Hf; by do 3 eexists|].
      exists (magic d'), (desc_active d'), (ref_count d'). by rewrite with_life_same, Hne.
    + apply (oi_once _ _ _ _ _ Hi).
    + destruct (decide (0 = o)) as [<-|]; [|rewrite Hne by done; apply (oi_null _ _ _ _ _ Hi)].
      rewrite (oi_null _ _ _ _ _ Hi) in Hd. done.
    + intros o' d' Hd'. destruct (decide (o' = o)) as [->|Hno]; [|rewrite Hne in Hd' by done; by eapply oi_magic].
      simplify_eq. cbn. by eapply oi_magic.
    + intros o' d' Hd' Hor. destruct (decide (o' = o)) as [->|Hno].
      * simplify_eq. rewrite Hrf0. cbn. pose proof (oi_own _ _ _ _ _ Hi o d Hd Hor). lia.
      * rewrite Hrf by done. rewrite Hne in Hd' by done. by eapply oi_own.
    + intros o' d' Hd' Ho' Hcl. destruct (decide (o' = o)) as [->|Hno].
      * simplify_eq. rewrite Hrf0. destruct (oi_left _ _ _ _ _ Hi o d Hd Ho' Hcl) as (? & ? & Hlg). cbn. split_and!; [lia|lia|apply Hlg..].
      * rewrite Hrf by done. rewrite Hne in Hd' by done. by eapply oi_left.
    + intros o' Hd'. destruct (decide (o' = o)) as [->|Hno]; [congruence|]. rewrite Hrf by done. rewrite Hne in Hd' by done. by eapply oi_gone.
    + intros o'. destruct (decide (o' = o)) as [->|Hno]; [rewrite Hrf0; pose proof (oi_refs _ _ _ _ _ Hi o); lia|rewrite Hrf by done; apply (oi_refs _ _ _ _ _ Hi)].
  - intros o' d' Hd' Hn'. destruct (decide (o' = o)) as [->|Hno]; [congruence|]. rewrite Hne in Hn' by done. congruence.
Qed.

(** *** What is left over *)

Definition tidy_step x x' : Prop := dstep x x' /\ tidy (dr_sys x) (dr_sys x').

Lemma step_once x x' : dstep x x' -> tidy (dr_sys x) (dr_sys x') -> rtc tidy_step x x'.
Proof using. intros Hs Ht. by apply rtc_once. Qed.

(** A request of one section, from beginning to end. *)
Lemma ask_and_go s s' ts t p {A} (m : M (@sys OS UM) A) a :
  ts !! t = Some Back -> request p -> p = Sect m (fun _ => Back) -> m s = (Ret a, s') -> tidy s s' ->
  rtc tidy_step (Driver s ts) (Driver s' ts).
Proof using.
  intros Ht Hp -> Hm Htidy. apply (rtc_l _ _ (Driver s (<[t := Sect m (fun _ => Back)]> ts))).
  - split; [by constructor|]. intros o d Hd Hn. cbn in *. congruence.
  - pose proof (step_sect s s' (<[t := Sect m (fun _ => Back)]> ts) t A m (fun _ => Back) a) as Hs.
    rewrite list_insert_insert_eq, (list_insert_id ts t Back) in Hs by done. apply step_once; [|done]. apply Hs; [|done].
    by eapply list_lookup_insert_eq, lookup_lt_Some.
Qed.

(** Every step in good order keeps the books and is one of the driver's, and
    no descriptor that holds something goes. *)
Lemma orderly_step X X' :
  ostep X X' -> orderly_ok X -> orderly_ok X' /\ rtc tidy_step (or_driver X) (or_driver X').
Proof using.
  unfold orderly_ok.
  intros [s s' ts g C rf t A m k a w Ht Hg Hm|s ts g C rf t o p Ht Hp HC|s ts g C rf t o d Ht Hnz Hd HC Hb
    |s s' ts g C rf t fresh lock os a Ht Hr|s s' ts g C rf t o a Ht Hr|s s' ts g C rf o r Hpos Hr Hnf
    |s w' ts g C rf Hl] Hi; cbn [or_driver or_work or_cleaned or_refs dr_sys dr_threads] in *.
  - assert (oinv s' (<[t := k a]> ts) (<[t := settle (k a) w]> g) C rf /\ tidy s s') as [Hi' Htidy].
    { destruct w as [|o|o]; [|by eapply busy_step|by eapply cleaning_step].
      by pose proof (Forall2_lookup_lr _ _ _ _ _ _ (oi_work _ _ _ _ _ Hi) Ht Hg). }
    split; [done|]. apply step_once; [by econstructor|done].
  - split; [by apply ask_step|]. apply step_once; [constructor; [done|by eapply req_handle]|by apply life_tidy].
  - split; [by eapply cleanup_step|]. apply step_once; [constructor; [done|apply req_cleanup]|by apply life_tidy].
  - destruct (open_step _ _ _ _ _ _ _ _ _ _ Hi Hr) as [Hi' Htidy]. split; [done|]. by eapply ask_and_go; [|apply req_open|..].
  - destruct (ref_step _ _ _ _ _ _ _ _ Hi Hr) as [Hi' Htidy]. split; [done|]. by eapply ask_and_go; [|apply req_ref|..].
  - destruct (drop_step _ _ _ _ _ _ _ _ Hi Hpos Hr Hnf) as [Hi' Htidy]. split; [done|].
    apply step_once; [by econstructor|done].
  - split; [|apply step_once; [by constructor|by apply life_tidy]].
    eapply oinv_keep; [exact Hi| |done|done|done].
    eapply Forall2_impl; [apply (oi_work _ _ _ _ _ Hi)|]. by intros p [].
Qed.

Lemma tidy_holds x x' : rtc tidy_step x x' -> driver_holds x [] -> driver_holds x' [].
Proof using.
  induction 1 as [|x y z [Hs Ht] _ IH]; intros Hx; [done|].
  destruct (dstep_holds x y [] Hs Hx) as (L & HL & Hnil). rewrite (Hnil Ht) in HL. auto.
Qed.

Definition orderly_start x : orderly := Orderly x (map (fun _ => Idle) (dr_threads x)) ∅ (fun _ => 0).

Lemma orderly_started x : driver_start x -> orderly_ok (orderly_start x).
Proof using.
  intros [Hd _ _ _ _ Ht]. unfold orderly_ok. cbn.
  assert (cleaners (map (fun _ => Idle) (dr_threads x)) = []) as Hc
    by (clear; by induction (dr_threads x) as [|t ts IH]).
  split; rewrite ?Hc, ?Hd; try done.
  - clear Hc. induction Ht as [|t ts -> _ IH]; cbn; by constructor.
  - constructor.
Qed.

Lemma orderly_reached x0 X :
  driver_start x0 -> rtc ostep (orderly_start x0) X -> orderly_ok X /\ rtc tidy_step x0 (or_driver X).
Proof using.
  intros Hs Hr. pose proof (orderly_started x0 Hs) as Hi0.
  change (orderly_ok X /\ rtc tidy_step (or_driver (orderly_start x0)) (or_driver X)).
  induction Hr as [|X Y Z HXY _ IH]; [by split|].
  destruct (orderly_step X Y HXY Hi0) as [HY Ht]. destruct (IH HY) as [HZ Ht']. split; [done|]. by etransitivity.
Qed.

Lemma all_let_go D :
  Forall let_go D -> (D ≫= kmap_slice) = [] /\ (D ≫= window) = [] /\ cnt kmap_reserved D = 0%nat.
Proof using.
  induction 1 as [|d D (Hs & Hr & Hw) _ (E1 & E2 & E3)]; [done|].
  rewrite cnt_cons, Hr. cbn [mbind list_bind]. by rewrite Hs, Hw, E1, E2, E3.
Qed.

(** With every thread back, all there is is in the descriptors. *)
Lemma all_recorded x :
  driver_holds x [] -> Forall (fun t => t = Back) (dr_threads x) ->
  held_by (w_kl (s_world (dr_sys x))) (s_um (dr_sys x)) (descs (dr_sys x)) [].
Proof using.
  intros (rs & Hts & Hh) Hback. rewrite app_nil_r in Hh. unfold held in Hh.
  revert rs Hts Hh. induction Hback as [|t ts -> _ IH]; intros rs Hts Hh.
  - by apply Forall2_nil_inv_l in Hts as ->.
  - apply Forall2_cons_inv_l in Hts as (r & rs' & -> & Hts & ->). apply (IH rs'); [done|]. by apply held_nothing.
Qed.

Lemma none_cleaning X :
  orderly_ok X -> Forall (fun t => t = Back) (dr_threads (or_driver X)) -> cleaners (or_work X) = [].
Proof using.
  intros Hi Hback. destruct (cleaners (or_work X)) as [|o l] eqn:E; [done|]. exfalso.
  assert (o ∈ cleaners (or_work X)) as Ho by (rewrite E; left). apply in_cleaners, list_elem_of_lookup in Ho as (t & Hg).
  destruct (Forall2_lookup_r _ _ _ _ _ (oi_work _ _ _ _ _ Hi) Hg) as (p & Hp & Hw).
  rewrite Forall_forall in Hback. rewrite (Hback p) in Hw by (by eapply list_elem_of_lookup_2).
  by destruct (back_task _ _ _ Hw o).
Qed.

(** C14: The driver leaks nothing when handles are cleaned up in good order,
    that is, when the cleanup of a handle ([co_manager_open_desc_deactive_and_close],
    the windows and slices let go of and the reference dropped) begins with no
    request on that handle in flight and none is made on it afterwards, and
    other modules drop only references they took. Then, whatever the processes
    ask for and in whatever order the sections of all threads (those of the
    cleanups among them) and the loader's work fall, whenever every request is
    over:
    - the run is one of the unrestricted driver;
    - the live mappings and locks are exactly those the open handles record, and
      the loader counts exactly one reservation for each handle that has one;
    - a handle that was cleaned up is gone, or kept by as many references as
      other modules hold on it, and holds nothing;
    - when all that are open were cleaned up, no mapping, lock or reservation is
      left.
    Out of this order the driver does leak: [DemoHandles.cleanup_race_leaks]. *)
Theorem handles_no_leak x0 X :
  driver_start x0 -> rtc ostep (orderly_start x0) X ->
  Forall (fun t => t = Back) (dr_threads (or_driver X)) ->
  let s := dr_sys (or_driver X) in
  rtc dstep x0 (or_driver X) /\
  (sl_handle <$> (descs s ≫= kmap_slice)) ≡ₚ (map_to_list (um_maps (s_um s))).*1 /\
  (wn_handle <$> (descs s ≫= window)) ≡ₚ (map_to_list (um_locks (s_um s))).*1 /\
  kload_user_maps (w_kl (s_world s)) = Z.of_nat (length (filter (fun d => kmap_reserved d = true) (descs s))) /\
  (forall o d, o ∈ or_cleaned X -> s_desc s !! o = Some d -> ref_count d = or_refs X o /\ 0 < ref_count d /\ let_go d) /\
  ((forall o, is_Some (s_desc s !! o) -> o ∈ or_cleaned X) ->
   um_maps (s_um s) = ∅ /\ um_locks (s_um s) = ∅ /\ kload_user_maps (w_kl (s_world s)) = 0).
Proof using.
  intros Hs Hr Hback s. destruct (orderly_reached _ _ Hs Hr) as [Hi Ht].
  destruct (all_recorded _ (tidy_holds _ _ Ht (driver_started _ Hs)) Hback) as [Im Ih _ _ _ _ _ Il]. fold s in Im, Ih, Il.
  unfold recorded in Ih. cbn in Im, Ih, Il. rewrite !app_nil_r in Ih. rewrite app_nil_r in Il.
  change (cnt h_put []) with 0%nat in Im. rewrite Nat.add_0_r in Im.
  assert (forall o d, o ∈ or_cleaned X -> s_desc s !! o = Some d -> ref_count d = or_refs X o /\ 0 < ref_count d /\ let_go d) as Hleft.
  { intros o d Ho Hd. destruct (oi_left _ _ _ _ _ Hi o d Hd Ho) as (-> & ? & ?); [|done].
    rewrite (none_cleaning X Hi Hback). apply not_elem_of_nil. }
  split_and!; [by eapply rtc_subrel; [|exact Ht]; intros x y []|done|done|done|done|]. intros Hall.
  assert (Forall let_go (descs s)) as Hgo.
  { apply Forall_forall. intros d Hd. unfold descs in Hd. apply list_elem_of_fmap in Hd as ([o d'] & -> & Ho%elem_of_map_to_list).
    by apply (Hleft o d'); [apply Hall|]. }
  destruct (all_let_go _ Hgo) as (E1 & E2 & E3). rewrite E1 in Ih. rewrite E2 in Il. rewrite E3 in Im. split_and!; [..|done].
  - apply map_to_list_empty_iff. by eapply fmap_nil_inv, symmetry, Permutation_nil_l.
  - apply map_to_list_empty_iff. by eapply fmap_nil_inv, symmetry, Permutation_nil_l.
Qed.
End orderly_runs.

(** ** One slice on demand

    One slice on demand: what [KMAP_RANGE] answers, on every branch. *)

Section range.
Context {OS : Type} `{HostLaws OS} {UM : Type} `{UserMemLaws UM}.
Implicit Types (k : kload_statics) (s : @sys OS UM) (w : world OS) (sl : co_manager_kmap_slice_t).

(** ** The block of an address *)

Definition in_block_at k i pa : Prop :=
  0 <= i < kload_block_count k /\
  pseudo_base (block_at k i) <= pa < pseudo_base (block_at k i) + block_bytes (block_at k i).

(** The search ends with the block, exactly when there is one. *)
Lemma wp_block_for_pa w pa :
  frames_ok (w_os w) (w_kl w) ->
  wp (co_kload_block_for_pa pa)
    (fun b w' => w' = w /\ exists i, in_block_at (w_kl w) i pa /\
       b = (block_va (block_at (w_kl w) i), pseudo_base (block_at (w_kl w) i), block_bytes (block_at (w_kl w) i)))
    (fun rc w' => w' = w /\ rc = CO_RC_ERROR /\ forall i, ~ in_block_at (w_kl w) i pa) w.
Proof using.
  intros Hok. remember (w_kl w) as k eqn:Ek. pose proof (fo_count _ _ Hok) as Hcnt.
  unfold co_kload_block_for_pa, kl. wp_step. apply wp_gets. rewrite <- Ek. wp_step.
  apply (wp_mloop _ (fun st w' => w' = w /\ 0 <= st.1 /\ st.2 < kload_block_count k /\ st.1 - 1 <= st.2 /\
    forall i, in_block_at k i pa -> st.1 <= i <= st.2) (fun st _ => st.2 - st.1 + 1)).
  - intros [lo hi] w' (-> & Hlo & Hhi & Hle & Hin). cbn [fst snd] in *. unfold block_for_pa_step.
    destruct (lo <=? hi) eqn:Hc; zbool; cbn [negb].
    + rewrite Z.quot_div_nonneg by lia. set (mid := lo + (hi - lo) / 2).
      assert (lo <= mid <= hi) as Hmid by (subst mid; Z.div_mod_to_equations; lia).
      wp_step. apply wp_block_get; [change CO_KLOAD_MAX_BLOCKS with 16384 in *; lia|]. rewrite <- Ek.
      rewrite (block_end_small _ _ _ Hok) by lia.
      destruct (ti_ok _ _ _ (fo_tiles _ _ Hok) mid ltac:(lia)) as [[_ Hva] [Hz Hz1] [Hb Hb0]].
      wp_step; [wp_step|wp_step; [wp_step|]].
      * enough (forall i, in_block_at k i pa -> i < mid) as Hlt.
        { cbn. split_and!; try done; try lia. intros i Hi. specialize (Hlt i Hi). specialize (Hin i Hi). lia. }
         intros i [Hi Hpa]. destruct (decide (mid <= i)); [|lia].
        destruct (decide (mid = i)) as [->|]; [lia|].
        pose proof (tiles_mono _ _ _ mid i (fo_tiles _ _ Hok) ltac:(lia) ltac:(lia)) as Hm. lia.
      * enough (forall i, in_block_at k i pa -> mid < i) as Hlt.
        { cbn. split_and!; try done; try lia. intros i Hi. specialize (Hlt i Hi). specialize (Hin i Hi). lia. }
         intros i [Hi Hpa]. destruct (decide (i <= mid)); [|lia].
        destruct (decide (mid = i)) as [->|]; [lia|].
        pose proof (tiles_mono _ _ _ i mid (fo_tiles _ _ Hok) ltac:(lia) ltac:(lia)) as Hm. lia.
      * rewrite (proj2 (Z.eqb_neq _ _)) by lia. cbn [negb]. do 2 wp_step. split; [done|]. exists mid. split; [|done].
         split; lia.
    + do 2 wp_step. split_and!; [done|done|]. intros i Hi. specialize (Hin i Hi). lia.
  - cbn. split_and!; try done; try lia. intros i [Hi _]. lia.
  - cbn. change CO_KLOAD_MAX_BLOCKS with 16384 in *. lia.
Qed.

(** ** The section *)

Definition in_world w s : sys := Sys w (s_um s) (s_desc s) (manager_opens s) (num_opens s).

Lemma wp_loader {A} (m : M (world OS) A) (Q : A -> sys -> Prop) (E : co_rc_value_t -> sys -> Prop) s :
  wp m (fun a w => Q a (in_world w s)) (fun rc w => E rc (in_world w s)) (s_world s) ->
  wp (loader m) Q E s.
Proof using. unfold wp, loader. by destruct (m (s_world s)) as [[a|rc|] w]. Qed.

Lemma wp_the o d (Q : co_manager_open_desc -> sys -> Prop) E s :
  s_desc s !! o = Some d -> Q d s -> wp (the o) Q E s.
Proof using. intros Hd HQ. unfold wp, the. by rewrite Hd. Qed.

Lemma wp_upd o d f (Q : unit -> sys -> Prop) E s :
  s_desc s !! o = Some d -> Q tt (put_desc o (f d) s) -> wp (upd o f) Q E s.
Proof using. intros Hd HQ. unfold upd. apply wp_bind. by eapply wp_the. Qed.

Lemma find_in_some l pa sl :
  kmap_find_in l pa = Some sl -> sl ∈ l /\ sl_pa sl <= pa < sl_pa sl + sl_bytes sl.
Proof using.
  induction l as [|x l IH]; cbn; [done|]. destruct (_ && _)%bool eqn:Hc.
  - intros [= ->]. zbool. split; [left|lia].
  - intros Hf. destruct (IH Hf). split; [by right|done].
Qed.

(** A found slice is answered without touching anything. *)
Lemma range_found o pa s d sl :
  s_desc s !! o = Some d -> kmap_reserved d = true -> co_manager_kmap_find d pa = Some sl ->
  kmap_range_locked o pa s = (Ret (false, RangeAnswer CO_RC_OK (Some sl) true), s).
Proof using.
  intros Hd Hr Hf. unfold kmap_range_locked, mbind, M_bind, the. by rewrite Hd, Hr, Hf.
Qed.

(** What is mapped for [pa]: its part of the block, from a multiple of the slice
    size on, at most a slice. *)
Definition slice_for k pa sl : Prop := exists i,
  let b := block_at k i in
  in_block_at k i pa /\
  sl_pa sl = pseudo_base b + (pa - pseudo_base b) / CO_KMAP_SLICE_BYTES * CO_KMAP_SLICE_BYTES /\
  sl_bytes sl = Z.min CO_KMAP_SLICE_BYTES (pseudo_base b + block_bytes b - sl_pa sl) /\
  sl_pa sl <= pa < sl_pa sl + sl_bytes sl.

Definition same_but_os s s' : Prop :=
  s_desc s' = s_desc s /\ um_maps (s_um s') = um_maps (s_um s) /\
  um_locks (s_um s') = um_locks (s_um s) /\ w_kl (s_world s') = w_kl (s_world s).

Lemma wp_range_fill_total o pa s d :
  frames_ok (w_os (s_world s)) (w_kl (s_world s)) -> s_desc s !! o = Some d ->
  wp (kmap_range_fill o pa)
    (fun sl s' => slice_for (w_kl (s_world s)) pa sl /\
       s_desc s' = <[o := with_slices (sl :: kmap_slice d) (kmap_slices d + 1) d]> (s_desc s) /\
       w_kl (s_world s') = w_kl (s_world s) /\ um_locks (s_um s') = um_locks (s_um s) /\
       um_maps (s_um s) !! sl_handle sl = None)
    (fun rc s' => rc <> CO_RC_OK /\ same_but_os s s') s.
Proof using.
  intros Hok Hd. unfold kmap_range_fill. wp_step. apply wp_loader.
  eapply wp_mono; [by apply wp_block_for_pa| |by intros rc w (-> & -> & _)].
  intros [[bva bpa] bbytes] w (-> & i & [Hi Hpa] & Eb). injection Eb as -> -> ->.
  unfold co_manager_kmap_add_locked.
  wp_step. wp_step; [by split|]. wp_step. unfold co_os_malloc. apply wp_loader.
  unfold host, wp at 1. destruct (host_malloc 48 (w_os (s_world (in_world (s_world s) s)))) as [node os].
  wp_step. wp_step; [by split|]. wp_step.
  unfold user, wp at 1. set (bytes := if _ <? _ then _ else _). set (off := _ / _ * _).
  pose proof (law_userspace_map (block_va (block_at (w_kl (s_world s)) i) + off)
    (ulong (Z.shiftr bytes CO_ARCH_PAGE_SHIFT)) (s_um s)) as Hlaw.
  cbn [s_um in_world]. destruct (co_os_userspace_map _ _ _) as [[[uva h]|] u].
  - destruct Hlaw as (Hnz & Hn & Em & El). wp_step. eapply wp_upd; [exact Hd|]. wp_step.
    cbn. split_and!; try done. exists i. cbn. split; [by split|].
    change CO_KMAP_SLICE_BYTES with 12582912 in *. subst bytes off.
    split_and!; case_match; zbool; Z.div_mod_to_equations; lia.
  - destruct Hlaw as [Em El]. wp_step. by split_and!.
Qed.

(** What comes of a request for [pa]: a slice, recorded and found again from
    then on, or nothing but the reservation that goes back. *)
Definition range_done o pa s d (put : bool) (a : range_answer) s' : Prop :=
  match range_slice a with
  | Some sl => range_rc a = CO_RC_OK /\ put = false /\ sl_pa sl <= pa < sl_pa sl + sl_bytes sl /\
      kmap_range_locked o pa s' = (Ret (false, RangeAnswer CO_RC_OK (Some sl) true), s') /\
      if range_reused a then s' = s /\ sl ∈ kmap_slice d
      else co_manager_kmap_find d pa = None /\ slice_for (w_kl (s_world s)) pa sl /\
           s_desc s' = <[o := with_reserved true (with_slices (sl :: kmap_slice d) (kmap_slices d + 1) d)]> (s_desc s)
  | None => range_rc a <> CO_RC_OK /\ co_manager_kmap_find d pa = None /\
      s_desc s' = s_desc s /\ um_maps (s_um s') = um_maps (s_um s) /\
      w_kl (s_world s') = set_user_maps (kload_user_maps (w_kl (s_world s)) + (if put then 1 else 0)) (w_kl (s_world s))
  end.

Lemma set_user_maps_same k : set_user_maps (kload_user_maps k + 0) k = k.
Proof using. rewrite Z.add_0_r. by destruct k. Qed.

(** With the reservation in place. *)
Lemma wp_range_reserved o pa s d (E : co_rc_value_t -> sys -> Prop) :
  frames_ok (w_os (s_world s)) (w_kl (s_world s)) -> s_desc s !! o = Some d ->
  kmap_reserved d = true -> co_manager_kmap_find d pa = None ->
  wp (attempt (kmap_range_fill o pa)) (fun r s' =>
    match r with
    | inl sl => range_done o pa s d false (RangeAnswer CO_RC_OK (Some sl) false) s' /\
                s_desc s' = <[o := with_slices (sl :: kmap_slice d) (kmap_slices d + 1) d]> (s_desc s)
    | inr rc => rc <> CO_RC_OK /\ same_but_os s s'
    end) E s.
Proof using.
  intros Hok Hd Hr Hf. wp_step. eapply wp_mono; [by apply wp_range_fill_total| |done].
  intros sl s' (Hsl & Hd' & Hk & Hl & Hm). split; [|done].
  pose proof Hsl as (i & Hi). cbn zeta in Hi. destruct Hi as (_ & _ & _ & Hpa). split_and!; try done; [lia|lia|..].
  - eapply range_found; [rewrite Hd'; apply lookup_insert_eq|done|].
    unfold co_manager_kmap_find. cbn. rewrite (proj2 (Z.leb_le _ _)) by lia.
    by rewrite (proj2 (Z.ltb_lt _ _)) by lia.
  - split_and!; [done|done|]. rewrite Hd'. f_equal. by destruct d; cbn in *; subst.
Qed.

(** [KMAP_RANGE] on every branch. The section under the handle's lock always
    comes back. With a slice, that slice holds the address asked for, and asking
    again answers the same slice, marked reused, and changes nothing; a new one
    is the part of the block of guest RAM from a multiple of 12 MB on, and is
    recorded with the reservation. With an error the handle, the mappings and
    the loader are as before, but for the reservation the request took for
    itself, which it then drops. *)
Theorem kmap_range_answers o pa s d :
  frames_ok (w_os (s_world s)) (w_kl (s_world s)) -> s_desc s !! o = Some d -> desc_ok d ->
  exists put a s', kmap_range_locked o pa s = (Ret (put, a), s') /\ range_done o pa s d put a s'.
Proof using.
  intros Hok Hd Hdo.
  enough (wp (kmap_range_locked o pa) (fun r s' => range_done o pa s d r.1 r.2 s') (fun _ _ => False) s) as Hw.
  { destruct (wp_total _ _ _ Hw) as ([put a] & s' & Hrun & Hq). eauto. }
  unfold kmap_range_locked. wp_step. eapply wp_the; [exact Hd|].
  destruct (kmap_reserved d) eqn:Hr.
  - wp_step. wp_step. destruct (co_manager_kmap_find d pa) as [sl|] eqn:Hf.
    { wp_step. destruct (find_in_some _ _ _ Hf) as [Hin Hpa]. split_and!; try done; [lia|lia|].
      by eapply range_found. }
    wp_step. eapply wp_mono; [by apply (wp_range_reserved o pa s d (fun _ _ => False))| |done].
    intros [sl|rc] s' Hs'; [wp_step; exact (proj1 Hs')|]. destruct Hs' as (Hrc & Ed & Em & El & Ek).
    wp_step. eapply wp_the; [by rewrite Ed|]. cbn [andb]. wp_step.
    split_and!; try done. by rewrite set_user_maps_same.
  - pose proof (do_reserved _ Hdo Hr) as Hnil.
    assert (co_manager_kmap_find d pa = None) as Hf by (unfold co_manager_kmap_find; by rewrite Hnil).
    wp_step. wp_step. apply wp_loader. unfold co_kload_user_map_try_get, kl, kset.
    do 2 wp_step.
    destruct (_ && _)%bool; repeat wp_step;
      [|split_and!; try done; by rewrite set_user_maps_same].
    eapply wp_upd; [exact Hd|]. wp_step.
    rewrite Hf. wp_step.
    set (s1 := put_desc o (with_reserved true d) _).
    eapply wp_mono; [apply (wp_range_reserved o pa s1 (with_reserved true d) (fun _ _ => False));
      [by apply (frames_ok_core _ (w_kl (s_world s)))|apply lookup_insert_eq|done|done]| |done].
    intros [sl|rc] s' Hs'.
    + wp_step. destruct Hs' as [(? & ? & Hpa & Hagain & _ & Hsl & Hd') _]. split_and!; try done; [lia|lia|].
      cbn [range_reused snd]. rewrite Hd'. unfold s1. cbn [s_desc put_desc]. split_and!; [done|done|].
      by rewrite insert_insert_eq.
    + destruct Hs' as (Hrc & Ed & Em & El & Ek).
      wp_step. eapply wp_the; [rewrite Ed; apply lookup_insert_eq|].
      cbn [kmap_slices with_reserved]. rewrite (do_slices _ Hdo), Hnil. cbn [length Z.of_nat Z.eqb andb].
      wp_step; [|done]. wp_step. eapply wp_upd; [rewrite Ed; apply lookup_insert_eq|]. wp_step.
      split_and!; try done; cbn.
      * rewrite Ed. unfold s1. cbn. rewrite !insert_insert_eq. apply insert_id.
        rewrite Hd. f_equal. by destruct d; cbn in *; subst.
Qed.
End range.
