(* ===== verification/Slices.v ===== *)
(** The GPU daemon's window onto guest RAM
    ([os/winnt/user/cogpu-daemon/cogpu-daemon.c], from [slice_head] to
    [res_pins_commit], with the calls of [user/manager.c] it makes).

    Guest RAM is mapped into the daemon a slice at a time. The slices are a
    linked list of heap nodes; whoever keeps a pointer into one pins it, and the
    main loop evicts unpinned ones when the mapped set passes its cap. Each
    function is one step: those that can run on another thread do so under
    [g_slice_lock], and the main thread is the only one to unlink. [pins] is not
    cut to its 31 bits; 2 ^ 31 pins of one slice would need as many resources. *)
From S2P Require Import Prelude.
From S2P Require Import Rc.
From S2P Require Import Handles.

Record co_kmap_range_t := Range { r_pa : Z; r_bytes : Z; r_user_va : Z }.

(** [MEMORY_BASIC_INFORMATION]: where the region starts, its size, whether it is
    committed and whether its protection bars access. *)
Record mbi_t := Mbi { mbi_base : Z; mbi_size : Z; mbi_commit : bool; mbi_barred : bool }.

(** What the daemon asks of the driver, the heap and Windows. An ioctl answers
    with its own code and that of its parameters; a null pointer is zero. *)
Class CogpuHost (E : Type) := {
  ioctl_kmap_range : Z -> E -> co_rc_value_t * co_rc_value_t * co_kmap_range_t * E;
  ioctl_kmap_unmap_range : Z -> E -> co_rc_value_t * co_rc_value_t * E;
  VirtualQuery : Z -> E -> option mbi_t;
  heap_calloc : E -> Z * E;
  heap_free : Z -> E -> E;
  heap_malloc : Z -> E -> bool * E;
  GetTickCount : E -> Z * E;
  raise_ws_once : Z -> E -> bool * E;
}.

Record mapped_slice := Node { range : co_kmap_range_t; pins : Z; last_use : Z }.
Record cogpu_res_pin := ResPin { rp_id : Z; rp_slices : list Z }.

(** The mapping budget and the ratchet that moves it. *)
Record budget := Budget {
  g_kmap_cap_bytes : Z; g_kmap_hard_bytes : Z; g_kmap_ram_ceiling : Z; g_kmap_ws_budget : Z;
  g_kmap_cap_given : bool; last_try : Z;
}.

(** What is set up once: the shared-section view, the window arena, the driver. *)
Record setup := Setup {
  g_ram_view : Z; g_ram_view_bytes : Z; g_window_base : Z; g_window_top : Z;
  g_wake_handle : bool; g_slice_lock_ready : bool;
}.

Definition KMAP_EVICT_HEADROOM_BYTES : Z := Z.shiftl 96 20.

Section slices.
Context {E : Type} `{CogpuHost E}.

Record cogpu := Cogpu {
  c_env : E;
  c_setup : setup;
  c_budget : budget;
  c_nodes : gmap Z mapped_slice;
  g_slices : list Z;
  g_last_hit : Z;
  g_slice_count : Z;
  g_slice_bytes : Z;
  g_slice_clock : Z;
  g_res_pins : list cogpu_res_pin;
}.

Abbreviation C := (M cogpu).

Definition set_env e (s : cogpu) : cogpu :=
  Cogpu e (c_setup s) (c_budget s) (c_nodes s) (g_slices s) (g_last_hit s) (g_slice_count s)
    (g_slice_bytes s) (g_slice_clock s) (g_res_pins s).
Definition set_budget b (s : cogpu) : cogpu :=
  Cogpu (c_env s) (c_setup s) b (c_nodes s) (g_slices s) (g_last_hit s) (g_slice_count s)
    (g_slice_bytes s) (g_slice_clock s) (g_res_pins s).
Definition set_nodes n (s : cogpu) : cogpu :=
  Cogpu (c_env s) (c_setup s) (c_budget s) n (g_slices s) (g_last_hit s) (g_slice_count s)
    (g_slice_bytes s) (g_slice_clock s) (g_res_pins s).
Definition set_hit h (s : cogpu) : cogpu :=
  Cogpu (c_env s) (c_setup s) (c_budget s) (c_nodes s) (g_slices s) h (g_slice_count s)
    (g_slice_bytes s) (g_slice_clock s) (g_res_pins s).
Definition set_list l h n b (s : cogpu) : cogpu :=
  Cogpu (c_env s) (c_setup s) (c_budget s) (c_nodes s) l h n b (g_slice_clock s) (g_res_pins s).
Definition set_clock t (s : cogpu) : cogpu :=
  Cogpu (c_env s) (c_setup s) (c_budget s) (c_nodes s) (g_slices s) (g_last_hit s) (g_slice_count s)
    (g_slice_bytes s) t (g_res_pins s).
Definition set_res_pins p (s : cogpu) : cogpu :=
  Cogpu (c_env s) (c_setup s) (c_budget s) (c_nodes s) (g_slices s) (g_last_hit s) (g_slice_count s)
    (g_slice_bytes s) (g_slice_clock s) p.

Definition env {A} (f : E -> A * E) : C A := fun s =>
  let '(a, e) := f (c_env s) in (Ret a, set_env e s).
Definition env_do (f : E -> E) : C unit := modify (fun s => set_env (f (c_env s)) s).
Definition conf {A} (f : setup -> A) : C A := gets (fun s => f (c_setup s)).

(** A node is a pointer; one that has been freed faults. *)
Definition node (a : Z) : C mapped_slice := fun s =>
  match c_nodes s !! a with Some n => (Ret n, s) | None => (Fault, s) end.
Definition upd_node (a : Z) (f : mapped_slice -> mapped_slice) : C unit :=
  n ← node a; modify (fun s => set_nodes (<[a := f n]> (c_nodes s)) s).

(** ** The driver's half *)

Definition co_manager_kmap_range (pa : Z) : C (option co_kmap_range_t) :=
  r ← env (fun e => let '(rc, prc, range, e) := ioctl_kmap_range pa e in ((rc, prc, range), e));
  let '(rc, prc, range) := r in
  mret (if CO_OK (if CO_OK rc then prc else rc) then Some range else None).

Definition co_manager_kunmap_range (pa : Z) : C bool :=
  r ← env (fun e => let '(rc, prc, e) := ioctl_kmap_unmap_range pa e in ((rc, prc), e));
  let '(rc, prc) := r in
  mret (CO_OK (if CO_OK rc then prc else rc)).

(** ** Looking up *)

Definition slice_holds (gpa stop : Z) (n : mapped_slice) : bool :=
  ((r_pa (range n) <=? gpa) && (stop <=? u64 (r_pa (range n) + r_bytes (range n))))%bool.

Definition stamp (t : Z) (n : mapped_slice) : mapped_slice := Node (range n) (pins n) t.
Definition touch (a : Z) : C unit := t ← gets g_slice_clock; upd_node a (stamp t).

Fixpoint find_in (l : list Z) (gpa stop : Z) : C Z :=
  match l with
  | [] => mret 0
  | a :: l =>
      n ← node a;
      if slice_holds gpa stop n then modify (set_hit a) ;; touch a ;; mret a
      else find_in l gpa stop
  end.

Definition find_slice (gpa len : Z) : C Z :=
  let stop := u64 (gpa + len) in
  if stop <? gpa then mret 0 else
  last ← gets g_last_hit;
  hit ← (if last =? 0 then mret false else n ← node last; mret (slice_holds gpa stop n));
  if hit : bool then touch last ;; mret last else
  l ← gets g_slices; find_in l gpa stop.

(** ** Mapping *)

Definition range_bad (gpa : Z) (r : co_kmap_range_t) : bool :=
  ((r_bytes r =? 0) || (u64 (r_pa r + r_bytes r) <? r_pa r) || (gpa <? r_pa r)
   || (u64 (r_pa r + r_bytes r) <=? gpa))%bool.

Definition unreadable (r : co_kmap_range_t) (m : option mbi_t) : bool :=
  match m with
  | None => true
  | Some m =>
      (negb (mbi_commit m) || mbi_barred m || (u64 (r_user_va r + r_bytes r) <? r_user_va r)
       || (r_user_va r <? mbi_base m) || (u64 (mbi_base m + mbi_size m) <? mbi_base m)
       || (u64 (mbi_base m + mbi_size m) <? u64 (r_user_va r + r_bytes r)))%bool
  end.

Definition slice_map_locked (gpa : Z) : C Z :=
  slice ← find_slice gpa 1;
  if negb (slice =? 0) then mret slice else
  bytes ← gets g_slice_bytes;
  b ← gets c_budget;
  if g_kmap_hard_bytes b <? u64 (bytes + CO_KMAP_SLICE_BYTES) then mret 0 else
  slice ← env heap_calloc;
  if slice =? 0 then mret 0 else
  r ← co_manager_kmap_range gpa;
  match r with
  | None => env_do (heap_free slice) ;; mret 0
  | Some r =>
      if range_bad gpa r then env_do (heap_free slice) ;; mret 0 else
      m ← gets (fun s => VirtualQuery (r_user_va r) (c_env s));
      if unreadable r m then env_do (heap_free slice) ;; mret 0 else
      t ← gets g_slice_clock;
      modify (fun s => set_nodes (<[slice := Node r 0 t]> (c_nodes s)) s) ;;
      modify (fun s => set_list (slice :: g_slices s) slice (s32 (g_slice_count s + 1))
                         (u64 (g_slice_bytes s + r_bytes r)) s) ;;
      mret slice
  end.

Definition map_slice (gpa : Z) : C Z :=
  slice ← find_slice gpa 1;
  wake ← conf g_wake_handle;
  ready ← conf g_slice_lock_ready;
  if (negb (slice =? 0) || negb wake || negb ready)%bool then mret slice
  else slice_map_locked gpa.

(** ** Resolving *)

Definition ram_view_ptr (v : setup) (gpa len : Z) : Z :=
  if ((g_ram_view v =? 0) || (len =? 0) || (u64 (gpa + len) <? gpa))%bool then 0
  else if ((g_window_base v <? u64 (gpa + len)) || (g_ram_view_bytes v <? u64 (gpa + len)))%bool then 0
  else g_ram_view v + gpa.

Definition resolve_run (gpa len : Z) : C Z :=
  v ← gets c_setup;
  if negb (ram_view_ptr v gpa 1 =? 0) then
    let left := g_window_base v - gpa in
    mret (if left <? len then u32 left else len)
  else
  slice ← find_slice gpa 1;
  slice ← (if slice =? 0 then map_slice gpa else mret slice);
  if slice =? 0 then mret 0 else
  n ← node slice;
  let avail := u64 (r_pa (range n) + r_bytes (range n) - gpa) in
  mret (if avail <? len then u32 avail else len).

Definition slice_ptr (n : mapped_slice) (gpa : Z) : Z := u64 (r_user_va (range n) + (gpa - r_pa (range n))).

Definition fits (n : mapped_slice) (gpa len : Z) : bool :=
  (u64 (gpa + len) <=? u64 (r_pa (range n) + r_bytes (range n)))%bool.

(** [main] is whether the caller is the main thread. *)
Definition resolve_gpa (main : bool) (gpa len : Z) : C Z :=
  v ← gets c_setup;
  let p := ram_view_ptr v gpa len in
  if negb (p =? 0) then mret p else
  if (g_slice_lock_ready v && negb main)%bool then
    slice ← slice_map_locked gpa;
    if slice =? 0 then mret 0 else
    n ← node slice;
    mret (if ((gpa <=? u64 (gpa + len)) && fits n gpa len)%bool then slice_ptr n gpa else 0)
  else
  slice ← find_slice gpa len;
  if negb (slice =? 0) then n ← node slice; mret (slice_ptr n gpa) else
  slice ← map_slice gpa;
  if slice =? 0 then mret 0 else
  n ← node slice;
  mret (if ((u64 (gpa + len) <? gpa) || negb (fits n gpa len))%bool then 0 else slice_ptr n gpa).

(** ** Pins *)

Definition pin (t : Z) (n : mapped_slice) : mapped_slice := Node (range n) (pins n + 1) t.
Definition add_pin (n : mapped_slice) : mapped_slice := Node (range n) (pins n + 1) (last_use n).
Definition drop_pin (n : mapped_slice) : mapped_slice :=
  if 0 <? pins n then Node (range n) (pins n - 1) (last_use n) else n.

(** The pointer and [*token_out]; the callers all give a [token_out]. *)
Definition cogpu_resolve_gpa_pinned (gpa len : Z) : C (Z * Z) :=
  if ((len =? 0) || (u64 (gpa + len) <? gpa))%bool then mret (0, 0) else
  v ← gets c_setup;
  let p := ram_view_ptr v gpa len in
  if negb (p =? 0) then mret (p, 0) else
  if negb (g_slice_lock_ready v) then mret (0, 0) else
  slice ← slice_map_locked gpa;
  if slice =? 0 then mret (0, 0) else
  n ← node slice;
  if fits n gpa len then
    t ← gets g_slice_clock;
    upd_node slice (pin t) ;;
    mret (slice_ptr n gpa, slice)
  else mret (0, 0).

Definition cogpu_unpin (token : Z) : C unit :=
  ready ← conf g_slice_lock_ready;
  if ((token =? 0) || negb ready)%bool then mret tt else upd_node token drop_pin.

(** *** Per resource *)

(** Distinct slices touched while one request's iovecs are built. *)
Record pin_collect := Collect { pc_s : list Z; pc_overflow : bool }.

Definition pin_collect_add (pc : pin_collect) (gpa : Z) : C pin_collect :=
  slice ← find_slice gpa 1;
  mret (if slice =? 0 then pc
        else if bool_decide (slice ∈ pc_s pc) then pc
        else if 256 <=? Z.of_nat (length (pc_s pc)) then Collect (pc_s pc) true
        else Collect (pc_s pc ++ [slice]) (pc_overflow pc)).

Fixpoint each_node (l : list Z) (f : mapped_slice -> mapped_slice) : C unit :=
  match l with
  | [] => mret tt
  | a :: l => upd_node a f ;; each_node l f
  end.

Fixpoint slot_of (l : list cogpu_res_pin) (res_id : Z) : option nat :=
  match l with
  | [] => None
  | p :: l => if rp_id p =? res_id then Some 0%nat else S <$> slot_of l res_id
  end.

Definition res_pins_drop (res_id : Z) : C unit :=
  if res_id =? 0 then mret tt else
  l ← gets g_res_pins;
  match slot_of l res_id with
  | None => mret tt
  | Some i =>
      each_node (default [] (rp_slices <$> l !! i)) drop_pin ;;
      modify (set_res_pins (<[i := ResPin 0 []]> l))
  end.

(** A free slot, the table doubled when there is none. *)
Definition res_pins_slot : C (option nat) :=
  l ← gets g_res_pins;
  match slot_of l 0 with
  | Some i => mret (Some i)
  | None =>
      let want := if (length l =? 0)%nat then 1024 else u32 (Z.of_nat (length l) * 2) in
      ok ← env (heap_malloc (want * 16));
      if negb ok then mret None else
      modify (set_res_pins (l ++ replicate (Z.to_nat (want - Z.of_nat (length l))) (ResPin 0 []))) ;;
      mret (Some (length l))
  end.

(** Whether the slices are pinned: the code's [0]. *)
Definition res_pins_commit (res_id : Z) (pc : pin_collect) : C bool :=
  if ((res_id =? 0) || pc_overflow pc)%bool then mret false else
  res_pins_drop res_id ;;
  if (length (pc_s pc) =? 0)%nat then mret true else
  own ← env (heap_malloc (Z.of_nat (length (pc_s pc)) * 8));
  if negb own then mret false else
  slot ← res_pins_slot;
  match slot with
  | None => mret false
  | Some i =>
      each_node (pc_s pc) add_pin ;;
      l ← gets g_res_pins;
      modify (set_res_pins (<[i := ResPin res_id (pc_s pc)]> l)) ;;
      mret true
  end.

(** ** Evicting *)

(** The unpinned slice used longest ago, the first of several. *)
Fixpoint pick_victim (l : list Z) (best : option (Z * Z)) : C (option Z) :=
  match l with
  | [] => mret (fst <$> best)
  | a :: l =>
      n ← node a;
      pick_victim l
        (if negb (pins n =? 0) then best else
         match best with
         | None => Some (a, last_use n)
         | Some (_, t) => if last_use n <? t then Some (a, last_use n) else best
         end)
  end.

Definition without (a : Z) (l : list Z) : list Z :=
  match unlink (Z.eqb a) l with Some (_, l') => l' | None => l end.

Definition evict_one (victim : Z) : C unit :=
  n ← node victim;
  modify (fun s => set_list (without victim (g_slices s))
    (if g_last_hit s =? victim then 0 else g_last_hit s) (s32 (g_slice_count s - 1))
    (u64 (g_slice_bytes s - r_bytes (range n))) s) ;;
  co_manager_kunmap_range (r_pa (range n)) ;;
  modify (fun s => set_nodes (delete victim (c_nodes s)) s) ;;
  env_do (heap_free victim).

(** Whether it got down to [target]. *)
Definition evict_step (target : Z) (_ : unit) : C (unit + bool) :=
  bytes ← gets g_slice_bytes;
  if negb (target <? bytes) then mret (inr true) else
  l ← gets g_slices;
  v ← pick_victim l None;
  match v with
  | None => mret (inr false)
  | Some victim => evict_one victim ;; mret (inl tt)
  end.

Definition ratchet (next : Z) (b : budget) : budget :=
  if g_kmap_cap_given b
  then Budget (g_kmap_cap_bytes b) (g_kmap_hard_bytes b) (g_kmap_ram_ceiling b) next true (last_try b)
  else Budget next (u64 (next + Z.shiftl 64 20)) (g_kmap_ram_ceiling b) next false (last_try b).

Definition slices_ratchet : C unit :=
  b ← gets c_budget;
  bytes ← gets g_slice_bytes;
  if (negb (g_kmap_ws_budget b =? 0) && (g_kmap_ws_budget b <? g_kmap_ram_ceiling b)
      && (g_kmap_cap_bytes b <? u64 (bytes + Z.shiftl 128 20)))%bool then
    now ← env GetTickCount;
    if 2000 <=? u32 (now - last_try b) then
      let b := Budget (g_kmap_cap_bytes b) (g_kmap_hard_bytes b) (g_kmap_ram_ceiling b)
                 (g_kmap_ws_budget b) (g_kmap_cap_given b) now in
      let next := u64 (g_kmap_ws_budget b + Z.shiftl 512 20) in
      let next := if g_kmap_ram_ceiling b <? next then g_kmap_ram_ceiling b else next in
      modify (set_budget b) ;;
      ok ← env (raise_ws_once next);
      if ok : bool then modify (set_budget (ratchet next b)) else mret tt
    else mret tt
  else mret tt.

Definition slices_evict : C unit :=
  ready ← conf g_slice_lock_ready;
  if negb ready then mret tt else
  slices_ratchet ;;
  b ← gets c_budget;
  bytes ← gets g_slice_bytes;
  if bytes <? g_kmap_cap_bytes b then mret tt else
  let target := u64 (g_kmap_cap_bytes b - KMAP_EVICT_HEADROOM_BYTES) in
  down ← mloop (evict_step target) tt;
  mret tt.

(** The top of the main loop. *)
Definition sweep : C unit :=
  modify (fun s => set_clock (u64 (g_slice_clock s + 1)) s) ;; slices_evict.
End slices.
