(* ===== verification/SlicesOk.v ===== *)
(** The slice cache keeps its promises.

    [cache_ok B T s] is the invariant: the list and the nodes agree, every slice
    is mapped by the driver and apart from the others, the bytes add up and stay
    below [B], and the pins of a slice are the references that resources and the
    tokens [T] handed out hold to it. *)
From S2P Require Import Prelude.
From S2P Require Import Rc.
From S2P Require Import Handles.
From S2P Require Import Slices.

Definition range_ok (r : co_kmap_range_t) : Prop :=
  0 <= r_pa r < 2 ^ 64 /\ 0 <= r_bytes r <= CO_KMAP_SLICE_BYTES /\ 0 <= r_user_va r < 2 ^ 64.
Definition range_has (r : co_kmap_range_t) (gpa : Z) : Prop := r_pa r <= gpa < r_pa r + r_bytes r.
Definition apart (r r' : co_kmap_range_t) : Prop :=
  r_pa r + r_bytes r <= r_pa r' \/ r_pa r' + r_bytes r' <= r_pa r.

(** What the driver and the heap promise. The driver answers with a slice it has
    mapped for this handle, one it had or one apart from all it had. *)
Class CogpuLaws (E : Type) `{CogpuHost E} := {
  env_ok : E -> Prop;
  driver_ranges : E -> list co_kmap_range_t;
  live_nodes : E -> gset Z;
  law_kmap gpa e : env_ok e ->
    let '(rc, prc, r, e') := ioctl_kmap_range gpa e in
    env_ok e' /\ live_nodes e' = live_nodes e /\
    if CO_OK (if CO_OK rc then prc else rc)
    then range_ok r /\ r ∈ driver_ranges e' /\
         (driver_ranges e' = driver_ranges e \/
          driver_ranges e' = (r :: driver_ranges e) /\ (r ∉ driver_ranges e) /\
          Forall (apart r) (driver_ranges e))
    else driver_ranges e' = driver_ranges e;
  law_kunmap pa e : env_ok e ->
    let '(rc, prc, e') := ioctl_kmap_unmap_range pa e in
    env_ok e' /\ live_nodes e' = live_nodes e /\
    if CO_OK (if CO_OK rc then prc else rc)
    then exists r, r_pa r = pa /\ driver_ranges e ≡ₚ r :: driver_ranges e'
    else driver_ranges e' = driver_ranges e;
  law_calloc e : env_ok e ->
    let '(a, e') := heap_calloc e in
    env_ok e' /\ driver_ranges e' = driver_ranges e /\
    if decide (a = 0) then live_nodes e' = live_nodes e
    else (a ∉ live_nodes e) /\ live_nodes e' = {[a]} ∪ live_nodes e;
  law_free a e : env_ok e ->
    env_ok (heap_free a e) /\ driver_ranges (heap_free a e) = driver_ranges e /\
    live_nodes (heap_free a e) = live_nodes e ∖ {[a]};
  law_malloc n e : env_ok e ->
    env_ok (heap_malloc n e).2 /\ driver_ranges (heap_malloc n e).2 = driver_ranges e /\
    live_nodes (heap_malloc n e).2 = live_nodes e;
  law_tick e : env_ok e ->
    env_ok (GetTickCount e).2 /\ driver_ranges (GetTickCount e).2 = driver_ranges e /\
    live_nodes (GetTickCount e).2 = live_nodes e;
  law_raise n e : env_ok e ->
    env_ok (raise_ws_once n e).2 /\ driver_ranges (raise_ws_once n e).2 = driver_ranges e /\
    live_nodes (raise_ws_once n e).2 = live_nodes e;
}.

Definition occ (a : Z) (l : list Z) : Z := Z.of_nat (count_occ Z.eq_dec l a).

Lemma occ_cons a b l : occ a (b :: l) = (if decide (b = a) then 1 else 0) + occ a l.
Proof. unfold occ. cbn. destruct (Z.eq_dec b a), (decide (b = a)); try done; lia. Qed.
Lemma occ_app a l l' : occ a (l ++ l') = occ a l + occ a l'.
Proof. unfold occ. rewrite count_occ_app. lia. Qed.
Lemma occ_nonneg a l : 0 <= occ a l.
Proof. unfold occ. lia. Qed.
Lemma occ_perm a l l' : l ≡ₚ l' -> occ a l = occ a l'.
Proof. induction 1; rewrite ?occ_cons; lia. Qed.
Lemma occ_notin a l : a ∉ l -> occ a l = 0.
Proof.
  induction l as [|b l IH]; [done|]. intros [Hne Hni]%not_elem_of_cons. rewrite occ_cons, decide_False by done.
  rewrite IH by done. done.
Qed.
Lemma occ_in a l : a ∈ l -> 0 < occ a l.
Proof.
  induction 1 as [a l|a b l _ IH]; rewrite occ_cons; [rewrite decide_True by done|];
    pose proof (occ_nonneg a l); [lia|case_decide; lia].
Qed.

Section cache.
Context {E : Type} `{CogpuLaws E}.
Implicit Types (s : @cogpu E) (n : mapped_slice) (a : Z) (T : list Z).

Definition node_bytes s a : Z := match c_nodes s !! a with Some n => r_bytes (range n) | None => 0 end.
Definition total (f : Z -> Z) (l : list Z) : Z := foldr (fun a t => f a + t) 0 l.
Definition refs s T : list Z := (g_res_pins s ≫= rp_slices) ++ T.

Record cache_ok (B : Z) T s : Prop := {
  co_env : env_ok (c_env s);
  co_driver : NoDup (driver_ranges (c_env s)) /\
    forall r r', r ∈ driver_ranges (c_env s) -> r' ∈ driver_ranges (c_env s) -> r <> r' -> apart r r';
  co_nodup : NoDup (g_slices s);
  co_nodes a : a ∈ g_slices s <-> is_Some (c_nodes s !! a);
  co_live a : a ∈ g_slices s -> a ∈ live_nodes (c_env s) /\ a <> 0;
  co_hit : g_last_hit s = 0 \/ g_last_hit s ∈ g_slices s;
  co_range a n : c_nodes s !! a = Some n ->
    range_ok (range n) /\ range n ∈ driver_ranges (c_env s) /\
    0 < r_bytes (range n) /\ r_pa (range n) + r_bytes (range n) < 2 ^ 64 /\
    r_user_va (range n) + r_bytes (range n) < 2 ^ 64;
  co_distinct a b n m : c_nodes s !! a = Some n -> c_nodes s !! b = Some m -> a <> b -> range n <> range m;
  co_bytes : g_slice_bytes s = total (node_bytes s) (g_slices s);
  co_bound : g_slice_bytes s <= B /\ g_kmap_hard_bytes (c_budget s) <= B /\
    0 <= g_kmap_ram_ceiling (c_budget s) /\ g_kmap_ram_ceiling (c_budget s) + Z.shiftl 64 20 <= B /\
    B + CO_KMAP_SLICE_BYTES < 2 ^ 64;
  co_pins a n : c_nodes s !! a = Some n -> pins n = occ a (refs s T);
  co_refs : Forall (fun a => a ∈ g_slices s) (refs s T);
  co_free i p : g_res_pins s !! i = Some p -> rp_id p = 0 -> rp_slices p = [];
  co_ids i j p q : g_res_pins s !! i = Some p -> g_res_pins s !! j = Some q ->
    rp_id p = rp_id q -> rp_id p <> 0 -> i = j;
}.

(** ** The primitives *)

Lemma wp_env {A} (f : E -> A * E) (Q : A -> cogpu -> Prop) X s :
  (forall x e, f (c_env s) = (x, e) -> Q x (set_env e s)) -> wp (env f) Q X s.
Proof using. intros HQ. unfold wp, env. destruct (f (c_env s)) as [x e]. by apply HQ. Qed.

Lemma wp_node a n (Q : mapped_slice -> cogpu -> Prop) X s :
  c_nodes s !! a = Some n -> Q n s -> wp (node a) Q X s.
Proof using. intros Hn HQ. unfold wp, node. by rewrite Hn. Qed.

Lemma wp_upd_node a n f (Q : unit -> cogpu -> Prop) X s :
  c_nodes s !! a = Some n -> Q tt (set_nodes (<[a := f n]> (c_nodes s)) s) -> wp (upd_node a f) Q X s.
Proof using. intros Hn HQ. unfold upd_node. apply wp_bind. eapply wp_node; [exact Hn|]. by apply wp_modify. Qed.

(** Nodes that keep their ranges and pins keep the invariant. *)
Lemma total_cons f a l : total f (a :: l) = f a + total f l.
Proof using. done. Qed.

Lemma total_ext f g l : (forall a, a ∈ l -> f a = g a) -> total f l = total g l.
Proof using.
  induction l as [|a l IH]; intros Hfg; [done|]. rewrite !total_cons, (Hfg a) by left.
  rewrite IH; [done|]. intros b Hb. apply Hfg. by right.
Qed.

(** The same cache but for the stamps and the last hit. *)
Definition restamped s s' : Prop := exists nodes h,
  s' = set_hit h (set_nodes nodes s) /\ (h = g_last_hit s \/ h ∈ g_slices s) /\
  forall a, match c_nodes s !! a, nodes !! a with
            | Some n, Some n' => range n' = range n /\ pins n' = pins n
            | None, None => True
            | _, _ => False
            end.

Lemma restamped_refl s : restamped s s.
Proof using.
  exists (c_nodes s), (g_last_hit s). split; [by destruct s|]. split; [by left|].
  intros a. by destruct (c_nodes s !! a).
Qed.

Lemma restamped_node s s' a n :
  restamped s s' -> c_nodes s !! a = Some n ->
  exists n', c_nodes s' !! a = Some n' /\ range n' = range n /\ pins n' = pins n.
Proof using.
  intros (nodes & h & -> & _ & Hn) Ha. specialize (Hn a). rewrite Ha in Hn. cbn.
  destruct (nodes !! a) as [n'|]; [|done]. by exists n'.
Qed.

Lemma restamped_node' s s' a n' :
  restamped s s' -> c_nodes s' !! a = Some n' ->
  exists n, c_nodes s !! a = Some n /\ range n' = range n /\ pins n' = pins n.
Proof using.
  intros (nodes & h & -> & _ & Hn) Ha. specialize (Hn a). cbn in Ha. rewrite Ha in Hn.
  destruct (c_nodes s !! a) as [n|]; [|done]. by exists n.
Qed.

Lemma restamped_trans s1 s2 s3 : restamped s1 s2 -> restamped s2 s3 -> restamped s1 s3.
Proof using.
  intros (n1 & h1 & -> & Hh1 & Hn1) (n2 & h2 & -> & Hh2 & Hn2). exists n2, h2. split; [by destruct s1|].
  split; [destruct Hh2 as [->|]; [|by right]; cbn; destruct Hh1 as [->|]; [by left|by right]|].
  intros a. specialize (Hn1 a). specialize (Hn2 a). cbn in Hn2.
  destruct (c_nodes s1 !! a), (n1 !! a), (n2 !! a); try done. destruct Hn1, Hn2; split; congruence.
Qed.

Lemma restamped_ok B T s s' : restamped s s' -> cache_ok B T s -> cache_ok B T s'.
Proof using.
  intros Hr [He Hd Hnd Hno Hl Hh Hra Hdi Hby Hbo Hpi Hre Hfr Hid].
  assert (forall a, is_Some (c_nodes s !! a) <-> is_Some (c_nodes s' !! a)) as Hsome.
  { intros a. split; intros [n Hn].
    - destruct (restamped_node _ _ _ _ Hr Hn) as (n' & -> & _). by eexists.
    - destruct (restamped_node' _ _ _ _ Hr Hn) as (n' & -> & _). by eexists. }
  pose proof (restamped_node' s s') as Hback. destruct Hr as (nodes & h & -> & Hh' & Hn).
  assert (restamped s (set_hit h (set_nodes nodes s))) as Hr by (exists nodes, h; auto).
  split; cbn [c_env g_slices g_last_hit g_slice_bytes c_budget g_res_pins set_hit set_nodes] in *; try done.
  - intros a. rewrite Hno. apply Hsome.
  - destruct Hh' as [->|]; auto.
  - intros a n' Ha. destruct (Hback _ _ Hr Ha) as (n & Hn' & -> & _). by apply (Hra a).
  - intros a b n' m' Ha Hb' Hne. destruct (Hback _ _ Hr Ha) as (n & Hn' & -> & _).
    destruct (Hback _ _ Hr Hb') as (m & Hm' & -> & _). by apply (Hdi a b).
  - rewrite Hby. apply total_ext. intros a Ha. unfold node_bytes. cbn. specialize (Hn a).
    destruct (c_nodes s !! a), (nodes !! a); try done. by destruct Hn; f_equal.
  - intros a n' Ha. destruct (Hback _ _ Hr Ha) as (n & Hn' & _ & ->). by apply (Hpi a).
Qed.

(** Slices that were there stay, with their ranges and pins. *)
Record grown s s' : Prop := {
  gr_setup : c_setup s' = c_setup s;
  gr_res : g_res_pins s' = g_res_pins s;
  gr_nodes a n : c_nodes s !! a = Some n ->
    exists n', c_nodes s' !! a = Some n' /\ range n' = range n /\ pins n' = pins n;
}.

Lemma restamped_grown s s' : restamped s s' -> grown s s'.
Proof using.
  intros Hr. pose proof (fun a n => restamped_node s s' a n Hr) as Hn.
  destruct Hr as (nodes & h & -> & _). by split.
Qed.

Lemma cache_grown_refl s : grown s s.
Proof using. apply restamped_grown, restamped_refl. Qed.

Lemma cache_grown_trans s1 s2 s3 : grown s1 s2 -> grown s2 s3 -> grown s1 s3.
Proof using.
  intros [Hs1 Hr1 Hn1] [Hs2 Hr2 Hn2]. split; [congruence..|]. intros a n Ha.
  destruct (Hn1 a n Ha) as (n' & Ha' & E1 & E2). destruct (Hn2 a n' Ha') as (n'' & Ha'' & E1' & E2').
  exists n''. split_and!; congruence.
Qed.

(** ** Looking up *)

Definition found s gpa len a : Prop :=
  if decide (a = 0)
  then gpa <= u64 (gpa + len) ->
       forall b n, c_nodes s !! b = Some n -> slice_holds gpa (u64 (gpa + len)) n = false
  else gpa <= u64 (gpa + len) /\ exists n, c_nodes s !! a = Some n /\ slice_holds gpa (u64 (gpa + len)) n = true.

Lemma restamp_at s a n h :
  c_nodes s !! a = Some n -> (h = g_last_hit s \/ h ∈ g_slices s) ->
  restamped s (set_nodes (<[a := stamp (g_slice_clock s) n]> (c_nodes s)) (set_hit h s)).
Proof using.
  intros Ha Hh. exists (<[a := stamp (g_slice_clock s) n]> (c_nodes s)), h. split; [done|]. split; [done|].
  intros b. destruct (decide (a = b)) as [<-|Hne].
  - by rewrite Ha, lookup_insert_eq.
  - rewrite lookup_insert_ne by done. by destruct (c_nodes s !! b).
Qed.

Lemma wp_find_in B T s gpa len l (X : co_rc_value_t -> cogpu -> Prop) :
  cache_ok B T s -> gpa <= u64 (gpa + len) -> (forall a, a ∈ l -> a ∈ g_slices s) ->
  (forall a n, c_nodes s !! a = Some n -> a ∉ l -> slice_holds gpa (u64 (gpa + len)) n = false) ->
  wp (find_in l gpa (u64 (gpa + len))) (fun a s' => restamped s s' /\ found s gpa len a) X s.
Proof using.
  intros Hok Hle. induction l as [|a l IH]; intros Hl Hno; cbn [find_in].
  - wp_step. split; [apply restamped_refl|]. unfold found. rewrite decide_True by done.
    intros _ b n Hb. apply (Hno b); [done|apply not_elem_of_nil].
  - destruct (proj1 (co_nodes _ _ _ Hok a) ltac:(apply Hl; left)) as [n Hn].
    wp_step. eapply wp_node; [exact Hn|]. wp_step.
    + wp_step. wp_step. wp_step. unfold touch. wp_step. wp_step. eapply wp_upd_node; [exact Hn|]. wp_step.
      split; [apply (restamp_at s a n a Hn); right; apply Hl; left|].
      unfold found. rewrite decide_False by (apply (co_live _ _ _ Hok), Hl; left). eauto.
    + apply IH; [intros b Hb; apply Hl; by right|]. intros b m Hb Hbl.
      destruct (decide (b = a)) as [->|Hne]; [congruence|]. apply (Hno b); [done|].
      by apply not_elem_of_cons.
Qed.

Lemma wp_find_slice B T s gpa len (X : co_rc_value_t -> cogpu -> Prop) :
  cache_ok B T s -> wp (find_slice gpa len) (fun a s' => restamped s s' /\ found s gpa len a) X s.
Proof using.
  intros Hok. unfold find_slice. wp_step.
  { wp_step. split; [apply restamped_refl|]. unfold found. rewrite decide_True by done. lia. }
  wp_step. wp_step. wp_step.
  assert (wp (find_in (g_slices s) gpa (u64 (gpa + len))) (fun a s' => restamped s s' /\ found s gpa len a) X s) as Hin.
  { apply (wp_find_in B T); try done. intros a n Ha Hni. destruct Hni. apply (co_nodes _ _ _ Hok). by eexists. }
  wp_step; [wp_step; do 2 wp_step; exact Hin|].
  destruct (co_hit _ _ _ Hok) as [Hz|Hhit]; [done|].
  destruct (proj1 (co_nodes _ _ _ Hok _) Hhit) as [n Hn].
  wp_step. eapply wp_node; [exact Hn|]. wp_step. wp_step; [|do 2 wp_step; exact Hin].
  wp_step. unfold touch. wp_step. wp_step. eapply wp_upd_node; [exact Hn|]. wp_step.
  split; [|unfold found; rewrite decide_False by done; eauto].
  pose proof (restamp_at s _ n (g_last_hit s) Hn (or_introl eq_refl)) as Hr.
  replace (set_hit (g_last_hit s) s) with s in Hr by (by destruct s). exact Hr.
Qed.

(** ** Mapping *)

Lemma total_nonneg f l : (forall a, a ∈ l -> 0 <= f a) -> 0 <= total f l.
Proof using.
  induction l as [|a l IH]; intros Hf; [done|]. rewrite total_cons.
  assert (0 <= f a) by (apply Hf; left). assert (0 <= total f l) by (apply IH; intros b Hb; apply Hf; by right). lia.
Qed.

Lemma node_bytes_nonneg B T s a : cache_ok B T s -> 0 <= node_bytes s a.
Proof using.
  intros Hok. unfold node_bytes. destruct (c_nodes s !! a) as [n|] eqn:Hn; [|done].
  destruct (co_range _ _ _ Hok a n Hn) as (_ & _ & ? & _). lia.
Qed.

Lemma bytes_nonneg B T s : cache_ok B T s -> 0 <= g_slice_bytes s.
Proof using.
  intros Hok. rewrite (co_bytes _ _ _ Hok). apply total_nonneg. intros a _. by eapply node_bytes_nonneg.
Qed.

Definition driver_ok (e : E) : Prop :=
  NoDup (driver_ranges e) /\
  forall r r', r ∈ driver_ranges e -> r' ∈ driver_ranges e -> r <> r' -> apart r r'.

Lemma cache_env B T s e :
  cache_ok B T s -> env_ok e -> driver_ok e ->
  (forall r, r ∈ driver_ranges (c_env s) -> r ∈ driver_ranges e) ->
  (forall a, a ∈ g_slices s -> a ∈ live_nodes e) -> cache_ok B T (set_env e s).
Proof using.
  intros [He Hd Hnd Hno Hl Hh Hra Hdi Hby Hbo Hpi Hre Hfr Hid] He' Hd' Hsub Hlive. split; try done.
  - intros a Ha. split; [by apply Hlive|by apply Hl].
  - intros a n Ha. destruct (Hra a n Ha) as (? & ? & ?). split_and!; try done; [by apply Hsub|lia|lia|lia].
Qed.

Lemma kmap_driver_ok e gpa rc prc r e' :
  env_ok e -> driver_ok e -> ioctl_kmap_range gpa e = (rc, prc, r, e') -> driver_ok e'.
Proof using.
  intros He [Hnd Hap] Hk. pose proof (law_kmap gpa e He) as Hlaw. rewrite Hk in Hlaw.
  destruct Hlaw as (_ & _ & Hr). destruct (CO_OK _); [|by unfold driver_ok; rewrite Hr].
  destruct Hr as (_ & _ & [E1|(E1 & Hni & Hf)]); [by unfold driver_ok; rewrite E1|].
  unfold driver_ok. rewrite E1. split; [by constructor|]. rewrite Forall_forall in Hf.
  intros r1 r2 [->|H1]%elem_of_cons [->|H2]%elem_of_cons Hne; [done|by apply Hf| |by apply Hap].
  destruct (Hf r1 H1); [right|left]; lia.
Qed.

(** A new node at the head of the list. *)
Definition linked a r s : cogpu :=
  set_list (a :: g_slices s) a (s32 (g_slice_count s + 1)) (u64 (g_slice_bytes s + r_bytes r))
    (set_nodes (<[a := Node r 0 (g_slice_clock s)]> (c_nodes s)) s).

Lemma cache_link B T s a r :
  cache_ok B T s -> a <> 0 -> a ∈ live_nodes (c_env s) -> a ∉ g_slices s ->
  range_ok r -> r ∈ driver_ranges (c_env s) -> 0 < r_bytes r -> r_pa r + r_bytes r < 2 ^ 64 ->
  r_user_va r + r_bytes r < 2 ^ 64 -> (forall b n, c_nodes s !! b = Some n -> range n <> r) ->
  g_slice_bytes s + r_bytes r <= g_kmap_hard_bytes (c_budget s) ->
  cache_ok B T (linked a r s).
Proof using.
  intros Hok Hnz Hlive Hni Hr Hin Hb Hpa Hva Hdist Hhard. pose proof (bytes_nonneg _ _ _ Hok) as Hnn.
  assert (c_nodes s !! a = None) as Hna.
  { apply eq_None_not_Some. intros Hs. by apply Hni, (co_nodes _ _ _ Hok). }
  destruct Hok as [He Hd Hnd Hno Hl Hh Hra Hdi Hby Hbo Hpi Hre Hfr Hid].
  assert (g_slice_bytes s + r_bytes r < 2 ^ 64) as Hsmall
    by (change CO_KMAP_SLICE_BYTES with 12582912 in *; lia).
  split; unfold linked; cbn [c_env c_nodes g_slices g_last_hit g_slice_bytes c_budget g_res_pins set_list set_nodes];
    try done.
  - by constructor.
  - intros b. rewrite lookup_insert. case_decide; subst; rewrite elem_of_cons.
    + split; [by eexists|by left].
    + rewrite Hno. split; [intros [->|?]; [done|done]|by right].
  - intros b [->|Hb']%elem_of_cons; [done|by apply Hl].
  - right. left.
  - intros b n. rewrite lookup_insert. case_decide; [intros [= <-]; cbn; done|apply Hra].
  - intros b b' n m. rewrite !lookup_insert. do 2 case_decide; subst; try done.
    + intros [= <-] Hm _. cbn. intros ->. by apply (Hdist b' m).
    + intros Hn [= <-] _. cbn. by apply (Hdist b n).
    + apply Hdi.
  - rewrite total_cons, u64_small by lia. unfold node_bytes at 1. cbn. rewrite lookup_insert_eq. cbn.
    rewrite Hby, Z.add_comm. f_equal. apply total_ext. intros b Hb'. unfold node_bytes. cbn.
    rewrite lookup_insert_ne; [done|]. by intros ->.
  - rewrite u64_small by lia. lia.
  - intros b n. rewrite lookup_insert. case_decide; [|apply Hpi]. intros [= <-]. subst. cbn.
    symmetry. apply occ_notin. intros Hb'. rewrite Forall_forall in Hre. by apply Hni, Hre.
  - eapply Forall_impl; [exact Hre|]. intros b ?. by right.
Qed.

Lemma linked_grown s a r : c_nodes s !! a = None -> grown s (linked a r s).
Proof using.
  intros Hna. split; [done|done|]. intros b n Hn. exists n. cbn. rewrite lookup_insert_ne; [done|].
  intros ->. congruence.
Qed.

Definition mapped s gpa a : Prop :=
  a = 0 \/ exists n, c_nodes s !! a = Some n /\ range_has (range n) gpa.

Lemma holds_has n gpa len :
  range_ok (range n) -> r_pa (range n) + r_bytes (range n) < 2 ^ 64 -> 0 <= gpa < 2 ^ 64 -> 0 <= len < 2 ^ 64 ->
  gpa <= u64 (gpa + len) ->
  slice_holds gpa (u64 (gpa + len)) n = true <-> r_pa (range n) <= gpa /\ gpa + len <= r_pa (range n) + r_bytes (range n).
Proof using.
  intros ([? ?] & [? ?] & _) Hend Hg Hl Hle. unfold slice_holds.
  assert (u64 (gpa + len) = gpa + len) as E1.
  { unfold u64 in *. Z.div_mod_to_equations. lia. }
  rewrite E1, (u64_small (r_pa _ + _)) by lia.
  rewrite andb_true_iff, !Z.leb_le. lia.
Qed.

Lemma grown_env s e : grown s (set_env e s).
Proof using. split; [done|done|eauto]. Qed.

Lemma cache_free B T s a :
  cache_ok B T s -> a ∉ g_slices s -> cache_ok B T (set_env (heap_free a (c_env s)) s).
Proof using.
  intros Hok Hni. destruct (law_free a _ (co_env _ _ _ Hok)) as (He & Hd & Hl).
  apply cache_env; [done|done|unfold driver_ok; rewrite Hd; apply Hok|by rewrite Hd|].
  intros b Hb. rewrite Hl. apply elem_of_difference. split; [by apply (co_live _ _ _ Hok)|].
  by intros ->%elem_of_singleton.
Qed.

Lemma wp_calloc B T s (X : co_rc_value_t -> cogpu -> Prop) :
  cache_ok B T s ->
  wp (env heap_calloc) (fun a s' => (exists e, s' = set_env e s) /\ cache_ok B T s' /\
    (a <> 0 -> a ∈ live_nodes (c_env s') /\ a ∉ g_slices s)) X s.
Proof using.
  intros Hok. apply wp_env. intros a e Hal. pose proof (law_calloc _ (co_env _ _ _ Hok)) as Hla.
  rewrite Hal in Hla. destruct Hla as (He & Hd & Hl). split; [by exists e|]. split.
  - apply cache_env; [done|done|unfold driver_ok; rewrite Hd; apply Hok|by rewrite Hd|].
    intros b Hb. destruct (co_live _ _ _ Hok b Hb) as [Hb' _]. case_decide; [by rewrite Hl|].
    destruct Hl as [_ ->]. set_solver.
  - intros Hnz. rewrite decide_False in Hl by done. destruct Hl as [Hfresh Hl]. cbn. split; [set_solver|].
    intros Hs. by apply Hfresh, (co_live _ _ _ Hok).
Qed.

Lemma wp_kmap_call B T s gpa (X : co_rc_value_t -> cogpu -> Prop) :
  cache_ok B T s ->
  wp (co_manager_kmap_range gpa) (fun r s' => (exists e, s' = set_env e s) /\ cache_ok B T s' /\
    live_nodes (c_env s') = live_nodes (c_env s) /\
    match r with Some r => range_ok r /\ r ∈ driver_ranges (c_env s') | None => True end) X s.
Proof using.
  intros Hok. unfold co_manager_kmap_range. wp_step. apply wp_env. intros [[rc prc] r] e Hk.
  destruct (ioctl_kmap_range gpa (c_env s)) as [[[rc0 prc0] r0] e0] eqn:Hio. injection Hk as -> -> -> ->.
  pose proof (law_kmap gpa _ (co_env _ _ _ Hok)) as Hl. rewrite Hio in Hl. destruct Hl as (He & Hl & Hr).
  wp_step. split; [by exists e|]. split_and!; [|done|].
  - apply cache_env; [done|done|eapply kmap_driver_ok; [apply Hok| |exact Hio]; apply Hok| |].
    + intros r'. destruct (CO_OK _); [|by rewrite Hr]. destruct Hr as (_ & _ & [->|(-> & _)]); [done|by right].
    + intros a Ha. rewrite Hl. by apply (co_live _ _ _ Hok).
  - destruct (CO_OK _); [|done]. by destruct Hr as (? & ? & _).
Qed.

Lemma found_none B T s s1 gpa b n :
  cache_ok B T s -> restamped s s1 -> found s gpa 1 0 -> 0 <= gpa -> gpa + 1 < 2 ^ 64 ->
  c_nodes s1 !! b = Some n -> ~ range_has (range n) gpa.
Proof using.
  intros Hok Hr Hf H0' Hlt Hn Hhas. unfold found in Hf. rewrite decide_True in Hf by done.
  destruct (restamped_node' _ _ _ _ Hr Hn) as (m & Hm & E1 & _). rewrite E1 in Hhas.
  assert (gpa <= u64 (gpa + 1)) as Hle by (rewrite u64_small; lia).
  specialize (Hf Hle b m Hm). destruct (co_range _ _ _ Hok b m Hm) as (Hro & _ & _ & Hend & _).
  apply not_true_iff_false in Hf. apply Hf, holds_has; try done; [lia|].
  unfold range_has in Hhas. lia.
Qed.

Lemma found_some B T s s1 gpa len a :
  cache_ok B T s -> restamped s s1 -> found s gpa len a -> a <> 0 -> 0 <= gpa < 2 ^ 64 -> 0 <= len < 2 ^ 64 ->
  exists n, c_nodes s1 !! a = Some n /\ r_pa (range n) <= gpa /\ gpa + len <= r_pa (range n) + r_bytes (range n).
Proof using.
  intros Hok Hr Hf Hnz Hg Hlen. unfold found in Hf. rewrite decide_False in Hf by done.
  destruct Hf as (Hle & m & Hm & Hh). destruct (restamped_node _ _ _ _ Hr Hm) as (n & Hn & E1 & _).
  exists n. split; [done|]. rewrite E1. destruct (co_range _ _ _ Hok a m Hm) as (Hro & _ & _ & Hend & _).
  by apply holds_has in Hh.
Qed.

(** The checks on what the driver answered. *)
Lemma range_checked gpa r m :
  range_ok r -> range_bad gpa r = false -> unreadable r m = false -> 0 <= gpa < 2 ^ 64 ->
  0 < r_bytes r /\ r_pa r + r_bytes r < 2 ^ 64 /\ r_user_va r + r_bytes r < 2 ^ 64 /\ range_has r gpa /\ gpa + 1 < 2 ^ 64.
Proof using.
  intros (Hpa & Hb & Hva) Hbad Hun Hg. unfold range_bad in Hbad. unfold unreadable in Hun.
  destruct m as [m|]; [|done]. zbool. change CO_KMAP_SLICE_BYTES with 12582912 in *.
  unfold range_has, u64 in *. Z.div_mod_to_equations. lia.
Qed.

Lemma wp_slice_map B T s gpa (X : co_rc_value_t -> cogpu -> Prop) :
  cache_ok B T s -> 0 <= gpa < 2 ^ 64 ->
  wp (slice_map_locked gpa) (fun a s' => cache_ok B T s' /\ grown s s' /\ mapped s' gpa a) X s.
Proof using.
  intros Hok Hgpa. unfold slice_map_locked. wp_step.
  eapply wp_mono; [by eapply wp_find_slice| |done]. intros a s1 [Hr Hf].
  pose proof (restamped_ok _ _ _ _ Hr Hok) as Hok1. pose proof (restamped_grown _ _ Hr) as Hg1. wp_step.
  { wp_step. split_and!; [done|done|]. right.
    destruct (found_some _ _ _ _ _ _ _ Hok Hr Hf) as (n & Hn & ? & ?); [done|done|done|].
    exists n. split; [done|]. unfold range_has. lia. }
  subst a. do 4 wp_step. wp_step; [wp_step; split_and!; [done|done|by left]|]. wp_step.
  eapply wp_mono; [by apply (wp_calloc B T)| |done]. intros slice s2 ((e1 & ->) & Hok2 & Hal).
  pose proof (cache_grown_trans _ _ _ Hg1 (grown_env _ e1)) as Hg2.
  wp_step; [wp_step; split_and!; [done|done|by left]|]. destruct (Hal ltac:(done)) as [Hlive Hni]. wp_step.
  eapply wp_mono; [by apply (wp_kmap_call B T)| |done]. intros r s3 ((e2 & ->) & Hok3 & El & Hd).
  pose proof (cache_grown_trans _ _ _ Hg2 (grown_env _ e2)) as Hg3. set (s3 := set_env e2 _) in *.
  assert (forall X', wp (env_do (heap_free slice) ;; mret 0)
    (fun a s' => cache_ok B T s' /\ grown s s' /\ mapped s' gpa a) X' s3) as Hfree.
  { intros X'. unfold env_do. do 3 wp_step. split; [by apply cache_free|].
    split; [eapply cache_grown_trans; [exact Hg3|apply grown_env]|by left]. }
  destruct r as [r|]; [|by apply Hfree]. destruct Hd as [Hro Hin].
  destruct (range_bad gpa r) eqn:Hbad; [by apply Hfree|].
  do 2 wp_step. destruct (unreadable r _) eqn:Hun; [by apply Hfree|].
  destruct (range_checked _ _ _ Hro Hbad Hun Hgpa) as (Hb & Hpa & Hva & Hhas & Hlt).
  do 7 wp_step. change (set_list _ _ _ _ _) with (linked slice r s3).
  assert (c_nodes s3 !! slice = None) as Hna.
  { apply eq_None_not_Some. intros Hs. by apply Hni, (co_nodes _ _ _ Hok1). }
  split_and!; [|eapply cache_grown_trans; [exact Hg3|by apply linked_grown]|right; exists (Node r 0 (g_slice_clock s3)); split; [apply lookup_insert_eq|done]].
  apply cache_link; try done; [by rewrite El|..].
  - intros b n Hn E1. rewrite <- E1 in Hhas. eapply (found_none _ _ _ _ gpa b n Hok Hr Hf); [lia|exact Hlt|exact Hn|exact Hhas].
  - match goal with Hc : u64 (_ + CO_KMAP_SLICE_BYTES) <= _ |- _ => rewrite u64_small in Hc end.
    + destruct Hro as (_ & ? & _). cbn. lia.
    + pose proof (bytes_nonneg _ _ _ Hok1). destruct (co_bound _ _ _ Hok1) as (? & ? & _ & _ & ?).
      change CO_KMAP_SLICE_BYTES with 12582912 in *. lia.
Qed.

Lemma wp_map_slice B T s gpa (X : co_rc_value_t -> cogpu -> Prop) :
  cache_ok B T s -> 0 <= gpa < 2 ^ 64 ->
  wp (map_slice gpa) (fun a s' => cache_ok B T s' /\ grown s s' /\ mapped s' gpa a) X s.
Proof using.
  intros Hok Hgpa. unfold map_slice. wp_step.
  eapply wp_mono; [by eapply wp_find_slice| |done]. intros a s1 [Hr Hf].
  pose proof (restamped_ok _ _ _ _ Hr Hok) as Hok1. pose proof (restamped_grown _ _ Hr) as Hg1.
  unfold conf. do 4 wp_step. destruct (_ || _)%bool eqn:Hc.
  - wp_step. split_and!; [done|done|]. destruct (decide (a = 0)) as [|Hnz]; [by left|right].
    destruct (found_some _ _ _ _ _ _ _ Hok Hr Hf) as (n & Hn & ? & ?); [done|done|done|].
    exists n. split; [done|]. unfold range_has. lia.
  - eapply wp_mono; [by apply (wp_slice_map B T)| |done]. intros b s2 (Hok2 & Hg2 & Hm).
    split_and!; [done|by eapply cache_grown_trans|done].
Qed.

(** ** Resolving *)

(** Where [p] points: [len] bytes of guest memory from [gpa] on, through the
    view or through slice [a]. *)
Definition in_view s gpa len p : Prop :=
  p <> 0 /\ p = g_ram_view (c_setup s) + gpa /\ gpa + len <= g_window_base (c_setup s) /\
  gpa + len <= g_ram_view_bytes (c_setup s).
Definition in_slice s a gpa len p : Prop := exists n,
  c_nodes s !! a = Some n /\ r_pa (range n) <= gpa /\ gpa + len <= r_pa (range n) + r_bytes (range n) /\
  p = r_user_va (range n) + (gpa - r_pa (range n)).
Definition points s gpa len p : Prop := in_view s gpa len p \/ exists a, in_slice s a gpa len p.

Lemma in_slice_grown s s' a gpa len p : grown s s' -> in_slice s a gpa len p -> in_slice s' a gpa len p.
Proof using.
  intros Hg (n & Hn & Hrest). destruct (gr_nodes _ _ Hg a n Hn) as (n' & Hn' & E1 & _).
  exists n'. by rewrite E1.
Qed.

Lemma points_grown s s' gpa len p : grown s s' -> points s gpa len p -> points s' gpa len p.
Proof using.
  intros Hg [Hv|(a & Ha)]; [left|right; exists a; by eapply in_slice_grown].
  unfold in_view in *. by rewrite (gr_setup _ _ Hg).
Qed.

Lemma no_wrap gpa len : 0 <= gpa < 2 ^ 64 -> 0 <= len < 2 ^ 64 -> gpa <= u64 (gpa + len) -> u64 (gpa + len) = gpa + len.
Proof using. intros. unfold u64 in *. Z.div_mod_to_equations. lia. Qed.

Lemma wrap gpa len : 0 <= gpa < 2 ^ 64 -> 0 <= len < 2 ^ 64 -> u64 (gpa + len) < gpa -> 2 ^ 64 <= gpa + len.
Proof using. intros. unfold u64 in *. Z.div_mod_to_equations. lia. Qed.

Lemma view_ptr s gpa len :
  0 <= gpa < 2 ^ 64 -> 0 <= len < 2 ^ 64 -> ram_view_ptr (c_setup s) gpa len <> 0 ->
  in_view s gpa len (ram_view_ptr (c_setup s) gpa len) /\ 0 < len.
Proof using.
  intros Hg Hl. unfold ram_view_ptr, in_view.
  destruct ((g_ram_view _ =? 0) || (len =? 0) || (u64 (gpa + len) <? gpa))%bool eqn:Hc; [done|].
  destruct ((g_window_base _ <? _) || (g_ram_view_bytes _ <? _))%bool eqn:Hc2; [done|]. intros Hnz. zbool.
  rewrite no_wrap in * by done. split_and!; done || lia.
Qed.

(** The pointer into a slice that has the bytes. *)
Lemma slice_ptr_in B T s a n gpa len :
  cache_ok B T s -> c_nodes s !! a = Some n -> 0 <= gpa < 2 ^ 64 -> 0 <= len ->
  r_pa (range n) <= gpa -> gpa + len <= r_pa (range n) + r_bytes (range n) ->
  in_slice s a gpa len (slice_ptr n gpa).
Proof using.
  intros Hok Hn Hg Hl Hlo Hhi. exists n. split_and!; try done.
  destruct (co_range _ _ _ Hok a n Hn) as ((_ & _ & Hva) & _ & _ & _ & Hend).
  unfold slice_ptr. apply u64_small. lia.
Qed.

Lemma fits_iff B T s a n gpa len :
  cache_ok B T s -> c_nodes s !! a = Some n -> 0 <= gpa < 2 ^ 64 -> 0 <= len < 2 ^ 64 -> gpa <= u64 (gpa + len) ->
  fits n gpa len = true <-> gpa + len <= r_pa (range n) + r_bytes (range n).
Proof using.
  intros Hok Hn Hg Hl Hle. destruct (co_range _ _ _ Hok a n Hn) as ((Hpa & Hb & _) & _ & _ & Hend & _).
  unfold fits. rewrite (no_wrap gpa len), u64_small by (done || lia). by rewrite Z.leb_le.
Qed.

Lemma wp_resolve_gpa B T s main gpa len (X : co_rc_value_t -> cogpu -> Prop) :
  cache_ok B T s -> 0 <= gpa < 2 ^ 64 -> 0 <= len < 2 ^ 64 ->
  wp (resolve_gpa main gpa len) (fun p s' => cache_ok B T s' /\ grown s s' /\ (p = 0 \/ points s' gpa len p)) X s.
Proof using.
  intros Hok Hg Hl. unfold resolve_gpa. do 2 wp_step. wp_step.
  { wp_step. split; [done|]. split; [apply cache_grown_refl|]. right; left. by apply view_ptr. }
  wp_step.
  - wp_step. eapply wp_mono; [by apply (wp_slice_map B T)| |done]. intros a s1 (Hok1 & Hg1 & Hm).
    wp_step; [wp_step; split_and!; [done|done|by left]|]. destruct Hm as [|(n & Hn & Hhas)]; [done|].
    wp_step. eapply wp_node; [exact Hn|]. wp_step. split; [done|]. split; [done|].
    destruct (_ && _)%bool eqn:Hc; [|by left]. zbool. right; right. exists a.
    eapply slice_ptr_in; try done; [lia|unfold range_has in Hhas; lia|]. by eapply fits_iff.
  - wp_step. eapply wp_mono; [by eapply wp_find_slice| |done]. intros a s1 [Hr Hf].
    pose proof (restamped_ok _ _ _ _ Hr Hok) as Hok1. pose proof (restamped_grown _ _ Hr) as Hg1. wp_step.
    { destruct (found_some _ _ _ _ _ _ _ Hok Hr Hf) as (n & Hn & ? & ?); [done|done|done|].
      wp_step. eapply wp_node; [exact Hn|]. wp_step. split_and!; [done|done|]. right; right. exists a.
      eapply slice_ptr_in; try done; lia. }
    wp_step. eapply wp_mono; [by apply (wp_map_slice B T)| |done]. intros b s2 (Hok2 & Hg2 & Hm).
    pose proof (cache_grown_trans _ _ _ Hg1 Hg2) as Hg3.
    wp_step; [wp_step; split_and!; [done|done|by left]|]. destruct Hm as [|(n & Hn & Hhas)]; [done|].
    wp_step. eapply wp_node; [exact Hn|]. wp_step. split; [done|]. split; [done|].
    destruct (_ || _)%bool eqn:Hc; [by left|]. zbool. right; right. exists b.
    eapply slice_ptr_in; try done; [lia|unfold range_has in Hhas; lia|]. by eapply fits_iff.
Qed.

(** How much of a buffer one pointer reaches. *)
Definition reaches s gpa len r : Prop :=
  0 < r <= len /\
  (in_view s gpa 1 (g_ram_view (c_setup s) + gpa) /\ gpa + r <= g_window_base (c_setup s) \/
   ram_view_ptr (c_setup s) gpa 1 = 0 /\
   exists a n, c_nodes s !! a = Some n /\ r_pa (range n) <= gpa /\ gpa + r <= r_pa (range n) + r_bytes (range n)).

Lemma wp_resolve_run B T s gpa len (X : co_rc_value_t -> cogpu -> Prop) :
  cache_ok B T s -> 0 <= gpa < 2 ^ 64 -> 0 < len < 2 ^ 32 ->
  wp (resolve_run gpa len) (fun r s' => cache_ok B T s' /\ grown s s' /\ (r = 0 \/ reaches s' gpa len r)) X s.
Proof using.
  intros Hok Hg Hl. unfold resolve_run. do 2 wp_step. wp_step.
  { wp_step. split; [done|]. split; [apply cache_grown_refl|]. right.
    destruct (view_ptr s gpa 1) as [(Hnz & Hp & Hb & Hv) _]; [done|done|done|].
    unfold reaches. split; [case_match; zbool; [rewrite u32_small by lia|]; lia|left]. split.
    - unfold in_view. rewrite Hp in Hnz. done.
    - case_match; zbool; [rewrite u32_small by lia|]; lia. }
  wp_step. eapply wp_mono; [by eapply wp_find_slice| |done]. intros a s1 [Hr Hf].
  pose proof (restamped_ok _ _ _ _ Hr Hok) as Hok1. pose proof (restamped_grown _ _ Hr) as Hg1. wp_step.
  apply (wp_mono _ (fun a s' => cache_ok B T s' /\ grown s s' /\ mapped s' gpa a) _ X); [| |done].
  { wp_step.
    - eapply wp_mono; [by apply (wp_map_slice B T)| |done]. intros b s2 (Hok2 & Hg2 & Hm).
      split_and!; [done|by eapply cache_grown_trans|done].
    - wp_step. split_and!; [done|done|right].
      destruct (found_some _ _ _ _ _ _ _ Hok Hr Hf) as (n & Hn & ? & ?); [done|done|done|].
      exists n. split; [done|]. unfold range_has. lia. }
  intros b s2 (Hok2 & Hg2 & Hm). wp_step; [wp_step; split_and!; [done|done|by left]|].
  destruct Hm as [|(n & Hn & Hhas)]; [done|]. wp_step. eapply wp_node; [exact Hn|]. wp_step.
  split_and!; [done|done|]. right. destruct (co_range _ _ _ Hok2 b n Hn) as ((Hpa & Hb & _) & _ & Hb0 & Hend & _).
  unfold range_has in Hhas. rewrite (u64_small (_ - gpa)) by lia. change CO_KMAP_SLICE_BYTES with 12582912 in *.
  unfold reaches. split; [case_match; zbool; [rewrite u32_small by lia|]; lia|right].
  split; [rewrite (gr_setup _ _ Hg2); by zbool|]. exists b, n.
  split_and!; [done|lia|]. case_match; zbool; [rewrite u32_small by lia|]; lia.
Qed.
End cache.
