(* ===== verification/SlicesPin.v ===== *)
(** Pins and eviction: what is pinned stays, what is evicted was not pinned. *)
From S2P Require Import Prelude.
From S2P Require Import Rc.
From S2P Require Import Handles.
From S2P Require Import Slices.
From S2P Require Import SlicesOk.

Section pins.
Context {E : Type} `{CogpuLaws E}.
Implicit Types (s : @cogpu E) (n : mapped_slice) (a : Z) (T : list Z) (rp : list cogpu_res_pin).

(** ** Moving pins *)

Definition table_ok rp : Prop :=
  (forall i p, rp !! i = Some p -> rp_id p = 0 -> rp_slices p = []) /\
  (forall i j p q, rp !! i = Some p -> rp !! j = Some q -> rp_id p = rp_id q -> rp_id p <> 0 -> i = j).

Lemma cache_table B T s : cache_ok B T s -> table_ok (g_res_pins s).
Proof using. intros Hok. split; [exact (co_free _ _ _ Hok)|exact (co_ids _ _ _ Hok)]. Qed.

(** Nodes of the same ranges, each pinned as often as it is referred to. *)
Lemma cache_repin B T T' s rp nodes :
  cache_ok B T s -> table_ok rp -> Forall (fun a => a ∈ g_slices s) ((rp ≫= rp_slices) ++ T') ->
  (forall a, match c_nodes s !! a, nodes !! a with
             | Some n, Some n' => range n' = range n /\ pins n' = occ a ((rp ≫= rp_slices) ++ T')
             | None, None => True
             | _, _ => False
             end) ->
  cache_ok B T' (set_res_pins rp (set_nodes nodes s)).
Proof using.
  intros [He Hd Hnd Hno Hl Hh Hra Hdi Hby Hbo Hpi Hre Hfr Hid] [Ht1 Ht2] Hrefs Hn.
  assert (forall a n', nodes !! a = Some n' -> exists n, c_nodes s !! a = Some n /\ range n' = range n /\
    pins n' = occ a ((rp ≫= rp_slices) ++ T')) as Hback.
  { intros a n' Ha. specialize (Hn a). rewrite Ha in Hn. destruct (c_nodes s !! a) as [n|]; [|done]. by exists n. }
  split; cbn [c_env c_nodes g_slices g_last_hit g_slice_bytes c_budget g_res_pins set_res_pins set_nodes]; try done.
  - intros a. rewrite Hno. specialize (Hn a). unfold is_Some.
    destruct (c_nodes s !! a), (nodes !! a); try done; split; intros [? ?]; eauto; done.
  - intros a n' Ha. destruct (Hback a n' Ha) as (n & Hn' & -> & _). by apply (Hra a).
  - intros a b n' m' Ha Hb Hne. destruct (Hback a n' Ha) as (n & Hn' & -> & _).
    destruct (Hback b m' Hb) as (m & Hm' & -> & _). by apply (Hdi a b).
  - rewrite Hby. apply total_ext. intros a _. unfold node_bytes. cbn. specialize (Hn a).
    destruct (c_nodes s !! a), (nodes !! a); try done. destruct Hn; congruence.
  - intros a n' Ha. by destruct (Hback a n' Ha) as (n & _ & _ & ->).
Qed.

(** The nodes with [k] more pins for each time they are in [l]. *)
Definition shifted k (l : list Z) (m m' : gmap Z mapped_slice) : Prop :=
  forall a, match m !! a, m' !! a with
            | Some n, Some n' => range n' = range n /\ pins n' = pins n + k * occ a l
            | None, None => True
            | _, _ => False
            end.

Lemma shifted_refl k m : shifted k [] m m.
Proof using. intros a. destruct (m !! a); [|done]. split; [done|]. unfold occ. cbn. lia. Qed.

Lemma shifted_step k a l m n f m' :
  m !! a = Some n -> range (f n) = range n -> pins (f n) = pins n + k ->
  shifted k l (<[a := f n]> m) m' -> shifted k (a :: l) m m'.
Proof using.
  intros Ha Hr Hp Hs b. specialize (Hs b). rewrite occ_cons. destruct (decide (a = b)) as [<-|Hne].
  - rewrite lookup_insert_eq in Hs. rewrite Ha. destruct (m' !! a) as [n'|]; [|done].
    destruct Hs as [-> ->]. split; [done|]. lia.
  - rewrite lookup_insert_ne in Hs by done. destruct (m !! b), (m' !! b); try done.
Qed.

Lemma set_nodes_twice s m m' : set_nodes m' (set_nodes m s) = set_nodes m' s.
Proof using. done. Qed.

Lemma wp_add_pins s l (X : co_rc_value_t -> cogpu -> Prop) :
  (forall a, a ∈ l -> is_Some (c_nodes s !! a)) ->
  wp (each_node l add_pin) (fun _ s' => exists m, s' = set_nodes m s /\ shifted 1 l (c_nodes s) m) X s.
Proof using.
  revert s. induction l as [|a l IH]; intros s Hl; cbn [each_node].
  - wp_step. exists (c_nodes s). split; [by destruct s|apply shifted_refl].
  - destruct (Hl a ltac:(left)) as [n Hn]. wp_step. eapply wp_upd_node; [exact Hn|].
    eapply wp_mono; [apply IH| |done].
    + intros b Hb. cbn. rewrite lookup_insert_is_Some. destruct (decide (a = b)); [by left|right].
      split; [done|]. apply Hl. by right.
    + intros [] s' (m & -> & Hm). exists m. split; [done|]. by eapply (shifted_step 1 a l _ n add_pin).
Qed.

Lemma wp_drop_pins s l (X : co_rc_value_t -> cogpu -> Prop) :
  (forall a, a ∈ l -> exists n, c_nodes s !! a = Some n /\ occ a l <= pins n) ->
  wp (each_node l drop_pin) (fun _ s' => exists m, s' = set_nodes m s /\ shifted (-1) l (c_nodes s) m) X s.
Proof using.
  revert s. induction l as [|a l IH]; intros s Hl; cbn [each_node].
  - wp_step. exists (c_nodes s). split; [by destruct s|apply shifted_refl].
  - destruct (Hl a ltac:(left)) as (n & Hn & Hc). wp_step. eapply wp_upd_node; [exact Hn|].
    rewrite occ_cons, decide_True in Hc by done. pose proof (occ_nonneg a l).
    assert (drop_pin n = Node (range n) (pins n - 1) (last_use n)) as Ed.
    { unfold drop_pin. by rewrite (proj2 (Z.ltb_lt _ _)) by lia. }
    eapply wp_mono; [apply IH| |done].
    + intros b Hb. cbn. destruct (decide (a = b)) as [<-|Hne].
      * exists (drop_pin n). rewrite lookup_insert_eq, Ed. split; [done|]. cbn. lia.
      * destruct (Hl b ltac:(by right)) as (m & Hm & Hcm). exists m. rewrite lookup_insert_ne by done.
        split; [done|]. rewrite occ_cons, decide_False in Hcm by done. done.
    + intros [] s' (m & -> & Hm). exists m. split; [done|].
      eapply (shifted_step (-1) a l _ n drop_pin); [done|by rewrite Ed|rewrite Ed; cbn; lia|exact Hm].
Qed.

(** Slices that were there stay with their ranges, whatever their pins. *)
Definition kept s s' : Prop :=
  c_setup s' = c_setup s /\
  forall a n, c_nodes s !! a = Some n -> exists n', c_nodes s' !! a = Some n' /\ range n' = range n.

Lemma grown_kept s s' : grown s s' -> kept s s'.
Proof using. intros [Hs _ Hn]. split; [done|]. intros a n Ha. destruct (Hn a n Ha) as (n' & ? & ? & _). eauto. Qed.
Lemma kept_refl s : kept s s.
Proof using. apply grown_kept, cache_grown_refl. Qed.
Lemma kept_trans s1 s2 s3 : kept s1 s2 -> kept s2 s3 -> kept s1 s3.
Proof using.
  intros [Hs1 Hn1] [Hs2 Hn2]. split; [congruence|]. intros a n Ha. destruct (Hn1 a n Ha) as (m & Hm & E1).
  destruct (Hn2 a m Hm) as (m' & Hm' & E2). exists m'. split; [done|congruence].
Qed.
Lemma shifted_kept k l s m : shifted k l (c_nodes s) m -> kept s (set_nodes m s).
Proof using.
  intros Hm. split; [done|]. intros a n Ha. specialize (Hm a). rewrite Ha in Hm. cbn.
  destruct (m !! a) as [n'|]; [|done]. destruct Hm. eauto.
Qed.

Lemma in_slice_kept s s' a gpa len p : kept s s' -> in_slice s a gpa len p -> in_slice s' a gpa len p.
Proof using. intros [_ Hk] (n & Hn & Hrest). destruct (Hk a n Hn) as (n' & Hn' & E1). exists n'. by rewrite E1. Qed.
Lemma in_view_kept s s' gpa len p : kept s s' -> in_view s gpa len p -> in_view s' gpa len p.
Proof using. intros [Hs _]. unfold in_view. by rewrite Hs. Qed.

(** A list of pins moved between tokens and resources. *)
Lemma cache_shift B T T' s rp k l m :
  cache_ok B T s -> table_ok rp -> shifted k l (c_nodes s) m ->
  (forall a, a ∈ g_slices s -> occ a ((rp ≫= rp_slices) ++ T') = occ a (refs s T) + k * occ a l) ->
  Forall (fun a => a ∈ g_slices s) ((rp ≫= rp_slices) ++ T') ->
  cache_ok B T' (set_res_pins rp (set_nodes m s)).
Proof using.
  intros Hok Ht Hm Hc Hf. apply (cache_repin B T); try done. intros a. specialize (Hm a).
  destruct (c_nodes s !! a) as [n|] eqn:Hn, (m !! a) as [n'|]; try done. destruct Hm as [Hr Hp].
  split; [done|]. rewrite Hp, (co_pins _ _ _ Hok a n Hn), Hc; [done|].
  apply (co_nodes _ _ _ Hok). by eexists.
Qed.

Lemma set_res_pins_id s m : set_res_pins (g_res_pins s) (set_nodes m s) = set_nodes m s.
Proof using. by destruct s. Qed.

(** *** Tokens *)

Lemma wp_pinned B T s gpa len (X : co_rc_value_t -> cogpu -> Prop) :
  cache_ok B T s -> 0 <= gpa < 2 ^ 64 -> 0 <= len < 2 ^ 64 ->
  wp (cogpu_resolve_gpa_pinned gpa len) (fun r s' => kept s s' /\ g_res_pins s' = g_res_pins s /\
    if decide (r.2 = 0) then cache_ok B T s' /\ (r.1 = 0 \/ in_view s' gpa len r.1)
    else cache_ok B (r.2 :: T) s' /\ in_slice s' r.2 gpa len r.1) X s.
Proof using.
  intros Hok Hg Hl. unfold cogpu_resolve_gpa_pinned.
  assert (forall s', cache_ok B T s' -> grown s s' -> kept s s' /\ g_res_pins s' = g_res_pins s /\
    if decide (0 = 0) then cache_ok B T s' /\ (0 = 0 \/ in_view s' gpa len 0)
    else cache_ok B (0 :: T) s' /\ in_slice s' 0 gpa len 0) as Hnone.
  { intros s' Hok' Hg'. split; [by apply grown_kept|]. split; [apply Hg'|]. rewrite decide_True by done. auto. }
  wp_step; [wp_step; by apply Hnone, cache_grown_refl|]. do 2 wp_step. wp_step.
  { wp_step. split; [apply kept_refl|]. split; [done|]. cbn. split; [done|]. right. by apply view_ptr. }
  wp_step; [wp_step; by apply Hnone, cache_grown_refl|]. wp_step.
  eapply wp_mono; [by apply (wp_slice_map B T)| |done]. intros a s1 (Hok1 & Hg1 & Hm).
  wp_step; [wp_step; by apply Hnone|]. destruct Hm as [|(n & Hn & Hhas)]; [done|].
  wp_step. eapply wp_node; [exact Hn|]. destruct (fits n gpa len) eqn:Hf; [|wp_step; by apply Hnone].
  wp_step. wp_step. wp_step. eapply wp_upd_node; [exact Hn|]. wp_step. cbn [fst snd]. rewrite decide_False by done.
  set (m := <[a := pin (g_slice_clock s1) n]> (c_nodes s1)).
  assert (shifted 1 [a] (c_nodes s1) m) as Hsh.
  { eapply (shifted_step 1 a [] _ n (pin (g_slice_clock s1))); try done. apply shifted_refl. }
  pose proof (shifted_kept _ _ _ _ Hsh) as Hk. split_and!.
  - eapply kept_trans; [by apply grown_kept|exact Hk].
  - apply Hg1.
  - rewrite <- set_res_pins_id. eapply cache_shift; [exact Hok1|by eapply cache_table|exact Hsh|..].
    + intros b _. unfold refs. rewrite !occ_app, !occ_cons. change (occ b []) with 0. lia.
    + pose proof (co_refs _ _ _ Hok1) as Hr. unfold refs in Hr. rewrite Forall_app in *.
      destruct Hr as [? ?]. split; [done|]. constructor; [|done]. apply (co_nodes _ _ _ Hok1). by eexists.
  - eapply in_slice_kept; [exact Hk|]. eapply slice_ptr_in; try done; [lia|unfold range_has in Hhas; lia|].
    zbool. by eapply fits_iff.
Qed.

Lemma wp_unpin B T T' s t (X : co_rc_value_t -> cogpu -> Prop) :
  cache_ok B T s -> T ≡ₚ t :: T' -> g_slice_lock_ready (c_setup s) = true ->
  wp (cogpu_unpin t) (fun _ s' => cache_ok B T' s' /\ kept s s' /\ g_res_pins s' = g_res_pins s) X s.
Proof using.
  intros Hok HT Hready. unfold cogpu_unpin, conf. do 2 wp_step. rewrite Hready.
  assert (t ∈ g_slices s) as Hin.
  { pose proof (co_refs _ _ _ Hok) as Hr. rewrite Forall_forall in Hr. apply Hr. unfold refs. rewrite HT. set_solver. }
  destruct (co_live _ _ _ Hok t Hin) as [_ Hnz]. rewrite (proj2 (Z.eqb_neq _ _) Hnz). cbn [negb orb].
  destruct (proj1 (co_nodes _ _ _ Hok t) Hin) as [n Hn].
  assert (0 < pins n) as Hp.
  { rewrite (co_pins _ _ _ Hok t n Hn). apply occ_in. unfold refs. rewrite HT. set_solver. }
  assert (drop_pin n = Node (range n) (pins n - 1) (last_use n)) as Ed.
  { unfold drop_pin. by rewrite (proj2 (Z.ltb_lt _ _) Hp). }
  eapply wp_upd_node; [exact Hn|]. set (m := <[t := drop_pin n]> (c_nodes s)).
  assert (shifted (-1) [t] (c_nodes s) m) as Hsh.
  { eapply (shifted_step (-1) t [] _ n drop_pin); [done|by rewrite Ed|rewrite Ed; cbn; lia|]. apply shifted_refl. }
  split_and!; [|by eapply shifted_kept|done].
  rewrite <- set_res_pins_id. eapply cache_shift; [exact Hok|by eapply cache_table|exact Hsh|..].
  - intros b _. unfold refs. rewrite !occ_app, (occ_perm b _ _ HT), !occ_cons. change (occ b []) with 0. lia.
  - pose proof (co_refs _ _ _ Hok) as Hr. unfold refs in Hr. rewrite HT in Hr. rewrite Forall_app in *.
    destruct Hr as [? Hr]. split; [done|]. by apply Forall_cons in Hr as [_ ?].
Qed.

(** *** Resources *)

(** The slices the table holds for a resource. *)
Definition res_slices rp (id : Z) : list Z :=
  match slot_of rp id with Some i => default [] (rp_slices <$> rp !! i) | None => [] end.

Lemma slot_of_some rp id i : slot_of rp id = Some i -> exists p, rp !! i = Some p /\ rp_id p = id.
Proof using.
  revert i. induction rp as [|p rp IH]; intros i; cbn; [done|]. destruct (rp_id p =? id) eqn:He.
  - intros [= <-]. zbool. by exists p.
  - destruct (slot_of rp id) as [j|]; [|done]. intros [= <-]. by apply IH.
Qed.

Lemma slot_of_none rp id i p : slot_of rp id = None -> rp !! i = Some p -> rp_id p <> id.
Proof using.
  revert i. induction rp as [|q rp IH]; intros i; cbn; [done|]. destruct (rp_id q =? id) eqn:He; [done|].
  destruct (slot_of rp id); [done|]. intros _. destruct i; [intros [= ->]; by zbool|by apply IH].
Qed.

Lemma res_slices_at rp i p : table_ok rp -> rp !! i = Some p -> rp_id p <> 0 -> res_slices rp (rp_id p) = rp_slices p.
Proof using.
  intros [_ Hu] Hp Hnz. unfold res_slices. destruct (slot_of rp (rp_id p)) as [j|] eqn:Hs.
  - destruct (slot_of_some _ _ _ Hs) as (q & Hq & Eq). rewrite (Hu i j p q) in Hp by done. by rewrite Hp.
  - by destruct (slot_of_none _ _ _ _ Hs Hp).
Qed.

Lemma res_slices_none rp id : (forall i p, rp !! i = Some p -> rp_id p <> id) -> res_slices rp id = [].
Proof using.
  intros Hn. unfold res_slices. destruct (slot_of rp id) as [j|] eqn:Hs; [|done].
  destruct (slot_of_some _ _ _ Hs) as (q & Hq & Eq). by destruct (Hn j q Hq).
Qed.

Lemma table_set rp i p id l :
  table_ok rp -> rp !! i = Some p -> (id = 0 -> l = []) ->
  (id <> 0 -> forall j q, rp !! j = Some q -> rp_id q = id -> j = i) ->
  table_ok (<[i := ResPin id l]> rp) /\
  forall k, k <> 0 -> res_slices (<[i := ResPin id l]> rp) k =
    if decide (k = id) then l else if decide (k = rp_id p) then [] else res_slices rp k.
Proof using.
  intros Ht Hp H0l Hid. pose proof (lookup_lt_Some _ _ _ Hp) as Hlt.
  assert (forall j q, <[i := ResPin id l]> rp !! j = Some q -> (j = i /\ q = ResPin id l) \/ (j <> i /\ rp !! j = Some q)) as Hl.
  { intros j q Hq. apply list_lookup_insert_Some in Hq as [(-> & <- & _)|(? & ?)]; auto. }
  assert (table_ok (<[i := ResPin id l]> rp)) as Ht'.
  { destruct Ht as [Hf Hu]. split.
    - intros j q [(-> & ->)|(_ & Hq)]%Hl; [done|by apply (Hf j)].
    - intros j k q r [(-> & ->)|(Hj & Hq)]%Hl [(-> & ->)|(Hk & Hr)]%Hl; [done|..].
      + cbn. intros E1 Hnz. symmetry. by apply (Hid Hnz k r).
      + cbn. intros E1 Hnz. rewrite E1 in Hnz. by apply (Hid Hnz j q).
      + by apply (Hu j k q r). }
  split; [done|]. intros k Hk. case_decide as Ek; [|case_decide as Ep].
  - subst k. apply (res_slices_at _ i (ResPin id l)); [done| |done]. by apply list_lookup_insert_eq.
  - subst k. apply res_slices_none. intros j q [(-> & ->)|(Hj & Hq)]%Hl; [cbn; congruence|].
    intros E1. destruct Hj. apply (proj2 Ht j i q p); congruence.
  - destruct (slot_of rp k) as [j|] eqn:Hs.
    + destruct (slot_of_some _ _ _ Hs) as (q & Hq & Eq). subst k.
      rewrite (res_slices_at rp j q) by done. apply (res_slices_at _ j q); [done| |done].
      rewrite list_lookup_insert_ne; [done|]. intros <-. congruence.
    + rewrite (res_slices_none rp) by (intros j q; by apply slot_of_none).
      apply res_slices_none. intros j q [(-> & ->)|(_ & Hq)]%Hl; [done|]. by eapply slot_of_none.
Qed.

(** The table's references when one slot changes. *)
Lemma refs_set rp i p q T a :
  rp !! i = Some p -> occ a ((<[i := q]> rp ≫= rp_slices) ++ T) =
    occ a ((rp ≫= rp_slices) ++ T) - occ a (rp_slices p) + occ a (rp_slices q).
Proof using.
  intros Hp. destruct (bind_insert_perm rp_slices rp i p q Hp) as [E1 E2].
  rewrite !occ_app, (occ_perm a _ _ E1), (occ_perm a _ _ E2), !occ_app. lia.
Qed.

Lemma refs_set_forall (P : Z -> Prop) rp i p q T :
  rp !! i = Some p -> Forall P ((rp ≫= rp_slices) ++ T) -> Forall P (rp_slices q) ->
  Forall P ((<[i := q]> rp ≫= rp_slices) ++ T).
Proof using.
  intros Hp. destruct (bind_insert_perm rp_slices rp i p q Hp) as [-> ->]. rewrite !Forall_app. tauto.
Qed.

(** Only what the table says of [id] may have changed. *)
Definition others (id : Z) s s' : Prop :=
  forall k, k <> 0 -> k <> id -> res_slices (g_res_pins s') k = res_slices (g_res_pins s) k.

Lemma others_trans id s1 s2 s3 : others id s1 s2 -> others id s2 s3 -> others id s1 s3.
Proof using. intros H1' H2' k Hk Hne. by rewrite H2', H1'. Qed.

Lemma wp_res_pins_drop B T s id (X : co_rc_value_t -> cogpu -> Prop) :
  cache_ok B T s -> wp (res_pins_drop id) (fun _ s' => cache_ok B T s' /\ kept s s' /\ others id s s' /\
    length (g_res_pins s') = length (g_res_pins s) /\ (id <> 0 -> forall i p, g_res_pins s' !! i = Some p -> rp_id p <> id)) X s.
Proof using.
  intros Hok. pose proof (cache_table _ _ _ Hok) as Ht. unfold res_pins_drop. wp_step.
  { wp_step. split_and!; [done|apply kept_refl|done|done|lia]. }
  do 2 wp_step. destruct (slot_of (g_res_pins s) id) as [i|] eqn:Hs.
  2: { wp_step. split_and!; [done|apply kept_refl|done|done|]. intros _ i p. by apply slot_of_none. }
  destruct (slot_of_some _ _ _ Hs) as (p & Hp & Ep). rewrite Hp. cbn [default from_option Datatypes.id fmap option_fmap option_map].
  assert (forall a, occ a (rp_slices p) <= occ a (refs s T)) as Hle.
  { intros a. destruct (bind_insert_perm rp_slices _ i p p Hp) as [E1 _]. unfold refs.
    rewrite occ_app, (occ_perm a _ _ E1), occ_app. pose proof (occ_nonneg a T).
    pose proof (occ_nonneg a (delete i (g_res_pins s) ≫= rp_slices)). lia. }
  wp_step. eapply wp_mono; [apply wp_drop_pins| |done].
  - intros a Ha. assert (a ∈ refs s T) as Hin.
    { unfold refs. apply elem_of_app. left. apply list_elem_of_bind. exists p. split; [done|]. by eapply list_elem_of_lookup_2. }
    pose proof (co_refs _ _ _ Hok) as Hr. rewrite Forall_forall in Hr.
    destruct (proj1 (co_nodes _ _ _ Hok a) (Hr a Hin)) as [n Hn]. exists n. split; [done|].
    by rewrite (co_pins _ _ _ Hok a n Hn).
  - intros [] s' (m & -> & Hm). wp_step.
    destruct (table_set _ i p 0 [] Ht Hp) as [Ht' Hres]; [done|done|]. split_and!.
    + eapply cache_shift; [exact Hok|exact Ht'|exact Hm|..].
      * intros a _. rewrite (refs_set _ _ _ _ _ _ Hp). unfold refs. change (occ a (rp_slices (ResPin 0 []))) with 0. lia.
      * eapply refs_set_forall; [exact Hp|apply (co_refs _ _ _ Hok)|constructor].
    + by eapply shifted_kept.
    + intros k Hk Hne. cbn. rewrite Hres, decide_False, decide_False by congruence. done.
    + apply length_insert.
    + intros _ j q. cbn. intros [(-> & <- & _)|(Hj & Hq)]%list_lookup_insert_Some; [cbn; congruence|].
      intros E1. apply Hj. symmetry. apply (proj2 Ht j i q p); congruence.
Qed.

(** A call that leaves the driver's slices and the heap's nodes alone. *)
Lemma wp_env_quiet {A} B T s (f : E -> A * E) (X : co_rc_value_t -> cogpu -> Prop) :
  (forall e, env_ok e -> env_ok (f e).2 /\ driver_ranges (f e).2 = driver_ranges e /\ live_nodes (f e).2 = live_nodes e) ->
  cache_ok B T s -> wp (env f) (fun _ s' => cache_ok B T s' /\ exists e, s' = set_env e s) X s.
Proof using.
  intros Hf Hok. apply wp_env. intros x e Hfe. pose proof (Hf _ (co_env _ _ _ Hok)) as Hl. rewrite Hfe in Hl.
  destruct Hl as (He & Hd & Hl). split; [|by exists e].
  apply cache_env; [done|done|unfold driver_ok; cbn in Hd; rewrite Hd; apply Hok|cbn in Hd; by rewrite Hd|].
  cbn in Hl. rewrite Hl. apply (co_live _ _ _ Hok).
Qed.

Lemma kept_env s e : kept s (set_env e s).
Proof using. apply grown_kept, grown_env. Qed.

(** A free slot of a table that holds the same pins. *)
Lemma table_app B T s rp (len : nat) :
  cache_ok B T s -> rp = replicate len (ResPin 0 []) ->
  cache_ok B T (set_res_pins (g_res_pins s ++ rp) s) /\
  forall k, k <> 0 -> res_slices (g_res_pins s ++ rp) k = res_slices (g_res_pins s) k.
Proof using.
  intros Hok ->. pose proof (cache_table _ _ _ Hok) as Ht.
  assert ((replicate len (ResPin 0 []) ≫= rp_slices) = []) as E1 by (by induction len).
  assert (forall i p, (g_res_pins s ++ replicate len (ResPin 0 [])) !! i = Some p ->
    g_res_pins s !! i = Some p \/ p = ResPin 0 []) as Hl.
  { intros i p [Hp|(_ & Hp)]%lookup_app_Some; [by left|right]. by apply lookup_replicate in Hp as [-> _]. }
  assert (table_ok (g_res_pins s ++ replicate len (ResPin 0 []))) as Ht'.
  { split; [intros i p [Hp| ->]%Hl; [by apply Ht with i|done]|].
    intros i j p q [Hp| ->]%Hl [Hq| ->]%Hl Ei Hnz; cbn in *; try congruence. by apply (proj2 Ht i j p q). }
  split.
  - replace s with (set_nodes (c_nodes s) s) at 2 by (by destruct s).
    eapply (cache_shift B T T s _ 1 []); [done|done|apply shifted_refl|..].
    + intros a _. unfold refs. rewrite bind_app, E1, app_nil_r. change (occ a []) with 0. lia.
    + rewrite bind_app, E1, app_nil_r. apply Hok.
  - intros k Hk. destruct (slot_of (g_res_pins s) k) as [i|] eqn:Hs.
    + destruct (slot_of_some _ _ _ Hs) as (p & Hp & <-).
      rewrite (res_slices_at (g_res_pins s) i p) by done. apply (res_slices_at _ i p); [done| |done].
      by apply lookup_app_l_Some.
    + rewrite (res_slices_none (g_res_pins s)) by (intros j q; by apply slot_of_none).
      apply res_slices_none. intros j q [Hq| ->]%Hl; [by eapply slot_of_none|done].
Qed.

Lemma wp_res_pins_slot B T s (X : co_rc_value_t -> cogpu -> Prop) :
  cache_ok B T s -> Z.of_nat (length (g_res_pins s)) < 2 ^ 31 ->
  wp res_pins_slot (fun o s' => cache_ok B T s' /\ kept s s' /\ others 0 s s' /\
    (forall i p, g_res_pins s' !! i = Some p -> rp_id p = 0 \/ g_res_pins s !! i = Some p) /\
    match o with
    | Some i => exists p, g_res_pins s' !! i = Some p /\ rp_id p = 0
    | None => g_res_pins s' = g_res_pins s
    end) X s.
Proof using.
  intros Hok Hlen. unfold res_pins_slot. do 2 wp_step. destruct (slot_of (g_res_pins s) 0) as [i|] eqn:Hs.
  { wp_step. split_and!; [done|apply kept_refl|done|by right|]. by apply slot_of_some. }
  set (want := if (length _ =? 0)%nat then 1024 else _).
  assert (Z.of_nat (length (g_res_pins s)) < want) as Hw.
  { unfold want. destruct (Nat.eqb_spec (length (g_res_pins s)) 0); [lia|]. rewrite u32_small; lia. }
  clearbody want. wp_step. eapply wp_mono; [apply (wp_env_quiet B T); [apply law_malloc|done]| |done].
  intros ok s1 [Hok1 (e & ->)]. wp_step; [wp_step; split_and!; [done|apply kept_env|done|by right|done]|]. do 3 wp_step.
  destruct (table_app B T (set_env e s) _ (Z.to_nat (want - Z.of_nat (length (g_res_pins s)))) Hok1 eq_refl) as [Hok2 Hres].
  split_and!; [exact Hok2|apply kept_env|intros k Hk _; by apply Hres|..].
  { intros i p [Hp|(_ & Hp)]%lookup_app_Some; [by right|left]. by apply lookup_replicate in Hp as [-> _]. }
  exists (ResPin 0 []). split; [|done]. cbn. rewrite lookup_app_r, Nat.sub_diag by done.
  apply lookup_replicate. split; [done|]. lia.
Qed.

(** What a request may pin. *)
Definition pc_ok s (pc : pin_collect) : Prop := Forall (fun a => a ∈ g_slices s) (pc_s pc).

Lemma pc_kept B T B' T' s s' pc : cache_ok B T s -> cache_ok B' T' s' -> kept s s' -> pc_ok s pc -> pc_ok s' pc.
Proof using.
  intros Hok Hok' [_ Hk] Hpc. unfold pc_ok. eapply Forall_impl; [exact Hpc|]. intros a Ha.
  destruct (proj1 (co_nodes _ _ _ Hok a) Ha) as [n Hn]. destruct (Hk a n Hn) as (n' & Hn' & _).
  apply (co_nodes _ _ _ Hok'). by eexists.
Qed.

Lemma wp_res_pins_commit B T s id pc (X : co_rc_value_t -> cogpu -> Prop) :
  cache_ok B T s -> pc_ok s pc -> Z.of_nat (length (g_res_pins s)) < 2 ^ 31 ->
  wp (res_pins_commit id pc) (fun ok s' => cache_ok B T s' /\ kept s s' /\ others id s s' /\
    if ok : bool then id <> 0 /\ pc_overflow pc = false /\ res_slices (g_res_pins s') id = pc_s pc
    else s' = s \/ (id <> 0 /\ res_slices (g_res_pins s') id = [])) X s.
Proof using.
  intros Hok Hpc Hlen. unfold res_pins_commit. destruct (_ || _)%bool eqn:Hc.
  { wp_step. split_and!; [done|apply kept_refl|done|by left]. }
  zbool. assert (id <> 0) as Hid by done. wp_step. eapply wp_mono; [by apply (wp_res_pins_drop B T)| |done].
  intros [] s1 (Hok1 & Hk1 & Ho1 & Hl1 & Hno1).
  assert (forall s', others 0 s1 s' -> others id s s' /\ res_slices (g_res_pins s') id = []) as Hsame.
  { intros s' Ho. split; [intros k Hk Hne; rewrite Ho, Ho1 by done; done|].
    rewrite Ho by done. apply res_slices_none, Hno1, Hid. }
  pose proof (Hsame s1 ltac:(done)) as [_ Hnone].
  destruct (length (pc_s pc) =? 0)%nat eqn:Hpcs.
  { wp_step. apply Nat.eqb_eq, nil_length_inv in Hpcs. rewrite Hpcs. split_and!; done. }
  wp_step.
  eapply wp_mono; [apply (wp_env_quiet B T); [apply law_malloc|done]| |done]. intros own s2 [Hok2 (e & ->)].
  pose proof (kept_trans _ _ _ Hk1 (kept_env s1 e)) as Hk2.
  wp_step; [wp_step; split_and!; [done|done|done|by right]|]. wp_step.
  eapply wp_mono; [apply (wp_res_pins_slot B T); [done|cbn; by rewrite Hl1]| |done].
  intros slot s3 (Hok3 & Hk3 & Ho3 & Hold & Hslot). pose proof (kept_trans _ _ _ Hk2 Hk3) as Hk4.
  destruct (Hsame s3 Ho3) as [Ho4 Hn4].
  destruct slot as [i|]; [|wp_step; split_and!; [done|done|done|by right]]. destruct Hslot as (p & Hp & Ep).
  assert (pc_ok s3 pc) as Hpc3 by (eapply pc_kept; [exact Hok|exact Hok3|exact Hk4|exact Hpc]). pose proof (cache_table _ _ _ Hok3) as Ht.
  wp_step. eapply wp_mono; [apply wp_add_pins| |done].
  { intros a Ha. apply (co_nodes _ _ _ Hok3). by apply (proj1 (Forall_forall _ _) Hpc3). }
  intros [] s5 (m & -> & Hm). do 5 wp_step. cbn [g_res_pins set_nodes].
  destruct (table_set _ i p id (pc_s pc) Ht Hp) as [Ht' Hres]; [done| |].
  { intros _ j q Hq Eq. exfalso. destruct (Hold j q Hq) as [E0|Hq1]; [congruence|]. by apply (Hno1 Hid j q). }
  split_and!.
  - eapply cache_shift; [exact Hok3|exact Ht'|exact Hm|..].
    + intros a _. rewrite (refs_set _ _ _ _ _ _ Hp). unfold refs.
      rewrite (co_free _ _ _ Hok3 i p Hp Ep). change (occ a []) with 0. cbn [rp_slices]. lia.
    + eapply refs_set_forall; [exact Hp|apply (co_refs _ _ _ Hok3)|exact Hpc3].
  - eapply kept_trans; [exact Hk4|by eapply shifted_kept].
  - intros k Hk Hne. cbn. rewrite Hres, decide_False, decide_False by congruence. by apply Ho4.
  - done.
  - done.
  - cbn. by rewrite Hres, decide_True.
Qed.

(** *** Collecting what to pin *)

(** Two slices never hold the same address. *)
Lemma slices_apart B T s a b n m gpa :
  cache_ok B T s -> c_nodes s !! a = Some n -> c_nodes s !! b = Some m ->
  range_has (range n) gpa -> range_has (range m) gpa -> a = b.
Proof using.
  intros Hok Hn Hm Ha Hb. destruct (decide (a = b)) as [|Hne]; [done|exfalso].
  pose proof (co_distinct _ _ _ Hok a b n m Hn Hm Hne) as Hd.
  destruct (co_range _ _ _ Hok a n Hn) as (_ & Hin & _). destruct (co_range _ _ _ Hok b m Hm) as (_ & Him & _).
  destruct (proj2 (co_driver _ _ _ Hok) _ _ Hin Him Hd); unfold range_has in *; lia.
Qed.

(** The slice [gpa] is in is collected, unless there was no room for it. *)
Definition collected s (gpa : Z) (pc : pin_collect) : Prop :=
  pc_overflow pc = true \/ forall a n, c_nodes s !! a = Some n -> range_has (range n) gpa -> a ∈ pc_s pc.
Definition more_pins (pc pc' : pin_collect) : Prop :=
  (pc_overflow pc = true -> pc_overflow pc' = true) /\ forall a, a ∈ pc_s pc -> a ∈ pc_s pc'.

Lemma more_pins_refl pc : more_pins pc pc.
Proof using. done. Qed.
Lemma more_pins_trans p1 p2 p3 : more_pins p1 p2 -> more_pins p2 p3 -> more_pins p1 p3.
Proof using. intros [H1' H2'] [H3' H4']. split; auto. Qed.

Lemma wp_pin_collect_add B T s pc gpa (X : co_rc_value_t -> cogpu -> Prop) :
  cache_ok B T s -> 0 <= gpa -> gpa + 1 < 2 ^ 64 -> pc_ok s pc ->
  wp (pin_collect_add pc gpa) (fun pc' s' => cache_ok B T s' /\ grown s s' /\ pc_ok s' pc' /\
    more_pins pc pc' /\ collected s' gpa pc') X s.
Proof using.
  intros Hok H0g Hlt Hpc. unfold pin_collect_add. wp_step.
  eapply wp_mono; [by eapply wp_find_slice| |done]. intros a s1 [Hr Hf].
  pose proof (restamped_ok _ _ _ _ Hr Hok) as Hok1. pose proof (restamped_grown _ _ Hr) as Hg1.
  assert (pc_ok s1 pc) as Hpc1 by (eapply pc_kept; [exact Hok|exact Hok1|by apply grown_kept|done]).
  wp_step. split; [done|]. split; [done|]. destruct (a =? 0) eqn:Ha; zbool.
  - subst a. split_and!; [done|apply more_pins_refl|]. right. intros b n Hn Hhas.
    by destruct (found_none _ _ _ _ gpa b n Hok Hr Hf H0g Hlt Hn).
  - destruct (found_some _ _ _ _ _ _ _ Hok Hr Hf) as (n & Hn & Hlo & Hhi); [done|lia|done|].
    assert (forall b m, c_nodes s1 !! b = Some m -> range_has (range m) gpa -> b = a) as Huniq.
    { intros b m Hm Hhas. eapply slices_apart; try done. unfold range_has. lia. }
    case_bool_decide as Hin.
    { split_and!; [done|apply more_pins_refl|]. right. intros b m Hm Hhas. by rewrite (Huniq b m). }
    case_match; [split_and!; [done|done|by left]|]. split_and!.
    + unfold pc_ok. cbn. apply Forall_app. split; [done|]. constructor; [|done]. apply (co_nodes _ _ _ Hok1). by eexists.
    + split; [done|]. intros b Hb. cbn. apply elem_of_app. by left.
    + right. intros b m Hm Hhas. cbn. rewrite (Huniq b m) by done. set_solver.
Qed.
End pins.
