(* ===== verification/SlicesEvict.v ===== *)
(** Eviction: what is pinned stays, the coldest slices go first, and the sweep
    ends below its target or with everything pinned. *)
From S2P Require Import Prelude.
From S2P Require Import Rc.
From S2P Require Import Handles.
From S2P Require Import HandlesOk.
From S2P Require Import Slices.
From S2P Require Import SlicesOk.
From S2P Require Import SlicesPin.

Section evict.
Context {E : Type} `{CogpuLaws E}.
Implicit Types (s : @cogpu E) (n : mapped_slice) (a : Z) (T : list Z).

Definition unpinned_in s a n : Prop := c_nodes s !! a = Some n /\ pins n = 0.

(** What eviction leaves: the pinned slices, and the unpinned ones used last. *)
Record shrunk s s' : Prop := {
  sh_setup : c_setup s' = c_setup s;
  sh_res : g_res_pins s' = g_res_pins s;
  sh_clock : g_slice_clock s' = g_slice_clock s;
  sh_back a n : c_nodes s' !! a = Some n -> c_nodes s !! a = Some n;
  sh_pinned a n : c_nodes s !! a = Some n -> pins n <> 0 -> c_nodes s' !! a = Some n;
  sh_cold a n b m : c_nodes s !! a = Some n -> c_nodes s' !! a = None -> unpinned_in s' b m -> last_use n <= last_use m;
}.

Lemma shrunk_refl s s' :
  c_setup s' = c_setup s -> g_res_pins s' = g_res_pins s -> g_slice_clock s' = g_slice_clock s ->
  c_nodes s' = c_nodes s -> shrunk s s'.
Proof using. intros E1 E2 E3 E4. split; rewrite ?E4; try done. congruence. Qed.

(** ** The victim *)

(** [o] is the coldest of the unpinned slices of [l] and [best]. *)
Definition coldest s (l : list Z) (best : option (Z * Z)) (o : option Z) : Prop :=
  match o with
  | None => best = None /\ forall a n, a ∈ l -> c_nodes s !! a = Some n -> pins n <> 0
  | Some v => exists t,
      (best = Some (v, t) \/ v ∈ l /\ exists n, unpinned_in s v n /\ last_use n = t) /\
      (forall v' t', best = Some (v', t') -> t <= t') /\
      forall a n, a ∈ l -> unpinned_in s a n -> t <= last_use n
  end.

Lemma wp_pick_victim s l best (X : co_rc_value_t -> cogpu -> Prop) :
  (forall a, a ∈ l -> is_Some (c_nodes s !! a)) ->
  wp (pick_victim l best) (fun o s' => s' = s /\ coldest s l best o) X s.
Proof using.
  revert best. induction l as [|a l IH]; intros best Hl; cbn [pick_victim].
  - wp_step. split; [done|]. destruct best as [[v t]|]; cbn.
    + exists t. split; [by left|]. split; [by intros ?? [= -> ->]|]. by intros ?? ?%elem_of_nil.
    + split; [done|]. by intros ?? ?%elem_of_nil.
  - destruct (Hl a ltac:(left)) as [n Hn]. wp_step. eapply wp_node; [exact Hn|].
    eapply wp_mono; [apply IH; intros b Hb; apply Hl; by right| |done]. intros o s' [-> Hc]. split; [done|].
    destruct (pins n =? 0) eqn:Hp; cbn [negb] in Hc; zbool.
    + assert (unpinned_in s a n) as Hu by done. destruct best as [[v t]|]; [revert Hc; case_cond; intros Hc|].
      * destruct o as [v'|]; [|by destruct Hc]. destruct Hc as (t' & Hwho & Hb & Hall).
        pose proof (Hb _ _ eq_refl). exists t'. split_and!.
        -- right. destruct Hwho as [[= <- <-]|[? ?]]; [split; [by left|eauto]|split; [by right|done]].
        -- intros ?? [= <- <-]. lia.
        -- intros b m [->|Hbl]%elem_of_cons Hm; [|by apply (Hall b)]. destruct Hm, Hu. by simplify_eq.
      * destruct o as [v'|]; [|by destruct Hc]. destruct Hc as (t' & Hwho & Hb & Hall).
        pose proof (Hb _ _ eq_refl). exists t'. split_and!.
        -- destruct Hwho as [?|[? ?]]; [by left|right; split; [by right|done]].
        -- intros ?? [= <- <-]. done.
        -- intros b m [->|Hbl]%elem_of_cons Hm; [|by apply (Hall b)]. destruct Hm, Hu. simplify_eq. lia.
      * destruct o as [v'|]; [|by destruct Hc]. destruct Hc as (t' & Hwho & Hb & Hall).
        pose proof (Hb _ _ eq_refl). exists t'. split_and!.
        -- right. destruct Hwho as [[= <- <-]|[? ?]]; [split; [by left|eauto]|split; [by right|done]].
        -- done.
        -- intros b m [->|Hbl]%elem_of_cons Hm; [|by apply (Hall b)]. destruct Hm, Hu. by simplify_eq.
    + destruct o as [v'|]; cbn in *.
      * destruct Hc as (t' & Hwho & Hb & Hall). exists t'. split_and!; [|done|].
        -- destruct Hwho as [?|[? ?]]; [by left|right; split; [by right|done]].
        -- intros b m [->|Hbl]%elem_of_cons [Hm Hm0]; [congruence|by apply (Hall b)].
      * destruct Hc as [-> Hc]. split; [done|]. intros b m [->|Hbl]%elem_of_cons Hm; [congruence|by apply (Hc b)].
Qed.

(** ** Unlinking it *)

Lemma without_perm v l : v ∈ l -> l ≡ₚ v :: without v l.
Proof using.
  intros Hv. unfold without. destruct (unlink (Z.eqb v) l) as [[x l']|] eqn:Hu.
  - destruct (unlink_perm _ _ _ _ Hu) as [Hp Hx]. zbool. by subst x.
  - exfalso. revert Hu. induction Hv as [v l|v b l _ IH]; cbn; [by rewrite Z.eqb_refl|].
    destruct (v =? b); [done|]. destruct (unlink (Z.eqb v) l) as [[??]|]; [done|]. by intros _; apply IH.
Qed.

Lemma perm_cons_in (v : Z) l l' : l ≡ₚ v :: l' -> NoDup l ->
  NoDup l' /\ forall a, a ∈ l' <-> a ∈ l /\ a <> v.
Proof using.
  intros E1 Hnd. rewrite E1 in Hnd. apply NoDup_cons in Hnd as [Hni Hnd]. split; [done|]. intros a.
  rewrite E1, elem_of_cons. split; [intros Ha; split; [by right|by intros ->]|]. by intros [[->|?] ?].
Qed.

Lemma total_perm f l l' : l ≡ₚ l' -> total f l = total f l'.
Proof using. induction 1; rewrite ?total_cons; lia. Qed.

Lemma wp_kunmap_call s pa r (X : co_rc_value_t -> cogpu -> Prop) :
  env_ok (c_env s) -> driver_ok (c_env s) -> r ∈ driver_ranges (c_env s) -> r_pa r = pa -> 0 < r_bytes r ->
  wp (co_manager_kunmap_range pa) (fun _ s' => exists e, s' = set_env e s /\ env_ok e /\ driver_ok e /\
    live_nodes e = live_nodes (c_env s) /\
    forall r', r' ∈ driver_ranges (c_env s) -> 0 < r_bytes r' -> r' <> r -> r' ∈ driver_ranges e) X s.
Proof using.
  intros He [Hnd Hap] Hr Hpa Hb. unfold co_manager_kunmap_range. wp_step. apply wp_env. intros [rc prc] e Hk.
  destruct (ioctl_kmap_unmap_range pa (c_env s)) as [[rc0 prc0] e0] eqn:Hio. injection Hk as -> -> ->.
  pose proof (law_kunmap pa _ He) as Hl. rewrite Hio in Hl. destruct Hl as (He' & Hlive & Hd). wp_step.
  exists e. split_and!; try done.
  - destruct (CO_OK _); [|unfold driver_ok; by rewrite Hd]. destruct Hd as (q & _ & Hq). rewrite Hq in Hnd.
    apply NoDup_cons in Hnd as [_ Hnd]. split; [done|]. intros r1 r2 H1 H2. apply Hap; rewrite Hq; by right.
  - intros r' Hr' Hb' Hne. destruct (CO_OK _); [|by rewrite Hd]. destruct Hd as (q & Hq & Hperm).
    assert (r' <> q) as Hneq.
    { intros ->. destruct (Hap q r); [done|done|done|lia|lia]. }
    rewrite Hperm in Hr'. by apply elem_of_cons in Hr' as [|].
Qed.

Lemma wp_evict_one B T s v n (X : co_rc_value_t -> cogpu -> Prop) :
  cache_ok B T s -> unpinned_in s v n ->
  wp (evict_one v) (fun _ s' => cache_ok B T s' /\ c_nodes s' = delete v (c_nodes s) /\
    c_setup s' = c_setup s /\ g_res_pins s' = g_res_pins s /\ c_budget s' = c_budget s /\
    g_slice_clock s' = g_slice_clock s /\ g_slices s ≡ₚ v :: g_slices s') X s.
Proof using.
  intros Hok [Hn Hp]. assert (v ∈ g_slices s) as Hv by (apply (co_nodes _ _ _ Hok); by eexists).
  pose proof (without_perm _ _ Hv) as Hperm. unfold evict_one. wp_step. eapply wp_node; [exact Hn|]. do 3 wp_step.
  destruct (co_range _ _ _ Hok v n Hn) as (Hro & Hin & Hb0 & Hend & Hend').
  eapply wp_mono; [apply (wp_kunmap_call _ _ (range n)); try done; apply Hok| |done].
  intros _ s' (e & -> & He & Hd & Hlive & Hkeep). cbn [c_env set_list] in Hlive, Hkeep. unfold env_do. do 3 wp_step.
  cbn [c_nodes c_setup g_res_pins g_slices c_env set_nodes set_env set_list c_budget g_slice_clock].
  split_and!; try done. destruct (law_free v _ He) as (He' & Hd' & Hl').
  pose proof (fun a => node_bytes_nonneg B T s a Hok) as Hnn. pose proof (bytes_nonneg _ _ _ Hok) as Hbn.
  destruct Hok as [_ _ Hnd Hno Hl Hh Hra Hdi Hby Hbo Hpi Hre Hfr Hid].
  destruct (perm_cons_in _ _ _ Hperm Hnd) as [Hnd' Hiff].
  assert (g_slice_bytes s = r_bytes (range n) + total (node_bytes s) (without v (g_slices s))) as Hsum.
  { rewrite Hby, (total_perm _ _ _ Hperm), total_cons. f_equal. unfold node_bytes. by rewrite Hn. }
  assert (0 <= total (node_bytes s) (without v (g_slices s))) as Htn by (apply total_nonneg; intros a _; by apply Hnn).
  assert (g_slice_bytes s < 2 ^ 64) as Hlt by (change CO_KMAP_SLICE_BYTES with 12582912 in *; lia).
  split; cbn [c_env c_nodes g_slices g_last_hit g_slice_bytes c_budget g_res_pins set_nodes set_env set_list]; try done.
  - change (driver_ok (heap_free v e)). unfold driver_ok. by rewrite Hd'.
  - intros a. rewrite Hiff, Hno, lookup_delete_is_Some. naive_solver.
  - intros a [Ha Hne]%Hiff. split; [|by apply Hl]. rewrite Hl', Hlive. apply elem_of_difference.
    split; [by apply Hl|]. by intros ->%elem_of_singleton.
  - case_match; zbool; [by left|]. destruct Hh as [->|Hh]; [by left|right]. by apply Hiff.
  - intros a m [Hne Ha]%lookup_delete_Some. destruct (Hra a m Ha) as (? & ? & ? & ? & ?). rewrite Hd'.
    split_and!; try done. apply Hkeep; [done|lia|]. apply (Hdi a v); done.
  - intros a b m m' [_ Ha]%lookup_delete_Some [_ Hb]%lookup_delete_Some. by apply (Hdi a b).
  - rewrite Hsum, u64_small by lia. replace (_ + _ - _) with (total (node_bytes s) (without v (g_slices s))) by lia.
    apply total_ext. intros a [_ Hne]%Hiff. unfold node_bytes. cbn. by rewrite lookup_delete_ne by congruence.
  - rewrite u64_small; lia.
  - intros a m [_ Ha]%lookup_delete_Some. by apply Hpi.
  - apply Forall_forall. intros a Ha. rewrite Forall_forall in Hre. apply Hiff. split; [by apply Hre|].
    intros ->. pose proof (Hpi v n Hn) as Hc. pose proof (occ_in v _ Ha). unfold refs in Hc. cbn in *. lia.
Qed.

(** ** The sweep *)

Lemma list_le_total f l : (forall a, a ∈ l -> 1 <= f a) -> Z.of_nat (length l) <= total f l.
Proof using.
  induction l as [|a l IH]; intros Hf; [done|]. rewrite total_cons. cbn [length].
  assert (1 <= f a) by (apply Hf; left). specialize (IH ltac:(intros b Hb; apply Hf; by right)). lia.
Qed.

Lemma slices_few B T s : cache_ok B T s -> Z.of_nat (length (g_slices s)) < 2 ^ 64.
Proof using.
  intros Hok. enough (Z.of_nat (length (g_slices s)) <= g_slice_bytes s).
  { destruct (co_bound _ _ _ Hok) as (? & _ & _ & _ & ?). change CO_KMAP_SLICE_BYTES with 12582912 in *. lia. }
  rewrite (co_bytes _ _ _ Hok). apply list_le_total. intros a Ha.
  destruct (proj1 (co_nodes _ _ _ Hok a) Ha) as [n Hn]. unfold node_bytes. rewrite Hn.
  destruct (co_range _ _ _ Hok a n Hn) as (_ & _ & ? & _). lia.
Qed.

Definition all_pinned s : Prop := forall a n, c_nodes s !! a = Some n -> pins n <> 0.

Lemma shrunk_evict s s1 s2 v n :
  shrunk s s1 -> coldest s1 (g_slices s1) None (Some v) -> unpinned_in s1 v n ->
  (forall a, is_Some (c_nodes s1 !! a) -> a ∈ g_slices s1) ->
  c_nodes s2 = delete v (c_nodes s1) -> c_setup s2 = c_setup s1 -> g_res_pins s2 = g_res_pins s1 ->
  g_slice_clock s2 = g_slice_clock s1 -> shrunk s s2.
Proof using.
  intros [Es Er Ec Hb Hp Hc] (t & Hwho & _ & Hmin) [Hn Hn0] Hno En E1 E2 E3. split; rewrite ?En; try congruence.
  - intros a m [_ Ha]%lookup_delete_Some. by apply Hb.
  - intros a m Ha Hm. rewrite lookup_delete_ne; [by apply Hp|]. intros <-.
    pose proof (Hp v m Ha Hm). congruence.
  - intros a m b k Ha Hgone [Hk Hk0]. rewrite En in Hk. apply lookup_delete_Some in Hk as [Hne Hk].
    destruct (decide (a = v)) as [->|Hav].
    + destruct Hwho as [?|(_ & n' & [Hn' _] & Ht)]; [done|]. rewrite (Hb v n Hn) in Ha. simplify_eq.
      apply (Hmin b); [apply Hno; by eexists|done].
    + rewrite lookup_delete_ne in Hgone by done. by apply (Hc a m b k).
Qed.

Lemma wp_evict B T s target (X : co_rc_value_t -> cogpu -> Prop) :
  cache_ok B T s ->
  wp (mloop (evict_step target) tt) (fun down s' => cache_ok B T s' /\ shrunk s s' /\ c_budget s' = c_budget s /\
    if down : bool then g_slice_bytes s' <= target else all_pinned s') X s.
Proof using.
  intros Hok. apply (wp_mloop _ (fun _ s' => cache_ok B T s' /\ shrunk s s' /\ c_budget s' = c_budget s)
    (fun _ s' => Z.of_nat (length (g_slices s')))).
  2: { split; [done|]. split; [by apply shrunk_refl|done]. }
  2: { by apply (slices_few B T). }
  intros [] s1 (Hok1 & Hs1 & Eb). unfold evict_step. do 2 wp_step.
  wp_step; [wp_step; split_and!; done|]. do 3 wp_step.
  eapply wp_mono; [apply wp_pick_victim; intros a Ha; by apply (co_nodes _ _ _ Hok1)| |done]. intros [v|] s2 [-> Hc].
  - assert (exists n, unpinned_in s1 v n /\ v ∈ g_slices s1) as (n & Hu & Hv).
    { destruct Hc as (t & [?|(Hv & n & Hu & _)] & _); [done|]. by exists n. }
    wp_step. eapply wp_mono; [by apply (wp_evict_one B T _ _ n)| |done].
    intros [] s2 (Hok2 & En & E1 & E2 & E3 & E4 & Hperm). wp_step. split_and!; [done| |congruence|lia|].
    + eapply shrunk_evict; try done. intros a. apply (co_nodes _ _ _ Hok1).
    + rewrite (Permutation_length Hperm). cbn. lia.
  - wp_step. split_and!; try done. intros a n Ha. destruct Hc as [_ Hc]. apply (Hc a n); [|done].
    apply (co_nodes _ _ _ Hok1). by eexists.
Qed.

Lemma cache_budget B T s b :
  cache_ok B T s -> g_kmap_hard_bytes b <= B -> g_kmap_ram_ceiling b = g_kmap_ram_ceiling (c_budget s) ->
  cache_ok B T (set_budget b s).
Proof using.
  intros [He Hd Hnd Hno Hl Hh Hra Hdi Hby Hbo Hpi Hre Hfr Hid] Hb Er. split; try done. cbn. rewrite Er. tauto.
Qed.

Lemma ratchet_bounds next b :
  0 <= next <= g_kmap_ram_ceiling b -> g_kmap_hard_bytes (ratchet next b) <= Z.max (g_kmap_hard_bytes b) (g_kmap_ram_ceiling b + Z.shiftl 64 20).
Proof using.
  intros Hn. unfold ratchet. destruct (g_kmap_cap_given b); cbn; [lia|].
  change (Z.shiftl 64 20) with 67108864.
  assert (u64 (next + 67108864) <= next + 67108864) by (apply Z.mod_le; lia). lia.
Qed.

Definition same_slices s s' : Prop :=
  c_nodes s' = c_nodes s /\ g_slices s' = g_slices s /\ g_slice_bytes s' = g_slice_bytes s /\
  c_setup s' = c_setup s /\ g_res_pins s' = g_res_pins s /\ g_slice_clock s' = g_slice_clock s.

Lemma wp_ratchet B T s (X : co_rc_value_t -> cogpu -> Prop) :
  cache_ok B T s -> wp slices_ratchet (fun _ s' => cache_ok B T s' /\ same_slices s s') X s.
Proof using.
  intros Hok. unfold slices_ratchet. do 4 wp_step.
  destruct (_ && _)%bool; [|wp_step; by split]. wp_step.
  eapply wp_mono; [apply (wp_env_quiet B T); [apply law_tick|done]| |done]. intros now s1 [Hok1 (e & ->)].
  wp_step; [|wp_step; by split].
  destruct (co_bound _ _ _ Hok) as (_ & Hhard & Hc0 & Hc & _).
  set (b := Budget _ _ _ _ _ now). set (next0 := u64 _). pose proof (u64_range (g_kmap_ws_budget b + Z.shiftl 512 20)) as Hr0.
  assert (0 <= next0) as Hn0 by apply Hr0. clearbody next0.
  set (next := if _ <? _ then _ else _). assert (0 <= next <= g_kmap_ram_ceiling b) as Hnext.
  { unfold next, b. cbn. case_match; zbool; lia. }
  clearbody next. assert (cache_ok B T (set_budget b (set_env e s))) as Hok2 by (by apply cache_budget).
  do 3 wp_step. eapply wp_mono; [apply (wp_env_quiet B T); [apply law_raise|done]| |done].
  intros ok s2 [Hok3 (e' & ->)]. wp_step; [|wp_step; by split]. wp_step. split; [|done].
  apply cache_budget; [done| |by unfold ratchet; destruct (g_kmap_cap_given b)].
  etransitivity; [by apply ratchet_bounds|]. unfold b. cbn. apply Z.max_lub; [done|exact Hc].
Qed.

Lemma shrunk_same s s1 s2 : same_slices s s1 -> shrunk s1 s2 -> shrunk s s2.
Proof using.
  intros (E1 & _ & _ & E4 & E5 & E6) [Es Er Ec Hb Hp Hc]. rewrite E1 in *. split; try congruence; done.
Qed.

Lemma wp_slices_evict B T s (X : co_rc_value_t -> cogpu -> Prop) :
  cache_ok B T s ->
  wp slices_evict (fun _ s' => cache_ok B T s' /\ shrunk s s' /\
    (g_slice_lock_ready (c_setup s) = true ->
     g_slice_bytes s' < g_kmap_cap_bytes (c_budget s') \/
     g_slice_bytes s' <= u64 (g_kmap_cap_bytes (c_budget s') - KMAP_EVICT_HEADROOM_BYTES) \/ all_pinned s')) X s.
Proof using.
  intros Hok. unfold slices_evict, conf. do 2 wp_step.
  wp_step; [wp_step; split_and!; [done|by apply shrunk_refl|congruence]|]. wp_step.
  eapply wp_mono; [by apply (wp_ratchet B T)| |done]. intros [] s1 [Hok1 Hsame].
  assert (shrunk s s1) as Hs1.
  { destruct Hsame as (? & _ & _ & ? & ? & ?). by apply shrunk_refl. }
  do 4 wp_step. wp_step; [wp_step; split_and!; [done|done|by left]|]. wp_step.
  eapply wp_mono; [by apply (wp_evict B T)| |done]. intros down s2 (Hok2 & Hs2 & Eb & Hd). wp_step.
  split_and!; [done|by eapply shrunk_same|]. intros _. right. rewrite Eb. destruct down; [by left|by right].
Qed.
End evict.
