(* ===== verification/Gpu.v ===== *)
(** The GPU daemon's own state and what it asks of the libraries under it
    ([os/winnt/user/cogpu-daemon/cogpu-daemon.c], [vrend.c]).

    virglrenderer and the presenter (windows, GL and threads of their own) are a
    parameter with a state [R]. Host memory holds the guest's requests and the
    replies; the renderer may write the backing pages it was given, so the calls
    that execute commands return the memory. Messages to the log are left out. *)
From S2P Require Import Prelude.
From S2P Require Import Mem.
From S2P Require Import Rc.
From S2P Require Import Handles.
From S2P Require Import Vring.
From S2P Require Import Slices.

Record iovec := Iov { iov_base : Z; iov_len : Z }.

(** [virgl_renderer_resource_create_args]. *)
Record create_args := Args {
  ar_handle : Z; ar_target : Z; ar_format : Z; ar_bind : Z; ar_width : Z; ar_height : Z;
  ar_depth : Z; ar_array_size : Z; ar_last_level : Z; ar_nr_samples : Z; ar_flags : Z;
}.

(** [cogpu_vrend_resource_info]: the arguments and the texture's GL name. *)
Record resource_info := Info { ri_args : create_args; ri_tex_id : Z }.

(** What the renderer's [virgl_renderer_resource_info] says of a resource. *)
Record renderer_info := RInfo {
  rr_tex_id : Z; rr_format : Z; rr_width : Z; rr_height : Z; rr_depth : Z; rr_flags : Z;
}.

Record virgl_box := Box { bx_x : Z; bx_y : Z; bx_z : Z; bx_w : Z; bx_h : Z; bx_d : Z }.

(** A resource, a window and its size, the damaged rectangle. *)
Record present_request := Present { pr_res : Z; pr_xid : Z; pr_rect : list Z }.

(** A submit gives the last present request its callback was given, if any. *)
Class Renderer (R : Type) := {
  virgl_renderer_resource_attach_iov : Z -> list iovec -> R -> Z * R;
  virgl_renderer_resource_detach_iov : Z -> R -> R;
  virgl_renderer_resource_create : create_args -> R -> Z * R;
  virgl_renderer_resource_create_blob : Z -> Z -> Z -> Z -> Z -> Z -> list iovec -> R -> Z * R;
  virgl_renderer_resource_unref : Z -> R -> R;
  virgl_renderer_resource_map : Z -> R -> Z * (Z * Z) * R;
  virgl_renderer_resource_unmap : Z -> R -> R;
  virgl_renderer_resource_get_map_info : Z -> R -> Z;
  virgl_renderer_resource_get_info : Z -> R -> option renderer_info;
  virgl_renderer_context_create_with_flags : Z -> Z -> list Z -> R -> Z * R;
  virgl_renderer_context_destroy : Z -> R -> R;
  virgl_renderer_ctx_attach_resource : Z -> Z -> R -> R;
  virgl_renderer_ctx_detach_resource : Z -> Z -> R -> R;
  virgl_renderer_transfer : bool -> Z -> Z -> Z -> Z -> Z -> virgl_box -> Z -> mem -> R -> Z * mem * R;
  virgl_renderer_transfer_write_iov : Z -> Z -> virgl_box -> iovec -> mem -> R -> Z * R;
  virgl_renderer_submit_cmd : list Z -> Z -> mem -> R -> Z * option present_request * mem * R;
  virgl_renderer_get_cap_set : Z -> R -> Z * Z;
  virgl_renderer_fill_caps : Z -> Z -> R -> list Z;
  virgl_renderer_context_create_fence : Z -> Z -> Z -> R -> Z * R;
  cogpu_present_r1_frame : resource_info -> Z -> Z -> Z -> Z -> Z -> R -> Z * R;
  cogpu_present_r1_fini : R -> R;
  cogpu_present_r1_resource_unref : Z -> R -> R;
  cogpu_present_r2_resource_unref : Z -> R -> R;
  cogpu_present_stream : present_request -> R -> R;
}.

(** The driver's window requests, asked of the same environment. *)
Class CogpuWindows (E : Type) := {
  ioctl_kwindow_at : Z -> Z -> Z -> E -> co_rc_value_t * co_rc_value_t * E;
  ioctl_kunwindow : Z -> Z -> E -> co_rc_value_t * co_rc_value_t * E;
}.

Record cogpu_blob_map := BlobMap { bm_res_id : Z; bm_pseudo_pa : Z; bm_bytes : Z; bm_host_va : Z }.

Record moco_bridge_slot := Bridge {
  br_xid : Z; br_ctx_id : Z; br_width : Z; br_height : Z; br_used : Z;
}.

Record gpu_stats := Stats {
  requests : Z; fenced : Z; refused : Z; submits : Z; cmd_bytes : Z; resources : Z;
  transfers : Z; backing_bytes : Z; by_type : gmap Z Z;
}.

(** [g_park_req], when it is pending. *)
Record park_req := ParkReq { pq_ctx_id : Z; pq_ring_idx : Z; pq_fence_id : Z }.

(** [vrend.c]'s statics: whether the renderer is up, the resources it keeps the
    arguments of, the staging buffer's size, the pending present request, and
    whether a present hook is set. *)
Record vrend := Vrend {
  vrend_ready : bool; vrend_resources : list resource_info; staging_size : Z;
  vrend_present_request : option present_request; vrend_moco_present_cb : bool;
}.

Section gpu.
Context {E R : Type} `{CogpuHost E} `{CogpuWindows E} `{Renderer R}.

Record gpu := Gpu {
  d_cache : @cogpu E;
  d_rend : R;
  d_mem : mem;
  d_vrend : vrend;
  d_gather : Z;
  g_blob_map : list cogpu_blob_map;
  g_ctx_capset : gmap Z Z;
  g_ctx_wanted : gmap Z Z;
  g_bridge : list moco_bridge_slot;
  g_bridge_clock : Z;
  g_stats : gpu_stats;
  g_park_req : option park_req;
  present_r1 : bool;
}.

Abbreviation D := (M gpu).

Definition put_cache c (d : gpu) : gpu :=
  Gpu c (d_rend d) (d_mem d) (d_vrend d) (d_gather d) (g_blob_map d) (g_ctx_capset d) (g_ctx_wanted d)
    (g_bridge d) (g_bridge_clock d) (g_stats d) (g_park_req d) (present_r1 d).
Definition put_rend r (d : gpu) : gpu :=
  Gpu (d_cache d) r (d_mem d) (d_vrend d) (d_gather d) (g_blob_map d) (g_ctx_capset d) (g_ctx_wanted d)
    (g_bridge d) (g_bridge_clock d) (g_stats d) (g_park_req d) (present_r1 d).
Definition put_mem m (d : gpu) : gpu :=
  Gpu (d_cache d) (d_rend d) m (d_vrend d) (d_gather d) (g_blob_map d) (g_ctx_capset d) (g_ctx_wanted d)
    (g_bridge d) (g_bridge_clock d) (g_stats d) (g_park_req d) (present_r1 d).
Definition put_vrend v (d : gpu) : gpu :=
  Gpu (d_cache d) (d_rend d) (d_mem d) v (d_gather d) (g_blob_map d) (g_ctx_capset d) (g_ctx_wanted d)
    (g_bridge d) (g_bridge_clock d) (g_stats d) (g_park_req d) (present_r1 d).
Definition put_gather n (d : gpu) : gpu :=
  Gpu (d_cache d) (d_rend d) (d_mem d) (d_vrend d) n (g_blob_map d) (g_ctx_capset d) (g_ctx_wanted d)
    (g_bridge d) (g_bridge_clock d) (g_stats d) (g_park_req d) (present_r1 d).
Definition put_blobs l (d : gpu) : gpu :=
  Gpu (d_cache d) (d_rend d) (d_mem d) (d_vrend d) (d_gather d) l (g_ctx_capset d) (g_ctx_wanted d)
    (g_bridge d) (g_bridge_clock d) (g_stats d) (g_park_req d) (present_r1 d).
Definition put_ctx have want (d : gpu) : gpu :=
  Gpu (d_cache d) (d_rend d) (d_mem d) (d_vrend d) (d_gather d) (g_blob_map d) have want
    (g_bridge d) (g_bridge_clock d) (g_stats d) (g_park_req d) (present_r1 d).
Definition put_bridge l t (d : gpu) : gpu :=
  Gpu (d_cache d) (d_rend d) (d_mem d) (d_vrend d) (d_gather d) (g_blob_map d) (g_ctx_capset d) (g_ctx_wanted d)
    l t (g_stats d) (g_park_req d) (present_r1 d).
Definition put_stats st (d : gpu) : gpu :=
  Gpu (d_cache d) (d_rend d) (d_mem d) (d_vrend d) (d_gather d) (g_blob_map d) (g_ctx_capset d) (g_ctx_wanted d)
    (g_bridge d) (g_bridge_clock d) st (g_park_req d) (present_r1 d).
Definition put_park p (d : gpu) : gpu :=
  Gpu (d_cache d) (d_rend d) (d_mem d) (d_vrend d) (d_gather d) (g_blob_map d) (g_ctx_capset d) (g_ctx_wanted d)
    (g_bridge d) (g_bridge_clock d) (g_stats d) p (present_r1 d).
Definition put_r1 b (d : gpu) : gpu :=
  Gpu (d_cache d) (d_rend d) (d_mem d) (d_vrend d) (d_gather d) (g_blob_map d) (g_ctx_capset d) (g_ctx_wanted d)
    (g_bridge d) (g_bridge_clock d) (g_stats d) (g_park_req d) b.

(** An operation of the slice cache, on the daemon. *)
Definition cached {A} (m : M (@cogpu E) A) : D A := fun d =>
  let '(r, c) := m (d_cache d) in (r, put_cache c d).

(** A call of the renderer or the presenter. *)
Definition rend {A} (f : R -> A * R) : D A := fun d =>
  let '(a, r) := f (d_rend d) in (Ret a, put_rend r d).
Definition rend_do (f : R -> R) : D unit := modify (fun d => put_rend (f (d_rend d)) d).

Definition stat (f : gpu_stats -> gpu_stats) : D unit := modify (fun d => put_stats (f (g_stats d)) d).

Definition stat_backing n (s : gpu_stats) : gpu_stats :=
  Stats (requests s) (fenced s) (refused s) (submits s) (cmd_bytes s) (resources s) (transfers s)
    (u64 (backing_bytes s + n)) (by_type s).
Definition stat_submit n (s : gpu_stats) : gpu_stats :=
  Stats (requests s) (fenced s) (refused s) (u64 (submits s + 1)) (u64 (cmd_bytes s + n)) (resources s)
    (transfers s) (backing_bytes s) (by_type s).
Definition stat_resource (s : gpu_stats) : gpu_stats :=
  Stats (requests s) (fenced s) (refused s) (submits s) (cmd_bytes s) (u64 (resources s + 1))
    (transfers s) (backing_bytes s) (by_type s).
Definition stat_transfer (s : gpu_stats) : gpu_stats :=
  Stats (requests s) (fenced s) (refused s) (submits s) (cmd_bytes s) (resources s)
    (u64 (transfers s + 1)) (backing_bytes s) (by_type s).
Definition stat_refused (s : gpu_stats) : gpu_stats :=
  Stats (requests s) (fenced s) (u64 (refused s + 1)) (submits s) (cmd_bytes s) (resources s)
    (transfers s) (backing_bytes s) (by_type s).
Definition stat_fenced (s : gpu_stats) : gpu_stats :=
  Stats (requests s) (u64 (fenced s + 1)) (refused s) (submits s) (cmd_bytes s) (resources s)
    (transfers s) (backing_bytes s) (by_type s).
Definition stat_request (type : Z) (s : gpu_stats) : gpu_stats :=
  let k := Z.land (Z.shiftr type 8) 15 in
  Stats (u64 (requests s + 1)) (fenced s) (refused s) (submits s) (cmd_bytes s) (resources s)
    (transfers s) (backing_bytes s) (arr_set (by_type s) k (u64 (arr_get (by_type s) k + 1))).

(** ** [chain_gather] *)

(** The bytes of the descriptors [l] up to [want], after those gathered; a
    header of [skip] bytes sits at the front of the first. *)
Fixpoint gather_from (m : mem) (l : list cogpu_buf) (skip want : Z) (acc : list Z) : list Z :=
  match l with
  | [] => acc
  | b :: l =>
      let done := Z.of_nat (length acc) in
      if want <=? done then acc else
      if ((0 <? skip) && (b_len b <=? skip))%bool then gather_from m l 0 want acc else
      let len := b_len b - skip in
      let len := if want - done <? len then want - done else len in
      gather_from m l 0 want (acc ++ load_bytes m (b_addr b + skip) len)
  end.

(** The buffer's first [*got] bytes; nothing when the heap has no room. *)
Definition chain_gather (chain : cogpu_chain) (skip want : Z) : D (option (list Z)) :=
  if want =? 0 then mret None else
  size ← gets d_gather;
  ok ← (if size <? want then
          ok ← cached (env (heap_malloc want));
          (if ok : bool then modify (put_gather want) else mret tt) ;; mret ok
        else mret true);
  if negb ok then mret None else
  m ← gets d_mem;
  mret (Some (gather_from m (c_in chain) skip want [])).
End gpu.
