(* ===== verification/Vrend.v ===== *)
(** The renderer's wrappers ([os/winnt/user/cogpu-daemon/vrend.c]): every call
    is refused until the renderer is up, the iovecs a resource is given are
    copied for it, and a command stream is copied before it is decoded.

    The copies are heap blocks handed to the renderer; their addresses are not
    modelled, only that there was room for them. *)
From S2P Require Import Prelude.
From S2P Require Import Mem.
From S2P Require Import Rc.
From S2P Require Import Handles.
From S2P Require Import Vring.
From S2P Require Import Slices.
From S2P Require Import Gpu.

Definition COGPU_MAX_CMD_BYTES : Z := Z.shiftl 1 20.
Definition COGPU_VIRGL_CCMD_TRANSFER3D : Z := 43.
Definition COGPU_VIRGL_CCMD_COPY_TRANSFER3D : Z := 45.
Definition COGPU_VIRGL_TRANSFER3D_SIZE : Z := 13.
Definition COGPU_VIRGL_COPY_TRANSFER3D_SIZE : Z := 14.
Definition COGPU_VIRGL_TRANSFER_FROM_HOST : Z := 2.
Definition COGPU_VIRGL_COPY_TRANSFER3D_READ_FROM_HOST : Z := 2.
Definition COGPU_VREND_MAX_PRESENT_HINTS : nat := 8.

(** ** The hints in a command stream *)

Record present_hint := Hint_ {
  hi_resource_id : Z; hi_level : Z; hi_x : Z; hi_y : Z; hi_width : Z; hi_height : Z;
}.

(** The [k]-th word of a command; one outside the stream is a fault. *)
Definition word (stream : list Z) (k : Z) : option Z :=
  if k <? 0 then None else stream !! Z.to_nat k.

Definition command_hint (stream : list Z) (offset : Z) : option present_hint :=
  r ← word stream (offset + 1); l ← word stream (offset + 2);
  x ← word stream (offset + 6); y ← word stream (offset + 7);
  w ← word stream (offset + 9); h ← word stream (offset + 10);
  Some (Hint_ r l x y w h).

Fixpoint hint_slot (info : list present_hint) (res : Z) : nat :=
  match info with
  | [] => 0
  | h :: info => if hi_resource_id h =? res then 0 else S (hint_slot info res)
  end.

(** In the place of the resource's last hint, or at the end, the oldest one
    dropped when all are in use. *)
Definition vrend_add_present_hint (info : list present_hint) (hint : present_hint) : list present_hint :=
  let i := hint_slot info (hi_resource_id hint) in
  if (i =? COGPU_VREND_MAX_PRESENT_HINTS)%nat then drop 1 info ++ [hint]
  else if (i =? length info)%nat then info ++ [hint]
  else <[i := hint]> info.

(** Whether the command at [offset] reads back from the host. *)
Definition reads_back (stream : list Z) (offset opcode length : Z) : option bool :=
  if ((opcode =? COGPU_VIRGL_CCMD_TRANSFER3D) && (COGPU_VIRGL_TRANSFER3D_SIZE <=? length))%bool then
    w ← word stream (offset + 13); Some (w =? COGPU_VIRGL_TRANSFER_FROM_HOST)
  else if ((opcode =? COGPU_VIRGL_CCMD_COPY_TRANSFER3D) && (length =? COGPU_VIRGL_COPY_TRANSFER3D_SIZE))%bool then
    w ← word stream (offset + 14);
    Some (negb (Z.land w COGPU_VIRGL_COPY_TRANSFER3D_READ_FROM_HOST =? 0))
  else Some false.

(** One command: the offset and the hints so far. [None] is a read outside. *)
Definition hints_step (stream : list Z) (dwords : Z) (st : Z * list present_hint) :
    (Z * list present_hint) + option (list present_hint) :=
  let '(offset, info) := st in
  if negb (offset <? dwords) then inr (Some info) else
  match word stream offset with
  | None => inr None
  | Some w =>
      let length := Z.shiftr w 16 in
      let opcode := Z.land w 255 in
      if u32 (dwords - offset - 1) <? length then inr (Some info) else
      match reads_back stream offset opcode length with
      | None => inr None
      | Some false => inl (u32 (offset + (length + 1)), info)
      | Some true =>
          match command_hint stream offset with
          | None => inr None
          | Some h => inl (u32 (offset + (length + 1)), vrend_add_present_hint info h)
          end
      end
  end.

Definition vrend_find_present_hints (stream : list Z) (dwords : Z) : option (list present_hint) :=
  match loop 64 (hints_step stream dwords) (0, []) with
  | inr r => r
  | inl _ => None
  end.

(** The bytes of a stream as its words. *)
Definition words_of (bytes : list Z) (dwords : Z) : list Z :=
  (fun k => le_join (take 4 (drop (Z.to_nat (4 * k)) bytes))) <$> seqZ 0 dwords.

Section vrend.
Context {E R : Type} `{CogpuHost E} `{CogpuWindows E} `{Renderer R}.
Abbreviation D := (M (@gpu E R)).

Definition ready : D bool := gets (fun d => vrend_ready (d_vrend d)).

(** A call that answers [-1] until the renderer is up. *)
Definition when_ready (m : D Z) : D Z :=
  up ← ready; if up : bool then m else mret (-1).
Definition if_ready (m : D unit) : D unit :=
  up ← ready; if up : bool then m else mret tt.

Definition set_resources l (v : vrend) : vrend :=
  Vrend (vrend_ready v) l (staging_size v) (vrend_present_request v) (vrend_moco_present_cb v).
Definition set_staging n (v : vrend) : vrend :=
  Vrend (vrend_ready v) (vrend_resources v) n (vrend_present_request v) (vrend_moco_present_cb v).
Definition set_request p (v : vrend) : vrend :=
  Vrend (vrend_ready v) (vrend_resources v) (staging_size v) p (vrend_moco_present_cb v).

(** ** The arguments kept beside each resource *)

Definition info_id (i : resource_info) : Z := ar_handle (ri_args i).

Definition vrend_resource_find (l : list resource_info) (res_id : Z) : option resource_info :=
  head (filter (fun i => info_id i = res_id) l).

Fixpoint overwrite (l : list resource_info) (args : create_args) : list resource_info :=
  match l with
  | [] => []
  | i :: l => if info_id i =? ar_handle args then Info args 0 :: l else i :: overwrite l args
  end.

Definition vrend_resource_remember (args : create_args) : D unit :=
  l ← gets (fun d => vrend_resources (d_vrend d));
  match vrend_resource_find l (ar_handle args) with
  | Some _ => modify (fun d => put_vrend (set_resources (overwrite l args) (d_vrend d)) d)
  | None =>
      meta ← cached (env (heap_malloc 56));
      if negb meta then mret tt else
      modify (fun d => put_vrend (set_resources (Info args 0 :: l) (d_vrend d)) d)
  end.

Fixpoint remove_info (l : list resource_info) (res_id : Z) : list resource_info :=
  match l with
  | [] => []
  | i :: l => if info_id i =? res_id then l else i :: remove_info l res_id
  end.

Definition vrend_resource_forget (res_id : Z) : D unit :=
  modify (fun d => put_vrend (set_resources (remove_info (vrend_resources (d_vrend d)) res_id) (d_vrend d)) d).

Definition cogpu_vrend_resource_create (args : create_args) : D Z :=
  when_ready (rc ← rend (virgl_renderer_resource_create args);
              (if rc =? 0 then vrend_resource_remember args else mret tt) ;; mret rc).

Definition cogpu_vrend_resource_unref (res_id : Z) : D unit :=
  if_ready (rend_do (virgl_renderer_resource_unref res_id) ;; vrend_resource_forget res_id).

(** What the presenter is told of a resource that has a texture. *)
Definition cogpu_vrend_resource_info (res_id : Z) : D (option resource_info) :=
  up ← ready;
  if negb up then mret None else
  l ← gets (fun d => vrend_resources (d_vrend d));
  match vrend_resource_find l res_id with
  | None => mret None
  | Some meta =>
      r ← gets d_rend;
      mret match virgl_renderer_resource_get_info res_id r with
           | None => None
           | Some i =>
               let a := ri_args meta in
               if rr_tex_id i =? 0 then None else
               Some (Info (Args (ar_handle a) (ar_target a) (rr_format i) (ar_bind a) (rr_width i) (rr_height i)
                             (rr_depth i) (ar_array_size a) (ar_last_level a) (ar_nr_samples a) (rr_flags i))
                          (rr_tex_id i))
           end
  end.

(** ** Backing *)

Definition cogpu_vrend_attach_iov (res_id : Z) (iov : list iovec) : D Z :=
  up ← ready;
  if (negb up || (length iov =? 0)%nat)%bool then mret (-1) else
  own ← cached (env (heap_malloc (Z.of_nat (length iov) * 16)));
  if negb own then mret (-1) else
  rc ← rend (virgl_renderer_resource_attach_iov res_id iov);
  mret (if rc =? 0 then 0 else -1).

Definition cogpu_vrend_detach_iov (res_id : Z) : D unit :=
  if_ready (rend_do (virgl_renderer_resource_detach_iov res_id)).

Definition cogpu_vrend_create_blob (ctx_id res_id blob_mem blob_flags blob_id size : Z) (iov : list iovec) : D Z :=
  when_ready
    (own ← (if (length iov =? 0)%nat then mret true
            else cached (env (heap_malloc (Z.of_nat (length iov) * 16))));
     if negb own then mret (-1) else
     rend (virgl_renderer_resource_create_blob ctx_id res_id blob_mem blob_flags blob_id size iov)).

(** The code, and where the mapping is and how large. *)
Definition cogpu_vrend_resource_map (res_id : Z) : D (Z * (Z * Z)) :=
  up ← ready;
  if negb up then mret (-1, (0, 0)) else rend (virgl_renderer_resource_map res_id).

(** Its code is not looked at. *)
Definition cogpu_vrend_resource_unmap (res_id : Z) : D unit :=
  if_ready (rend_do (virgl_renderer_resource_unmap res_id)).

Definition cogpu_vrend_map_info (res_id : Z) : D Z :=
  up ← ready;
  if negb up then mret 0 else gets (fun d => virgl_renderer_resource_get_map_info res_id (d_rend d)).

(** ** Contexts *)

Definition cogpu_vrend_ctx_create (ctx_id : Z) (name : list Z) (context_init : Z) : D Z :=
  when_ready
    (let capset := Z.land context_init 255 in
     let capset := if capset =? 0 then 2 else capset in
     rend (virgl_renderer_context_create_with_flags ctx_id capset name)).

Definition cogpu_vrend_ctx_destroy (ctx_id : Z) : D unit :=
  if_ready (rend_do (virgl_renderer_context_destroy ctx_id)).
Definition cogpu_vrend_ctx_attach (ctx_id res_id : Z) : D unit :=
  if_ready (rend_do (virgl_renderer_ctx_attach_resource ctx_id res_id)).
Definition cogpu_vrend_ctx_detach (ctx_id res_id : Z) : D unit :=
  if_ready (rend_do (virgl_renderer_ctx_detach_resource ctx_id res_id)).

Definition cogpu_vrend_ctx_fence (ctx_id ring_idx fence_id : Z) : D Z :=
  when_ready (rend (virgl_renderer_context_create_fence ctx_id ring_idx fence_id)).

Definition cogpu_vrend_capset (set : Z) : D (Z * Z) :=
  up ← ready; if negb up then mret (0, 0) else gets (fun d => virgl_renderer_get_cap_set set (d_rend d)).

(** The capset's bytes, however many it has, to [caps]. *)
Definition cogpu_vrend_fill_caps (set version caps : Z) : D unit :=
  if_ready (modify (fun d =>
    put_mem (store_bytes (d_mem d) caps (virgl_renderer_fill_caps set version (d_rend d))) d)).

(** ** Executing *)

Definition cogpu_vrend_transfer (to_host : bool) (res_id ctx_id level stride layer_stride : Z)
    (box : virgl_box) (offset : Z) : D Z :=
  when_ready (fun d =>
    let '(rc, m, r) := virgl_renderer_transfer to_host res_id ctx_id level stride layer_stride box offset
                         (d_mem d) (d_rend d) in
    (Ret rc, put_mem m (put_rend r d))).

Definition cogpu_vrend_upload (res_id stride w h pixels bytes : Z) : D Z :=
  when_ready (fun d =>
    let '(rc, r) := virgl_renderer_transfer_write_iov res_id stride (Box 0 0 0 w h 1) (Iov pixels bytes)
                      (d_mem d) (d_rend d) in
    (Ret rc, put_rend r d)).

Definition vrend_present_flush : D unit :=
  v ← gets d_vrend;
  match vrend_present_request v with
  | None => mret tt
  | Some p =>
      modify (fun d => put_vrend (set_request None (d_vrend d)) d) ;;
      if vrend_moco_present_cb v then rend_do (cogpu_present_stream p) else mret tt
  end.

(** [vrend_moco_present], called back while the stream runs. *)
Definition virgl_submit (ctx_id : Z) (cmds : list Z) : D Z := fun d =>
  let '(rc, p, m, r) := virgl_renderer_submit_cmd cmds ctx_id (d_mem d) (d_rend d) in
  let v := match p with Some p => set_request (Some p) (d_vrend d) | None => d_vrend d end in
  (Ret rc, put_vrend v (put_mem m (put_rend r d))).

(** The code and, when they are wanted, the hints. *)
Definition cogpu_vrend_submit (ctx_id : Z) (cmds : list Z) (want : bool) : D (Z * list present_hint) :=
  up ← ready;
  let bytes := Z.of_nat (length cmds) in
  if (negb up || (bytes =? 0) || negb (Z.land bytes 3 =? 0))%bool then mret (-1, []) else
  if COGPU_MAX_CMD_BYTES <? bytes then mret (-1, []) else
  size ← gets (fun d => staging_size (d_vrend d));
  ok ← (if size <? bytes then
          ok ← cached (env (heap_malloc bytes));
          (if ok : bool then modify (fun d => put_vrend (set_staging bytes (d_vrend d)) d) else mret tt) ;; mret ok
        else mret true);
  if negb ok then mret (-1, []) else
  match (if want then vrend_find_present_hints (words_of cmds (bytes / 4)) (bytes / 4) else Some []) with
  | None => fault
  | Some hints =>
      rc ← virgl_submit ctx_id cmds;
      vrend_present_flush ;;
      mret (rc, hints)
  end.
End vrend.
