(* ===== verification/GpuRes.v ===== *)
(** The requests that give a resource guest pages, take them away, and put a
    host mapping into the guest ([os/winnt/user/cogpu-daemon/cogpu-daemon.c],
    the cases of [serve]).

    A case gives the reply's type and how many bytes of reply were written; the
    header of both requests and replies is 24 bytes. *)
From S2P Require Import Prelude.
From S2P Require Import Mem.
From S2P Require Import Rc.
From S2P Require Import Handles.
From S2P Require Import Vring.
From S2P Require Import Slices.
From S2P Require Import Gpu.
From S2P Require Import Vrend.

Definition VIRTIO_GPU_RESP_OK_NODATA : Z := 4352.
Definition VIRTIO_GPU_RESP_OK_DISPLAY_INFO : Z := 4353.
Definition VIRTIO_GPU_RESP_OK_CAPSET_INFO : Z := 4354.
Definition VIRTIO_GPU_RESP_OK_CAPSET : Z := 4355.
Definition VIRTIO_GPU_RESP_OK_MAP_INFO : Z := 4358.
Definition VIRTIO_GPU_RESP_ERR_UNSPEC : Z := 4608.

Definition sizeof_hdr : Z := 24.
Definition MAX_IOV : Z := 16384.

(** A case's answer with nothing after the header. *)
Definition ok : Z * Z := (VIRTIO_GPU_RESP_OK_NODATA, sizeof_hdr).
Definition err : Z * Z := (VIRTIO_GPU_RESP_ERR_UNSPEC, sizeof_hdr).

(** A guest page run: [struct { uint64_t addr; uint32_t length, pad; }]. *)
Record mem_entry := Entry { en_addr : Z; en_length : Z }.

Definition entry_at (p : list Z) (i : Z) : mem_entry :=
  let e := take 16 (drop (Z.to_nat (i * 16)) p) in
  Entry (le_join (take 8 e)) (le_join (take 4 (drop 8 e))).

(** What is left of an entry, the iovecs so far and the slices they touch. *)
Record building := Building { bu_addr : Z; bu_left : Z; bu_iov : list iovec; bu_pins : pin_collect }.

Section res.
Context {E R : Type} `{CogpuHost E} `{CogpuWindows E} `{Renderer R}.
Abbreviation D := (M (@gpu E R)).

(** The request's words after its header, and the first descriptor's length. *)
Definition req_u32 (chain : cogpu_chain) (off : Z) : D Z :=
  gets (fun d => match c_in chain with b :: _ => load_u32 (d_mem d) (b_addr b + sizeof_hdr + off) | [] => 0 end).
Definition req_u64 (chain : cogpu_chain) (off : Z) : D Z :=
  gets (fun d => match c_in chain with b :: _ => load_u64 (d_mem d) (b_addr b + sizeof_hdr + off) | [] => 0 end).
Definition in_len (chain : cogpu_chain) : Z := match c_in chain with b :: _ => b_len b | [] => 0 end.
Definition out_len (chain : cogpu_chain) : Z := match c_out chain with b :: _ => b_len b | [] => 0 end.
Definition out_addr (chain : cogpu_chain) : Z := match c_out chain with b :: _ => b_addr b | [] => 0 end.

(** A store through the reply's buffer. *)
Definition store_out (f : mem -> mem) : D unit := modify (fun d => put_mem (f (d_mem d)) d).

(** ** Building the iovecs *)

(** One run of an entry: as far as one host pointer reaches. *)
Definition run_step (count : bool) (st : building) : D (building + option building) :=
  let '(Building addr rest iov pins) := st in
  if rest =? 0 then mret (inr (Some st)) else
  run ← cached (resolve_run addr rest);
  if ((run =? 0) || (MAX_IOV <=? Z.of_nat (length iov)))%bool then mret (inr None) else
  host ← cached (resolve_gpa true addr run);
  if host =? 0 then mret (inr None) else
  pins ← cached (pin_collect_add pins addr);
  (if count then stat (stat_backing run) else mret tt) ;;
  mret (inl (Building (u64 (addr + run)) (u32 (rest - run)) (iov ++ [Iov host run]) pins)).

Definition add_entry (count : bool) (iov : list iovec) (pins : pin_collect) (ent : mem_entry) : D (option building) :=
  mloop (run_step count) (Building (en_addr ent) (en_length ent) iov pins).

(** The entries [i], [i + 1], ...; nothing when one is refused. *)
Fixpoint add_entries (count : bool) (p : list Z) (n : nat) (i : Z) (iov : list iovec) (pins : pin_collect) :
    D (option (list iovec * pin_collect)) :=
  match n with
  | O => mret (Some (iov, pins))
  | S n =>
      b ← add_entry count iov pins (entry_at p i);
      match b with
      | None => mret None
      | Some b => add_entries count p n (i + 1) (bu_iov b) (bu_pins b)
      end
  end.

(** The entry list that follows [skip] bytes of request, and its iovecs. *)
Definition gather_iov (count : bool) (chain : cogpu_chain) (skip nr_entries : Z) :
    D (option (list iovec * pin_collect)) :=
  let want := u32 (nr_entries * 16) in
  p ← chain_gather chain skip want;
  match p with
  | None => mret None
  | Some p =>
      if Z.of_nat (length p) <? want then mret None
      else add_entries count p (Z.to_nat nr_entries) 0 [] (Collect [] false)
  end.

(** ** Backing *)

Definition attach_backing (chain : cogpu_chain) : D (Z * Z) :=
  if in_len chain <? sizeof_hdr + 8 then mret err else
  resource_id ← req_u32 chain 0;
  nr_entries ← req_u32 chain 4;
  if ((nr_entries =? 0) || (MAX_IOV <? nr_entries))%bool then mret err else
  b ← gather_iov true chain (sizeof_hdr + 8) nr_entries;
  match b with
  | None => mret err
  | Some (iov, pins) =>
      pinned ← cached (res_pins_commit resource_id pins);
      if negb pinned then mret err else
      rc ← cogpu_vrend_attach_iov resource_id iov;
      if negb (rc =? 0) then cached (res_pins_drop resource_id) ;; mret err
      else mret ok
  end.

Definition detach_backing (chain : cogpu_chain) : D (Z * Z) :=
  (if sizeof_hdr + 8 <=? in_len chain then
     resource_id ← req_u32 chain 0;
     cogpu_vrend_detach_iov resource_id ;;
     cached (res_pins_drop resource_id)
   else mret tt) ;;
  mret ok.

Definition resource_unref (chain : cogpu_chain) : D (Z * Z) :=
  if in_len chain <? sizeof_hdr + 8 then mret err else
  resource_id ← req_u32 chain 0;
  rend_do (cogpu_present_r1_resource_unref resource_id) ;;
  rend_do (cogpu_present_r2_resource_unref resource_id) ;;
  cogpu_vrend_detach_iov resource_id ;;
  cogpu_vrend_resource_unref resource_id ;;
  cached (res_pins_drop resource_id) ;;
  mret ok.

Definition create_blob (ctx_id : Z) (chain : cogpu_chain) : D (Z * Z) :=
  if in_len chain <? sizeof_hdr + 32 then mret err else
  resource_id ← req_u32 chain 0;
  blob_mem ← req_u32 chain 4;
  blob_flags ← req_u32 chain 8;
  nr_entries ← req_u32 chain 12;
  blob_id ← req_u64 chain 16;
  size ← req_u64 chain 24;
  if MAX_IOV <? nr_entries then mret err else
  b ← (if 0 <? nr_entries then gather_iov false chain (sizeof_hdr + 32) nr_entries
       else mret (Some ([], Collect [] false)));
  match b with
  | None => mret err
  | Some (iov, pins) =>
      let niov := negb (length iov =? 0)%nat in
      pinned ← (if niov then cached (res_pins_commit resource_id pins) else mret true);
      if negb pinned then mret err else
      rc ← cogpu_vrend_create_blob ctx_id resource_id blob_mem blob_flags blob_id size iov;
      if negb (rc =? 0) then (if niov then cached (res_pins_drop resource_id) else mret tt) ;; mret err
      else mret ok
  end.

(** ** Blobs in the guest's window *)

Fixpoint blob_slot (l : list cogpu_blob_map) (res_id : Z) : option nat :=
  match l with
  | [] => None
  | b :: l => if bm_res_id b =? res_id then Some 0%nat else S <$> blob_slot l res_id
  end.

Definition blob_map_find (l : list cogpu_blob_map) (res_id : Z) : option cogpu_blob_map :=
  if res_id =? 0 then None else i ← blob_slot l res_id; l !! i.

(** Whether it was tracked: the code's [0]. *)
Definition blob_map_track (res_id pseudo_pa bytes host_va : Z) : D bool :=
  l ← gets g_blob_map;
  let b := BlobMap res_id pseudo_pa bytes host_va in
  match blob_slot l 0 with
  | Some i => modify (put_blobs (<[i := b]> l)) ;; mret true
  | None =>
      let want := if (length l =? 0)%nat then 1024 else u32 (Z.of_nat (length l) * 2) in
      room ← cached (env (heap_malloc (want * 32)));
      if negb room then mret false else
      let l' := l ++ replicate (Z.to_nat (want - Z.of_nat (length l))) (BlobMap 0 0 0 0) in
      modify (put_blobs (<[length l := b]> l')) ;;
      mret true
  end.

Definition forgotten (b : cogpu_blob_map) : cogpu_blob_map :=
  BlobMap 0 (bm_pseudo_pa b) (bm_bytes b) (bm_host_va b).

Definition blob_map_forget (res_id : Z) : D unit :=
  l ← gets g_blob_map;
  if res_id =? 0 then mret tt else
  match blob_slot l res_id with
  | None => mret tt
  | Some i => modify (put_blobs (alter forgotten i l))
  end.

Definition co_manager_kwindow_at (va bytes pseudo_pa : Z) : D bool :=
  r ← cached (env (fun e => let '(rc, prc, e) := ioctl_kwindow_at va bytes pseudo_pa e in ((rc, prc), e)));
  let '(rc, prc) := r in mret (CO_OK (if CO_OK rc then prc else rc)).
Definition co_manager_kunwindow (pseudo_pa bytes : Z) : D bool :=
  r ← cached (env (fun e => let '(rc, prc, e) := ioctl_kunwindow pseudo_pa bytes e in ((rc, prc), e)));
  let '(rc, prc) := r in mret (CO_OK (if CO_OK rc then prc else rc)).

(** Whether the pages fit between the arena's ends, as the code asks it. *)
Definition in_arena (v : setup) (pseudo_pa bytes : Z) : bool :=
  negb ((g_window_top v =? 0) || (pseudo_pa <? g_window_base v) || (g_window_top v <? u64 (pseudo_pa + bytes)))%bool.

(** [mi]: the cache attribute of the mapping. *)
Definition reply_map_info (chain : cogpu_chain) (info : Z) : D unit :=
  store_out (fun m => store_u32 (store_u32 m (out_addr chain + sizeof_hdr) info) (out_addr chain + sizeof_hdr + 4) 0).

Definition map_blob (chain : cogpu_chain) : D (Z * Z) :=
  if ((in_len chain <? sizeof_hdr + 16) || (out_len chain <? sizeof_hdr + 8))%bool then mret err else
  resource_id ← req_u32 chain 0;
  offset ← req_u64 chain 8;
  l ← gets g_blob_map;
  match blob_map_find l resource_id with
  | Some _ => mret err
  | None =>
      r ← cogpu_vrend_resource_map resource_id;
      let '(rc, (va, size)) := r in
      if (negb (rc =? 0) || (va =? 0) || (size =? 0))%bool then mret err else
      if negb (Z.land va 4095 =? 0) then cogpu_vrend_resource_unmap resource_id ;; mret err else
      let mapped_bytes := Z.land (u64 (size + 4095)) (2 ^ 64 - 4096) in
      v ← gets (fun d => c_setup (d_cache d));
      let pseudo_pa := u64 (g_window_base v + offset) in
      if negb (in_arena v pseudo_pa mapped_bytes)
      then cogpu_vrend_resource_unmap resource_id ;; mret err else
      windowed ← co_manager_kwindow_at va mapped_bytes pseudo_pa;
      if negb windowed then cogpu_vrend_resource_unmap resource_id ;; mret err else
      tracked ← blob_map_track resource_id pseudo_pa mapped_bytes va;
      if negb tracked then
        co_manager_kunwindow pseudo_pa mapped_bytes ;;
        cogpu_vrend_resource_unmap resource_id ;; mret err
      else
      info ← cogpu_vrend_map_info resource_id;
      reply_map_info chain info ;;
      mret (VIRTIO_GPU_RESP_OK_MAP_INFO, sizeof_hdr + 8)
  end.

Definition unmap_blob (chain : cogpu_chain) : D (Z * Z) :=
  if in_len chain <? sizeof_hdr + 8 then mret err else
  resource_id ← req_u32 chain 0;
  l ← gets g_blob_map;
  match blob_map_find l resource_id with
  | None => mret err
  | Some bm =>
      co_manager_kunwindow (bm_pseudo_pa bm) (bm_bytes bm) ;;
      cogpu_vrend_resource_unmap resource_id ;;
      blob_map_forget resource_id ;;
      mret ok
  end.
End res.
