(* ===== verification/GpuServe.v ===== *)
(** Answering one request of the guest's GPU
    ([os/winnt/user/cogpu-daemon/cogpu-daemon.c], [serve], and the bridge
    resources of [moco_bridge_resource]).

    [serve] writes the reply through the chain's first writable descriptor and
    gives the number of bytes to publish. A fenced request's reply echoes the
    fence; one of a Venus context asks for the chain to be parked. *)
From S2P Require Import Prelude.
From S2P Require Import Mem.
From S2P Require Import Rc.
From S2P Require Import Handles.
From S2P Require Import Vring.
From S2P Require Import Slices.
From S2P Require Import Gpu.
From S2P Require Import Vrend.
From S2P Require Import GpuRes.

Definition COGPU_MAX_CTX : Z := 4096.
Definition MOCO_BRIDGE_RES_BASE : Z := 1297040128.
Definition VIRTIO_GPU_FLAG_FENCE : Z := 1.
Definition VIRTIO_GPU_FLAG_INFO_RING_IDX : Z := 2.

Record virtio_gpu_ctrl_hdr := Hdr {
  h_type : Z; h_flags : Z; h_fence_id : Z; h_ctx_id : Z; h_ring_idx : Z;
}.

Definition read_hdr (m : mem) (a : Z) : virtio_gpu_ctrl_hdr :=
  Hdr (load_u32 m a) (load_u32 m (a + 4)) (load_u64 m (a + 8)) (load_u32 m (a + 16)) (load m (a + 20)).

(** The echo of a fence in a reply. *)
Definition echo_hdr (req : virtio_gpu_ctrl_hdr) (a : Z) (m : mem) : mem :=
  let m := store_u32 m (a + 4) (Z.land (h_flags req) (Z.lor VIRTIO_GPU_FLAG_FENCE VIRTIO_GPU_FLAG_INFO_RING_IDX)) in
  let m := store_u64 m (a + 8) (h_fence_id req) in
  let m := store_u32 m (a + 16) (h_ctx_id req) in
  store_bytes m (a + 20) [h_ring_idx req].

(** What the guest's words name, and the code it asks for. *)
Inductive gpu_command :=
  | GET_DISPLAY_INFO | RESOURCE_CREATE_2D | RESOURCE_UNREF | RESOURCE_ATTACH_BACKING
  | RESOURCE_DETACH_BACKING | GET_CAPSET_INFO | GET_CAPSET | GET_EDID | RESOURCE_ASSIGN_UUID
  | RESOURCE_CREATE_BLOB | CTX_CREATE | CTX_DESTROY | CTX_ATTACH_RESOURCE | CTX_DETACH_RESOURCE
  | RESOURCE_CREATE_3D | TRANSFER_TO_HOST_3D | TRANSFER_FROM_HOST_3D | SUBMIT_3D
  | RESOURCE_MAP_BLOB | RESOURCE_UNMAP_BLOB | MOCO_PRESENT | unknown_command.

Definition command_of (type : Z) : gpu_command :=
  match type with
  | 256 => GET_DISPLAY_INFO | 257 => RESOURCE_CREATE_2D | 258 => RESOURCE_UNREF
  | 262 => RESOURCE_ATTACH_BACKING | 263 => RESOURCE_DETACH_BACKING | 264 => GET_CAPSET_INFO
  | 265 => GET_CAPSET | 266 => GET_EDID | 267 => RESOURCE_ASSIGN_UUID | 268 => RESOURCE_CREATE_BLOB
  | 512 => CTX_CREATE | 513 => CTX_DESTROY | 514 => CTX_ATTACH_RESOURCE | 515 => CTX_DETACH_RESOURCE
  | 516 => RESOURCE_CREATE_3D | 517 => TRANSFER_TO_HOST_3D | 518 => TRANSFER_FROM_HOST_3D
  | 519 => SUBMIT_3D | 520 => RESOURCE_MAP_BLOB | 521 => RESOURCE_UNMAP_BLOB | 1024 => MOCO_PRESENT
  | _ => unknown_command
  end.

Section serve.
Context {E R : Type} `{CogpuHost E} `{CogpuWindows E} `{Renderer R}.
Abbreviation D := (M (@gpu E R)).

(** ** The bridge resources *)

Definition no_bridge : moco_bridge_slot := Bridge 0 0 0 0 0.
Definition bridge_at (l : list moco_bridge_slot) (i : nat) : moco_bridge_slot := default no_bridge (l !! i).
Definition bridge_res (i : nat) : Z := u32 (MOCO_BRIDGE_RES_BASE + Z.of_nat i).
Definition set_bridge (i : nat) (b : moco_bridge_slot) : D unit :=
  modify (fun d => put_bridge (<[i := b]> (g_bridge d)) (g_bridge_clock d) d).

Fixpoint moco_bridge_release_ctx (ctx_id : Z) (n : nat) (i : nat) : D unit :=
  match n with
  | O => mret tt
  | S n =>
      l ← gets g_bridge;
      let b := bridge_at l i in
      (if ((br_xid b =? 0) || negb (br_ctx_id b =? ctx_id))%bool then mret tt else
       rend_do (cogpu_present_r1_resource_unref (bridge_res i)) ;;
       rend_do (cogpu_present_r2_resource_unref (bridge_res i)) ;;
       (if negb (br_width b =? 0) then cogpu_vrend_resource_unref (bridge_res i) else mret tt) ;;
       set_bridge i no_bridge) ;;
      moco_bridge_release_ctx ctx_id n (S i)
  end.

Fixpoint bridge_for (l : list moco_bridge_slot) (xid : Z) : option nat :=
  match l with
  | [] => None
  | b :: l => if br_xid b =? xid then Some 0%nat else S <$> bridge_for l xid
  end.

(** The slot used longest ago, the first of several. *)
Fixpoint oldest_bridge (l : list moco_bridge_slot) (i pick : nat) (used : Z) : nat :=
  match l with
  | [] => pick
  | b :: l => if br_used b <? used then oldest_bridge l (S i) i (br_used b) else oldest_bridge l (S i) pick used
  end.

Definition sized (b : moco_bridge_slot) (w h : Z) : moco_bridge_slot :=
  Bridge (br_xid b) (br_ctx_id b) w h (br_used b).

(** The slot for a window: its own, a free one, or the oldest, emptied. *)
Definition bridge_pick (xid : Z) : D nat :=
  l ← gets g_bridge;
  match bridge_for l xid with
  | Some i => mret i
  | None =>
      match bridge_for l 0 with
      | Some i => mret i
      | None =>
          let i := oldest_bridge l 0 0 (br_used (bridge_at l 0)) in
          let b := bridge_at l i in
          (if negb (br_width b =? 0) then cogpu_vrend_resource_unref (bridge_res i) else mret tt) ;;
          set_bridge i (sized b 0 0) ;;
          mret i
      end
  end.

Definition moco_bridge_resource (xid ctx_id width height : Z) : D Z :=
  i ← bridge_pick xid;
  l ← gets g_bridge;
  clock ← gets g_bridge_clock;
  let b := bridge_at l i in
  let b := Bridge xid ctx_id (br_width b) (br_height b) (u64 (clock + 1)) in
  modify (put_bridge (<[i := b]> l) (u64 (clock + 1))) ;;
  if ((br_width b =? width) && (br_height b =? height))%bool then mret (bridge_res i) else
  (if negb (br_width b =? 0) then cogpu_vrend_resource_unref (bridge_res i) else mret tt) ;;
  rc ← cogpu_vrend_resource_create (Args (bridge_res i) 2 1 (Z.shiftl 1 1) width height 1 1 0 0 0);
  if negb (rc =? 0) then set_bridge i (sized b 0 0) ;; mret 0
  else set_bridge i (sized b width height) ;; mret (bridge_res i).

(** ** The cases *)

Definition get_display_info (chain : cogpu_chain) : D (Z * Z) :=
  if sizeof_hdr <? out_len chain then
    store_out (fun m => co_memset m (out_addr chain + sizeof_hdr) 0 (out_len chain - sizeof_hdr)) ;;
    mret (VIRTIO_GPU_RESP_OK_DISPLAY_INFO, out_len chain)
  else mret (VIRTIO_GPU_RESP_OK_DISPLAY_INFO, sizeof_hdr).

Definition get_capset_info (chain : cogpu_chain) : D (Z * Z) :=
  if out_len chain <? sizeof_hdr + 16 then mret err else
  index ← (if sizeof_hdr + 8 <=? in_len chain then req_u32 chain 0 else mret 0);
  let capset_id := if index =? 0 then 1 else if index =? 1 then 2 else 4 in
  let a := out_addr chain + sizeof_hdr in
  store_out (fun m => store_u32 m a capset_id) ;;
  r ← cogpu_vrend_capset capset_id;
  let '(version, size) := r in
  store_out (fun m => store_u32 (store_u32 (store_u32 m (a + 4) version) (a + 8) size) (a + 12) 0) ;;
  mret (VIRTIO_GPU_RESP_OK_CAPSET_INFO, sizeof_hdr + 16).

Definition get_capset (chain : cogpu_chain) : D (Z * Z) :=
  if in_len chain <? sizeof_hdr + 8 then mret err else
  capset_id ← req_u32 chain 0;
  version ← req_u32 chain 4;
  if sizeof_hdr <? out_len chain then
    cogpu_vrend_fill_caps capset_id version (out_addr chain + sizeof_hdr) ;;
    mret (VIRTIO_GPU_RESP_OK_CAPSET, out_len chain)
  else mret (VIRTIO_GPU_RESP_OK_CAPSET, sizeof_hdr).

(** The name length, the flags and the name, as far as the request has them. *)
Definition ctx_request (chain : cogpu_chain) (m : mem) : Z * Z * list Z :=
  let have := if in_len chain <? sizeof_hdr + 8 then 0
              else if in_len chain - sizeof_hdr <? 72 then in_len chain - sizeof_hdr else 72 in
  let c := match c_in chain with
           | b :: _ => load_bytes m (b_addr b + sizeof_hdr) have
           | [] => []
           end ++ replicate (Z.to_nat (72 - have)) 0 in
  (le_join (take 4 c), le_join (take 4 (drop 4 c)), drop 8 c).

Definition asked_capset (ctx_init : Z) : Z := let c := Z.land ctx_init 255 in if c =? 0 then 2 else c.

Definition ctx_create (ctx_id : Z) (chain : cogpu_chain) : D (Z * Z) :=
  m ← gets d_mem;
  let '(namelen, ctx_init, name) := ctx_request chain m in
  (if ctx_id <? COGPU_MAX_CTX then
     modify (fun d => put_ctx (g_ctx_capset d) (arr_set (g_ctx_wanted d) ctx_id (asked_capset ctx_init)) d)
   else mret tt) ;;
  cogpu_vrend_ctx_destroy ctx_id ;;
  rc ← cogpu_vrend_ctx_create ctx_id (take (Z.to_nat (if 63 <? namelen then 63 else namelen)) name) ctx_init;
  if negb (rc =? 0) then mret err else
  (if ctx_id <? COGPU_MAX_CTX then
     modify (fun d => put_ctx (arr_set (g_ctx_capset d) ctx_id (arr_get (g_ctx_wanted d) ctx_id)) (g_ctx_wanted d) d)
   else mret tt) ;;
  mret ok.

Definition ctx_destroy (ctx_id : Z) : D (Z * Z) :=
  l ← gets g_bridge;
  moco_bridge_release_ctx ctx_id (length l) 0 ;;
  cogpu_vrend_ctx_destroy ctx_id ;;
  (if ctx_id <? COGPU_MAX_CTX
   then modify (fun d => put_ctx (arr_set (g_ctx_capset d) ctx_id 0) (g_ctx_wanted d) d) else mret tt) ;;
  mret ok.

(** Show the presenter a resource that was read back; a failure turns it off. *)
Definition show_r1 (res_id level x y w h : Z) : D unit :=
  info ← cogpu_vrend_resource_info res_id;
  match info with
  | None => mret tt
  | Some info =>
      rc ← rend (cogpu_present_r1_frame info level x y w h);
      if rc <? 0 then rend_do cogpu_present_r1_fini ;; modify (put_r1 false) else mret tt
  end.

Fixpoint show_hints (l : list present_hint) : D unit :=
  match l with
  | [] => mret tt
  | h :: l =>
      r1 ← gets present_r1;
      if r1 : bool then
        show_r1 (hi_resource_id h) (hi_level h) (hi_x h) (hi_y h) (hi_width h) (hi_height h) ;; show_hints l
      else mret tt
  end.

Definition submit_3d (ctx_id : Z) (chain : cogpu_chain) : D (Z * Z) :=
  if in_len chain <? sizeof_hdr + 8 then mret err else
  size ← req_u32 chain 0;
  if size =? 0 then mret ok else
  cmds ← chain_gather chain (sizeof_hdr + 8) size;
  match cmds with
  | None => mret err
  | Some cmds =>
      if Z.of_nat (length cmds) <? size then mret err else
      r1 ← gets present_r1;
      r ← cogpu_vrend_submit ctx_id cmds r1;
      let '(rc, hints) := r in
      if negb (rc =? 0) then mret err else
      stat (stat_submit size) ;;
      show_hints hints ;;
      mret ok
  end.

Definition create_3d (chain : cogpu_chain) : D (Z * Z) :=
  if in_len chain <? sizeof_hdr + 48 then mret err else
  m ← gets d_mem;
  let a := match c_in chain with b :: _ => b_addr b + sizeof_hdr | [] => 0 end in
  let w k := load_u32 m (a + 4 * k) in
  rc ← cogpu_vrend_resource_create (Args (w 0) (w 1) (w 2) (w 3) (w 4) (w 5) (w 6) (w 7) (w 8) (w 9) (w 10));
  if rc =? 0 then stat stat_resource ;; mret ok else mret err.

Definition create_2d (chain : cogpu_chain) : D (Z * Z) :=
  if in_len chain <? sizeof_hdr + 16 then mret err else
  resource_id ← req_u32 chain 0;
  format ← req_u32 chain 4;
  width ← req_u32 chain 8;
  height ← req_u32 chain 12;
  rc ← cogpu_vrend_resource_create (Args resource_id 2 format (Z.shiftl 1 1) width height 1 1 0 0 0);
  mret (if negb (rc =? 0) then err else ok).

Definition ctx_resource (f : Z -> D unit) (chain : cogpu_chain) : D (Z * Z) :=
  (if sizeof_hdr + 8 <=? in_len chain then resource_id ← req_u32 chain 0; f resource_id else mret tt) ;;
  mret ok.

Definition transfer_3d (to_host : bool) (ctx_id : Z) (chain : cogpu_chain) : D (Z * Z) :=
  if in_len chain <? sizeof_hdr + 48 then mret err else
  m ← gets d_mem;
  let a := match c_in chain with b :: _ => b_addr b + sizeof_hdr | [] => 0 end in
  let w k := load_u32 m (a + 4 * k) in
  let '(res, level, stride, layer) := (w 8, w 9, w 10, w 11) in
  rc ← cogpu_vrend_transfer to_host res ctx_id level stride layer (Box (w 0) (w 1) (w 2) (w 3) (w 4) (w 5))
         (load_u64 m (a + 24));
  if negb (rc =? 0) then mret err else
  r1 ← gets present_r1;
  (if (negb to_host && r1)%bool then show_r1 res level (w 0) (w 1) (w 3) (w 4) else mret tt) ;;
  stat stat_transfer ;;
  mret ok.

Definition moco_present (ctx_id : Z) (chain : cogpu_chain) : D (Z * Z) :=
  if in_len chain <? sizeof_hdr + 24 then mret err else
  resource_id ← req_u32 chain 0;
  xid ← req_u32 chain 4;
  width ← req_u32 chain 8;
  height ← req_u32 chain 12;
  stride ← req_u32 chain 16;
  l ← gets g_blob_map;
  match blob_map_find l resource_id with
  | None => mret err
  | Some bm =>
      if ((bm_host_va bm =? 0) || (bm_bytes bm <? stride * height))%bool then mret err else
      res ← moco_bridge_resource xid ctx_id width height;
      if res =? 0 then mret err else
      rc ← cogpu_vrend_upload res stride width height (bm_host_va bm) (bm_bytes bm);
      if negb (rc =? 0) then mret err else
      rend_do (cogpu_present_stream (Present res xid [width; height; 0; 0; width; height])) ;;
      mret ok
  end.

Definition serve_case (req : virtio_gpu_ctrl_hdr) (chain : cogpu_chain) : D (Z * Z) :=
  match command_of (h_type req) with
  | GET_DISPLAY_INFO => get_display_info chain
  | GET_CAPSET_INFO => get_capset_info chain
  | GET_CAPSET => get_capset chain
  | CTX_CREATE => ctx_create (h_ctx_id req) chain
  | CTX_DESTROY => ctx_destroy (h_ctx_id req)
  | SUBMIT_3D => submit_3d (h_ctx_id req) chain
  | RESOURCE_CREATE_3D => create_3d chain
  | RESOURCE_CREATE_2D => create_2d chain
  | RESOURCE_ATTACH_BACKING => attach_backing chain
  | RESOURCE_DETACH_BACKING => detach_backing chain
  | RESOURCE_UNREF => resource_unref chain
  | CTX_ATTACH_RESOURCE => ctx_resource (cogpu_vrend_ctx_attach (h_ctx_id req)) chain
  | CTX_DETACH_RESOURCE => ctx_resource (cogpu_vrend_ctx_detach (h_ctx_id req)) chain
  | TRANSFER_TO_HOST_3D => transfer_3d true (h_ctx_id req) chain
  | TRANSFER_FROM_HOST_3D => transfer_3d false (h_ctx_id req) chain
  | RESOURCE_CREATE_BLOB => create_blob (h_ctx_id req) chain
  | RESOURCE_MAP_BLOB => map_blob chain
  | RESOURCE_UNMAP_BLOB => unmap_blob chain
  | MOCO_PRESENT => moco_present (h_ctx_id req) chain
  | GET_EDID | RESOURCE_ASSIGN_UUID => mret err
  | unknown_command => mret ok
  end.

(** ** [serve] *)

Definition ctx_is_venus (have : gmap Z Z) (ctx_id : Z) : bool :=
  ((ctx_id <? COGPU_MAX_CTX) && (arr_get have ctx_id =? 4))%bool.

(** The fence of an answered request: echoed, and a Venus one parked. *)
Definition serve_fence (req : virtio_gpu_ctrl_hdr) (a : Z) : D unit :=
  if Z.land (h_flags req) VIRTIO_GPU_FLAG_FENCE =? 0 then mret tt else
  store_out (echo_hdr req a) ;;
  stat stat_fenced ;;
  have ← gets g_ctx_capset;
  m ← gets d_mem;
  if (ctx_is_venus have (h_ctx_id req) && negb (load_u32 m a =? VIRTIO_GPU_RESP_ERR_UNSPEC))%bool then
    let ring := if Z.land (h_flags req) VIRTIO_GPU_FLAG_INFO_RING_IDX =? 0 then 0 else h_ring_idx req in
    rc ← cogpu_vrend_ctx_fence (h_ctx_id req) ring (h_fence_id req);
    if rc =? 0 then modify (put_park (Some (ParkReq (h_ctx_id req) ring (h_fence_id req)))) else mret tt
  else mret tt.

Definition serve (chain : cogpu_chain) : D Z :=
  match c_in chain, c_out chain with
  | bi :: _, bo :: _ =>
      if ((b_len bi <? sizeof_hdr) || (b_len bo <? sizeof_hdr))%bool then stat stat_refused ;; mret 0 else
      req ← gets (fun d => read_hdr (d_mem d) (b_addr bi));
      store_out (fun m => co_memset m (b_addr bo) 0 sizeof_hdr) ;;
      r ← serve_case req chain;
      let '(type, written) := r in
      store_out (fun m => store_u32 m (b_addr bo) type) ;;
      serve_fence req (b_addr bo) ;;
      stat (stat_request (h_type req)) ;;
      mret written
  | _, _ => stat stat_refused ;; mret 0
  end.
End serve.
