(* ===== verification/GpuOk.v ===== *)
(** Guest pages given to the renderer stay where the renderer was told they are.

    [backed c b] says that every iovec the renderer holds points at guest memory
    through the shared view or through a slice pinned for its resource; the
    cache's invariant keeps such a slice mapped. *)
From S2P Require Import Prelude.
From S2P Require Import Mem.
From S2P Require Import Rc.
From S2P Require Import Handles.
From S2P Require Import Vring.
From S2P Require Import Slices.
From S2P Require Import SlicesOk.
From S2P Require Import SlicesPin.
From S2P Require Import Gpu.
From S2P Require Import Vrend.
From S2P Require Import GpuRes.

(** What the renderer promises. A resource that has backing refuses another, and
    a handle that is in use refuses a blob; everything else may only give
    backing up. Memory changes where the renderer was given iovecs, or where it
    owns it. *)
Class RendererLaws (R : Type) `{Renderer R} := {
  backing : R -> gmap Z (list iovec);
  rend_owns : Z -> Prop;
  in_iovecs (b : gmap Z (list iovec)) (x : Z) : Prop :=
    exists id l i, b !! id = Some l /\ i ∈ l /\ iov_base i <= x < iov_base i + iov_len i;
  law_attach id iov r :
    let '(rc, r') := virgl_renderer_resource_attach_iov id iov r in
    if rc =? 0 then backing r !! id = None /\ backing r' = <[id := iov]> (backing r) else backing r' ⊆ backing r;
  law_detach id r : backing (virgl_renderer_resource_detach_iov id r) ⊆ delete id (backing r);
  law_create_blob ctx id m f b size iov r :
    let '(rc, r') := virgl_renderer_resource_create_blob ctx id m f b size iov r in
    if rc =? 0
    then backing r !! id = None /\
         backing r' = (if (length iov =? 0)%nat then backing r else <[id := iov]> (backing r))
    else backing r' ⊆ backing r;
  law_create args r : backing (virgl_renderer_resource_create args r).2 ⊆ backing r;
  law_unref id r : backing (virgl_renderer_resource_unref id r) ⊆ backing r;
  law_map id r : backing (virgl_renderer_resource_map id r).2 ⊆ backing r;
  law_unmap id r : backing (virgl_renderer_resource_unmap id r) ⊆ backing r;
  law_ctx_create c k n r : backing (virgl_renderer_context_create_with_flags c k n r).2 ⊆ backing r;
  law_ctx_destroy c r : backing (virgl_renderer_context_destroy c r) ⊆ backing r;
  law_ctx_attach c id r : backing (virgl_renderer_ctx_attach_resource c id r) ⊆ backing r;
  law_ctx_detach c id r : backing (virgl_renderer_ctx_detach_resource c id r) ⊆ backing r;
  law_transfer th id c lv st ls bx off m r :
    let '(rc, m', r') := virgl_renderer_transfer th id c lv st ls bx off m r in
    backing r' ⊆ backing r /\ forall x, m' x <> m x -> in_iovecs (backing r) x \/ rend_owns x;
  law_write_iov id st bx iov m r : backing (virgl_renderer_transfer_write_iov id st bx iov m r).2 ⊆ backing r;
  law_submit cmds c m r :
    let '(rc, p, m', r') := virgl_renderer_submit_cmd cmds c m r in
    backing r' ⊆ backing r /\ forall x, m' x <> m x -> in_iovecs (backing r) x \/ rend_owns x;
  law_fence c k i r : backing (virgl_renderer_context_create_fence c k i r).2 ⊆ backing r;
  law_frame i l x y w h r : backing (cogpu_present_r1_frame i l x y w h r).2 ⊆ backing r;
  law_fini r : backing (cogpu_present_r1_fini r) ⊆ backing r;
  law_r1_unref id r : backing (cogpu_present_r1_resource_unref id r) ⊆ backing r;
  law_r2_unref id r : backing (cogpu_present_r2_resource_unref id r) ⊆ backing r;
  law_stream p r : backing (cogpu_present_stream p r) ⊆ backing r;
}.

(** The window requests leave the slices alone. *)
Class CogpuWindowsLaws (E : Type) `{CogpuLaws E} `{!CogpuWindows E} := {
  law_kwindow va n pa e : env_ok e -> let e' := (ioctl_kwindow_at va n pa e).2 in
    env_ok e' /\ driver_ranges e' = driver_ranges e /\ live_nodes e' = live_nodes e;
  law_kunwindow pa n e : env_ok e -> let e' := (ioctl_kunwindow pa n e).2 in
    env_ok e' /\ driver_ranges e' = driver_ranges e /\ live_nodes e' = live_nodes e;
}.

Section gpu_ok.
Context {E R : Type} `{CogpuLaws E} `{!CogpuWindows E} `{!CogpuWindowsLaws E} `{RendererLaws R}.
Implicit Types (d : @gpu E R) (s c : @cogpu E) (T : list Z) (iov : list iovec).
Abbreviation D := (M (@gpu E R)).

Lemma wp_cached {A} (m : M (@cogpu E) A) (P : A -> cogpu -> Prop) (Q : A -> gpu -> Prop) X d :
  (forall X, wp m P X (d_cache d)) -> (forall a c, P a c -> Q a (put_cache c d)) -> wp (cached m) Q X d.
Proof using.
  intros Hm HQ. specialize (Hm (fun _ _ => False)). unfold wp, cached in *.
  destruct (m (d_cache d)) as [[a|rc|] c]; [by apply HQ|done|done].
Qed.

Lemma wp_rend {A} (f : R -> A * R) (Q : A -> gpu -> Prop) X d :
  (forall x r, f (d_rend d) = (x, r) -> Q x (put_rend r d)) -> wp (rend f) Q X d.
Proof using. intros HQ. unfold wp, rend. destruct (f (d_rend d)) as [x r]. by apply HQ. Qed.

(** ** What an iovec points at *)

(** [i] is the guest's [len] bytes at [gpa], in the view or in one of [l]. *)
Definition at_gpa c (l : list Z) (i : iovec) (gpa : Z) : Prop :=
  in_view c gpa (iov_len i) (iov_base i) \/ exists a, a ∈ l /\ in_slice c a gpa (iov_len i) (iov_base i).

Definition backed c (b : gmap Z (list iovec)) : Prop :=
  forall id l, b !! id = Some l -> id <> 0 /\
    Forall (fun i => exists gpa, at_gpa c (res_slices (g_res_pins c) id) i gpa) l.

Definition gpu_ok B T d : Prop :=
  cache_ok B T (d_cache d) /\ g_window_base (c_setup (d_cache d)) < 2 ^ 64 /\ vrend_ready (d_vrend d) = true /\
  backed (d_cache d) (backing (d_rend d)).

Lemma at_gpa_kept c c' l l' i gpa : kept c c' -> (forall a, a ∈ l -> a ∈ l') -> at_gpa c l i gpa -> at_gpa c' l' i gpa.
Proof using.
  intros Hk Hl [Hv|(a & Ha & Hs)]; [left; by eapply in_view_kept|right]. exists a. split; [auto|]. by eapply in_slice_kept.
Qed.

Lemma backed_subset c b b' : b' ⊆ b -> backed c b -> backed c b'.
Proof using. intros Hs Hb id l Hl. apply (Hb id l). by eapply lookup_weaken. Qed.

(** The pins of the resources in [b] unchanged. *)
Lemma backed_kept c c' b :
  kept c c' -> (forall id, is_Some (b !! id) -> id <> 0 -> res_slices (g_res_pins c') id = res_slices (g_res_pins c) id) ->
  backed c b -> backed c' b.
Proof using.
  intros Hk Hr Hb id l Hl. destruct (Hb id l Hl) as [Hnz Hf]. split; [done|]. rewrite Hr; [|by eexists|done].
  eapply Forall_impl; [exact Hf|]. intros i (gpa & Hi). exists gpa. by eapply at_gpa_kept.
Qed.

Lemma backed_insert c b id l :
  id <> 0 -> backed c b -> Forall (fun i => exists gpa, at_gpa c (res_slices (g_res_pins c) id) i gpa) l ->
  backed c (<[id := l]> b).
Proof using.
  intros Hnz Hb Hf k m. rewrite lookup_insert. case_decide; [intros [= <-]; by subst|apply Hb].
Qed.

(** ** Building the iovecs *)

(** Runs of guest addresses, and the addresses in them. *)
Definition flat (runs : list (Z * Z)) : list Z := runs ≫= (fun r => seqZ r.1 r.2).

(** [iov] are the runs, each inside the view or one collected slice. *)
Definition built c (runs : list (Z * Z)) iov (pc : pin_collect) : Prop :=
  pc_ok c pc /\
  Forall2 (fun i r => iov_len i = r.2 /\ 0 < r.2 /\ (pc_overflow pc = true \/ at_gpa c (pc_s pc) i r.1)) iov runs.

Lemma built_grown B T B' T' c c' runs iov pc pc' :
  cache_ok B T c -> cache_ok B' T' c' -> kept c c' -> more_pins pc pc' -> pc_ok c' pc' ->
  built c runs iov pc -> built c' runs iov pc'.
Proof using.
  intros Hok Hok' Hk [Ho Hp] Hpc' [Hpc Hf]. split; [done|]. eapply Forall2_impl; [exact Hf|].
  intros i r (El & Hl & Hat). split_and!; [done|done|]. destruct Hat as [?|Hat]; [left; auto|right].
  by eapply at_gpa_kept.
Qed.

(** The pointer of a run is collected with its slice. *)
Lemma points_collected c pc gpa len p :
  points c gpa len p -> 0 < len -> collected c gpa pc -> pc_overflow pc = true \/ at_gpa c (pc_s pc) (Iov p len) gpa.
Proof using.
  intros [Hv|(a & Ha)] Hl Hc; [right; by left|]. destruct Hc as [?|Hc]; [by left|right; right].
  exists a. split; [|done]. destruct Ha as (n & Hn & ? & ? & _). apply (Hc a n Hn). unfold range_has. lia.
Qed.

(** Nothing but the cache, the gather buffer and the counts. *)
Definition gathering d d' : Prop :=
  d' = put_cache (d_cache d') (put_gather (d_gather d') (put_stats (g_stats d') d)).

Lemma gathering_refl d : gathering d d.
Proof using. by destruct d. Qed.
Lemma gathering_trans d1 d2 d3 : gathering d1 d2 -> gathering d2 d3 -> gathering d1 d3.
Proof using. intros E1 E2. unfold gathering in *. rewrite E2, E1. done. Qed.
Lemma gathering_cache d c : gathering d (put_cache c d).
Proof using. by destruct d. Qed.

(** How far [add_entry] is: what is left of [ent], and the runs before. *)
Definition entry_inv B T d0 runs0 ent (st : building) d : Prop :=
  gathering d0 d /\ cache_ok B T (d_cache d) /\ grown (d_cache d0) (d_cache d) /\
  exists runs, built (d_cache d) (runs0 ++ runs) (bu_iov st) (bu_pins st) /\
    0 <= bu_addr st < 2 ^ 64 /\ 0 <= bu_left st < 2 ^ 32 /\
    seqZ (en_addr ent) (en_length ent) = flat runs ++ seqZ (bu_addr st) (bu_left st).

Lemma flat_app r1 r2 : flat (r1 ++ r2) = flat r1 ++ flat r2.
Proof using. apply bind_app. Qed.

Lemma seqZ_split a n k : 0 <= k <= n -> seqZ a n = seqZ a k ++ seqZ (a + k) (n - k).
Proof using. intros Hk. rewrite <- seqZ_app by lia. f_equal. lia. Qed.

Lemma reaches_end B T c gpa len r :
  cache_ok B T c -> g_window_base (c_setup c) < 2 ^ 64 -> reaches c gpa len r -> 0 < r <= len /\ gpa + r < 2 ^ 64.
Proof using.
  intros Hok Hw [Hr [[_ Hv]|(_ & a & n & Hn & _ & Hs)]]; (split; [done|]); [lia|].
  destruct (co_range _ _ _ Hok a n Hn) as (_ & _ & _ & ? & _). lia.
Qed.

(** One run more. *)
Lemma entry_run B T d0 runs0 ent addr rest iov pins pins' d d' host run :
  entry_inv B T d0 runs0 ent (Building addr rest iov pins) d -> gathering d d' -> cache_ok B T (d_cache d') ->
  grown (d_cache d) (d_cache d') -> pc_ok (d_cache d') pins' -> more_pins pins pins' ->
  collected (d_cache d') addr pins' -> points (d_cache d') addr run host -> 0 < run <= rest -> addr + run < 2 ^ 64 ->
  entry_inv B T d0 runs0 ent (Building (u64 (addr + run)) (u32 (rest - run)) (iov ++ [Iov host run]) pins') d'.
Proof using.
  intros (Hgt & Hok & Hg & runs & Hb & Ha & Hr & Hs) Hgt' Hok' Hg' Hpc Hmore Hcol Hpt Hrun Hend. cbn in *.
  split; [by eapply gathering_trans|]. split; [done|]. split; [by eapply cache_grown_trans|].
  exists (runs ++ [(addr, run)]). cbn. rewrite u64_small, u32_small by lia. split_and!; [|lia|lia|lia|lia|].
  - rewrite app_assoc. destruct (built_grown _ _ _ _ _ _ _ _ _ _ Hok Hok' (grown_kept _ _ Hg') Hmore Hpc Hb) as [_ Hf].
    split; [done|]. apply Forall2_app; [done|]. constructor; [|done]. cbn. split_and!; [done|lia|].
    by apply points_collected; [|lia|].
  - rewrite Hs, flat_app, <- app_assoc. f_equal. cbn. rewrite app_nil_r. apply seqZ_split. lia.
Qed.

Lemma wp_run_step B T d0 runs0 ent count st d (X : co_rc_value_t -> gpu -> Prop) :
  g_window_base (c_setup (d_cache d0)) < 2 ^ 64 -> entry_inv B T d0 runs0 ent st d ->
  wp (run_step count st) (fun r d' => match r with
    | inl st' => entry_inv B T d0 runs0 ent st' d' /\ 0 <= bu_left st' < bu_left st
    | inr (Some st') => st' = st /\ d' = d /\ bu_left st = 0
    | inr None => gathering d0 d' /\ cache_ok B T (d_cache d') /\ grown (d_cache d0) (d_cache d')
    end) X d.
Proof using.
  intros Hw Hinv. pose proof Hinv as (Hgt & Hok & Hg & runs & Hb & Ha & Hr & Hs). destruct st as [addr rest iov pins].
  cbn [bu_addr bu_left bu_iov bu_pins] in *. unfold run_step. wp_step; [wp_step; done|]. wp_step.
  eapply wp_cached; [intros X'; apply (wp_resolve_run B T); [done|done|lia]|]. intros run c1 (Hok1 & Hg1 & Hreach).
  set (d1 := put_cache c1 d). assert (gathering d0 d1) as Hgt1 by (eapply gathering_trans; [done|apply gathering_cache]).
  destruct (_ || _)%bool eqn:Hc.
  { wp_step. split_and!; [done|done|by eapply cache_grown_trans]. }
  zbool. destruct Hreach as [|Hreach]; [done|].
  assert (g_window_base (c_setup c1) < 2 ^ 64) as Hw1 by (by rewrite (gr_setup _ _ Hg1), (gr_setup _ _ Hg)).
  destruct (reaches_end _ _ _ _ _ _ Hok1 Hw1 Hreach) as [Hrun Hend]. wp_step.
  eapply wp_cached; [intros X'; apply (wp_resolve_gpa B T); [done|done|lia]|]. intros host c2 (Hok2 & Hg2 & Hpt).
  wp_step. { wp_step. split_and!; [|done|do 2 (eapply cache_grown_trans; [done|]); done]. eapply gathering_trans; [exact Hgt1|apply gathering_cache]. }
  destruct Hpt as [|Hpt]; [done|]. wp_step.
  assert (pc_ok c2 pins) as Hpc2.
  { eapply pc_kept; [exact Hok|exact Hok2| |apply Hb]. eapply kept_trans; by apply grown_kept. }
  eapply wp_cached; [intros X'; apply (wp_pin_collect_add B T); [done|lia|lia|done]|].
  intros pins' c3 (Hok3 & Hg3 & Hpc3 & Hmore & Hcol).
  assert (forall st, entry_inv B T d0 runs0 ent (Building (u64 (addr + run)) (u32 (rest - run)) (iov ++ [Iov host run]) pins')
    (put_stats st (put_cache c3 d))) as Hnext.
  { intros st. eapply entry_run; [exact Hinv| | | | | |exact Hcol| |lia|lia]; try done.
    - do 2 (eapply cache_grown_trans; [done|]); done.
    - by eapply points_grown. }
  assert (0 <= u32 (rest - run) < rest) as Hdec by (rewrite u32_small; lia).
  wp_step. destruct count.
  - unfold stat. do 2 wp_step. split; [apply (Hnext (stat_backing run (g_stats d)))|done].
  - do 2 wp_step. split; [|done]. specialize (Hnext (g_stats d)). by destruct d.
Qed.

Lemma wp_add_entry B T d0 runs0 count iov pins ent d (X : co_rc_value_t -> gpu -> Prop) :
  g_window_base (c_setup (d_cache d0)) < 2 ^ 64 -> gathering d0 d -> cache_ok B T (d_cache d) ->
  grown (d_cache d0) (d_cache d) -> built (d_cache d) runs0 iov pins ->
  0 <= en_addr ent < 2 ^ 64 -> 0 <= en_length ent < 2 ^ 32 ->
  wp (add_entry count iov pins ent) (fun r d' =>
    gathering d0 d' /\ cache_ok B T (d_cache d') /\ grown (d_cache d0) (d_cache d') /\
    match r with
    | None => True
    | Some st => exists runs, built (d_cache d') (runs0 ++ runs) (bu_iov st) (bu_pins st) /\
        flat runs = seqZ (en_addr ent) (en_length ent)
    end) X d.
Proof using.
  intros Hw Hgt Hok Hg Hb Ha Hl. unfold add_entry.
  eapply (wp_mloop _ (entry_inv B T d0 runs0 ent) (fun st _ => bu_left st)).
  - intros st d1 Hinv. eapply wp_mono; [by apply wp_run_step| |done]. intros [st'|[st'|]] d2; [done| |tauto].
    intros (-> & -> & Hz). destruct Hinv as (? & ? & ? & runs & Hb' & _ & _ & Hs). split_and!; try done.
    exists runs. split; [done|]. by rewrite Hs, Hz, app_nil_r.
  - split; [done|]. split; [done|]. split; [done|]. exists []. cbn. rewrite app_nil_r. done.
  - cbn. lia.
Qed.

Lemma le_join_take k bs : 0 <= le_join (take k bs) < 2 ^ (8 * Z.of_nat k).
Proof using.
  pose proof (le_join_range (take k bs)) as [? Hlt]. split; [done|]. eapply Z.lt_le_trans; [exact Hlt|].
  apply Z.pow_le_mono_r; [done|]. rewrite length_take. lia.
Qed.

Lemma entry_range p i : 0 <= en_addr (entry_at p i) < 2 ^ 64 /\ 0 <= en_length (entry_at p i) < 2 ^ 32.
Proof using. split; apply le_join_take. Qed.

(** The guest addresses of the entries [i], [i + 1], ... of a list. *)
Definition entries_from (p : list Z) (i : Z) (n : nat) : list Z :=
  seqZ i (Z.of_nat n) ≫= (fun k => let e := entry_at p k in seqZ (en_addr e) (en_length e)).

Lemma entries_from_S p i n :
  entries_from p i (S n) = seqZ (en_addr (entry_at p i)) (en_length (entry_at p i)) ++ entries_from p (i + 1) n.
Proof using.
  unfold entries_from. rewrite seqZ_cons by lia. cbn [mbind list_bind]. rewrite <- Z.add_1_r.
  by replace (Z.pred (Z.of_nat (S n))) with (Z.of_nat n) by lia.
Qed.

Lemma wp_add_entries B T d0 runs0 count p n i iov pins d (X : co_rc_value_t -> gpu -> Prop) :
  g_window_base (c_setup (d_cache d0)) < 2 ^ 64 -> gathering d0 d -> cache_ok B T (d_cache d) ->
  grown (d_cache d0) (d_cache d) -> built (d_cache d) runs0 iov pins ->
  wp (add_entries count p n i iov pins) (fun r d' =>
    gathering d0 d' /\ cache_ok B T (d_cache d') /\ grown (d_cache d0) (d_cache d') /\
    match r with
    | None => True
    | Some (iov', pins') => exists runs, built (d_cache d') (runs0 ++ runs) iov' pins' /\ flat runs = entries_from p i n
    end) X d.
Proof using.
  intros Hw. revert runs0 i iov pins d. induction n as [|n IH]; intros runs0 i iov pins d Hgt Hok Hg Hb; cbn [add_entries].
  - wp_step. split_and!; try done. exists []. by rewrite app_nil_r.
  - destruct (entry_range p i) as [Ha Hl]. wp_step. eapply wp_mono; [by apply (wp_add_entry B T d0 runs0)| |done].
    intros [st|] d1 (Hgt1 & Hok1 & Hg1 & Hr); [|wp_step; done]. destruct Hr as (runs & Hb1 & Hf).
    eapply wp_mono; [by apply (IH (runs0 ++ runs))| |done]. intros r d2 (Hgt2 & Hok2 & Hg2 & Hr2).
    split_and!; [done|done|done|]. destruct r as [[iov' pins']|]; [|done]. destruct Hr2 as (runs' & Hb2 & Hf').
    exists (runs ++ runs'). rewrite app_assoc, flat_app, entries_from_S, Hf, Hf'. done.
Qed.

(** ** Gathering the request *)

Lemma take_load m a k n : 0 <= k <= n -> take (Z.to_nat k) (load_bytes m a n) = load_bytes m a k.
Proof using.
  intros Hk. replace n with (k + (n - k)) by lia. rewrite load_bytes_app by lia.
  rewrite take_app_le by (rewrite length_load_bytes; lia). rewrite take_ge; [done|]. rewrite length_load_bytes. lia.
Qed.

Lemma drop_load m a k n : 0 <= k <= n -> drop (Z.to_nat k) (load_bytes m a n) = load_bytes m (a + k) (n - k).
Proof using.
  intros Hk. replace n with (k + (n - k)) at 1 by lia. rewrite load_bytes_app by lia.
  rewrite drop_app_ge by (rewrite length_load_bytes; lia). rewrite length_load_bytes, Nat.sub_diag. done.
Qed.

Definition buf_bytes m (l : list cogpu_buf) : list Z := l ≫= (fun b => load_bytes m (b_addr b) (b_len b)).
Definition lens_ok (l : list cogpu_buf) : Prop := Forall (fun b => 0 <= b_len b) l.

(** One descriptor's worth of [want] bytes. *)
Lemma gather_one m want acc (a len : Z) rest :
  0 <= want -> Z.of_nat (length acc) < want -> 0 <= len ->
  let done := Z.of_nat (length acc) in
  let k := if want - done <? len then want - done else len in
  take (Z.to_nat want) ((acc ++ load_bytes m a k) ++ rest) = take (Z.to_nat want) ((acc ++ load_bytes m a len) ++ rest).
Proof using.
  intros Hw Ha Hl. cbn. case_match; [|done]. zbool.
  set (k := want - Z.of_nat (length acc)). assert (0 <= k <= len) as Hk by lia.
  rewrite <- (take_drop (Z.to_nat k) (load_bytes m a len)), take_load by done.
  rewrite <- !app_assoc. rewrite !(app_assoc acc).
  assert (Z.to_nat want <= length (acc ++ load_bytes m a k))%nat as Hle by (rewrite length_app, length_load_bytes; lia).
  by rewrite (take_app_le _ rest), (take_app_le _ (_ ++ rest)).
Qed.

Lemma gather_all m l want acc :
  0 <= want -> lens_ok l -> Z.of_nat (length acc) <= want ->
  gather_from m l 0 want acc = take (Z.to_nat want) (acc ++ buf_bytes m l).
Proof using.
  intros Hw. revert acc. induction l as [|b l IH]; intros acc Hl Ha; cbn [gather_from].
  - cbn. rewrite app_nil_r, take_ge by lia. done.
  - apply Forall_cons in Hl as [Hb Hl]. case_match; zbool; cbn [andb].
    + rewrite take_app_le by lia. rewrite take_ge by lia. done.
    + change (0 <? 0) with false. cbn [andb]. rewrite Z.add_0_r, Z.sub_0_r. rewrite IH; [|done|].
      * change (buf_bytes m (b :: l)) with (load_bytes m (b_addr b) (b_len b) ++ buf_bytes m l).
        rewrite app_assoc. by apply gather_one.
      * rewrite length_app, length_load_bytes. case_match; zbool; lia.
Qed.

(** The gathered payload is the start of what follows the header, however the
    guest split it. *)
Lemma gather_concat m b l skip want :
  0 < want -> lens_ok (b :: l) -> 0 < skip <= b_len b ->
  gather_from m (b :: l) skip want [] = take (Z.to_nat want) (drop (Z.to_nat skip) (buf_bytes m (b :: l))).
Proof using.
  intros Hw [Hb Hl]%Forall_cons Hs. cbn [gather_from length]. case_match; zbool; [lia|].
  assert (drop (Z.to_nat skip) (buf_bytes m (b :: l)) = load_bytes m (b_addr b + skip) (b_len b - skip) ++ buf_bytes m l) as ->.
  { change (buf_bytes m (b :: l)) with (load_bytes m (b_addr b) (b_len b) ++ buf_bytes m l).
    rewrite drop_app_le by (rewrite length_load_bytes; lia). by rewrite drop_load by lia. }
  rewrite (proj2 (Z.ltb_lt 0 skip)) by lia. cbn [andb]. case_match; zbool.
  - assert (b_len b - skip = 0) as -> by lia. cbn. by rewrite gather_all by (done || cbn; lia).
  - rewrite gather_all; [|lia|done|].
    + pose proof (gather_one m want [] (b_addr b + skip) (b_len b - skip) (buf_bytes m l)) as H0'. cbn in H0'.
      apply H0'; lia.
    + rewrite length_app, length_load_bytes. cbn. case_match; zbool; lia.
Qed.

Lemma wp_heap {A} B T d (f : E -> A * E) (X : co_rc_value_t -> gpu -> Prop) :
  (forall e, env_ok e -> env_ok (f e).2 /\ driver_ranges (f e).2 = driver_ranges e /\ live_nodes (f e).2 = live_nodes e) ->
  cache_ok B T (d_cache d) ->
  wp (cached (env f)) (fun _ d' => exists e, d' = put_cache (set_env e (d_cache d)) d /\
    cache_ok B T (set_env e (d_cache d))) X d.
Proof using.
  intros Hf Hok. eapply wp_cached; [intros X'; by apply (wp_env_quiet B T)|]. intros _ c [Hok' (e & ->)]. by exists e.
Qed.

Lemma wp_chain_gather B T d b l skip want chain (X : co_rc_value_t -> gpu -> Prop) :
  cache_ok B T (d_cache d) -> c_in chain = b :: l -> lens_ok (b :: l) -> 0 <= want -> 0 < skip <= b_len b ->
  wp (chain_gather chain skip want) (fun r d' =>
    gathering d d' /\ cache_ok B T (d_cache d') /\ grown (d_cache d) (d_cache d') /\
    match r with
    | None => True
    | Some p => p = take (Z.to_nat want) (drop (Z.to_nat skip) (buf_bytes (d_mem d) (b :: l)))
    end) X d.
Proof using.
  intros Hok Hc Hl Hw Hs. unfold chain_gather.
  assert (forall r d', gathering d d' -> cache_ok B T (d_cache d') -> grown (d_cache d) (d_cache d') ->
    match r with None => True | Some p => p = gather_from (d_mem d) (c_in chain) skip want [] /\ 0 < want end ->
    gathering d d' /\ cache_ok B T (d_cache d') /\ grown (d_cache d) (d_cache d') /\
    match r with None => True
    | Some p => p = take (Z.to_nat want) (drop (Z.to_nat skip) (buf_bytes (d_mem d) (b :: l))) end) as Hres.
  { intros [p|] d' Hg Hok' Hgr Hp; split_and!; try done. destruct Hp as [-> Hw']. rewrite Hc. by apply gather_concat. }
  wp_step; [wp_step; apply (Hres None); [apply gathering_refl|done|apply cache_grown_refl|done]|]. do 4 wp_step.
  - wp_step. eapply wp_mono; [apply (wp_heap B T); [apply law_malloc|done]| |done]. intros ok d1 (e & -> & Hok1).
    assert (forall n, gathering d (put_gather n (put_cache (set_env e (d_cache d)) d))) as Hgt by (intros; by destruct d).
    wp_step. destruct ok; wp_step; wp_step; cbn [negb].
    + do 3 wp_step. cbn. apply (Hres (Some _)); [apply Hgt|done|apply grown_env|split; [done|lia]].
    + wp_step. apply (Hres None); [specialize (Hgt (d_gather d)); by destruct d|done|apply grown_env|done].
  - wp_step. cbn [negb]. do 3 wp_step. apply (Hres (Some _)); [apply gathering_refl|done|apply cache_grown_refl|split; [done|lia]].
Qed.

(** The runs an entry list describes, found in guest memory. *)
Definition payload m (l : list cogpu_buf) (skip : Z) : list Z := drop (Z.to_nat skip) (buf_bytes m l).

Lemma built_nil c : built c [] [] (Collect [] false).
Proof using. split; constructor. Qed.

Lemma wp_gather_iov B T d count b l skip n chain (X : co_rc_value_t -> gpu -> Prop) :
  cache_ok B T (d_cache d) -> g_window_base (c_setup (d_cache d)) < 2 ^ 64 ->
  c_in chain = b :: l -> lens_ok (b :: l) -> 0 <= n <= MAX_IOV -> 0 < skip <= b_len b ->
  wp (gather_iov count chain skip n) (fun r d' =>
    gathering d d' /\ cache_ok B T (d_cache d') /\ grown (d_cache d) (d_cache d') /\
    match r with
    | None => True
    | Some (iov, pins) => exists runs, built (d_cache d') runs iov pins /\
        flat runs = entries_from (take (Z.to_nat (n * 16)) (payload (d_mem d) (b :: l) skip)) 0 (Z.to_nat n) /\
        n * 16 <= Z.of_nat (length (payload (d_mem d) (b :: l) skip))
    end) X d.
Proof using.
  intros Hok Hw Hc Hl Hn Hs. change MAX_IOV with 16384 in Hn. unfold gather_iov. rewrite u32_small by lia. wp_step.
  eapply wp_mono; [eapply (wp_chain_gather B T); [done|exact Hc|done|lia|done]| |done].
  intros [p|] d1 (Hgt & Hok1 & Hg1 & Hp); [|wp_step; done]. fold (payload (d_mem d) (b :: l) skip) in Hp.
  wp_step; [wp_step; done|]. eapply wp_mono; [apply (wp_add_entries B T d [] count); try done; apply built_nil| |done].
  intros [[iov pins]|] d2 (Hgt2 & Hok2 & Hg2 & Hr); (split; [done|]; split; [done|]; split; [done|]); [|done].
  destruct Hr as (runs & Hb & Hf). exists runs. cbn in Hb. split_and!; [done| |].
  - by rewrite Hf, Hp.
  - rewrite Hp in Heqb0. revert Heqb0. rewrite length_take. lia.
Qed.
End gpu_ok.
