(* ===== verification/GpuHints.v ===== *)
(** Reading the present hints out of a command stream: the scan never reads
    outside the stream and finds what cutting the stream into commands finds. *)
From S2P Require Import Prelude.
From S2P Require Import Mem.
From S2P Require Import Rc.
From S2P Require Import Vring.
From S2P Require Import Slices.
From S2P Require Import Gpu.
From S2P Require Import Vrend.
From S2P Require Import GpuOk.

(** The reference: the stream cut at the lengths its headers give, up to a
    command it does not hold. *)
Fixpoint commands (n : nat) (l : list Z) : list (list Z) :=
  match n, l with
  | S n, w :: rest =>
      let len := Z.to_nat (Z.shiftr w 16) in
      if decide (len <= length rest)%nat then take (S len) l :: commands n (drop len rest) else []
  | _, _ => []
  end.

(** The read-back a command is, if it is one. *)
Definition readback (cmd : list Z) : option present_hint :=
  let w k := default 0 (cmd !! k) in
  let len := Z.of_nat (length cmd) - 1 in
  let opcode := Z.land (w 0%nat) 255 in
  let hint := Hint_ (w 1%nat) (w 2%nat) (w 6%nat) (w 7%nat) (w 9%nat) (w 10%nat) in
  if ((opcode =? 43) && (13 <=? len))%bool then
    if w 13%nat =? 2 then Some hint else None
  else if ((opcode =? 45) && (len =? 14))%bool then
    if Z.land (w 14%nat) 2 =? 0 then None else Some hint
  else None.

Definition hints_of (stream : list Z) : list present_hint :=
  foldl vrend_add_present_hint [] (omap readback (commands (length stream) stream)).

Definition is_word (w : Z) : Prop := 0 <= w < 2 ^ 32.

Lemma commands_more n k l : (length l <= n)%nat -> (length l <= k)%nat -> commands n l = commands k l.
Proof.
  revert k l. induction n as [|n IH]; intros k l Hn Hk; destruct l as [|w l]; cbn in Hn, Hk; try lia.
  - by destruct k.
  - by destruct k.
  - destruct k as [|k]; [lia|]. cbn [commands]. case_decide; [|done]. f_equal.
    apply IH; rewrite length_drop; lia.
Qed.

Lemma word_drop stream o k : 0 <= o -> 0 <= k -> word stream (o + k) = drop (Z.to_nat o) stream !! Z.to_nat k.
Proof.
  intros Ho Hk. unfold word. rewrite (proj2 (Z.ltb_ge _ _)) by lia. rewrite lookup_drop. f_equal. lia.
Qed.

Lemma word_in stream k : 0 <= k < Z.of_nat (length stream) -> exists w, word stream k = Some w.
Proof.
  intros Hk. unfold word. rewrite (proj2 (Z.ltb_ge _ _)) by lia. apply lookup_lt_is_Some. lia.
Qed.

(** The command at an offset, cut out of the stream. *)
Section command.
Context (stream : list Z) (o len : Z) (cmd : list Z).
Hypothesis Ho : 0 <= o.
Hypothesis Hlen : 0 <= len.
Hypothesis Hin : o + len < Z.of_nat (length stream).
Hypothesis Hcmd : cmd = take (S (Z.to_nat len)) (drop (Z.to_nat o) stream).

Lemma length_cmd : Z.of_nat (length cmd) = len + 1.
Proof using Ho Hlen Hin Hcmd. rewrite Hcmd, length_take, length_drop. lia. Qed.

Lemma word_cmd k : 0 <= k <= len -> word stream (o + k) = Some (default 0 (cmd !! Z.to_nat k)).
Proof using Ho Hlen Hin Hcmd.
  intros Hk. destruct (word_in stream (o + k)) as [w Hw]; [lia|]. rewrite Hw. f_equal.
  rewrite word_drop in Hw by lia. rewrite Hcmd, lookup_take_lt by lia. by rewrite Hw.
Qed.

Lemma hint_cmd :
  10 <= len -> command_hint stream o = Some (Hint_ (default 0 (cmd !! 1%nat)) (default 0 (cmd !! 2%nat))
    (default 0 (cmd !! 6%nat)) (default 0 (cmd !! 7%nat)) (default 0 (cmd !! 9%nat)) (default 0 (cmd !! 10%nat))).
Proof using Ho Hlen Hin Hcmd. intros H10. unfold command_hint. rewrite !word_cmd by lia. done. Qed.

Lemma readback_cmd :
  exists b, reads_back stream o (Z.land (default 0 (cmd !! 0%nat)) 255) len = Some b /\
    (if b then exists h, command_hint stream o = Some h /\ readback cmd = Some h else readback cmd = None).
Proof using Ho Hlen Hin Hcmd.
  pose proof length_cmd as Hl. unfold reads_back, readback. cbv beta zeta. rewrite Hl, Z.add_simpl_r.
  unfold COGPU_VIRGL_CCMD_TRANSFER3D, COGPU_VIRGL_TRANSFER3D_SIZE, COGPU_VIRGL_CCMD_COPY_TRANSFER3D,
    COGPU_VIRGL_COPY_TRANSFER3D_SIZE, COGPU_VIRGL_TRANSFER_FROM_HOST, COGPU_VIRGL_COPY_TRANSFER3D_READ_FROM_HOST.
  case_match; zbool; [|case_match; zbool; [|by exists false]].
  - rewrite (word_cmd 13) by lia. cbn [mbind option_bind]. change (Z.to_nat 13) with 13%nat.
    eexists; split; [done|]. case_match; [|done]. eexists; split; [by apply hint_cmd; lia|done].
  - rewrite (word_cmd 14) by lia. cbn [mbind option_bind]. change (Z.to_nat 14) with 14%nat.
    destruct (Z.land (default 0 (cmd !! 14%nat)) 2 =? 0); (eexists; split; [done|]; cbn [negb]); [done|].
    eexists; split; [by apply hint_cmd; lia|done].
Qed.
End command.

Lemma hints_step_inv stream target o info :
  Forall is_word stream -> Z.of_nat (length stream) < 2 ^ 32 -> 0 <= o <= Z.of_nat (length stream) ->
  foldl vrend_add_present_hint info (omap readback (commands (length stream) (drop (Z.to_nat o) stream))) = target ->
  match hints_step stream (Z.of_nat (length stream)) (o, info) with
  | inl (o', info') => o < o' <= Z.of_nat (length stream) /\
      foldl vrend_add_present_hint info' (omap readback (commands (length stream) (drop (Z.to_nat o') stream))) = target
  | inr r => r = Some target
  end.
Proof.
  intros Hw Hlt Ho Ht. unfold hints_step. destruct (o <? Z.of_nat (length stream)) eqn:Hd; zbool; cbn [negb].
  2: { assert (o = Z.of_nat (length stream)) as -> by lia. rewrite Nat2Z.id, drop_all in Ht. destruct (length stream); by cbn in Ht; subst. }
  destruct (word_in stream o) as [w Hwo]; [lia|]. rewrite Hwo. rewrite <- (Z.add_0_r o), word_drop in Hwo by lia.
  change (Z.to_nat 0) with 0%nat in Hwo. destruct (drop (Z.to_nat o) stream) as [|w' rest] eqn:Hdr; [done|].
  injection Hwo as ->. assert (is_word w) as Hww.
  { rewrite Forall_forall in Hw. apply Hw. rewrite <- (take_drop (Z.to_nat o) stream), Hdr. apply elem_of_app. right. left. }
  set (len := Z.shiftr w 16). assert (0 <= len < 2 ^ 16) as Hl.
  { unfold len. rewrite Z.shiftr_div_pow2 by lia. unfold is_word in Hww. split; [apply Z.div_pos|apply Z.div_lt_upper_bound]; lia. }
  assert (length rest = (length stream - Z.to_nat o - 1)%nat) as Hlr.
  { pose proof (f_equal length Hdr) as Hle. rewrite length_drop in Hle. cbn in Hle. lia. }
  destruct (length stream) as [|k] eqn:Hk; [lia|]. cbn [commands] in Ht. fold len in Ht. rewrite <- Hk in *.
  rewrite u32_small by lia. destruct (_ <? len) eqn:Hlen; zbool; [rewrite decide_False in Ht by lia; by cbn in Ht; subst|].
  rewrite decide_True in Ht by lia. rewrite u32_small by lia.
  assert (commands (length stream) (drop (Z.to_nat (o + (len + 1))) stream) = commands k (drop (Z.to_nat len) rest)) as Ec.
  { replace (Z.to_nat (o + (len + 1))) with (Z.to_nat o + S (Z.to_nat len))%nat by lia.
    rewrite <- drop_drop, Hdr. cbn [drop]. apply commands_more; rewrite length_drop; lia. }
  cbn [omap list_omap] in Ht.
  destruct (readback_cmd stream o len (take (S (Z.to_nat len)) (w :: rest))) as (b & Hb & Hr); [lia|lia|lia|by rewrite Hdr|].
  change (default 0 (take (S (Z.to_nat len)) (w :: rest) !! 0%nat)) with w in Hb. rewrite Hb.
  destruct b.
  - destruct Hr as (h & -> & Hr). split; [lia|]. rewrite Ec. rewrite Hr in Ht. exact Ht.
  - split; [lia|]. rewrite Ec. rewrite Hr in Ht. exact Ht.
Qed.

Lemma hints_found stream :
  Forall is_word stream -> Z.of_nat (length stream) < 2 ^ 32 ->
  vrend_find_present_hints stream (Z.of_nat (length stream)) = Some (hints_of stream).
Proof.
  intros Hw Hlt. unfold vrend_find_present_hints.
  destruct (loop_total (hints_step stream (Z.of_nat (length stream)))
    (fun st => 0 <= st.1 <= Z.of_nat (length stream) /\ foldl vrend_add_present_hint st.2
       (omap readback (commands (length stream) (drop (Z.to_nat st.1) stream))) = hints_of stream)
    (fun r => r = Some (hints_of stream)) (fun st => Z.of_nat (length stream) - st.1) 64 (0, [])) as (r & -> & ->); try done.
  - intros [o info] [Ho Ht]. cbn [fst snd] in *. generalize (hints_step_inv _ _ _ _ Hw Hlt Ho Ht).
    destruct (hints_step _ _ (o, info)) as [[o' info']|r]; [|done]. intros [? ?]. cbn [fst snd] in *. split; [split; [lia|done]|lia].
  - split; [cbn; lia|]. done.
  - cbn [fst]. lia.
Qed.

(** Eight at most, of distinct resources. *)
Lemma hint_slot_spec info res :
  (hint_slot info res <= length info)%nat /\
  (if (hint_slot info res =? length info)%nat then res ∉ (hi_resource_id <$> info)
   else exists h, info !! hint_slot info res = Some h /\ hi_resource_id h = res).
Proof.
  induction info as [|h info [IHl IH]]; cbn [hint_slot]; [split; [done|apply not_elem_of_nil]|].
  destruct (hi_resource_id h =? res) eqn:He; zbool; [split; [cbn; lia|by exists h]|]. cbn. split; [lia|].
  destruct (hint_slot info res =? length info)%nat; [|done]. apply not_elem_of_cons. split; [congruence|done].
Qed.

Definition hints_ok (info : list present_hint) : Prop := (length info <= 8)%nat /\ NoDup (hi_resource_id <$> info).

Lemma add_hint_ok info h : hints_ok info -> hints_ok (vrend_add_present_hint info h).
Proof.
  intros [Hl Hnd]. unfold vrend_add_present_hint, COGPU_VREND_MAX_PRESENT_HINTS.
  destruct (hint_slot_spec info (hi_resource_id h)) as [Hs Hc].
  destruct (Nat.eqb_spec (hint_slot info (hi_resource_id h)) 8) as [E8|N8].
  - assert (length info = 8%nat) as L8 by lia. rewrite E8, L8 in Hc. cbn in Hc.
    split; [rewrite length_app, length_drop; cbn; lia|]. rewrite fmap_app, NoDup_app, fmap_drop. split_and!.
    + eapply sublist_NoDup; [done|apply sublist_drop].
    + intros x Hx. cbn. rewrite list_elem_of_singleton. intros ->. apply Hc.
      rewrite <- (take_drop 1 (hi_resource_id <$> info)). apply elem_of_app. by right.
    + apply NoDup_singleton.
  - destruct (hint_slot info (hi_resource_id h) =? length info)%nat eqn:Hq.
    + apply Nat.eqb_eq in Hq. split; [rewrite length_app; cbn; lia|].
      rewrite fmap_app, NoDup_app. split_and!; [done| |apply NoDup_singleton].
      intros x Hx. cbn. rewrite list_elem_of_singleton. by intros ->.
    + destruct Hc as (h' & Hh' & Hid). split; [by rewrite length_insert|].
      rewrite list_fmap_insert, list_insert_id; [done|]. by rewrite list_lookup_fmap, Hh', <- Hid.
Qed.

Lemma hints_of_ok stream : hints_ok (hints_of stream).
Proof.
  unfold hints_of. assert (hints_ok []) as H0 by (split; [cbn; lia|constructor]). revert H0. generalize (@nil present_hint).
  induction (omap readback _) as [|h l IH]; intros info Hi; [done|]. apply IH, add_hint_ok, Hi.
Qed.

(** C28: Scanning a command stream for read-backs never reads outside it; it finds
    the hints of the stream cut into commands, eight at most and of distinct
    resources. *)
Theorem hints_match_commands stream :
  Forall is_word stream -> Z.of_nat (length stream) < 2 ^ 32 ->
  vrend_find_present_hints stream (Z.of_nat (length stream)) = Some (hints_of stream) /\
  (length (hints_of stream) <= 8)%nat /\ NoDup (hi_resource_id <$> hints_of stream).
Proof. intros Hw Hl. split; [by apply hints_found|apply hints_of_ok]. Qed.
