(* ===== verification/GpuCalm.v ===== *)
(** Requests that leave the backing pages alone.

    [calm P B T d d']: from [d] to [d'] the slices stay as they are, the renderer
    holds no iovec it did not hold, and memory changed only where [P] allows.
    [calm_op] is that of an operation; it composes, so a case of [serve] is calm
    because each of its calls is. *)
From S2P Require Import Prelude.
From S2P Require Import Rc.
From S2P Require Import Mem.
From S2P Require Import Vring.
From S2P Require Import Handles.
From S2P Require Import Slices.
From S2P Require Import SlicesOk.
From S2P Require Import SlicesPin.
From S2P Require Import Gpu.
From S2P Require Import Vrend.
From S2P Require Import GpuRes.
From S2P Require Import GpuServe.
From S2P Require Import GpuOk.
From S2P Require Import GpuHints.

Section calm.
Context {E R : Type} `{CogpuLaws E} `{!CogpuWindows E} `{!CogpuWindowsLaws E} `{RendererLaws R}.
Implicit Types (d : @gpu E R) (T : list Z) (P : Z -> Prop).
Abbreviation D := (M (@gpu E R)).

(** [P] covers what the renderer may write. *)
Definition covers P d : Prop := forall x, in_iovecs (backing (d_rend d)) x \/ rend_owns x -> P x.

Record calm P B T d d' : Prop := {
  ca_ok : cache_ok B T (d_cache d');
  ca_cache : exists e, d_cache d' = set_env e (d_cache d);
  ca_backing : backing (d_rend d') ⊆ backing (d_rend d);
  ca_mem x : d_mem d' x <> d_mem d x -> P x;
  ca_ready : vrend_ready (d_vrend d') = vrend_ready (d_vrend d);
  ca_park : g_park_req d' = g_park_req d;
}.

Lemma in_iovecs_mono (b b' : gmap Z (list iovec)) x : b' ⊆ b -> in_iovecs b' x -> in_iovecs b x.
Proof using. intros Hs (id & l & i & Hl & Hi). exists id, l, i. split; [by eapply lookup_weaken|done]. Qed.

Lemma covers_mono P d d' : backing (d_rend d') ⊆ backing (d_rend d) -> covers P d -> covers P d'.
Proof using. intros Hs Hc x [Hx|Hx]; apply Hc; [left; by eapply in_iovecs_mono|by right]. Qed.

Lemma calm_refl P B T d : cache_ok B T (d_cache d) -> calm P B T d d.
Proof using. intros Hok. split; [done| |done|done|done|done]. exists (c_env (d_cache d)). by destruct (d_cache d). Qed.

Lemma calm_trans P B T d1 d2 d3 : calm P B T d1 d2 -> calm P B T d2 d3 -> calm P B T d1 d3.
Proof using.
  intros [_ [e1 E1] B1 M1 V1 K1] [Ok [e2 E2] B2 M2 V2 K2]. split; [done| |by etransitivity| |congruence|congruence].
  - exists e2. by rewrite E2, E1.
  - intros x Hx. destruct (decide (d_mem d2 x = d_mem d1 x)) as [Heq|Hne]; [|by apply M1].
    apply M2. by rewrite Heq.
Qed.

Definition calm_op {A} P (m : D A) : Prop := forall B T d (X : co_rc_value_t -> gpu -> Prop),
  cache_ok B T (d_cache d) -> covers P d -> wp m (fun _ d' => calm P B T d d') X d.

Lemma calm_ret {A} P (a : A) : calm_op P (mret a).
Proof using. intros B T d X Hok Hc. wp_step. by apply calm_refl. Qed.

Lemma calm_bind {A C} P (m : D A) (k : A -> D C) :
  calm_op P m -> (forall a, calm_op P (k a)) -> calm_op P (a ← m; k a).
Proof using.
  intros Hm Hk B T d X Hok Hc. wp_step. eapply wp_mono; [by apply Hm| |done]. intros a d1 H1'.
  eapply wp_mono; [apply (Hk a B T d1); [apply H1'|]| |done].
  - eapply covers_mono; [apply H1'|done].
  - intros c d2 H2'. eapply calm_trans; [exact H1'|exact H2'].
Qed.

Lemma calm_gets {A} P (f : gpu -> A) : calm_op P (gets f).
Proof using. intros B T d X Hok Hc. wp_step. by apply calm_refl. Qed.

(** A change of the daemon's own tables. *)
Lemma calm_modify P (f : gpu -> gpu) :
  (forall d, d_cache (f d) = d_cache d /\ d_rend (f d) = d_rend d /\ d_mem (f d) = d_mem d /\
    vrend_ready (d_vrend (f d)) = vrend_ready (d_vrend d) /\ g_park_req (f d) = g_park_req d) -> calm_op P (modify f).
Proof using.
  intros Hf B T d X Hok Hc. destruct (Hf d) as (E1 & E2 & E3 & E4 & E5). wp_step. split; rewrite ?E1, ?E2, ?E3; try done.
  exists (c_env (d_cache d)). by destruct (d_cache d).
Qed.

(** A store the reply allows. *)
Lemma calm_store P (f : mem -> mem) : (forall m x, f m x <> m x -> P x) -> calm_op P (store_out f).
Proof using.
  intros Hf B T d X Hok Hc. unfold store_out. wp_step. split; cbn; try done; [|by intros x Hx; apply (Hf (d_mem d))].
  exists (c_env (d_cache d)). by destruct (d_cache d).
Qed.

Lemma calm_rend {A} P (f : R -> A * R) : (forall r, backing (f r).2 ⊆ backing r) -> calm_op P (rend f).
Proof using.
  intros Hf B T d X Hok Hc. apply wp_rend. intros x r Hr. split; cbn; try done.
  - exists (c_env (d_cache d)). by destruct (d_cache d).
  - specialize (Hf (d_rend d)). by rewrite Hr in Hf.
Qed.

Lemma calm_rend_do P (f : R -> R) : (forall r, backing (f r) ⊆ backing r) -> calm_op P (rend_do f).
Proof using.
  intros Hf B T d X Hok Hc. unfold rend_do. wp_step. split; cbn; try done.
  exists (c_env (d_cache d)). by destruct (d_cache d).
Qed.

Lemma calm_env {A} P (f : E -> A * E) :
  (forall e, env_ok e -> env_ok (f e).2 /\ driver_ranges (f e).2 = driver_ranges e /\ live_nodes (f e).2 = live_nodes e) ->
  calm_op P (cached (env f)).
Proof using.
  intros Hf B T d X Hok Hc. eapply wp_mono; [by apply (wp_heap B T)| |done]. intros a d' (e & -> & Hok').
  split; try done. by exists e.
Qed.

(** A call that runs commands: it writes what the renderer was given. *)
Lemma calm_run {A} P (f : mem -> R -> A * mem * R) (g : A -> gpu -> gpu) :
  (forall m r, let '(a, m', r') := f m r in
     backing r' ⊆ backing r /\ forall x, m' x <> m x -> in_iovecs (backing r) x \/ rend_owns x) ->
  (forall a d, d_cache (g a d) = d_cache d /\ d_rend (g a d) = d_rend d /\ d_mem (g a d) = d_mem d /\
    d_vrend (g a d) = d_vrend d /\ g_park_req (g a d) = g_park_req d) ->
  calm_op P (fun d => let '(a, m, r) := f (d_mem d) (d_rend d) in (Ret a, g a (put_mem m (put_rend r d)))).
Proof using.
  intros Hf Hg B T d X Hok Hc. unfold wp. specialize (Hf (d_mem d) (d_rend d)).
  destruct (f (d_mem d) (d_rend d)) as [[a m'] r']. destruct Hf as [Hb Hm].
  destruct (Hg a (put_mem m' (put_rend r' d))) as (E1 & E2 & E3 & E4 & E5).
  split; rewrite ?E1, ?E2, ?E3, ?E4, ?E5; cbn; try done.
  - exists (c_env (d_cache d)). by destruct (d_cache d).
  - intros x Hx. by apply Hc, Hm.
Qed.

Lemma calm_when_ready P (m : D Z) : calm_op P m -> calm_op P (when_ready m).
Proof using. intros Hm. apply calm_bind; [apply calm_gets|]. intros [|]; [done|apply calm_ret]. Qed.
Lemma calm_if_ready P (m : D unit) : calm_op P m -> calm_op P (if_ready m).
Proof using. intros Hm. apply calm_bind; [apply calm_gets|]. intros [|]; [done|apply calm_ret]. Qed.
End calm.

Create HintDb calm.
#[export] Hint Resolve calm_ret calm_bind calm_gets calm_rend calm_rend_do calm_env calm_when_ready calm_if_ready : calm.
#[export] Hint Resolve law_create law_unref law_map law_unmap law_ctx_create law_ctx_destroy law_ctx_attach
  law_ctx_detach law_fence law_frame law_fini law_r1_unref law_r2_unref law_stream law_malloc : calm.

(** One step towards [calm_op]: a combinator, a case analysis or a known call. *)
Ltac calm_step :=
  match goal with
  | |- forall _, calm_op _ _ => intros ?
  | |- calm_op _ (mret _) => apply calm_ret
  | |- calm_op _ (gets _) => apply calm_gets
  | |- calm_op _ (mbind _ _) => apply calm_bind; [|intros ?]
  | |- calm_op _ (modify _) => apply calm_modify; intros ?; done
  | |- calm_op _ (stat _) => apply calm_modify; intros ?; done
  | |- calm_op _ (rend _) => apply calm_rend; intros ?
  | |- calm_op _ (rend_do _) => apply calm_rend_do; intros ?
  | |- calm_op _ (cached (env _)) => apply calm_env; intros ? ?
  | |- calm_op _ (when_ready _) => apply calm_when_ready
  | |- calm_op _ (if_ready _) => apply calm_if_ready
  | |- calm_op _ (if ?b then _ else _) => destruct b eqn:?
  | |- calm_op _ (match ?x with _ => _ end) => destruct x eqn:?
  | |- calm_op _ _ => solve [eauto with calm]
  | |- backing _ ⊆ backing _ => solve [auto with calm]
  | |- env_ok _ /\ _ => solve [auto with calm]
  end.
Ltac calm := repeat calm_step.

(** ** The cases of [serve]

    The cases that leave the backing pages alone: each of them
    returns, and writes no memory but the reply and what the renderer was given. *)

Section cases.
Context {E R : Type} `{CogpuLaws E} `{!CogpuWindows E} `{!CogpuWindowsLaws E} `{RendererLaws R}.
Implicit Types (d : @gpu E R) (T : list Z) (P : Z -> Prop) (chain : cogpu_chain).
Abbreviation D := (M (@gpu E R)).
Abbreviation calm_op := (@calm_op E R _ _ _ _).

(** ** The wrappers *)

Lemma calm_resource_create P args : calm_op P (cogpu_vrend_resource_create args).
Proof using. unfold cogpu_vrend_resource_create, vrend_resource_remember. calm. Qed.
Lemma calm_resource_unref P id : calm_op P (cogpu_vrend_resource_unref id).
Proof using. unfold cogpu_vrend_resource_unref, vrend_resource_forget. calm. Qed.
Lemma calm_resource_info P id : calm_op P (cogpu_vrend_resource_info id).
Proof using. unfold cogpu_vrend_resource_info, ready. calm. Qed.
Lemma calm_map P id : calm_op P (cogpu_vrend_resource_map id).
Proof using. unfold cogpu_vrend_resource_map, ready. calm. Qed.
Lemma calm_unmap P id : calm_op P (cogpu_vrend_resource_unmap id).
Proof using. unfold cogpu_vrend_resource_unmap. calm. Qed.
Lemma calm_map_info P id : calm_op P (cogpu_vrend_map_info id).
Proof using. unfold cogpu_vrend_map_info, ready. calm. Qed.
Lemma calm_ctx_create P c n i : calm_op P (cogpu_vrend_ctx_create c n i).
Proof using. unfold cogpu_vrend_ctx_create. cbv zeta. calm. Qed.
Lemma calm_ctx_destroy P c : calm_op P (cogpu_vrend_ctx_destroy c).
Proof using. unfold cogpu_vrend_ctx_destroy. calm. Qed.
Lemma calm_ctx_attach P c id : calm_op P (cogpu_vrend_ctx_attach c id).
Proof using. unfold cogpu_vrend_ctx_attach. calm. Qed.
Lemma calm_ctx_detach P c id : calm_op P (cogpu_vrend_ctx_detach c id).
Proof using. unfold cogpu_vrend_ctx_detach. calm. Qed.
Lemma calm_ctx_fence P c k i : calm_op P (cogpu_vrend_ctx_fence c k i).
Proof using. unfold cogpu_vrend_ctx_fence. calm. Qed.
Lemma calm_capset P k : calm_op P (cogpu_vrend_capset k).
Proof using. unfold cogpu_vrend_capset, ready. calm. Qed.

Lemma calm_transfer P th id c lv st ls bx off : calm_op P (cogpu_vrend_transfer th id c lv st ls bx off).
Proof using.
  unfold cogpu_vrend_transfer. apply calm_when_ready.
  apply (calm_run P (virgl_renderer_transfer th id c lv st ls bx off) (fun _ d => d)); [|done].
  intros m r. apply law_transfer.
Qed.

Lemma calm_upload P id st w h px n : calm_op P (cogpu_vrend_upload id st w h px n).
Proof using.
  unfold cogpu_vrend_upload. apply calm_when_ready. intros B T d X Hok Hc. unfold wp.
  pose proof (law_write_iov id st (Box 0 0 0 w h 1) (Iov px n) (d_mem d) (d_rend d)) as Hl.
  destruct (virgl_renderer_transfer_write_iov _ _ _ _ _ _) as [rc r]. split; cbn; try done.
  exists (c_env (d_cache d)). by destruct (d_cache d).
Qed.

Lemma calm_submit_cmd P c cmds : calm_op P (virgl_submit c cmds).
Proof using.
  intros B T d X Hok Hc. unfold wp, virgl_submit. pose proof (law_submit cmds c (d_mem d) (d_rend d)) as Hl.
  destruct (virgl_renderer_submit_cmd cmds c (d_mem d) (d_rend d)) as [[[rc p] m] r]. destruct Hl as [Hb Hm].
  split; cbn; try done.
  - exists (c_env (d_cache d)). by destruct (d_cache d).
  - intros x Hx. by apply Hc, Hm.
  - by destruct p.
Qed.

Lemma calm_flush P : calm_op P vrend_present_flush.
Proof using. unfold vrend_present_flush. calm. Qed.

Lemma words_of_ok bytes n : 0 <= n -> Forall is_word (words_of bytes n) /\ Z.of_nat (length (words_of bytes n)) = n.
Proof using.
  intros Hn. unfold words_of. split; [|rewrite length_fmap, length_seqZ; lia].
  apply Forall_fmap, Forall_forall. intros k _. apply (le_join_take 4).
Qed.

Lemma calm_submit P c cmds want : calm_op P (cogpu_vrend_submit c cmds want).
Proof using.
  unfold cogpu_vrend_submit, ready. apply calm_bind; [calm|]. intros up. cbv zeta.
  set (n := Z.of_nat (length cmds)). destruct (_ || _)%bool; [calm|].
  destruct (COGPU_MAX_CMD_BYTES <? n) eqn:Hmax; [calm|]. zbool. change COGPU_MAX_CMD_BYTES with 1048576 in Hmax.
  apply calm_bind; [calm|]. intros size. apply calm_bind; [calm|]. intros ok. destruct (negb ok); [calm|].
  assert (0 <= n / 4) as Hq by (apply Z.div_pos; lia). assert (n / 4 < 2 ^ 32) as Hlt by (apply Z.div_lt_upper_bound; lia).
  assert (exists hints, (if want then vrend_find_present_hints (words_of cmds (n / 4)) (n / 4) else Some []) = Some hints) as (hints & ->).
  { destruct want; [|by eexists]. destruct (words_of_ok cmds (n / 4) Hq) as [Hw Hlen].
    pose proof (hints_found (words_of cmds (n / 4)) Hw) as Hf. rewrite Hlen in Hf. rewrite Hf by done. by eexists. }
  apply calm_bind; [apply calm_submit_cmd|]. intros rc. apply calm_bind; [apply calm_flush|]. intros _. apply calm_ret.
Qed.
End cases.

#[export] Hint Resolve calm_resource_create calm_resource_unref calm_resource_info calm_map calm_unmap calm_map_info
  calm_ctx_create calm_ctx_destroy calm_ctx_attach calm_ctx_detach calm_ctx_fence calm_capset calm_transfer
  calm_upload calm_flush calm_submit : calm.

(** ** Replies *)

Section replies.
Context {E R : Type} `{CogpuLaws E} `{!CogpuWindows E} `{!CogpuWindowsLaws E} `{RendererLaws R}.
Implicit Types (d : @gpu E R) (T : list Z) (P : Z -> Prop) (chain : cogpu_chain).
Abbreviation D := (M (@gpu E R)).
Abbreviation calm_op := (@calm_op E R _ _ _ _).

(** [P] covers the reply's buffer. *)
Definition replies P chain : Prop := forall x, out_addr chain <= x < out_addr chain + out_len chain -> P x.

Lemma store_bytes_ne m a bs x : store_bytes m a bs x <> m x -> a <= x < a + Z.of_nat (length bs).
Proof using. unfold store_bytes. by case_decide. Qed.

Lemma store_u32_ne m a v x : store_u32 m a v x <> m x -> a <= x < a + 4.
Proof using. intros Hx%store_bytes_ne. by rewrite length_le_bytes in Hx. Qed.
Lemma store_u64_ne m a v x : store_u64 m a v x <> m x -> a <= x < a + 8.
Proof using. intros Hx%store_bytes_ne. by rewrite length_le_bytes in Hx. Qed.
Lemma co_memset_ne m a b n x : co_memset m a b n x <> m x -> a <= x < a + n.
Proof using. unfold co_memset. by case_decide. Qed.

(** Two stores one after the other. *)
Lemma store_twice (f g : mem -> mem) m x (Q : Prop) : (f m x <> m x -> Q) -> (g (f m) x <> f m x -> Q) -> g (f m) x <> m x -> Q.
Proof using. intros Hf Hg Hx. destruct (decide (f m x = m x)) as [Heq|]; [|auto]. apply Hg. by rewrite Heq. Qed.

Lemma store_u32s_ne m a b v w x :
  store_u32 (store_u32 m a v) b w x <> m x -> a <= x < a + 4 \/ b <= x < b + 4.
Proof using.
  apply (store_twice (fun m => store_u32 m a v) (fun m => store_u32 m b w));
    intros Hx%store_u32_ne; [by left|by right].
Qed.

Lemma calm_display_info P chain : replies P chain -> calm_op P (get_display_info chain).
Proof using.
  intros Hrep. unfold get_display_info. destruct (_ <? _) eqn:Hl; [|calm]. zbool. apply calm_bind; [|calm].
  apply calm_store. intros m x Hx%co_memset_ne. apply Hrep. unfold sizeof_hdr in *. lia.
Qed.

Lemma calm_capset_info P chain : replies P chain -> calm_op P (get_capset_info chain).
Proof using.
  intros Hrep. unfold get_capset_info, req_u32. destruct (_ <? _) eqn:Hl; [calm|]. zbool.
  apply calm_bind; [calm|]. intros idx. cbv zeta. set (a := out_addr chain + sizeof_hdr).
  unfold sizeof_hdr in Hl. assert (forall x, a <= x < a + 16 -> P x) as Ha.
  { intros x Hx. apply Hrep. unfold a, sizeof_hdr in *. lia. }
  apply calm_bind; [apply calm_store; intros m x Hx%store_u32_ne; apply Ha; lia|]. intros _.
  apply calm_bind; [calm|]. intros [v n]. apply calm_bind; [|calm]. apply calm_store. intros m x.
  apply (store_twice (fun m => store_u32 (store_u32 m (a + 4) v) (a + 8) n) (fun m => store_u32 m (a + 12) 0)).
  - cbv beta. intros Hx. apply store_u32s_ne in Hx as [Hx|Hx]; apply Ha; lia.
  - intros Hx%store_u32_ne. apply Ha. lia.
Qed.

(** The reply to GET_CAPSET fits if the capset does. *)
Definition caps_fit chain : Prop := forall set version r,
  Z.of_nat (length (virgl_renderer_fill_caps set version r)) <= out_len chain - sizeof_hdr.

Lemma calm_get_capset P chain : replies P chain -> caps_fit chain -> calm_op P (get_capset chain).
Proof using.
  intros Hrep Hfit. unfold get_capset, req_u32, cogpu_vrend_fill_caps. destruct (_ <? _) eqn:Hl; [calm|].
  do 2 (apply calm_bind; [calm|]; intros ?). destruct (sizeof_hdr <? _) eqn:Hout; [|calm].
  apply calm_bind; [|calm]. apply calm_if_ready. intros B T d X Hok Hc. wp_step.
  split; cbn [d_cache d_rend d_mem put_mem]; try done.
  - exists (c_env (d_cache d)). by destruct (d_cache d).
  - intros x Hx%store_bytes_ne. apply Hrep. specialize (Hfit a a0 (d_rend d)). unfold sizeof_hdr in *. lia.
Qed.

(** ** The bridge and the presenter *)

Lemma calm_release P ctx n i : calm_op P (moco_bridge_release_ctx ctx n i).
Proof using. revert i. induction n as [|n IH]; intros i; cbn [moco_bridge_release_ctx]; [calm|]. unfold set_bridge. calm. Qed.

Lemma calm_bridge P xid ctx w h : calm_op P (moco_bridge_resource xid ctx w h).
Proof using. unfold moco_bridge_resource, bridge_pick, set_bridge. cbv zeta. calm. Qed.

Lemma calm_show P id lv x y w h : calm_op P (show_r1 id lv x y w h).
Proof using. unfold show_r1. calm. Qed.

Lemma calm_hints P l : calm_op P (show_hints l).
Proof using. induction l as [|h l IH]; cbn [show_hints]; [calm|]. pose proof (calm_show P). calm. Qed.
End replies.

#[export] Hint Resolve calm_release calm_bridge calm_show calm_hints : calm.

(** ** The cases *)

Section requests.
Context {E R : Type} `{CogpuLaws E} `{!CogpuWindows E} `{WL : !CogpuWindowsLaws E} `{RendererLaws R}.
Implicit Types (d : @gpu E R) (T : list Z) (P : Z -> Prop) (chain : cogpu_chain).
Abbreviation D := (M (@gpu E R)).
Abbreviation calm_op := (@calm_op E R _ _ _ _).

Lemma calm_gather P chain skip want : calm_op P (chain_gather chain skip want).
Proof using. unfold chain_gather. calm. Qed.

Lemma calm_kwindow_at P va n pa : calm_op P (co_manager_kwindow_at va n pa).
Proof using WL.
  unfold co_manager_kwindow_at. apply calm_bind; [|intros [rc prc]; calm]. apply calm_env. intros e He.
  pose proof (law_kwindow va n pa e He) as Hl. destruct (ioctl_kwindow_at va n pa e) as [[rc prc] e']. exact Hl.
Qed.

Lemma calm_kunwindow P pa n : calm_op P (co_manager_kunwindow pa n).
Proof using WL.
  unfold co_manager_kunwindow. apply calm_bind; [|intros [rc prc]; calm]. apply calm_env. intros e He.
  pose proof (law_kunwindow pa n e He) as Hl. destruct (ioctl_kunwindow pa n e) as [[rc prc] e']. exact Hl.
Qed.

Lemma calm_track P id pa n va : calm_op P (blob_map_track id pa n va).
Proof using. unfold blob_map_track. cbv zeta. calm. Qed.
Lemma calm_forget P id : calm_op P (blob_map_forget id).
Proof using. unfold blob_map_forget. calm. Qed.

Lemma calm_reply_map_info P chain info :
  replies P chain -> sizeof_hdr + 8 <= out_len chain -> calm_op P (reply_map_info chain info).
Proof using.
  intros Hrep Hl. apply calm_store. intros m x Hx. apply store_u32s_ne in Hx. apply Hrep. unfold sizeof_hdr in *. lia.
Qed.

Lemma calm_map_blob P chain : replies P chain -> calm_op P (map_blob chain).
Proof using WL.
  intros Hrep. pose proof (calm_kwindow_at P) as Hw. pose proof (calm_kunwindow P) as Hu. pose proof (calm_track P) as Ht.
  unfold map_blob, req_u32, req_u64. destruct (_ || _)%bool eqn:Hl; [calm|]. zbool.
  pose proof (fun info => calm_reply_map_info P chain info Hrep H4) as Hr. cbv zeta. calm.
Qed.

Lemma calm_unmap_blob P chain : calm_op P (unmap_blob chain).
Proof using WL.
  pose proof (calm_kunwindow P) as Hu. pose proof (calm_forget P) as Hf. unfold unmap_blob, req_u32. calm.
Qed.

Lemma calm_ctx_create_case P ctx chain : calm_op P (ctx_create ctx chain).
Proof using. unfold ctx_create. calm. Qed.
Lemma calm_ctx_destroy_case P ctx : calm_op P (ctx_destroy ctx).
Proof using. unfold ctx_destroy. calm. Qed.
Lemma calm_submit_3d P ctx chain : calm_op P (submit_3d ctx chain).
Proof using. pose proof (calm_gather P) as Hg. unfold submit_3d, req_u32. calm. Qed.
Lemma calm_create_3d P chain : calm_op P (create_3d chain).
Proof using. unfold create_3d. cbv zeta. calm. Qed.
Lemma calm_create_2d P chain : calm_op P (create_2d chain).
Proof using. unfold create_2d, req_u32. calm. Qed.
Lemma calm_ctx_resource P f chain : (forall id, calm_op P (f id)) -> calm_op P (ctx_resource f chain).
Proof using. intros Hf. unfold ctx_resource, req_u32. calm. Qed.
Lemma calm_transfer_3d P th ctx chain : calm_op P (transfer_3d th ctx chain).
Proof using. unfold transfer_3d. cbv zeta. calm. Qed.
Lemma calm_moco_present P ctx chain : calm_op P (moco_present ctx chain).
Proof using. unfold moco_present, req_u32. calm. Qed.

(** The requests that give or take backing. *)
Definition moves_backing (cmd : gpu_command) : bool :=
  match cmd with
  | RESOURCE_ATTACH_BACKING | RESOURCE_DETACH_BACKING | RESOURCE_UNREF | RESOURCE_CREATE_BLOB => true
  | _ => false
  end.

Lemma calm_case P req chain :
  replies P chain -> (command_of (h_type req) = GET_CAPSET -> caps_fit chain) ->
  moves_backing (command_of (h_type req)) = false -> calm_op P (serve_case req chain).
Proof using WL.
  intros Hrep Hfit Hmove. unfold serve_case.
  destruct (command_of (h_type req)); try done; try apply calm_ret; auto using calm_display_info, calm_capset_info,
    calm_get_capset, calm_ctx_create_case, calm_ctx_destroy_case, calm_submit_3d, calm_create_3d, calm_create_2d,
    calm_transfer_3d, calm_map_blob, calm_unmap_blob, calm_moco_present; apply calm_ctx_resource; intros id; calm.
Qed.

(** The echo stays inside the reply's header, past its type. *)
Lemma echo_hdr_ne req a m x : echo_hdr req a m x <> m x -> a + 4 <= x < a + sizeof_hdr.
Proof using.
  unfold echo_hdr, sizeof_hdr. cbv zeta. set (v := Z.land _ _).
  apply (store_twice (fun m => store_u32 (store_u64 (store_u32 m (a + 4) v) (a + 8) (h_fence_id req)) (a + 16) (h_ctx_id req))
    (fun m => store_bytes m (a + 20) [h_ring_idx req])); [|intros Hx%store_bytes_ne; cbn in Hx; lia].
  apply (store_twice (fun m => store_u64 (store_u32 m (a + 4) v) (a + 8) (h_fence_id req)) (fun m => store_u32 m (a + 16) (h_ctx_id req)));
    [|intros Hx%store_u32_ne; lia].
  apply (store_twice (fun m => store_u32 m (a + 4) v) (fun m => store_u64 m (a + 8) (h_fence_id req)));
    [intros Hx%store_u32_ne; lia|intros Hx%store_u64_ne; lia].
Qed.
End requests.
