(* ===== verification/GpuBacking.v ===== *)
(** Giving a resource guest pages and taking them away: the iovecs a resource
    holds are pinned before the renderer has them and unpinned after it gave
    them up. *)
From S2P Require Import Prelude.
From S2P Require Import Mem.
From S2P Require Import Rc.
From S2P Require Import Handles.
From S2P Require Import Vring.
From S2P Require Import Slices.
From S2P Require Import SlicesOk.
From S2P Require Import SlicesPin.
From S2P Require Import Gpu.
From S2P Require Import Vrend.
From S2P Require Import GpuRes.
From S2P Require Import GpuServe.
From S2P Require Import GpuOk.
From S2P Require Import GpuCalm.

Section backing.
Context {E R : Type} `{CogpuLaws E} `{!CogpuWindows E} `{!CogpuWindowsLaws E} `{RendererLaws R}.
Implicit Types (d : @gpu E R) (T : list Z) (P : Z -> Prop) (chain : cogpu_chain).
Abbreviation D := (M (@gpu E R)).

Definition few_slots d : Prop := Z.of_nat (length (g_res_pins (d_cache d))) < 2 ^ 31.
Definition fresh d (id : Z) : Prop := backing (d_rend d) !! id = None.
Definition holds d (id : Z) (iov : list iovec) : Prop := backing (d_rend d) !! id = Some iov.

(** The resource's iovecs are the runs, through its pinned slices or the view. *)
Definition attached d (id : Z) (runs : list (Z * Z)) : Prop := exists iov, holds d id iov /\
  Forall2 (fun i r => iov_len i = r.2 /\ 0 < r.2 /\ at_gpa (d_cache d) (res_slices (g_res_pins (d_cache d)) id) i r.1) iov runs.

Lemma gpu_ok_env B T d c d' e :
  gpu_ok B T d -> d_cache d' = set_env e (d_cache d) -> cache_ok B T (d_cache d') -> vrend_ready (d_vrend d') = vrend_ready (d_vrend d) ->
  backed (d_cache d) c -> backing (d_rend d') ⊆ c -> gpu_ok B T d'.
Proof using.
  intros (Hok & Hw & Hr & Hb) Ec Hok' Hr' Hc Hs. split; [done|]. rewrite Ec. split; [done|]. split; [congruence|].
  eapply backed_subset; [exact Hs|]. eapply backed_kept; [apply (kept_env _ e)|done|done].
Qed.

Lemma calm_ok P B T d d' : gpu_ok B T d -> calm P B T d d' -> gpu_ok B T d'.
Proof using.
  intros Hd [Hok (e & Ee) Hs _ Hr]. eapply gpu_ok_env; try done. apply Hd.
Qed.

(** What a backing request leaves: the set-up, and memory but for [P]. *)
Record moved P B T d d' : Prop := {
  mv_ok : gpu_ok B T d';
  mv_mem x : d_mem d' x <> d_mem d x -> P x;
  mv_setup : c_setup (d_cache d') = c_setup (d_cache d);
  mv_park : g_park_req d' = g_park_req d;
}.

(** ** Taking away *)

Lemma moved_refl P B T d : gpu_ok B T d -> moved P B T d d.
Proof using. done. Qed.

Lemma moved_trans P B T d1 d2 d3 : moved P B T d1 d2 -> moved P B T d2 d3 -> moved P B T d1 d3.
Proof using.
  intros [_ M1 S1 K1] [Ok M2 S2 K2]. split; [done| |congruence|congruence]. intros x Hx.
  destruct (decide (d_mem d2 x = d_mem d1 x)) as [Heq|]; [|by apply M1]. apply M2. by rewrite Heq.
Qed.

Lemma moved_calm P B T d d' : gpu_ok B T d -> calm P B T d d' -> moved P B T d d'.
Proof using.
  intros Hd Hc. split; [by eapply calm_ok|apply Hc| |apply Hc]. destruct (ca_cache _ _ _ _ _ Hc) as (e & Ee). by rewrite Ee.
Qed.

Lemma wp_calm {A} P B T d (m : D A) (X : co_rc_value_t -> gpu -> Prop) :
  gpu_ok B T d -> calm_op P m -> covers P d ->
  wp m (fun _ d' => moved P B T d d' /\ backing (d_rend d') ⊆ backing (d_rend d)) X d.
Proof using.
  intros Hd Hm Hc. eapply wp_mono; [apply (Hm B T); [apply Hd|done]| |done]. intros a d' Hca.
  split; [by apply moved_calm|apply Hca].
Qed.

Lemma fresh_mono d d' id : backing (d_rend d') ⊆ backing (d_rend d) -> fresh d id -> fresh d' id.
Proof using. intros Hs Hf. by eapply lookup_weaken_None. Qed.

Lemma wp_detach P B T d id (X : co_rc_value_t -> gpu -> Prop) :
  gpu_ok B T d -> wp (cogpu_vrend_detach_iov id) (fun _ d' => moved P B T d d' /\ fresh d' id /\
    backing (d_rend d') ⊆ backing (d_rend d)) X d.
Proof using.
  intros Hd. pose proof Hd as (Hok & Hw & Hr & Hb). unfold cogpu_vrend_detach_iov, if_ready, ready. do 2 wp_step. rewrite Hr.
  unfold rend_do. wp_step. pose proof (law_detach id (d_rend d)) as Hl.
  assert (backing (virgl_renderer_resource_detach_iov id (d_rend d)) ⊆ backing (d_rend d)) as Hs.
  { etransitivity; [exact Hl|apply delete_subseteq]. }
  split_and!; [|unfold fresh; cbn|done].
  - split; [|done|done|done]. split_and!; [done|done|done|]. by eapply backed_subset.
  - destruct (backing _ !! id) as [l|] eqn:Hid; [|done]. pose proof (lookup_weaken _ _ _ _ Hid Hl) as Hx.
    by rewrite lookup_delete_eq in Hx.
Qed.

(** Pins dropped of a resource the renderer holds nothing of. *)
Lemma wp_unpin_res P B T d id (X : co_rc_value_t -> gpu -> Prop) :
  gpu_ok B T d -> fresh d id -> wp (cached (res_pins_drop id)) (fun _ d' => moved P B T d d') X d.
Proof using.
  intros (Hok & Hw & Hr & Hb) Hf. eapply wp_cached; [intros X'; by apply (wp_res_pins_drop B T)|].
  intros [] c (Hok' & Hk & Ho & _ & _). split; [|done|apply Hk|done]. cbn.
  split; [done|]. cbn. split; [rewrite (proj1 Hk); exact Hw|]. split; [done|].
  eapply backed_kept; [exact Hk| |exact Hb]. intros k [l Hl] Hk0. apply Ho; [done|]. intros ->. unfold fresh in Hf. congruence.
Qed.

Lemma wp_detach_backing P B T d chain (X : co_rc_value_t -> gpu -> Prop) :
  gpu_ok B T d -> wp (detach_backing chain) (fun r d' => r = ok /\ moved P B T d d') X d.
Proof using.
  intros Hd. unfold detach_backing, req_u32. wp_step. wp_step; [|wp_step; wp_step; split; [done|by apply moved_refl]].
  do 3 wp_step. eapply wp_mono; [by apply (wp_detach P B T)| |done]. intros [] d1 (Hm1 & Hf & _).
  eapply wp_mono; [apply (wp_unpin_res P B T); [apply Hm1|done]| |done]. intros [] d2 Hm2. wp_step. split; [done|].
  by eapply moved_trans.
Qed.

Lemma calm_present_unref P id :
  calm_op P (rend_do (cogpu_present_r1_resource_unref id) ;; rend_do (cogpu_present_r2_resource_unref id)).
Proof using. calm. Qed.

Lemma wp_resource_unref P B T d chain (X : co_rc_value_t -> gpu -> Prop) :
  gpu_ok B T d -> covers P d -> wp (resource_unref chain) (fun _ d' => moved P B T d d') X d.
Proof using.
  intros Hd Hc. unfold resource_unref, req_u32. wp_step; [wp_step; by apply moved_refl|]. do 2 wp_step.
  set (id := match c_in chain with b :: _ => _ | [] => 0 end). clearbody id.
  wp_step. eapply wp_mono; [apply (wp_calm P B T d); [done| |done]; calm| |done]. intros [] d1 [Hm1 Hs1].
  pose proof (covers_mono _ _ _ Hs1 Hc) as Hc1.
  wp_step. eapply wp_mono; [apply (wp_calm P B T d1); [apply Hm1| |done]; calm| |done]. intros [] d2 [Hm2 Hs2].
  pose proof (covers_mono _ _ _ Hs2 Hc1) as Hc2.
  wp_step. eapply wp_mono; [apply (wp_detach P B T d2), Hm2| |done]. intros [] d3 (Hm3 & Hf & Hs3).
  pose proof (covers_mono _ _ _ Hs3 Hc2) as Hc3.
  wp_step. eapply wp_mono; [apply (wp_calm P B T d3); [apply Hm3|apply calm_resource_unref|done]| |done]. intros [] d4 [Hm4 Hs4].
  wp_step. eapply wp_mono; [apply (wp_unpin_res P B T d4); [apply Hm4|by eapply fresh_mono]| |done]. intros [] d5 Hm5.
  wp_step. do 4 (eapply moved_trans; [eassumption|]). done.
Qed.

(** ** Giving *)

Lemma gathering_moved P B T d d' :
  gpu_ok B T d -> gathering d d' -> cache_ok B T (d_cache d') -> grown (d_cache d) (d_cache d') ->
  moved P B T d d' /\ backing (d_rend d') = backing (d_rend d) /\ g_res_pins (d_cache d') = g_res_pins (d_cache d).
Proof using.
  intros (Hok & Hw & Hr & Hb) Hg Hok' Hgr. pose proof (gr_setup _ _ Hgr) as Es. pose proof (gr_res _ _ Hgr) as Er.
  rewrite Hg. cbn. split; [|done]. split; [|done|done|done]. split; [done|]. cbn. split; [by rewrite Es|]. split; [done|].
  eapply backed_kept; [by apply grown_kept| |exact Hb]. intros. by rewrite Er.
Qed.

Lemma wp_commit P B T d id pc (X : co_rc_value_t -> gpu -> Prop) :
  gpu_ok B T d -> fresh d id -> few_slots d -> pc_ok (d_cache d) pc ->
  wp (cached (res_pins_commit id pc)) (fun ok d' => moved P B T d d' /\ backing (d_rend d') = backing (d_rend d) /\
    kept (d_cache d) (d_cache d') /\
    (ok = true -> id <> 0 /\ pc_overflow pc = false /\ res_slices (g_res_pins (d_cache d')) id = pc_s pc)) X d.
Proof using.
  intros (Hok & Hw & Hr & Hb) Hf Hfew Hpc. eapply wp_cached; [intros X'; by apply (wp_res_pins_commit B T)|].
  intros ok c (Hok' & Hk & Ho & Hres). cbn. split_and!; [|done|done|intros ->; by apply Hres].
  split; [|done|apply Hk|done]. split; [done|]. cbn. split; [rewrite (proj1 Hk); exact Hw|]. split; [done|].
  eapply backed_kept; [exact Hk| |exact Hb]. intros k [l Hl] Hk0. apply Ho; [done|]. intros ->. unfold fresh in Hf. congruence.
Qed.

(** What giving leaves: the renderer holds [iov] for [id], or nothing new. *)
Definition given id iov d d' (rc : Z) : Prop :=
  (exists e, d_cache d' = set_env e (d_cache d)) /\ d_mem d' = d_mem d /\ d_vrend d' = d_vrend d /\ g_park_req d' = g_park_req d /\
  if rc =? 0 then backing (d_rend d') = <[id := iov]> (backing (d_rend d)) else backing (d_rend d') ⊆ backing (d_rend d).

Lemma same_env c : exists e, c = @set_env E e c.
Proof using. exists (c_env c). by destruct c. Qed.

Lemma given_none id iov d e : given id iov d (put_cache (set_env e (d_cache d)) d) (-1).
Proof using. split; [by exists e|]. split; [done|]. split; [done|]. split; [done|]. by cbn. Qed.
Lemma given_nothing id iov d : given id iov d d (-1).
Proof using. split; [apply same_env|]. split; [done|]. split; [done|]. split; [done|]. by cbn. Qed.

Lemma wp_attach_iov B T d id iov (X : co_rc_value_t -> gpu -> Prop) :
  cache_ok B T (d_cache d) ->
  wp (cogpu_vrend_attach_iov id iov) (fun rc d' => cache_ok B T (d_cache d') /\ given id iov d d' rc) X d.
Proof using.
  intros Hok. unfold cogpu_vrend_attach_iov, ready. do 2 wp_step.
  assert (cache_ok B T (d_cache d) /\ given id iov d d (-1)) as Hno by (split; [done|apply given_nothing]).
  destruct (_ || _)%bool; [by wp_step|]. wp_step.
  eapply wp_mono; [apply (wp_heap B T); [apply law_malloc|done]| |done]. intros own d1 (e & -> & Hok1).
  pose proof (given_none id iov d e) as Hno1.
  wp_step; [by wp_step|]. wp_step. apply wp_rend. intros rc r Hrc. wp_step. split; [done|].
  pose proof (law_attach id iov (d_rend (put_cache (set_env e (d_cache d)) d))) as Hl. rewrite Hrc in Hl.
  split; [by exists e|]. split; [done|]. split; [done|]. split; [done|]. cbn in *. destruct (rc =? 0); [apply Hl|exact Hl].
Qed.

Lemma wp_make_blob B T d ctx id m f b size iov (X : co_rc_value_t -> gpu -> Prop) :
  cache_ok B T (d_cache d) ->
  wp (cogpu_vrend_create_blob ctx id m f b size iov) (fun rc d' => cache_ok B T (d_cache d') /\
    if (length iov =? 0)%nat then given id iov d d' 1 else given id iov d d' rc) X d.
Proof using.
  intros Hok. unfold cogpu_vrend_create_blob, when_ready, ready. do 2 wp_step.
  assert (forall d', cache_ok B T (d_cache d') -> given id iov d d' (-1) ->
    cache_ok B T (d_cache d') /\ if (length iov =? 0)%nat then given id iov d d' 1 else given id iov d d' (-1)) as Hno.
  { intros d' Hok' Hg. split; [done|]. by destruct (length iov =? 0)%nat. }
  wp_step; [|wp_step; apply Hno; [done|apply given_nothing]].
  assert (forall e, cache_ok B T (set_env e (d_cache d)) -> forall X',
    wp (rend (virgl_renderer_resource_create_blob ctx id m f b size iov)) (fun rc d' => cache_ok B T (d_cache d') /\
    if (length iov =? 0)%nat then given id iov d d' 1 else given id iov d d' rc) X' (put_cache (set_env e (d_cache d)) d)) as Hgo.
  { intros e Hok1 X'. apply wp_rend. intros rc r Hrc. split; [done|].
    pose proof (law_create_blob ctx id m f b size iov (d_rend d)) as Hl. cbn in Hrc. rewrite Hrc in Hl.
    destruct (length iov =? 0)%nat; (split; [by exists e|]; split; [done|]; split; [done|]; split; [done|]); cbn in *.
    - destruct (rc =? 0); [by destruct Hl as [_ ->]|done].
    - destruct (rc =? 0); [by destruct Hl as [_ ->]|done]. }
  wp_step. destruct (length iov =? 0)%nat eqn:Hn.
  - wp_step. cbn [negb]. specialize (Hgo (c_env (d_cache d))).
    replace (set_env (c_env (d_cache d)) (d_cache d)) with (d_cache d) in Hgo by (by destruct (d_cache d)).
    replace (put_cache (d_cache d) d) with d in Hgo by (by destruct d). by apply Hgo.
  - eapply wp_mono; [apply (wp_heap B T); [apply law_malloc|done]| |done]. intros own d1 (e & -> & Hok1).
    wp_step; [wp_step; apply Hno; [done|apply given_none]|]. by apply Hgo.
Qed.

(** The renderer holds the pinned runs: the invariant again. *)
Lemma given_ok P B T d d' id iov runs pc :
  gpu_ok B T d -> cache_ok B T (d_cache d') -> given id iov d d' 0 -> id <> 0 ->
  pc_overflow pc = false -> res_slices (g_res_pins (d_cache d)) id = pc_s pc -> built (d_cache d) runs iov pc ->
  moved P B T d d' /\ attached d' id runs.
Proof using.
  intros (Hok & Hw & Hr & Hb) Hok' ((e & Ee) & Em & Ev & Ek & Hg) Hid Ho Hres [_ Hf]. change (0 =? 0) with true in Hg. cbn in Hg.
  assert (Forall2 (fun i r => iov_len i = r.2 /\ 0 < r.2 /\
    at_gpa (d_cache d') (res_slices (g_res_pins (d_cache d')) id) i r.1) iov runs) as Hat.
  { eapply Forall2_impl; [exact Hf|]. intros i r (El & Hpos & [?|Hat]); [congruence|]. split; [done|]. split; [done|].
    rewrite Ee. cbn. rewrite Hres. eapply at_gpa_kept; [apply kept_env| |exact Hat]. done. }
  split; [split|].
  - split; [done|]. rewrite Ee, Ev. split; [done|]. split; [done|]. rewrite Hg. apply backed_insert; [done| |].
    + eapply backed_kept; [apply (kept_env _ e)|done|done].
    + eapply Forall2_Forall_l; [exact Hat|]. apply Forall_forall. intros r _ i (_ & _ & Hat'). exists r.1.
      rewrite Ee in Hat'. exact Hat'.
  - intros x Hx. by rewrite Em in Hx.
  - by rewrite Ee.
  - done.
  - exists iov. split; [|done]. unfold holds. rewrite Hg. apply lookup_insert_eq.
Qed.

Lemma given_refused P B T d d' id iov rc :
  gpu_ok B T d -> cache_ok B T (d_cache d') -> given id iov d d' rc -> rc <> 0 ->
  moved P B T d d' /\ backing (d_rend d') ⊆ backing (d_rend d).
Proof using.
  intros Hd Hok' ((e & Ee) & Em & Ev & Ek & Hg) Hrc. rewrite (proj2 (Z.eqb_neq _ _) Hrc) in Hg. split; [|done]. split.
  - eapply gpu_ok_env; [exact Hd|exact Ee|done|by rewrite Ev|apply Hd|done].
  - intros x Hx. by rewrite Em in Hx.
  - by rewrite Ee.
  - done.
Qed.

(** The request's first words and the entries behind [skip] bytes of it. *)
Definition asks d chain (off : Z) : Z :=
  match c_in chain with b :: _ => load_u32 (d_mem d) (b_addr b + sizeof_hdr + off) | [] => 0 end.
Definition asked_runs d chain (skip n : Z) : list Z :=
  entries_from (take (Z.to_nat (n * 16)) (payload (d_mem d) (c_in chain) skip)) 0 (Z.to_nat n).

Definition chain_ok chain : Prop := lens_ok (c_in chain) /\ lens_ok (c_out chain).

Lemma asks_range d chain off : 0 <= asks d chain off < 2 ^ 32.
Proof using. unfold asks. destruct (c_in chain); [lia|apply load_u32_range]. Qed.

Lemma wp_gathered P B T d count chain skip n (X : co_rc_value_t -> gpu -> Prop) :
  gpu_ok B T d -> chain_ok chain -> 0 < skip <= in_len chain -> 0 <= n <= MAX_IOV ->
  wp (gather_iov count chain skip n) (fun r d' => moved P B T d d' /\ backing (d_rend d') = backing (d_rend d) /\
    g_res_pins (d_cache d') = g_res_pins (d_cache d) /\
    match r with
    | None => True
    | Some (iov, pins) => exists runs, built (d_cache d') runs iov pins /\ flat runs = asked_runs d chain skip n /\
        n * 16 <= Z.of_nat (length (payload (d_mem d) (c_in chain) skip))
    end) X d.
Proof using.
  intros Hd [Hl _] Hs Hn. pose proof Hd as (Hok & Hw & _). unfold in_len, asked_runs in *.
  destruct (c_in chain) as [|b l] eqn:Hc; [lia|].
  eapply wp_mono; [by apply (wp_gather_iov B T d count b l skip n)| |done]. intros r d1 (Hg & Hok1 & Hgr & Hr).
  destruct (gathering_moved P B T d d1 Hd Hg Hok1 Hgr) as (Hm & Eb & Er). done.
Qed.

Lemma fresh_eq d d' id : backing (d_rend d') = backing (d_rend d) -> fresh d id -> fresh d' id.
Proof using. unfold fresh. by intros ->. Qed.

Lemma wp_attach_backing P B T d chain (X : co_rc_value_t -> gpu -> Prop) :
  gpu_ok B T d -> chain_ok chain -> few_slots d -> fresh d (asks d chain 0) ->
  wp (attach_backing chain) (fun r d' => moved P B T d d' /\
    (r = err \/ r = ok /\ exists runs, attached d' (asks d chain 0) runs /\
       flat runs = asked_runs d chain (sizeof_hdr + 8) (asks d chain 4))) X d.
Proof using.
  intros Hd Hch Hfew Hf. unfold attach_backing, req_u32. wp_step; [wp_step; split; [by apply moved_refl|by left]|].
  do 2 wp_step. fold (asks d chain 0). do 2 wp_step. fold (asks d chain 4).
  set (id := asks d chain 0) in *. pose proof (asks_range d chain 4) as Hn. set (n := asks d chain 4) in *.
  destruct (_ || _)%bool eqn:Hc; [wp_step; split; [by apply moved_refl|by left]|]. zbool. wp_step.
  eapply wp_mono; [apply (wp_gathered P B T d); [done|done|unfold sizeof_hdr in *; lia|lia]| |done].
  intros [[iov pins]|] d1 (Hm1 & Eb1 & Er1 & Hr); [|wp_step; split; [done|by left]]. destruct Hr as (runs & Hb & Hfl & _).
  wp_step. eapply wp_mono; [apply (wp_commit P B T d1); [apply Hm1|by eapply fresh_eq|unfold few_slots; by rewrite Er1|apply Hb]| |done].
  intros pinned d2 (Hm2 & Eb2 & Hk2 & Hpin). pose proof (moved_trans _ _ _ _ _ _ Hm1 Hm2) as Hm12.
  destruct pinned; cbn [negb]; [|wp_step; split; [done|by left]]. destruct (Hpin eq_refl) as (Hid & Ho & Hres). wp_step.
  eapply wp_mono; [apply (wp_attach_iov B T d2), Hm2| |done]. intros rc d3 [Hok3 Hg].
  assert (fresh d2 id) as Hf2 by (do 2 (eapply fresh_eq; [eassumption|]); done).
  destruct (rc =? 0) eqn:Hrc; cbn [negb]; zbool.
  - wp_step. subst rc.
    assert (built (d_cache d2) runs iov pins) as Hb2.
    { eapply built_grown; [apply Hm1|apply Hm2|exact Hk2|apply more_pins_refl| |exact Hb].
      eapply pc_kept; [apply Hm1|apply Hm2|exact Hk2|apply Hb]. }
    destruct (given_ok P B T d2 d3 id iov runs pins) as [Hm3 Hat]; try done; [apply Hm2|].
    split; [by eapply moved_trans|]. right. split; [done|]. by exists runs.
  - wp_step. destruct (given_refused P B T d2 d3 id iov rc) as [Hm3 Hs3]; try done; [apply Hm2|].
    eapply wp_mono; [apply (wp_unpin_res P B T d3); [apply Hm3|by eapply fresh_mono]| |done].
    intros [] d4 Hm4. wp_step. split; [|by left]. eapply moved_trans; [exact Hm12|]. by eapply moved_trans.
Qed.

Lemma wp_create_blob P B T d ctx chain (X : co_rc_value_t -> gpu -> Prop) :
  gpu_ok B T d -> chain_ok chain -> few_slots d -> fresh d (asks d chain 0) ->
  wp (create_blob ctx chain) (fun r d' => moved P B T d d' /\
    (r = err \/ r = ok /\ exists runs, (runs = [] \/ attached d' (asks d chain 0) runs) /\
       flat runs = asked_runs d chain (sizeof_hdr + 32) (asks d chain 12))) X d.
Proof using.
  intros Hd Hch Hfew Hf. unfold create_blob, req_u32, req_u64. wp_step; [wp_step; split; [by apply moved_refl|by left]|].
  do 2 wp_step. fold (asks d chain 0). do 6 wp_step. fold (asks d chain 12). do 4 wp_step.
  set (id := asks d chain 0) in *. pose proof (asks_range d chain 12) as Hn. set (n := asks d chain 12) in *.
  wp_step; [wp_step; split; [by apply moved_refl|by left]|]. wp_step.
  apply (wp_mono _ (fun r d' => moved P B T d d' /\ backing (d_rend d') = backing (d_rend d) /\
    g_res_pins (d_cache d') = g_res_pins (d_cache d) /\
    match r with
    | None => True
    | Some (iov, pins) => exists runs, built (d_cache d') runs iov pins /\ flat runs = asked_runs d chain (sizeof_hdr + 32) n
    end) _ X); [| |done].
  { wp_step.
    - eapply wp_mono; [apply (wp_gathered P B T d); [done|done|unfold sizeof_hdr in *; lia|lia]| |done].
      intros [[iov pins]|] d1 (? & ? & ? & Hr); split_and!; try done. destruct Hr as (runs & ? & ? & _). by exists runs.
    - assert (n = 0) as E0 by lia. wp_step. split_and!; [by apply moved_refl|done|done|]. exists [].
      split; [apply built_nil|]. by rewrite E0. }
  intros [[iov pins]|] d1 (Hm1 & Eb1 & Er1 & Hr); [|wp_step; split; [done|by left]]. destruct Hr as (runs & Hb & Hfl).
  assert (fresh d1 id) as Hf1 by (by eapply fresh_eq). destruct (length iov =? 0)%nat eqn:Hni; cbn [negb].
  - do 2 wp_step. cbn [negb]. apply Nat.eqb_eq, nil_length_inv in Hni. subst iov.
    assert (runs = []) as -> by (by destruct Hb as [_ Hb%Forall2_nil_inv_l]). wp_step.
    eapply wp_mono; [apply (wp_make_blob B T d1), Hm1| |done]. intros rc d2 [Hok2 Hg]. cbn [length Nat.eqb] in Hg.
    destruct (given_refused P B T d1 d2 id [] 1) as [Hm2 _]; [apply Hm1|done|exact Hg|done|].
    pose proof (moved_trans _ _ _ _ _ _ Hm1 Hm2) as Hm.
    wp_step; [do 2 wp_step; wp_step; split; [done|by left]|]. wp_step. split; [done|]. right. split; [done|].
    exists []. split; [by left|done].
  - wp_step. eapply wp_mono; [apply (wp_commit P B T d1); [apply Hm1|done|unfold few_slots; by rewrite Er1|apply Hb]| |done].
    intros pinned d2 (Hm2 & Eb2 & Hk2 & Hpin). pose proof (moved_trans _ _ _ _ _ _ Hm1 Hm2) as Hm12.
    destruct pinned; cbn [negb]; [|wp_step; split; [done|by left]]. destruct (Hpin eq_refl) as (Hid & Ho & Hres). wp_step.
    eapply wp_mono; [apply (wp_make_blob B T d2), Hm2| |done]. intros rc d3 [Hok3 Hg]. rewrite Hni in Hg.
    assert (fresh d2 id) as Hf2 by (by eapply fresh_eq).
    destruct (rc =? 0) eqn:Hrc; cbn [negb]; zbool.
    + wp_step. subst rc. assert (built (d_cache d2) runs iov pins) as Hb2.
      { eapply built_grown; [apply Hm1|apply Hm2|exact Hk2|apply more_pins_refl| |exact Hb].
        eapply pc_kept; [apply Hm1|apply Hm2|exact Hk2|apply Hb]. }
      destruct (given_ok P B T d2 d3 id iov runs pins) as [Hm3 Hat]; try done; [apply Hm2|].
      split; [by eapply moved_trans|]. right. split; [done|]. exists runs. split; [by right|done].
    + wp_step. destruct (given_refused P B T d2 d3 id iov rc) as [Hm3 Hs3]; try done; [apply Hm2|].
      eapply wp_mono; [apply (wp_unpin_res P B T d3); [apply Hm3|by eapply fresh_mono]| |done].
      intros [] d4 Hm4. wp_step. split; [|by left]. eapply moved_trans; [exact Hm12|]. by eapply moved_trans.
Qed.
End backing.
