(* ===== verification/GpuRun.v ===== *)
(** The GPU daemon serving, sweeping and lending pointers, in any order.

    [gpu_step] is one turn: a request is served, the main loop sweeps, a thread
    resolves an address, pins a slice or lets one go, the loop takes a request
    to park, or memory changes under the daemon, as the guest writes it. *)
From stdpp Require Import relations.
From S2P Require Import Prelude.
From S2P Require Import Mem.
From S2P Require Import Rc.
From S2P Require Import Handles.
From S2P Require Import Vring.
From S2P Require Import Slices.
From S2P Require Import SlicesOk.
From S2P Require Import SlicesPin.
From S2P Require Import SlicesEvict.
From S2P Require Import Gpu.
From S2P Require Import Vrend.
From S2P Require Import GpuRes.
From S2P Require Import GpuServe.
From S2P Require Import GpuOk.
From S2P Require Import GpuHints.
From S2P Require Import GpuCalm.
From S2P Require Import GpuBacking.
#[local] Open Scope Z_scope.

Section run.
Context {E R : Type} `{CogpuLaws E} `{!CogpuWindows E} `{WL : !CogpuWindowsLaws E} `{RendererLaws R}.
Implicit Types (d : @gpu E R) (T : list Z) (P : Z -> Prop) (chain : cogpu_chain).
Abbreviation D := (M (@gpu E R)).

(** ** Serving *)

Definition request chain d : virtio_gpu_ctrl_hdr :=
  match c_in chain with b :: _ => read_hdr (d_mem d) (b_addr b) | [] => Hdr 0 0 0 0 0 end.
Definition asks_for chain d : gpu_command := command_of (h_type (request chain d)).

(** The reply's header zeroed, as a case of [serve] finds it. *)
Definition cleared chain d : gpu := put_mem (co_memset (d_mem d) (out_addr chain) 0 sizeof_hdr) d.

(** A guest that gives a resource backing only when it has none, and asks for
    capsets in buffers that hold them. *)
Record honest chain d : Prop := {
  ho_fresh : asks_for chain d = RESOURCE_ATTACH_BACKING \/ asks_for chain d = RESOURCE_CREATE_BLOB ->
    fresh d (asks (cleared chain d) chain 0);
  ho_caps : asks_for chain d = GET_CAPSET -> caps_fit (R := R) chain;
}.

(** What a request may write: its reply, and what the renderer was given. *)
Definition may_write chain d (x : Z) : Prop :=
  out_addr chain <= x < out_addr chain + out_len chain \/ in_iovecs (backing (d_rend d)) x \/ rend_owns x.

Lemma wp_case P B T d req chain (X : co_rc_value_t -> gpu -> Prop) :
  gpu_ok B T d -> chain_ok chain -> few_slots d -> covers P d -> replies P chain ->
  (command_of (h_type req) = GET_CAPSET -> caps_fit (R := R) chain) ->
  (command_of (h_type req) = RESOURCE_ATTACH_BACKING \/ command_of (h_type req) = RESOURCE_CREATE_BLOB ->
    fresh d (asks d chain 0)) ->
  wp (serve_case req chain) (fun _ d' => moved P B T d d') X d.
Proof using WL.
  intros Hd Hch Hfew Hc Hrep Hcap Hf. destruct (moves_backing (command_of (h_type req))) eqn:Hmv.
  - unfold serve_case. destruct (command_of (h_type req)); try done.
    + by apply (wp_resource_unref P B T).
    + eapply wp_mono; [apply (wp_attach_backing P B T); try done; apply Hf; by left| |done]. by intros r d' [? _].
    + eapply wp_mono; [by apply (wp_detach_backing P B T)| |done]. by intros r d' [_ ?].
    + eapply wp_mono; [apply (wp_create_blob P B T); try done; apply Hf; by right| |done]. by intros r d' [? _].
  - eapply wp_mono; [apply (wp_calm P B T d); [done|by apply calm_case|done]| |done]. by intros r d' [? _].
Qed.

Lemma gpu_ok_mem B T d m : gpu_ok B T d -> gpu_ok B T (put_mem m d).
Proof using. done. Qed.

Lemma gpu_ok_stats B T d st : gpu_ok B T d -> gpu_ok B T (put_stats st d).
Proof using. done. Qed.

Lemma moved_store P B T d chain (f : mem -> mem) :
  gpu_ok B T d -> (forall m x, f m x <> m x -> P x) -> moved P B T d (put_mem (f (d_mem d)) d).
Proof using. intros Hd Hf. split; [done| |done|done]. intros x Hx. by apply (Hf (d_mem d)). Qed.

(** The fence's ring, and the request to park its chain, if there is one. *)
Definition fence_ring (req : virtio_gpu_ctrl_hdr) : Z :=
  if Z.land (h_flags req) VIRTIO_GPU_FLAG_INFO_RING_IDX =? 0 then 0 else h_ring_idx req.
Definition is_fenced (req : virtio_gpu_ctrl_hdr) : bool := negb (Z.land (h_flags req) VIRTIO_GPU_FLAG_FENCE =? 0).
Definition to_park req type d : option park_req :=
  if (is_fenced req && ctx_is_venus (g_ctx_capset d) (h_ctx_id req) && negb (type =? VIRTIO_GPU_RESP_ERR_UNSPEC)
      && ((virgl_renderer_context_create_fence (h_ctx_id req) (fence_ring req) (h_fence_id req) (d_rend d)).1 =? 0))%bool
  then Some (ParkReq (h_ctx_id req) (fence_ring req) (h_fence_id req)) else g_park_req d.

Lemma load_u32_echo req a m : load_u32 (echo_hdr req a m) a = load_u32 m a.
Proof using.
  unfold load_u32. f_equal. apply load_bytes_ext. intros x Hx.
  destruct (decide (echo_hdr req a m x = m x)) as [Heq|Hne]; [unfold load; by rewrite Heq|]. apply echo_hdr_ne in Hne. unfold sizeof_hdr in *. lia.
Qed.

Lemma gpu_ok_rend B T d r : gpu_ok B T d -> backing r ⊆ backing (d_rend d) -> gpu_ok B T (put_rend r d).
Proof using. intros (Hok & Hw & Hr & Hb) Hs. split_and!; try done. by eapply backed_subset. Qed.

Lemma wp_fence B T d req a (X : co_rc_value_t -> gpu -> Prop) :
  gpu_ok B T d ->
  wp (serve_fence req a) (fun _ d' => gpu_ok B T d' /\ c_setup (d_cache d') = c_setup (d_cache d) /\
    d_mem d' = (if is_fenced req then echo_hdr req a (d_mem d) else d_mem d) /\
    g_park_req d' = to_park req (load_u32 (d_mem d) a) d) X d.
Proof using.
  intros Hd. unfold serve_fence, store_out, stat, to_park, is_fenced. destruct (Z.land _ VIRTIO_GPU_FLAG_FENCE =? 0) eqn:Hf; cbn [negb andb].
  { wp_step. done. }
  do 8 wp_step. cbn [g_ctx_capset d_mem put_mem put_stats]. rewrite load_u32_echo.
  destruct (ctx_is_venus _ _); cbn [andb]; [|wp_step; done].
  destruct (load_u32 (d_mem d) a =? VIRTIO_GPU_RESP_ERR_UNSPEC); cbn [negb andb]; [wp_step; done|].
  unfold cogpu_vrend_ctx_fence, when_ready, ready. do 3 wp_step. cbn [d_vrend put_mem put_stats].
  pose proof Hd as (_ & _ & Hr & _). rewrite Hr. apply wp_rend. intros rc r Hrc. cbn [d_rend put_mem put_stats] in Hrc.
  fold (fence_ring req) in Hrc |- *. pose proof (law_fence (h_ctx_id req) (fence_ring req) (h_fence_id req) (d_rend d)) as Hl.
  rewrite Hrc in Hl |- *. cbn [fst snd] in *.
  destruct (rc =? 0); wp_step; (split; [by apply (gpu_ok_rend B T)|done]).
Qed.


(** How [serve] answers a request it has room to answer: the case, then its
    type and the fence. *)
Definition answered chain d (written : Z) d' : Prop :=
  exists type d2, serve_case (request chain d) chain (cleared chain d) = (Ret (type, written), d2) /\
    g_park_req d2 = g_park_req d /\
    let m := store_u32 (d_mem d2) (out_addr chain) type in
    d_mem d' = (if is_fenced (request chain d) then echo_hdr (request chain d) (out_addr chain) m else m) /\
    g_park_req d' = to_park (request chain d) (load_u32 m (out_addr chain)) d2.

(** Whether both headers are there. *)
Definition has_room chain : bool :=
  match c_in chain, c_out chain with
  | bi :: _, bo :: _ => negb ((b_len bi <? sizeof_hdr) || (b_len bo <? sizeof_hdr))%bool
  | _, _ => false
  end.

Lemma wp_serve B T d chain (X : co_rc_value_t -> gpu -> Prop) :
  gpu_ok B T d -> chain_ok chain -> few_slots d -> honest chain d ->
  wp (serve chain) (fun w d' => gpu_ok B T d' /\ c_setup (d_cache d') = c_setup (d_cache d) /\
    (forall x, d_mem d' x <> d_mem d x -> may_write chain d x) /\
    if has_room chain then answered chain d w d' else w = 0 /\ d_mem d' = d_mem d) X d.
Proof using WL.
  intros Hd Hch Hfew [Hfr Hcap]. unfold serve, stat, has_room.
  destruct (c_in chain) as [|bi li] eqn:Ein; [do 3 wp_step; done|].
  destruct (c_out chain) as [|bo lo] eqn:Eout; [do 3 wp_step; done|].
  destruct (_ || _)%bool eqn:Hlen; cbn [negb]; [do 3 wp_step; done|]. zbool.
  assert (b_addr bo = out_addr chain) as -> by (unfold out_addr; by rewrite Eout).
  assert (sizeof_hdr <= out_len chain) as Hol by (unfold out_len; by rewrite Eout).
  assert (read_hdr (d_mem d) (b_addr bi) = request chain d) as Ereq by (unfold request; by rewrite Ein).
  do 2 wp_step. rewrite Ereq. unfold store_out. do 2 wp_step. change (put_mem _ d) with (cleared chain d).
  set (P := may_write chain d). assert (moved P B T d (cleared chain d)) as Hm1.
  { apply (moved_store P B T d chain (fun m => co_memset m (out_addr chain) 0 sizeof_hdr) Hd). intros m x Hx%co_memset_ne.
    left. unfold sizeof_hdr in *. lia. }
  destruct (wp_total _ _ _ (wp_case P B T (cleared chain d) (request chain d) chain _ (mv_ok _ _ _ _ _ Hm1) Hch Hfew
    (fun x Hx => or_intror Hx) (fun x Hx => or_introl Hx) Hcap Hfr)) as ([type written] & d2 & Hsc & Hm2).
  wp_step. unfold wp at 1. rewrite Hsc. unfold store_out. do 2 wp_step. set (d3 := put_mem _ d2).
  pose proof (moved_trans _ _ _ _ _ _ Hm1 Hm2) as [Hok2 Hmem2 Hset2 Hpark2]. wp_step.
  eapply wp_mono; [apply (wp_fence B T d3); exact Hok2| |done]. intros [] d4 (Hok4 & Hset4 & Hmem4 & Hpark4). do 3 wp_step.
  split; [done|]. split; [cbn; by rewrite Hset4|]. split; [|by exists type, d2].
  intros x Hx. cbn in Hx. rewrite Hmem4 in Hx. destruct (decide (d_mem d2 x = d_mem d x)) as [Heq|Hne]; [|by apply Hmem2].
  assert (d_mem d3 x <> d_mem d2 x -> P x) as Hd3 by (intros Hx3%store_u32_ne; left; unfold sizeof_hdr in *; lia).
  destruct (decide (d_mem d3 x = d_mem d2 x)) as [Heq3|Hne3]; [|by apply Hd3]. rewrite <- Heq, <- Heq3 in Hx.
  destruct (is_fenced (request chain d)); [|done]. apply echo_hdr_ne in Hx. left. unfold sizeof_hdr in *. lia.
Qed.

(** ** Running *)

(** The pointers lent to other threads, and the daemon. *)
Inductive gpu_step : list Z * @gpu E R -> list Z * @gpu E R -> Prop :=
  | step_serve T d chain w d' :
      chain_ok chain -> few_slots d -> honest chain d -> serve chain d = (Ret w, d') -> gpu_step (T, d) (T, d')
  | step_sweep T d d' : cached sweep d = (Ret tt, d') -> gpu_step (T, d) (T, d')
  | step_resolve T d main gpa len p d' :
      0 <= gpa < 2 ^ 64 -> 0 <= len < 2 ^ 64 -> cached (resolve_gpa main gpa len) d = (Ret p, d') -> gpu_step (T, d) (T, d')
  | step_pin T d gpa len p t d' :
      0 <= gpa < 2 ^ 64 -> 0 <= len < 2 ^ 64 -> cached (cogpu_resolve_gpa_pinned gpa len) d = (Ret (p, t), d') ->
      gpu_step (T, d) (if decide (t = 0) then T else t :: T, d')
  | step_unpin T T' t d d' :
      T ≡ₚ t :: T' -> cached (cogpu_unpin t) d = (Ret tt, d') -> gpu_step (T, d) (T', d')
  | step_memory T d m : gpu_step (T, d) (T, put_mem m d)
  | step_unpark T d : gpu_step (T, d) (T, put_park None d).

(** The daemon as the main loop finds it. *)
Record gpu_start B d : Prop := {
  gs_env : env_ok (c_env (d_cache d));
  gs_driver : driver_ok (c_env (d_cache d));
  gs_cache : c_nodes (d_cache d) = ∅ /\ g_slices (d_cache d) = [] /\ g_last_hit (d_cache d) = 0 /\
    g_slice_bytes (d_cache d) = 0 /\ g_res_pins (d_cache d) = [];
  gs_setup : g_slice_lock_ready (c_setup (d_cache d)) = true /\ g_window_base (c_setup (d_cache d)) < 2 ^ 64;
  gs_budget : let b := c_budget (d_cache d) in
    g_kmap_hard_bytes b <= B /\ 0 <= g_kmap_ram_ceiling b /\ g_kmap_ram_ceiling b + Z.shiftl 64 20 <= B /\
    0 <= B /\ B + CO_KMAP_SLICE_BYTES < 2 ^ 64;
  gs_rend : vrend_ready (d_vrend d) = true /\ backing (d_rend d) = ∅;
}.

Definition gpu_inv B (st : list Z * @gpu E R) : Prop :=
  gpu_ok B st.1 st.2 /\ g_slice_lock_ready (c_setup (d_cache st.2)) = true.

Lemma start_inv B d : gpu_start B d -> gpu_inv B ([], d).
Proof using.
  intros [He Hd (En & Es & Eh & Eb & Er) (Hl & Hw) (Hh & Hc0 & Hc & HB & HB2) (Hv & Hbk)]. split; [|done].
  split; [|split; [done|split; [done|]]]; cbn [fst snd] in *.
  - split; rewrite ?En, ?Es, ?Eh, ?Eb; unfold refs; rewrite ?Er; try done.
    + constructor.
    + intros a. rewrite lookup_empty. split; [by intros ?%elem_of_nil|by intros [? ?]].
    + by intros a ?%elem_of_nil.
    + by left.
  - intros id l. by rewrite Hbk.
Qed.

(** The cache moved and the slices the resources pin are where they were. *)
Lemma inv_cache B T T' d c :
  gpu_ok B T d -> cache_ok B T' c -> kept (d_cache d) c -> g_res_pins c = g_res_pins (d_cache d) -> gpu_ok B T' (put_cache c d).
Proof using.
  intros (_ & Hw & Hr & Hb) Hok Hk Er. split; [done|]. cbn. split; [by rewrite (proj1 Hk)|]. split; [done|].
  eapply backed_kept; [exact Hk|intros; by rewrite Er|done].
Qed.

(** What eviction leaves still backs the renderer: pinned slices are kept. *)
Lemma shrunk_backed B T s s' b : cache_ok B T s -> shrunk s s' -> backed s b -> backed s' b.
Proof using.
  intros Hok Hsh Hb id l Hl. destruct (Hb id l Hl) as [Hid Hf]. split; [done|]. eapply Forall_impl; [exact Hf|].
  intros i (gpa & Hat). exists gpa. rewrite (sh_res _ _ Hsh). destruct Hat as [Hv|(a & Ha & n & Hn & Hin)].
  - left. unfold in_view in *. by rewrite (sh_setup _ _ Hsh).
  - right. exists a. split; [done|]. exists n. split; [|done]. apply (sh_pinned _ _ Hsh); [done|].
    rewrite (co_pins _ _ _ Hok a n Hn). enough (0 < occ a (refs s T)) by lia. apply occ_in. unfold refs. apply elem_of_app. left.
    unfold res_slices in Ha. destruct (slot_of (g_res_pins s) id) as [k|]; [|by apply elem_of_nil in Ha].
    destruct (g_res_pins s !! k) as [p|] eqn:Hp; [|by apply elem_of_nil in Ha]. apply list_elem_of_bind.
    exists p. split; [exact Ha|]. by eapply list_elem_of_lookup_2.
Qed.

Lemma cache_clock B T s t : cache_ok B T s -> cache_ok B T (set_clock t s).
Proof using. intros [He Hd Hnd Hno Hl Hh Hra Hdi Hby Hbo Hpi Hre Hfr Hid]. by split. Qed.

Lemma wp_sweep B T s (X : co_rc_value_t -> cogpu -> Prop) :
  cache_ok B T s ->
  wp sweep (fun _ s' => cache_ok B T s' /\ shrunk (set_clock (u64 (g_slice_clock s + 1)) s) s' /\
    (g_slice_lock_ready (c_setup s) = true ->
     g_slice_bytes s' < g_kmap_cap_bytes (c_budget s') \/
     g_slice_bytes s' <= u64 (g_kmap_cap_bytes (c_budget s') - KMAP_EVICT_HEADROOM_BYTES) \/ all_pinned s')) X s.
Proof using. intros Hok. unfold sweep. do 2 wp_step. exact (wp_slices_evict B T _ X (cache_clock _ _ _ _ Hok)). Qed.

Lemma run_cached {A} (m : M (@cogpu E) A) (Q : A -> cogpu -> Prop) d a d' :
  (forall X, wp m Q X (d_cache d)) -> cached m d = (Ret a, d') -> exists c, d' = put_cache c d /\ Q a c.
Proof using.
  intros Hm. specialize (Hm (fun _ _ => False)). unfold wp, cached in *.
  destruct (m (d_cache d)) as [[b|rc|] c]; [|done..]. intros [= <- <-]. by exists c.
Qed.

Lemma step_inv B st st' : gpu_inv B st -> gpu_step st st' -> gpu_inv B st'.
Proof using WL.
  intros [Hok Hl] Hs. destruct Hs as [T d chain w d' Hch Hfew Hho Hrun|T d d' Hrun|T d main gpa len p d' Hg Hlen Hrun|
    T d gpa len p t d' Hg Hlen Hrun|T T' t d d' HT Hrun|T d m|T d]; cbn [fst snd] in *; unfold gpu_inv; cbn [fst snd].
  - pose proof (wp_serve B T d chain (fun _ _ => False) Hok Hch Hfew Hho) as Hw. unfold wp in Hw. rewrite Hrun in Hw.
    destruct Hw as (Hok' & Hs' & _). by rewrite Hs'.
  - destruct (run_cached _ _ _ _ _ (fun X => wp_sweep B T (d_cache d) X (proj1 Hok)) Hrun) as (c & -> & Hok' & Hsh & _).
    destruct Hok as (Hok & Hw & Hr & Hb). unfold gpu_ok. cbn. rewrite (sh_setup _ _ Hsh). split; [|done].
    split_and!; try done. refine (shrunk_backed B T (set_clock (u64 (g_slice_clock (d_cache d) + 1)) (d_cache d)) c _ _ Hsh _);
      [by apply cache_clock|exact Hb].
  - destruct (run_cached _ _ _ _ _ (fun X => wp_resolve_gpa B T (d_cache d) main gpa len X (proj1 Hok) Hg Hlen) Hrun)
      as (c & -> & Hok' & Hgr & _). split; [|cbn; by rewrite (gr_setup _ _ Hgr)].
    eapply inv_cache; [exact Hok|exact Hok'|by apply grown_kept|apply (gr_res _ _ Hgr)].
  - destruct (run_cached _ _ _ _ _ (fun X => wp_pinned B T (d_cache d) gpa len X (proj1 Hok) Hg Hlen) Hrun)
      as (c & -> & Hk & Er & Hc). cbn [fst snd] in Hc. split; [|cbn; by rewrite (proj1 Hk)].
    case_decide; destruct Hc as [Hok' _]; (eapply inv_cache; [exact Hok|exact Hok'|exact Hk|exact Er]).
  - destruct (run_cached _ _ _ _ _ (fun X => wp_unpin B T T' (d_cache d) t X (proj1 Hok) HT Hl) Hrun)
      as (c & -> & Hok' & Hk & Er). split; [|cbn; by rewrite (proj1 Hk)]. eapply inv_cache; [exact Hok|exact Hok'|exact Hk|exact Er].
  - done.
  - done.
Qed.

Lemma run_inv B st st' : rtc gpu_step st st' -> gpu_inv B st -> gpu_inv B st'.
Proof using WL. induction 1; [done|]. intros Hi. apply IHrtc. by eapply step_inv. Qed.

(** ** What holds *)

(** Where a host pointer leads: into the shared view, or into a slice on the
    list that the driver still maps and that somebody pins. *)
Definition live_memory c (i : iovec) : Prop := exists gpa,
  in_view c gpa (iov_len i) (iov_base i) \/
  exists a n, a ∈ g_slices c /\ c_nodes c !! a = Some n /\ range n ∈ driver_ranges (c_env c) /\ 0 < pins n /\
    r_pa (range n) <= gpa /\ gpa + iov_len i <= r_pa (range n) + r_bytes (range n) /\
    iov_base i = r_user_va (range n) + (gpa - r_pa (range n)).

Lemma inv_live B T d id l i : gpu_ok B T d -> holds d id l -> i ∈ l -> live_memory (d_cache d) i.
Proof using.
  intros (Hok & _ & _ & Hb) Hh Hi. destruct (Hb id l Hh) as [_ Hf]. rewrite Forall_forall in Hf.
  destruct (Hf i Hi) as (gpa & [Hv|(a & Ha & n & Hn & Hlo & Hhi & Hp)]); exists gpa; [by left|right]. exists a, n.
  assert (a ∈ refs (d_cache d) T) as Hr.
  { unfold refs. apply elem_of_app. left. unfold res_slices in Ha.
    destruct (slot_of _ id) as [k|]; [|by apply elem_of_nil in Ha].
    destruct (g_res_pins (d_cache d) !! k) as [p|] eqn:Hpk; [|by apply elem_of_nil in Ha]. apply list_elem_of_bind.
    exists p. split; [exact Ha|]. by eapply list_elem_of_lookup_2. }
  split; [apply (co_nodes _ _ _ Hok); by eexists|]. split; [done|]. split; [apply (co_range _ _ _ Hok a n Hn)|].
  split; [rewrite (co_pins _ _ _ Hok a n Hn); by apply occ_in|done].
Qed.

(** C6: While every request served is [honest], so that it attaches backing only
    to a resource that has none and gives GET_CAPSET a buffer that holds the
    capset, and the table of pins has room: however requests, sweeps, the pins of
    other threads and the guest's writes follow each other, every iovec the
    renderer holds leads into guest memory that is still mapped, through the
    shared view or a pinned slice of the list, and the daemon never maps more
    than its bound. Of a guest that attaches backing a second time this is false
    of the code ([DemoGpu.refused_attach_unpins]). *)
Theorem iovecs_stay_mapped B d0 T d :
  gpu_start B d0 -> rtc gpu_step ([], d0) (T, d) ->
  g_slice_bytes (d_cache d) <= B /\
  forall id l i, holds d id l -> i ∈ l -> live_memory (d_cache d) i.
Proof using WL.
  intros Hs Hr. destruct (run_inv B _ _ Hr (start_inv B d0 Hs)) as [Hok _]. cbn [fst snd] in Hok. split.
  - apply (co_bound _ _ _ (proj1 Hok)).
  - intros id l i. by apply (inv_live B T).
Qed.

(** C8: Serving an [honest] request returns, with room in the table of pins and
    whatever else the request holds; it writes no memory but its reply, the pages
    the guest gave its resources and what the renderer owns. With room for both
    headers the reply has the case's type and, when the request is fenced, the
    echo of its fence; the chain is to be parked when a Venus context's fence was
    taken. Honest means that backing is attached only to a resource that has none
    and that a GET_CAPSET has room for the capset; of a GET_CAPSET without that
    room the theorem is false, the code writes past the reply
    ([DemoGpu.capset_overruns_reply]). *)
Theorem serve_answers B d0 T d chain :
  gpu_start B d0 -> rtc gpu_step ([], d0) (T, d) -> chain_ok chain -> few_slots d -> honest chain d ->
  exists w d', serve chain d = (Ret w, d') /\
    (forall x, d_mem d' x <> d_mem d x -> may_write chain d x) /\
    if has_room chain then answered chain d w d' else w = 0 /\ d_mem d' = d_mem d.
Proof using WL.
  intros Hs Hr Hch Hfew Hho. destruct (run_inv B _ _ Hr (start_inv B d0 Hs)) as [Hok _]. cbn [fst snd] in Hok.
  destruct (wp_total _ _ _ (wp_serve B T d chain _ Hok Hch Hfew Hho)) as (w & d' & Hrun & _ & _ & Hmem & Ha).
  by exists w, d'.
Qed.

(** C27: A sweep keeps every pinned slice, and of the others the ones used last:
    a slice that went was not used after one that stayed. It ends with the
    mapped bytes below the cap, or down to the cap less the headroom, or with
    every slice pinned. *)
Theorem sweep_evicts_coldest B d0 T d :
  gpu_start B d0 -> rtc gpu_step ([], d0) (T, d) ->
  exists c, sweep (d_cache d) = (Ret tt, c) /\
    shrunk (set_clock (u64 (g_slice_clock (d_cache d) + 1)) (d_cache d)) c /\
    (g_slice_bytes c < g_kmap_cap_bytes (c_budget c) \/
     g_slice_bytes c <= u64 (g_kmap_cap_bytes (c_budget c) - KMAP_EVICT_HEADROOM_BYTES) \/ all_pinned c).
Proof using WL.
  intros Hs Hr. destruct (run_inv B _ _ Hr (start_inv B d0 Hs)) as [Hok Hl]. cbn [fst snd] in Hok, Hl.
  destruct (wp_total _ _ _ (wp_sweep B T (d_cache d) _ (proj1 Hok))) as ([] & c & Hrun & _ & Hsh & Hend).
  exists c. split; [done|]. split; [done|]. by apply Hend.
Qed.

(** C26: Attaching backing either refuses, or gives the renderer iovecs that are
    exactly the guest addresses of the request's entries, in order, cut where a
    mapping ends; each is pinned for the resource or in the shared view. *)
Theorem attach_covers_entries B d0 T d chain :
  gpu_start B d0 -> rtc gpu_step ([], d0) (T, d) -> chain_ok chain -> few_slots d -> fresh d (asks d chain 0) ->
  exists r d', attach_backing chain d = (Ret r, d') /\
    (r = err \/ r = ok /\ exists runs, attached d' (asks d chain 0) runs /\
       flat runs = asked_runs d chain (sizeof_hdr + 8) (asks d chain 4)).
Proof using WL.
  intros Hs Hr Hch Hfew Hf. destruct (run_inv B _ _ Hr (start_inv B d0 Hs)) as [Hok _]. cbn [fst snd] in Hok.
  destruct (wp_total _ _ _ (wp_attach_backing (fun _ => True) B T d chain _ Hok Hch Hfew Hf)) as (r & d' & Hrun & _ & Hres).
  by exists r, d'.
Qed.
End run.
