(* ===== verification/Fences.v ===== *)
(** Fences of the GPU daemon: the ring of signals and the table of parked chains
    ([os/winnt/user/cogpu-daemon/cogpu-daemon.c], [cogpu_ctx_fence_signal],
    [cogpu_park] and the parts of [main]'s loop that answer and drain).

    A chain whose fence the renderer took is answered only when the fence
    signals. Signals come from the renderer's threads through a ring of 256
    under [g_fence_lock]; the main loop empties it. [fn_log] is what happened so
    far, newest first; no function reads it. *)
From stdpp Require Import relations.
From S2P Require Import Prelude.
From S2P Require Import Rc.
From S2P Require Import Gpu.

#[local] Open Scope Z_scope.

(** A used-ring element: queue [vq], the chain's head, the bytes written. *)
Class Rings (W : Type) := { publish : Z -> Z -> Z -> W -> W }.

Record cogpu_parked := Parked {
  pk_vq : Z; pk_head : Z; pk_written : Z; pk_ctx_id : Z; pk_ring_idx : Z; pk_fence_id : Z;
}.
Record fence_sig := Sig { sg_ctx_id : Z; sg_ring_idx : Z; sg_fence_id : Z }.

Definition FENCE_SIGS : Z := 256.
Definition COGPU_PARKED : nat := 512.

(** Why a chain went out: it had no fence to wait for, the table was full, or
    this signal released it. *)
Inductive why := unfenced | table_full | released (s : fence_sig).

Inductive event :=
  | Served (vq head written : Z) (fence : option park_req)
  | Signalled (s : fence_sig)
  | Lost (s : fence_sig)
  | Published (vq head written : Z) (w : why)
  | Woken.

Section fences.
Context {W : Type} `{Rings W}.

Record fences := Fences {
  fn_state : W;
  g_fence_sig : list fence_sig;
  g_fence_sig_head : Z;
  g_fence_sig_tail : Z;
  g_fence_sig_dropped : Z;
  g_parked : list cogpu_parked;
  fn_log : list event;
}.

Abbreviation F := (M fences).

Definition put_state st f : fences :=
  Fences st (g_fence_sig f) (g_fence_sig_head f) (g_fence_sig_tail f) (g_fence_sig_dropped f) (g_parked f) (fn_log f).
Definition put_ring l h t f : fences :=
  Fences (fn_state f) l h t (g_fence_sig_dropped f) (g_parked f) (fn_log f).
Definition put_dropped n f : fences :=
  Fences (fn_state f) (g_fence_sig f) (g_fence_sig_head f) (g_fence_sig_tail f) n (g_parked f) (fn_log f).
Definition put_parked l f : fences :=
  Fences (fn_state f) (g_fence_sig f) (g_fence_sig_head f) (g_fence_sig_tail f) (g_fence_sig_dropped f) l (fn_log f).
Definition note (e : event) f : fences :=
  Fences (fn_state f) (g_fence_sig f) (g_fence_sig_head f) (g_fence_sig_tail f) (g_fence_sig_dropped f) (g_parked f)
    (e :: fn_log f).

(** The statics as [main] leaves them before its loop. *)
Definition fresh_fences (st : W) : fences :=
  Fences st (replicate (Z.to_nat FENCE_SIGS) (Sig 0 0 0)) 0 0 0 (replicate COGPU_PARKED (Parked (-1) 0 0 0 0 0)) [].

Definition cogpu_ctx_fence_signal (ctx_id ring_idx fence_id : Z) : F unit :=
  h ← gets g_fence_sig_head;
  t ← gets g_fence_sig_tail;
  let s := Sig ctx_id ring_idx fence_id in
  if u32 (h - t) <? FENCE_SIGS then
    modify (fun f => put_ring (<[Z.to_nat (h mod FENCE_SIGS) := s]> (g_fence_sig f)) (u32 (h + 1)) t f) ;;
    modify (note (Signalled s))
  else
    modify (fun f => put_dropped (s32 (g_fence_sig_dropped f + 1)) f) ;;
    modify (note (Lost s)).

Fixpoint free_park (l : list cogpu_parked) : option nat :=
  match l with
  | [] => None
  | pk :: l => if pk_vq pk <? 0 then Some 0%nat else S <$> free_park l
  end.

(** Whether there was room: the code's [0]. *)
Definition cogpu_park (pk : cogpu_parked) : F bool :=
  l ← gets g_parked;
  match free_park l with
  | Some i => modify (put_parked (<[i := pk]> l)) ;; mret true
  | None => mret false
  end.

Definition complete (vq head written : Z) (w : why) : F unit :=
  modify (fun f => put_state (publish vq head written (fn_state f)) f) ;;
  modify (note (Published vq head written w)).

(** What follows [serve] in the loop; whether it was published ([did]). *)
Definition answer (vq head written : Z) (park : option park_req) : F bool :=
  match park with
  | None => complete vq head written unfenced ;; mret true
  | Some p =>
      parked ← cogpu_park (Parked vq head written (pq_ctx_id p) (pq_ring_idx p) (pq_fence_id p));
      if parked : bool then mret false else complete vq head written table_full ;; mret true
  end.

(** Whether a signal releases a slot. *)
Definition waits (s : fence_sig) (pk : cogpu_parked) : bool :=
  negb ((pk_vq pk <? 0) || negb (pk_ctx_id pk =? sg_ctx_id s) || negb (pk_ring_idx pk =? sg_ring_idx s)
        || (sg_fence_id s <? pk_fence_id pk))%bool.

Definition vacate (pk : cogpu_parked) : cogpu_parked :=
  Parked (-1) (pk_head pk) (pk_written pk) (pk_ctx_id pk) (pk_ring_idx pk) (pk_fence_id pk).

(** The slots [p], [p + 1], ... under one signal. *)
Fixpoint release (n p : nat) (s : fence_sig) (did : bool) : F bool :=
  match n with
  | O => mret did
  | S n =>
      l ← gets g_parked;
      match l !! p with
      | None => fault
      | Some pk =>
          if negb (waits s pk) then release n (S p) s did else
          complete (pk_vq pk) (pk_head pk) (pk_written pk) (released s) ;;
          modify (put_parked (<[p := vacate pk]> l)) ;;
          release n (S p) s true
      end
  end.

Definition sig_at (l : list fence_sig) (k : Z) : fence_sig := default (Sig 0 0 0) (l !! Z.to_nat (k mod FENCE_SIGS)).

(** One turn of the draining loop. *)
Definition drain_step (did : bool) : F (bool + bool) :=
  t ← gets g_fence_sig_tail;
  h ← gets g_fence_sig_head;
  if t =? h then mret (inr did) else
  l ← gets g_fence_sig;
  modify (put_ring l h (u32 (t + 1))) ;;
  did ← release COGPU_PARKED 0 (sig_at l t) did;
  mret (inl did).

Definition drain (did : bool) : F bool := mloop drain_step did.

(** ** The component's steps

    [hand] is the chain that was served and not answered yet. The pieces of the
    loop follow each other on one thread; signals come at any time, and what
    lies under the rings changes as it likes. *)
Definition in_hand : Type := option (Z * Z * Z * option park_req).

Definition served (vq head written : Z) (park : option park_req) (st : W) f : fences :=
  note (Served vq head written park) (put_state st f).

Inductive fence_step : in_hand * fences -> in_hand * fences -> Prop :=
  | fence_serve vq head written park st f :
      0 <= vq -> fence_step (None, f) (Some (vq, head, written, park), served vq head written park st f)
  | fence_answer vq head written park f did f' :
      answer vq head written park f = (Ret did, f') ->
      fence_step (Some (vq, head, written, park), f) (None, f')
  | fence_drain did f did' f' : drain did f = (Ret did', f') -> fence_step (None, f) (None, f')
  | fence_signal hand f ctx_id ring_idx fence_id f' :
      cogpu_ctx_fence_signal ctx_id ring_idx fence_id f = (Ret tt, f') -> fence_step (hand, f) (hand, f')
  | fence_report f : fence_step (None, f) (None, put_dropped 0 f)
  | fence_wake f : fence_step (None, f) (None, note Woken f)
  | fence_other hand f st : fence_step (hand, f) (hand, put_state st f).
End fences.

(** ** What they promise

    The ring is a bounded queue, every
    chain goes out once, and a parked one only by a signal of its fence. *)

#[local] Open Scope Z_scope.

Section fences_ok.
Context {W : Type} `{Rings W}.
Implicit Types (f : @fences W) (s : fence_sig) (pk : cogpu_parked) (l : list cogpu_parked).
Abbreviation F := (M (@fences W)).

(** ** The ring as a queue *)

Definition ring_count f : Z := u32 (g_fence_sig_head f - g_fence_sig_tail f).
Definition pending f : list fence_sig :=
  (fun k => sig_at (g_fence_sig f) (g_fence_sig_tail f + k)) <$> seqZ 0 (ring_count f).

Record ring_ok f : Prop := {
  ro_length : Z.of_nat (length (g_fence_sig f)) = FENCE_SIGS;
  ro_head : 0 <= g_fence_sig_head f < 2 ^ 32;
  ro_tail : 0 <= g_fence_sig_tail f < 2 ^ 32;
  ro_count : ring_count f <= FENCE_SIGS;
  ro_parked : length (g_parked f) = COGPU_PARKED;
}.

Lemma mod_u32 x : u32 x mod FENCE_SIGS = x mod FENCE_SIGS.
Proof using. unfold u32, FENCE_SIGS. apply Z.mod_mod_divide. by exists (2 ^ 24). Qed.

Lemma sig_at_u32 (q : list fence_sig) x k : sig_at q (u32 x + k) = sig_at q (x + k).
Proof using. unfold sig_at. by rewrite Z.add_mod, mod_u32, <- Z.add_mod. Qed.

Lemma length_pending f : Z.of_nat (length (pending f)) = ring_count f.
Proof using. unfold pending. rewrite length_fmap, length_seqZ. pose proof (u32_range (g_fence_sig_head f - g_fence_sig_tail f)). unfold ring_count. lia. Qed.

Lemma pending_empty f : ring_ok f -> pending f = [] <-> g_fence_sig_tail f = g_fence_sig_head f.
Proof using.
  intros [_ Hh Ht _ _]. rewrite <- length_zero_iff_nil. pose proof (length_pending f) as Hl. unfold ring_count in Hl.
  split; intros Hx; [|rewrite Hx, Z.sub_diag in Hl; change (u32 0) with 0 in Hl; lia].
  rewrite Hx in Hl. zwrap.
Qed.

(** Taking the oldest signal out. *)
Definition shift_ring f : fences := put_ring (g_fence_sig f) (g_fence_sig_head f) (u32 (g_fence_sig_tail f + 1)) f.

Lemma shift_count f : ring_ok f -> g_fence_sig_tail f <> g_fence_sig_head f -> ring_count (shift_ring f) = ring_count f - 1.
Proof using. intros [_ Hh Ht _ _] Hne. unfold ring_count, shift_ring. cbn. zwrap. Qed.

Lemma pending_shift f :
  ring_ok f -> g_fence_sig_tail f <> g_fence_sig_head f ->
  pending f = sig_at (g_fence_sig f) (g_fence_sig_tail f) :: pending (shift_ring f).
Proof using.
  intros Hok Hne. pose proof (shift_count f Hok Hne) as Hc. unfold pending. rewrite Hc.
  assert (0 < ring_count f) as Hpos.
  { destruct Hok as [_ Hh Ht _ _]. unfold ring_count. zwrap. }
  rewrite (seqZ_cons 0 (ring_count f)) by lia. cbn [fmap list_fmap]. rewrite Z.add_0_r. f_equal.
  rewrite Z.sub_1_r. change (Z.succ 0) with (1 + 0). rewrite <- fmap_add_seqZ, <- list_fmap_compose.
  apply list_fmap_ext. intros _ k _. cbn. by rewrite sig_at_u32, Z.add_assoc.
Qed.

(** Putting a new one in. *)
Definition push_ring s f : fences :=
  put_ring (<[Z.to_nat (g_fence_sig_head f mod FENCE_SIGS) := s]> (g_fence_sig f)) (u32 (g_fence_sig_head f + 1))
    (g_fence_sig_tail f) f.

Lemma sig_at_insert (q : list fence_sig) s x y :
  Z.of_nat (length q) = FENCE_SIGS ->
  sig_at (<[Z.to_nat (x mod FENCE_SIGS) := s]> q) y = if decide (y mod FENCE_SIGS = x mod FENCE_SIGS) then s else sig_at q y.
Proof using.
  intros Hl. unfold sig_at. pose proof (Z.mod_pos_bound x FENCE_SIGS eq_refl). pose proof (Z.mod_pos_bound y FENCE_SIGS eq_refl).
  case_decide as Hd.
  - rewrite Hd, list_lookup_insert_eq by lia. done.
  - rewrite list_lookup_insert_ne by lia. done.
Qed.

Lemma pending_push s f : ring_ok f -> ring_count f < FENCE_SIGS -> pending (push_ring s f) = pending f ++ [s].
Proof using.
  intros [Hl Hh Ht _ _] Hc. assert (ring_count (push_ring s f) = ring_count f + 1) as Hc'.
  { unfold ring_count, push_ring in *. cbn. unfold FENCE_SIGS in *. zwrap. }
  unfold pending. rewrite Hc'. pose proof (u32_range (g_fence_sig_head f - g_fence_sig_tail f)) as Hr. fold (ring_count f) in Hr.
  rewrite seqZ_app, fmap_app by lia. f_equal.
  - apply list_fmap_ext. intros _ k Hk%list_elem_of_lookup_2%elem_of_seqZ. cbn [push_ring put_ring g_fence_sig g_fence_sig_tail]. rewrite sig_at_insert by done.
    rewrite decide_False; [done|]. unfold ring_count, FENCE_SIGS in *. zwrap.
  - rewrite seqZ_cons, seqZ_nil by lia. cbn [fmap list_fmap push_ring put_ring g_fence_sig g_fence_sig_tail].
    rewrite sig_at_insert by done. rewrite decide_True; [done|]. unfold ring_count, FENCE_SIGS in *. zwrap.
Qed.

Lemma ring_push_ok s f : ring_ok f -> ring_count f < FENCE_SIGS -> ring_ok (push_ring s f).
Proof using.
  intros [Hl Hh Ht Hc Hp] Hlt. split; cbn; try done; [by rewrite length_insert|apply u32_range|].
  unfold ring_count, push_ring in *. cbn. unfold FENCE_SIGS in *. zwrap.
Qed.

Lemma ring_shift_ok f : ring_ok f -> g_fence_sig_tail f <> g_fence_sig_head f -> ring_ok (shift_ring f).
Proof using. intros Hok Hne. pose proof (shift_count f Hok Hne). destruct Hok. split; try done; [apply u32_range|lia]. Qed.

(** ** What a signal does to the table *)

Definition out_of s f : list cogpu_parked := filter (waits s) (g_parked f).
Definition after s pk : cogpu_parked := if waits s pk then vacate pk else pk.
Definition send s f pk : fences :=
  note (Published (pk_vq pk) (pk_head pk) (pk_written pk) (released s))
    (put_state (publish (pk_vq pk) (pk_head pk) (pk_written pk) (fn_state f)) f).
Definition send_all s (out : list cogpu_parked) f : fences := foldl (send s) f out.

(** The parked chains [s] is for go out, in the order of the table. *)
Definition deliver f s : fences := put_parked (after s <$> g_parked f) (send_all s (out_of s f) f).

Lemma send_all_parked s out l f : send_all s out (put_parked l f) = put_parked l (send_all s out f).
Proof using. revert f. induction out as [|pk out IH]; intros f; [done|]. exact (IH (send s f pk)). Qed.

Lemma send_all_same s out f :
  g_parked (send_all s out f) = g_parked f /\ g_fence_sig (send_all s out f) = g_fence_sig f /\
  g_fence_sig_head (send_all s out f) = g_fence_sig_head f /\ g_fence_sig_tail (send_all s out f) = g_fence_sig_tail f.
Proof using. revert f. induction out as [|pk out IH]; intros f; [done|]. exact (IH (send s f pk)). Qed.

Lemma release_run s pre rest did f :
  g_parked f = pre ++ rest ->
  release (length rest) (length pre) s did f =
    (Ret (did || existsb (waits s) rest)%bool,
     put_parked (pre ++ (after s <$> rest)) (send_all s (filter (waits s) rest) f)).
Proof using.
  revert pre did f. induction rest as [|pk rest IH]; intros pre did f Hl; cbn [release length existsb].
  { rewrite orb_false_r, app_nil_r in *. unfold mret, M_ret. cbn. rewrite <- Hl. by destruct f. }
  unfold mbind at 1, M_bind at 1, gets at 1. rewrite Hl, list_lookup_middle by done.
  assert (length (pre ++ [after s pk]) = S (length pre)) as Hlen by (rewrite length_app; cbn; lia).
  cbn [fmap list_fmap]. destruct (waits s pk) eqn:Hw; cbn [negb orb].
  - rewrite filter_cons_True by (by rewrite Hw). rewrite <- Hlen, orb_true_r.
    change (release (length rest) (length (pre ++ [after s pk])) s true (put_parked (<[length pre := vacate pk]> (pre ++ pk :: rest)) (send s f pk)) =
      (Ret true, put_parked (pre ++ after s pk :: (after s <$> rest)) (send_all s (filter (waits s) rest) (send s f pk)))).
    rewrite (IH (pre ++ [after s pk]) true).
    + by rewrite <- app_assoc, send_all_parked.
    + cbn. unfold after. rewrite Hw, <- app_assoc. by rewrite insert_app_r_alt, Nat.sub_diag by lia.
  - rewrite filter_cons_False by (rewrite Hw; by intros []). rewrite <- Hlen, (IH (pre ++ [after s pk]) did).
    + by rewrite <- app_assoc.
    + unfold after. by rewrite Hw, <- app_assoc.
Qed.

Lemma release_deliver s did f :
  length (g_parked f) = COGPU_PARKED ->
  release COGPU_PARKED 0 s did f = (Ret (did || existsb (waits s) (g_parked f))%bool, deliver f s).
Proof using. intros Hl. rewrite <- Hl. exact (release_run s [] (g_parked f) did f eq_refl). Qed.

Lemma deliver_same f s :
  g_fence_sig (deliver f s) = g_fence_sig f /\ g_fence_sig_head (deliver f s) = g_fence_sig_head f /\
  g_fence_sig_tail (deliver f s) = g_fence_sig_tail f.
Proof using. unfold deliver. cbn. by destruct (send_all_same s (out_of s f) f) as (_ & -> & -> & ->). Qed.

Lemma deliver_ring_ok f s : ring_ok f -> ring_ok (deliver f s).
Proof using.
  intros [Hl Hh Ht Hc Hp]. destruct (deliver_same f s) as (E1 & E2 & E3). split; unfold ring_count; rewrite ?E1, ?E2, ?E3; try done.
  unfold deliver. cbn. by rewrite length_fmap.
Qed.

Lemma pending_deliver f s : pending (deliver f s) = pending f.
Proof using. unfold pending, ring_count. by destruct (deliver_same f s) as (-> & -> & ->). Qed.

Lemma send_all_ring s out q h t f : send_all s out (put_ring q h t f) = put_ring q h t (send_all s out f).
Proof using. revert f. induction out as [|pk out IH]; intros f; [done|]. exact (IH (send s f pk)). Qed.

Lemma deliver_ring q h t f s : deliver (put_ring q h t f) s = put_ring q h t (deliver f s).
Proof using. unfold deliver, out_of. cbn [g_parked put_ring]. by rewrite send_all_ring. Qed.

(** What draining is for: every signal that is pending delivered, in order. *)
Definition drained f : fences :=
  foldl deliver (put_ring (g_fence_sig f) (g_fence_sig_head f) (g_fence_sig_head f) f) (pending f).

Lemma drained_step f :
  ring_ok f -> g_fence_sig_tail f <> g_fence_sig_head f ->
  drained f = drained (deliver (shift_ring f) (sig_at (g_fence_sig f) (g_fence_sig_tail f))).
Proof using.
  intros Hok Hne. unfold drained. rewrite (pending_shift f Hok Hne), pending_deliver. cbn [foldl]. f_equal.
  destruct (deliver_same (shift_ring f) (sig_at (g_fence_sig f) (g_fence_sig_tail f))) as (-> & -> & _).
  by rewrite <- deliver_ring.
Qed.

Lemma filter_none (p : cogpu_parked -> bool) l : existsb p l = false -> filter p l = [].
Proof using.
  induction l as [|pk l IH]; [done|]. cbn [existsb]. intros [Hp Hl]%orb_false_iff.
  rewrite filter_cons_False by (rewrite Hp; by intros []). by apply IH.
Qed.

Lemma deliver_quiet f s : existsb (waits s) (g_parked f) = false -> fn_log (deliver f s) = fn_log f.
Proof using. intros Hx. unfold deliver, out_of. by rewrite filter_none. Qed.

Lemma wp_drain did f (X : co_rc_value_t -> fences -> Prop) :
  ring_ok f ->
  wp (drain did) (fun did' f' => f' = drained f /\ (did' = false -> did = false /\ fn_log f' = fn_log f)) X f.
Proof using.
  intros Hok. apply (wp_mloop drain_step (fun did' f' => ring_ok f' /\ drained f' = drained f /\
    (did' = false -> did = false /\ fn_log f' = fn_log f)) (fun _ f' => ring_count f')).
  - clear Hok. intros did' f' (Hok & Hd & Hq). unfold drain_step. do 4 wp_step. wp_step; [wp_step|].
    + split; [|done]. rewrite <- Hd. unfold drained. rewrite (proj2 (pending_empty f' Hok)) by done.
      cbn. destruct f'. cbn in *. by subst.
    + wp_step. wp_step. wp_step. wp_step. wp_step. change (put_ring _ _ _ f') with (shift_ring f').
      pose proof (shift_count f' Hok ltac:(done)) as Hc. pose proof (ring_shift_ok f' Hok ltac:(done)) as Hok1.
      unfold wp. rewrite release_deliver by apply Hok1. cbn [mret M_ret].
      split; [split; [by apply deliver_ring_ok|split; [by rewrite <- drained_step|]]|].
      * intros [Hf1 Hf2]%orb_false_iff. destruct (Hq Hf1) as [-> Hlog]. split; [done|]. rewrite deliver_quiet by done. exact Hlog.
      * unfold ring_count at 1 2. destruct (deliver_same (shift_ring f') (sig_at (g_fence_sig f') (g_fence_sig_tail f'))) as (_ & -> & ->).
        fold (ring_count (shift_ring f')). pose proof (u32_range (g_fence_sig_head (shift_ring f') - g_fence_sig_tail (shift_ring f'))).
        fold (ring_count (shift_ring f')) in *. lia.
  - done.
  - destruct Hok as [_ _ _ Hc _]. unfold FENCE_SIGS in Hc. lia.
Qed.

Lemma signal_run c r i f :
  ring_ok f ->
  cogpu_ctx_fence_signal c r i f =
    (Ret tt, if ring_count f <? FENCE_SIGS then note (Signalled (Sig c r i)) (push_ring (Sig c r i) f)
             else note (Lost (Sig c r i)) (put_dropped (s32 (g_fence_sig_dropped f + 1)) f)).
Proof using.
  intros Hok. unfold cogpu_ctx_fence_signal, mbind, M_bind, gets. fold (ring_count f). by destruct (ring_count f <? FENCE_SIGS).
Qed.
End fences_ok.
