(* ===== verification/FencesRun.v ===== *)
(** What holds of the fences of the GPU daemon in every run. *)
From stdpp Require Import relations sorting.
From S2P Require Import Prelude.
From S2P Require Import Rc.
From S2P Require Import Gpu.
From S2P Require Import Fences.
#[local] Open Scope Z_scope.

(** ** Reading a history *)

Definition served_of (log : list event) : list (Z * Z * Z) :=
  omap (fun e => match e with Served vq head written _ => Some (vq, head, written) | _ => None end) log.
Definition published_of (log : list event) : list (Z * Z * Z) :=
  omap (fun e => match e with Published vq head written _ => Some (vq, head, written) | _ => None end) log.
Definition triple_of (pk : cogpu_parked) : Z * Z * Z := (pk_vq pk, pk_head pk, pk_written pk).
Definition parked_of (l : list cogpu_parked) : list (Z * Z * Z) := triple_of <$> filter (fun pk => 0 <= pk_vq pk) l.
Definition hand_of (hand : in_hand) : list (Z * Z * Z) :=
  match hand with Some (vq, head, written, _) => [(vq, head, written)] | None => [] end.

Definition fence_of (pk : cogpu_parked) : park_req := ParkReq (pk_ctx_id pk) (pk_ring_idx pk) (pk_fence_id pk).

(** Signals of one ring come in order: [s] stands for every fence up to it. *)
Definition covers (s : fence_sig) (p : park_req) : Prop :=
  sg_ctx_id s = pq_ctx_id p /\ sg_ring_idx s = pq_ring_idx p /\ pq_fence_id p <= sg_fence_id s.

(** Why each chain that went out could. *)
Fixpoint justified (log : list event) : Prop :=
  match log with
  | [] => True
  | e :: log =>
      match e with
      | Published vq head written unfenced => Served vq head written None ∈ log
      | Published vq head written table_full => exists p, Served vq head written (Some p) ∈ log
      | Published vq head written (released s) =>
          Signalled s ∈ log /\ exists p, Served vq head written (Some p) ∈ log /\ covers s p
      | _ => True
      end /\ justified log
  end.

(** A history in which no signal covering [p] was put in the ring since the
    chain was served, other than those of [unseen]. *)
Definition waiting (log : list event) (unseen : list fence_sig) (vq head written : Z) (p : park_req) : Prop :=
  exists later earlier, log = later ++ Served vq head written (Some p) :: earlier /\
    forall s, Signalled s ∈ later -> covers s p -> s ∈ unseen.

(** The guest numbers the fences of a ring upwards, and the renderer signals
    only fences it was given. *)
Fixpoint orderly (log : list event) : Prop :=
  match log with
  | [] => True
  | e :: log =>
      match e with
      | Served _ _ _ (Some p) => forall vq head written q, Served vq head written (Some q) ∈ log ->
          pq_ctx_id q = pq_ctx_id p -> pq_ring_idx q = pq_ring_idx p -> pq_fence_id q < pq_fence_id p
      | Signalled s => exists vq head written, Served vq head written (Some (ParkReq (sg_ctx_id s) (sg_ring_idx s) (sg_fence_id s))) ∈ log
      | _ => True
      end /\ orderly log
  end.

(** Every chain a signal let out was served before that signal came. *)
Fixpoint timely (log : list event) : Prop :=
  match log with
  | [] => True
  | e :: log =>
      match e with
      | Published vq head written (released s) => exists p l1 l2,
          log = l1 ++ Signalled s :: l2 /\ Served vq head written (Some p) ∈ l2 /\ covers s p
      | _ => True
      end /\ timely log
  end.

Section run.
Context {W : Type} `{Rings W}.
Implicit Types (f : @fences W) (s : fence_sig) (pk : cogpu_parked) (l : list cogpu_parked) (hand : in_hand).

(** The history, with the signals [unseen] still to be delivered. *)
Record history_ok (unseen : list fence_sig) hand f : Prop := {
  ho_once : served_of (fn_log f) ≡ₚ published_of (fn_log f) ++ parked_of (g_parked f) ++ hand_of hand;
  ho_signals s : s ∈ unseen -> Signalled s ∈ fn_log f;
  ho_parked pk : pk ∈ g_parked f -> 0 <= pk_vq pk ->
    waiting (fn_log f) unseen (pk_vq pk) (pk_head pk) (pk_written pk) (fence_of pk);
  ho_hand vq head written park : hand = Some (vq, head, written, park) -> 0 <= vq /\
    match park with
    | Some p => waiting (fn_log f) unseen vq head written p
    | None => Served vq head written None ∈ fn_log f
    end;
  ho_justified : justified (fn_log f);
}.

Definition fences_ok hand f : Prop := ring_ok f /\ history_ok (pending f) hand f.

Lemma waits_covers s pk : Is_true (waits s pk) <-> 0 <= pk_vq pk /\ covers s (fence_of pk).
Proof using.
  unfold waits, covers. cbn. rewrite Is_true_true, negb_true_iff, !orb_false_iff, !negb_false_iff, !Z.eqb_eq, !Z.ltb_ge. intuition congruence.
Qed.

Lemma waiting_served log unseen vq head written p : waiting log unseen vq head written p -> Served vq head written (Some p) ∈ log.
Proof using. intros (l1 & l2 & -> & _). set_solver. Qed.

(** Time passing: other events, and a signal that is still to be seen. *)
Lemma waiting_event e log unseen vq head written p :
  (forall s, e <> Signalled s) -> waiting log unseen vq head written p -> waiting (e :: log) unseen vq head written p.
Proof using.
  intros He (l1 & l2 & -> & Hs). exists (e :: l1), l2. split; [done|]. intros s [Hx|Hin]%elem_of_cons; [by destruct (He s)|by apply Hs].
Qed.

Lemma waiting_signal s log unseen vq head written p :
  waiting log unseen vq head written p -> waiting (Signalled s :: log) (unseen ++ [s]) vq head written p.
Proof using.
  intros (l1 & l2 & -> & Hs). exists (Signalled s :: l1), l2. split; [done|]. intros t [[= ->]|Hin]%elem_of_cons Hc; [set_solver|].
  specialize (Hs t Hin Hc). set_solver.
Qed.

Lemma waiting_seen s log unseen vq head written p :
  ~ covers s p -> waiting log (s :: unseen) vq head written p -> waiting log unseen vq head written p.
Proof using.
  intros Hn (l1 & l2 & -> & Hs). exists l1, l2. split; [done|]. intros t Hin Hc.
  destruct (proj1 (elem_of_cons _ _ _) (Hs t Hin Hc)) as [->|]; done.
Qed.

(** ** Delivering a signal *)

Definition sent s pk : event := Published (pk_vq pk) (pk_head pk) (pk_written pk) (released s).

Lemma deliver_log f s : fn_log (deliver f s) = rev (sent s <$> out_of s f) ++ fn_log f.
Proof using.
  unfold deliver, send_all. cbn. generalize (out_of s f). intros out. revert f. induction out as [|pk out IH]; intros f; [done|].
  cbn [foldl fmap list_fmap rev]. rewrite IH, <- app_assoc. done.
Qed.

Lemma parked_deliver s l : parked_of l ≡ₚ (triple_of <$> filter (waits s) l) ++ parked_of (after s <$> l).
Proof using.
  unfold parked_of. induction l as [|pk l IH]; [done|]. cbn [fmap list_fmap]. unfold after at 1.
  destruct (waits s pk) eqn:Hw.
  - rewrite (filter_cons_True (waits s)) by (by rewrite Hw).
    destruct (proj1 (waits_covers s pk) ltac:(by rewrite Hw)) as [Hp _]. rewrite filter_cons_True by done.
    rewrite (filter_cons_False _ (vacate pk)) by (cbn; lia). cbn. by rewrite IH.
  - rewrite (filter_cons_False (waits s)) by (rewrite Hw; by intros []). destruct (decide (0 <= pk_vq pk)).
    + rewrite !filter_cons_True by done. cbn. rewrite IH. by rewrite Permutation_middle.
    + by rewrite !filter_cons_False by done.
Qed.

Lemma published_rev s out log : published_of (rev (sent s <$> out) ++ log) ≡ₚ (triple_of <$> out) ++ published_of log.
Proof using.
  revert log. induction out as [|pk out IH]; intros log; [done|]. cbn [fmap list_fmap rev]. rewrite <- app_assoc, IH.
  cbn. by rewrite <- Permutation_middle.
Qed.

Lemma served_rev s out log : served_of (rev (sent s <$> out) ++ log) = served_of log.
Proof using. revert log. induction out as [|pk out IH]; intros log; [done|]. cbn [fmap list_fmap rev]. by rewrite <- app_assoc, IH. Qed.

Lemma elem_rev_sent e s out log : e ∈ log -> e ∈ rev (sent s <$> out) ++ log.
Proof using. intros He. apply elem_of_app. by right. Qed.

Lemma waiting_rev s out log unseen vq head written p :
  waiting log unseen vq head written p -> waiting (rev (sent s <$> out) ++ log) unseen vq head written p.
Proof using.
  revert log. induction out as [|pk out IH]; intros log Hw; [done|]. cbn [fmap list_fmap rev]. rewrite <- app_assoc.
  apply IH. cbn. by apply waiting_event.
Qed.

Lemma justified_rev s out log :
  Signalled s ∈ log ->
  (forall pk, pk ∈ out -> exists p, Served (pk_vq pk) (pk_head pk) (pk_written pk) (Some p) ∈ log /\ covers s p) ->
  justified log -> justified (rev (sent s <$> out) ++ log).
Proof using.
  revert log. induction out as [|pk out IH]; intros log Hs Hout Hj; [done|]. cbn [fmap list_fmap rev]. rewrite <- app_assoc.
  apply IH; cbn [app].
  - by apply elem_of_cons; right.
  - intros pk' Hpk. destruct (Hout pk') as (p & Hp & Hc); [by apply elem_of_cons; right|]. exists p. split; [|done].
    by apply elem_of_cons; right.
  - split; [|done]. split; [done|]. apply Hout. by apply elem_of_cons; left.
Qed.

Lemma deliver_ok s unseen f : history_ok (s :: unseen) None f -> history_ok unseen None (deliver f s).
Proof using.
  intros [Ho Hs Hp _ Hj]. split.
  - rewrite deliver_log, served_rev, published_rev, Ho. cbn [deliver g_parked put_parked]. rewrite (parked_deliver s (g_parked f)).
    rewrite !app_assoc. do 2 f_equiv. apply Permutation_app_comm.
  - intros t Ht. rewrite deliver_log. apply elem_rev_sent, Hs. by apply elem_of_cons; right.
  - intros pk Hpk Hv. rewrite deliver_log. apply waiting_rev. cbn [deliver g_parked put_parked] in Hpk.
    apply list_elem_of_fmap in Hpk as (pk0 & -> & Hpk0). unfold after in *. destruct (waits s pk0) eqn:Hw; [cbn in Hv; lia|].
    apply (waiting_seen s); [|by apply Hp]. intros Hc. enough (Is_true (waits s pk0)) by (rewrite Hw in *; done). by apply waits_covers.
  - done.
  - rewrite deliver_log. apply justified_rev; [apply Hs; set_solver| |done]. intros pk [Hw Hpk]%list_elem_of_filter.
    apply waits_covers in Hw as [Hv Hc]. exists (fence_of pk). split; [|done]. by eapply waiting_served, Hp.
Qed.

Lemma deliver_all_ok unseen f : history_ok unseen None f -> history_ok [] None (foldl deliver f unseen).
Proof using. revert f. induction unseen as [|s unseen IH]; intros f Hf; [done|]. cbn. by apply IH, deliver_ok. Qed.

Lemma drained_ring f : ring_ok f -> ring_ok (drained f) /\ pending (drained f) = [].
Proof using.
  intros Hr. unfold drained. set (f0 := put_ring _ _ _ f). assert (ring_ok f0) as Hr0.
  { destruct Hr. unfold f0. split; try done. unfold ring_count. cbn. by rewrite Z.sub_diag. }
  assert (pending f0 = []) as Hp0 by by apply pending_empty. clearbody f0. generalize (pending f) as q. intros q. revert f0 Hr0 Hp0.
  induction q as [|s q IH]; intros f0 Hr0 Hp0; [done|]. cbn. apply IH; [by apply deliver_ring_ok|by rewrite pending_deliver].
Qed.

Lemma drained_ok f : fences_ok None f -> fences_ok None (drained f).
Proof using.
  intros [Hr Hh]. destruct (drained_ring f Hr) as [Hr' Hp]. split; [done|]. rewrite Hp. apply deliver_all_ok. by destruct Hh.
Qed.

(** ** The steps *)

Lemma signal_ok c r i hand f :
  fences_ok hand f -> wp (cogpu_ctx_fence_signal c r i) (fun _ f' => fences_ok hand f') (fun _ _ => False) f.
Proof using.
  intros [Hr [Ho Hs Hp Hh Hj]]. unfold wp. rewrite signal_run by done. destruct (ring_count f <? FENCE_SIGS) eqn:Hc; zbool.
  - pose proof (pending_push (Sig c r i) f Hr Hc) as Hpend. split; [by destruct (ring_push_ok (Sig c r i) f Hr Hc)|].
    change (pending (note _ ?g)) with (pending g). rewrite Hpend. split; cbn; try done.
    + intros s [Hin| ->%list_elem_of_singleton]%elem_of_app; apply elem_of_cons; [right; by apply Hs|by left].
    + intros pk Hpk Hv. by apply waiting_signal, Hp.
    + intros vq head written park Hx. destruct (Hh _ _ _ _ Hx) as [Hv Hw]. split; [done|]. destruct park as [p|].
      * by apply waiting_signal.
      * by apply elem_of_cons; right.
  - split; [by destruct Hr|]. change (pending (note _ (put_dropped _ f))) with (pending f). split; cbn; try done.
    + intros s Hin. apply elem_of_cons. right. by apply Hs.
    + intros pk Hpk Hv. apply waiting_event; [done|]. by apply Hp.
    + intros vq head written park Hx. destruct (Hh _ _ _ _ Hx) as [Hv Hw]. split; [done|]. destruct park as [p|].
      * by apply waiting_event.
      * by apply elem_of_cons; right.
Qed.

Lemma serve_ok vq head written park st f :
  0 <= vq -> fences_ok None f -> fences_ok (Some (vq, head, written, park)) (served vq head written park st f).
Proof using.
  intros Hvq [Hr [Ho Hs Hp _ Hj]]. split; [by destruct Hr|]. change (pending (served _ _ _ _ _ f)) with (pending f). split; cbn.
  - rewrite Ho. cbn. rewrite app_nil_r, app_assoc. apply Permutation_cons_append.
  - intros s Hin. apply elem_of_cons. right. by apply Hs.
  - intros pk Hpk Hv. apply waiting_event; [done|]. by apply Hp.
  - intros v h w pk [= <- <- <- <-]. split; [done|]. destruct park as [p|].
    + exists [], (fn_log f). split; [done|]. by intros s ?%elem_of_nil.
    + apply elem_of_cons. by left.
  - done.
Qed.

Lemma free_park_spec l :
  match free_park l with
  | Some i => exists pk, l !! i = Some pk /\ pk_vq pk < 0
  | None => Forall (fun pk => 0 <= pk_vq pk) l
  end.
Proof using.
  induction l as [|pk l IH]; cbn; [constructor|]. destruct (pk_vq pk <? 0) eqn:Hv; zbool; [by exists pk|].
  destruct (free_park l); cbn; [done|by constructor].
Qed.

Lemma parked_insert l i old pk :
  l !! i = Some old -> pk_vq old < 0 -> 0 <= pk_vq pk -> parked_of (<[i := pk]> l) ≡ₚ triple_of pk :: parked_of l.
Proof using.
  intros Hi Hold Hpk. pose proof (lookup_lt_Some _ _ _ Hi) as Hlt. rewrite insert_take_drop by done.
  rewrite <- (take_drop_middle l i old) at 3 by done. unfold parked_of. rewrite !filter_app, !fmap_app.
  rewrite filter_cons_True by done. rewrite (filter_cons_False _ old) by lia. cbn. by rewrite Permutation_middle.
Qed.

Lemma complete_ok vq head written park w f :
  (match w with
   | unfenced => park = None
   | table_full => park <> None
   | released _ => False
   end) ->
  fences_ok (Some (vq, head, written, park)) f ->
  wp (complete vq head written w) (fun _ f' => fences_ok None f' /\ fn_log f' = Published vq head written w :: fn_log f)
    (fun _ _ => False) f.
Proof using.
  intros Hw [Hr [Ho Hs Hp Hh Hj]]. destruct (Hh _ _ _ _ eq_refl) as [Hv Hpark]. unfold complete. do 3 wp_step. split; [|done].
  split; [by destruct Hr|]. change (pending (note _ (put_state _ f))) with (pending f). split; cbn; try done.
  - rewrite Ho. cbn. rewrite app_nil_r, app_assoc. symmetry. apply Permutation_cons_append.
  - intros s Hin. apply elem_of_cons. right. by apply Hs.
  - intros pk Hpk Hvq. apply waiting_event; [done|]. by apply Hp.
  - split; [|done]. destruct w, park; try done. eexists. by eapply waiting_served.
Qed.

Lemma answer_ok vq head written park f :
  fences_ok (Some (vq, head, written, park)) f ->
  wp (answer vq head written park)
    (fun did f' => fences_ok None f' /\ (did = false -> fn_log f' = fn_log f)) (fun _ _ => False) f.
Proof using.
  intros Hok. unfold answer. destruct park as [p|].
  - unfold cogpu_park. do 3 wp_step. pose proof (free_park_spec (g_parked f)) as Hfree. destruct (free_park (g_parked f)) as [i|].
    + do 4 wp_step. split; [|done]. destruct Hfree as (old & Hi & Hold).
      destruct Hok as [Hr [Ho Hs Hp Hh Hj]]. destruct (Hh _ _ _ _ eq_refl) as [Hv Hpark].
      split; [destruct Hr; split; cbn; try done; by rewrite length_insert|].
      change (pending (put_parked _ f)) with (pending f). split; cbn [put_parked fn_log g_parked hand_of]; try done.
      * rewrite Ho, (parked_insert _ _ _ (Parked vq head written (pq_ctx_id p) (pq_ring_idx p) (pq_fence_id p)) Hi Hold) by done.
        cbn [hand_of]. rewrite app_nil_r. by rewrite <- Permutation_cons_append.
      * intros pk Hpk Hvq. apply list_elem_of_lookup in Hpk as [j Hj']. destruct (decide (i = j)) as [<-|Hne].
        -- rewrite list_lookup_insert_eq in Hj' by (by eapply lookup_lt_Some). injection Hj' as <-. cbn. by destruct p.
        -- rewrite list_lookup_insert_ne in Hj' by done. apply Hp; [by eapply list_elem_of_lookup_2|done].
    + do 2 wp_step. eapply wp_mono; [by eapply (complete_ok vq head written (Some p))| |done]. intros [] f' [Hf' _]. wp_step. done.
  - wp_step. eapply wp_mono; [by eapply (complete_ok vq head written None)| |done]. intros [] f' [Hf' _]. wp_step. done.
Qed.

Lemma fresh_ok st : fences_ok None (fresh_fences st).
Proof using.
  assert (ring_ok (fresh_fences st)) as Hr by by split. split; [done|]. rewrite (proj2 (pending_empty _ Hr)) by done.
  split; cbn [fresh_fences fn_log g_parked hand_of]; try done.
  - by intros s ?%elem_of_nil.
  - intros pk Hpk%elem_of_replicate Hv. destruct Hpk as [-> _]. cbn in Hv. lia.
Qed.

(** What a run that returned has, given what every run of it has. *)
Lemma wp_ran {V A} (m : M V A) (Q : A -> V -> Prop) (X : co_rc_value_t -> V -> Prop) v a v' :
  wp m Q X v -> m v = (Ret a, v') -> Q a v'.
Proof using. unfold wp. intros Hw Hm. by rewrite Hm in Hw. Qed.

Lemma fence_step_ok x y : fence_step x y -> fences_ok x.1 x.2 -> fences_ok y.1 y.2.
Proof using.
  intros Hs. destruct Hs as [vq head written park st f Hvq|vq head written park f did f' Hrun|did f did' f' Hrun|
    hand f c r i f' Hrun|f|f|hand f st]; cbn [fst snd]; intros Hok.
  - by apply serve_ok.
  - exact (proj1 (wp_ran _ _ _ _ _ _ (answer_ok _ _ _ _ _ Hok) Hrun)).
  - destruct (wp_ran _ _ _ _ _ _ (wp_drain did f (fun _ _ => False) (proj1 Hok)) Hrun) as [-> _]. by apply drained_ok.
  - exact (wp_ran _ _ _ _ _ _ (signal_ok c r i hand f Hok) Hrun).
  - destruct Hok as [Hr Hh]. split; [by destruct Hr|]. by destruct Hh.
  - destruct Hok as [Hr [Ho Hs Hp Hh Hj]]. split; [by destruct Hr|]. change (pending (note Woken f)) with (pending f).
    split; cbn; try done.
    + intros s Hin. apply elem_of_cons. right. by apply Hs.
    + intros pk Hpk Hv. apply waiting_event; [done|]. by apply Hp.
  - destruct Hok as [Hr Hh]. split; [by destruct Hr|]. by destruct Hh.
Qed.

Lemma fence_run_ok x y : rtc fence_step x y -> fences_ok x.1 x.2 -> fences_ok y.1 y.2.
Proof using. induction 1; [done|]. intros Hok. by apply IHrtc, (fence_step_ok x). Qed.

(** ** Order *)

Lemma orderly_app (l1 l2 : list event) : orderly (l1 ++ l2) -> orderly l2.
Proof using. induction l1 as [|e l1 IH]; [done|]. cbn. intros [_ Ho]. by apply IH. Qed.

(** In an orderly history the fences up to a signalled one are older than the
    signal. *)
Lemma orderly_covered (l1 l2 : list event) s vq head written p :
  orderly (l1 ++ Signalled s :: l2) -> covers s p -> Served vq head written (Some p) ∈ l1 ++ Signalled s :: l2 ->
  Served vq head written (Some p) ∈ l2.
Proof using.
  intros Ho (Ec & Er & Hle) Hin. apply elem_of_app in Hin as [Hin|[Hx|Hin]%elem_of_cons]; [|done|done].
  apply list_elem_of_split in Hin as (a & b & ->). exfalso. rewrite <- app_assoc in Ho. apply orderly_app in Ho. cbn in Ho.
  destruct Ho as [Hlt Ho]. apply orderly_app in Ho. cbn in Ho. destruct Ho as [(v & h & w & Hs) _].
  assert (pq_fence_id (ParkReq (sg_ctx_id s) (sg_ring_idx s) (sg_fence_id s)) < pq_fence_id p) as Hid; [|cbn in Hid; lia].
  apply (Hlt v h w); [|done..]. apply elem_of_app. right. by apply elem_of_cons; right.
Qed.

Lemma orderly_timely log : orderly log -> justified log -> timely log.
Proof using.
  induction log as [|e log IH]; [done|]. cbn. intros [Ho Hol] [Hj Hjl]. split; [|by apply IH].
  destruct e as [| | |vq head written w|]; try done. destruct w as [| |s]; try done. destruct Hj as (Hs & p & Hp & Hc).
  apply list_elem_of_split in Hs as (l1 & l2 & ->). exists p, l1, l2. split; [done|]. split; [|done].
  by eapply orderly_covered.
Qed.

(** ** What holds *)

(** Every chain that was served is accounted for exactly once, with the bytes
    written: published, parked, or in the loop's hand; and one is published
    only when it had no fence to wait for, when the table was full, or by a
    signal that covers its fence. *)
Theorem chains_answered_once st hand f :
  rtc fence_step (None, fresh_fences st) (hand, f) ->
  served_of (fn_log f) ≡ₚ published_of (fn_log f) ++ parked_of (g_parked f) ++ hand_of hand /\ justified (fn_log f).
Proof using.
  intros Hr. destruct (fence_run_ok _ _ Hr (fresh_ok st)) as [_ Hh]. split; [apply (ho_once _ _ _ Hh)|apply (ho_justified _ _ _ Hh)].
Qed.

(** C23: No signal that got into the ring is missed, even one that comes before
    its chain is parked: what covers a parked chain since it was served is
    still in the ring, to be delivered by the next drain. And when the guest
    numbers its fences upwards and the renderer signals those it was given, no
    chain goes out by a signal older than its fence. *)
Theorem signals_not_missed st hand f :
  rtc fence_step (None, fresh_fences st) (hand, f) ->
  (forall pk, pk ∈ g_parked f -> 0 <= pk_vq pk ->
     waiting (fn_log f) (pending f) (pk_vq pk) (pk_head pk) (pk_written pk) (fence_of pk)) /\
  (orderly (fn_log f) -> timely (fn_log f)).
Proof using.
  intros Hr. destruct (fence_run_ok _ _ Hr (fresh_ok st)) as [_ Hh]. split; [apply (ho_parked _ _ _ Hh)|].
  intros Ho. apply orderly_timely; [done|apply (ho_justified _ _ _ Hh)].
Qed.

(** The ring, the table and what is under the rings, without indices. *)
Definition fence_abs : Type := list fence_sig * list cogpu_parked * W.
Definition abstract f : fence_abs := (pending f, g_parked f, fn_state f).
Definition spec_signal s (a : fence_abs) : fence_abs :=
  let '(q, l, w) := a in (if Z.of_nat (length q) <? FENCE_SIGS then q ++ [s] else q, l, w).
Definition spec_deliver (lw : list cogpu_parked * W) s : list cogpu_parked * W :=
  let '(l, w) := lw in
  (after s <$> l, foldl (fun w pk => publish (pk_vq pk) (pk_head pk) (pk_written pk) w) w (filter (waits s) l)).
Definition spec_drain (a : fence_abs) : fence_abs :=
  let '(q, l, w) := a in let '(l, w) := foldl spec_deliver (l, w) q in ([], l, w).

Lemma send_all_state s out f :
  fn_state (send_all s out f) = foldl (fun w pk => publish (pk_vq pk) (pk_head pk) (pk_written pk) w) (fn_state f) out.
Proof using. revert f. induction out as [|pk out IH]; intros f; [done|]. exact (IH (send s f pk)). Qed.

Lemma deliver_spec f s : (g_parked (deliver f s), fn_state (deliver f s)) = spec_deliver (g_parked f, fn_state f) s.
Proof using. unfold deliver, spec_deliver. cbn. by rewrite send_all_state. Qed.

Lemma deliver_all_spec q f :
  (g_parked (foldl deliver f q), fn_state (foldl deliver f q)) = foldl spec_deliver (g_parked f, fn_state f) q.
Proof using. revert f. induction q as [|s q IH]; intros f; [done|]. cbn [foldl]. by rewrite IH, deliver_spec. Qed.

(** C24: The ring of 256 slots under two 32-bit indices that wrap is a queue: a
    signal is appended unless 256 are waiting, and a drain always ends, having
    released, for each signal in the order they came, exactly the parked
    chains it covers. *)
Theorem signal_ring_is_queue st hand f :
  rtc fence_step (None, fresh_fences st) (hand, f) ->
  (forall c r i, exists f', cogpu_ctx_fence_signal c r i f = (Ret tt, f') /\ abstract f' = spec_signal (Sig c r i) (abstract f)) /\
  (forall did, exists did' f', drain did f = (Ret did', f') /\ abstract f' = spec_drain (abstract f)).
Proof using.
  intros Hrun. destruct (fence_run_ok _ _ Hrun (fresh_ok st)) as [Hr Hh]. cbn [fst snd] in *. split.
  - intros c r i. eexists. split; [by apply signal_run|]. unfold abstract, spec_signal. rewrite length_pending.
    destruct (ring_count f <? FENCE_SIGS) eqn:Hc; zbool; [|done]. cbn. f_equal. f_equal. by apply (pending_push (Sig c r i)).
  - intros did. destruct (wp_total _ _ _ (wp_drain did f _ Hr)) as (did' & f' & -> & -> & _). exists did', (drained f).
    split; [done|]. unfold abstract, spec_drain.
    rewrite (proj2 (drained_ring f Hr)).
    by rewrite <- (deliver_all_spec (pending f) (put_ring (g_fence_sig f) (g_fence_sig_head f) (g_fence_sig_head f) f) :
      _ = foldl spec_deliver (g_parked f, fn_state f) (pending f)).
Qed.
End run.
