(* ===== verification/MainLoop.v ===== *)
(** The main loop of the GPU daemon
    ([os/winnt/user/cogpu-daemon/cogpu-daemon.c], the [for (;;)] of [main]):
    sweep, join queues that appeared, serve what is in them, deliver the
    signals that came, tell the guest.

    The loop is a relation between states with a program counter: other threads
    signal fences and pin slices, and the guest writes its memory, between any
    two pieces. The presenter's polls, the log and the ways out of the loop are
    left out. *)
From stdpp Require Import relations.
From S2P Require Import Prelude.
From S2P Require Import Mem.
From S2P Require Import Rc.
From S2P Require Import Handles.
From S2P Require Import Vring.
From S2P Require Import Slices.
From S2P Require Import SlicesOk.
From S2P Require Import Gpu.
From S2P Require Import GpuServe.
From S2P Require Import GpuOk.
From S2P Require Import GpuBacking.
From S2P Require Import GpuRun.
From S2P Require Import Fences.
#[local] Open Scope Z_scope.

Definition CO_VGPU_NUM_VQS : Z := 2.

(** [co_vgpu_io_abi]: where the loop reads and writes the transport page. *)
Definition io_vq (i : Z) : Z := 40 + 32 * i.
Definition vq_desc_gpa : Z := 0.
Definition vq_avail_gpa : Z := 8.
Definition vq_used_gpa : Z := 16.
Definition vq_num : Z := 24.
Definition io_used_pending : Z := 104.
Definition io_host_heartbeat : Z := 116.

Definition no_vring : cogpu_vring := Vring 0 0 0 0 0 0.

(** ** Popping with a resolver that acts

    [cogpu_vring_pop] of [vring.c] again, where asking for an address changes
    the caller's state. On a resolver that changes nothing it is the function of
    [Vring] ([MainLoopOk.vring_pop_pure]). *)
Section pop.
Context {S : Type} (resolve : Z -> Z -> M S Z) (memory : S -> mem).

(** [while (left) { ... }]. *)
Definition pop_piece (write : bool) (st : Z * Z * cogpu_chain) : M S ((Z * Z * cogpu_chain) + option cogpu_chain) :=
  let '(addr, rest, chain) := st in
  if rest =? 0 then mret (inr (Some chain)) else
  let part := u32 (4096 - Z.land addr 4095) in
  let part := if rest <? part then rest else part in
  p ← resolve addr part;
  if p =? 0 then mret (inr None) else
  match chain_add chain write p part with
  | None => mret (inr None)
  | Some chain => mret (inl (u64 (addr + part), u32 (rest - part), chain))
  end.

Definition pop_buffer (chain : cogpu_chain) (d : vring_desc) : M S (option cogpu_chain) :=
  if d_len d =? 0 then mret (Some chain) else
  let write := desc_write d in
  p ← resolve (d_addr d) (d_len d);
  added ← (if p =? 0 then mloop (pop_piece write) (d_addr d, d_len d, chain)
           else mret (chain_add chain write p (d_len d)));
  mret ((fun chain => count_bytes chain write (d_len d)) <$> added).

(** [for (;;) { ... }]. *)
Definition pop_desc (vr : cogpu_vring) (st : Z * Z * cogpu_chain) : M S ((Z * Z * cogpu_chain) + option cogpu_chain) :=
  let '(i, hops, chain) := st in
  found ← gets (fun s => desc_at (memory s) vr i);
  match found with
  | None => mret (inr None)
  | Some d =>
      let hops := hops + 1 in
      if s32 (vr_num vr) <? hops then mret (inr None) else
      added ← pop_buffer chain d;
      match added with
      | None => mret (inr None)
      | Some chain => if negb (desc_more d) then mret (inr (Some chain)) else mret (inl (d_next d, hops, chain))
      end
  end.

Definition vring_pop (vr : cogpu_vring) : M S (option cogpu_chain * cogpu_vring) :=
  if ((vr_desc vr =? 0) || (vr_avail vr =? 0) || (vr_used vr =? 0))%bool then mret (None, vr) else
  idx ← gets (fun s => avail_idx (memory s) vr);
  if idx =? vr_last_avail vr then mret (None, vr) else
  if vr_num vr <? u16 (idx - vr_last_avail vr) then mret (None, vr) else
  head ← gets (fun s => avail_ring (memory s) vr (vr_last_avail vr mod vr_num vr));
  if vr_num vr <=? head then mret (None, vr) else
  popped ← mloop (pop_desc vr) (head, 0, Chain head [] [] 0 0);
  match popped with
  | None => mret (None, vr)
  | Some chain =>
      mret (Some chain, Vring (vr_desc vr) (vr_avail vr) (vr_used vr) (vr_num vr)
                          (u16 (vr_last_avail vr + 1)) (vr_used_idx vr))
  end.
End pop.

Section loop.
Context {E R : Type} `{CogpuLaws E} `{!CogpuWindows E} `{WL : !CogpuWindowsLaws E} `{RendererLaws R}.

(** The daemon, [vq] and [io]. *)
Record daemon := Daemon { dm_gpu : @gpu E R; dm_vq : list cogpu_vring; dm_io : Z }.

Abbreviation D := (M daemon).
Abbreviation F := (M (@fences daemon)).

Definition put_gpu g (d : daemon) : daemon := Daemon g (dm_vq d) (dm_io d).
Definition vq_at (d : daemon) (i : Z) : cogpu_vring := default no_vring (dm_vq d !! Z.to_nat i).
Definition put_vq (i : Z) vr (d : daemon) : daemon := Daemon (dm_gpu d) (<[Z.to_nat i := vr]> (dm_vq d)) (dm_io d).

Definition on_gpu {A} (m : M (@gpu E R) A) : D A := fun d =>
  let '(r, g) := m (dm_gpu d) in (r, put_gpu g d).
Definition under {A} (m : D A) : F A := fun f =>
  let '(r, d) := m (fn_state f) in (r, put_state d f).

Definition io_u32 (off : Z) : D Z := gets (fun d => load_u32 (d_mem (dm_gpu d)) (dm_io d + off)).
Definition io_u64 (off : Z) : D Z := gets (fun d => load_u64 (d_mem (dm_gpu d)) (dm_io d + off)).
Definition io_increment (off : Z) : D unit :=
  n ← io_u32 off;
  modify (fun d => put_gpu (put_mem (store_u32 (d_mem (dm_gpu d)) (dm_io d + off) (u32 (n + 1))) (dm_gpu d)) d).

#[export] Instance daemon_rings : Rings daemon := {
  publish vq head written d :=
    let '(m, vr) := cogpu_vring_push (d_mem (dm_gpu d)) (vq_at d vq) (Chain head [] [] 0 0) written in
    put_vq vq vr (put_gpu (put_mem m (dm_gpu d)) d)
}.

(** ** The pieces of a pass *)

Definition begin_pass : D unit := on_gpu (cached sweep) ;; io_increment io_host_heartbeat.

Definition resolve_main (gpa len : Z) : D Z := on_gpu (cached (resolve_gpa true gpa len)).

(** Pin a ring for good. The pins after one that failed are not tried. *)
Fixpoint pin_rings (l : list (Z * Z)) : D (list Z) :=
  match l with
  | [] => mret []
  | (gpa, len) :: l =>
      r ← on_gpu (cached (cogpu_resolve_gpa_pinned gpa len));
      let '(p, t) := r in
      let out := if decide (t = 0) then [] else [t] in
      if p =? 0 then mret out else
      ts ← pin_rings l;
      mret (ts ++ out)
  end.

(** Join queue [i] once the guest has set it up, at the used index it is at.
    The result is the pins taken. *)
Definition join (i : Z) : D (list Z) :=
  vr ← gets (fun d => vq_at d i);
  num ← io_u32 (io_vq i + vq_num);
  if (negb (vr_desc vr =? 0) || (num =? 0))%bool then mret [] else
  desc_gpa ← io_u64 (io_vq i + vq_desc_gpa);
  desc ← resolve_main desc_gpa (u32 (vring_desc_bytes * num));
  avail_gpa ← io_u64 (io_vq i + vq_avail_gpa);
  avail ← resolve_main avail_gpa 8;
  used_gpa ← io_u64 (io_vq i + vq_used_gpa);
  used ← resolve_main used_gpa 8;
  if ((desc =? 0) || (avail =? 0) || (used =? 0))%bool then
    modify (put_vq i (Vring 0 avail used num (vr_last_avail vr) (vr_used_idx vr))) ;; mret []
  else
    idx ← gets (fun d => load_u16 (d_mem (dm_gpu d)) (used + 2));
    modify (put_vq i (Vring desc avail used num idx idx)) ;;
    pin_rings [(desc_gpa, u32 (vring_desc_bytes * num)); (avail_gpa, u32 (4 + 2 * num)); (used_gpa, u32 (4 + 8 * num))].

(** Serve one chain: the bytes written, and its fence if it is to be parked. *)
Definition serve_one (i : Z) (chain : cogpu_chain) : F (Z * option park_req) :=
  written ← under (on_gpu (serve chain));
  park ← under (gets (fun d => g_park_req (dm_gpu d)));
  under (on_gpu (modify (put_park None))) ;;
  modify (note (Served i (c_head chain) written park)) ;;
  mret (written, park).

(** Forget the drops, which are reported, and wake the guest. *)
Definition report (did : bool) : F unit :=
  modify (put_dropped 0) ;;
  if did then under (io_increment io_used_pending) ;; modify (note Woken) else mret tt.

(** Pop queue [i], asking the slice cache for addresses, which may map slices. *)
Definition main_vring_pop (i : Z) : D (option cogpu_chain) :=
  vr ← gets (fun d => vq_at d i);
  r ← vring_pop resolve_main (fun d => d_mem (dm_gpu d)) vr;
  modify (put_vq i r.2) ;;
  mret r.1.

(** ** Running *)

Inductive pc :=
  | Top
  | Joining (i : Z)
  | Taking (i : Z)
  | Serving (i : Z) (chain : cogpu_chain)
  | Answering (i head written : Z) (park : option park_req)
  | Reporting.

(** [did], and the pins that are out. *)
Record loop_st := Loop { lp_pc : pc; lp_did : bool; lp_lent : list Z; lp_fences : @fences daemon }.

Definition lp_daemon (s : loop_st) : daemon := fn_state (lp_fences s).
Definition lp_gpu (s : loop_st) : @gpu E R := dm_gpu (lp_daemon s).

(** The main thread. *)
Inductive main_step : loop_st -> loop_st -> Prop :=
  | main_begin did T f f' :
      under begin_pass f = (Ret tt, f') -> main_step (Loop Top did T f) (Loop (Joining 0) false T f')
  | main_join i did T f ts f' :
      i < CO_VGPU_NUM_VQS -> under (join i) f = (Ret ts, f') ->
      main_step (Loop (Joining i) did T f) (Loop (Joining (i + 1)) did (ts ++ T) f')
  | main_joined i did T f :
      CO_VGPU_NUM_VQS <= i -> main_step (Loop (Joining i) did T f) (Loop (Taking 0) did T f)
  | main_pop i did T f chain f' :
      i < CO_VGPU_NUM_VQS -> under (main_vring_pop i) f = (Ret (Some chain), f') ->
      main_step (Loop (Taking i) did T f) (Loop (Serving i chain) did T f')
  | main_empty i did T f f' :
      i < CO_VGPU_NUM_VQS -> under (main_vring_pop i) f = (Ret None, f') ->
      main_step (Loop (Taking i) did T f) (Loop (Taking (i + 1)) did T f')
  | main_serve i chain did T f w park f' :
      few_slots (dm_gpu (fn_state f)) -> honest chain (dm_gpu (fn_state f)) ->
      serve_one i chain f = (Ret (w, park), f') ->
      main_step (Loop (Serving i chain) did T f) (Loop (Answering i (c_head chain) w park) did T f')
  | main_answer i head written park did T f now f' :
      answer i head written park f = (Ret now, f') ->
      main_step (Loop (Answering i head written park) did T f) (Loop (Taking i) (did || now) T f')
  | main_drain i did T f did' f' :
      CO_VGPU_NUM_VQS <= i -> drain did f = (Ret did', f') ->
      main_step (Loop (Taking i) did T f) (Loop Reporting did' T f')
  | main_report did T f f' :
      report did f = (Ret tt, f') -> main_step (Loop Reporting did T f) (Loop Top did T f').

(** What other threads do to the cache, and the guest to its memory. *)
Inductive aside : list Z * @gpu E R -> list Z * @gpu E R -> Prop :=
  | aside_resolve T g gpa len p g' :
      0 <= gpa < 2 ^ 64 -> 0 <= len < 2 ^ 64 -> cached (resolve_gpa false gpa len) g = (Ret p, g') -> aside (T, g) (T, g')
  | aside_pin T g gpa len p t g' :
      0 <= gpa < 2 ^ 64 -> 0 <= len < 2 ^ 64 -> cached (cogpu_resolve_gpa_pinned gpa len) g = (Ret (p, t), g') ->
      aside (T, g) (if decide (t = 0) then T else t :: T, g')
  | aside_unpin T T' t g g' :
      T ≡ₚ t :: T' -> cached (cogpu_unpin t) g = (Ret tt, g') -> aside (T, g) (T', g')
  | aside_memory T g m : aside (T, g) (T, put_mem m g).

Inductive loop_step : loop_st -> loop_st -> Prop :=
  | step_main s s' : main_step s s' -> loop_step s s'
  | step_signal p did T f ctx_id ring_idx fence_id f' :
      cogpu_ctx_fence_signal ctx_id ring_idx fence_id f = (Ret tt, f') ->
      loop_step (Loop p did T f) (Loop p did T f')
  | step_aside p did T f T' g' :
      aside (T, dm_gpu (fn_state f)) (T', g') ->
      loop_step (Loop p did T f) (Loop p did T' (put_state (put_gpu g' (fn_state f)) f)).

Record loop_start B (s : loop_st) : Prop := {
  ls_pc : lp_pc s = Top /\ lp_lent s = [];
  ls_fences : exists d, lp_fences s = fresh_fences d;
  ls_gpu : gpu_start B (lp_gpu s);
  ls_park : g_park_req (lp_gpu s) = None;
}.
End loop.
