(* ===== verification/MainLoopOk.v ===== *)
(** The pieces of the GPU daemon's main loop, one by one: what each does to the
    daemon as [GpuRun] sees it and to the fences as [Fences] sees them. *)
From stdpp Require Import relations.
From S2P Require Import Prelude.
From S2P Require Import Mem.
From S2P Require Import Rc.
From S2P Require Import Handles.
From S2P Require Import Vring.
From S2P Require Import Slices.
From S2P Require Import SlicesOk.
From S2P Require Import SlicesPin.
From S2P Require Import Gpu.
From S2P Require Import GpuServe.
From S2P Require Import GpuOk.
From S2P Require Import GpuBacking.
From S2P Require Import GpuRun.
From S2P Require Import Fences.
From S2P Require Import FencesRun.
From S2P Require Import MainLoop.
#[local] Open Scope Z_scope.

#[export] Instance co_kmap_range_eq_dec : EqDecision co_kmap_range_t.
Proof. solve_decision. Defined.

Lemma s32_below x : s32 x < 2 ^ 31.
Proof.
  unfold s32, signed. pose proof (Z.mod_pos_bound x (2 ^ 32) ltac:(done)). case_decide; lia.
Qed.

(** ** Popping with a resolver that changes nothing *)

Section pure.
Context {S : Type} (resolve : Z -> Z -> M S Z) (memory : S -> mem) (pure : Z -> Z -> option Z) (s : S).
Hypothesis Hsame : forall gpa len, resolve gpa len s = (Ret (default 0 (pure gpa len)), s).
Hypothesis Hnonnull : forall gpa len, pure gpa len <> Some 0.

Lemma mloop_pure {A B} (body : A -> M S (A + B)) (step : A -> A + B) a r :
  (forall a, body a s = (Ret (step a), s)) -> loop 64 step a = inr r -> mloop body a s = (Ret r, s).
Proof using.
  intros Hb. unfold mloop. enough (forall n a, loop n (mloop_step body) (a, s) =
    match loop n step a with inl a' => inl (a', s) | inr r => inr (Ret r, s) end) as -> by by intros ->.
  intros n. induction n as [|n IH]; intros a0; cbn [loop].
  - unfold mloop_step. cbn [fst snd]. rewrite Hb. by destruct (step a0).
  - rewrite IH. destruct (loop n step a0) as [a1|]; [apply IH|done].
Qed.

Lemma pop_buffer_pure chain desc : 0 <= d_len desc < 2 ^ 32 -> pop_buffer resolve chain desc s = (Ret (add_desc pure chain desc), s).
Proof using Hsame Hnonnull.
  intros Hl. unfold pop_buffer, add_desc. destruct (d_len desc =? 0); [done|]. unfold mbind, M_bind. rewrite Hsame.
  pose proof (Hnonnull (d_addr desc) (d_len desc)) as Hz.
  destruct (pure (d_addr desc) (d_len desc)) as [p|] eqn:Ep; cbn [default].
  { assert (p <> 0) as Hp by congruence. cbn [from_option id]. by rewrite (proj2 (Z.eqb_neq p 0)). }
  cbn [from_option id Z.eqb].
  destruct (piece_loop pure (fun _ => None) (desc_write desc) (d_addr desc) (d_len desc) chain Hl) as (r & Hr & _).
  rewrite (mloop_pure _ (piece_step pure (desc_write desc)) _ r); [by rewrite Hr| |done].
  intros [[a rest] c]. unfold pop_piece, piece_step. destruct (rest =? 0); [done|]. cbn zeta.
  set (part := if rest <? _ then _ else _). unfold mbind, M_bind. rewrite Hsame. pose proof (Hnonnull a part) as Hz'.
  destruct (pure a part) as [p|]; cbn [from_option id]; [|done].
  assert (p <> 0) as Hp by congruence. rewrite (proj2 (Z.eqb_neq p 0)) by done. by destruct (chain_add c (desc_write desc) p part).
Qed.

(** Then it is [cogpu_vring_pop] of [Vring]. *)
Lemma vring_pop_pure vr :
  0 <= vr_num vr < 2 ^ 31 -> vring_pop resolve memory vr s = (Ret (cogpu_vring_pop pure (memory s) vr), s).
Proof using Hsame Hnonnull.
  intros Hn. unfold vring_pop, cogpu_vring_pop, gets, mbind, M_bind.
  destruct (_ || _)%bool; [done|]. destruct (_ =? vr_last_avail vr); [done|]. destruct (vr_num vr <? u16 _); [done|].
  set (head := avail_ring _ _ _). destruct (vr_num vr <=? head); [done|].
  pose proof (pop_loop pure (memory s) vr head (Chain head [] [] 0 0) Hn) as Hl.
  erewrite (mloop_pure _ (pop_step pure (memory s) vr)); [| |exact Hl].
  - rewrite Hl. by destruct (chain_descs _ _ _ _) as [ds|]; [destruct (add_descs _ _ ds)|].
  - intros [[i hops] c]. unfold pop_desc, pop_step, gets, mbind, M_bind, desc_at.
    destruct (vr_num vr <=? i); [done|]. cbn zeta. destruct (s32 (vr_num vr) <? hops + 1); [done|].
    rewrite pop_buffer_pure by apply load_u32_range. destruct (add_desc pure c _) as [c1|]; [|done]. by destruct (negb (desc_more _)).
Qed.
End pure.

Section loop_ok.
Context {E R : Type} `{CogpuLaws E} `{!CogpuWindows E} `{WL : !CogpuWindowsLaws E} `{RendererLaws R}.
Implicit Types (c : @cogpu E) (d : @daemon E R) (g : @gpu E R) (T : list Z) (f : @fences (@daemon E R)) (s : @loop_st E R).

(** ** A popped chain *)

Lemma buf_add_lens (buf buf' : list cogpu_buf) a len :
  lens_ok buf -> 0 <= len -> buf_add buf a len = Some buf' -> lens_ok buf'.
Proof using.
  unfold lens_ok, buf_add. intros Hb Hl.
  assert (forall l, (if COGPU_MAX_CHAIN <=? Z.of_nat (length buf) then None else Some (buf ++ [Buf a len])) = Some l ->
    Forall (fun b => 0 <= b_len b) l) as Happ.
  { intros l. destruct (_ <=? _); [done|]. intros [= <-]. apply Forall_app. split; [done|by constructor]. }
  destruct (last buf) as [b|] eqn:Eb; [|apply Happ]. destruct (_ && _)%bool; [|apply Happ]. intros [= <-].
  apply last_Some in Eb as (l & ->). rewrite take_app_le by (rewrite length_app; cbn; lia).
  apply Forall_app in Hb as [Hb1 Hb2]. apply Forall_cons in Hb2 as [Hb2 _]. apply Forall_app. split; [by apply Forall_take|].
  constructor; [cbn in *; lia|constructor].
Qed.

Lemma chain_add_lens chain chain' wr a len : chain_ok chain -> 0 <= len -> chain_add chain wr a len = Some chain' -> chain_ok chain'.
Proof using.
  intros [Hi Ho] Hl. unfold chain_add, chain_ok. destruct wr.
  - destruct (buf_add (c_out chain) a len) as [l|] eqn:El; cbn; [|done]. intros [= <-]. split; [done|]. by apply (buf_add_lens _ _ _ _ Ho Hl El).
  - destruct (buf_add (c_in chain) a len) as [l|] eqn:El; cbn; [|done]. intros [= <-]. split; [|done]. by apply (buf_add_lens _ _ _ _ Hi Hl El).
Qed.

(** ** Turns of the daemon *)

(** From [d] to [d'] the daemon took turns of [gpu_step]; the transport page and
    the request to park are where they were. *)
Record turned T d T' d' : Prop := {
  tu_run : rtc gpu_step (T, dm_gpu d) (T', dm_gpu d');
  tu_io : dm_io d' = dm_io d;
  tu_park : g_park_req (dm_gpu d') = g_park_req (dm_gpu d);
}.

Lemma turned_refl T d : turned T d T d.
Proof using. by split. Qed.

Lemma turned_trans T1 d1 T2 d2 T3 d3 : turned T1 d1 T2 d2 -> turned T2 d2 T3 d3 -> turned T1 d1 T3 d3.
Proof using. intros [R1 I1 P1] [R2 I2 P2]. split; [by etrans|congruence..]. Qed.

Lemma turned_inv B T d T' d' : gpu_inv B (T, dm_gpu d) -> turned T d T' d' -> gpu_inv B (T', dm_gpu d').
Proof using WL. intros Hi [Hr _ _]. by eapply run_inv. Qed.

Lemma turned_vq T d i vr : turned T d T (put_vq i vr d).
Proof using. by split. Qed.

Lemma turned_memory T d m : turned T d T (put_gpu (put_mem m (dm_gpu d)) d).
Proof using. split; [|done..]. apply rtc_once, step_memory. Qed.

(** An operation of the cache, as a turn. *)
Lemma wp_cached_turn {A} (m : M (@cogpu E) A) (Q : A -> cogpu -> Prop) (to : A -> list Z) T d (X : co_rc_value_t -> daemon -> Prop) :
  (forall Y, wp m Q Y (d_cache (dm_gpu d))) ->
  (forall a g', cached m (dm_gpu d) = (Ret a, g') -> gpu_step (T, dm_gpu d) (to a, g')) ->
  wp (on_gpu (cached m)) (fun a d' => turned T d (to a) d' /\ exists c, d' = put_gpu (put_cache c (dm_gpu d)) d /\ Q a c) X d.
Proof using.
  intros Hm Hs. specialize (Hm (fun _ _ => False)). unfold wp, on_gpu, cached in *.
  destruct (m (d_cache (dm_gpu d))) as [[a|rc|] c] eqn:Hr; [|done..]. specialize (Hs a _ eq_refl).
  split; [|by exists c]. split; [by apply rtc_once|done..].
Qed.

Lemma wp_increment T d off (X : co_rc_value_t -> daemon -> Prop) : wp (io_increment off) (fun _ d' => turned T d T d') X d.
Proof using. unfold io_increment, io_u32. do 3 wp_step. apply turned_memory. Qed.

Lemma begin_ok B T d (X : co_rc_value_t -> daemon -> Prop) :
  gpu_inv B (T, dm_gpu d) -> wp begin_pass (fun _ d' => turned T d T d') X d.
Proof using.
  intros [Hok _]. unfold begin_pass. wp_step. eapply wp_mono.
  - apply (wp_cached_turn sweep _ (fun _ => T) T d _ (fun Y => wp_sweep B T (d_cache (dm_gpu d)) Y (proj1 Hok))).
    intros [] g' Hr. by apply step_sweep.
  - intros [] d1 [Ht _]. eapply wp_mono; [apply (wp_increment T)| |done]. intros [] d2 Ht2. by eapply turned_trans.
  - done.
Qed.

Lemma wp_resolve_turn B T d gpa len (X : co_rc_value_t -> daemon -> Prop) :
  gpu_inv B (T, dm_gpu d) -> 0 <= gpa < 2 ^ 64 -> 0 <= len < 2 ^ 64 ->
  wp (resolve_main gpa len) (fun _ d' => turned T d T d' /\ dm_vq d' = dm_vq d) X d.
Proof using.
  intros [Hok _] Hg Hl. eapply wp_mono.
  - apply (wp_cached_turn (resolve_gpa true gpa len) _ (fun _ => T) T d _
      (fun Y => wp_resolve_gpa B T (d_cache (dm_gpu d)) true gpa len Y (proj1 Hok) Hg Hl)).
    intros p g' Hr. exact (step_resolve T _ true gpa len p g' Hg Hl Hr).
  - intros p d1 [Ht (c & -> & _)]. done.
  - done.
Qed.

Lemma pin_rings_ok B l T d (X : co_rc_value_t -> daemon -> Prop) :
  gpu_inv B (T, dm_gpu d) -> Forall (fun '(gpa, len) => 0 <= gpa < 2 ^ 64 /\ 0 <= len < 2 ^ 64) l ->
  wp (pin_rings l) (fun ts d' => turned T d (ts ++ T) d') X d.
Proof using WL.
  intros Hi Hl. revert T d Hi. induction Hl as [|[gpa len] l [Hg Hlen] Hl IH]; intros T d Hi; cbn [pin_rings].
  { wp_step. apply turned_refl. }
  wp_step. eapply wp_mono.
  - apply (wp_cached_turn (cogpu_resolve_gpa_pinned gpa len) _ (fun r => if decide (r.2 = 0) then T else r.2 :: T) T d _
      (fun Y => wp_pinned B T (d_cache (dm_gpu d)) gpa len Y (proj1 (proj1 Hi)) Hg Hlen)).
    intros [p t] g' Hr. exact (step_pin T _ gpa len p t g' Hg Hlen Hr).
  - intros [p t] d1 [Ht (c & -> & _ & _ & Hc)]. cbn [fst snd] in Ht, Hc. wp_step.
    + wp_step. by destruct (decide (t = 0)).
    + wp_step. eapply wp_mono; [apply IH; by eapply turned_inv| |done]. intros ts d2 Ht2. wp_step.
      eapply turned_trans; [exact Ht|]. destruct (decide (t = 0)); [by rewrite app_nil_r|by rewrite <- app_assoc].
  - done.
Qed.

Lemma join_ok B i T d (X : co_rc_value_t -> daemon -> Prop) :
  gpu_inv B (T, dm_gpu d) -> wp (join i) (fun ts d' => turned T d (ts ++ T) d') X d.
Proof using WL.
  intros Hi. unfold join, io_u32, io_u64. do 4 wp_step. wp_step; [wp_step; apply turned_refl|].
  pose proof (fun n => u32_range (vring_desc_bytes * n)) as Hr.
  do 2 wp_step. wp_step. eapply wp_mono; [apply (wp_resolve_turn B T d); [done|apply load_u64_range|specialize (Hr (load_u32 (d_mem (dm_gpu d)) (dm_io d + (io_vq i + vq_num)))); lia]| |done].
  intros desc d1 [Ht1 _]. pose proof (turned_inv _ _ _ _ _ Hi Ht1) as Hi1.
  do 2 wp_step. wp_step. eapply wp_mono; [apply (wp_resolve_turn B T d1); [done|apply load_u64_range|lia]| |done].
  intros avail d2 [Ht2 _]. pose proof (turned_inv _ _ _ _ _ Hi1 Ht2) as Hi2.
  do 2 wp_step. wp_step. eapply wp_mono; [apply (wp_resolve_turn B T d2); [done|apply load_u64_range|lia]| |done].
  intros used d3 [Ht3 _]. pose proof (turned_inv _ _ _ _ _ Hi2 Ht3) as Hi3.
  assert (turned T d T d3) as Ht by (eapply turned_trans; [exact Ht1|by eapply turned_trans]).
  wp_step; [do 3 wp_step; eapply turned_trans; [exact Ht|apply turned_vq]|]. do 4 wp_step.
  eapply wp_mono; [apply (pin_rings_ok B)| |done].
  - exact (turned_inv _ _ _ _ _ Hi3 (turned_vq T d3 i _)).
  - repeat constructor; try apply load_u64_range; apply u32_range || (etrans; [apply u32_range|done]).
  - intros ts d4 Ht4. eapply turned_trans; [exact Ht|]. eapply turned_trans; [apply turned_vq|exact Ht4].
Qed.

(** *** Popping ends, whatever is in the queue *)

Definition lens_kept (r : option cogpu_chain) : Prop := forall chain, r = Some chain -> chain_ok chain.

Lemma wp_resolve_on B T d0 d gpa len (Q : Z -> daemon -> Prop) X :
  gpu_inv B (T, dm_gpu d0) -> turned T d0 T d -> 0 <= gpa < 2 ^ 64 -> 0 <= len < 2 ^ 64 ->
  (forall p d', turned T d0 T d' -> Q p d') -> wp (resolve_main gpa len) Q X d.
Proof using WL.
  intros Hi Ht Hg Hl HQ. eapply wp_mono; [apply (wp_resolve_turn B T d); [by eapply turned_inv|done|done]| |done].
  intros p d' [Ht' _]. apply HQ. by eapply turned_trans.
Qed.

Lemma wp_pop_pieces B T d0 d write addr len chain (X : co_rc_value_t -> daemon -> Prop) :
  gpu_inv B (T, dm_gpu d0) -> turned T d0 T d -> 0 <= addr < 2 ^ 64 -> 0 <= len < 2 ^ 32 -> chain_ok chain ->
  wp (mloop (pop_piece resolve_main write) (addr, len, chain)) (fun r d' => turned T d0 T d' /\ lens_kept r) X d.
Proof using WL.
  intros Hi Ht Ha Hl Hc.
  apply (wp_mloop _ (fun st d' => turned T d0 T d' /\ 0 <= st.1.1 < 2 ^ 64 /\ 0 <= st.1.2 < 2 ^ 32 /\ chain_ok st.2)
    (fun st _ => st.1.2)); [|done|cbn; lia].
  clear d addr len chain Ht Ha Hl Hc. intros [[addr rest] chain] d (Ht & Ha & Hl & Hc). cbn [fst snd] in *. unfold pop_piece.
  wp_step; [wp_step; split; [done|]; by intros c [= <-]|].
  assert (u32 (4096 - Z.land addr 4095) = 4096 - addr mod 4096) as ->.
  { change 4095 with (2 ^ 12 - 1). rewrite land_mask by lia. pose proof (Z.mod_pos_bound addr 4096 ltac:(lia)).
    apply u32_small. change (2 ^ 12) with 4096. lia. }
  pose proof (Z.mod_pos_bound addr 4096 ltac:(lia)) as Hm.
  set (part := if rest <? _ then _ else _). assert (0 < part <= rest) as Hp by (unfold part; case_cond; lia).
  wp_step. apply (wp_resolve_on B T d0); [done|done|done|lia|]. intros p d' Ht'. wp_step; [by wp_step|].
  destruct (chain_add chain write p part) as [c1|] eqn:Ea; [|by wp_step]. wp_step. cbn [fst snd].
  rewrite (u32_small (rest - part)) by lia. split_and!; try lia; [done|apply u64_range..|].
  eapply chain_add_lens; [exact Hc| |exact Ea]. lia.
Qed.

Lemma wp_pop_buffer B T d0 d desc chain (X : co_rc_value_t -> daemon -> Prop) :
  gpu_inv B (T, dm_gpu d0) -> turned T d0 T d -> 0 <= d_addr desc < 2 ^ 64 -> 0 <= d_len desc < 2 ^ 32 -> chain_ok chain ->
  wp (pop_buffer resolve_main chain desc) (fun r d' => turned T d0 T d' /\ lens_kept r) X d.
Proof using WL.
  intros Hi Ht Ha Hl Hc. unfold pop_buffer. wp_step; [wp_step; split; [done|]; by intros c [= <-]|].
  wp_step. apply (wp_resolve_on B T d0); [done|done|done|lia|]. intros p d1 Ht1. wp_step.
  assert (forall r d', turned T d0 T d' /\ lens_kept r ->
    wp (mret ((fun c : cogpu_chain => count_bytes c (desc_write desc) (d_len desc)) <$> r))
      (fun r d' => turned T d0 T d' /\ lens_kept r) X d') as Hend.
  { intros r d' [Ht' Hr]. wp_step. split; [done|]. intros c. destruct r as [c1|]; cbn; [|done]. intros [= <-].
    destruct (Hr c1 eq_refl). unfold count_bytes. by destruct (desc_write desc). }
  wp_step.
  - eapply wp_mono; [by apply (wp_pop_pieces B T d0)|exact Hend|done].
  - wp_step. apply Hend. split; [done|]. intros c1 Hadd. eapply chain_add_lens; [exact Hc| |exact Hadd]. lia.
Qed.

(** At most as many descriptors are followed as the table has. *)
Lemma wp_pop_descs B T d0 d vr head chain (X : co_rc_value_t -> daemon -> Prop) :
  gpu_inv B (T, dm_gpu d0) -> turned T d0 T d -> chain_ok chain ->
  wp (mloop (pop_desc resolve_main (fun d => d_mem (dm_gpu d)) vr) (head, 0, chain))
    (fun r d' => turned T d0 T d' /\ lens_kept r) X d.
Proof using WL.
  intros Hi Ht Hc.
  apply (wp_mloop _ (fun st d' => turned T d0 T d' /\ 0 <= st.1.2 < 2 ^ 31 /\ chain_ok st.2) (fun st _ => 2 ^ 31 - st.1.2));
    [|done|cbn; lia].
  clear d head chain Ht Hc. intros [[i hops] chain] d (Ht & Hh & Hc). cbn [fst snd] in *. unfold pop_desc. do 2 wp_step.
  unfold desc_at. destruct (vr_num vr <=? i); [by wp_step|]. set (desc := read_desc _ _). wp_step; [by wp_step|].
  pose proof (s32_below (vr_num vr)) as Hs.
  wp_step. eapply wp_mono; [apply (wp_pop_buffer B T d0 d desc chain); try done; [apply load_u64_range|apply load_u32_range]| |done].
  intros [c1|] d1 [Ht1 Hl1]; [|by wp_step]. specialize (Hl1 c1 eq_refl).
  wp_step; wp_step; cbn [fst snd]; [split; [done|]; by intros c [= <-]|]. split_and!; try done; lia.
Qed.

Lemma wp_main_pop B T i d (X : co_rc_value_t -> daemon -> Prop) :
  gpu_inv B (T, dm_gpu d) -> wp (main_vring_pop i) (fun r d' => turned T d T d' /\ lens_kept r) X d.
Proof using WL.
  intros Hi. unfold main_vring_pop. do 3 wp_step. set (vr := vq_at d i).
  assert (forall r d', turned T d T d' -> lens_kept r.1 ->
    wp (modify (put_vq i r.2) ;; mret r.1) (fun r d' => turned T d T d' /\ lens_kept r) X d') as Hend.
  { intros r d' Ht Hr. do 3 wp_step. split; [|done]. eapply turned_trans; [exact Ht|apply turned_vq]. }
  assert (lens_kept (@None cogpu_chain)) as Hno by done. pose proof (turned_refl T d) as Hnil.
  unfold vring_pop. wp_step; [wp_step; by apply Hend|]. do 2 wp_step. wp_step; [wp_step; by apply Hend|].
  wp_step; [wp_step; by apply Hend|]. do 2 wp_step. wp_step; [wp_step; by apply Hend|]. wp_step.
  eapply wp_mono; [apply (wp_pop_descs B T d); [done|done|by split; constructor]| |done].
  intros [c|] d1 [Ht Hl]; wp_step; by apply Hend.
Qed.

(** ** Through the fences *)

Lemma wp_under {A} (m : M (@daemon E R) A) (Q : A -> daemon -> Prop) f (X : co_rc_value_t -> fences -> Prop) :
  (forall Y, wp m Q Y (fn_state f)) -> wp (under m) (fun a f' => exists d, f' = put_state d f /\ Q a d) X f.
Proof using.
  intros Hm. specialize (Hm (fun _ _ => False)). unfold wp, under in *. destruct (m (fn_state f)) as [[a|rc|] d]; [by exists d|done..].
Qed.

Lemma publish_turned T vq head written d : turned T d T (publish vq head written d).
Proof using.
  cbn. destruct (cogpu_vring_push _ _ _ _) as [m vr]. eapply turned_trans; [apply turned_memory|apply turned_vq].
Qed.

Lemma answer_turned T vq head written park f did f' :
  answer vq head written park f = (Ret did, f') -> turned T (fn_state f) T (fn_state f').
Proof using.
  unfold answer, complete, cogpu_park, mbind, M_bind, gets, modify. destruct park as [p|].
  - destruct (free_park (g_parked f)) as [k|]; cbn -[publish]; intros [= _ <-]; [apply turned_refl|apply publish_turned].
  - cbn -[publish]. intros [= _ <-]. apply publish_turned.
Qed.

Lemma drain_turned T did f did' f' :
  ring_ok f -> drain did f = (Ret did', f') -> turned T (fn_state f) T (fn_state f').
Proof using.
  intros Hok Hr. destruct (wp_ran _ _ _ _ _ _ (wp_drain did f (fun _ _ => False) Hok) Hr) as [-> _]. unfold drained.
  set (f0 := put_ring _ _ _ f). change (fn_state f) with (fn_state f0). generalize (pending f). clearbody f0. clear.
  intros q. revert f0. induction q as [|x q IH]; intros f0; [apply turned_refl|]. cbn [foldl]. eapply turned_trans; [|apply IH].
  unfold deliver. cbn [fn_state put_parked]. rewrite send_all_state. generalize (fn_state f0) (out_of x f0). clear.
  intros d out. revert d. induction out as [|pk out IH]; intros d; [apply turned_refl|].
  cbn [foldl]. eapply turned_trans; [apply publish_turned|apply IH].
Qed.

Lemma serve_one_ok B T i chain f (X : co_rc_value_t -> fences -> Prop) :
  gpu_inv B (T, dm_gpu (fn_state f)) -> chain_ok chain -> few_slots (dm_gpu (fn_state f)) ->
  honest chain (dm_gpu (fn_state f)) ->
  wp (serve_one i chain) (fun r f' => exists d, f' = served i (c_head chain) r.1 r.2 d f /\
    rtc gpu_step (T, dm_gpu (fn_state f)) (T, dm_gpu d) /\ g_park_req (dm_gpu d) = None) X f.
Proof using WL.
  intros [Hok _] Hch Hfew Hho. unfold serve_one. wp_step. eapply wp_mono.
  - apply (wp_under _ (fun w d => d = put_gpu (dm_gpu d) (fn_state f) /\ serve chain (dm_gpu (fn_state f)) = (Ret w, dm_gpu d))).
    intros Y. destruct (wp_total _ _ _ (wp_serve B T (dm_gpu (fn_state f)) chain _ Hok Hch Hfew Hho)) as (w & g & Hrun & _).
    unfold wp, on_gpu. rewrite Hrun. done.
  - intros w f1 (d1 & -> & Ed & Hrun). wp_step. unfold wp, under, gets, modify, on_gpu, mbind, M_bind, mret, M_ret. cbn.
    eexists. split; [reflexivity|]. split; [|done]. cbn. etrans; [apply rtc_once; by eapply step_serve|apply rtc_once, step_unpark].
  - done.
Qed.

Lemma report_ok T did f (X : co_rc_value_t -> fences -> Prop) :
  wp (report did) (fun _ f' => exists d, turned T (fn_state f) T d /\
    f' = if did then note Woken (put_state d (put_dropped 0 f)) else put_dropped 0 f) X f.
Proof using.
  unfold report. do 2 wp_step. destruct did; [|wp_step; exists (fn_state f); by split; [apply turned_refl|]]. wp_step. eapply wp_mono.
  - apply (wp_under (io_increment io_used_pending)). intros Y. apply (wp_increment T).
  - intros [] f1 (d & -> & Ht). wp_step. by exists d.
  - done.
Qed.
End loop_ok.
