(* ===== verification/MainLoopRun.v ===== *)
(** What holds of the GPU daemon's main loop in every run. *)
From stdpp Require Import relations.
From S2P Require Import Prelude.
From S2P Require Import Mem.
From S2P Require Import Rc.
From S2P Require Import Handles.
From S2P Require Import Vring.
From S2P Require Import Slices.
From S2P Require Import SlicesOk.
From S2P Require Import Gpu.
From S2P Require Import GpuServe.
From S2P Require Import GpuOk.
From S2P Require Import GpuBacking.
From S2P Require Import GpuRun.
From S2P Require Import Fences.
From S2P Require Import FencesRun.
From S2P Require Import MainLoop.
From S2P Require Import MainLoopOk.
#[local] Open Scope Z_scope.

(** Whether the guest was woken after the last publication. *)
Fixpoint announced (log : list event) : Prop :=
  match log with
  | Published _ _ _ _ :: _ => False
  | Woken :: _ | [] => True
  | _ :: log => announced log
  end.

Section loop_run.
Context {E R : Type} `{CogpuLaws E} `{!CogpuWindows E} `{WL : !CogpuWindowsLaws E} `{RendererLaws R}.
Implicit Types (d : @daemon E R) (T : list Z) (f : @fences (@daemon E R)) (s : @loop_st E R).

(** The chain in the loop's hand. *)
Definition hand_at (p : pc) : in_hand :=
  match p with Answering i head written park => Some (i, head, written, park) | _ => None end.

Definition pc_ok (p : pc) : Prop :=
  match p with
  | Joining i | Taking i | Answering i _ _ _ => 0 <= i
  | Serving i chain => 0 <= i /\ chain_ok chain
  | Top | Reporting => True
  end.

Definition told s : Prop :=
  match lp_pc s with
  | Top => announced (fn_log (lp_fences s))
  | _ => lp_did s = false -> announced (fn_log (lp_fences s))
  end.

Record loop_holds B s : Prop := {
  li_gpu : gpu_inv B (lp_lent s, lp_gpu s);
  li_fences : fences_ok (hand_at (lp_pc s)) (lp_fences s);
  li_park : g_park_req (lp_gpu s) = None;
  li_pc : pc_ok (lp_pc s);
  li_told : told s;
}.

(** A turn of the loop, seen from the daemon and from the fences. *)
Record simulated s s' : Prop := {
  si_gpu : rtc gpu_step (lp_lent s, lp_gpu s) (lp_lent s', lp_gpu s');
  si_fences : rtc fence_step (hand_at (lp_pc s), lp_fences s) (hand_at (lp_pc s'), lp_fences s');
  si_park : g_park_req (lp_gpu s') = None;
  si_pc : pc_ok (lp_pc s');
  si_told : told s';
}.

Lemma simulated_inv B s s' : loop_holds B s -> simulated s s' -> loop_holds B s'.
Proof using WL.
  intros [Hg Hf _ _ _] [Rg Rf Hp Hpc Ht]. split; [by eapply run_inv|exact (fence_run_ok _ _ Rf Hf)|done..].
Qed.

(** A piece that leaves the fences alone. *)
Lemma simulated_state p did T f p' did' T' d :
  hand_at p = hand_at p' -> turned T (fn_state f) T' d -> g_park_req (dm_gpu (fn_state f)) = None -> pc_ok p' ->
  told (Loop p' did' T' (put_state d f)) -> simulated (Loop p did T f) (Loop p' did' T' (put_state d f)).
Proof using.
  intros Hh [Hr _ Hp] Hpark Hpc Ht. split; cbn; try done.
  - rewrite Hh. apply rtc_once, fence_other.
  - unfold lp_gpu, lp_daemon. cbn. congruence.
Qed.

Lemma under_ran {A} (m : M (@daemon E R) A) (Q : A -> daemon -> Prop) f a f' :
  (forall Y, wp m Q Y (fn_state f)) -> under m f = (Ret a, f') -> exists d, f' = put_state d f /\ Q a d.
Proof using. intros Hm Hr. exact (wp_ran _ _ _ _ _ _ (wp_under m Q f (fun _ _ => False) Hm) Hr). Qed.

Lemma main_simulated B s s' : main_step s s' -> loop_holds B s -> simulated s s'.
Proof using WL.
  intros Hs [Hg Hf Hp Hpc Ht]. unfold lp_gpu, lp_daemon in *.
  destruct Hs as [did T f f' Hr|i did T f ts f' Hi Hr|i did T f Hi|i did T f chain f' Hi Hr|i did T f f' Hi Hr|
    i chain did T f w park f' Hfew Hho Hr|i head written park did T f now f' Hr|i did T f did' f' Hi Hr|did T f f' Hr];
    cbn [lp_pc lp_did lp_lent lp_fences hand_at pc_ok told] in *.
  - destruct (under_ran _ _ _ _ _ (fun Y => begin_ok B T (fn_state f) Y Hg) Hr) as (d & -> & Htu).
    apply simulated_state; try done. by intros _.
  - destruct (under_ran _ _ _ _ _ (fun Y => join_ok B i T (fn_state f) Y Hg) Hr) as (d & -> & Htu).
    apply simulated_state; try done. cbn. lia.
  - split; cbn; try done.
  - destruct (under_ran _ _ _ _ _ (fun Y => wp_main_pop B T i (fn_state f) Y Hg) Hr) as (d & -> & Htu & Hch).
    apply simulated_state; try done. split; [done|by apply Hch].
  - destruct (under_ran _ _ _ _ _ (fun Y => wp_main_pop B T i (fn_state f) Y Hg) Hr) as (d & -> & Htu & _).
    apply simulated_state; try done. cbn. lia.
  - destruct Hpc as [Hi Hch]. destruct (wp_ran _ _ _ _ _ _ (serve_one_ok B T i chain f (fun _ _ => False) Hg Hch Hfew Hho) Hr)
      as (d & -> & Hrun & Hnone). cbn [fst snd]. split; cbn; try done. apply rtc_once. by apply fence_serve.
  - pose proof (answer_turned T _ _ _ _ _ _ _ Hr) as [Hrun _ Hpark].
    destruct (wp_ran _ _ _ _ _ _ (answer_ok i head written park f Hf) Hr) as [_ Hq]. split; cbn; try done.
    + apply rtc_once. by eapply fence_answer.
    + unfold lp_gpu, lp_daemon. cbn. congruence.
    + unfold told in *. cbn in *. intros [Hd ->]%orb_false_iff. rewrite Hq by done. by apply Ht.
  - pose proof (drain_turned T _ _ _ _ (proj1 Hf) Hr) as [Hrun _ Hpark].
    destruct (wp_ran _ _ _ _ _ _ (wp_drain did f (fun _ _ => False) (proj1 Hf)) Hr) as [-> Hq]. split; cbn; try done.
    + apply rtc_once. by eapply fence_drain.
    + unfold lp_gpu, lp_daemon. cbn. congruence.
    + unfold told in *. cbn in *. intros Hd. destruct (Hq Hd) as [-> ->]. by apply Ht.
  - destruct (wp_ran _ _ _ _ _ _ (report_ok T did f (fun _ _ => False)) Hr) as (d & [Hrun _ Hpark] & ->).
    destruct did; split; cbn; try done.
    + etrans; [apply rtc_once, fence_report|]. etrans; [apply rtc_once, (fence_other _ _ d)|apply rtc_once, fence_wake].
    + unfold lp_gpu, lp_daemon. cbn. congruence.
    + apply rtc_once, fence_report.
    + by apply Ht.
Qed.

Lemma aside_turn x y : aside x y -> gpu_step x y /\ g_park_req y.2 = g_park_req x.2.
Proof using.
  assert (forall A (m : M (@cogpu E) A) (g : @gpu E R) a g', cached m g = (Ret a, g') -> g_park_req g' = g_park_req g) as Hpark.
  { intros A m g a g'. unfold cached. destruct (m (d_cache g)) as [r c]. by intros [= _ <-]. }
  intros [T g gpa len p g' Hg Hl Hr|T g gpa len p t g' Hg Hl Hr|T T' t g g' HT Hr|T g m]; cbn [snd].
  - split; [exact (step_resolve T g false gpa len p g' Hg Hl Hr)|by eapply Hpark].
  - split; [exact (step_pin T g gpa len p t g' Hg Hl Hr)|by eapply Hpark].
  - split; [exact (step_unpin T T' t g g' HT Hr)|by eapply Hpark].
  - split; [apply step_memory|done].
Qed.

Lemma announced_signal c r i f f' :
  ring_ok f -> cogpu_ctx_fence_signal c r i f = (Ret tt, f') -> announced (fn_log f) -> announced (fn_log f').
Proof using.
  intros Hok Hr. rewrite signal_run in Hr by done. injection Hr as <-. by destruct (ring_count f <? FENCE_SIGS).
Qed.

Lemma step_simulated B s s' : loop_step s s' -> loop_holds B s -> simulated s s'.
Proof using WL.
  intros Hs Hok. destruct Hs as [s s' Hm|p did T f c r i f' Hr|p did T f T' g' Ha]; [by eapply main_simulated|..].
  - destruct Hok as [Hg Hf Hp Hpc Ht]. pose proof (announced_signal c r i f f' (proj1 Hf) Hr) as Hlog.
    assert (fn_state f' = fn_state f) as Hst by (rewrite signal_run in Hr by apply Hf; injection Hr as <-; by destruct (ring_count f <? FENCE_SIGS)).
    split; unfold lp_gpu, lp_daemon in *; cbn in *; try done; rewrite ?Hst; try done.
    + apply rtc_once. by eapply fence_signal.
    + unfold told in *. cbn in *. destruct p; auto.
  - destruct Hok as [Hg Hf Hp Hpc Ht]. destruct (aside_turn _ _ Ha) as [Hturn Hpark]. cbn in Hpark.
    split; unfold lp_gpu, lp_daemon in *; cbn in *; try done.
    + by apply rtc_once.
    + apply rtc_once, fence_other.
    + congruence.
Qed.

Lemma start_holds B s : loop_start B s -> loop_holds B s.
Proof using.
  intros [[Hpc HT] [d Hd] Hg Hp]. destruct s as [p did T f]. unfold lp_gpu, lp_daemon in *. cbn in *. subst.
  split; unfold lp_gpu, lp_daemon; cbn; try done; [by apply start_inv|apply fresh_ok].
Qed.

Lemma loop_run_holds B s s' : loop_start B s -> rtc loop_step s s' ->
  loop_holds B s' /\ rtc gpu_step ([], lp_gpu s) (lp_lent s', lp_gpu s') /\
  rtc fence_step (None, lp_fences s) (hand_at (lp_pc s'), lp_fences s').
Proof using WL.
  intros Hst Hr. pose proof (start_holds B s Hst) as Hinit. destruct (ls_pc _ _ Hst) as [Hpc HT].
  replace [] with (lp_lent s). replace (@None (Z * Z * Z * option park_req)) with (hand_at (lp_pc s)) by by rewrite Hpc.
  clear Hst Hpc HT. induction Hr as [s|s s1 s2 Hs _ IH]; [by split; [|split]|].
  pose proof (step_simulated B s s1 Hs Hinit) as Hsim. destruct (IH (simulated_inv B s s1 Hinit Hsim)) as (Hok & Hg & Hf).
  split; [done|]. split; etrans; [apply (si_gpu _ _ Hsim)|done|apply (si_fences _ _ Hsim)|done].
Qed.

(** ** What holds *)

(** C7: While every request served is [honest], so that it attaches backing only
    to a resource that has none and gives GET_CAPSET a buffer that holds the
    capset, and the table of pins has room: at every moment of the loop the
    renderer's iovecs lead into mapped guest memory; no served chain is lost or
    answered twice, and one is answered only when it has no fence to wait for,
    the table is full, or a signal covers its fence; and when a pass ends the
    guest has been woken after the last answer. Of a guest that attaches backing
    twice the first is false of the code ([DemoGpu.refused_attach_unpins]). *)
Theorem loop_keeps_promises B s s' :
  loop_start B s -> rtc loop_step s s' ->
  (forall id l i, holds (lp_gpu s') id l -> i ∈ l -> live_memory (d_cache (lp_gpu s')) i) /\
  (served_of (fn_log (lp_fences s')) ≡ₚ published_of (fn_log (lp_fences s')) ++
     parked_of (g_parked (lp_fences s')) ++ hand_of (hand_at (lp_pc s'))) /\
  justified (fn_log (lp_fences s')) /\
  (lp_pc s' = Top -> announced (fn_log (lp_fences s'))).
Proof using WL.
  intros Hst Hr. destruct (loop_run_holds B s s' Hst Hr) as ([Hg Hf _ _ Ht] & _). split; [|split; [|split]].
  - intros id l i. by apply (inv_live B (lp_lent s')), Hg.
  - apply (ho_once _ _ _ (proj2 Hf)).
  - apply (ho_justified _ _ _ (proj2 Hf)).
  - intros Hpc. unfold told in Ht. by rewrite Hpc in Ht.
Qed.

Lemma under_total {A} (m : M (@daemon E R) A) (Q : A -> daemon -> Prop) f :
  (forall Y, wp m Q Y (fn_state f)) -> exists a f', under m f = (Ret a, f').
Proof using.
  intros Hm. destruct (wp_total _ _ _ (wp_under m Q f (fun _ _ => False) Hm)) as (a & f' & Hr & _). by exists a, f'.
Qed.

End loop_run.
