(* ===== verification/Demo.v ===== *)
(** A concrete machine: the loader's state built by the loader's own code on
    [SimpleHost], small enough to run, on which the theorems with hypotheses
    are applied. *)
From stdpp Require Import relations.
From S2P Require Import Prelude.
From S2P Require Import Rc.
From S2P Require Import Mem.
From S2P Require Import Mmu.
From S2P Require Import Space.
From S2P Require Import Host.
From S2P Require Import Frames.
From S2P Require Import FramesOk.
From S2P Require Import Grow.
From S2P Require Import Windows.
From S2P Require Import Translation.
From S2P Require Import Kload.
From S2P Require Import KloadSpace.
From S2P Require Import GuestAccess.
From S2P Require Import Loaded.
From S2P Require Import Teardown.
From S2P Require Import Loading.
From S2P Require Import LoadChunk.

#[export] Existing Instances SimpleHost.os SimpleHost.laws.

Abbreviation machine := (world SimpleHost.host).

Definition demo_boot : machine :=
  World (fun _ => 0) (SimpleHost.boot 4096) kload_zero false 0 0 0 ∅ (Locks false false false).

(** Tables for 64 pseudo pages, 20 of them RAM. *)
Definition demo_tables : machine := (kload_translation_alloc 64 demo_boot).2.
Definition demo_ram : machine := (kload_grow_to (20 * CO_ARCH_PAGE_SIZE) demo_tables).2.

(** Pages 8 to 15 are the reserved table range; the hooks are installed. *)
Definition demo_ready : machine :=
  with_tables (8 * CO_ARCH_PAGE_SIZE) (16 * CO_ARCH_PAGE_SIZE) (16 * CO_ARCH_PAGE_SIZE) demo_ram.

Lemma demo_tables_ok :
  frames_ok (w_os demo_tables) (w_kl demo_tables) /\ tables_ok (w_kl demo_tables).
Proof.
  assert (no_ram (w_kl demo_boot)) as Hn by (split; [done|done|by vm_compute]).
  pose proof (wp_computed _ _ _ _ tt (wp_translation_alloc demo_boot 64
    (SimpleHost.boot_ok 4096) Hn ltac:(lia) eq_refl eq_refl)
    ltac:(vm_compute; reflexivity)) as (_ & Hok & _).
  unfold demo_tables. split; [exact Hok|exact (fo_tables _ _ Hok)].
Qed.

Lemma demo_ram_grown : grown demo_tables demo_ram.
Proof.
  pose proof (wp_computed _ _ _ _ true (wp_grow_to demo_tables (20 * CO_ARCH_PAGE_SIZE)
    (fun _ _ => False) (proj1 demo_tables_ok) ltac:(by vm_compute))
    ltac:(vm_compute; reflexivity)) as (Hg & _).
  exact Hg.
Qed.

Lemma demo_ready_inv : kload_inv demo_ready.
Proof.
  apply kload_inv_with_tables; [exact (gr_ok _ _ demo_ram_grown)|].
  split; vm_compute; [done|split; done|done|done|done].
Qed.

(** The address space, and one page mapped in it. *)
Definition space_of (r : outcome co_arch_guest_space * machine) : co_arch_guest_space :=
  match r.1 with Ret s => s | _ => Space 0 0 end.

Definition demo_made := co_arch_guest_space_create true demo_ready.
Definition demo_space : co_arch_guest_space := space_of demo_made.
Definition demo_empty : machine := demo_made.2.

Definition demo_va : Z := CO_ARCH_KERNEL_MAP + 0x5000.
Definition demo_mapping :=
  co_arch_guest_map demo_va 0x7003000 KERNPG_TABLE (demo_empty, demo_space).

Lemma demo_ready_env : env_inv demo_ready.
Proof. exact demo_ready_inv. Qed.

Lemma demo_space_ok :
  space_ok demo_empty demo_space {[pml4_pfn demo_space := 0]} /\
  forall va, translate 3 demo_empty (pml4_pfn demo_space) va = None.
Proof.
  exact (proj2 (wp_computed _ _ _ _ demo_space (wp_space_create demo_ready demo_ready_env)
    ltac:(vm_compute; reflexivity))).
Qed.

Lemma kernpg_flags : leaf_flags KERNPG_TABLE.
Proof. exact kernpg_leaf_flags. Qed.

Lemma guest_space_create_empty_witness :
  exists r w, co_arch_guest_lookup demo_space demo_va demo_empty = (Ret r, w) /\
              r.1 = (CO_RC_NOT_FOUND, 0).
Proof.
  destruct (guest_space_create_empty demo_ready demo_space demo_empty demo_ready_env)
    as (_ & _ & H).
  - apply (run_ret (co_arch_guest_space_create true) demo_ready demo_space).
    vm_compute. reflexivity.
  - apply H. vm_compute. reflexivity.
Defined.

Lemma guest_map_then_lookup_witness :
  exists r w, co_arch_guest_lookup demo_mapping.2.2 demo_va demo_mapping.2.1 = (Ret r, w) /\
              r.1 = (CO_RC_OK, 0x7003000).
Proof.
  destruct (guest_map_then_lookup demo_empty demo_space _ demo_va 0x7003000 KERNPG_TABLE
    demo_mapping.2.1 demo_mapping.2.2 (proj1 demo_space_ok)) as (_ & H & _).
  - split; reflexivity || (vm_compute; done).
  - split; vm_compute; done.
  - exact kernpg_flags.
  - rewrite <- surjective_pairing.
    apply (run_ret (co_arch_guest_map demo_va 0x7003000 KERNPG_TABLE) (demo_empty, demo_space) tt).
    vm_compute. reflexivity.
  - exact H.
Defined.

(** A space whose table range holds only its root: the first mapping of a
    page runs out of frames. *)
Definition cramped_ready : machine :=
  with_tables (8 * CO_ARCH_PAGE_SIZE) (16 * CO_ARCH_PAGE_SIZE) (10 * CO_ARCH_PAGE_SIZE) demo_ram.

Lemma cramped_inv : kload_inv cramped_ready.
Proof.
  apply kload_inv_with_tables; [exact (gr_ok _ _ demo_ram_grown)|].
  split; vm_compute; [done|split; done|done|done|done].
Qed.

Lemma cramped_env : env_inv cramped_ready.
Proof. exact cramped_inv. Qed.

Definition cramped_made := co_arch_guest_space_create true cramped_ready.
Definition cramped_space : co_arch_guest_space := space_of cramped_made.

Lemma cramped_space_ok :
  space_ok cramped_made.2 cramped_space {[pml4_pfn cramped_space := 0]} /\
  forall va, translate 3 cramped_made.2 (pml4_pfn cramped_space) va = None.
Proof.
  exact (proj2 (wp_computed _ _ _ _ cramped_space (wp_space_create cramped_ready cramped_env)
    ltac:(vm_compute; reflexivity))).
Qed.

Definition cramped_mapping :=
  co_arch_guest_map demo_va 0x7003000 KERNPG_TABLE (cramped_made.2, cramped_space).

Lemma guest_map_failure_harmless_witness :
  exists T', space_ok cramped_mapping.2.1 cramped_mapping.2.2 T'.
Proof.
  destruct (guest_map_failure_harmless cramped_made.2 cramped_space _ demo_va 0x7003000
    KERNPG_TABLE CO_RC_OUT_OF_MEMORY cramped_mapping.2.1 cramped_mapping.2.2
    (proj1 cramped_space_ok)) as (H & _).
  - split; vm_compute; done.
  - split; vm_compute; done.
  - exact kernpg_flags.
  - rewrite <- surjective_pairing.
    apply (run_fail (co_arch_guest_map demo_va 0x7003000 KERNPG_TABLE)
      (cramped_made.2, cramped_space) CO_RC_OUT_OF_MEMORY).
    vm_compute. reflexivity.
  - exact H.
Defined.

(** ** Frames *)

Lemma pseudo_frame_va_is_linear_witness :
  exists h, 0 <= h < CO_KLOAD_MAX_BLOCKS /\
    co_kload_pseudo_frame_va 17 demo_ram
      = (Ret (linear_frame_va (w_kl demo_ram) 17), upd_kl (set_last_hit h) demo_ram).
Proof.
  exact (pseudo_frame_va_is_linear demo_ram 17 (gr_ok _ _ demo_ram_grown) ltac:(lia)).
Defined.

Lemma m2p_inverts_p2m_witness :
  kload_machine_to_pseudo_pfn (p2m_at (w_kl demo_ram) 11) demo_ram = (Ret (Some 11), demo_ram).
Proof.
  exact (proj1 (m2p_inverts_p2m demo_ram 11 0 (gr_ok _ _ demo_ram_grown)
    ltac:(split; vm_compute; done))).
Defined.

Lemma grow_to_extends_witness :
  exists ok w', kload_grow_to (20 * CO_ARCH_PAGE_SIZE) demo_tables = (Ret ok, w') /\
    grown demo_tables w'.
Proof.
  destruct (grow_to_extends demo_tables (20 * CO_ARCH_PAGE_SIZE) (proj1 demo_tables_ok)
    ltac:(split; vm_compute; done)) as (ok & w' & Hrun & Hg & _).
  exists ok, w'. split; [exact Hrun|exact Hg].
Defined.

(** ** Windows: an arena of 32 slots above 32 pages *)

Definition demo_arena : machine := upd_kl (set_window_base_pages 32) demo_ram.

Lemma window_base_neutral v : neutral (set_window_base_pages v).
Proof. intros k. reflexivity. Qed.

Lemma demo_arena_tables : tables_ok (w_kl demo_arena).
Proof.
  apply (fo_tables (w_os demo_ram)).
  exact (frames_ok_core (w_os demo_ram) (w_kl demo_ram) (w_kl demo_arena)
           (window_base_neutral 32 (w_kl demo_ram)) (gr_ok _ _ demo_ram_grown)).
Qed.

Definition demo_window : list Z := [0x71; 0x72; 0x73].
Definition demo_placed :=
  co_kload_window_map_at (Some demo_window) 3 (61 * CO_ARCH_PAGE_SIZE) demo_arena.

Lemma demo_places :
  co_kload_window_map_at (Some demo_window) (Z.of_nat (length demo_window))
    (61 * CO_ARCH_PAGE_SIZE) demo_arena = (Ret tt, demo_placed.2).
Proof.
  change (Z.of_nat (length demo_window)) with 3.
  exact (run_ret (co_kload_window_map_at (Some demo_window) 3 (61 * CO_ARCH_PAGE_SIZE))
           demo_arena tt ltac:(vm_compute; reflexivity)).
Qed.

(** The second frame of this window is missing. *)
Lemma window_map_at_all_or_nothing_witness :
  match co_kload_window_map_at (Some [0x71; 0; 0x73]) 3 (40 * CO_ARCH_PAGE_SIZE) demo_arena with
  | (Fail _, w') => forall j, p2m_at (w_kl w') j = p2m_at (w_kl demo_arena) j
  | _ => False
  end.
Proof.
  pose proof (window_map_at_all_or_nothing demo_arena [0x71; 0; 0x73] (40 * CO_ARCH_PAGE_SIZE)
    demo_arena_tables ltac:(vm_compute; done) ltac:(split; vm_compute; done)
    ltac:(vm_compute; done) ltac:(vm_compute; done)) as H.
  cbn [length] in H. change (Z.of_nat 3) with 3 in H.
  assert ((co_kload_window_map_at (Some [0x71; 0; 0x73]) 3 (40 * CO_ARCH_PAGE_SIZE) demo_arena).1
          = Fail CO_RC_INVALID_PARAMETER) as E by (vm_compute; reflexivity).
  apply run_fail in E. rewrite E in H |- *. exact H.
Defined.

Lemma window_unmap_undoes_map_at_witness :
  exists w2, co_kload_window_unmap (61 * CO_ARCH_PAGE_SIZE) 3 demo_placed.2 = (Ret tt, w2) /\
    forall j, p2m_at (w_kl w2) j = p2m_at (w_kl demo_arena) j.
Proof.
  change 3 with (Z.of_nat (length demo_window)).
  apply (window_unmap_undoes_map_at demo_arena demo_window (61 * CO_ARCH_PAGE_SIZE) demo_placed.2).
  - exact demo_arena_tables.
  - vm_compute. done.
  - split; vm_compute; done.
  - split; vm_compute; done.
  - vm_compute. done.
  - vm_compute. done.
  - exact demo_places.
Defined.

(** The slots below the watermark are taken already, and handed out again. *)
Lemma demo_placed_tables : tables_ok (w_kl demo_placed.2).
Proof.
  pose proof (wp_window_map_at demo_arena demo_window 3 (61 * CO_ARCH_PAGE_SIZE)
    demo_arena_tables ltac:(vm_compute; done) ltac:(split; vm_compute; done)
    ltac:(vm_compute; done) ltac:(vm_compute; reflexivity) ltac:(vm_compute; done)) as Hwp.
  pose proof (wp_computed _ _ _ _ tt Hwp ltac:(vm_compute; reflexivity))
    as (_ & _ & _ & _ & _ & _ & (k1 & He & Hp & _)).
  unfold demo_placed. rewrite He. exact (p2m_only_tables _ _ demo_arena_tables Hp).
Qed.

Lemma window_map_ignores_occupancy_witness :
  p2m_at (w_kl demo_placed.2) 62 = 0x72 /\
  exists w', co_kload_window_map (Some [0x91; 0x92; 0x93]) 3 demo_placed.2
               = (Ret (61 * CO_ARCH_PAGE_SIZE), w') /\
             p2m_at (w_kl w') 62 = 0x92.
Proof.
  split; [vm_compute; reflexivity|].
  destruct (window_map_ignores_occupancy demo_placed.2 [0x91; 0x92; 0x93] demo_placed_tables)
    as (w' & Hrun & _ & Hj).
  - split; vm_compute; done.
  - vm_compute. done.
  - split; vm_compute; done.
  - apply (bool_decide_unpack _). vm_compute. done.
  - exists w'. split.
    + assert (kload_window_next (w_kl demo_placed.2) - Z.of_nat (length [0x91; 0x92; 0x93]) = 61)
        as E by (vm_compute; reflexivity).
      rewrite E in Hrun. exact Hrun.
    + specialize (Hj 62).
      assert (kload_window_next (w_kl demo_placed.2) - Z.of_nat (length [0x91; 0x92; 0x93]) = 61)
        as E by (vm_compute; reflexivity).
      rewrite E in Hj. vm_compute in Hj. by injection Hj.
Defined.

(** ** A loaded space: two pages of it over pages 3 and 17 of guest RAM *)

Definition demo_loaded : machine := upd_kl (set_space (Some demo_space)) demo_empty.
Definition ram_pa (p : Z) : Z := p2m_at (w_kl demo_ram) p * CO_ARCH_PAGE_SIZE.
Definition demo_one : machine :=
  (on_space (co_arch_guest_map demo_va (ram_pa 17) KERNPG_TABLE) demo_loaded).2.
Definition demo_two : machine :=
  (on_space (co_arch_guest_map (demo_va + CO_ARCH_PAGE_SIZE) (ram_pa 3) KERNPG_TABLE) demo_one).2.
Definition current_space (w : machine) : co_arch_guest_space :=
  default (Space 0 0) (kload_space (w_kl w)).

Lemma demo_loaded_ok : loaded demo_loaded demo_space {[pml4_pfn demo_space := 0]}.
Proof.
  split; [|reflexivity].
  exact (bookkept_ok _ _ _ _ (bookkept_upd demo_empty (set_space (Some demo_space))
           (fun k => eq_refl)) (proj1 demo_space_ok)).
Qed.

Lemma on_space_loaded w s T va pa :
  loaded w s T -> 0 <= va < 2 ^ 64 -> 0 <= pa < 2 ^ 63 ->
  (on_space (co_arch_guest_map va pa KERNPG_TABLE) w).1 = Ret tt ->
  exists T', loaded (on_space (co_arch_guest_map va pa KERNPG_TABLE) w).2
    (current_space (on_space (co_arch_guest_map va pa KERNPG_TABLE) w).2) T'.
Proof.
  intros Hl Hva Hpa Hrun.
  pose proof (wp_computed _ _ _ _ tt (wp_on_space_map w s T va pa KERNPG_TABLE Hl Hva Hpa
    kernpg_flags) Hrun) as (_ & _ & s' & T' & Hl' & _).
  exists T'. unfold current_space. rewrite (ld_space _ _ _ Hl'). exact Hl'.
Qed.

Lemma demo_two_ok : exists T, loaded demo_two (current_space demo_two) T.
Proof.
  destruct (on_space_loaded demo_loaded demo_space _ demo_va (ram_pa 17) demo_loaded_ok)
    as [T1 H1]; [split; vm_compute; done|split; vm_compute; done|vm_compute; reflexivity|].
  exact (on_space_loaded demo_one (current_space demo_one) T1 (demo_va + CO_ARCH_PAGE_SIZE)
    (ram_pa 3) H1 ltac:(split; vm_compute; done) ltac:(split; vm_compute; done)
    ltac:(vm_compute; reflexivity)).
Qed.

Lemma demo_two_runs : exists T,
  kload_inv demo_two /\ tree demo_two (pml4_pfn (current_space demo_two)) T /\
  kload_space (w_kl demo_two) = Some (current_space demo_two).
Proof.
  destruct demo_two_ok as [T H]. destruct (loaded_inv _ _ _ H) as [Hi HT].
  exists T. split; [exact Hi|split; [exact HT|exact (ld_space _ _ _ H)]].
Qed.

(** A range across the two pages. *)
Definition demo_range : Z := demo_va + CO_ARCH_PAGE_SIZE - 2.

Lemma kload_read_refines_walk_witness :
  exists w', co_kload_read demo_range 5 demo_two = (Ret [0; 0; 0; 0; 0], w').
Proof.
  destruct demo_two_runs as (T & Hi & HT & Hs).
  destruct (kload_read_refines_walk demo_two _ T demo_range 5 Hi HT Hs) as (w' & _ & Hrun).
  - split; vm_compute; done.
  - split; vm_compute; done.
  - vm_compute. done.
  - exists w'. rewrite Hrun.
    assert (guest_read (Z.to_nat 5) demo_two (pml4_pfn (current_space demo_two)) demo_range
      = inl [0; 0; 0; 0; 0]) as -> by (vm_compute; reflexivity). reflexivity.
Defined.

Lemma kload_verify_sums_read_witness :
  match (co_kload_read demo_range 5 demo_two).1, (co_kload_verify demo_range 5 demo_two).1 with
  | Ret bs, Ret sum => sum = fold_left fnv_step bs fnv_offset_basis
  | Fail rc, Fail rc' => rc = rc'
  | _, _ => False
  end.
Proof.
  destruct demo_two_runs as (T & Hi & HT & Hs).
  apply (kload_verify_sums_read demo_two _ T demo_range 5 Hi HT Hs).
  - split; vm_compute; done.
  - split; vm_compute; done.
  - vm_compute. done.
Defined.

(** The data pages of the range, by running over its bytes. *)
Definition ptr_of (i : Z) : Z :=
  match guest_ptr demo_two (pml4_pfn (current_space demo_two)) (demo_range + i) with
  | inl p => p | inr _ => 0
  end.

Definition data_check (i j p : Z) : bool :=
  let k := w_kl demo_two in
  let q := block_page k i + j in
  let a := block_va (block_at k i) + j * CO_ARCH_PAGE_SIZE in
  ((0 <=? i) && (i <? kload_block_count k) && (0 <=? j) && (j <? block_pages (block_at k i))
   && negb ((kload_table_top k <=? q * CO_ARCH_PAGE_SIZE)
            && (q * CO_ARCH_PAGE_SIZE <? kload_table_end k))
   && (a <=? p) && (p <? a + CO_ARCH_PAGE_SIZE))%bool.

Lemma data_check_ok i j p : data_check i j p = true -> data_byte demo_two p.
Proof.
  unfold data_check, data_byte, page_va, table_page. generalize (w_kl demo_two). intros k Hc.
  repeat (apply andb_true_iff in Hc; destruct Hc as [Hc ?]).
  repeat match goal with
  | H : (_ <=? _) = true |- _ => apply Z.leb_le in H
  | H : (_ <? _) = true |- _ => apply Z.ltb_lt in H
  end.
  exists (block_page k i + j), (block_va (block_at k i) + j * CO_ARCH_PAGE_SIZE).
  split; [exists i, j; split_and!; (lia || reflexivity)|]. split; [|lia].
  intros [Hlo Hhi]. match goal with H : negb _ = true |- _ => rename H into Ht end.
  apply negb_true_iff, andb_false_iff in Ht.
  destruct Ht as [Ht|Ht]; [apply Z.leb_gt in Ht|apply Z.ltb_ge in Ht]; lia.
Qed.

Lemma demo_writable :
  writable demo_two (pml4_pfn (current_space demo_two)) demo_range 5.
Proof.
  assert (forall i, 0 <= i < 5 -> i = 0 \/ i = 1 \/ i = 2 \/ i = 3 \/ i = 4) as Hcase by lia.
  split.
  - intros i p Hi Hp.
    assert (p = ptr_of i) as -> by (unfold ptr_of; by rewrite Hp).
    destruct (Hcase i Hi) as [->|[->|[->|[->| ->]]]];
      [apply (data_check_ok 0 17)|apply (data_check_ok 0 17)|apply (data_check_ok 0 3)..];
      vm_compute; reflexivity.
  - intros i j p Hi Hj Hpi Hpj.
    assert (ptr_of i = ptr_of j) as E by (unfold ptr_of; by rewrite Hpi, Hpj).
    destruct (Hcase i Hi) as [->|[->|[->|[->| ->]]]];
      destruct (Hcase j Hj) as [->|[->|[->|[->| ->]]]];
      solve [reflexivity|vm_compute in E; discriminate E].
Qed.

Definition demo_data : list Z := [0x4d; 0x6f; 0x43; 0x6f; 0x21].

Lemma kload_write_then_read_witness :
  exists w' w'', co_kload_write demo_range demo_data 5 demo_two = (Ret tt, w') /\
                 co_kload_read demo_range 5 w' = (Ret demo_data, w'').
Proof.
  destruct demo_two_runs as (T & Hi & HT & Hs).
  pose proof (kload_write_then_read demo_two _ T demo_range demo_data Hi HT Hs demo_writable) as H.
  change (Z.of_nat (length demo_data)) with 5 in H.
  specialize (H ltac:(repeat constructor; vm_compute; done) ltac:(split; vm_compute; done)
                ltac:(vm_compute; done) ltac:(vm_compute; done)). cbv zeta in H.
  pose proof (run_ret (co_kload_write demo_range demo_data 5) demo_two tt
    ltac:(vm_compute; reflexivity)) as E.
  change (Z.of_nat (length demo_data)) with 5 in H. rewrite E in H.
  destruct H as [[w'' Hrd] _]. eexists _, w''. split; [exact E|exact Hrd].
Defined.

(** Page 600 of a table of 512 cells for 64 pages. *)
Lemma window_map_at_overruns_witness :
  co_kload_window_map_at (Some demo_window) 3 (600 * CO_ARCH_PAGE_SIZE) demo_arena
    = (Fault, demo_arena).
Proof.
  apply (window_map_at_overruns demo_arena demo_window (600 * CO_ARCH_PAGE_SIZE)).
  - exact demo_arena_tables.
  - split; vm_compute; done.
  - vm_compute. reflexivity.
  - vm_compute. done.
  - vm_compute. done.
  - vm_compute. reflexivity.
  - split; vm_compute; done.
Defined.

(** ** Teardown *)

Lemma running_neutral n r : neutral (fun k => set_ram_ready r (set_user_maps n k)).
Proof. intros k. reflexivity. Qed.

Lemma running_inv_of (w : machine) n r :
  kload_inv w -> kload_pending_free (w_kl w) = false -> 0 <= n ->
  run_inv (upd_kl (fun k => set_ram_ready r (set_user_maps n k)) w).
Proof.
  intros (Hok & _ & Hh) Hp Hn.
  pose proof (frames_ok_core (w_os w) (w_kl w) _ (running_neutral n r (w_kl w)) Hok) as Hok'.
  split; [exact (fo_os _ _ Hok)|exact Hn|right; exact Hok'|intros _; exact Hok'
         |intros _; exact Hh|].
  cbn. rewrite Hp. done.
Qed.

Lemma running_inv n r :
  0 <= n -> run_inv (upd_kl (fun k => set_ram_ready r (set_user_maps n k)) demo_two).
Proof.
  destruct demo_two_runs as (T & Hi & _ & _).
  exact (running_inv_of demo_two n r Hi ltac:(vm_compute; reflexivity)).
Qed.

Definition demo_running : machine := upd_kl (fun k => set_ram_ready true (set_user_maps 0 k)) demo_two.
Definition demo_shared : machine := upd_kl (fun k => set_ram_ready true (set_user_maps 1 k)) demo_two.

Lemma teardown_returns_all_once_witness :
  exists w1, co_kload_free demo_running = (Ret tt, w1) /\ idle (w_kl w1) /\
    co_kload_free w1 = (Ret tt, w1).
Proof.
  destruct (teardown_returns_all_once demo_running (running_inv 0 true ltac:(lia)))
    as (o & w1 & _ & _ & Hrun & _ & Hid & _ & _ & _ & _ & _ & Hagain).
  - reflexivity.
  - intros Hid. apply id_space in Hid. vm_compute in Hid. discriminate Hid.
  - exists w1. split; [exact Hrun|split; [exact Hid|exact Hagain]].
Defined.

(** A teardown and a refused mapping happen while the window is open. *)
Definition shared_freed : machine := (co_kload_free demo_shared).2.

Lemma shared_frees : co_kload_free demo_shared = (Ret tt, shared_freed).
Proof. exact (run_ret co_kload_free demo_shared tt ltac:(vm_compute; reflexivity)). Qed.

Lemma shared_step : held_step demo_shared shared_freed.
Proof.
  split; [exact (life_free _ _ shared_frees)|].
  assert (kload_user_maps (w_kl shared_freed) = 1) as -> by (vm_compute; reflexivity). lia.
Qed.

Lemma user_map_pins_ram_witness : ram_held demo_shared shared_freed.
Proof.
  apply (user_map_pins_ram demo_shared shared_freed (running_inv 1 true ltac:(lia))).
  - vm_compute. reflexivity.
  - exact (rtc_once _ _ shared_step).
Defined.

Lemma last_close_releases_witness :
  exists w1 w2, co_kload_free demo_shared = (Ret tt, w1) /\
    co_kload_user_map_put w1 = (Ret tt, w2) /\ idle (w_kl w2).
Proof.
  destruct (last_close_releases demo_shared (running_inv 1 true ltac:(lia)) eq_refl)
    as (w1 & w2 & Hrun & _ & _ & Hput & Hid & _).
  exists w1, w2. split; [exact Hrun|split; [exact Hput|exact Hid]].
Defined.

Lemma begin_waits_for_user_maps_witness :
  exists w', co_kload_begin (fun _ => mret tt) true (CO_ARCH_KERNEL_MAP + 0x1000000)
    (CO_ARCH_KERNEL_MAP + 0x1800000) 0x8000000 0 0 demo_shared = (Fail CO_RC_ERROR, w') /\
    ram_held demo_shared w'.
Proof.
  destruct (begin_waits_for_user_maps (fun _ => mret tt) true (CO_ARCH_KERNEL_MAP + 0x1000000)
    (CO_ARCH_KERNEL_MAP + 0x1800000) 0x8000000 0 0 demo_shared (running_inv 1 true ltac:(lia)))
    as (w' & Hrun & _ & Hh).
  - vm_compute. reflexivity.
  - intros ms w _ _. exists w. split; [reflexivity|apply rtc_refl].
  - exists w'. split; [exact Hrun|exact Hh].
Defined.

(** A view at 0x10000000, offered with an empty address range. *)
Lemma refused_begin_keeps_view_witness :
  exists w', co_kload_begin (fun _ => mret tt) true CO_ARCH_KERNEL_MAP CO_ARCH_KERNEL_MAP
    0x8000000 0x10000000 0x8000000 demo_boot = (Fail CO_RC_INVALID_PARAMETER, w') /\
    kload_user_ram_va (w_kl w') = 0x10000000.
Proof.
  destruct (refused_begin_keeps_view (fun _ => mret tt) true CO_ARCH_KERNEL_MAP CO_ARCH_KERNEL_MAP
    0x8000000 0x10000000 0x8000000 demo_boot) as (w' & Hrun & _ & Hv & _).
  - split; [reflexivity..|]. split; [reflexivity..|vm_compute; split; [intros H|]; done].
  - reflexivity.
  - lia.
  - lia.
  - vm_compute. reflexivity.
  - vm_compute. reflexivity.
  - exists w'. split; [exact Hrun|exact Hv].
Defined.

(** ** Loading: an image of eight pages below the page tables *)

Definition ram_grown : machine :=
  (co_kload_build_ram (12 * CO_ARCH_PAGE_SIZE) CO_ARCH_KERNEL_MAP
    (CO_ARCH_KERNEL_MAP + 0x2000) demo_two).2.

Lemma ram_grows :
  co_kload_build_ram (12 * CO_ARCH_PAGE_SIZE) CO_ARCH_KERNEL_MAP
    (CO_ARCH_KERNEL_MAP + 0x2000) demo_two = (Ret tt, ram_grown).
Proof.
  exact (run_ret (co_kload_build_ram (12 * CO_ARCH_PAGE_SIZE) CO_ARCH_KERNEL_MAP
    (CO_ARCH_KERNEL_MAP + 0x2000)) demo_two tt ltac:(vm_compute; reflexivity)).
Qed.

(** Byte 5 of page 3, through the direct map. *)
Lemma build_ram_direct_map_witness :
  kload_ram_ready (w_kl ram_grown) = true /\
  exists a, page_va (w_kl ram_grown) 3 a /\
    guest_ptr ram_grown (pml4_pfn (current_space demo_two)) (direct_va 3 + 5) = inl (a + 5).
Proof.
  destruct demo_two_ok as [T Hl].
  pose proof (build_ram_direct_map demo_two (current_space demo_two) T (12 * CO_ARCH_PAGE_SIZE)
    CO_ARCH_KERNEL_MAP (CO_ARCH_KERNEL_MAP + 0x2000) Hl ltac:(split; vm_compute; done)) as H.
  rewrite ram_grows in H. destruct H as (Hready & _ & _ & Hmap & _). split; [exact Hready|].
  apply Hmap; split; vm_compute; done.
Defined.

(** The image range of a boot that starts at the kernel's base. *)
Definition image_setup (k : kload_statics) : kload_statics :=
  set_min_va CO_ARCH_KERNEL_MAP (set_max_va (CO_ARCH_KERNEL_MAP + kload_table_start k) k).

Lemma image_setup_loaded (w : machine) s T : loaded w s T -> loaded (upd_kl image_setup w) s T.
Proof.
  intros Hl. exact (proj1 (loaded_neutral w s T image_setup (fun _ => eq_refl) (fun _ => eq_refl) Hl)).
Qed.

Definition demo_image : machine := upd_kl image_setup demo_loaded.
Definition demo_root : Z := pml4_pfn demo_space.

Lemma demo_image_loaded : image_loaded demo_root demo_image.
Proof.
  split; [|exists demo_space, {[pml4_pfn demo_space := 0]};
           exact (conj (image_setup_loaded demo_loaded _ _ demo_loaded_ok) eq_refl)].
  split; [vm_compute; reflexivity|vm_compute; done|]. intros q [Hq Hb]. left.
  assert (kload_table_start (w_kl demo_image) = 8 * 4096) as Es by (vm_compute; reflexivity).
  rewrite Es in Hb. change CO_ARCH_PAGE_SIZE with 4096 in Hb.
  assert (q = 0 \/ q = 1 \/ q = 2 \/ q = 3 \/ q = 4 \/ q = 5 \/ q = 6 \/ q = 7) as Hc by lia.
  destruct Hc as [->|[->|[->|[->|[->|[->|[->| ->]]]]]]]; vm_compute; reflexivity.
Qed.

(** Five bytes across pages 1 and 2 of the image. *)
Definition chunk_va : Z := CO_ARCH_KERNEL_MAP + 0x1ffe.
Definition chunk_done : machine := (co_kload_chunk chunk_va demo_data 5 false demo_image).2.

Lemma chunk_runs : co_kload_chunk chunk_va demo_data 5 false demo_image = (Ret tt, chunk_done).
Proof.
  exact (run_ret (co_kload_chunk chunk_va demo_data 5 false) demo_image tt
    ltac:(vm_compute; reflexivity)).
Qed.

Lemma chunk_loads_image_witness :
  image_loaded demo_root chunk_done /\
  image_byte chunk_done demo_root (chunk_va + 2) = Some 0x43 /\
  exists w'', co_kload_read chunk_va 5 chunk_done = (Ret demo_data, w'').
Proof.
  pose proof (chunk_loads_image demo_image demo_root chunk_va demo_data 5 false demo_image_loaded
    ltac:(vm_compute; reflexivity) ltac:(vm_compute; done) ltac:(vm_compute; done)
    ltac:(split; vm_compute; done) ltac:(split; vm_compute; done) ltac:(vm_compute; done)
    ltac:(repeat constructor; vm_compute; done) (fun _ => eq_refl)) as H.
  rewrite chunk_runs in H. destruct H as (Hl & _ & _ & Hb & Hr). split; [exact Hl|].
  split; [|exact (Hr eq_refl)]. rewrite Hb by (split; vm_compute; done).
  unfold chunk_image. rewrite decide_True by (split; [lia|split; vm_compute; done]).
  rewrite decide_True by (split; [reflexivity|split; vm_compute; done]).
  replace (chunk_va + 2 - chunk_va) with 2 by lia. reflexivity.
Defined.
