(* ===== verification/DemoDevices.v ===== *)
(** The devices at concrete inputs.

    [FlatGuest] is a second implementation of the interface of [GuestMem], a
    guest whose memory is one array: the network theorems are applied to it at
    rings that wrap. The console and the GPU run on the loader itself, on the
    guest of [Demo]. *)
From S2P Require Import Prelude.
From S2P Require Import Rc.
From S2P Require Import Mem.
From S2P Require Import GuestMem.
From S2P Require Import Ring.
From S2P Require Import Net.
From S2P Require Import ConetRing.
From S2P Require Import Console.
From S2P Require Import Mmu.
From S2P Require Import Space.
From S2P Require Import Host.
From S2P Require Import Frames.
From S2P Require Import FramesOk.
From S2P Require Import Grow.
From S2P Require Import Kload.
From S2P Require Import KloadSpace.
From S2P Require Import GuestAccess.
From S2P Require Import KloadWindow.
From S2P Require Import Loaded.
From S2P Require Import Devices.
From S2P Require Import Demo.

Module FlatGuest.
Record flat := Flat { f_mem : mem; f_net : net_statics }.

#[export] Instance flat_mem : GuestMem flat := {|
  gm_read va n := gets (fun w => load_bytes (f_mem w) va n);
  gm_write va bs n := modify (fun w => Flat (store_bytes (f_mem w) va (take (Z.to_nat n) bs)) (f_net w));
  gm_read_u32 va := gets (fun w => load_u32 (f_mem w) va);
  gm_write_u32 va v := modify (fun w => Flat (store_u32 (f_mem w) va v) (f_net w));
|}.

Definition window (w : flat) (base size : Z) (m : mem) : Prop :=
  0 <= base /\ 0 <= size < 2 ^ 32 /\ base + size <= 2 ^ 64 /\
  forall i, 0 <= i < size -> load (f_mem w) (base + i) = load m i.

Definition only (w : flat) (base size : Z) (w' : flat) : Prop :=
  f_net w' = f_net w /\
  forall x, ~ (base <= x < base + size) -> f_mem w' x = f_mem w x.

Lemma window_read w base size m off n :
  window w base size m -> 0 <= off -> off + n <= size ->
  load_bytes (f_mem w) (base + off) n = load_bytes m off n.
Proof.
  intros (_ & _ & _ & Hw) Ho Hn. unfold load_bytes. apply list_eq. intros i.
  rewrite !list_lookup_fmap. destruct (decide (Z.of_nat i < n)) as [Hi|Hi].
  - rewrite !lookup_seqZ_lt by lia. apply (f_equal Some).
    rewrite <- Hw by lia. f_equal. lia.
  - by rewrite !lookup_seqZ_ge by lia.
Qed.

Lemma window_write w base size m off bs :
  window w base size m -> 0 <= off -> off + Z.of_nat (length bs) <= size -> Forall is_byte bs ->
  let w' := Flat (store_bytes (f_mem w) (base + off) bs) (f_net w) in
  window w' base size (store_bytes m off bs) /\ only w base size w'.
Proof.
  intros (Hb & Hs & He & Hw) Ho Hn Hby w'. split.
  - split; [done|]. split; [done|]. split; [done|]. intros i Hi. cbn.
    rewrite !load_store by done. rewrite Hw by done.
    replace (base + i - (base + off)) with (i - off) by lia.
    repeat case_decide; done || lia.
  - split; [done|]. intros x Hx. cbn. unfold store_bytes. by rewrite decide_False by lia.
Qed.

#[export] Program Instance flat_window : GuestWindow flat := {|
  gm_window := window;
  gm_only := only;
|}.
Next Obligation. by intros w base size m (? & ? & ? & _). Qed.
Next Obligation. by split. Qed.
Next Obligation.
  intros w base size m w1 w2 _ [E1 H1] [E2 H2]. split; [congruence|].
  intros x Hx. by rewrite H2, H1.
Qed.
Next Obligation.
  intros w base size m off n Hw Ho Hn Hs. exists w. cbn.
  split; [unfold gets; by rewrite (window_read w base size m)|]. by split.
Qed.
Next Obligation.
  intros w base size m off bs Hw Ho Hn Hs Hb. eexists. split; [reflexivity|].
  rewrite Nat2Z.id, firstn_all. by apply window_write.
Qed.
Next Obligation.
  intros w base size m off Hw Ho Ha Hs. exists w. cbn.
  split; [unfold gets, load_u32; by rewrite (window_read w base size m)|]. by split.
Qed.
Next Obligation.
  intros w base size m off v Hw Ho Ha Hs. eexists. split; [reflexivity|].
  apply (window_write w base size m off (le_bytes 4 v)); [done|done|done|apply le_bytes_bytes].
Qed.

#[export] Instance flat_static : Statics flat net_statics := f_net.
#[export] Instance flat_static_kept : StaticsKept flat net_statics.
Proof. intros w base size w' [E _]. exact E. Qed.
End FlatGuest.
Import FlatGuest.

(** ** The rings, twelve bytes before their wrap *)

Definition io_va : Z := 0x1000.
Definition near_wrap : Z := 131072 - 12.

(** A structure with given indices and TX bytes; the RX ring is empty. *)
Definition nio (th tt_ rh rt : Z) (tx : list Z) : mem :=
  let m := store_u32 (fun _ => 0) CO_NIO_TX_HEAD th in
  let m := store_u32 m CO_NIO_TX_TAIL tt_ in
  let m := store_u32 m CO_NIO_RX_HEAD rh in
  let m := store_u32 m CO_NIO_RX_TAIL rt in
  let m := store_bytes m (CO_NIO_TX + near_wrap) (take 12 tx) in
  store_bytes m CO_NIO_TX (drop 12 tx).

Definition flat_at (m : mem) : flat := Flat (fun x => m (x - io_va)) (NetStatics io_va true).

Lemma flat_io m : net_io (flat_at m) m.
Proof.
  split; [reflexivity|vm_compute; discriminate|].
  split; [vm_compute; discriminate|]. split; [split; vm_compute; congruence|].
  split; [vm_compute; discriminate|]. intros i Hi. cbn. unfold load. f_equal. f_equal. lia.
Qed.

(** Two frames in the record format: five bytes, then two. *)
Definition two_frames : list (list Z) := [[1; 2; 3; 4; 5]; [6; 7]].
Definition two_records : list Z := [5; 0; 0; 0; 1; 2; 3; 4; 5; 0; 0; 0; 2; 0; 0; 0; 6; 7; 0; 0].

Definition rx_empty : mem := nio 0 0 near_wrap near_wrap [].

Lemma net_put_appends_witness :
  exists w' gs p m', co_net_put two_records 20 2 (flat_at rx_empty) = (Ret 2, w') /\
    net_io w' m' /\ length gs = 2%nat /\ frames_at (rx_byte m') near_wrap gs (near_wrap + p).
Proof.
  pose proof (net_put_appends (flat_at rx_empty) rx_empty near_wrap near_wrap [] two_records 20 2
    (flat_io _) ltac:(vm_compute; reflexivity) ltac:(vm_compute; reflexivity) ltac:(lia)
    ltac:(vm_compute; congruence) ltac:(vm_compute; reflexivity) eq_refl
    ltac:(repeat constructor; vm_compute; congruence) ltac:(split; vm_compute; congruence)
    ltac:(lia) ltac:(lia)) as H.
  assert ((co_net_put two_records 20 2 (flat_at rx_empty)).1 = Ret 2) as E
    by (vm_compute; reflexivity).
  rewrite (run_ret _ _ _ E) in H.
  destruct H as (gs & p & m' & Hn & _ & _ & Hio & _ & _ & _ & Hfs & _).
  exists (co_net_put two_records 20 2 (flat_at rx_empty)).2, gs, p, m'.
  split; [exact (run_ret _ _ _ E)|]. split; [exact Hio|]. split; [lia|exact Hfs].
Defined.

(** The guest sent the two frames across the wrap. *)
Definition tx_full : mem := nio (near_wrap + 20) near_wrap 0 0 two_records.

Lemma tx_frames : frames_at (tx_byte tx_full) near_wrap two_frames (near_wrap + 20).
Proof.
  cbn [frames_at two_frames].
  split; [split; vm_compute; congruence|].
  split; [apply holds_of_list; vm_compute; reflexivity|].
  split; [apply holds_of_list; vm_compute; reflexivity|].
  split; [split; vm_compute; congruence|].
  split; [apply holds_of_list; vm_compute; reflexivity|].
  split; [apply holds_of_list; vm_compute; reflexivity|vm_compute; reflexivity].
Qed.

(** Taking the first record. *)
Lemma net_take_moves_tail_witness :
  exists w', (co_net_take (near_wrap + 12) (flat_at tx_full)) =
    (Ret (Indices (near_wrap + 20) (near_wrap + 12) 0 0), w').
Proof.
  pose proof (net_take_moves_tail (flat_at tx_full) tx_full (near_wrap + 12) (flat_io _)
    ltac:(split; vm_compute; congruence)) as H. cbn zeta in H.
  assert ((co_net_take (near_wrap + 12) (flat_at tx_full)).1 =
    Ret (Indices (near_wrap + 20) (near_wrap + 12) 0 0)) as E by (vm_compute; reflexivity).
  rewrite (run_ret _ _ _ E) in H. destruct H as (m' & _).
  exists (co_net_take (near_wrap + 12) (flat_at tx_full)).2. exact (run_ret _ _ _ E).
Defined.

Lemma net_dump_looks_witness :
  exists w', co_net_dump near_wrap 20 (flat_at tx_full) =
    (Ret (Indices (near_wrap + 20) near_wrap 0 0, two_records), w') /\ net_io w' tx_full.
Proof.
  destruct (net_dump_looks (flat_at tx_full) tx_full near_wrap 20 (flat_io _)
    ltac:(split; vm_compute; congruence) ltac:(lia)) as (w' & Hrun & Hio & _).
  exists w'. split; [|exact Hio]. rewrite Hrun.
  assert (tx_byte tx_full <$> seqZ near_wrap (Z.min 20 CO_NIO_TX_SIZE) = two_records) as ->
    by (vm_compute; reflexivity).
  reflexivity.
Defined.

(** A retired device of the same guest. *)
Lemma net_retired_or_live_witness :
  co_net_take 5 (Flat (fun _ => 0) (NetStatics 0 true)) =
    (Fail CO_RC_NOT_FOUND, Flat (fun _ => 0) (NetStatics 0 true)) /\
  exists w', co_net_rx_pending (flat_at tx_full) = (Ret false, w').
Proof.
  split.
  - apply (net_retired_or_live (Flat (fun _ => 0) (NetStatics 0 true))). right. reflexivity.
  - destruct (proj2 (net_retired_or_live (flat_at tx_full)) tx_full (flat_io _)) as (w' & _ & Hrun).
    exists w'. exact Hrun.
Defined.

(** A callback that keeps the frames and takes at most one. *)
Definition keep_one : @frame_func (list (list Z)) := fun f kept =>
  match kept with [] => (true, [f]) | _ => (false, kept) end.

Lemma net_receive_dequeues_witness :
  exists ring w1 w2 ix m', co_net_fetch (fun _ => true) (flat_at tx_full) = (Ret ring, w1) /\
    co_net_walk ring.2 (near_wrap + 20) near_wrap (Some keep_one) [] =
      (Ret (1, near_wrap + 12), [[1; 2; 3; 4; 5]]) /\
    co_manager_conet_take (near_wrap + 12) w1 = (Ret ix, w2) /\
    net_io w2 m' /\ frames_at (tx_byte m') (near_wrap + 12) [[6; 7]] (near_wrap + 20).
Proof.
  destruct (net_receive_dequeues (fun _ => true) (flat_at tx_full) tx_full near_wrap
    (near_wrap + 20) two_frames (Some keep_one) [] (fun _ => eq_refl) (flat_io _)
    ltac:(vm_compute; reflexivity) ltac:(vm_compute; reflexivity) ltac:(vm_compute; reflexivity)
    ltac:(vm_compute; congruence) tx_frames)
    as (ring & w1 & ix & w2 & m' & Hf & Hw & Ht & Hio & _ & _ & Hfs & _).
  exists (snapshot_indices tx_full, ring), w1, w2, ix, m'.
  split; [exact Hf|]. split; [exact Hw|]. split; [exact Ht|]. split; [exact Hio|exact Hfs].
Defined.

Lemma walk_visits_frames_witness :
  co_net_walk (fun x => tx_full (CO_NIO_TX + x)) (near_wrap + 20) near_wrap None tt =
    (Ret (2, near_wrap + 20), tt).
Proof.
  pose proof (walk_visits_frames (fun x => tx_full (CO_NIO_TX + x)) near_wrap (near_wrap + 20)
    two_frames None tt tx_frames ltac:(vm_compute; reflexivity) ltac:(vm_compute; congruence)) as H.
  exact H.
Defined.

Lemma walk_unaligned_overruns_witness :
  co_net_walk (fun _ => 0) (131071 + 8) 131071 None tt = (Fault, tt).
Proof.
  apply (walk_unaligned_overruns (fun _ => 0)); vm_compute; congruence.
Defined.

(** ** The console and the GPU on the loader *)

(** The guest of [Demo] with its console at its two data pages. *)
Definition at_devices (va : Z) (w : machine) : machine :=
  World (w_mem w) (w_os w) (w_kl w) (w_hooks w) va (net_io_va w) (vgpu_io_va w)
    (vgpu_kick_frame w) (Locks true true true).

Definition demo_console : machine := at_devices demo_va demo_two.

Lemma at_devices_ok va (w : machine) root T :
  kload_inv w -> tree w root T -> kload_inv (at_devices va w) /\ tree (at_devices va w) root T.
Proof.
  intros Hi HT. assert (bookkept w (at_devices va w)) as Hb by (split; reflexivity).
  split; [exact (kload_inv_core _ _ (bk_os _ _ Hb) (bk_hooks _ _ Hb) (bk_core _ _ Hb) Hi)|].
  exact (bookkept_tree _ _ root T Hi Hb HT).
Qed.

(** Page [j] of block [i], checked to be data. *)
Definition page_check (k : kload_statics) (i j : Z) : bool :=
  ((0 <=? i) && (i <? kload_block_count k) && (0 <=? j) && (j <? block_pages (block_at k i))
   && negb ((kload_table_top k <=? (block_page k i + j) * CO_ARCH_PAGE_SIZE)
            && ((block_page k i + j) * CO_ARCH_PAGE_SIZE <? kload_table_end k)))%bool.

Lemma page_check_ok k i j :
  page_check k i j = true ->
  page_va k (block_page k i + j) (block_va (block_at k i) + j * CO_ARCH_PAGE_SIZE) /\
  ~ table_page k (kload_table_top k) (block_page k i + j).
Proof.
  unfold page_check, page_va, table_page. intros Hc.
  apply andb_true_iff in Hc as [Hc Ht]. repeat (apply andb_true_iff in Hc as [Hc ?]). zbool.
  split; [exists i, j; split_and!; (lia || reflexivity)|].
  intros [Hlo Hhi]. apply andb_false_iff in Ht. destruct Ht as [Ht|Ht]; zbool; lia.
Qed.

(** The two pages under the console. *)
Definition con_page (j : Z) : Z := if decide (j = 0) then 17 else 3.
Definition con_host (j : Z) : Z :=
  block_va (block_at (w_kl demo_console) 0) + con_page j * CO_ARCH_PAGE_SIZE.
Definition con_mem : mem := fun i =>
  w_mem demo_console (con_host (i / CO_ARCH_PAGE_SIZE) + i mod CO_ARCH_PAGE_SIZE).

Lemma demo_console_io : console_io demo_console con_mem.
Proof.
  split; [reflexivity|vm_compute; discriminate|].
  change (kload_window demo_console demo_va CO_CIO_BYTES con_mem).
  destruct demo_two_runs as (T & Hi & HT & Hs).
  destruct (at_devices_ok demo_va demo_two (pml4_pfn (current_space demo_two)) T Hi HT) as [Hi' HT'].
  change (at_devices demo_va demo_two) with demo_console in Hi', HT'.
  apply (window_of_pages demo_console (current_space demo_two) T demo_va 2 CO_CIO_BYTES con_page con_host).
  - exact Hi'.
  - exact HT'.
  - exact Hs.
  - vm_compute. discriminate.
  - vm_compute. reflexivity.
  - vm_compute. reflexivity.
  - vm_compute. discriminate.
  - split; vm_compute; discriminate.
  - intros j Hj. assert (j = 0 \/ j = 1) as [->| ->] by lia.
    + split; [vm_compute; reflexivity|].
      apply (page_check_ok (w_kl demo_console) 0 17). vm_compute. reflexivity.
    + split; [vm_compute; reflexivity|].
      apply (page_check_ok (w_kl demo_console) 0 3). vm_compute. reflexivity.
  - intros i j Hir Hjr. unfold con_page.
    assert (i = 0 \/ i = 1) as [->| ->] by lia; assert (j = 0 \/ j = 1) as [->| ->] by lia; done.
Qed.

Definition typed_keys : list Z := [0x6c; 0x73; 0x0a].

Lemma console_pump_moves_witness :
  exists w' m', co_console_pump typed_keys 3 100 demo_console = (Ret (CO_RC_OK, 3, []), w') /\
    console_io w' m' /\ load_u32 m' CO_CIO_IN_HEAD = 3.
Proof.
  destruct (console_pump_moves demo_console con_mem 0 0 0 0 typed_keys 3 100 demo_console_io
    ltac:(vm_compute; reflexivity) ltac:(vm_compute; reflexivity) ltac:(lia)
    ltac:(vm_compute; congruence) ltac:(vm_compute; reflexivity) ltac:(vm_compute; reflexivity)
    ltac:(split; vm_compute; congruence) ltac:(repeat constructor; vm_compute; congruence)
    ltac:(split; vm_compute; congruence) ltac:(lia) ltac:(lia))
    as (w' & m' & Hrun & Hio & _ & Hh & _).
  exists w', m'. split; [exact Hrun|]. split; [exact Hio|exact Hh].
Defined.

(** The GPU area on the first of the two pages: both counters resolve. *)
Lemma vgpu_set_address_resolves_witness :
  exists w', co_vgpu_set_address demo_va demo_two = (Ret tt, w') /\
    vgpu_kick_frame w' !! 1 = Some (con_host 0 + 100).
Proof.
  destruct demo_two_runs as (T & Hi & HT & Hs).
  destruct (vgpu_set_address_resolves demo_two (current_space demo_two) T demo_va Hi HT Hs
    ltac:(vm_compute; reflexivity) ltac:(vm_compute; congruence)) as (w' & h & frames & Hrun & Hw & Hf).
  exists w'. split; [exact Hrun|]. rewrite Hw. cbn. rewrite Hf by (split; vm_compute; congruence).
  vm_compute. reflexivity.
Defined.
