(* ===== verification/VringTest.v ===== *)
(** The self-test of the virtqueue code
    ([cogpu_vring_selftest] in [os/winnt/user/cogpu-daemon/vring.c]), run on
    the definitions of [Vring].

    The arrays the test declares are at addresses that are parameters. *)
From S2P Require Import Prelude.
From S2P Require Import Mem.
From S2P Require Import Vring.

Definition TEST_NUM : Z := 8.

(** [base]: where the array [ram] is. *)
Definition test_resolve (base gpa len : Z) : option Z :=
  if ((gpa <? 0x100000) || (0x100000 + 0x10000 <? u64 (gpa + len)))%bool then None
  else Some (base + u64 (gpa - 0x100000)).

(** [struct test_split_ram]: two pages with a gap between them. *)
Definition split_first (ram : Z) : Z := ram.
Definition split_second (ram : Z) : Z := ram + 4096 + 64.

Definition test_split_resolve (ram gpa len : Z) : option Z :=
  if ((gpa <? 0x200000) || (u64 (gpa + len) <? gpa) ||
      (0x200000 + 8192 <? u64 (gpa + len)))%bool then None else
  let off := u64 (gpa - 0x200000) in
  if ((off <? 4096) && (u64 (off + len) <=? 4096))%bool then Some (split_first ram + off) else
  if ((4096 <=? off) && (u64 (off + len) <=? 8192))%bool
  then Some (split_second ram + u64 (off - 4096)) else None.

(** The locals of the test. *)
Record test := Test {
  t_mem : mem;
  t_vr : cogpu_vring;
  t_chain : cogpu_chain;
  t_failures : Z;
}.

Section selftest.
Variables ram split_ram descmem availmem usedmem : Z.
(** The chain nobody has written yet. *)
Variable garbage : cogpu_chain.

Definition poke (f : mem -> mem) (t : test) : test :=
  Test (f (t_mem t)) (t_vr t) (t_chain t) (t_failures t).
Definition failed (cond : bool) (t : test) : test :=
  if cond then Test (t_mem t) (t_vr t) (t_chain t) (t_failures t + 1) else t.

(** [vr.desc[i].addr = ...] and its siblings; a field the test does not write
    is given the zero the [memset] left there. *)
Definition set_desc (i addr len flags next : Z) (m : mem) : mem :=
  let a := descmem + vring_desc_bytes * i in
  store_u16 (store_u16 (store_u32 (store_u64 m a addr) (a + 8) len) (a + 12) flags) (a + 14) next.
Definition set_avail_ring (k v : Z) (m : mem) : mem := store_u16 m (availmem + 4 + 2 * k) v.
Definition set_avail_idx (v : Z) (m : mem) : mem := store_u16 m (availmem + 2) v.
Definition set_used_idx (v : Z) (m : mem) : mem := store_u16 m (usedmem + 2) v.

Definition used_index (t : test) : Z := load_u16 (t_mem t) (usedmem + 2).
Definition used_id (t : test) (k : Z) : Z := load_u32 (t_mem t) (usedmem + 4 + 8 * k).
Definition used_len (t : test) (k : Z) : Z := load_u32 (t_mem t) (usedmem + 4 + 8 * k + 4).

Definition set_last_avail (v : Z) (t : test) : test :=
  let vr := t_vr t in
  Test (t_mem t) (Vring (vr_desc vr) (vr_avail vr) (vr_used vr) (vr_num vr) v (vr_used_idx vr))
    (t_chain t) (t_failures t).
Definition set_vr_used_idx (v : Z) (t : test) : test :=
  let vr := t_vr t in
  Test (t_mem t) (Vring (vr_desc vr) (vr_avail vr) (vr_used vr) (vr_num vr) (vr_last_avail vr) v)
    (t_chain t) (t_failures t).

(** Pop: whether there was a chain, and the locals after. *)
Definition test_pop (resolve : Z -> Z -> option Z) (t : test) : bool * test :=
  match cogpu_vring_pop resolve (t_mem t) (t_vr t) with
  | (Some chain, vr) => (true, Test (t_mem t) vr chain (t_failures t))
  | (None, vr) => (false, Test (t_mem t) vr (t_chain t) (t_failures t))
  end.

Definition test_push (written : Z) (t : test) : test :=
  let '(m, vr) := cogpu_vring_push (t_mem t) (t_vr t) (t_chain t) written in
  Test m vr (t_chain t) (t_failures t).

(** The three [memset]s, and the queue the test points at them. *)
Definition fresh_queue (m : mem) (t : test) : test :=
  let m := co_memset m descmem 0 (vring_desc_bytes * TEST_NUM) in
  let m := co_memset m availmem 0 (4 + 2 * TEST_NUM) in
  let m := co_memset m usedmem 0 (4 + vring_used_elem_bytes * TEST_NUM) in
  Test m
    (Vring descmem availmem usedmem TEST_NUM 0 0) (t_chain t) (t_failures t).

(** 2. A two-descriptor chain, one readable then one writable. *)
Definition test_simple (t : test) : test :=
  let t := poke (set_desc 0 0x100000 32 VRING_DESC_F_NEXT 1) t in
  let t := poke (set_desc 1 0x100100 64 VRING_DESC_F_WRITE 0) t in
  let t := poke (set_avail_idx 1) (poke (set_avail_ring 0 0) t) in
  let '(ok, t) := test_pop (test_resolve ram) t in
  let c := t_chain t in
  let t := failed (negb ok || negb (Z.of_nat (length (c_in c)) =? 1) ||
                   negb (Z.of_nat (length (c_out c)) =? 1) || negb (c_in_bytes c =? 32) ||
                   negb (c_out_bytes c =? 64) || negb (c_head c =? 0)) t in
  let t := test_push 64 t in
  failed (negb (used_index t =? 1) || negb (used_id t 0 =? 0) || negb (used_len t 0 =? 64)) t.

(** 3. A cycle must be refused, not followed. *)
Definition test_cycle (t : test) : test :=
  let t := poke (set_desc 2 0x100000 16 VRING_DESC_F_NEXT 2) t in
  let t := poke (set_avail_idx 2) (poke (set_avail_ring (1 mod TEST_NUM) 2) t) in
  let '(ok, t) := test_pop (test_resolve ram) t in
  set_last_avail 2 (failed ok t).

(** 4. An address outside guest RAM must be refused. *)
Definition test_range (t : test) : test :=
  let t := poke (set_desc 3 0x900000 16 0 0) t in
  let t := poke (set_avail_idx 3) (poke (set_avail_ring (2 mod TEST_NUM) 3) t) in
  let '(ok, t) := test_pop (test_resolve ram) t in
  set_last_avail 3 (failed ok t).

(** 5. Index wrap: both counters past 65535. The body of the loop; [true]
    ends it. *)
Definition wrap_step (i : Z) (t : test) : bool * test :=
  let t := poke (set_avail_ring (u16 (0xfffe + i) mod TEST_NUM) 4) t in
  let t := poke (set_avail_idx (u16 (0xfffe + i + 1))) t in
  let '(ok, t) := test_pop (test_resolve ram) t in
  if ok then (false, test_push 8 t) else (true, failed true t).

Definition test_wrap (t : test) : test :=
  let t := poke (set_desc 4 0x100200 8 0 0) t in
  let t := poke (set_avail_idx 0xfffe) (set_last_avail 0xfffe t) in
  let t := poke (set_used_idx 0xfffe) (set_vr_used_idx 0xfffe t) in
  let t := (foldl (fun '(stop, t) i => if (stop : bool) then (stop, t) else wrap_step i t)
             (false, t) [0; 1; 2; 3]).2 in
  failed ((t_failures t =? 0) && negb (used_index t =? u16 (0xfffe + 4))) t.

(** 6. One guest descriptor may cross separate host windows. *)
Definition test_split (t : test) : test :=
  let t := fresh_queue (t_mem t) t in
  let t := poke (set_desc 0 (0x200000 + 4096 - 16) 32 0 0) t in
  let t := poke (set_avail_idx 1) (poke (set_avail_ring 0 0) t) in
  let '(ok, t) := test_pop (test_split_resolve split_ram) t in
  let c := t_chain t in
  let len k := b_len (default (Buf 0 0) (c_in c !! k)) in
  failed (negb ok || negb (Z.of_nat (length (c_in c)) =? 2) || negb (c_in_bytes c =? 32) ||
          negb (len 0%nat =? 16) || negb (len 1%nat =? 16)) t.

(** The number of failures. *)
Definition cogpu_vring_selftest (m : mem) : Z :=
  let t := fresh_queue m (Test m (Vring 0 0 0 0 0 0) garbage 0) in
  let '(ok, t) := test_pop (test_resolve ram) t in
  let t := failed ok t in
  t_failures (test_split (test_wrap (test_range (test_cycle (test_simple t))))).
End selftest.

(** ** Properties *)

(** The self-test the daemon runs at every start finds no failure: empty
    queue, chain, cycle, range, wrap and split. *)
Theorem vring_selftest_passes :
  cogpu_vring_selftest 0x500000 0x600000 0x1000 0x2000 0x3000 (Chain 7 [] [] 1 1)
    (fun _ => 0) = 0.
Proof. vm_compute. reflexivity. Qed.

(** ** Witnesses *)

(** Where the bytes of [test_resolve]'s guest are. *)
Definition test_host (base g : Z) : option Z :=
  if decide (0x100000 <= g < 0x110000) then Some (base + (g - 0x100000)) else None.

Lemma test_resolves base :
  0 < base -> base + 2 ^ 16 <= 2 ^ 64 ->
  resolves (fun gpa len => if decide (0 <= gpa /\ 0 <= len /\ gpa + len < 2 ^ 64)
                           then test_resolve base gpa len else None) (test_host base).
Proof.
  intros H1 H2 g len p. case_decide as Hr; [|done]. unfold test_resolve.
  rewrite (u64_small (g + len)) by lia. case_cond; [done|].
  rewrite (u64_small (g - _)) by lia. intros [= <-]. split; [lia|]. split; [lia|].
  intros k Hk. rewrite u64_small by lia. unfold test_host. rewrite decide_True by lia. f_equal. lia.
Qed.

(** A queue of eight with a chain of two descriptors at its head. *)
Definition demo_queue : cogpu_vring := Vring 0x1000 0x2000 0x3000 8 0 0.
Definition demo_ring : mem :=
  set_avail_idx 0x2000 1 (set_avail_ring 0x2000 0 0
    (set_desc 0x1000 1 0x100100 64 VRING_DESC_F_WRITE 0
      (set_desc 0x1000 0 0x100000 32 VRING_DESC_F_NEXT 1 (fun _ => 0)))).
Definition demo_resolve (gpa len : Z) : option Z :=
  if decide (0 <= gpa /\ 0 <= len /\ gpa + len < 2 ^ 64)
  then test_resolve 0x500000 gpa len else None.
Definition demo_chain : cogpu_chain :=
  Chain 0 [Buf 0x500000 32] [Buf 0x500100 64] 32 64.

(** A chain that loops: descriptor 2 links to itself. *)
Definition demo_loop : mem :=
  set_avail_idx 0x2000 1 (set_avail_ring 0x2000 0 2
    (set_desc 0x1000 2 0x100000 16 VRING_DESC_F_NEXT 2 (fun _ => 0))).
(** The guest queues a good chain behind it. *)
Definition demo_loop_more : mem :=
  set_avail_idx 0x2000 2 (set_avail_ring 0x2000 1 3
    (set_desc 0x1000 3 0x100000 16 0 0 demo_loop)).

Lemma vring_pop_is_chain_witness :
  cogpu_vring_pop demo_resolve demo_ring demo_queue =
    (Some demo_chain, Vring 0x1000 0x2000 0x3000 8 1 0) /\
  exists ds, offered demo_ring demo_queue = Some 0 /\
    (forall b, Some <$> buf_bytes (dir demo_chain b) = side_hosts (test_host 0x500000) b ds).
Proof.
  assert (E : cogpu_vring_pop demo_resolve demo_ring demo_queue =
    (Some demo_chain, Vring 0x1000 0x2000 0x3000 8 1 0)) by (vm_compute; reflexivity).
  split; [exact E|].
  destruct (vring_pop_is_chain demo_resolve (test_host 0x500000) demo_ring demo_queue demo_chain _
    (test_resolves 0x500000 ltac:(lia) ltac:(lia)) ltac:(cbn; lia) E) as (ds & H1 & _ & H3 & _).
  exists ds. split; [exact H1|]. intros b. apply H3.
Defined.

Lemma vring_pop_answers_witness :
  cogpu_vring_pop demo_resolve demo_loop demo_queue = (None, demo_queue) /\
  exists r, loop 64 (pop_step demo_resolve demo_loop demo_queue) (2, 0, Chain 2 [] [] 0 0) = inr r.
Proof.
  destruct (vring_pop_answers demo_resolve demo_loop demo_queue ltac:(cbn; lia))
    as (H1 & _ & H3 & _).
  split; [|apply H1]. apply (H3 2); vm_compute; reflexivity.
Defined.

Lemma vring_refused_blocks_witness :
  offered demo_loop_more demo_queue = Some 2 /\
  cogpu_vring_pop demo_resolve demo_loop_more demo_queue = (None, demo_queue).
Proof.
  split; [vm_compute; reflexivity|].
  apply (vring_refused_blocks demo_resolve demo_loop demo_loop_more demo_queue 2);
    [cbn; lia|vm_compute; reflexivity..].
Defined.

Lemma vring_push_publishes_witness :
  let '(m', vr') := cogpu_vring_push demo_ring demo_queue demo_chain 64 in
  load_u32 m' 0x3004 = 0 /\ load_u32 m' 0x3008 = 64 /\ load_u16 m' 0x3002 = 1 /\
  vr_used_idx vr' = 1 /\ vr_last_avail vr' = 0.
Proof.
  pose proof (vring_push_publishes demo_ring demo_queue demo_chain 64 ltac:(done)
    ltac:(cbn; lia) ltac:(cbn; lia) ltac:(cbn; lia) ltac:(lia)) as H.
  cbn in H |- *. destruct H as (H1 & H2 & H3 & H4 & H5 & _). auto.
Defined.
