(* ===== verification/SpaceTest.v ===== *)
(** The self-test of the page-table builder ([co_arch_test_space] in
    [arch/x86_64/space.c]): build a space of the shape a guest needs, read it
    back, throw it away. *)
From S2P Require Import Prelude.
From S2P Require Import Rc.
From S2P Require Import Mem.
From S2P Require Import Mmu.
From S2P Require Import Space.
From S2P Require Import SpaceTables.
From S2P Require Import SpaceDestroy.

(** [co_arch_space_test_t] *)
Record co_arch_space_test_t := SpaceTest {
  t_supported : bool;
  t_succeeded : bool;
  t_root : Z;
  t_mapped : Z;
  t_verified : Z;
  t_mismatched : Z;
  t_tables : Z;
  t_first_bad_va : Z;
  t_first_bad_expect : Z;
  t_first_bad_got : Z;
  t_unmapped_reported : bool;
  t_unmapped_level : Z;
}.

(** First address and number of pages. *)
Definition regions : list (Z * Z) :=
  [(0xffffffff81000000, 16); (0xffff888000000000, 16); (0xffffe9a000000000, 4)].

Definition never_mapped : Z := 0xffffc90000000000.

(** The addresses both nested loops go through, in order, with the physical
    address derived for each. *)
Definition region_pages (i : nat) (r : Z * Z) : list (Z * Z) :=
  (fun page => (u64 (r.1 + Z.shiftl page CO_ARCH_PAGE_SHIFT),
                u64 ((Z.of_nat i + 1) * 0x100000 + Z.shiftl page CO_ARCH_PAGE_SHIFT)))
    <$> seqZ 0 r.2.
Definition test_pages : list (Z * Z) := concat (imap region_pages regions).

Section test_ops.
Context {W : Type} `{SpaceEnv W}.

(** Run with the space just created as the caller's struct. *)
Definition with_space {A} (space : co_arch_guest_space) (m : M (W * co_arch_guest_space) A) :
    M W (A * co_arch_guest_space) := fun w =>
  match m (w, space) with
  | (Ret a, (w', space')) => (Ret (a, space'), w')
  | (Fail rc, (w', _)) => (Fail rc, w')
  | (Fault, (w', _)) => (Fault, w')
  end.

(** The first loop: how it ended, and [out->mapped]. *)
Fixpoint test_map (pages : list (Z * Z)) (mapped : Z) :
    M (W * co_arch_guest_space) ((unit + co_rc_value_t) * Z) :=
  match pages with
  | [] => mret (inl tt, mapped)
  | (va, pa) :: pages' =>
      done ← attempt (co_arch_guest_map va pa KERNPG_TABLE);
      match done with
      | inr rc => mret (inr rc, mapped)
      | inl _ => test_map pages' (ulong (mapped + 1))
      end
  end.

(** The second loop, on the counters of [out]. *)
Definition count_lookup (va expect : Z) (r : lookup_result) (out : co_arch_space_test_t) :
    co_arch_space_test_t :=
  let '(SpaceTest su ok root mp ve mi ta bva bex bgo ur ul) := out in
  if (bool_decide (r.1.1 = CO_RC_OK) && (r.1.2 =? expect))%bool
  then SpaceTest su ok root mp (ulong (ve + 1)) mi ta bva bex bgo ur ul
  else if bva =? 0 then SpaceTest su ok root mp ve (ulong (mi + 1)) ta va expect r.1.2 ur ul
  else SpaceTest su ok root mp ve (ulong (mi + 1)) ta bva bex bgo ur ul.

Fixpoint test_verify (space : co_arch_guest_space) (pages : list (Z * Z))
    (out : co_arch_space_test_t) : M W co_arch_space_test_t :=
  match pages with
  | [] => mret out
  | (va, pa) :: pages' =>
      r ← co_arch_guest_lookup space va;
      test_verify space pages' (count_lookup va pa r out)
  end.

(** The verdict at the end. *)
Definition verdict (out : co_arch_space_test_t) : co_arch_space_test_t :=
  let '(SpaceTest su _ root mp ve mi ta bva bex bgo ur ul) := out in
  SpaceTest su ((mi =? 0) && (ve =? mp) && (0 <? mp) && ur)%bool
    root mp ve mi ta bva bex bgo ur ul.

(** How it returned, and [*out]. [alloc]: whether [co_os_malloc] found room
    for the space. *)
Definition co_arch_test_space (alloc : bool) :
    M W ((unit + co_rc_value_t) * co_arch_space_test_t) :=
  let started root mapped tables :=
    SpaceTest true false root mapped 0 0 tables 0 0 0 false 0 in
  created ← attempt (co_arch_guest_space_create alloc);
  match created with
  | inr rc => mret (inr rc, started 0 0 0)
  | inl space =>
      let root := co_arch_guest_space_root space in
      r ← with_space space (test_map test_pages 0);
      let space := r.2 in
      match r.1 with
      | (inr rc, mapped) =>
          co_arch_guest_space_destroy space ;; mret (inr rc, started root mapped 0)
      | (inl _, mapped) =>
          out ← test_verify space test_pages
                  (started root mapped (co_arch_guest_space_tables space));
          u ← co_arch_guest_lookup space never_mapped;
          co_arch_guest_space_destroy space ;;
          let '(SpaceTest su ok root mp ve mi ta bva bex bgo _ _) := out in
          mret (inl tt, verdict (SpaceTest su ok root mp ve mi ta bva bex bgo
                                   (negb (bool_decide (u.1.1 = CO_RC_OK))) u.2))
      end
  end.
End test_ops.

(** ** Building and reading back *)

(** The pages of a plan can be mapped and told apart. *)
Definition page_of (x : Z * Z) : Z := x.1 / 2 ^ 12.
Definition plannable (x : Z * Z) : Prop :=
  0 <= x.1 < 2 ^ 64 /\ CO_ARCH_VA_CANONICAL x.1 = true /\
  0 <= x.2 < 2 ^ 63 /\ x.2 mod 2 ^ 12 = 0.

#[global] Instance plannable_dec x : Decision (plannable x).
Proof. unfold plannable. apply _. Defined.

Section test_spec.
Context {W : Type} `{SpaceReturns W}.
Implicit Types (w : W) (s : co_arch_guest_space).

(** The plan [done] is in the tables and [other] is not. *)
Definition built (other : Z) (root : Z) (done : list (Z * Z)) (ws : W * co_arch_guest_space) : Prop :=
  exists T, space_ok ws.1 ws.2 T /\ pml4_pfn ws.2 = root /\
    Forall (fun x => translate 3 ws.1 root x.1 = Some x.2) done /\
    translate 3 ws.1 root other = None.

Lemma wp_test_map other root l done mapped ws :
  0 <= other < 2 ^ 64 -> CO_ARCH_VA_CANONICAL other = true ->
  Forall plannable (done ++ l) -> NoDup (other / 2 ^ 12 :: (page_of <$> (done ++ l))) ->
  built other root done ws -> 0 <= mapped -> mapped + Z.of_nat (length l) < 2 ^ 32 ->
  wp (test_map l mapped)
     (fun r ws' => match r.1 with
                   | inl _ => built other root (done ++ l) ws' /\
                              r.2 = mapped + Z.of_nat (length l)
                   | inr _ => exists T, space_ok ws'.1 ws'.2 T
                   end) (fun _ _ => False) ws.
Proof using.
  intros Ho Hoc. revert done mapped ws.
  induction l as [|[va pa] l IH]; intros done mapped [w s] Hpl Hnd Hb Hm0 Hm; cbn [test_map].
  { wp_step. cbn [fst snd length]. rewrite app_nil_r. split; [done|lia]. }
  destruct Hb as (T & Hok & Hr & Hall & Hother). cbn [fst snd length] in *.
  pose proof Hpl as [_ Hp]%Forall_app. apply Forall_cons in Hp as [(Hva & Hcan & Hpa & Hal) _].
  cbn [fst snd] in *. wp_step. wp_step.
  assert (Hsplit : done ++ (va, pa) :: l = (done ++ [(va, pa)]) ++ l) by (by rewrite <- app_assoc).
  eapply wp_mono; [apply (wp_guest_map w s T va pa KERNPG_TABLE Hok Hva Hpa)| |].
  - split; [split; [done|reflexivity]|split; reflexivity].
  - intros [] ws1 (_ & T1 & Hok1 & Hr1 & Hgot & Hkeep).
    rewrite Hsplit in *. unfold ulong. rewrite u32_small by lia.
    eapply wp_ret_mono; [apply (IH (done ++ [(va, pa)])); [done|done| |lia|lia]|].
    + exists T1. rewrite Hr in *. split_and!; [done|done| |].
      * apply Forall_app. split; [|constructor; [|constructor]].
        -- apply Forall_forall. intros x Hx. rewrite Forall_forall in Hall, Hpl.
           destruct (Hpl x) as (Hx1 & Hx2 & _); [rewrite !elem_of_app; by left; left|].
           rewrite Hkeep; [by apply Hall|done|done|].
           apply NoDup_cons in Hnd as [_ Hnd]. rewrite !fmap_app in Hnd.
           apply NoDup_app in Hnd as [Hnd _]. apply NoDup_app in Hnd as (_ & Hnd & _).
           intros E. apply (Hnd (page_of x)); [by apply list_elem_of_fmap_2|].
           unfold page_of. rewrite E. cbn. by apply list_elem_of_singleton.
        -- cbn [fst snd]. rewrite Hgot. f_equal. lia.
      * rewrite Hkeep; [done|done|done|]. apply NoDup_cons in Hnd as [Hno _]. intros E. apply Hno.
        rewrite !fmap_app, !elem_of_app. left. right. rewrite E. cbn.
        by apply list_elem_of_singleton.
    + intros r ws2. destruct r as [[[]|rc] n]; cbn [fst snd]; [|done]. intros [? ->].
      split; [done|lia].
  - intros rc ws1 (_ & T1 & Hok1 & _). wp_step. by exists T1.
Qed.

Abbreviation env_same := (env_same_on env_inv env_frame env_used env_quiet).

(** [out] with [n] more pages read back right. *)
Definition verified_more (n : Z) (out : co_arch_space_test_t) : co_arch_space_test_t :=
  let '(SpaceTest su ok root mp ve mi ta bva bex bgo ur ul) := out in
  SpaceTest su ok root mp (ve + n) mi ta bva bex bgo ur ul.

Lemma lookup_built w s T va pa :
  space_ok w s T -> CO_ARCH_VA_CANONICAL va = true ->
  translate 3 w (pml4_pfn s) va = Some pa ->
  wp (co_arch_guest_lookup s va)
     (fun r w' => env_same w w' /\ r.1.1 = CO_RC_OK /\ r.1.2 = pa) (fun _ _ => False) w.
Proof using.
  intros Hok Hc Ht. destruct (lookup_in w s T va Hok Hc) as (r & w' & Hl & Ha & Hs).
  unfold wp. rewrite Hl. rewrite Ht in Ha. by destruct Ha.
Qed.

Lemma wp_test_verify l s T w out :
  space_ok w s T -> Forall plannable l ->
  Forall (fun x => translate 3 w (pml4_pfn s) x.1 = Some x.2) l ->
  0 <= t_verified out -> t_verified out + Z.of_nat (length l) < 2 ^ 32 ->
  wp (test_verify s l out)
     (fun out' w' => env_same w w' /\ out' = verified_more (Z.of_nat (length l)) out)
     (fun _ _ => False) w.
Proof using.
  revert w out. induction l as [|[va pa] l IH]; intros w out Hok Hpl Hall Hv Hb;
    cbn [test_verify].
  { wp_step. split; [apply env_same_refl, Hok|]. destruct out. cbn. by rewrite Z.add_0_r. }
  apply Forall_cons in Hpl as [(_ & Hc & _) Hpl], Hall as [Ht Hall]. cbn [fst snd length] in *.
  wp_step. eapply wp_ret_mono; [by apply (lookup_built w s T va pa)|].
  intros r w1 (Hs & Hrc & Hpa). destruct (space_ok_same w w1 s T Hok Hs) as [Hok1 Htr].
  assert (T !! pml4_pfn s = Some (3 - Z.of_nat 3)) as Hroot by apply (tree_root w _ T), Hok.
  assert (count_lookup va pa r out = verified_more 1 out) as ->.
  { destruct out. cbn in *. rewrite Hrc, Hpa, bool_decide_true, Z.eqb_refl by done. cbn.
    unfold ulong. by rewrite u32_small by lia. }
  eapply wp_ret_mono; [apply (IH w1 (verified_more 1 out) Hok1 Hpl)|].
  - eapply Forall_impl; [exact Hall|]. intros x. by rewrite Htr by (done || lia).
  - destruct out; cbn in *; lia.
  - destruct out; cbn in *; lia.
  - intros out' w2 [Hs2 ->]. split; [by eapply env_same_trans|].
    destruct out; cbn [verified_more]. f_equal. lia.
Qed.

Lemma test_plan :
  Forall plannable test_pages /\ NoDup (never_mapped / 2 ^ 12 :: (page_of <$> test_pages)) /\
  length test_pages = 36%nat.
Proof using.
  split; [|split].
  - apply (bool_decide_unpack _). vm_compute. exact I.
  - apply (bool_decide_unpack _). vm_compute. exact I.
  - reflexivity.
Qed.

(** Reading back, the page nobody mapped and the end. *)
Lemma wp_test_readback pages w s T root mapped tables :
  Forall plannable pages -> length pages = 36%nat ->
  space_ok w s T -> mapped = 36 ->
  Forall (fun x => translate 3 w (pml4_pfn s) x.1 = Some x.2) pages ->
  translate 3 w (pml4_pfn s) never_mapped = None ->
  wp (out ← test_verify s pages
              (SpaceTest true false root mapped 0 0 tables 0 0 0 false 0);
      u ← co_arch_guest_lookup s never_mapped;
      co_arch_guest_space_destroy s ;;
      let '(SpaceTest su ok root mp ve mi ta bva bex bgo _ _) := out in
      mret (@inl unit co_rc_value_t tt,
            verdict (SpaceTest su ok root mp ve mi ta bva bex bgo
                       (negb (bool_decide (u.1.1 = CO_RC_OK))) u.2)))
     (fun r w' => env_inv w' /\ exists level, 0 <= level <= 3 /\
        r = (inl tt, SpaceTest true true root 36 36 0 tables 0 0 0 true level))
     (fun _ _ => False) w.
Proof using H1.
  intros Hpl Hlen Hok -> Hall Hno. wp_step.
  eapply wp_ret_mono; [apply (wp_test_verify pages s T w _ Hok Hpl Hall); cbn [t_verified]; rewrite ?Hlen; lia|].
  intros out w1 [Hs ->]. destruct (space_ok_same w w1 s T Hok Hs) as [Hok1 Htr].
  assert (T !! pml4_pfn s = Some (3 - Z.of_nat 3)) as Hroot by apply (tree_root w _ T), Hok.
  destruct (lookup_in w1 s T never_mapped Hok1 eq_refl) as (u & w2 & Hl & Ha & Hs2).
  rewrite Htr, Hno in Ha by (done || lia). destruct Ha as (Hrc & _ & Hlev).
  wp_step. unfold wp at 1. rewrite Hl. wp_step.
  destruct (space_ok_same w1 w2 s T Hok1 Hs2) as [Hok2 _].
  eapply wp_ret_mono; [apply (wp_space_destroy_tables w2 s T Hok2)|]. intros freed w3 [Hg _].
  rewrite Hlen. cbn [verified_more]. wp_step. split; [apply Hg|]. exists u.2. split; [done|].
  rewrite Hrc, bool_decide_false by done. done.
Qed.

(** The builder passes its own test. Whatever state it starts in,
    [co_arch_test_space] returns and leaves the surroundings sound; unless the
    host runs out of pages, all 36 pages it maps are read back right, none is
    wrong, and the address it never mapped is reported as such: the verdict
    is success. *)
Theorem test_space_succeeds w :
  env_inv w ->
  exists r out w', co_arch_test_space true w = (Ret (r, out), w') /\ env_inv w' /\
    (r = inl tt -> t_succeeded out = true /\ t_mapped out = 36 /\ t_verified out = 36 /\
                   t_mismatched out = 0 /\ t_unmapped_reported out = true).
Proof using H1.
  intros Hi. destruct test_plan as (Hpl & Hnd & Hlen).
  assert (wp (co_arch_test_space true)
    (fun r w' => env_inv w' /\ (r.1 = inl tt -> exists root tables level,
        r.2 = SpaceTest true true root 36 36 0 tables 0 0 0 true level))
    (fun _ _ => False) w) as Hwp;
    [|destruct (wp_total _ _ _ Hwp) as ([r out] & w' & Hrun & Hi' & Hr); exists r, out, w';
      split; [done|]; split; [done|]; cbn [fst snd] in Hr; intros E; destruct (Hr E) as (? & ? & ? & ->); done].
  unfold co_arch_test_space. generalize dependent test_pages. intros pages Hpl Hnd Hlen.
  wp_step. wp_step.
  eapply wp_mono; [by apply wp_space_create| |].
  2:{ intros rc w1 [_ Hi1]. wp_step. by split. }
  intros s w1 (_ & Hok & Hnone). wp_step. cbn zeta.
  assert (built never_mapped (pml4_pfn s) [] (w1, s)) as Hb
    by (exists {[pml4_pfn s := 0]}; split_and!; [done|done|constructor|apply Hnone]).
  pose proof (wp_test_map never_mapped (pml4_pfn s) pages [] 0 (w1, s)
    ltac:(done) ltac:(reflexivity) Hpl Hnd Hb ltac:(done) ltac:(by rewrite Hlen)) as Hmap.
  unfold wp in Hmap at 1. unfold wp at 1, with_space.
  destruct (test_map pages 0 (w1, s)) as [[[out mapped]|rc|] [w2 s2]]; [|done..].
  cbn [fst snd] in *. destruct out as [[]|rc].
  - destruct Hmap as ((T & Hok2 & Hr & Hall & Hno) & Hm). cbn [fst snd app] in *.
    rewrite <- Hr in Hall, Hno. rewrite Hlen in Hm.
    eapply wp_ret_mono; [by apply (wp_test_readback pages w2 s2 T)|].
    intros [r out] w3 (Hi3 & level & _ & E). injection E as -> ->. split; [done|]. intros _.
    by eexists _, _, _.
  - destruct Hmap as (T & Hok2). cbn [fst snd] in *. wp_step.
    eapply wp_ret_mono; [apply (wp_space_destroy_tables w2 s2 T Hok2)|]. intros freed w3 [Hg _].
    wp_step. split; [apply Hg|done].
Qed.
End test_spec.
