(* ===== verification/DemoSpace.v ===== *)
(** A host that lends pages to address spaces, and the theorems on tables
    applied to a space built on it. *)
From S2P Require Import Prelude.
From S2P Require Import Rc.
From S2P Require Import Mem.
From S2P Require Import Mmu.
From S2P Require Import Space.
From S2P Require Import SpaceTables.
From S2P Require Import SpaceDestroy.
From S2P Require Import SpaceTest.

(** Frames are handed out in ascending order, [p] is visible at [4096 * p]. *)
Record pool := Pool { pool_mem : mem; pool_next : Z; pool_live : gset Z }.

Definition pool_end : Z := 2 ^ 20.

Definition pool_get : M pool Z := fun w =>
  if pool_next w <? pool_end
  then (Ret (pool_next w),
        Pool (pool_mem w) (pool_next w + 1) ({[pool_next w]} ∪ pool_live w))
  else (Fail CO_RC_OUT_OF_MEMORY, w).

#[export] Instance pool_env : SpaceEnv pool := {|
  env_mem := pool_mem;
  env_upd_mem f w := Pool (f (pool_mem w)) (pool_next w) (pool_live w);
  co_space_frame_source _ := None;
  co_space_frame_mapper _ := None;
  co_os_get_page := pool_get;
  co_os_put_page p := modify (fun w => Pool (pool_mem w) (pool_next w) (pool_live w ∖ {[p]}));
  co_os_map p := mret (Some (p * CO_ARCH_PAGE_SIZE));
  co_os_unmap _ _ := mret tt;
|}.

Definition pool_inv (w : pool) : Prop :=
  1 <= pool_next w <= pool_end /\ forall p, p ∈ pool_live w -> 1 <= p < pool_next w.

Lemma pool_new (w : pool) :
  co_space_new_table w =
    if pool_next w <? pool_end
    then (Ret (pool_next w),
          Pool (co_memset (pool_mem w) (pool_next w * CO_ARCH_PAGE_SIZE) 0 CO_ARCH_PAGE_SIZE)
            (pool_next w + 1) ({[pool_next w]} ∪ pool_live w))
    else (Fail CO_RC_OUT_OF_MEMORY, w).
Proof.
  unfold co_space_new_table, mbind, M_bind. cbn. unfold mbind, M_bind, pool_get. cbn.
  by destruct (pool_next w <? pool_end).
Qed.

#[export] Program Instance pool_laws : SpaceLaws pool := {|
  env_inv := pool_inv;
  env_frame _ p := Some (p * CO_ARCH_PAGE_SIZE);
  env_used w p := p ∈ pool_live w;
  env_quiet w w' := w' = w;
  env_step _ _ := True;
|}.
Next Obligation.
  intros w p Hi Hu. exists (p * CO_ARCH_PAGE_SIZE), w. split; [done|]. split; [done|].
  do 4 (split; [done|]). done.
Qed.
Next Obligation. intros w a p Hi Hu. exists w. split; [done|]. do 4 (split; [done|]). done. Qed.
Next Obligation.
  intros w [Hn Hl]. rewrite pool_new. case_cond.
  - split; [intros Hin%Hl; lia|]. split; [cbn; set_solver|]. split; [done|]. split.
    + split; [cbn; lia|]. cbn. intros p [->%elem_of_singleton|Hp%Hl]%elem_of_union; lia.
    + by eexists.
  - split; [done|]. split; [done|]. split; [done|]. by split.
Qed.
Next Obligation.
  intros w p q a b Hi Hp Hq Hne [= <-] [= <-]. change CO_ARCH_PAGE_SIZE with 4096. lia.
Qed.
Next Obligation. intros w f Hi. do 3 (split; [done|]). done. Qed.
Next Obligation. intros w p [Hn Hl] Hp%Hl. unfold pool_end in Hn. lia. Qed.
Next Obligation. intros w p Hi Hp. by eexists. Qed.
Next Obligation. done. Qed.
Next Obligation. intros w w1 w2 -> ->. done. Qed.
Next Obligation. done. Qed.
Next Obligation. done. Qed.
Next Obligation. done. Qed.
Next Obligation. done. Qed.

#[export] Program Instance pool_returns : SpaceReturns pool.
Next Obligation.
  intros w p [Hn Hl] Hu _. eexists. split; [reflexivity|]. split.
  { split; [done|]. cbn. intros q Hq. apply Hl. set_solver. }
  split; [done|]. split; [cbn; set_solver|]. done.
Qed.
Next Obligation. by intros w w' ->. Qed.

(** ** Witnesses *)

Definition demo_pool : pool := Pool (fun x => x mod 256) 1 ∅.

Lemma demo_pool_inv : env_inv demo_pool.
Proof. split; [done|]. cbn. set_solver. Qed.

Lemma test_space_succeeds_witness :
  env_inv demo_pool /\
  exists out w', co_arch_test_space true demo_pool = (Ret (inl tt, out), w') /\
                 t_succeeded out = true /\ t_verified out = 36.
Proof.
  split; [exact demo_pool_inv|].
  destruct (test_space_succeeds demo_pool demo_pool_inv) as (r & out & w' & Hrun & _ & Hr).
  assert (r = inl tt) as ->.
  { assert ((co_arch_test_space true demo_pool).1 = Ret (r, out)) as E by (by rewrite Hrun).
    revert E. clear. vm_compute. congruence. }
  exists out, w'. destruct (Hr eq_refl) as (H1 & _ & H3 & _). auto.
Defined.

(** A new space, and the same space with one page in its direct map. *)
Definition demo_space : co_arch_guest_space := Space 1 1.
Definition demo_created : pool :=
  Pool (co_memset (pool_mem demo_pool) 4096 0 4096) 2 ({[1]} ∪ ∅).
Definition demo_direct : Z := 0xffff888000000000.
Definition demo_built : pool * co_arch_guest_space :=
  (co_arch_guest_map demo_direct 0x100000 KERNPG_TABLE (demo_created, demo_space)).2.

Lemma demo_created_ok : space_ok demo_created demo_space {[1 := 0]}.
Proof.
  pose proof (wp_space_create demo_pool demo_pool_inv) as Hwp.
  unfold wp, co_arch_guest_space_create in Hwp. cbn [negb fail_if] in Hwp.
  unfold mbind, M_bind in Hwp. cbn [fail_if mret M_ret] in Hwp. rewrite pool_new in Hwp.
  change (pool_next demo_pool <? pool_end) with true in Hwp. by destruct Hwp as (_ & Hok & _).
Qed.

Lemma demo_built_ok : exists T, space_ok demo_built.1 demo_built.2 T.
Proof.
  pose proof (wp_guest_map demo_created demo_space _ demo_direct 0x100000 KERNPG_TABLE
    demo_created_ok ltac:(done) ltac:(done) ltac:(split; [done|split; done])) as Hwp.
  unfold wp in Hwp. unfold demo_built.
  destruct (co_arch_guest_map _ _ _ _) as [[[]|rc|] ws]; [|by destruct Hwp as (_ & T & Hok & _); exists T|done].
  destruct Hwp as (_ & T & Hok & _). by exists T.
Qed.


Lemma own_tables_mapped_witness :
  exists w' s', co_arch_guest_map_own_tables true demo_direct demo_built =
                  (Ret (inl tt, 4), (w', s')) /\
    exists r w'', co_arch_guest_lookup s' (demo_direct + 4096) w' = (Ret r, w'') /\
                  r.1 = (CO_RC_OK, 4096).
Proof.
  destruct demo_built_ok as [T Hok].
  destruct (own_tables_mapped demo_built.1 demo_built.2 T demo_direct Hok ltac:(done)
    ltac:(reflexivity)) as (out & total & w' & s' & Hrun & _ & _ & Hall).
  rewrite <- surjective_pairing in Hrun.
  assert (out = inl tt /\ total = 4 /\ head (tables_below 3 w' (pml4_pfn s')) = Some 1)
    as (-> & -> & Hh).
  { assert ((co_arch_guest_map_own_tables true demo_direct demo_built).1 = Ret (out, total)) as E
      by (by rewrite Hrun).
    assert (pml4_pfn (co_arch_guest_map_own_tables true demo_direct demo_built).2.2 = pml4_pfn s')
      as E2 by (by rewrite Hrun).
    revert E E2. clear. vm_compute. intros [= <- <-] <-. auto. }
  exists w', s'. split; [exact Hrun|]. specialize (Hall eq_refl eq_refl).
  destruct (tables_below 3 w' (pml4_pfn s')) as [|p l]; [done|]. cbn in Hh. injection Hh as ->.
  apply Forall_cons in Hall as [(r & w'' & Hl & Hr) _]. exists r, w''. split; [exact Hl|exact Hr].
Defined.
