(* ===== verification/DemoCobd.v ===== *)
(** The block device at concrete inputs: a guest of two pages that lie apart
    in the host, and two files. *)
From stdpp Require Import relations.
From S2P Require Import Prelude.
From S2P Require Import Rc.
From S2P Require Import Mem.
From S2P Require Import Mmu.
From S2P Require Import Space.
From S2P Require Import Bdev.
From S2P Require Import Cobd.
From S2P Require Import CobdOk.
From S2P Require Import CobdUnits.
From S2P Require Import GuestMem.
From S2P Require Import Net.
From S2P Require Import CobdAsync.
From S2P Require Import CobdAsyncOk.
From S2P Require Import CobdAsyncRun.
From S2P Require Import DemoDevices.

#[local] Open Scope Z_scope.

(** Guest page 0 at 0x50000, page 1 at 0x20000. *)
Definition two_pages (p : Z) : option Z :=
  if p =? 0 then Some 0x50000 else if p =? 1 then Some 0x20000 else None.

#[export] Instance demo_pages : GuestPages mem := {|
  gp_mem m := m;
  gp_upd_mem f m := f m;
  gp_frame_va p := mret (two_pages p);
|}.

#[export] Program Instance demo_pages_laws : GuestPagesLaws mem := {|
  gp_ok _ := True;
  gp_page _ := two_pages;
|}.
Next Obligation. intros w p _ _. by exists w. Qed.
Next Obligation. done. Qed.
Next Obligation. intros w p a _. unfold two_pages. repeat case_cond; intros [= <-]; lia. Qed.
Next Obligation.
  intros w p q a b _. unfold two_pages. change CO_ARCH_PAGE_SIZE with 4096.
  repeat case_cond; intros [= <-] [= <-] Hne; lia.
Qed.

(** Files of 64 KB by handle; opening gives the next handle. *)
Record files := Files { f_bytes : Z -> Z -> Z; f_open : gset Z; f_next : nat }.
Definition next_handle (n : files) : Z := Z.of_nat (f_next n) + 1.

#[export] Instance demo_nt : NtFiles files := {|
  nt_malloc n := (true, n);
  nt_free n := n;
  co_winnt_utf8_to_unicode p n := (inl p, n);
  co_winnt_free_unicode _ n := n;
  zw_create_file p n :=
    match p with
    | [] => (None, n)
    | _ => (Some (next_handle n),
            Files (f_bytes n) ({[next_handle n]} ∪ f_open n) (S (f_next n)))
    end;
  zw_query_information_file _ n := (Some 0x10000, n);
  zw_device_io_control_file _ n := (None, n);
  zw_set_information_file _ _ n := (true, n);
  zw_read_file h off len n := (true, len, (fun i => u8 (f_bytes n h (off + i))) <$> seqZ 0 len, n);
  zw_write_file h off bs n :=
    (true, Z.of_nat (length bs),
     Files (fun h' i => if decide (h' = h /\ off <= i < off + Z.of_nat (length bs))
                        then default 0 (bs !! Z.to_nat (i - off)) else f_bytes n h' i)
       (f_open n) (f_next n));
  zw_close h n := Files (f_bytes n) (f_open n ∖ {[h]}) (f_next n);
|}.

(** Handles still to come are not open. *)
#[export] Program Instance demo_nt_laws : NtLaws files := {|
  nt_byte n h i := u8 (f_bytes n h i);
  nt_open n h := h ∈ f_open n /\ h < next_handle n;
|}.
Next Obligation.
  intros h off len n _ Ho Hl. cbn. split; [apply Forall_fmap, Forall_true; intros; apply u8_range|].
  rewrite length_fmap, length_seqZ. split; [lia|]. by split_and!.
Qed.
Next Obligation.
  intros h off bs n _ Ho Hb. cbn. split; [|split; [|done]].
  - intros _ _ i Hi. rewrite decide_True by (split; [done|lia]).
    replace (off + i - off) with i by lia.
    destruct (lookup_lt_is_Some_2 bs (Z.to_nat i)) as [b Eb]; [lia|]. rewrite Eb. cbn.
    rewrite Forall_lookup in Hb. by apply u8_small, (Hb (Z.to_nat i)).
  - intros h' i Hi. rewrite decide_False; [done|]. intros [-> ?]. intuition lia.
Qed.
Next Obligation.
  intros path n. destruct path as [|c path]; cbn; [done|]. split; [done|].
  unfold next_handle. cbn [f_next]. split; [lia|]. split; [intros [_ ?]; lia|]. intros h'.
  rewrite elem_of_union, elem_of_singleton. split.
  - intros [[?|?] ?]; [by left|]. destruct (decide (h' = Z.of_nat (f_next n) + 1)); [by left|].
    right. split; [done|lia].
  - intros [?|[? ?]]; (split; [auto|lia]).
Qed.
Next Obligation.
  intros h n _. cbn. split; [|done]. intros h'. unfold next_handle. cbn [f_next]. set_solver.
Qed.
Next Obligation.
  intros n n' Hq. assert (n' = n) as ->; [|done].
  destruct Hq as [[b E]|[->|[(p & r & E)|[[u ->]|[(h & r & E)|[(h & r & E)|(h & s & r & E)]]]]]];
    cbn in *; congruence.
Qed.
Next Obligation. intros h n r n' [= <- _]. lia. Qed.
Next Obligation. done. Qed.

(** Two units on two files; unit 0 holds 64 KB of the pattern [i mod 251]. *)
Definition demo_files : files := Files (fun h i => if h =? 1 then i mod 251 else 0) ∅ 0.
Definition demo_cobd : cobd files :=
  (co_cobd_attach 1 [65] (co_cobd_attach 0 [65] (Cobd ∅ demo_files 0)).2).2.
Definition demo_bdev : co_winnt_bdev_t := Bdev 1 0x10000.

Lemma demo_empty_ok : units_ok (Cobd ∅ demo_files 0).
Proof. by split. Qed.

Lemma demo_ready : unit_ready demo_cobd 0 demo_bdev.
Proof.
  split; [done|]. split; [reflexivity|]. split; [done|]. split; [|cbn; lia].
  split; [|done]. apply elem_of_union. right. apply elem_of_union. by left.
Qed.

(** The guest put two descriptors at 0xff8: the first crosses into the page
    that lies elsewhere in the host. *)
Definition demo_sg : mem :=
  let put m g bs := store_bytes m (default 0 (two_pages (g / 4096)) + g mod 4096) bs in
  let m := fun x => x mod 256 in
  let m := put m 0xff8 (le_bytes 8 0x100) in
  let m := put m 0x1000 (le_bytes 4 0x20 ++ le_bytes 4 0) in
  let m := put m 0x1008 (le_bytes 8 0x1800) in
  put m 0x1010 (le_bytes 4 0x10 ++ le_bytes 4 0).

Lemma demo_sg_ok : gp_ok demo_sg.
Proof. exact I. Qed.

Lemma cobd_request_moves_witness :
  exists ws, co_cobd_request 0 0x200 0xff0 0x20 false (demo_sg, demo_cobd) = (Ret tt, ws) /\
    carried false demo_sg demo_cobd 1 0xff0 0x200 0x20 ws.
Proof.
  destruct (cobd_request_moves false demo_sg demo_cobd 0 demo_bdev 0x200 0xff0 0x20 demo_sg_ok demo_ready
    ltac:(lia) ltac:(lia) ltac:(lia)) as [H _].
  assert ((co_cobd_request 0 0x200 0xff0 0x20 false (demo_sg, demo_cobd)).1 = Ret tt) as E
    by (vm_compute; reflexivity).
  destruct (co_cobd_request 0 0x200 0xff0 0x20 false (demo_sg, demo_cobd)) as [r ws].
  cbn in E. subst r. exists ws. split; [reflexivity|apply H].
Defined.

Lemma cobd_sg_stays_inside_witness :
  exists ws, co_cobd_request_sg 0 0x200 0xff8 2 false (demo_sg, demo_cobd) = (Ret tt, ws) /\
    forall x, (forall g, gbyte demo_sg g <> Some x) -> ws.1 x = demo_sg x.
Proof.
  pose proof (cobd_sg_stays_inside false demo_sg demo_cobd 0 demo_bdev 0x200 0xff8 2 demo_sg_ok demo_ready
    ltac:(lia) ltac:(lia)) as H.
  assert ((co_cobd_request_sg 0 0x200 0xff8 2 false (demo_sg, demo_cobd)).1 = Ret tt) as E
    by (vm_compute; reflexivity).
  destruct (co_cobd_request_sg 0 0x200 0xff8 2 false (demo_sg, demo_cobd)) as [r ws].
  cbn in E. subst r. exists ws. split; [reflexivity|]. intros x Hx. apply H. right. exact Hx.
Defined.

Lemma cobd_sg_write_gathers_witness :
  exists ds, length ds = 2%nat /\ described demo_sg 0xff8 ds /\
    Forall sane ds.
Proof.
  assert ((co_cobd_request_sg 0 0x200 0xff8 2 true (demo_sg, demo_cobd)).1 = Ret tt) as E
    by (vm_compute; reflexivity).
  destruct (co_cobd_request_sg 0 0x200 0xff8 2 true (demo_sg, demo_cobd)) as [r ws] eqn:Hrun.
  cbn in E. subst r.
  destruct (cobd_sg_write_gathers demo_sg demo_cobd 0 demo_bdev 0x200 0xff8 2 ws demo_sg_ok demo_ready
    ltac:(lia) ltac:(lia) Hrun) as (ds & H1 & H2 & H3 & _).
  exists ds. split; [lia|]. split; [exact H3|exact H2].
Defined.

Lemma cobd_units_well_formed_witness :
  exists c', co_cobd_attach 0 [65] (Cobd ∅ demo_files 0) = (Ret 0x10000, c') /\ units_ok c' /\
    co_cobd_size c' 0 = 0x10000.
Proof.
  destruct (cobd_units_well_formed (Cobd ∅ demo_files 0) 0 [65] demo_empty_ok) as [H _].
  assert ((co_cobd_attach 0 [65] (Cobd ∅ demo_files 0)).1 = Ret 0x10000) as E
    by (vm_compute; reflexivity).
  destruct (co_cobd_attach 0 [65] (Cobd ∅ demo_files 0)) as [r c']. cbn in E. subst r.
  exists c'. split; [reflexivity|]. split; apply H.
Defined.

(** ** Asynchronous requests

    The asynchronous block device at concrete inputs: the guest and the files
    above, two requests for unit 0 of which the worker has reported the
    first, and a request for a unit whose thread did not start. *)


#[export] Instance demo_guest_mem : GuestMem mem := {|
  gm_read va n := gets (fun m => load_bytes m va n);
  gm_write va bs n := modify (fun m => store_bytes m va (take (Z.to_nat n) bs));
  gm_read_u32 va := gets (fun m => load_u32 m va);
  gm_write_u32 va v := modify (fun m => store_u32 m va v);
|}.

Definition demo_va : Z := 0x60000.
Definition demo_idle : async := Async 0 false 0 ∅ None ∅ ∅ 0.
Definition demo_start (n : Z) : sys mem files :=
  Sys (demo_sg, demo_cobd) (set_workers n (fresh_async demo_va demo_idle))
    (list_to_map ((fun u => (u, Idle)) <$> seqZ 0 n)) ∅ [] (fun _ => []) (fun _ => []).

Lemma demo_started n : 0 <= n <= CO_COBD_WORKERS -> started (demo_start n).
Proof. intros Hn. by exists (demo_sg, demo_cobd), demo_va, demo_idle, n, ∅. Qed.

(** The states of the run. *)
Definition submitted (unit tag : Z) (s : sys mem files) : sys mem files :=
  let r := co_cobd_async_submit unit 0x200 0xff8 2 false tag (s_async s) in
  Sys (s_world s) r.2 (s_pc s) (s_event s) (if r.1 : bool then s_wakes s ++ [unit] else s_wakes s)
    (if r.1 then append_at (s_acc s) unit tag else s_acc s) (s_comp s).
Definition popped (u n : Z) (s : sys mem files) : sys mem files :=
  Sys (s_world s) (fifo_pop u (s_async s)).2 (<[u := Holding n]> (s_pc s)) (s_event s) (s_wakes s)
    (s_acc s) (s_comp s).
Definition moved (u n : Z) (s : sys mem files) : sys mem files :=
  let r := transfer (node_at (s_async s) n) (s_world s) in
  Sys r.2 (if result_of r.1 =? 0 then s_async s else count_error (s_async s))
    (<[u := Transferred n (result_of r.1)]> (s_pc s)) (s_event s) (s_wakes s) (s_acc s) (s_comp s).
Definition reported (u n result : Z) (s : sys mem files) : sys mem files :=
  let k := node_at (s_async s) n in
  let r := co_cobd_complete (cobd_io_va (s_async s)) (wk_unit k) (wk_tag k) result (s_world s).1 in
  Sys (r.2, (s_world s).2) (s_async s) (<[u := Reported n]> (s_pc s)) (s_event s) (s_wakes s)
    (s_acc s) (append_at (s_comp s) (wk_unit k) (wk_tag k)).

Lemma submitted_step unit tag s : astep s (submitted unit tag s).
Proof. destruct s. eapply step_submit. apply surjective_pairing. Qed.
Lemma popped_step u n s :
  s_pc s !! u = Some Idle -> (fifo_pop u (s_async s)).1 = Some n -> astep s (popped u n s).
Proof.
  destruct s. intros Hp Hn. eapply step_worker, step_pop; [done|]. simpl in *.
  rewrite <- Hn. apply surjective_pairing.
Qed.
Lemma moved_step u n s : s_pc s !! u = Some (Holding n) -> astep s (moved u n s).
Proof. destruct s. intros Hp. eapply step_worker, step_transfer; [done|]. apply surjective_pairing. Qed.
Lemma reported_step u n result s :
  s_pc s !! u = Some (Transferred n result) -> astep s (reported u n result s).
Proof.
  destruct s as [[w c] a pc ev wk acc comp]. intros Hp. eapply step_worker, step_report; [done|].
  apply surjective_pairing.
Qed.

Definition queued : sys mem files := submitted 0 8 (submitted 0 7 (demo_start 2)).
Definition reached_first : sys mem files := reported 0 127 0 (moved 0 127 (popped 0 127 queued)).

Lemma demo_run : rtc astep (demo_start 2) reached_first.
Proof.
  eapply rtc_l; [apply (submitted_step 0 7)|]. eapply rtc_l; [apply (submitted_step 0 8)|].
  fold queued.
  eapply rtc_l; [apply (popped_step 0 127); vm_compute; reflexivity|].
  eapply rtc_l; [apply (moved_step 0 127); vm_compute; reflexivity|].
  eapply rtc_l; [|apply rtc_refl]. apply reported_step. vm_compute. reflexivity.
Qed.

Lemma async_requests_conserved_witness :
  exists free q, queues (s_async reached_first) free q /\
    node_list free q (s_pc reached_first) ≡ₚ seqZ 0 CO_COBD_WORK_NODES /\
    [7; 8] = [7] ++ (tag_of (s_async reached_first) <$> q 0).
Proof.
  destruct (async_requests_conserved (demo_start 2) reached_first (demo_started 2 ltac:(done)) demo_run)
    as (free & q & Hq & Hn & _ & Hf).
  exists free, q. split; [exact Hq|]. split; [exact Hn|]. specialize (Hf 0).
  assert (s_acc reached_first 0 = [7; 8]) as E1 by (vm_compute; reflexivity).
  assert (s_comp reached_first 0 = [7]) as E2 by (vm_compute; reflexivity).
  assert (in_flight (s_async reached_first) (s_pc reached_first) 0 = []) as E3 by (vm_compute; reflexivity).
  rewrite E1, E2, E3 in Hf. exact Hf.
Defined.

Lemma async_worker_finishes_witness :
  exists s', rtc (unit_step 0) reached_first s' /\ s_comp s' 0 = [7; 8].
Proof.
  assert (runs 0 reached_first) as Hr by (exists (Reported 127); split; [vm_compute; reflexivity|done]).
  destruct (async_worker_finishes (demo_start 2) reached_first 0 (demo_started 2 ltac:(done)) demo_run Hr)
    as [(s' & Hrun & Ha & Hc) _].
  assert (stopping (s_async reached_first) = false) as E by (vm_compute; reflexivity).
  assert (s_acc reached_first 0 = [7; 8]) as E1 by (vm_compute; reflexivity).
  rewrite E in Hc. exists s'. split; [exact Hrun|]. rewrite Hc, Ha. exact E1.
Defined.

(** The thread of unit 0 comes up, that of unit 1 does not. *)
Definition first_thread (i : Z) : bool := i <? 1.

Lemma partial_start_strands_units_witness :
  (co_cobd_async_start demo_va first_thread (demo_sg, demo_idle)).1 = Ret tt /\
  s_acc (submitted 2 9 (demo_start 1)) 2 = [9] /\ s_comp (submitted 2 9 (demo_start 1)) 2 = [].
Proof.
  assert (rtc astep (demo_start 1) (submitted 2 9 (demo_start 1))) as Hr
    by (apply rtc_once, submitted_step).
  destruct (partial_start_strands_units (N := files) demo_sg
    (gm_write (u64 (demo_va + CO_ACIO_ENABLED)) (le_bytes 4 1) 4 demo_sg).2 demo_idle demo_va first_thread 1
    (demo_start 1) (submitted 2 9 (demo_start 1)) 2)
    as (Hstart & Hc & _); [done| |done|reflexivity|by apply demo_started|done|exact Hr|done|].
  - intros i Hi. unfold first_thread. lia.
  - rewrite Hstart. split; [reflexivity|]. split; [vm_compute; reflexivity|exact Hc].
Defined.

Import FlatGuest.

(** A ring with one record in it, at the wrap of its 128 slots. *)
Definition one_comp : completion := Completion 1 3 0.
Definition demo_ring : mem :=
  let m := store_u32 (fun _ => 0) CO_ACIO_ENABLED 1 in
  let m := store_u32 m CO_ACIO_COMP_HEAD 128 in
  let m := store_u32 m CO_ACIO_COMP_TAIL 127 in
  store_bytes m (comp_off 127) (comp_bytes one_comp).
Definition flat_ring : flat :=
  Flat (fun x => demo_ring (x - 0x4000)) (NetStatics 0 true).

Lemma demo_ring_ok : comp_ring demo_ring 127 [one_comp].
Proof.
  split; [vm_compute; reflexivity|]. split; [vm_compute; reflexivity|]. split; [done|].
  intros [|i] c Hc; [|done]. injection Hc as <-. vm_compute. reflexivity.
Qed.

Lemma completion_published_witness :
  exists w' m', co_cobd_complete 0x4000 0 7 1 flat_ring = (Ret tt, w') /\
    comp_ring m' 127 [one_comp; Completion 0 7 1].
Proof.
  assert (gm_window flat_ring 0x4000 CO_ACIO_BYTES demo_ring) as Hw.
  { split; [done|]. split; [done|]. split; [done|]. intros i Hi. unfold flat_ring. simpl.
    unfold load. do 2 f_equal. lia. }
  destruct (completion_published flat_ring 0x4000 demo_ring 127 [one_comp] (Completion 0 7 1) Hw
    ltac:(done) demo_ring_ok) as (w' & m' & Hrun & _ & _ & Hm).
  exists w', m'. split; [exact Hrun|]. rewrite decide_False in Hm by done. apply Hm.
Defined.
