(* ===== verification/DemoRunGate.v ===== *)
(** Runs of [RunGate] evaluated: a boot with a secondary to its end, and a stop
    that comes too late. *)
From stdpp Require Import relations.
From S2P Require Import Prelude.
From S2P Require Import RunGate.
From S2P Require Import RunGateOk.
From S2P Require Import RunGateCas.
From S2P Require Import RunGateRun.
#[local] Open Scope Z_scope.

(** ** Running a schedule *)

(** The answer of an access and the statics after it; [x] is what the
    surroundings say where it is theirs to say. *)
Definition answer (g : gate) (o : op) (x : Z) : option (Z * gate) :=
  match o with
  | CasGate old new => Some (co_run_gate g, if co_run_gate g =? old then set_gate new g else g)
  | ReadAbort => Some (vcpu_abort_all g, g)
  | WriteAbort y => Some (0, set_abort y g)
  | TakeLock => if co_vcpu_claim_lock g =? 0 then Some (0, set_claim_lock 1 g) else None
  | DropLock => Some (0, set_claim_lock 0 g)
  | CasActive v old new => Some (active g v, if active g v =? old then set_active v new g else g)
  | StoreActive v y => Some (0, set_active v y g)
  | ReadDiagnostic v => Some (diagnostic g v, g)
  | WriteDiagnostic v y => Some (0, set_diagnostic v y g)
  | ReadPassage v => Some (ap_passage g v, g)
  | WritePassage v p => Some (0, set_passage v p g)
  | AllocPages =>
      if x =? 0 then Some (0, g) else
      if decide (x ∈ live g) then None else Some (x, set_live ({[x]} ∪ live g) g)
  | FreePages p => Some (0, set_live (live g ∖ {[p]}) g)
  | Cross _ => Some (0, g)
  | Choose => Some (x, g)
  end.

Lemma answer_run g o x y g' : answer g o x = Some (y, g') -> run_op g o y g'.
Proof.
  destruct o; simpl; intros Ha; try (injection Ha as <- <-; by constructor);
    repeat case_match; zbool; simplify_eq; by constructor.
Qed.

Inductive caller := Boots | Joins (v : Z) | Tests (v iterations : Z) | Stops.
Definition enter_as (c : caller) : prog :=
  match c with
  | Boots => co_arch_boot_loaded Done
  | Joins v => co_arch_test_smp_lane v 0 true Done
  | Tests v iterations => co_arch_test_smp_lane v iterations false Done
  | Stops => co_arch_boot_running (fun running =>
      if running : bool then co_arch_boot_abort Done else Done)
  end.

Inductive move := Enter (t : nat) (c : caller) | Go (t : nat) (xs : list Z).

(** A thread goes on for as many accesses as there are answers. *)
Fixpoint follow (t : nat) (xs : list Z) (s : rsys) : option rsys :=
  match xs with
  | [] => Some s
  | x :: xs =>
      match r_threads s !! t with
      | Some (Op o k) =>
          match answer (r_gate s) o x with
          | Some (y, g') => follow t xs (RSys g' (<[t := k y]> (r_threads s)))
          | None => None
          end
      | _ => None
      end
  end.

Fixpoint play (l : list move) (s : rsys) : option rsys :=
  match l with
  | [] => Some s
  | Enter t c :: l =>
      match r_threads s !! t with
      | Some Done => play l (RSys (r_gate s) (<[t := enter_as c]> (r_threads s)))
      | _ => None
      end
  | Go t xs :: l => match follow t xs s with Some s' => play l s' | None => None end
  end.

Lemma follow_steps t xs s s' : follow t xs s = Some s' -> rtc rstep s s'.
Proof.
  revert s. induction xs as [|x xs IH]; intros [g ps] Hf; simpl in *; [by simplify_eq|].
  destruct (ps !! t) as [[| |o k]|] eqn:Ht; try done.
  destruct (answer g o x) as [[y g']|] eqn:Ha; [|done].
  eapply rtc_l; [|by apply IH]. eapply step_op; [done|by eapply answer_run].
Qed.

Lemma play_steps l s s' : play l s = Some s' -> rtc rstep s s'.
Proof.
  revert s. induction l as [|[t c|t xs] l IH]; intros [g ps] Hp; simpl in *; [by simplify_eq|..].
  - destruct (ps !! t) as [[| |]|] eqn:Ht; try done.
    eapply rtc_l; [|by apply IH]. apply step_enter; [done|]. destruct c; constructor.
  - destruct (follow t xs _) as [s1|] eqn:Hf; [|done]. etrans; [by eapply follow_steps|by apply IH].
Qed.

(** What a thread is about to do, as numbers. *)
Definition next_op (s : rsys) (t : nat) : option op :=
  match r_threads s !! t with Some (Op o _) => Some o | _ => None end.

Definition reaches (l : list move) (n : nat) (f : rsys -> bool) : bool :=
  match play l (loaded_driver n) with Some s => f s | None => false end.

Lemma reaches_ok l n f : reaches l n f = true -> exists s, rtc rstep (loaded_driver n) s /\ f s = true.
Proof.
  unfold reaches. destruct (play l _) as [s|] eqn:Hp; [|done]. intros Hf. exists s.
  split; [by eapply play_steps|done].
Qed.

Definition reaches_both (l l' : list move) (n : nat) (f f' : rsys -> bool) : bool :=
  match play l (loaded_driver n) with
  | Some s => (f s && match play l' s with Some s' => f' s' | None => false end)%bool
  | None => false
  end.

Lemma reaches_then l l' n f f' :
  reaches_both l l' n f f' = true ->
  exists s s', rtc rstep (loaded_driver n) s /\ f s = true /\ rtc rstep s s' /\ f' s' = true.
Proof.
  unfold reaches_both. destruct (play l _) as [s|] eqn:Hp; [|done].
  intros [Hf Hf']%andb_true_iff. destruct (play l' s) as [s'|] eqn:Hp'; [|done].
  exists s, s'. split_and!; [by eapply play_steps|done|by eapply play_steps|done].
Qed.

(** ** Schedules *)

(** A boot on thread 0 with pages 101 to 104, up to its first crossing; a
    secondary on thread 1, up to its own; a stop on thread 2, its flag not yet
    raised; the secondary's way out; the boot's. *)
Definition boot_up : list move :=
  [Enter 0 Boots;
   Go 0 [0; 0; 0; 1; 101; 1; 0; 0; 0; 0; 102; 1; 0; 103; 1; 0; 104; 1; 0; 1; 0; 0; 0; 1; 0; 0; 0; 9; 0; 0]].
Definition lane_up : list move :=
  [Enter 1 (Joins 1);
   Go 1 [0; 0; 1; 1; 0; 0; 0; 1; 0; 0; 0; 0; 0; 0; 0; 1; 0; 0; 0; 0; 0; 0; 1; 0; 1; 1; 1; 1; 9; 0; 0]].
Definition stopping : list move := [Enter 2 Stops; Go 2 [0; 0; 5; 0; 0; 0]].
Definition lane_down : list move := [Go 1 [0; 0; 0; 0; 0; 0; 0; 0; 0]].
Definition boot_down (stop : Z) : list move :=
  [Go 0 ([0; 0; stop] ++ (if stop =? 0 then [0] else []) ++
         [0; 5; 0; 0; 0; 9; 0; 0; 0; 0; 0; 0; 0; 0; 5; 0; 0; 0;
          0; 0; 0; 0; 0; 0; 0; 0; 0; 0; 5; 0; 0])].

(** Two processors at their crossings. *)
Definition crossing (s : rsys) (t : nat) (p : Z) : bool :=
  match next_op s t with Some (Cross q) => q =? p | _ => false end.

Lemma crossing_ok s t p : crossing s t p = true -> exists k, r_threads s !! t = Some (Op (Cross p) k).
Proof.
  unfold crossing, next_op. destruct (r_threads s !! t) as [[| |o k]|]; try done.
  destruct o; try done. intros Hp. zbool. subst. by exists k.
Qed.

Lemma two_crossing :
  exists s k0 k1, rtc rstep (loaded_driver 3) s /\
    r_threads s !! 0%nat = Some (Op (Cross 101) k0) /\ r_threads s !! 1%nat = Some (Op (Cross 102) k1).
Proof.
  destruct (reaches_ok (boot_up ++ lane_up) 3 (fun s => crossing s 0 101 && crossing s 1 102)%bool)
    as (s & Hs & Hf); [by vm_compute|].
  apply andb_true_iff in Hf as [[k0 Hk0]%crossing_ok [k1 Hk1]%crossing_ok]. by exists s, k0, k1.
Qed.

Lemma run_pages_witness :
  exists s k0 k1, rtc rstep (loaded_driver 3) s /\
    r_threads s !! 0%nat = Some (Op (Cross 101) k0) /\
    r_threads s !! 1%nat = Some (Op (Cross 102) k1) /\ 101 ∈ live (r_gate s).
Proof.
  destruct two_crossing as (s & k0 & k1 & Hs & Hk0 & Hk1). exists s, k0, k1.
  split; [exact Hs|]. split; [exact Hk0|]. split; [exact Hk1|].
  exact (proj1 (run_pages 3 s 0 (Cross 101) k0 101 Hs Hk0 (or_introl eq_refl))).
Defined.

(** The whole of a run, with its secondary, stopped from outside. *)
Definition is_done (p : option prog) : bool := match p with Some Done => true | _ => false end.
Definition whole_run : list move :=
  boot_up ++ lane_up ++ stopping ++ [Go 2 [0]] ++ lane_down ++ boot_down 0.

Lemma whole_run_done :
  exists s, rtc rstep (loaded_driver 3) s /\ forall t p, r_threads s !! t = Some p -> p = Done.
Proof.
  destruct (reaches_ok whole_run 3 (fun s => is_done (r_threads s !! 0%nat) &&
    is_done (r_threads s !! 1%nat) && is_done (r_threads s !! 2%nat))%bool) as (s & Hs & Hf);
    [by vm_compute|].
  exists s. split; [done|]. intros t p Ht. pose proof (reachable_length _ _ Hs) as Hlen.
  apply lookup_lt_Some in Ht as Hlt. rewrite Hlen in Hlt.
  apply andb_true_iff in Hf as [[H0' H1']%andb_true_iff H2'].
  destruct t as [|[|[|t]]]; [..|lia]; rewrite Ht in *; by destruct p.
Qed.

Lemma run_quiet_witness :
  exists s, rtc rstep (loaded_driver 3) s /\ co_run_gate (r_gate s) = CO_RUN_IDLE /\
    live (r_gate s) = ∅.
Proof.
  destruct whole_run_done as (s & Hs & Hd). exists s. split; [exact Hs|].
  destruct (run_quiet 3 s Hs Hd) as (Hg & _ & _ & _ & Hl). exact (conj Hg Hl).
Defined.

Lemma run_gate_bounds_witness :
  exists s, rtc rstep (loaded_driver 3) s /\ co_run_gate (r_gate s) <= 30.
Proof.
  destruct two_crossing as (s & k0 & k1 & Hs & _). exists s. split; [exact Hs|].
  exact (proj2 (proj1 (run_gate_bounds 3 s Hs))).
Defined.

(** A private test on thread 1, in its loop. *)
Lemma one_testing :
  exists s, rtc rstep (loaded_driver 3) s /\
    co_run_gate (r_gate s) = Z.lor CO_RUN_TESTING CO_RUN_REF_ONE.
Proof.
  destruct (reaches_ok
    [Enter 1 (Tests 1 5); Go 1 [1; 5; 0; 0; 0; 0; 0; 0; 0; 0; 0; 1; 0; 0; 105; 1; 9; 1; 0]] 3
    (fun s => crossing s 1 105 && (co_run_gate (r_gate s) =? Z.lor CO_RUN_TESTING CO_RUN_REF_ONE))%bool)
    as (s & Hs & [_ Hg]%andb_true_iff); [by vm_compute|].
  exists s. split; [done|by zbool].
Qed.

Lemma run_gate_meaning_witness :
  exists s, rtc rstep (loaded_driver 3) s /\
    co_run_gate (r_gate s) = Z.lor CO_RUN_TESTING CO_RUN_REF_ONE /\
    forall v, ap_passage (r_gate s) v = 0.
Proof.
  destruct one_testing as (s & Hs & Hg). exists s. split; [exact Hs|]. split; [exact Hg|].
  apply (run_gate_meaning 3 s Hs). rewrite Hg.
  intros Hin. apply (bool_decide_pack _) in Hin. vm_compute in Hin. exact Hin.
Defined.

(** ** A stop that comes too late *)

(** [co_arch_boot_abort] raises the flag after it has let go of the lock. A
    thread that is held up there, having stopped one run, stops the next one:
    the first run is over and the gate idle; a boot then clears the flag and
    opens its run; the thread goes on, and the run of the second boot has its
    abort flag up, though nobody asked it to stop. *)
Lemma late_stop :
  exists s1 s2, rtc rstep (loaded_driver 3) s1 /\ co_run_gate (r_gate s1) = CO_RUN_IDLE /\
    rtc rstep s1 s2 /\ crossing s2 0 101 = true /\
    co_run_gate (r_gate s2) = CO_RUN_RUNNING /\ vcpu_abort_all (r_gate s2) = 1.
Proof.
  destruct (reaches_then (boot_up ++ stopping ++ boot_down 1) (boot_up ++ [Go 2 [0]]) 3
    (fun s => co_run_gate (r_gate s) =? CO_RUN_IDLE)
    (fun s => crossing s 0 101 && ((co_run_gate (r_gate s) =? CO_RUN_RUNNING) &&
                                   (vcpu_abort_all (r_gate s) =? 1)))%bool)
    as (s1 & s2 & Hs1 & Hg & Hs2 & Hf); [by vm_compute|].
  apply andb_true_iff in Hf as [Hc [Hr Ha]%andb_true_iff]. apply Z.eqb_eq in Hg, Hr, Ha.
  exists s1, s2. split_and!; assumption.
Qed.
