(* ===== verification/DemoHandles.v ===== *)
(** The handles on a concrete machine: a run of several threads, the theorems
    applied to it, and what goes wrong. *)
From stdpp Require Import relations.
From S2P Require Import Prelude.
From S2P Require Import Rc.
From S2P Require Import Mem.
From S2P Require Import Mmu.
From S2P Require Import Space.
From S2P Require Import Host.
From S2P Require Import Frames.
From S2P Require Import FramesOk.
From S2P Require Import Grow.
From S2P Require Import Kload.
From S2P Require Import Loaded.
From S2P Require Import Teardown.
From S2P Require Import Partial.
From S2P Require Import Handles.
From S2P Require Import HandlesOk.
From S2P Require Import HandlesRun.
From S2P Require Import HandlesPin.
From S2P Require Import Demo.
#[local] Open Scope Z_scope.

(** ** A memory manager *)

(** Handles count up; a mapping lands at a multiple of 16 MB, and a lock pins
    one frame a page, from the frame of the address on. *)
Module SimpleUserMem.
Record um := Um { next_handle : positive; maps : gmap Z (Z * Z * Z); locks : gmap Z (list Z) }.

Definition map_user (kva pages : Z) (u : um) : option (Z * Z) * um :=
  let h := Z.pos (next_handle u) in
  if decide (maps u !! h = None) then
    (Some (Z.shiftl h 24, h), Um (Pos.succ (next_handle u)) (<[h := (Z.shiftl h 24, kva, pages)]> (maps u)) (locks u))
  else (None, u).
Definition unmap_user (uva h pages : Z) (u : um) : um :=
  Um (next_handle u) (delete h (maps u)) (locks u).
Definition lock_user (va bytes : Z) (u : um) : (Z * list Z + co_rc_value_t) * um :=
  let h := Z.pos (next_handle u) in
  let pfns := seqZ (Z.shiftr va 12) (Z.shiftr (bytes + 4095) 12) in
  if decide (locks u !! h = None) then
    (inl (h, pfns), Um (Pos.succ (next_handle u)) (maps u) (<[h := pfns]> (locks u)))
  else (inr CO_RC_ERROR, u).
Definition unlock_user (h : Z) (u : um) : um := Um (next_handle u) (maps u) (delete h (locks u)).

Instance user_mem : UserMem um := {
  co_os_userspace_map := map_user; co_os_userspace_unmap := unmap_user;
  co_os_user_lock_pages := lock_user; co_os_user_unlock_pages := unlock_user;
}.

Instance laws : UserMemLaws um.
Proof.
  refine {| um_maps := maps; um_locks := locks |}.
  - intros kva pages u. cbn. unfold map_user. by case_decide.
  - by intros.
  - intros va bytes u. cbn. unfold lock_user. by case_decide.
  - by intros.
Defined.

Definition fresh : um := Um 1 ∅ ∅.
End SimpleUserMem.
#[export] Existing Instances SimpleUserMem.user_mem SimpleUserMem.laws.

(** ** Running a schedule *)

Abbreviation hsys := (@sys SimpleHost.host SimpleUserMem.um).
Abbreviation hdriver := (@driver SimpleHost.host SimpleUserMem.um).

Inductive event :=
  | Ask (t : nat) (p : thread hsys)
  | Go (t : nat)
  | Teardown.

Definition play_one (e : event) (x : hdriver) : option hdriver :=
  match e with
  | Ask t p => match dr_threads x !! t with
               | Some Back => Some (Driver (dr_sys x) (<[t := p]> (dr_threads x)))
               | _ => None
               end
  | Go t => match dr_threads x !! t with
            | Some (Sect m k) => match m (dr_sys x) with
                                 | (Ret a, s') => Some (Driver s' (<[t := k a]> (dr_threads x)))
                                 | _ => None
                                 end
            | _ => None
            end
  | Teardown => match co_kload_free (s_world (dr_sys x)) with
                | (Ret tt, w') =>
                    if (kload_user_maps (w_kl (s_world (dr_sys x))) =? 0)
                       && (kload_user_maps (w_kl w') =? 0) && (kload_block_count (w_kl w') =? 0)
                    then Some (Driver (in_world w' (dr_sys x)) (dr_threads x)) else None
                | _ => None
                end
  end.

Fixpoint play (l : list event) (x : hdriver) : option hdriver :=
  match l with
  | [] => Some x
  | e :: l => match play_one e x with Some x' => play l x' | None => None end
  end.

Definition asks_ok (e : event) : Prop := match e with Ask _ p => request p | _ => True end.

Lemma play_one_step e x x' : asks_ok e -> play_one e x = Some x' -> dstep x x'.
Proof.
  destruct x as [s ts]. destruct e as [t p|t|]; cbn; intros He Hp.
  - destruct (ts !! t) as [[|A m k]|] eqn:Ht; simplify_eq. by constructor.
  - destruct (ts !! t) as [[|A m k]|] eqn:Ht; try done.
    destruct (m s) as [[a|rc|] s'] eqn:Hm; simplify_eq. by econstructor.
  - destruct (co_kload_free (s_world s)) as [[[]|rc|] w']; try done.
    destruct (_ && _)%bool eqn:Hc; simplify_eq. zbool. apply step_loader.
    split_and!; [congruence|intros i; lia|lia].
Qed.

Lemma handle_play_steps l x x' : Forall asks_ok l -> play l x = Some x' -> rtc dstep x x'.
Proof.
  intros Hl. revert x. induction Hl as [|e l He _ IH]; intros x; cbn; [by intros [= ->]; apply rtc_refl|].
  destruct (play_one e x) as [x1|] eqn:H1; [|done]. intros Hp.
  eapply rtc_l; [by eapply play_one_step|auto].
Qed.

Definition after (l : list event) (x : hdriver) : hdriver := default x (play l x).
Definition plays (l : list event) (x : hdriver) : bool := bool_decide (is_Some (play l x)).

Lemma play_after l x : Forall asks_ok l -> plays l x = true -> rtc dstep x (after l x).
Proof.
  intros Hl Hp. apply (handle_play_steps l); [done|]. apply bool_decide_eq_true in Hp as [x' E].
  unfold after. by rewrite E.
Qed.

Ltac handle_ok := first [apply req_kmap_range | apply req_kmap | apply req_unmap_range | apply req_kunmap
  | apply req_kunwindow | apply req_kwindow; done | apply req_kwindow_at; done].
Ltac asks_ok :=
  repeat (apply Forall_cons_2; [first [exact I | apply req_open | apply req_cleanup
    | eapply req_handle; handle_ok]|]);
  apply Forall_nil_2.

(** The same in good order. *)
Abbreviation horderly := (@orderly SimpleHost.host SimpleUserMem.um).

Inductive orderly_event :=
  | Open (t : nat) (fresh : Z)
  | Use (t : nat) (o : Z) (p : thread hsys)
  | Cleanup (t : nat) (o : Z)
  | Section_ (t : nat).

Definition orderly_one (e : orderly_event) (X : horderly) : option horderly :=
  let 'Orderly (Driver s ts) g C rf := X in
  match e with
  | Open t fresh => match ts !! t, attempt (co_manager_open fresh true true) s with
      | Some Back, (Ret a, s') => Some (Orderly (Driver s' ts) g (match a with inl _ => C ∖ {[fresh]} | inr _ => C end) rf)
      | _, _ => None
      end
  | Use t o p => match ts !! t with
      | Some Back => if decide (o ∈ C) then None
                     else Some (Orderly (Driver s (<[t := p]> ts)) (<[t := settle p (Busy o)]> g) C rf)
      | _ => None
      end
  | Cleanup t o => match ts !! t, s_desc s !! o with
      | Some Back, Some _ => if decide (o = 0 \/ o ∈ C \/ Busy o ∈ g) then None
          else Some (Orderly (Driver s (<[t := co_manager_open_desc_deactive_and_close o Back]> ts))
                       (<[t := Cleaning o]> g) ({[o]} ∪ C) rf)
      | _, _ => None
      end
  | Section_ t => match ts !! t, g !! t with
      | Some (Sect m k), Some w => match m s with
          | (Ret a, s') => Some (Orderly (Driver s' (<[t := k a]> ts)) (<[t := settle (k a) w]> g) C rf)
          | _ => None
          end
      | _, _ => None
      end
  end.

Fixpoint orderly_play (l : list orderly_event) (X : horderly) : option horderly :=
  match l with
  | [] => Some X
  | e :: l => match orderly_one e X with Some X' => orderly_play l X' | None => None end
  end.

Definition uses_ok (e : orderly_event) : Prop := match e with Use _ o p => handle_request o p | _ => True end.

Lemma orderly_one_step e X X' : uses_ok e -> orderly_one e X = Some X' -> ostep X X'.
Proof.
  destruct X as [[s ts] g C rf]. destruct e as [t fresh|t o p|t o|t]; cbn; intros He Hp.
  - destruct (ts !! t) as [[|A m k]|] eqn:Ht; try done.
    destruct (attempt _ s) as [[a|rc|] s'] eqn:Hm; simplify_eq. by econstructor.
  - destruct (ts !! t) as [[|A m k]|] eqn:Ht; try done. case_decide; simplify_eq. by constructor.
  - destruct (ts !! t) as [[|A m k]|] eqn:Ht; try done. destruct (s_desc s !! o) eqn:Hd; [|done].
    case_decide as Hn; simplify_eq. econstructor; [done| |done|..]; naive_solver.
  - destruct (ts !! t) as [[|A m k]|] eqn:Ht; try done. destruct (g !! t) eqn:Hg; [|done].
    destruct (m s) as [[a|rc|] s'] eqn:Hm; simplify_eq. by econstructor.
Qed.

Lemma orderly_play_steps l X X' : Forall uses_ok l -> orderly_play l X = Some X' -> rtc ostep X X'.
Proof.
  intros Hl. revert X. induction Hl as [|e l He _ IH]; intros X; cbn; [by intros [= ->]; apply rtc_refl|].
  destruct (orderly_one e X) as [X1|] eqn:H1; [|done]. intros Hp.
  eapply rtc_l; [by eapply orderly_one_step|auto].
Qed.

Definition orderly_after (l : list orderly_event) (X : horderly) : horderly := default X (orderly_play l X).

Lemma orderly_play_after l X :
  Forall uses_ok l -> bool_decide (is_Some (orderly_play l X)) = true -> rtc ostep X (orderly_after l X).
Proof.
  intros Hl Hp. apply (orderly_play_steps l); [done|]. apply bool_decide_eq_true in Hp as [X' E].
  unfold orderly_after. by rewrite E.
Qed.

(** ** Two threads, one handle *)

Definition handle : Z := 0x1000.
Definition handles_start : hdriver :=
  Driver (Sys demo_running SimpleUserMem.fresh ∅ [] 0) [Back; Back].

Lemma blocks_of_frames {OS} `{HostLaws OS} o (k : kload_statics) : frames_ok o k -> blocks_unsigned k.
Proof.
  intros Hok i Hi. destruct (ti_ok _ _ _ (fo_tiles _ _ Hok) i Hi) as [_ [_ ?] [_ ?]]. lia.
Qed.

Lemma demo_running_frames : frames_ok (w_os demo_running) (w_kl demo_running).
Proof.
  destruct (rv_state _ (running_inv 0 true ltac:(lia))) as [Hid|Hok]; [|exact Hok].
  apply id_space in Hid. vm_compute in Hid. discriminate Hid.
Qed.

Lemma handles_started : driver_start handles_start.
Proof.
  split; [done|done|done|done| |by repeat constructor].
  exact (blocks_of_frames _ _ demo_running_frames).
Qed.

(** Open, and a slice for address 0x3000. *)
Definition opening : list event :=
  [Ask 0 (Sect (attempt (co_manager_open handle true true)) (fun _ => Back)); Go 0;
   Ask 0 (co_manager_kmap_range handle 0x3000 (fun _ => Back)); Go 0; Go 0].
Definition opened_up : hdriver := after opening handles_start.

Lemma opening_plays : rtc dstep handles_start opened_up.
Proof.
  apply play_after; [asks_ok|vm_compute; reflexivity].
Qed.

(** The slice, and the descriptor that records it. *)
Definition the_slice : co_manager_kmap_slice_t := Slice 1 0x1000000 20 0 (20 * CO_ARCH_PAGE_SIZE).
Definition the_desc : co_manager_open_desc :=
  Desc CO_MANAGER_OPEN_MAGIC true 1 [the_slice] 1 true [] 0.

Lemma opened_desc : s_desc (dr_sys opened_up) !! handle = Some the_desc.
Proof. vm_compute. reflexivity. Qed.

Lemma handles_pin_ram_witness :
  pinned (w_kl (s_world (dr_sys opened_up))) (s_um (dr_sys opened_up)) the_slice.
Proof.
  destruct (handles_pin_ram handles_start opened_up handle the_desc the_slice
           handles_started opening_plays opened_desc) as [Hp _]; [left|exact Hp].
Defined.

(** A handle opened by one thread, used by both, and cleaned up by the second
    to the end. *)
Definition orderly_life : list orderly_event :=
  [Open 0 handle; Use 0 handle (co_manager_kmap_range handle 0x3000 (fun _ => Back)); Section_ 0; Section_ 0;
   Use 1 handle (co_manager_kmap_range handle 0x5000 (fun _ => Back)); Section_ 1; Section_ 1;
   Cleanup 1 handle; Section_ 1; Section_ 1; Section_ 1; Section_ 1; Section_ 1; Section_ 1; Section_ 1].
Definition orderly_end : horderly := orderly_after orderly_life (orderly_start handles_start).

Lemma orderly_life_plays : rtc ostep (orderly_start handles_start) orderly_end.
Proof.
  apply orderly_play_after; [|vm_compute; reflexivity].
  repeat (apply Forall_cons_2; [first [exact I | unfold uses_ok; handle_ok]|]). apply Forall_nil_2.
Qed.

(** Both are back: nothing is mapped, nothing is reserved, the handle is gone. *)
Lemma handles_no_leak_witness :
  um_maps (s_um (dr_sys (or_driver orderly_end))) = ∅ /\
  kload_user_maps (w_kl (s_world (dr_sys (or_driver orderly_end)))) = 0.
Proof.
  destruct (handles_no_leak handles_start orderly_end handles_started orderly_life_plays)
    as (_ & _ & _ & _ & _ & Hnone).
  - vm_compute. repeat constructor.
  - assert (s_desc (dr_sys (or_driver orderly_end)) = ∅) as E by (vm_compute; reflexivity).
    destruct Hnone as (Hm & _ & Hu); [|split; [exact Hm|exact Hu]].
    intros o [d Hd]. rewrite E in Hd. discriminate Hd.
Defined.

(** A handle just opened. *)
Definition bare_desc : co_manager_open_desc := Desc CO_MANAGER_OPEN_MAGIC true 1 [] 0 false [] 0.

Definition just_opened : hsys :=
  Sys demo_running SimpleUserMem.fresh {[handle := bare_desc]} [handle] 1.

Lemma kmap_range_answers_witness :
  exists put a s', kmap_range_locked handle 0x3000 just_opened = (Ret (put, a), s') /\
    range_rc a = CO_RC_OK /\ range_done handle 0x3000 just_opened bare_desc put a s'.
Proof.
  destruct (kmap_range_answers handle 0x3000 just_opened bare_desc) as (put & a & s' & Hrun & Hdone).
  - exact demo_running_frames.
  - vm_compute. reflexivity.
  - split; reflexivity.
  - exists put, a, s'. split; [exact Hrun|split; [|exact Hdone]].
    assert ((kmap_range_locked handle 0x3000 just_opened).1 =
      Ret (false, RangeAnswer CO_RC_OK (Some the_slice) false)) as E by (vm_compute; reflexivity).
    rewrite Hrun in E. cbn [fst] in E. injection E as -> ->. reflexivity.
Defined.

(** ** What goes wrong *)

(** An eviction and a letting go of the same handle. The first thread has taken
    the slice out of the list and is to unmap it; the second drops the last
    reservation, and a teardown gives the RAM back. The process still maps it,
    at the kernel address the block had. *)
Definition evicting : list event :=
  [Ask 0 (co_manager_kmap_unmap_range handle 0 (fun _ => Back)); Go 0;
   Ask 1 (ioctl_kunmap handle (fun _ => Back)); Go 1; Go 1; Go 1; Go 1; Teardown].
Definition evicted : hdriver := after evicting opened_up.

Lemma eviction_outlives_ram :
  rtc dstep handles_start evicted /\
  kload_block_count (w_kl (s_world (dr_sys evicted))) = 0 /\
  um_maps (s_um (dr_sys evicted)) !! 1 =
    Some (0x1000000, block_va (block_at (w_kl demo_running) 0), 20) /\
  SimpleHost.live (w_os (s_world (dr_sys evicted)))
    !! (block_va (block_at (w_kl demo_running) 0) / CO_ARCH_PAGE_SIZE) = None.
Proof.
  split_and!; [|vm_compute; reflexivity..].
  etransitivity; [apply opening_plays|]. apply play_after; [asks_ok|vm_compute; reflexivity].
Qed.

(** A request in flight when its handle is cleaned up. The second thread's cleanup
    has let go of what the handle holds; the first thread's [KMAP_RANGE], begun
    before, now maps a slice and records it; the cleanup drops the last
    reference. The handle is gone, and its mapping and its reservation remain:
    no teardown of this run gives the guest's RAM back. *)
Definition racing : list event :=
  [Ask 0 (Sect (attempt (co_manager_open handle true true)) (fun _ => Back)); Go 0;
   Ask 0 (co_manager_kmap_range handle 0x3000 (fun _ => Back)); Go 0;
   Ask 1 (co_manager_open_desc_deactive_and_close handle Back); Go 1; Go 1; Go 1;
   Go 0; Go 1; Go 1].
Definition raced : hdriver := after racing handles_start.

Lemma cleanup_race_leaks :
  rtc dstep handles_start raced /\
  Forall (fun t => t = Back) (dr_threads raced) /\
  s_desc (dr_sys raced) = ∅ /\
  um_maps (s_um (dr_sys raced)) !! 1 = Some (0x1000000, block_va (block_at (w_kl demo_running) 0), 20) /\
  kload_user_maps (w_kl (s_world (dr_sys raced))) = 1.
Proof.
  split_and!; [apply play_after; [asks_ok|vm_compute; reflexivity]|vm_compute; repeat constructor|vm_compute; reflexivity..].
Qed.

(** A window outlives its run. Handle [handle] showed three pages to a guest
    that is gone; in the next run another handle shows three pages at the same
    place, and letting go of the first window takes the second away from the
    guest, whose owner still records it. *)
Definition other_handle : Z := 0x2000.
Definition window_pa : Z := 61 * CO_ARCH_PAGE_SIZE.
Definition arena_start : hdriver :=
  Driver (Sys demo_arena SimpleUserMem.fresh ∅ [] 0) [Back].

Definition first_run : list event :=
  [Ask 0 (Sect (attempt (co_manager_open handle true true)) (fun _ => Back)); Go 0;
   Ask 0 (Sect (attempt (co_manager_open other_handle true true)) (fun _ => Back)); Go 0;
   Ask 0 (ioctl_kwindow_at handle 0x71000 0x3000 window_pa (fun _ => Back)); Go 0; Go 0; Go 0; Go 0].
Definition second_run : list event :=
  [Ask 0 (ioctl_kwindow_at other_handle 0x81000 0x3000 window_pa (fun _ => Back)); Go 0; Go 0; Go 0; Go 0;
   Ask 0 (ioctl_kunwindow handle window_pa 0x3000 (fun _ => Back)); Go 0; Go 0; Go 0].

Definition run_over : hdriver := after first_run arena_start.
(** The same arena, set up anew. *)
Definition new_run : hdriver := Driver (in_world demo_arena (dr_sys run_over)) (dr_threads run_over).
Definition both_let_go : hdriver := after second_run new_run.

Lemma arena_blocks : blocks_unsigned (w_kl demo_arena).
Proof.
  assert (forall w : machine, frames_ok (w_os w) (w_kl w) ->
    blocks_unsigned (w_kl (upd_kl (set_window_base_pages 32) w))) as Hb.
  { intros w Hok. exact (blocks_of_frames _ _ Hok). }
  exact (Hb demo_ram (gr_ok _ _ demo_ram_grown)).
Qed.

Lemma window_outlives_run :
  rtc dstep arena_start both_let_go /\
  window <$> s_desc (dr_sys both_let_go) !! other_handle = Some [Window 2 3 window_pa] /\
  um_locks (s_um (dr_sys both_let_go)) !! 2 = Some [0x81; 0x82; 0x83] /\
  p2m_at (w_kl (s_world (dr_sys both_let_go))) 61 = 0.
Proof.
  split_and!; [|vm_compute; reflexivity..].
  assert (rtc dstep arena_start run_over) as H1
    by (apply play_after; [asks_ok|vm_compute; reflexivity]).
  assert (rtc dstep new_run both_let_go) as H3
    by (apply play_after; [asks_ok|vm_compute; reflexivity]).
  assert (dstep run_over new_run) as H2.
  { assert (kload_user_maps (w_kl (s_world (dr_sys run_over))) = 0) as Hm by (vm_compute; reflexivity).
    unfold new_run. destruct run_over as [s ts]. cbn [dr_sys dr_threads] in *. apply step_loader.
    split; [rewrite Hm; vm_compute; reflexivity|]. split; [exact arena_blocks|].
    intros Hpos. rewrite Hm in Hpos. destruct (Z.lt_irrefl _ Hpos). }
  etransitivity; [exact H1|]. eapply rtc_l; [exact H2|exact H3].
Qed.

(** A window of four gigabytes and a page. The size is cut to 32 bits on the way
    in, so one page is shown and recorded; the same size names another number of
    pages on the way out, so the window is not found and stays. *)
Definition big : Z := 2 ^ 32 + 0x1000.
Definition big_window : list event :=
  [Ask 0 (Sect (attempt (co_manager_open handle true true)) (fun _ => Back)); Go 0;
   Ask 0 (ioctl_kwindow_at handle 0x71000 big window_pa (fun _ => Back)); Go 0; Go 0; Go 0; Go 0;
   Ask 0 (ioctl_kunwindow handle window_pa big (fun _ => Back)); Go 0].

Lemma window_size_cut :
  rtc dstep arena_start (after big_window arena_start) /\
  Forall (fun t => t = Back) (dr_threads (after big_window arena_start)) /\
  window <$> s_desc (dr_sys (after big_window arena_start)) !! handle = Some [Window 1 1 window_pa].
Proof.
  split_and!; [apply play_after; [asks_ok|]|..]; vm_compute; repeat constructor.
Qed.
