(* ===== verification/DemoGpu.v ===== *)
(** A host, a driver and a renderer that keep their promises, and the GPU daemon
    run on them. *)
From stdpp Require Import relations.
From S2P Require Import Prelude.
From S2P Require Import Mem.
From S2P Require Import Rc.
From S2P Require Import Handles.
From S2P Require Import Vring.
From S2P Require Import Slices.
From S2P Require Import SlicesOk.
From S2P Require Import SlicesPin.
From S2P Require Import SlicesEvict.
From S2P Require Import Gpu.
From S2P Require Import Vrend.
From S2P Require Import GpuRes.
From S2P Require Import GpuServe.
From S2P Require Import GpuOk.
From S2P Require Import GpuHints.
From S2P Require Import GpuCalm.
From S2P Require Import GpuBacking.
From S2P Require Import GpuRun.
#[local] Open Scope Z_scope.

(** ** The driver and the heap: slices of 12 MB by number, nodes from 1 on *)

Record henv := Henv { h_slices : list Z; h_live : gset Z; h_next : Z }.

Definition slice_no (k : Z) : co_kmap_range_t :=
  Range (k * CO_KMAP_SLICE_BYTES) CO_KMAP_SLICE_BYTES (2 ^ 40 + k * CO_KMAP_SLICE_BYTES).

#[export] Instance HenvHost : CogpuHost henv := {
  ioctl_kmap_range gpa e :=
    let k := gpa / CO_KMAP_SLICE_BYTES in
    if ((k <? 0) || (1024 <=? k))%bool then (CO_RC_OK, CO_RC_ERROR, slice_no 0, e)
    else if bool_decide (k ∈ h_slices e) then (CO_RC_OK, CO_RC_OK, slice_no k, e)
    else (CO_RC_OK, CO_RC_OK, slice_no k, Henv (k :: h_slices e) (h_live e) (h_next e));
  ioctl_kmap_unmap_range pa e :=
    let k := pa / CO_KMAP_SLICE_BYTES in
    if (bool_decide (k ∈ h_slices e) && (k * CO_KMAP_SLICE_BYTES =? pa))%bool
    then (CO_RC_OK, CO_RC_OK, Henv (filter (fun x => x <> k) (h_slices e)) (h_live e) (h_next e))
    else (CO_RC_OK, CO_RC_ERROR, e);
  VirtualQuery _ _ := Some (Mbi 0 (2 ^ 63) true false);
  heap_calloc e := (h_next e, Henv (h_slices e) ({[h_next e]} ∪ h_live e) (h_next e + 1));
  heap_free a e := Henv (h_slices e) (h_live e ∖ {[a]}) (h_next e);
  heap_malloc _ e := (true, e);
  GetTickCount e := (5000, e);
  raise_ws_once _ e := (true, e);
}.

Definition henv_ok (e : henv) : Prop :=
  NoDup (h_slices e) /\ Forall (fun k => 0 <= k < 1024) (h_slices e) /\ 0 < h_next e /\
  forall a, a ∈ h_live e -> 0 < a < h_next e.

Lemma slice_no_inj k k' : slice_no k = slice_no k' -> k = k'.
Proof. intros [= E1 _]. change CO_KMAP_SLICE_BYTES with 12582912 in E1. lia. Qed.

Lemma slice_no_ok k : 0 <= k < 1024 -> range_ok (slice_no k).
Proof. intros Hk. unfold range_ok, slice_no. cbn. change CO_KMAP_SLICE_BYTES with 12582912. lia. Qed.

Lemma slice_no_apart k k' : k <> k' -> apart (slice_no k) (slice_no k').
Proof. intros Hk. unfold apart, slice_no. cbn. change CO_KMAP_SLICE_BYTES with 12582912. lia. Qed.

#[export] Instance HenvLaws : CogpuLaws henv.
Proof.
  refine {| env_ok := henv_ok; driver_ranges e := slice_no <$> h_slices e; live_nodes := h_live |}.
  - intros gpa e (Hnd & Hk & Hn & Hl). cbn. destruct (_ || _)%bool eqn:Hc; [done|]. zbool.
    case_bool_decide as Hin; cbn.
    + split; [done|]. split; [done|]. split; [apply slice_no_ok; lia|]. split; [by apply list_elem_of_fmap_2|by left].
    + split; [split_and!; try done; [by constructor|constructor; [lia|done]]|]. split; [done|].
      split; [apply slice_no_ok; lia|]. split; [left|]. right. split; [done|]. split.
      * intros (k & E1 & Hk')%list_elem_of_fmap. apply slice_no_inj in E1. congruence.
      * apply Forall_fmap, Forall_forall. intros k Hk'. cbn. apply slice_no_apart. by intros <-.
  - intros pa e (Hnd & Hk & Hn & Hl). cbn. destruct (_ && _)%bool eqn:Hc; cbn; [|done]. zbool.
    apply bool_decide_eq_true in H. split; [split_and!; try done; [by apply NoDup_filter|]|].
    { apply Forall_forall. intros k [_ Hin]%list_elem_of_filter. rewrite Forall_forall in Hk. by apply Hk. }
    split; [done|]. exists (slice_no (pa / CO_KMAP_SLICE_BYTES)). split; [cbn; lia|].
    change (slice_no (pa / CO_KMAP_SLICE_BYTES) :: (slice_no <$> filter (fun x => x <> pa / CO_KMAP_SLICE_BYTES) (h_slices e)))
      with (slice_no <$> (pa / CO_KMAP_SLICE_BYTES :: filter (fun x => x <> pa / CO_KMAP_SLICE_BYTES) (h_slices e))).
    apply fmap_Permutation. generalize (pa / CO_KMAP_SLICE_BYTES), H, Hnd. clear. intros k Hin Hnd.
    apply NoDup_Permutation; [done|constructor; [by intros [? _]%list_elem_of_filter|by apply NoDup_filter]|].
    intros x. rewrite elem_of_cons, list_elem_of_filter. destruct (decide (x = k)) as [->|]; naive_solver.
  - intros e (Hnd & Hk & Hn & Hl). cbn. assert (h_next e ∉ h_live e) as Hf by (intros Hin; specialize (Hl _ Hin); lia).
    split; [split_and!; try done; [cbn; lia|]|].
    { cbn. intros a [->%elem_of_singleton|Ha]%elem_of_union; [lia|]. specialize (Hl a Ha). lia. }
    split; [done|]. rewrite decide_False by lia. done.
  - intros a e (Hnd & Hk & Hn & Hl). cbn. split; [|done]. split_and!; try done. cbn.
    intros b [Hb _]%elem_of_difference. by apply Hl.
  - done.
  - done.
  - done.
Defined.

#[export] Instance HenvWindows : CogpuWindows henv := {
  ioctl_kwindow_at _ _ _ e := (CO_RC_OK, CO_RC_OK, e);
  ioctl_kunwindow _ _ e := (CO_RC_OK, CO_RC_OK, e);
}.
#[export] Instance HenvWindowsLaws : CogpuWindowsLaws henv.
Proof. split; done. Qed.

(** ** A renderer that keeps the iovecs it is given and runs nothing *)

Definition rmap : Type := gmap Z (list iovec).

#[export] Instance RmapRenderer : Renderer rmap := {
  virgl_renderer_resource_attach_iov id iov r :=
    if decide (r !! id = None) then (0, <[id := iov]> r) else (22, r);
  virgl_renderer_resource_detach_iov id r := delete id r;
  virgl_renderer_resource_create _ r := (0, r);
  virgl_renderer_resource_create_blob _ id _ _ _ _ iov r :=
    if decide (r !! id = None) then (0, if (length iov =? 0)%nat then r else <[id := iov]> r) else (22, r);
  virgl_renderer_resource_unref id r := delete id r;
  virgl_renderer_resource_map _ r := (0, (65536, 8192), r);
  virgl_renderer_resource_unmap _ r := r;
  virgl_renderer_resource_get_map_info _ _ := 1;
  virgl_renderer_resource_get_info _ _ := None;
  virgl_renderer_context_create_with_flags _ _ _ r := (0, r);
  virgl_renderer_context_destroy _ r := r;
  virgl_renderer_ctx_attach_resource _ _ r := r;
  virgl_renderer_ctx_detach_resource _ _ r := r;
  virgl_renderer_transfer _ _ _ _ _ _ _ _ m r := (0, m, r);
  virgl_renderer_transfer_write_iov _ _ _ _ _ r := (0, r);
  virgl_renderer_submit_cmd _ _ m r := (0, None, m, r);
  virgl_renderer_get_cap_set _ _ := (1, 3);
  virgl_renderer_fill_caps _ _ _ := [1; 2; 3];
  virgl_renderer_context_create_fence _ _ _ r := (0, r);
  cogpu_present_r1_frame _ _ _ _ _ _ r := (0, r);
  cogpu_present_r1_fini r := r;
  cogpu_present_r1_resource_unref _ r := r;
  cogpu_present_r2_resource_unref _ r := r;
  cogpu_present_stream _ r := r;
}.

#[export] Instance RmapLaws : RendererLaws rmap.
Proof.
  refine {| backing r := r; rend_owns _ := False |}; try (cbn; done).
  - intros id iov r. cbn. case_decide; cbn; [done|reflexivity].
  - intros ctx id m f b size iov r. cbn. case_decide; cbn; [done|reflexivity].
  - intros id r. cbn. apply delete_subseteq.
Defined.

(** ** A guest that attaches 64 bytes to resource 7 *)

Definition words32 (l : list Z) : list Z := l ≫= le_bytes 4.

(** The header of a fenced request of context 3, and what follows it. *)
Definition gpu_request (type : Z) (rest : list Z) : list Z :=
  words32 [type; 1] ++ le_bytes 8 77 ++ words32 [3; 0] ++ rest.
Definition attach_request : list Z :=
  gpu_request 262 (words32 [7; 1] ++ le_bytes 8 20480 ++ words32 [64; 0]).

Definition req_at : Z := 4096.
Definition reply_at : Z := 8192.
Definition one_request (len : Z) : cogpu_chain := Chain 0 [Buf req_at len] [Buf reply_at 64] len 64.

Definition MB (n : Z) : Z := Z.shiftl n 20.
Definition gpu0 (bytes : list Z) : @gpu henv rmap :=
  Gpu (Cogpu (Henv [] ∅ 1) (Setup 0 0 (2 ^ 31) (2 ^ 32) true true)
         (Budget (MB 100) (MB 200) (MB 100) 0 false 0) ∅ [] 0 0 0 1 [])
      (∅ : rmap) (store_bytes (fun _ => 0) req_at bytes) (Vrend true [] 0 None false) 0 [] ∅ ∅
      (replicate 8 (Bridge 0 0 0 0 0)) 0 (Stats 0 0 0 0 0 0 0 0 ∅) None false.

Definition bound : Z := MB 256.

Lemma gpu0_start bytes : gpu_start bound (gpu0 bytes).
Proof.
  split; cbn; try done.
  - split; [constructor|]. split; [constructor|]. split; [done|]. by intros a ?%elem_of_empty.
  - split; [constructor|]. by intros r r' ?%elem_of_nil.
Qed.

Definition attach_chain : cogpu_chain := one_request 48.
Definition gpu1 : gpu := (serve attach_chain (gpu0 attach_request)).2.

Lemma attach_honest : honest attach_chain (gpu0 attach_request).
Proof. split; [done|]. intros Hc. vm_compute in Hc. done. Qed.

Lemma attach_chain_ok : chain_ok attach_chain.
Proof. by split; repeat constructor. Qed.

(** The main thread touches the slices [ks]. *)
Definition touch_slices (d : @gpu henv rmap) (ks : list Z) : gpu :=
  foldl (fun d k => (cached (resolve_gpa true (k * CO_KMAP_SLICE_BYTES) 64) d).2) d ks.

Lemma ran {W A} (m : M W A) w a : (m w).1 = Ret a -> m w = (Ret a, (m w).2).
Proof. destruct (m w) as [r w']. cbn. by intros ->. Qed.

Lemma touch_run T (d : @gpu henv rmap) ks :
  gpu_inv bound (T, d) -> Forall (fun k => 0 <= k < 1024) ks -> rtc gpu_step (T, d) (T, touch_slices d ks).
Proof.
  intros Hi Hk. revert d Hi. induction Hk as [|k ks Hk0 Hk IH]; intros d Hi; [apply rtc_refl|]. cbn [touch_slices foldl].
  assert (0 <= k * CO_KMAP_SLICE_BYTES < 2 ^ 64) as Hg by (change CO_KMAP_SLICE_BYTES with 12582912; lia).
  assert (exists p, (cached (resolve_gpa true (k * CO_KMAP_SLICE_BYTES) 64) d).1 = Ret p) as (p & Hp).
  { pose proof (wp_resolve_gpa bound T (d_cache d) true _ 64 (fun _ _ => False) (proj1 (proj1 Hi)) Hg) as Hw.
    unfold wp in Hw. unfold cached. destruct (resolve_gpa _ _ _ _) as [[p|rc|] c]; [by exists p|by destruct Hw..]. }
  assert (gpu_step (T, d) (T, (cached (resolve_gpa true (k * CO_KMAP_SLICE_BYTES) 64) d).2)) as Hs.
  { eapply (step_resolve T d true _ 64 p); [exact Hg|done|by apply ran]. }
  eapply rtc_l; [exact Hs|]. apply IH. by eapply step_inv.
Qed.

(** Nine slices mapped, one of them for the resource; a sweep. *)
Definition others9 : list Z := [1; 2; 3; 4; 5; 6; 7; 8].
Definition gpu2 : gpu := touch_slices gpu1 others9.
Definition gpu3 : gpu := (cached sweep gpu2).2.

Lemma attach_answered : (serve attach_chain (gpu0 attach_request)).1 = Ret 24.
Proof. vm_compute. reflexivity. Qed.

Lemma gpu_run1 : rtc gpu_step ([], gpu0 attach_request) ([], gpu1).
Proof.
  apply rtc_once. apply (step_serve [] _ attach_chain 24); [apply attach_chain_ok|done|apply attach_honest|].
  exact (ran (serve attach_chain) (gpu0 attach_request) 24 attach_answered).
Qed.

Lemma gpu_inv1 : gpu_inv bound ([], gpu1).
Proof. eapply run_inv; [apply gpu_run1|]. apply start_inv, gpu0_start. Qed.

Lemma gpu_run2 : rtc gpu_step ([], gpu0 attach_request) ([], gpu2).
Proof.
  etransitivity; [apply gpu_run1|]. apply touch_run; [apply gpu_inv1|]. repeat constructor; lia.
Qed.

Lemma gpu_swept : (cached sweep gpu2).1 = Ret tt.
Proof. vm_compute. reflexivity. Qed.

Lemma gpu_run3 : rtc gpu_step ([], gpu0 attach_request) ([], gpu3).
Proof. eapply rtc_r; [apply gpu_run2|]. exact (step_sweep [] gpu2 gpu3 (ran (cached sweep) gpu2 tt gpu_swept)). Qed.

Lemma iovecs_stay_mapped_witness :
  length (g_slices (d_cache gpu2)) = 9%nat /\ length (g_slices (d_cache gpu3)) = 1%nat /\
  holds gpu3 7 [Iov (2 ^ 40 + 20480) 64] /\ live_memory (d_cache gpu3) (Iov (2 ^ 40 + 20480) 64).
Proof.
  assert (holds gpu3 7 [Iov (2 ^ 40 + 20480) 64]) as Hh by (vm_compute; reflexivity).
  split; [vm_compute; reflexivity|]. split; [vm_compute; reflexivity|]. split; [exact Hh|].
  exact (proj2 (iovecs_stay_mapped bound _ [] gpu3 (gpu0_start _) gpu_run3) 7 _ _ Hh (list_elem_of_here _ _)).
Defined.

Lemma serve_answers_witness :
  exists w d', serve attach_chain (gpu0 attach_request) = (Ret w, d') /\ w = 24 /\
    load_u32 (d_mem d') reply_at = VIRTIO_GPU_RESP_OK_NODATA /\ load_u64 (d_mem d') (reply_at + 8) = 77 /\
    forall x, d_mem d' x <> d_mem (gpu0 attach_request) x -> may_write attach_chain (gpu0 attach_request) x.
Proof.
  destruct (serve_answers bound _ [] (gpu0 attach_request) attach_chain (gpu0_start _) (rtc_refl _ _)
    attach_chain_ok ltac:(done) attach_honest) as (w & d' & Hrun & Hmem & _).
  exists w, d'. split; [exact Hrun|].
  assert (d' = gpu1) as E1 by (unfold gpu1; by rewrite Hrun).
  assert ((serve attach_chain (gpu0 attach_request)).1 = Ret 24) as E2 by (vm_compute; reflexivity).
  rewrite Hrun in E2. injection E2 as ->. split; [reflexivity|].
  split; [rewrite E1; vm_compute; reflexivity|]. split; [rewrite E1; vm_compute; reflexivity|exact Hmem].
Defined.

Lemma sweep_evicts_coldest_witness :
  exists c, sweep (d_cache gpu2) = (Ret tt, c) /\ length (g_slices c) = 1%nat /\
    shrunk (set_clock (u64 (g_slice_clock (d_cache gpu2) + 1)) (d_cache gpu2)) c.
Proof.
  destruct (sweep_evicts_coldest bound _ [] gpu2 (gpu0_start _) gpu_run2) as (c & Hrun & Hsh & _).
  exists c. split; [exact Hrun|]. split; [|exact Hsh].
  assert (length (g_slices (sweep (d_cache gpu2)).2) = 1%nat) as Hl by (vm_compute; reflexivity).
  by rewrite Hrun in Hl.
Defined.

Lemma attach_covers_entries_witness :
  exists d', attach_backing attach_chain (gpu0 attach_request) = (Ret ok, d') /\
    exists runs, attached d' 7 runs /\ flat runs = seqZ 20480 64.
Proof.
  destruct (attach_covers_entries bound _ [] (gpu0 attach_request) attach_chain (gpu0_start _) (rtc_refl _ _)
    attach_chain_ok ltac:(done) ltac:(done)) as (r & d' & Hrun & Hres).
  assert ((attach_backing attach_chain (gpu0 attach_request)).1 = Ret ok) as E2 by (vm_compute; reflexivity).
  rewrite Hrun in E2. injection E2 as ->. exists d'. split; [exact Hrun|].
  assert (asks (gpu0 attach_request) attach_chain 0 = 7) as E3 by (vm_compute; reflexivity).
  assert (asked_runs (gpu0 attach_request) attach_chain (sizeof_hdr + 8) (asks (gpu0 attach_request) attach_chain 4)
    = seqZ 20480 64) as E4 by (vm_compute; reflexivity).
  rewrite E3, E4 in Hres. destruct Hres as [Hne|[_ Hruns]]; [discriminate|exact Hruns].
Defined.

(** A stream of a read-back of resource 5 and a command cut short. *)
Definition readback_stream : list Z :=
  (Z.shiftl 13 16 + 43) :: 5 :: 0 :: [0; 0; 0; 10; 20; 0; 30; 40; 0; 0; 2] ++ [Z.shiftl 9 16 + 1; 0].

Lemma hints_match_commands_witness :
  vrend_find_present_hints readback_stream 16 = Some [Hint_ 5 0 10 20 30 40].
Proof.
  destruct (hints_match_commands readback_stream) as [Hf _].
  - apply (Forall_impl (fun w => bool_decide (0 <= w < 2 ^ 32) = true)); [repeat constructor|].
    intros w Hw. by apply bool_decide_eq_true in Hw.
  - vm_compute. reflexivity.
  - change (Z.of_nat (length readback_stream)) with 16 in Hf. rewrite Hf. vm_compute. reflexivity.
Defined.

(** ** What goes wrong *)

(** A second attach is refused by the renderer, which keeps the first iovecs,
    but the pins under them are gone: eight slices later a sweep unmaps them. *)
Definition gpu4 : gpu := (serve attach_chain gpu1).2.
Definition gpu5 : gpu := (cached sweep (touch_slices gpu4 others9)).2.

Lemma refused_attach_unpins :
  load_u32 (d_mem gpu4) reply_at = VIRTIO_GPU_RESP_ERR_UNSPEC /\
  holds gpu4 7 [Iov (2 ^ 40 + 20480) 64] /\ res_slices (g_res_pins (d_cache gpu4)) 7 = [] /\
  holds gpu5 7 [Iov (2 ^ 40 + 20480) 64] /\ g_slices (d_cache gpu5) = [] /\ h_slices (c_env (d_cache gpu5)) = [].
Proof. split_and!; vm_compute; reflexivity. Qed.

(** The arena's end is checked on a sum that wraps. *)
Lemma blob_arena_wraps :
  in_arena (Setup 0 0 (2 ^ 31) (2 ^ 32) true true) (2 ^ 64 - 4096) 8192 = true.
Proof. vm_compute. reflexivity. Qed.

(** A capset longer than the reply is written past it. *)
Definition capset_chain : cogpu_chain := Chain 0 [Buf req_at 32] [Buf reply_at 25] 32 25.
Definition capset_gpu : gpu := gpu0 (gpu_request 265 (words32 [2; 0])).

Lemma capset_overruns_reply :
  d_mem capset_gpu (reply_at + 26) = 0 /\ d_mem (serve capset_chain capset_gpu).2 (reply_at + 26) = 3.
Proof. split; vm_compute; reflexivity. Qed.

(** Started with all of a 2 GB guest as its cap and half of it granted, the
    daemon lowers its cap below what it has mapped when it ratchets up. *)
Definition ratcheted : @cogpu henv :=
  Cogpu (Henv [] ∅ 1) (Setup 0 0 (2 ^ 31) (2 ^ 32) true true)
    (Budget (MB 2112) (MB 2176) (MB 2048) (MB 1024) false 0) ∅ [] 0 0 (MB 2000) 1 [].

Lemma ratchet_lowers_cap :
  g_kmap_cap_bytes (c_budget ratcheted) = MB 2112 /\ g_slice_bytes ratcheted = MB 2000 /\
  g_kmap_cap_bytes (c_budget (slices_ratchet ratcheted).2) = MB 1536 /\
  g_kmap_hard_bytes (c_budget (slices_ratchet ratcheted).2) = MB 1600.
Proof. split_and!; vm_compute; reflexivity. Qed.

(** A blob that is mapped and then unreferenced stays in the table. *)
Definition blob_chain : cogpu_chain := one_request 40.
Definition blob_gpu : gpu := gpu0 (gpu_request 520 (words32 [9; 0] ++ le_bytes 8 0)).
Definition unref_chain : cogpu_chain := one_request 32.
Definition unref_of (d : @gpu henv rmap) : gpu :=
  put_mem (store_bytes (d_mem d) req_at (gpu_request 258 (words32 [9; 0]))) d.

Lemma unref_keeps_mapping :
  load_u32 (d_mem (serve blob_chain blob_gpu).2) reply_at = VIRTIO_GPU_RESP_OK_MAP_INFO /\
  load_u32 (d_mem (serve unref_chain (unref_of (serve blob_chain blob_gpu).2)).2) reply_at = VIRTIO_GPU_RESP_OK_NODATA /\
  blob_map_find (g_blob_map (serve unref_chain (unref_of (serve blob_chain blob_gpu).2)).2) 9 =
    Some (BlobMap 9 (2 ^ 31) 8192 65536).
Proof. split_and!; vm_compute; reflexivity. Qed.
