(* ===== verification/DemoLoop.v ===== *)
(** The main loop of the GPU daemon on a concrete guest: a queue with two
    requests, the second with a fence of a Venus context that signals before
    its chain is parked. *)
From stdpp Require Import relations.
From S2P Require Import Prelude.
From S2P Require Import Mem.
From S2P Require Import Rc.
From S2P Require Import Handles.
From S2P Require Import Vring.
From S2P Require Import Slices.
From S2P Require Import SlicesOk.
From S2P Require Import Gpu.
From S2P Require Import GpuServe.
From S2P Require Import GpuOk.
From S2P Require Import GpuBacking.
From S2P Require Import GpuRun.
From S2P Require Import Fences.
From S2P Require Import FencesRun.
From S2P Require Import MainLoop.
From S2P Require Import MainLoopOk.
From S2P Require Import MainLoopRun.
From S2P Require Import DemoGpu.
#[local] Open Scope Z_scope.

(** ** Running the loop *)

Definition plain (chain : cogpu_chain) (g : @gpu henv rmap) : bool :=
  (match asks_for chain g with
   | RESOURCE_ATTACH_BACKING | RESOURCE_CREATE_BLOB | GET_CAPSET => false
   | _ => true
   end && (Z.of_nat (length (g_res_pins (d_cache g))) <? 2 ^ 31))%bool.

Abbreviation state := (@loop_st henv rmap).

(** One step of the main thread. *)
Definition turn (s : state) : option state :=
  let '(Loop p did T f) := s in
  match p with
  | Top => match under begin_pass f with (Ret _, f') => Some (Loop (Joining 0) false T f') | _ => None end
  | Joining i =>
      if CO_VGPU_NUM_VQS <=? i then Some (Loop (Taking 0) did T f) else
      match under (join i) f with (Ret ts, f') => Some (Loop (Joining (i + 1)) did (ts ++ T) f') | _ => None end
  | Taking i =>
      if CO_VGPU_NUM_VQS <=? i then
        match drain did f with (Ret did', f') => Some (Loop Reporting did' T f') | _ => None end
      else
        match under (main_vring_pop i) f with
        | (Ret chain, f') => Some (Loop (match chain with Some c => Serving i c | None => Taking (i + 1) end) did T f')
        | _ => None
        end
  | Serving i chain =>
      if plain chain (dm_gpu (fn_state f)) then
        match serve_one i chain f with
        | (Ret (w, park), f') => Some (Loop (Answering i (c_head chain) w park) did T f')
        | _ => None
        end
      else None
  | Answering i head written park =>
      match answer i head written park f with (Ret now, f') => Some (Loop (Taking i) (did || now) T f') | _ => None end
  | Reporting => match report did f with (Ret _, f') => Some (Loop Top did T f') | _ => None end
  end.

Lemma plain_honest chain g : plain chain g = true -> few_slots g /\ honest chain g.
Proof.
  unfold plain. intros [Hp Hl]%andb_true_iff. split; [unfold few_slots; by zbool|].
  split; [intros [Hx|Hx]; by rewrite Hx in Hp|intros Hx; by rewrite Hx in Hp].
Qed.

Lemma turn_step s s' : turn s = Some s' -> main_step s s'.
Proof.
  destruct s as [p did T f]. cbn. destruct p as [|i|i|i chain|i head written park|].
  - destruct (under begin_pass f) as [[[]|rc|] f'] eqn:Hr; [|done..]. intros [= <-]. by apply main_begin.
  - destruct (CO_VGPU_NUM_VQS <=? i) eqn:Hi; zbool; [intros [= <-]; by apply main_joined|].
    destruct (under (join i) f) as [[ts|rc|] f'] eqn:Hr; [|done..]. intros [= <-]. by apply main_join.
  - destruct (CO_VGPU_NUM_VQS <=? i) eqn:Hi; zbool.
    + destruct (drain did f) as [[did'|rc|] f'] eqn:Hr; [|done..]. intros [= <-]. by eapply main_drain.
    + destruct (under (main_vring_pop i) f) as [[[chain|]|rc|] f'] eqn:Hr; try done; intros [= <-]; [by apply main_pop|by apply main_empty].
  - destruct (plain _ _) eqn:Hpl; [|done]. apply plain_honest in Hpl as [Hfew Hho].
    destruct (serve_one i chain f) as [[[w park]|rc|] f'] eqn:Hr; [|done..]. intros [= <-]. by apply main_serve.
  - destruct (answer _ _ _ _ f) as [[now|rc|] f'] eqn:Hr; [|done..]. intros [= <-]. by apply main_answer.
  - destruct (report did f) as [[[]|rc|] f'] eqn:Hr; [|done..]. intros [= <-]. by apply main_report.
Qed.

Fixpoint turns (n : nat) (s : state) : option state :=
  match n with O => Some s | S n => match turn s with Some s' => turns n s' | None => None end end.

Lemma turns_run n s s' : turns n s = Some s' -> rtc loop_step s s'.
Proof.
  revert s. induction n as [|n IH]; intros s; cbn; [intros [= ->]; apply rtc_refl|].
  destruct (turn s) as [s1|] eqn:Ht; [|done]. intros Hn. eapply rtc_l; [apply step_main; by apply turn_step|by apply IH].
Qed.

(** ** The guest *)

Definition view_at : Z := 2 ^ 24.
Definition at_gpa (gpa : Z) : Z := view_at + gpa.

Definition desc_bytes (addr len flags next : Z) : list Z := le_bytes 8 addr ++ le_bytes 4 len ++ le_bytes 2 flags ++ le_bytes 2 next.
Definition plain_request (type flags fence ctx : Z) (rest : list Z) : list Z :=
  words32 [type; flags] ++ le_bytes 8 fence ++ words32 [ctx; 0] ++ words32 rest.

Definition guest_mem : mem :=
  let m := fun _ => 0 in
  let m := store_bytes m (at_gpa 40) (le_bytes 8 4096 ++ le_bytes 8 8192 ++ le_bytes 8 12288 ++ words32 [8; 0]) in
  let m := store_bytes m (at_gpa 4096)
    (desc_bytes 16384 32 1 1 ++ desc_bytes 20480 64 2 0 ++ desc_bytes 16640 32 1 3 ++ desc_bytes 20736 64 2 0) in
  let m := store_bytes m (at_gpa 8192) (le_bytes 2 0 ++ le_bytes 2 2 ++ le_bytes 2 0 ++ le_bytes 2 2) in
  let m := store_bytes m (at_gpa 16384) (plain_request 512 0 0 3 [0; 4]) in
  store_bytes m (at_gpa 16640) (plain_request 514 1 77 3 [9; 0]).

Definition gpu_at (m : mem) : @gpu henv rmap :=
  Gpu (Cogpu (Henv [] ∅ 1) (Setup view_at (2 ^ 20) (2 ^ 31) (2 ^ 32) true true)
         (Budget (MB 100) (MB 200) (MB 100) 0 false 0) ∅ [] 0 0 0 1 [])
      (∅ : rmap) m (Vrend true [] 0 None false) 0 [] ∅ ∅
      (replicate 8 (Bridge 0 0 0 0 0)) 0 (Stats 0 0 0 0 0 0 0 0 ∅) None false.

Definition loop0 : state := Loop Top false [] (fresh_fences (Daemon (gpu_at guest_mem) [no_vring; no_vring] (at_gpa 0))).

Lemma loop0_start : loop_start bound loop0.
Proof.
  split; [done|by eexists| |done]. split; cbn; try done.
  - split; [constructor|]. split; [constructor|]. split; [done|]. by intros a ?%elem_of_empty.
  - split; [constructor|]. by intros r r' ?%elem_of_nil.
Qed.

(** To where the second request has been served; its signal; its parking; the
    end of the pass. *)
Definition run_to (n : nat) (s : state) : state := default s (turns n s).
Definition signalled (s : state) : state :=
  Loop (lp_pc s) (lp_did s) (lp_lent s) (cogpu_ctx_fence_signal 3 0 77 (lp_fences s)).2.
Definition loop1 : state := run_to 9 loop0.
Definition loop2 : state := signalled loop1.
Definition loop3 : state := run_to 1 loop2.
Definition loop4 : state := run_to 4 loop3.

Lemma run_to_run n s : bool_decide (is_Some (turns n s)) = true -> rtc loop_step s (run_to n s).
Proof. intros [s' Hs]%bool_decide_eq_true. unfold run_to. rewrite Hs. by apply (turns_run n). Qed.

Lemma signalled_step s : ring_ok (lp_fences s) -> loop_step s (signalled s).
Proof. intros Hok. destruct s as [p did T f]. apply (step_signal p did T f 3 0 77). cbn in *. by rewrite signal_run. Qed.

Lemma run1 : rtc loop_step loop0 loop1.
Proof. apply run_to_run. vm_compute. reflexivity. Qed.

Lemma holds1 : loop_holds bound loop1.
Proof. exact (proj1 (loop_run_holds bound loop0 loop1 loop0_start run1)). Qed.

Lemma run2 : rtc loop_step loop0 loop2.
Proof. exact (rtc_r _ _ _ run1 (signalled_step loop1 (proj1 (li_fences _ _ holds1)))). Qed.

Lemma runs_on s s' n : rtc loop_step s s' -> bool_decide (is_Some (turns n s')) = true -> rtc loop_step s (run_to n s').
Proof. intros Hr Hn. etransitivity; [exact Hr|by apply run_to_run]. Qed.

Lemma run3 : rtc loop_step loop0 loop3.
Proof. refine (runs_on loop0 loop2 1 run2 _). vm_compute. reflexivity. Qed.

Lemma run4 : rtc loop_step loop0 loop4.
Proof. refine (runs_on loop0 loop3 4 run3 _). vm_compute. reflexivity. Qed.

Lemma fences3 : rtc fence_step (None, fresh_fences (lp_daemon loop0)) (None, lp_fences loop3).
Proof. exact (proj2 (proj2 (loop_run_holds bound loop0 loop3 loop0_start run3))). Qed.

Lemma fences4 : rtc fence_step (None, fresh_fences (lp_daemon loop0)) (None, lp_fences loop4).
Proof. exact (proj2 (proj2 (loop_run_holds bound loop0 loop4 loop0_start run4))). Qed.

(** ** The theorems there *)

Lemma chains_answered_once_witness :
  published_of (fn_log (lp_fences loop4)) = [(0, 2, 24); (0, 0, 24)] /\ parked_of (g_parked (lp_fences loop4)) = [] /\
  served_of (fn_log (lp_fences loop4)) ≡ₚ [(0, 2, 24); (0, 0, 24)] /\ justified (fn_log (lp_fences loop4)).
Proof.
  assert (published_of (fn_log (lp_fences loop4)) = [(0, 2, 24); (0, 0, 24)]) as Hp by (vm_compute; reflexivity).
  assert (parked_of (g_parked (lp_fences loop4)) = []) as Hk by (vm_compute; reflexivity).
  destruct (chains_answered_once _ _ _ fences4) as [Ho Hj]. rewrite Hp, Hk in Ho.
  exact (conj Hp (conj Hk (conj Ho Hj))).
Defined.

(** The signal came before the parking and is still in the ring. *)
Lemma signals_not_missed_witness :
  parked_of (g_parked (lp_fences loop3)) = [(0, 2, 24)] /\ pending (lp_fences loop3) = [Sig 3 0 77] /\
  waiting (fn_log (lp_fences loop3)) (pending (lp_fences loop3)) 0 2 24 (ParkReq 3 0 77) /\
  timely (fn_log (lp_fences loop4)).
Proof.
  split; [vm_compute; reflexivity|]. split; [vm_compute; reflexivity|]. split.
  - apply (proj1 (signals_not_missed _ _ _ fences3) (Parked 0 2 24 3 0 77)); [|cbn; lia].
    apply list_elem_of_lookup_2 with (i := 0%nat). vm_compute. reflexivity.
  - apply (proj2 (signals_not_missed _ _ _ fences4)).
    assert (fn_log (lp_fences loop4) =
      [Woken; Published 0 2 24 (released (Sig 3 0 77)); Signalled (Sig 3 0 77); Served 0 2 24 (Some (ParkReq 3 0 77));
       Published 0 0 24 unfenced; Served 0 0 24 None]) as -> by (vm_compute; reflexivity).
    cbn. split_and!; try done.
    + exists 0, 2, 24. by left.
    + intros vq head written q Hin. by repeat (apply elem_of_cons in Hin as [Hin|Hin]; [done|]); apply elem_of_nil in Hin.
Defined.

Lemma signal_ring_is_queue_witness :
  exists did' f', drain true (lp_fences loop3) = (Ret did', f') /\ abstract f' = spec_drain (abstract (lp_fences loop3)) /\
    pending f' = [] /\ parked_of (g_parked f') = [].
Proof.
  destruct (proj2 (signal_ring_is_queue _ _ _ fences3) true) as (did' & f' & Hr & Ha). exists did', f'. split; [exact Hr|].
  split; [exact Ha|]. assert (f' = (drain true (lp_fences loop3)).2) as -> by (by rewrite Hr).
  split; vm_compute; reflexivity.
Defined.

(** The used ring holds both heads, and the guest is told. *)
Lemma loop_keeps_promises_witness :
  lp_pc loop4 = Top /\ announced (fn_log (lp_fences loop4)) /\
  load_u16 (d_mem (lp_gpu loop4)) (at_gpa (12288 + 2)) = 2 /\ load_u32 (d_mem (lp_gpu loop4)) (at_gpa (12288 + 12)) = 2 /\
  load_u32 (d_mem (lp_gpu loop4)) (at_gpa io_used_pending) = 1.
Proof.
  assert (lp_pc loop4 = Top) as Hpc by (vm_compute; reflexivity).
  split; [exact Hpc|]. split; [exact (proj2 (proj2 (proj2 (loop_keeps_promises bound loop0 loop4 loop0_start run4))) Hpc)|].
  split_and!; vm_compute; reflexivity.
Defined.

(** About to serve the second request. *)
Definition serving : state := run_to 8 loop0.

Lemma run_serving : rtc loop_step loop0 serving.
Proof. apply run_to_run. vm_compute. reflexivity. Qed.

Definition serving_plain : bool :=
  match lp_pc serving with Serving _ chain => plain chain (lp_gpu serving) | _ => false end.

