(* ===== verification/DemoCrossing.v ===== *)
(** A small machine around the crossing loop: a guest that does as a script
    says, memory that is its own address space, and a clock that ticks when it
    is looked at. The theorems about faults, ticks and runs are applied to it. *)
From S2P Require Import Prelude.
From S2P Require Import Rc.
From S2P Require Import Mem.
From S2P Require Import GuestMem.
From S2P Require Import Extable.
From S2P Require Import HostCheck.
From S2P Require Import Partial.
From S2P Require Import Crossing.
From S2P Require Import CrossingOk.
From S2P Require Import CrossingMem.
From S2P Require Import CrossingTime.
From S2P Require Import Net.
From S2P Require Import DemoDevices.
Import FlatGuest.

(** ** The exception table *)

(** Three entries at 0x1000, for 0x5000, 0x5010 and 0x5020: skip to 0x6000;
    [rdmsr_safe] into rcx; retry with the register zeroed. *)
Definition toy_entries : list co_ex_entry_t :=
  [{| ex_insn := 0x4000; ex_fixup := 0x4ffc; ex_data := 1 |};
   {| ex_insn := 0x5010 - 0x100c; ex_fixup := 0x6010 - 0x1010; ex_data := 0x10b |};
   {| ex_insn := 0x5020 - 0x1018; ex_fixup := 0x5020 - 0x101c; ex_data := 0x211 |}].

Definition toy_table : extable :=
  {| co_ex_table := Some toy_entries; co_ex_count := 3; co_ex_start_va := 0x1000;
     co_ex_sorted := true |}.

Lemma toy_table_wf : ex_wf toy_table.
Proof. split; [by intros l [= <-]|done|done|done]. Qed.

Lemma extable_find_exact_witness :
  ex_answer toy_table 0x5010 (co_ex_find toy_table 0x5010) /\
  co_ex_find toy_table 0x5010 = 1 /\ co_ex_find toy_table 0x5018 = -1.
Proof.
  split; [exact (proj1 (extable_find_exact toy_table 0x5010 toy_table_wf))|].
  split; vm_compute; reflexivity.
Defined.

(** A frame: register [r] of the assembler holds [0x100 + r], the fault is a
    general protection fault in user mode. *)
Definition toy_frame (rip : Z) : list Z :=
  [0x10f; 0x10e; 0x10d; 0x10c; 0x10b; 0x10a; 0x109; 0x108; 0x105; 0x107; 0x106; 0x102; 0x101;
   0x103; 0x100; 13; 0; rip; 0x33; 0x202; 0x104; 0x2b].

Lemma extable_fixup_exact_witness :
  co_arch_extable_fixup toy_table (Some (toy_frame 0x5010)) 13 =
    (11, Some [0x10f; 0x10e; 0x10d; 0x10c; 0x10b; 0x10a; 0x109; 0x108; 0x105; 0x107; 0x106; 0;
               2 ^ 64 - 5; 0x103; 0; 13; 0; 0x6010; 0x33; 0x202; 0x104; 0x2b]) /\
  match co_arch_extable_fixup toy_table (Some (toy_frame 0x5010)) 13 with
  | (_, Some f') => word f' 0x98 = word (toy_frame 0x5010) 0x98
  | (_, None) => False
  end.
Proof.
  assert (co_arch_extable_fixup toy_table (Some (toy_frame 0x5010)) 13 =
    (11, Some [0x10f; 0x10e; 0x10d; 0x10c; 0x10b; 0x10a; 0x109; 0x108; 0x105; 0x107; 0x106; 0;
               2 ^ 64 - 5; 0x103; 0; 13; 0; 0x6010; 0x33; 0x202; 0x104; 0x2b])) as E
    by (vm_compute; reflexivity).
  split; [exact E|].
  pose proof (extable_fixup_exact toy_table (toy_frame 0x5010) 13 toy_table_wf eq_refl) as Hx.
  cbn zeta in Hx. rewrite E in Hx |- *.
  destruct Hx as (i & _ & _ & _ & _ & _ & _ & _ & Ho). apply Ho. unfold ex_fixed. set_solver.
Defined.

(** The same table as bytes of a guest, loaded. *)
#[export] Instance flat_heap : ExHeap flat := {|
  ex_malloc n := gets (fun _ => n <? 4096);
  ex_free := mret tt;
|}.

Lemma flat_heap_laws : ExHeapLaws (W := flat).
Proof.
  split.
  - intros n w. by exists (n <? 4096), w.
  - intros w. by exists w.
Qed.
#[export] Existing Instance flat_heap_laws.

Definition entry_bytes (e : co_ex_entry_t) : list Z :=
  le_bytes 4 (ex_insn e) ++ le_bytes 4 (ex_fixup e) ++ le_bytes 4 (ex_data e).
Definition toy_bytes : mem := store_bytes (fun _ => 0) 0 (toy_entries ≫= entry_bytes).

Lemma extable_load_all_or_nothing_witness :
  let w := Flat (fun x => toy_bytes (x - 0x1000)) (NetStatics 0 false) in
  let run := co_arch_extable_load 0x1000 0x1024 (w, extable_none) in
  run.1 = Ret tt /\ ex_wf run.2.2 /\ (forall i, 0 <= i < 3 -> ex_at run.2.2 i = ex_guest toy_bytes 0 i) /\
  run.2.2 = toy_table.
Proof.
  cbn zeta. set (w := Flat _ _). set (run := co_arch_extable_load _ _ _).
  destruct (extable_load_all_or_nothing w extable_none 0x1000 0x1024) as (Hok & _ & _ & Hall).
  fold run in Hok, Hall.
  assert (run.1 = Ret tt) as Hr by (vm_compute; reflexivity).
  split; [exact Hr|]. split; [exact (proj1 (Hok Hr))|]. split.
  - assert (gm_window w 0x1000 36 toy_bytes) as Hw.
    { split; [done|]. split; [done|]. split; [done|]. intros i Hi. cbn. unfold load. f_equal. f_equal. lia. }
    assert (run.1 = Fail CO_RC_OUT_OF_MEMORY \/ run.1 = Ret tt /\ gm_window run.2.1 0x1000 36 toy_bytes /\
      co_ex_count run.2.2 = 3 /\ forall i, 0 <= i < 3 -> ex_at run.2.2 i = ex_guest toy_bytes 0 i)
      as [Hf|(_ & _ & _ & Hat)] by (by apply (Hall 0x1000 36 toy_bytes 0 3)); [|exact Hat].
    rewrite Hr in Hf. done.
  - vm_compute. reflexivity.
Defined.

(** ** The machine *)

Module Toy.
Record toy := Logged {
  t_mem : mem; t_clock : Z; t_regs : cpu;
  (* what the guest does to the passage page and to the registers, crossing by crossing *)
  t_script : list ((passage -> passage) * (cpu -> cpu));
  (* the waits so far *)
  t_waited : list (Z * wait);
}.

Definition MkToy m clock regs script : toy := Logged m clock regs script [].

Definition pass (n : Z) (w : toy) : toy :=
  Logged (t_mem w) (Z.max 0 (t_clock w) + Z.max 0 n) (t_regs w) (t_script w) (t_waited w).
Definition wait_for (v : Z) (how : wait) (w : toy) : toy :=
  Logged (t_mem w) (t_clock w) (t_regs w) (t_script w) (t_waited w ++ [(v, how)]).

#[export] Instance toy_cr3 : Cr3Mem toy := {|
  cr3_read cr3 va n := fail_if (cr3 =? 0) CO_RC_ERROR ;; gets (fun w => load_bytes (t_mem w) va n);
  cr3_write cr3 va bs n := fail_if (cr3 =? 0) CO_RC_ERROR ;;
    modify (fun w => Logged (store_bytes (t_mem w) va bs) (t_clock w) (t_regs w) (t_script w) (t_waited w));
|}.

Definition toy_view (w : toy) (cr3 : Z) (P : Z -> Prop) (m : mem) : Prop :=
  cr3 <> 0 /\ forall x, P x -> load (t_mem w) x = load m x.

#[export] Program Instance toy_guest_view : GuestView toy := {| gv_view := toy_view |}.
Next Obligation.
  intros w cr3 P m va n [Hz Hv] (_ & _ & _ & HP).
  assert (load_bytes (t_mem w) va n = load_bytes m va n) as E
    by (apply load_bytes_ext; intros x Hx; by apply Hv, HP).
  exists w. split; [|by split]. cbn. unfold fail_if. rewrite (proj2 (Z.eqb_neq _ _) Hz).
  unfold mbind, M_bind, mret, M_ret, gets. by rewrite E.
Qed.
Next Obligation.
  intros w cr3 P m va bs [Hz Hv] Hc Hb. eexists. cbn. unfold fail_if.
  rewrite (proj2 (Z.eqb_neq _ _) Hz). split; [reflexivity|]. split; [done|].
  intros x Hx. cbn. rewrite !load_store by done. case_decide; [done|by apply Hv].
Qed.

#[export] Instance toy_host : CrossHost toy := {|
  ch_switch p := fun w =>
    match t_script w with
    | [] => (Ret p, w)
    | g :: l => (Ret (g.1 p), Logged (t_mem w) (t_clock w) (g.2 (t_regs w)) l (t_waited w))
    end;
  ch_cpu := gets t_regs;
  ch_write_reg f v := modify (fun w => Logged (t_mem w) (t_clock w) (write_reg f v (t_regs w)) (t_script w) (t_waited w));
  ch_now := fun w => (Ret (Z.max 0 (t_clock w)), pass 1 w);
  ch_time := mret 0;
  ch_abort := mret false;
  ch_boot_abort := mret tt;
  ch_console := mret 0;
  ch_idle_wait v ms := fun w => (Ret false, pass (ms * 10000) (wait_for v (Millis ms) w));
  ch_idle_wait_until v t := fun w => (Ret false, pass (t - t_clock w) (wait_for v (Until t) w));
  ch_idle_wake _ := mret tt;
  ch_vcpu_kick _ := mret tt;
  ch_vcpu_active _ := mret true;
  ch_preempt_start _ _ := mret tt;
  ch_preempt_stop _ := mret tt;
  ch_async_submit _ _ _ _ _ _ := mret true;
  ch_request_sg _ _ _ _ _ := mret tt;
  ch_present _ := mret true;
  ch_size _ := mret 0x100000;
  ch_store_ap _ _ _ := mret tt;
  ch_gate_flags _ := mret (Some 0x8e00);
  ch_replay _ := mret tt;
  ch_mem := toy_cr3;
|}.

#[export] Instance toy_cross_view : CrossView (W := toy).
Proof. intros w. exists (Z.max 0 (t_clock w)), (pass 1 w). by split. Qed.

Definition clock_of (w : toy) : Z := Z.max 0 (t_clock w).

(** Every call comes back, and none turns the clock back. *)
#[export] Program Instance toy_clock : CrossClock toy := {| cycles := clock_of; per := 1 |}.
Next Obligation. lia. Qed.
Next Obligation. intros w. unfold clock_of. lia. Qed.
Next Obligation.
  intros w. exists (pass 1 w). unfold clock_of. rewrite Z.div_1_r. split; [done|]. cbn. lia.
Qed.
Next Obligation.
  intros cr3 va n w. cbn. unfold fail_if, mbind, M_bind. destruct (cr3 =? 0); cbn;
    (do 2 eexists; split; [reflexivity|]; split; [discriminate|lia]).
Qed.
Next Obligation.
  intros cr3 va n w bs w'. cbn. unfold fail_if, mbind, M_bind. destruct (cr3 =? 0); cbn; [done|].
  intros [= <- _]. apply length_load_bytes.
Qed.
Next Obligation.
  intros cr3 va bs n w. cbn. unfold fail_if, mbind, M_bind. destruct (cr3 =? 0); cbn;
    (do 2 eexists; split; [reflexivity|]; split; [discriminate|unfold clock_of; cbn; lia]).
Qed.
Next Obligation.
  intros p w. cbn. destruct (t_script w); (do 2 eexists; split; [reflexivity|unfold clock_of; cbn; lia]).
Qed.
Solve All Obligations with
  (intros; intros w; cbn; do 2 eexists;
   (split; [reflexivity|]); try (split; [discriminate|]); unfold clock_of; cbn; lia).

#[export] Program Instance toy_log : WaitLog toy := {| waited := t_waited |}.
Solve All Obligations with (intros; cbn; by repeat case_match || destruct (_ =? 0)).
End Toy.
Import Toy.

Definition toy_page : passage := Passage {[28 := 0x2000]} 0 (LinuxVm 1 0 0 0x10 0x18 7 0).
Definition toy_ctl : co_vcpu_ctl_t :=
  {| max_switches := 5; ctl_step := false; ctl_batch := 0; deadline_secs := 1;
     tick_entry_va := 0x9000; virtual_if_va := 0x3000; ipi_pending_va := 0;
     timer_deadline_va := 0; async_cobd := false; cobd_io_va := 0; idle_stop_after := 0 |}.

(** The guest asks for this and leaves the registers alone. *)
Definition asks (operation : Z) : (passage -> passage) * (cpu -> cpu) :=
  (set_operation operation, fun r => r).
Definition toy_at (script : list ((passage -> passage) * (cpu -> cpu))) : toy :=
  MkToy (fun _ => 0) 1000 (fun _ => 7) script.

(** Idle, work, end. *)
Definition toy_run := co_arch_vcpu_run (W := toy) extable_none toy_ctl 0 0x100 0x8000 5
  (toy_at [asks CO_OPERATION_IDLE; asks CO_OPERATION_YIELD; asks CO_OPERATION_TERMINATE],
   lstart toy_page (fun _ => 0)).

Lemma crossings_accounted_witness :
  toy_run.1 = Ret true /\ out toy_run.2.2 o_switches = 3 /\ guest_crossings toy_run.2.2 = 2 /\
  out toy_run.2.2 o_idle_yields = 1 /\ out toy_run.2.2 o_guest_switches = guest_crossings toy_run.2.2.
Proof.
  assert (toy_run.1 = Ret true /\ out toy_run.2.2 o_switches = 3 /\ guest_crossings toy_run.2.2 = 2 /\
    out toy_run.2.2 o_idle_yields = 1) as (E & E1 & E2 & E3) by (vm_compute; done).
  split; [exact E|]. split; [exact E1|]. split; [exact E2|]. split; [exact E3|].
  pose proof (crossings_accounted (W := toy) extable_none toy_ctl 0 0x100 0x8000 5
    (toy_at [asks CO_OPERATION_IDLE; asks CO_OPERATION_YIELD; asks CO_OPERATION_TERMINATE])
    toy_page (fun _ => 0) eq_refl eq_refl eq_refl ltac:(vm_compute; split; [discriminate|reflexivity])) as Hx.
  fold toy_run in Hx. clear E1 E2 E3. destruct toy_run as [[b|rc|] [w s]]; [|done..].
  cbn in E. injection E as ->. by apply Hx.
Defined.

(** The guest's table of deadlines is at 0x2800 and names 8000; its clock says
    1000, then the wait is for that instant. *)
Definition deadline_ctl : co_vcpu_ctl_t :=
  {| max_switches := 5; ctl_step := false; ctl_batch := 0; deadline_secs := 1;
     tick_entry_va := 0x9000; virtual_if_va := 0x3000; ipi_pending_va := 0;
     timer_deadline_va := 0x2800; async_cobd := false; cobd_io_va := 0; idle_stop_after := 0 |}.
Definition deadline_mem : mem := store_u64 (fun _ => 0) 0x2808 8000.
Definition deadline_toy : toy := MkToy deadline_mem 1000 (fun _ => 7) [].
Definition idle_state : lstate := lstart (set_operation CO_OPERATION_IDLE toy_page) (fun _ => 0).


Lemma secondary_stops_for_cause_witness :
  let run := iteration (W := toy) extable_none toy_ctl 1 0x100 0x8000
    (toy_at [asks 99], lstart toy_page (fun _ => 0)) in
  run.1 = Ret Stop /\ stop_cause run.2.2 /\ out run.2.2 o_stop_operation = 99.
Proof.
  cbn zeta. set (run := iteration _ _ _ _ _ _).
  assert (run.1 = Ret Stop /\ out run.2.2 o_stop_operation = 99) as [E E1] by (vm_compute; done).
  split; [exact E|]. split; [|exact E1].
  pose proof (secondary_stops_for_cause (W := toy) extable_none toy_ctl 1 0x100 0x8000
    (toy_at [asks 99], lstart toy_page (fun _ => 0)) ltac:(discriminate) eq_refl) as Hx.
  fold run in Hx. clear E1. destruct run as [[[]|rc|] [w s]]; [done|exact Hx|done..].
Defined.

(** A fault with its frame at 0x2000, in memory that is all the guest's. *)
Definition fault_mem : mem := store_bytes (fun _ => 0) 0x2000 (unwords (toy_frame 0x5010)).
Definition fault_page : passage :=
  set_param 5 0x5010 (set_param 16 13 toy_page).
Definition low (x : Z) : Prop := 0x1f00 <= x < 0x4000.

Lemma low_covers va n : 0x1f00 <= va -> 0 < n -> va + n <= 0x4000 -> covers low va n.
Proof. intros. split; [lia|]. split; [lia|]. split; [lia|]. intros x Hx. unfold low. lia. Qed.

Lemma fault_recovered_in_place_witness :
  exists w' s', involuntary (W := toy) toy_table toy_ctl 0 0x100 0x8000
      (MkToy fault_mem 0 (fun _ => 7) [], lstart fault_page (fun _ => 0)) = (Ret Again, (w', s')) /\
    exists m', gv_view w' 1 low m' /\ load_u64 m' 0x2088 = 0x6010 /\ load_u64 m' 0x2060 = 2 ^ 64 - 5.
Proof.
  destruct (fault_recovered_in_place (W := toy) toy_table toy_ctl 0 0x100 0x8000
    (MkToy fault_mem 0 (fun _ => 7) []) (lstart fault_page (fun _ => 0)) fault_mem low)
    as (r & w' & s' & Hrun & _ & _ & Hm);
    [done|done|done|done|by split|by apply low_covers|].
  assert (co_arch_extable_fixup toy_table (Some (words 22 (load_bytes fault_mem 0x2000 frame_bytes))) 13 =
    (11, Some [0x10f; 0x10e; 0x10d; 0x10c; 0x10b; 0x10a; 0x109; 0x108; 0x105; 0x107; 0x106; 0;
               2 ^ 64 - 5; 0x103; 0; 13; 0; 0x6010; 0x33; 0x202; 0x104; 0x2b])) as E
    by (vm_compute; reflexivity).
  change (param (pp (lstart fault_page (fun _ => 0))) 28) with 0x2000 in Hm.
  change (param (pp (lstart fault_page (fun _ => 0))) 16) with 13 in Hm. rewrite E in Hm.
  destruct Hm as (-> & (m' & Hv & Hw & _) & _). exists w', s'. split; [exact Hrun|].
  exists m'. split; [exact Hv|].
  split; [exact (Hw 17%nat ltac:(lia))|exact (Hw 12%nat ltac:(lia))].
Defined.

(** The same frame is a host interrupt's; the guest's interrupts are on. *)
Definition tick_mem : mem := store_u64 fault_mem 0x3000 0x200.
Definition tick_state : lstate :=
  LState toy_page (fun f => if decide (f = o_idle_yields) then 1 else 0) 0 0 0 1 0.

Lemma tick_injected_as_interrupt_witness :
  exists w' s' m', co_arch_inject_tick (W := toy) toy_ctl 0 (MkToy tick_mem 200000 (fun _ => 7) [], tick_state)
      = (Ret tt, (w', s')) /\ gv_view w' 1 low m' /\
    ticked toy_ctl 0 tick_state s' tick_mem m' /\ load_u64 m' 0x2088 = 0x9000 /\
    load_u64 m' 0x1fc0 = 0x5010.
Proof.
  destruct (tick_injected_as_interrupt (W := toy) toy_ctl 0 (MkToy tick_mem 200000 (fun _ => 7) [])
    tick_state tick_mem low) as (w' & s' & m' & Hrun & Hv & _ & [[Hout _]|[_ Ht]]);
    [done|by split|by apply low_covers|by apply low_covers|by left| |].
  - exfalso.
    assert (out (co_arch_inject_tick (W := toy) toy_ctl 0
      (MkToy tick_mem 200000 (fun _ => 7) [], tick_state)).2.2 o_ticks_injected = 1) as E by (vm_compute; done).
    rewrite Hrun in E. cbn in E. rewrite Hout in E. done.
  - exists w', s', m'. split; [exact Hrun|]. split; [exact Hv|]. split; [exact Ht|].
    pose proof (tk_entry _ _ _ _ _ _ Ht 0 ltac:(lia)) as H1.
    pose proof (tk_saved _ _ _ _ _ _ Ht 0 ltac:(lia)) as H2.
    split; [exact H1|].
    transitivity (iret tick_mem 0x2000 0); [exact H2|vm_compute; reflexivity].
Defined.

Lemma toy_headless : headless (W := toy).
Proof. intros w. exists w. split; [done|unfold cycles; cbn; lia]. Qed.

Lemma run_ends_by_deadline_witness :
  exists n, forall k, (n <= k)%nat -> exists w' s',
    co_arch_vcpu_run (W := toy) extable_none toy_ctl 0 0x100 0x8000 k
      (toy_at [asks CO_OPERATION_IDLE], lstart toy_page (fun _ => 0)) = (Ret true, (w', s')).
Proof.
  apply (run_ends_by_deadline (W := toy) extable_none toy_ctl 0 0x100 0x8000
    (toy_at [asks CO_OPERATION_IDLE]) (lstart toy_page (fun _ => 0)) toy_headless).
  - cbn. lia.
  - intros w' _ <-. vm_compute. done.
Defined.

(** The record of damage mixes two crossings: the first damages PAT, the second
    CR8. The field and the step are those of the first, the two values those of
    the second. *)
Definition damages (f : co_host_field_t) (v : Z) : (passage -> passage) * (cpu -> cpu) :=
  (set_operation CO_OPERATION_YIELD, write_reg f v).
Lemma host_record_mixed :
  let s := (turns (W := toy) extable_none toy_ctl 0 0x100 0x8000 2
    (toy_at [damages CO_HOST_FIELD_PAT 6; damages CO_HOST_FIELD_CR8 5], lstart toy_page (fun _ => 0))).2.2 in
  out s o_host_corrupt_field = field_value CO_HOST_FIELD_PAT /\ out s o_host_corrupt_actual = 5.
Proof. vm_compute. done. Qed.
